(* ===== verification/_CoqProject ===== *)
-Q . S2P
Prelude.v
Text.v
Breaker.v
RtbBudget.v
RtbRace.v
RtbCatalog.v
RtbFcap.v
RtbAuction.v
Wire.v
UdpCodec.v
UdpControl.v
SlotMap.v
RedisKeys.v
QuantaLedger.v
DeltaRing.v
SlotMigration.v
SpendSync.v
PoisonSplit.v
Processor.v
BrokerWire.v
BrokerLog.v
BrokerStore.v
BrokerTopics.v
BrokerRetention.v
LocalFcap.v
DebitScripts.v
UnifiedFilter.v
DebitLedger.v
FilterPaths.v
SharedFilter.v
SqlTx.v
PaymentLedger.v
PaymentWebhook.v
PaymentSettlement.v
QuotaGovernance.v
StreamLane.v
LaneFlush.v
ClickIdem.v
Money.v
CampaignLedger.v
Invoice.v
FlowRouting.v
OperationLease.v
RegionRelay.v
