(* ===== verification/Prelude.v ===== *)
(** * Verification of the ad event processor

    The repository is an advertising event platform in Go: trackers accept
    clicks, impressions and OpenRTB bid requests, debit campaign budgets and
    enqueue the events; a control plane publishes limits and slot maps to
    the trackers; background workers settle the spend.  This development
    models the parts of it that move money, route campaigns and keep
    trackers and control plane in step, and proves what makes them correct.

    Conventions.  A Go integer is a [Z] kept in its width by the wrapping
    functions below ([i64], [u64], [u32], ...; infix [+64], [-64], [*64]); a
    byte slice or string is a list of integers in [0, 256); a slice indexed
    by an integer is a list with [at_z] and [set_z]; a Go map is a stdpp
    [gmap]; a panic, a missing value and an error are [None], a sum or a
    boolean result, as the operation returns them.  State is passed
    explicitly; code that runs concurrently is a step relation over its
    atomic operations.  Third-party code, Redis and Postgres answers and the
    clock are parameters or inputs of the operations.  Function names are
    those of the source.

    The parts, their files and what is proved.

    - [Prelude]: machine integers, automation ([go_lia], [nowrap], [case_if])
      and the list and sum lemmas the components share.

    - [Text]: the text functions of Go's [strings] the components share.

    - [Breaker] (internal/stream/breaker/circuit_breaker.go): the circuit
      breaker of the stream consumers.  One probe at a time when half open;
      no failure counter reaches the threshold while closed; the reported
      wait is necessary and sufficient.

    - [RtbBudget], [RtbRace] (internal/rtb/budget_store.go, budget_spend.go):
      the in-memory budget store of the auction.  [RtbBudget] has every
      operation run alone, with the all-or-nothing debit of campaign,
      customer and daily legs and the well-formedness of reachable stores.
      [RtbRace] has the same debits as interleaved atomic steps: no
      interleaving overspends, and slot growth can lose a debit.

    - [RtbCatalog] (internal/rtb/catalog_*.go): the bucketed catalog, its geo
      and targeting indexes and the ranking score; the geo index is exact.

    - [RtbFcap] (internal/rtb/auction_freqcap.go): the frequency-cap hash
      table answers as the map it was built from.

    - [RtbAuction] (internal/rtb/auction.go, auction_rank.go,
      auction_clearing.go, auction_daypart.go, no_bid.go): filters, ranking,
      clearing and debit of one auction, what each outcome guarantees, the
      equivalence of the early-exit scan with a reference auction, and two
      defects (creative overrides, score overflow).

    - [Wire], [UdpCodec], [UdpControl]: the UDP control channel.  [Wire] has
      the byte accessors; [UdpCodec] the packet formats of
      internal/domain/shard/control_udp_*.go with their round trips;
      [UdpControl] the tracker's state machine
      (internal/stream/tracker_udp_control.go), the publisher
      (internal/control/udp_server.go) and the ingress quota cells.  A packet
      is adopted exactly when its bytes are those of an epoch that follows the
      tracker's or tightens it, and then whole; any bytes leave the epoch
      monotone; the quota bounds admissions; and the packets that are wrongly refused,
      wrongly accepted or crash the tracker.

    - [SlotMap] (internal/domain/shard/sharding.go, slot_index.go,
      store_slot_map.go, slot_map_loader.go, slot_map_parity.go,
      internal/shardadmin/slot_migration_activate.go): the 1024-slot routing
      table and its versions in Postgres.  Every reachable database has a
      complete active version, which loads; a new version is the base with
      its overrides; tracker and edge agree modulo 256.

    - [RedisKeys] (internal/domain/shard/redis_keys.go,
      internal/stream/local_quanta_keys.go): key builders and the Redis
      Cluster slot.  A campaign's keys share a slot, CRC-16 is the
      polynomial, and the spend counters that are written under one key and
      drained under another.

    - [QuantaLedger] (internal/stream/local_quanta*.go): the tracker's local
      budget chunks, the refill worker, strict mode, flush and recovery.
      Under any operations of one tracker, restarts and Redis failures
      included, money is conserved but for what a recovery credits again,
      which is counted; recovery, sub-slots and cell collisions are where it
      is misattributed.

    - [DeltaRing] (internal/stream/local_quanta_broker.go): the lock-free
      ring of budget deltas.  Under any interleaving of producers and worker
      the deltas come out in claim order, intact and once; the write cursor
      may hide one.

    - [SlotMigration] (internal/domain/shard/slot_migration_dual_write.go,
      slot_migration_rewarm.go): replay of the debits logged while a slot
      migrates, exactly once when it succeeds, twice after an error.

    - [SpendSync] (internal/domain/worker_sync.go, worker_sync_dedup.go,
      store_campaign.go, internal/dedup/adapter.go): the worker that moves
      spent budget from the Redis counters to Postgres: the prepare and
      commit scripts, the staged rollup, the idempotent claim and the flush
      transaction, under crashes, lock expiry and lost replies.  With one
      worker, whose sequence numbers do not come up again, Postgres never
      charges more than was debited and exactly that once the counters are
      empty; a healthy round settles; and the two ways spend is stranded for
      good, what two workers charge twice and a reused number drops.

    - [PoisonSplit], [Processor] (internal/stream/processor*.go,
      store_errors.go): the Redis stream consumer.  [PoisonSplit] states what
      the worker expects of an event store (the class [EventStore]) and
      proves the bisection of a failing batch against it: it terminates in
      2n-1 calls and isolates the poison rows.  [Processor] has the worker's
      flush, dead-lettering, recovery, janitor and shutdown over the stream's
      pending list: no delivered message is lost while dead-letter writes
      succeed, the loops return, a flush never leaves [Breaker] half open.

    - [BrokerWire] (pkg/broker/protocol/protocol.go, offset.go): frames,
      requests, responses and batches of the message broker, their round
      trips, and exactly which bytes make a decoder panic.

    - [BrokerLog], [BrokerStore] (pkg/broker/log/log.go): the memory-mapped
      partition log.  [BrokerLog] has the operations over file bytes and the
      lemmas of its three loops; [BrokerStore] the segment invariant and the
      refinement of the whole log (appends, replication, fencing, rolls,
      restarts, reads) to an append-only list of payloads with an epoch; and
      what a stale writer, two epoch advances, an oversized record and a torn
      record do to it.

    - [BrokerTopics] (pkg/broker/protocol/protocol.go, registry_store.go,
      partition.go, pkg/broker/consumer_offset.go): topic ids are unique and
      stable across restarts, partition names parse back, committed offsets
      never go back in a process; and how restarts, merges and sanitised
      names break them.

    - [BrokerRetention] (pkg/broker/log/retention.go): a guarded retention
      pass changes no read at or past the safe offset.

    - [LocalFcap] (internal/stream/local_fcap.go): the tracker's table of
      per-user counters.  Whatever the interleaving of the workers on a cell,
      a window accepts at most its cap, plus one per accept undone and the
      cap again per reset by a worker that found the window ended; a probe that finds no cell refuses, and
      goes on refusing; workers at the end of a window overshoot.

    - [DebitScripts], [UnifiedFilter]
      (internal/filter/unified/*.lua, unified*.go,
      internal/filter/budget_warmer.go, engine.go): the debit of a click in
      Redis.  [DebitScripts] has the Lua scripts over a shard's store with
      their effect and frame lemmas; [UnifiedFilter] the Go side: shard, keys
      and arguments, the two attempts with recovery of a missing budget key,
      the reply codes, rollback and publication.

    - [DebitLedger]: the fast script and the rollback implement an abstract
      ledger; a click is charged once and given back at most once.

    - [FilterPaths]: a check whose event cannot be published leaves the
      balance it found; and where rollback, recovery and the two scripts do
      not fit each other.

    - [SharedFilter]: the fields of the one filter all workers share.  Checks
      that follow one another restore them and prompt frequency bumps count
      the right user; overlapping checks can keep a switch stuck, debit under
      another event's keys and count another user.

    - [SqlTx]: transactions, a state and error monad whose [BeginFunc] commits
      or rolls back, with the lemmas that invert a run and preserve an
      invariant.  The payment and quota files are written in it.

    - [PaymentLedger] (internal/billingadmin/ledger_mutations.go,
      internal/ledger/ledger_invariant_assert.go): the balance ledger.  Under
      any interleaving of requests no movement changes the drift between
      balance and ledger, refunds and chargebacks stay within the credit,
      and a request sent again changes nothing.

    - [PaymentWebhook] (internal/payment/checkout, internal/payment/webhook,
      internal/payment/settlement/worker_crypto_hold.go): payment intents,
      the Stripe and crypto webhooks, disputes, replay and the crypto holds.
      The tables stay consistent with each other, Stripe, crypto, refunds and
      disputes; an event is handled once; what early, late and replayed events
      do.

    - [PaymentSettlement] (internal/payment/settlement): the outbox worker
      between the payment database and the ledger, with leases, retries,
      crashes and lost replies, and the reconciliation of the two.  A payment
      is credited once and refunded as reported, enough rounds in which the
      database answers drain the outbox, the reconciliation reads the credit
      right; and the rows that are lost.

    - [QuotaGovernance] (internal/governance/quota.go,
      internal/domain/store_quota.go): the budget chunks reserved in Postgres
      and credited to the quota keys of the trackers.  Spend and reservation
      exceed the budget by no more than the flushes beyond what was reserved,
      a refill is backed, repairs end and are applied
      once; and how key names, lost replies and releases break it.

    - [StreamLane], [LaneFlush] (internal/stream/local_quanta_stream.go): the
      ring of accepted events in front of Redis.  [StreamLane] has producers
      and worker as interleaved atomic steps over the slots: what was accepted
      comes out once, intact and in claim order, unless a claim is taken back,
      which can wedge the lane.  [LaneFlush] has the three pipelines of a
      flush: a click is booked at most once, a flush that is answered books
      what it accepted, and what failed pipelines lose.

    - [ClickIdem] (internal/stream/local_quanta_idem.go): the click cache in
      front of the lane, claims and releases as atomic steps.  Every refusal has a
      claim behind it when calls do not overlap; overlapping ones grant a
      click twice or refuse an expired one.

    - [Money] (pkg/money/money.go): amounts as text and their products.  Every
      amount survives formatting and parsing; large ones wrap.

    - [CampaignLedger] (internal/campaign, internal/domain/store_campaign.go,
      internal/domain/budget, internal/reconciliation/adjust_applier.go): the
      transactions that create, reprice, pause, settle, rebalance and end
      campaigns.  Through all of them and the payments a balance and what its
      campaigns hold stay what the ledger explains, but for customer syncs,
      suspensions and overspent campaigns, which are counted; a creation runs once, a
      draining pass ends; and how the ledger check, repeated limits and
      suspensions break.

    - [Invoice] (internal/ledger): the monthly invoices, their tax, preview
      and voiding.  A customer has one invoice for a month and its figures
      never change, months partition the spend, an invoice has the figures and
      the lines of its preview, in its own order; and how margin entries block
      it.

    - [FlowRouting] (internal/filter/flow_routing.go, rotation_seen.go,
      offer_click_cap.go, internal/ingest/flow_click.go): the lander and
      offer a click is sent to.  Weights are honoured bucket by bucket, a
      selection is one its flow allows, click caps hold under every
      interleaving, up to eight offers are tried; and what the ninth, lost
      answers and the visitor key break.

    - [OperationLease] (internal/shardadmin/lease_*.go, internal/dedup,
      pkg/regionproxy/quorum and their tables): the leases under which nodes
      execute operations, with quorum, fencing epochs and dedup proposals, as
      steps of calls on several nodes.  An operation runs at most once and a
      fresh one runs; fencing epochs grow; the claims of a scope agree; and
      how a second operation of a replica set, a failed execution and
      overlapping epochs are lost.

    - [RegionRelay] (internal/outbox/region_relay.go): the delivery of outbox
      events to a cell, direct or under a lease.  What is delivered was
      handled, the first event of a region is delivered, and no later one is,
      though every round reports it as delivered.

    Interaction.  [SlotMap] routes a campaign to the shard on which the keys
    of [RedisKeys] live; [QuantaLedger] refills from and returns to those
    keys and publishes what it debits through [DeltaRing]; [SlotMigration]
    moves them to another shard before [SlotMap] activates a new version;
    [UdpControl] carries the slot version and limits to the tracker.
    [UnifiedFilter] picks the shard through [SlotMap], runs [DebitScripts]
    under the keys of [RedisKeys] and asks [LocalFcap] first.
    [SpendSync] drains the counters those scripts fill.
    [QuotaGovernance] answers the refill requests of [UnifiedFilter] over the
    same store.  [PaymentWebhook] writes the rows that [PaymentSettlement]
    turns into the requests of [PaymentLedger].  [CampaignLedger] works on
    the same balances and entries, with the percentages of [Money], and runs
    the flush transaction of [SpendSync] in full.  [Invoice] reads the
    entries of [PaymentLedger].  [RegionRelay] books and executes its events
    through [OperationLease], whose theorems its own are proved from.
    [StreamLane] hands its
    slots to [LaneFlush], which writes the counters [SpendSync] drains and
    the stream [Processor] reads.
    [RtbAuction] ranks rows of [RtbCatalog], asks [RtbFcap] for the
    frequency caps and debits [RtbBudget].  [Processor] asks [Breaker]
    before a flush, reports to it after, and stores through [PoisonSplit],
    whose class [EventStore] is the interface between the two.
    [BrokerLog] stores the payloads [BrokerWire] decodes and returns records
    a client iterates; [BrokerRetention] rewrites the segment list
    [BrokerStore] proves correct.

    Bounds and fuel.  The hash probe of [RtbFcap] uses the table length as
    fuel, and the refinement theorem shows a lookup always returns; table
    sizes and counters are those of the source (1024 slots, 4096 cells, 8192
    ring entries); [DeltaRing] bounds a run by 2^64 claims.  [PoisonSplit]
    splits with the batch length as fuel, [Processor] recovers with the size
    of the pending list and drains with that of the queue, [BrokerWire]
    iterates with the bytes left, and the loops of [BrokerLog] have one more
    than the bytes or entries they advance over; each file proves its fuel
    enough.  [BrokerStore] takes segments below 2 GiB and runs below 2^64
    operations; [BrokerTopics] runs below 2^32.  [UnifiedFilter] runs a
    script at most twice, as the code's loop does; the integers of
    [DebitScripts] stand for Lua's doubles up to 2^53.  [PaymentLedger] takes
    provider amounts below 2^61 micro-units; the hold worker of
    [PaymentWebhook] has one round more than there are holds as fuel, which
    is proved enough.  [CampaignLedger] drains at most a hundred campaigns a
    pass, as the code does; its main theorem takes amounts that fit their
    columns and spend, adjustments and repricing of campaigns that are not
    deleted.

    A call of [OperationLease] has its thirteen steps as fuel, which is
    proved enough; [RegionRelay] runs it whole.

    Not modelled: sockets, HTTP, metrics, logging and sleeping; object pools
    other than the event pool of [Processor]; protobuf and JSON encoding;
    fsync and the disk gate; the loading of scripts and their hashes; the
    filters other than the unified one and the engine's ordering of them; the
    click-delay and rough-pacing caches; the catalog rebuild
    ([UpdateCampaigns]), whose result [RtbCatalog] takes as given; the
    loading of flows, URLs and counts, which [FlowRouting] takes as given;
    the expiry of its Redis keys; the broker's server and cluster, which
    are sockets, Redis locks and files around the modelled log; payload
    redaction and the clients of the payment providers; the settings of a
    campaign that hold no money; and the administrative, reporting and
    licensing services beside the ones above. *)
From stdpp Require Export base numbers list gmap strings sorting.
From Stdlib Require Export ZArith Lia.
#[global] Open Scope Z_scope.

(** * Machine integers

    Go's fixed-width integers are [Z] values kept in range by the wrapping
    functions below.  Every arithmetic operation of the source that can
    leave its width is written with one of the [+64]-style operators. *)

Definition max_i64 : Z := 9223372036854775807.
Definition min_i64 : Z := -9223372036854775808.

Definition in_i64 (z : Z) : Prop := min_i64 <= z <= max_i64.
Definition in_i32 (z : Z) : Prop := -2147483648 <= z <= 2147483647.
Definition in_u64 (z : Z) : Prop := 0 <= z < 18446744073709551616.
Definition in_u32 (z : Z) : Prop := 0 <= z < 4294967296.
Definition in_u16 (z : Z) : Prop := 0 <= z < 65536.
Definition in_u8 (z : Z) : Prop := 0 <= z < 256.

#[export] Instance in_i64_dec z : Decision (in_i64 z).
Proof. unfold in_i64. apply _. Defined.

#[export] Instance in_u64_dec z : Decision (in_u64 z).
Proof. unfold in_u64. apply _. Defined.

Definition i64 (z : Z) : Z :=
  (z + 9223372036854775808) mod 18446744073709551616 - 9223372036854775808.
Definition i32 (z : Z) : Z := (z + 2147483648) mod 4294967296 - 2147483648.
Definition i16 (z : Z) : Z := (z + 32768) mod 65536 - 32768.
Definition u64 (z : Z) : Z := z mod 18446744073709551616.
Definition u32 (z : Z) : Z := z mod 4294967296.
Definition u16 (z : Z) : Z := z mod 65536.
Definition u8 (z : Z) : Z := z mod 256.

Declare Scope go_scope.
Delimit Scope go_scope with go.
Notation "a +64 b" := (i64 (a + b)) (at level 50, left associativity) : go_scope.
Notation "a -64 b" := (i64 (a - b)) (at level 50, left associativity) : go_scope.
Notation "a *64 b" := (i64 (a * b)) (at level 40, left associativity) : go_scope.
(** Go's integer division truncates toward zero; [MinInt64 / -1] wraps. *)
Notation "a /64 b" := (i64 (Z.quot a b)) (at level 40, left associativity) : go_scope.
Notation "a +u64 b" := (u64 (a + b)) (at level 50, left associativity) : go_scope.
Notation "a -u64 b" := (u64 (a - b)) (at level 50, left associativity) : go_scope.
Notation "a *u64 b" := (u64 (a * b)) (at level 40, left associativity) : go_scope.
Notation "a +u32 b" := (u32 (a + b)) (at level 50, left associativity) : go_scope.
Notation "a *u32 b" := (u32 (a * b)) (at level 40, left associativity) : go_scope.
#[global] Open Scope go_scope.

Lemma i64_id z : in_i64 z -> i64 z = z.
Proof. unfold in_i64, min_i64, max_i64, i64. intros. rewrite Z.mod_small; lia. Qed.

Lemma i32_id z : in_i32 z -> i32 z = z.
Proof. unfold in_i32, i32. intros. rewrite Z.mod_small; lia. Qed.

Lemma u64_id z : in_u64 z -> u64 z = z.
Proof. unfold in_u64, u64. intros. rewrite Z.mod_small; lia. Qed.

Lemma u32_id z : in_u32 z -> u32 z = z.
Proof. unfold in_u32, u32. intros. rewrite Z.mod_small; lia. Qed.

Lemma u16_id z : in_u16 z -> u16 z = z.
Proof. unfold in_u16, u16. intros. rewrite Z.mod_small; lia. Qed.

Lemma u8_id z : in_u8 z -> u8 z = z.
Proof. unfold in_u8, u8. intros. rewrite Z.mod_small; lia. Qed.

Lemma i64_range z : in_i64 (i64 z).
Proof.
  unfold in_i64, min_i64, max_i64, i64.
  pose proof (Z.mod_pos_bound (z + 9223372036854775808) 18446744073709551616). lia.
Qed.

Lemma u64_range z : in_u64 (u64 z).
Proof. unfold in_u64, u64. apply Z.mod_pos_bound. lia. Qed.

Lemma u32_range z : in_u32 (u32 z).
Proof. unfold in_u32, u32. apply Z.mod_pos_bound. lia. Qed.

Lemma u8_range z : in_u8 (u8 z).
Proof. unfold in_u8, u8. apply Z.mod_pos_bound. lia. Qed.

(** Wrapping to [uint64] and back to [int64] is the identity on [int64]:
    the two casts of the wire codecs. *)
Lemma i64_u64 z : in_i64 z -> i64 (u64 z) = z.
Proof.
  unfold in_i64, min_i64, max_i64, i64, u64. intros.
  rewrite Z.add_mod_idemp_l by lia. rewrite Z.mod_small; lia.
Qed.

Lemma i32_u32 z : in_i32 z -> i32 (u32 z) = z.
Proof.
  unfold in_i32, i32, u32. intros.
  rewrite Z.add_mod_idemp_l by lia. rewrite Z.mod_small; lia.
Qed.

Lemma i64_i64_add a b : i64 (i64 a + b) = i64 (a + b).
Proof.
  unfold i64. set (m := 18446744073709551616). set (c := 9223372036854775808).
  replace ((a + c) mod m - c + b + c) with ((a + c) mod m + b) by lia.
  rewrite Z.add_mod_idemp_l by (subst m; lia).
  replace (a + c + b) with (a + b + c) by lia. done.
Qed.

(** * Bit packing *)

Lemma land_shiftl_low x y n : 0 <= n -> 0 <= y < 2 ^ n -> Z.land (Z.shiftl x n) y = 0.
Proof.
  intros Hn Hy. apply Z.bits_inj'. intros m Hm. rewrite Z.land_spec, Z.bits_0.
  destruct (Z.lt_ge_cases m n).
  - by rewrite Z.shiftl_spec_low.
  - rewrite andb_comm. replace y with (y mod 2 ^ n) by (apply Z.mod_small; lia).
    by rewrite Z.mod_pow2_bits_high by lia.
Qed.

(** A field of [n] bits below a shifted field: the [or] is a sum. *)
Lemma lor_shiftl_add x y n :
  0 <= n -> 0 <= y < 2 ^ n -> Z.lor (Z.shiftl x n) y = x * 2 ^ n + y.
Proof.
  intros Hn Hy. pose proof (land_shiftl_low x y n Hn Hy) as H0.
  rewrite <- Z.lxor_lor by done. rewrite <- Z.add_nocarry_lxor by done.
  by rewrite Z.shiftl_mul_pow2.
Qed.

(** * Automation *)

Create HintDb go discriminated.
Create Rewrite HintDb go.
#[export] Hint Resolve i64_range u64_range u32_range u8_range : go.

Ltac unfold_ranges :=
  unfold in_i64, in_i32, in_u64, in_u32, in_u16, in_u8, min_i64, max_i64 in *.

(** [go_lia] proves linear facts about machine integers. *)
Ltac go_lia := unfold_ranges; lia.

(** [nowrap] removes every 64-bit wrap whose argument [lia] can show in range. *)
Ltac nowrap :=
  repeat match goal with
  | |- context [i64 ?z] => rewrite (i64_id z) by go_lia
  | |- context [u64 ?z] => rewrite (u64_id z) by go_lia
  | |- context [u32 ?z] => rewrite (u32_id z) by go_lia
  end.
Ltac nowrap_in H :=
  repeat match type of H with
  | context [i64 ?z] => rewrite (i64_id z) in H by go_lia
  | context [u64 ?z] => rewrite (u64_id z) in H by go_lia
  | context [u32 ?z] => rewrite (u32_id z) in H by go_lia
  end.

(** [case_if] splits on the first [if] or [match] of the goal; [step_if H]
    on the first one of a hypothesis. *)
Ltac case_if :=
  match goal with
  | |- context [if ?b then _ else _] => destruct b eqn:?
  | |- context [match ?x with _ => _ end] => destruct x eqn:?
  end.
Ltac step_if H :=
  match type of H with
  | context [if ?b then _ else _] => destruct b eqn:?
  | context [match ?x with _ => _ end] => destruct x eqn:?
  end.

(** * Lists *)

Definition zlen {A} (l : list A) : Z := Z.of_nat (length l).

Lemma zlen_nonneg {A} (l : list A) : 0 <= zlen l.
Proof. unfold zlen. lia. Qed.

Lemma zlen_app {A} (l1 l2 : list A) : zlen (l1 ++ l2) = zlen l1 + zlen l2.
Proof. unfold zlen. rewrite length_app. lia. Qed.

(** Indexing by a Go integer: [None] is the out-of-range panic. *)
Definition at_z {A} (l : list A) (i : Z) : option A :=
  if (0 <=? i) && (i <? zlen l) then l !! Z.to_nat i else None.

(** Assignment to an element; the callers check the range first. *)
Definition set_z {A} (l : list A) (i : Z) (x : A) : list A :=
  <[Z.to_nat i := x]> l.

Lemma at_z_Some {A} (l : list A) i :
  0 <= i < zlen l -> exists x, at_z l i = Some x /\ l !! Z.to_nat i = Some x.
Proof.
  intros H. unfold at_z, zlen in *.
  replace ((0 <=? i) && (i <? Z.of_nat (length l))) with true by lia.
  destruct (lookup_lt_is_Some_2 l (Z.to_nat i)) as [x Hx]; [lia | eauto].
Qed.

Lemma at_z_range {A} (l : list A) i x : at_z l i = Some x -> 0 <= i < zlen l.
Proof. unfold at_z. case_if; [intros _; lia | discriminate]. Qed.

Lemma at_z_lookup {A} (l : list A) i x : at_z l i = Some x -> l !! Z.to_nat i = Some x.
Proof. unfold at_z. case_if; [done | discriminate]. Qed.

Lemma at_z_set_eq {A} (l : list A) i x : 0 <= i < zlen l -> at_z (set_z l i x) i = Some x.
Proof.
  intros H. unfold at_z, set_z, zlen in *. rewrite length_insert.
  replace ((0 <=? i) && (i <? Z.of_nat (length l))) with true by lia.
  apply list_lookup_insert_eq. lia.
Qed.

Lemma at_z_set_ne {A} (l : list A) i j x : 0 <= i -> i <> j -> at_z (set_z l i x) j = at_z l j.
Proof.
  intros Hi Hne. unfold at_z, set_z, zlen. rewrite length_insert.
  case_if; [apply list_lookup_insert_ne; lia | done].
Qed.

Lemma zlen_set {A} (l : list A) i x : zlen (set_z l i x) = zlen l.
Proof. unfold zlen, set_z. by rewrite length_insert. Qed.
#[export] Hint Rewrite @zlen_set : go.

Lemma filter_none {A} (P : A -> Prop) `{!forall x, Decision (P x)} (l : list A) :
  Forall (fun x => ~ P x) l -> filter P l = [].
Proof. induction 1 as [|x l Hx _ IH]; [done|]. by rewrite filter_cons, decide_False. Qed.

Lemma filter_all {A} (P : A -> Prop) `{!forall x, Decision (P x)} (l : list A) :
  Forall P l -> filter P l = l.
Proof.
  induction 1 as [|x l Hx _ IH]; [done|]. rewrite filter_cons, decide_True by done.
  by rewrite IH.
Qed.

Lemma StronglySorted_filter {A} (R : A -> A -> Prop) (P : A -> Prop)
    `{!forall x, Decision (P x)} (l : list A) :
  StronglySorted R l -> StronglySorted R (filter P l).
Proof.
  induction 1 as [|x l Hs IH Hx]; [constructor|]. rewrite filter_cons.
  case_decide; [|done]. constructor; [done|]. rewrite Forall_forall in *.
  intros y [_ Hy]%list_elem_of_filter. auto.
Qed.

(** * Sums of integers *)

Fixpoint sumZ (l : list Z) : Z :=
  match l with [] => 0 | x :: r => x + sumZ r end.

Lemma sumZ_app l1 l2 : sumZ (l1 ++ l2) = sumZ l1 + sumZ l2.
Proof. induction l1; simpl; lia. Qed.

Lemma sumZ_insert l i x y :
  l !! i = Some x -> sumZ (<[i := y]> l) = sumZ l - x + y.
Proof.
  revert i. induction l as [|z l IH]; intros [|i] H; simpl in *; try done.
  - simplify_eq. lia.
  - rewrite (IH _ H). lia.
Qed.

Lemma sumZ_nonneg l : Forall (Z.le 0) l -> 0 <= sumZ l.
Proof. induction 1; simpl; lia. Qed.

Lemma sumZ_perm l l' : l ≡ₚ l' -> sumZ l = sumZ l'.
Proof. induction 1; cbn; lia. Qed.

(** The sum of a weight over the bindings of a map. *)
Definition map_total {K A} `{Countable K} (f : K * A -> Z) (m : gmap K A) : Z := sumZ (map f (map_to_list m)).

Definition weight_at {K A} `{Countable K} (f : K * A -> Z) (m : gmap K A) (i : K) : Z :=
  match m !! i with Some x => f (i, x) | None => 0 end.

Lemma map_total_delete {K A} `{Countable K} (f : K * A -> Z) (m : gmap K A) i :
  map_total f m = map_total f (delete i m) + weight_at f m i.
Proof.
  unfold map_total, weight_at. destruct (m !! i) as [x|] eqn:E.
  - rewrite <- (sumZ_perm _ _ (Permutation_map f (map_to_list_delete m i x E))). cbn. lia.
  - rewrite delete_id by done. lia.
Qed.

Lemma map_total_insert {K A} `{Countable K} (f : K * A -> Z) (m : gmap K A) i x :
  map_total f (<[i := x]> m) = map_total f m - weight_at f m i + f (i, x).
Proof.
  rewrite (map_total_delete f m i), (map_total_delete f (<[i := x]> m) i), delete_insert_eq.
  unfold weight_at. rewrite lookup_insert_eq. lia.
Qed.
