(* ===== verification/Text.v ===== *)
(** * Text

    The functions of Go's [strings] package the components use, on ASCII
    text. *)

From S2P Require Import Prelude.
From Stdlib Require Import Ascii String.
Open Scope Z_scope.

Module Text.

Local Open Scope nat_scope.

Definition lower_ascii (c : ascii) : ascii :=
  let n := nat_of_ascii c in if (65 <=? n) && (n <=? 90) then ascii_of_nat (n + 32) else c.
Definition upper_ascii (c : ascii) : ascii :=
  let n := nat_of_ascii c in if (97 <=? n) && (n <=? 122) then ascii_of_nat (n - 32) else c.

Fixpoint map_string (f : ascii -> ascii) (s : string) : string :=
  match s with EmptyString => EmptyString | String c s => String (f c) (map_string f s) end.
Definition ToLower : string -> string := map_string lower_ascii.
Definition ToUpper : string -> string := map_string upper_ascii.

Definition is_space (c : ascii) : bool :=
  let n := nat_of_ascii c in (n =? 32) || ((9 <=? n) && (n <=? 13)).
Fixpoint TrimLeft (s : string) : string :=
  match s with EmptyString => s | String c r => if is_space c then TrimLeft r else s end.
Fixpoint TrimRight (s : string) : string :=
  match s with
  | EmptyString => s
  | String c r =>
      match TrimRight r with
      | EmptyString => if is_space c then EmptyString else String c EmptyString
      | r => String c r
      end
  end.
Definition TrimSpace (s : string) : string := TrimRight (TrimLeft s).

Fixpoint Contains (s sub : string) : bool :=
  prefix sub s || match s with EmptyString => false | String _ rest => Contains rest sub end.

(** The part before the first [c]: [s[:strings.IndexByte(s, c)]]. *)
Fixpoint cut_before (c : ascii) (s : string) : string :=
  match s with
  | EmptyString => EmptyString
  | String d s => if (nat_of_ascii c =? nat_of_ascii d) then EmptyString else String d (cut_before c s)
  end.

(** The bytes of a text. *)
Definition bytes (s : string) : list Z := map (fun c => Z.of_nat (nat_of_ascii c)) (list_ascii_of_string s).

End Text.
