(* ===== verification/Breaker.v ===== *)
(** * The Redis stream circuit breaker

    Models [internal/stream/breaker/circuit_breaker.go].  The mutex makes
    every method atomic, so a method is a function on the state that also
    takes the clock reading [now] (nanoseconds) its [time.Since] or
    [time.Now] call observes. *)

From S2P Require Import Prelude.
Open Scope Z_scope.

Module Breaker.

Inductive CircuitState := CircuitClosed | CircuitOpen | CircuitHalfOpen.

#[export] Instance CircuitState_eq_dec : EqDecision CircuitState.
Proof. solve_decision. Defined.

Record CircuitBreaker := mkBreaker {
  state : CircuitState;
  failures : gmap string Z;
  lastOpenedAt : Z;
  failThreshold : Z;
  openTimeout : Z
}.

Definition NewCircuitBreaker (threshold timeout : Z) : CircuitBreaker :=
  mkBreaker CircuitClosed ∅ 0 (i32 threshold) timeout.

Definition Allow (now : Z) (cb : CircuitBreaker) : bool * CircuitBreaker :=
  match state cb with
  | CircuitClosed => (true, cb)
  | CircuitOpen =>
      if openTimeout cb <=? now - lastOpenedAt cb then
        (true, mkBreaker CircuitHalfOpen (failures cb) (lastOpenedAt cb)
                 (failThreshold cb) (openTimeout cb))
      else (false, cb)
  | CircuitHalfOpen => (false, cb)
  end.

Definition RecordSuccess (worker : string) (cb : CircuitBreaker) : CircuitBreaker :=
  match state cb with
  | CircuitHalfOpen =>
      mkBreaker CircuitClosed ∅ (lastOpenedAt cb) (failThreshold cb) (openTimeout cb)
  | _ => mkBreaker (state cb) (delete worker (failures cb)) (lastOpenedAt cb)
           (failThreshold cb) (openTimeout cb)
  end.

(** A missing map key reads as zero. *)
Definition Failures (worker : string) (cb : CircuitBreaker) : Z :=
  default 0 (failures cb !! worker).

Definition reopen (now : Z) (f : gmap string Z) (cb : CircuitBreaker) : CircuitBreaker :=
  mkBreaker CircuitOpen f now (failThreshold cb) (openTimeout cb).

Definition RecordFailure (now : Z) (worker : string) (cb : CircuitBreaker) : CircuitBreaker :=
  let n := i32 (Failures worker cb + 1) in
  let f := <[worker := n]> (failures cb) in
  match state cb with
  | CircuitHalfOpen => reopen now f cb
  | st =>
      if (failThreshold cb <=? n) && negb (bool_decide (st = CircuitOpen))
      then reopen now f cb
      else mkBreaker st f (lastOpenedAt cb) (failThreshold cb) (openTimeout cb)
  end.

Definition RecordCancellation (now : Z) (cb : CircuitBreaker) : CircuitBreaker :=
  match state cb with
  | CircuitHalfOpen => reopen now (failures cb) cb
  | _ => cb
  end.

Definition WaitDuration (now : Z) (cb : CircuitBreaker) : Z :=
  match state cb with
  | CircuitOpen =>
      let remaining := openTimeout cb - (now - lastOpenedAt cb) in
      if remaining <? 0 then 0 else remaining
  | _ => 0
  end.

(** ** The breaker as a labelled transition system

    A label is a method call with its clock reading; [Allow] also carries
    its answer.  The clock never goes back. *)

Inductive label :=
  | LAllow (now : Z) (admitted : bool)
  | LSuccess (now : Z) (worker : string)
  | LFailure (now : Z) (worker : string)
  | LCancel (now : Z) (worker : string).

Definition label_time (l : label) : Z :=
  match l with
  | LAllow t _ | LSuccess t _ | LFailure t _ | LCancel t _ => t
  end.

Inductive step : CircuitBreaker -> label -> CircuitBreaker -> Prop :=
  | step_allow cb cb' now b :
      Allow now cb = (b, cb') -> step cb (LAllow now b) cb'
  | step_success cb now w : step cb (LSuccess now w) (RecordSuccess w cb)
  | step_failure cb now w : step cb (LFailure now w) (RecordFailure now w cb)
  | step_cancel cb now w : step cb (LCancel now w) (RecordCancellation now cb).

Inductive run : Z -> CircuitBreaker -> list label -> Z -> CircuitBreaker -> Prop :=
  | run_nil t cb : run t cb [] t cb
  | run_cons t cb l cb1 ls t2 cb2 :
      t <= label_time l -> step cb l cb1 ->
      run (label_time l) cb1 ls t2 cb2 -> run t cb (l :: ls) t2 cb2.

(** The calls that end a probe: everything but [Allow]. *)
Definition is_record (l : label) : bool :=
  match l with LAllow _ _ => false | _ => true end.

Definition admits (l : label) : bool :=
  match l with LAllow _ b => b | _ => false end.

Definition admissions (ls : list label) : nat :=
  length (filter (fun l => admits l = true) ls).

(** ** Invariant *)

Record inv (t : Z) (cb : CircuitBreaker) : Prop := {
  inv_threshold : 0 < failThreshold cb <= 2147483647;
  inv_timeout : 0 <= openTimeout cb;
  inv_opened : lastOpenedAt cb <= t;
  inv_closed : state cb = CircuitClosed ->
    forall w, 0 <= Failures w cb < failThreshold cb
}.

Lemma Failures_mk w st f a b c : Failures w (mkBreaker st f a b c) = default 0 (f !! w).
Proof. done. Qed.

Lemma Failures_insert w w' n cb :
  default 0 (<[w := n]> (failures cb) !! w') = if decide (w = w') then n else Failures w' cb.
Proof. rewrite lookup_insert. by case_decide. Qed.

Lemma Failures_delete w w' cb :
  default 0 (delete w (failures cb) !! w') = if decide (w = w') then 0 else Failures w' cb.
Proof. rewrite lookup_delete. by case_decide. Qed.

Lemma step_inv t cb l cb' :
  inv t cb -> t <= label_time l -> step cb l cb' -> inv (label_time l) cb'.
Proof.
  intros [Hth Hto Hop Hcl] Ht Hs.
  destruct Hs as [cb cb' now b HA | | |]; simpl in *.
  - unfold Allow in HA. destruct (state cb) eqn:Es; [|case_match|];
      simplify_eq; split; simpl; try lia; congruence || auto.
  - unfold RecordSuccess. destruct (state cb) eqn:Es; split; simpl;
      try lia; try congruence; intros _ w'; rewrite !Failures_mk.
    + rewrite Failures_delete. case_decide; [lia | by apply Hcl].
    + rewrite lookup_empty. simpl. lia.
  - unfold RecordFailure, reopen. destruct (state cb) eqn:Es; simpl;
      [rewrite andb_true_r; case_match| rewrite andb_false_r |];
      split; simpl; try lia; try congruence.
    intros _ w'. rewrite !Failures_mk, Failures_insert.
    specialize (Hcl eq_refl). case_decide; [subst | by apply Hcl].
    specialize (Hcl w'). rewrite i32_id in * by go_lia. lia.
  - unfold RecordCancellation, reopen. destruct (state cb) eqn:Es; split; simpl;
      try lia; congruence || auto.
Qed.

Lemma run_inv t cb ls t' cb' : inv t cb -> run t cb ls t' cb' -> inv t' cb'.
Proof. intros H R. induction R; eauto using step_inv. Qed.

Lemma new_inv t threshold timeout :
  0 <= t -> 0 < threshold <= 2147483647 -> 0 <= timeout ->
  inv t (NewCircuitBreaker threshold timeout).
Proof.
  intros. unfold NewCircuitBreaker. split; simpl; rewrite ?i32_id by go_lia; auto.
  intros _ w. unfold Failures. simpl. rewrite lookup_empty. simpl. lia.
Qed.

Lemma no_record_half_open t cb ls t' cb' :
  run t cb ls t' cb' -> state cb = CircuitHalfOpen ->
  Forall (fun l => is_record l = false) ls -> admissions ls = 0%nat.
Proof.
  intros R. induction R as [|t cb l cb1 ls t2 cb2 Ht Hs R IH]; intros Hst Hls; [done|].
  inversion Hls as [|? ? Hl Hls']; subst. destruct Hs as [? ? ? ? HA | | |]; try done.
  unfold Allow in HA. rewrite Hst in HA. simplify_eq. by apply IH.
Qed.

(** From any reachable breaker state, once the breaker is closed every
    worker's consecutive-failure count is below the threshold: the breaker
    cannot stay closed for a worker that has reached it. *)
Theorem closed_below_threshold threshold timeout t0 ls t cb w :
  0 <= t0 -> 0 < threshold <= 2147483647 -> 0 <= timeout ->
  run t0 (NewCircuitBreaker threshold timeout) ls t cb ->
  state cb = CircuitClosed -> 0 <= Failures w cb < threshold.
Proof.
  intros H0 Hth Hto R Hc.
  assert (failThreshold cb = threshold) as Hk.
  { cut (failThreshold cb = failThreshold (NewCircuitBreaker threshold timeout)).
    { simpl. by rewrite i32_id by go_lia. }
    clear - R. induction R as [|t cb l cb1 ls t2 cb2 _ Hs R IH]; [done|]. rewrite IH.
    destruct Hs as [? ? ? ? HA | | |]; simpl; unfold Allow, RecordSuccess, RecordFailure,
      RecordCancellation, reopen in *; repeat case_match; simplify_eq; done. }
  rewrite <- Hk. apply (inv_closed _ _ (run_inv _ _ _ _ _ (new_inv _ _ _ H0 Hth Hto) R) Hc).
Qed.

(** While the breaker is open, at most one caller is admitted before
    some outcome is recorded: the half-open probe is single-flight. *)
Theorem half_open_single_probe t cb ls t' cb' :
  run t cb ls t' cb' -> state cb = CircuitOpen ->
  Forall (fun l => is_record l = false) ls -> (admissions ls <= 1)%nat.
Proof.
  intros R. induction R as [|t cb l cb1 ls t2 cb2 Ht Hs R IH]; intros Hst Hls; [unfold admissions; simpl; lia|].
  inversion Hls as [|? ? Hl Hls']; subst. destruct Hs as [cb cb1 now b HA | | |]; try done.
  unfold Allow in HA. rewrite Hst in HA. case_match; simplify_eq.
  - assert (admissions ls = 0%nat) as Hz by (by eapply no_record_half_open).
    unfold admissions in *. rewrite filter_cons_True by done. simpl. lia.
  - unfold admissions in *. rewrite filter_cons_False by done. by apply IH.
Qed.

(** [WaitDuration] is exact.  For an open breaker it is the delay after
    which [Allow] first answers true: at every earlier instant the call is
    refused with the state unchanged, and from that instant on it is
    admitted and moves the breaker to half-open. *)
Theorem wait_duration_exact now t cb :
  state cb = CircuitOpen -> now <= t ->
  (t < now + WaitDuration now cb -> Allow t cb = (false, cb)) /\
  (now + WaitDuration now cb <= t ->
     fst (Allow t cb) = true /\ state (snd (Allow t cb)) = CircuitHalfOpen).
Proof.
  intros Hst Hle. unfold WaitDuration, Allow. rewrite Hst.
  split; intros H; repeat case_match; simpl; auto; lia.
Qed.

Definition demo : CircuitBreaker :=
  RecordFailure 7 "w" (RecordFailure 5 "w" (NewCircuitBreaker 2 10)).

Lemma closed_below_threshold_witness :
  0 <= Failures "w" (RecordFailure 5 "w" (NewCircuitBreaker 2 10)) < 2.
Proof.
  apply (closed_below_threshold 2 10 0 [LFailure 5 "w"] 5); try lia; [|reflexivity].
  eapply run_cons; [cbn; lia | apply step_failure | constructor].
Defined.

Lemma half_open_single_probe_witness :
  (admissions [LAllow 16 false; LAllow 17 true; LAllow 30 false] <= 1)%nat.
Proof.
  apply (half_open_single_probe 8 demo _ 30 (snd (Allow 17 demo))).
  - repeat (eapply run_cons; [cbn; lia | apply step_allow; reflexivity | ]). constructor.
  - reflexivity.
  - repeat constructor.
Defined.

Lemma wait_duration_exact_witness : Allow 16 demo = (false, demo).
Proof.
  apply (wait_duration_exact 9 16 demo); [reflexivity | lia | vm_compute; reflexivity].
Defined.

End Breaker.
