(* ===== verification/RtbBudget.v ===== *)
(** * The RTB budget store, executed one call at a time

    Models [internal/rtb/budget_store.go] and [internal/rtb/budget_spend.go].
    An [atomic.Pointer] to a slice of 64-byte cells is the list of its
    values; one call runs without interference here, and the interleaved
    execution of the same calls is the subject of [RtbRace].  The calendar
    day that [currentDayEpochUTC] reads is an argument. *)

From S2P Require Import Prelude.
Open Scope Z_scope.

Module RtbBudget.

Definition invalidCustomerBudgetIdx : Z := 4294967295.

Record BudgetStore := mkStore {
  slots : gmap Z Z;
  customerSlots : gmap Z Z;
  budgets : list Z;
  customerBudgets : list Z;
  dailySpent : list Z;
  dailyEpoch : Z
}.

Definition NewBudgetStore : BudgetStore := mkStore ∅ ∅ [] [] [] 0.

Definition normalizeBudget (v : Z) : Z := if v <? 0 then 0 else v.

Definition with_budgets (st : BudgetStore) (b : list Z) : BudgetStore :=
  mkStore (slots st) (customerSlots st) b (customerBudgets st) (dailySpent st) (dailyEpoch st).
Definition with_customers (st : BudgetStore) (c : list Z) : BudgetStore :=
  mkStore (slots st) (customerSlots st) (budgets st) c (dailySpent st) (dailyEpoch st).
Definition with_daily (st : BudgetStore) (d : list Z) : BudgetStore :=
  mkStore (slots st) (customerSlots st) (budgets st) (customerBudgets st) d (dailyEpoch st).

(** The three column operations, on the list a holder points to. *)

Definition loadOn (col : list Z) (idx : Z) : Z :=
  if u32 (zlen col) <=? idx then 0 else default 0 (col !! Z.to_nat idx).

Definition checkAndSpendOn (col : list Z) (idx price : Z) : bool * list Z :=
  if u32 (zlen col) <=? idx then (false, col)
  else let curr := default 0 (col !! Z.to_nat idx) in
       if curr <? price then (false, col)
       else (true, set_z col idx (curr -64 price)).

Definition creditOn (col : list Z) (idx price : Z) : list Z :=
  if u32 (zlen col) <=? idx then col
  else set_z col idx (default 0 (col !! Z.to_nat idx) +64 price).

Definition checkAndAddDailySpend (col : list Z) (idx price dailyLimit : Z) : bool * list Z :=
  if u32 (zlen col) <=? idx then (false, col)
  else let curr := default 0 (col !! Z.to_nat idx) in
       if dailyLimit <? curr +64 price then (false, col)
       else (true, set_z col idx (curr +64 price)).

Definition addDailySpendLocked (col : list Z) (idx spent : Z) : list Z :=
  if u32 (zlen col) <=? idx then col else set_z col idx spent.

(** Slot allocation: copy-on-write growth of the columns. *)

Definition growDaily (daily : list Z) (n : nat) : list Z :=
  if bool_decide (n <= length daily)%nat then daily
  else daily ++ replicate (n - length daily) 0.

Definition appendSlotLocked (st : BudgetStore) (v : Z) : BudgetStore * Z :=
  let idx := u32 (zlen (budgets st)) in
  let b := budgets st ++ [v] in
  (with_daily (with_budgets st b) (growDaily (dailySpent st) (length b)), idx).

Definition appendCustomerSlotLocked (st : BudgetStore) (v : Z) : BudgetStore * Z :=
  (with_customers st (customerBudgets st ++ [v]), u32 (zlen (customerBudgets st))).

Definition add_slot (st : BudgetStore) (id idx : Z) : BudgetStore :=
  mkStore (<[id := idx]> (slots st)) (customerSlots st) (budgets st)
    (customerBudgets st) (dailySpent st) (dailyEpoch st).
Definition add_customer_slot (st : BudgetStore) (id idx : Z) : BudgetStore :=
  mkStore (slots st) (<[id := idx]> (customerSlots st)) (budgets st)
    (customerBudgets st) (dailySpent st) (dailyEpoch st).

Definition GetOrAllocateSlot (st : BudgetStore) (id initialBudget : Z) : BudgetStore * Z :=
  match slots st !! id with
  | Some idx => (st, idx)
  | None =>
      let '(st1, idx) := appendSlotLocked st (normalizeBudget initialBudget) in
      (add_slot st1 id idx, idx)
  end.

Definition GetOrAllocateCustomerSlot (st : BudgetStore) (id initialBudget : Z)
    : BudgetStore * Z :=
  if id =? 0 then (st, invalidCustomerBudgetIdx)
  else match customerSlots st !! id with
  | Some idx => (st, idx)
  | None =>
      let '(st1, idx) := appendCustomerSlotLocked st (normalizeBudget initialBudget) in
      (add_customer_slot st1 id idx, idx)
  end.

Definition LoadBudget (st : BudgetStore) (idx : Z) : Z := loadOn (budgets st) idx.

Definition budgetSlotExists (st : BudgetStore) (idx : Z) : bool :=
  idx <? u32 (zlen (budgets st)).

Definition CheckAndSpend (st : BudgetStore) (idx limit : Z) : bool * BudgetStore :=
  let '(ok, b) := checkAndSpendOn (budgets st) idx limit in (ok, with_budgets st b).

Definition GetBudget (st : BudgetStore) (id : Z) : Z :=
  match slots st !! id with None => 0 | Some idx => loadOn (budgets st) idx end.

Definition CampaignSlot (st : BudgetStore) (id : Z) : option Z := slots st !! id.

Definition CustomerSlot (st : BudgetStore) (id : Z) : option Z :=
  if id =? 0 then None else customerSlots st !! id.

Definition LoadCustomerBudget (st : BudgetStore) (idx : Z) : Z :=
  if idx =? invalidCustomerBudgetIdx then 0 else loadOn (customerBudgets st) idx.

Definition maybeRollDaily (day : Z) (st : BudgetStore) : BudgetStore :=
  if dailyEpoch st =? day then st
  else mkStore (slots st) (customerSlots st) (budgets st) (customerBudgets st)
         (replicate (length (dailySpent st)) 0) day.

Definition SetDailySpend (day : Z) (st : BudgetStore) (idx spent : Z) : BudgetStore :=
  let spent := if spent <? 0 then 0 else spent in
  let st1 := maybeRollDaily day st in
  with_daily st1 (addDailySpendLocked (dailySpent st1) idx spent).

Definition SetBudget (st : BudgetStore) (id v : Z) : BudgetStore :=
  match slots st !! id with
  | None =>
      let '(st1, idx) := appendSlotLocked st (normalizeBudget v) in add_slot st1 id idx
  | Some idx =>
      if zlen (budgets st) <=? idx then st
      else with_budgets st (set_z (budgets st) idx (normalizeBudget v))
  end.

Definition SetCustomerBudget (st : BudgetStore) (id v : Z) : BudgetStore :=
  if id =? 0 then st
  else match customerSlots st !! id with
  | None =>
      let '(st1, idx) := appendCustomerSlotLocked st (normalizeBudget v) in
      add_customer_slot st1 id idx
  | Some idx =>
      if zlen (customerBudgets st) <=? idx then st
      else with_customers st (set_z (customerBudgets st) idx (normalizeBudget v))
  end.

Definition loadDailyHeadroom (st : BudgetStore) (idx dailyLimit : Z) : Z :=
  if dailyLimit <=? 0 then dailyLimit
  else dailyLimit -64 loadOn (dailySpent st) idx.

(** The debit of a won auction: campaign, then customer, then daily cap,
    each leg undone when a later one is refused. *)
Definition CheckAndSpendAll (day : Z) (st : BudgetStore)
    (campaignIdx customerIdx price dailyLimit : Z) : bool * BudgetStore :=
  let st := if 0 <? dailyLimit then maybeRollDaily day st else st in
  if (0 <? dailyLimit) && (loadDailyHeadroom st campaignIdx dailyLimit <? price)
  then (false, st)
  else
    let '(ok1, b1) := checkAndSpendOn (budgets st) campaignIdx price in
    if negb ok1 then (false, st)
    else
      let st1 := with_budgets st b1 in
      let has_customer := negb (customerIdx =? invalidCustomerBudgetIdx) in
      let '(ok2, c1) :=
        if has_customer then checkAndSpendOn (customerBudgets st1) customerIdx price
        else (true, customerBudgets st1) in
      if negb ok2 then (false, with_budgets st1 (creditOn (budgets st1) campaignIdx price))
      else
        let st2 := with_customers st1 c1 in
        if 0 <? dailyLimit then
          let '(ok3, d1) :=
            checkAndAddDailySpend (dailySpent st2) campaignIdx price dailyLimit in
          if negb ok3 then
            let st3 := if has_customer
              then with_customers st2 (creditOn (customerBudgets st2) customerIdx price)
              else st2 in
            (false, with_budgets st3 (creditOn (budgets st3) campaignIdx price))
          else (true, with_daily st2 d1)
        else (true, st2).

(** ** Well-formed stores *)

Definition column_ok (col : list Z) : Prop :=
  zlen col < 4294967295 /\ Forall (fun v => 0 <= v <= max_i64) col.

Record wf (st : BudgetStore) : Prop := {
  wf_budgets : column_ok (budgets st);
  wf_customers : column_ok (customerBudgets st);
  wf_daily : column_ok (dailySpent st);
  wf_daily_len : length (dailySpent st) = length (budgets st);
  wf_slots : forall id idx, slots st !! id = Some idx -> 0 <= idx < zlen (budgets st);
  wf_cslots : forall id idx, customerSlots st !! id = Some idx ->
    0 <= idx < zlen (customerBudgets st);
  wf_slots_inj : forall i j idx,
    slots st !! i = Some idx -> slots st !! j = Some idx -> i = j;
  wf_cslots_inj : forall i j idx,
    customerSlots st !! i = Some idx -> customerSlots st !! j = Some idx -> i = j
}.

(** ** Column lemmas *)

Lemma column_len col : column_ok col -> u32 (zlen col) = zlen col.
Proof. intros [H _]. apply u32_id. pose proof (zlen_nonneg col). go_lia. Qed.

Lemma column_value col idx v :
  column_ok col -> col !! idx = Some v -> 0 <= v <= max_i64.
Proof. intros [_ H] Hl. rewrite Forall_lookup in H. eauto. Qed.

Lemma loadOn_range col idx : column_ok col -> 0 <= loadOn col idx <= max_i64.
Proof.
  intros H. unfold loadOn. case_if; [go_lia|].
  destruct (col !! Z.to_nat idx) eqn:E; simpl; [eauto using column_value | go_lia].
Qed.

Lemma loadOn_at col idx :
  column_ok col -> 0 <= idx < zlen col -> col !! Z.to_nat idx = Some (loadOn col idx).
Proof.
  intros H Hi. unfold loadOn. rewrite (column_len _ H).
  replace (zlen col <=? idx) with false by lia.
  destruct (at_z_Some col idx Hi) as (x & _ & ->). done.
Qed.

Lemma set_z_same {A} (l : list A) i x : l !! Z.to_nat i = Some x -> set_z l i x = l.
Proof. apply list_insert_id. Qed.

Lemma set_z_twice {A} (l : list A) i x y : set_z (set_z l i x) i y = set_z l i y.
Proof. apply list_insert_insert_eq. Qed.

Lemma loadOn_set col idx v :
  column_ok col -> 0 <= idx < zlen col -> loadOn (set_z col idx v) idx = v.
Proof.
  intros H Hi. unfold loadOn. rewrite zlen_set, (column_len _ H).
  replace (zlen col <=? idx) with false by lia.
  unfold set_z. rewrite list_lookup_insert_eq; [done | unfold zlen in *; lia].
Qed.

Lemma column_set col idx v :
  column_ok col -> 0 <= v <= max_i64 -> column_ok (set_z col idx v).
Proof.
  intros [Hl Hf] Hv. split; [by rewrite zlen_set|].
  apply Forall_insert; [done | lia].
Qed.

(** The columns the debit touches, in terms of [loadOn]. *)

Lemma checkAndSpendOn_spec col idx price :
  column_ok col -> 0 <= idx -> 0 <= price ->
  checkAndSpendOn col idx price =
    if (idx <? zlen col) && (price <=? loadOn col idx)
    then (true, set_z col idx (loadOn col idx - price)) else (false, col).
Proof.
  intros H Hi Hp. unfold checkAndSpendOn. pose proof (loadOn_range col idx H).
  rewrite (column_len _ H). destruct (idx <? zlen col) eqn:E; simpl.
  - replace (zlen col <=? idx) with false by lia.
    rewrite (loadOn_at _ _ H) by lia. simpl.
    destruct (loadOn col idx <? price) eqn:E2.
    + by replace (price <=? loadOn col idx) with false by lia.
    + replace (price <=? loadOn col idx) with true by lia. nowrap. done.
  - by replace (zlen col <=? idx) with true by lia.
Qed.

Lemma creditOn_undo col idx price :
  column_ok col -> 0 <= idx < zlen col -> 0 <= price <= loadOn col idx ->
  creditOn (set_z col idx (loadOn col idx - price)) idx price = col.
Proof.
  intros H Hi Hp. unfold creditOn. rewrite zlen_set, (column_len _ H).
  replace (zlen col <=? idx) with false by lia. unfold set_z.
  rewrite list_lookup_insert_eq by (unfold zlen in *; lia). simpl.
  pose proof (loadOn_range col idx H).
  replace (loadOn col idx - price + price) with (loadOn col idx) by lia. nowrap.
  rewrite list_insert_insert_eq. apply list_insert_id. by apply loadOn_at.
Qed.

Lemma checkAndAddDailySpend_spec col idx price limit :
  column_ok col -> 0 <= idx < zlen col -> 0 <= price -> in_i64 limit ->
  price <= limit - loadOn col idx ->
  checkAndAddDailySpend col idx price limit =
    (true, set_z col idx (loadOn col idx + price)).
Proof.
  intros H Hi Hp Hl Hr. unfold checkAndAddDailySpend.
  pose proof (loadOn_range col idx H). rewrite (column_len _ H).
  replace (zlen col <=? idx) with false by lia.
  rewrite (loadOn_at _ _ H Hi). simpl. nowrap.
  by replace (limit <? loadOn col idx + price) with false by lia.
Qed.

Lemma replicate_column n : Z.of_nat n < 4294967295 -> column_ok (replicate n 0).
Proof.
  intros. split; [unfold zlen; by rewrite length_replicate|].
  apply Forall_replicate. go_lia.
Qed.

Lemma maybeRollDaily_wf day st : wf st -> wf (maybeRollDaily day st).
Proof.
  intros W. unfold maybeRollDaily. case_if; [done|]. destruct W as [? ? [Hd _] Hl ? ? ? ?].
  split; simpl; auto.
  - apply replicate_column. exact Hd.
  - by rewrite length_replicate.
Qed.

(** ** What a debit promises

    [spend_allowed] is the admission rule over a store whose daily column
    has been rolled to the current day, [debited] the store after an
    admitted debit. *)

Definition has_customer (k : Z) : bool := negb (k =? invalidCustomerBudgetIdx).

Definition spend_allowed (st : BudgetStore) (c k price limit : Z) : bool :=
  ((limit <=? 0) || (price <=? limit - loadOn (dailySpent st) c)) &&
  ((c <? zlen (budgets st)) && (price <=? loadOn (budgets st) c)) &&
  (negb (has_customer k) ||
     ((k <? zlen (customerBudgets st)) && (price <=? loadOn (customerBudgets st) k))).

Definition debited (st : BudgetStore) (c k price limit : Z) : BudgetStore :=
  mkStore (slots st) (customerSlots st)
    (set_z (budgets st) c (loadOn (budgets st) c - price))
    (if has_customer k
     then set_z (customerBudgets st) k (loadOn (customerBudgets st) k - price)
     else customerBudgets st)
    (if 0 <? limit then set_z (dailySpent st) c (loadOn (dailySpent st) c + price)
     else dailySpent st)
    (dailyEpoch st).

Definition rolled (day limit : Z) (st : BudgetStore) : BudgetStore :=
  if 0 <? limit then maybeRollDaily day st else st.

Lemma rolled_wf day limit st : wf st -> wf (rolled day limit st).
Proof. unfold rolled. case_if; auto using maybeRollDaily_wf. Qed.

Lemma with_budgets_id st : with_budgets st (budgets st) = st.
Proof. by destruct st. Qed.
Lemma with_customers_id st : with_customers st (customerBudgets st) = st.
Proof. by destruct st. Qed.

(** The body of [CheckAndSpendAll] after the roll, on a well-formed store. *)
Lemma spend_after_roll day st c k price limit :
  wf st -> 0 <= c -> 0 <= k -> 0 <= price -> in_i64 limit ->
  (0 < limit -> dailyEpoch st = day) ->
  CheckAndSpendAll day st c k price limit =
    if spend_allowed st c k price limit then (true, debited st c k price limit)
    else (false, st).
Proof.
  intros W Hc Hk Hp Hl Hday. destruct W as [Wb Wc Wd Hlen _ _ _ _].
  pose proof (loadOn_range (dailySpent st) c Wd) as Hd.
  assert ((if 0 <? limit then maybeRollDaily day st else st) = st) as Hroll.
  { destruct (0 <? limit) eqn:E; [|done]. unfold maybeRollDaily.
    replace (dailyEpoch st =? day) with true by (rewrite Hday; lia). done. }
  assert ((0 <? limit) && (loadDailyHeadroom st c limit <? price) =
          negb ((limit <=? 0) || (price <=? limit - loadOn (dailySpent st) c))) as Hhead.
  { unfold loadDailyHeadroom. destruct (limit <=? 0) eqn:E; simpl.
    - replace (0 <? limit) with false by lia. done.
    - replace (0 <? limit) with true by lia. simpl. nowrap. lia. }
  unfold CheckAndSpendAll. rewrite Hroll, Hhead. unfold spend_allowed.
  destruct ((limit <=? 0) || (price <=? limit - loadOn (dailySpent st) c)) eqn:E1; [|done].
  cbn [negb]. rewrite (checkAndSpendOn_spec _ _ _ Wb Hc Hp).
  destruct ((c <? zlen (budgets st)) && (price <=? loadOn (budgets st) c)) eqn:E2; [|done].
  fold (has_customer k). cbn [negb andb with_budgets customerBudgets].
  rewrite (checkAndSpendOn_spec _ _ _ Wc Hk Hp).
  assert (checkAndAddDailySpend (dailySpent st) c price limit =
    (true, set_z (dailySpent st) c (loadOn (dailySpent st) c + price)) \/ limit <= 0) as Hday3.
  { destruct (Z.le_gt_cases limit 0); [by right | left].
    apply checkAndAddDailySpend_spec; auto; try lia. unfold zlen in *. rewrite Hlen. lia. }
  destruct (has_customer k) eqn:E3; cbn [negb orb andb].
  - destruct ((k <? zlen (customerBudgets st)) && (price <=? loadOn (customerBudgets st) k)).
    + cbn [negb with_budgets with_customers dailySpent budgets customerBudgets slots customerSlots dailyEpoch]. unfold debited. rewrite E3.
      destruct (0 <? limit) eqn:E4; [|done].
      destruct Hday3 as [-> | ?]; [done | lia].
    + cbn [negb]. unfold with_budgets. cbn. rewrite creditOn_undo by (auto; lia).
      by destruct st.
  - cbn [negb with_budgets with_customers dailySpent budgets customerBudgets slots customerSlots dailyEpoch]. unfold debited. rewrite E3.
    destruct (0 <? limit) eqn:E4; [|done].
    destruct Hday3 as [-> | ?]; [done | lia].
Qed.

Lemma rolled_epoch day limit st : 0 < limit -> dailyEpoch (rolled day limit st) = day.
Proof.
  intros H. unfold rolled. replace (0 <? limit) with true by lia.
  unfold maybeRollDaily. case_if; simpl; lia.
Qed.

Lemma debited_wf st c k price limit :
  wf st -> 0 <= c -> 0 <= k -> 0 <= price -> in_i64 limit ->
  spend_allowed st c k price limit = true -> wf (debited st c k price limit).
Proof.
  intros [Wb Wc Wd Hlen Hs Hcs Hi Hci] Hc Hk Hp Hl Ha. unfold spend_allowed in Ha.
  pose proof (loadOn_range _ c Wb). pose proof (loadOn_range _ k Wc).
  pose proof (loadOn_range _ c Wd).
  split; simpl; rewrite ?zlen_set; auto.
  - apply column_set; [done | lia].
  - destruct (has_customer k); [apply column_set; [done | lia] | done].
  - destruct (0 <? limit) eqn:E; [apply column_set; [done|] | done].
    unfold_ranges. lia.
  - destruct (0 <? limit); unfold set_z; rewrite ?length_insert; auto.
  - destruct (has_customer k); intros; rewrite ?zlen_set; eauto.
Qed.

(** ** The store as a sequence of calls *)

Inductive op :=
  | OpCampaign (id initial : Z)
  | OpCustomer (id initial : Z)
  | OpSetBudget (id v : Z)
  | OpSetCustomerBudget (id v : Z)
  | OpSetDaily (day idx spent : Z)
  | OpSpend (idx price : Z)
  | OpSpendAll (day c k price limit : Z).

Definition exec (st : BudgetStore) (o : op) : BudgetStore :=
  match o with
  | OpCampaign id b => fst (GetOrAllocateSlot st id b)
  | OpCustomer id b => fst (GetOrAllocateCustomerSlot st id b)
  | OpSetBudget id v => SetBudget st id v
  | OpSetCustomerBudget id v => SetCustomerBudget st id v
  | OpSetDaily day idx spent => SetDailySpend day st idx spent
  | OpSpend idx price => snd (CheckAndSpend st idx price)
  | OpSpendAll day c k price limit => snd (CheckAndSpendAll day st c k price limit)
  end.

Definition op_ok (o : op) : Prop :=
  match o with
  | OpCampaign _ b | OpCustomer _ b => in_i64 b
  | OpSetBudget _ v | OpSetCustomerBudget _ v => in_i64 v
  | OpSetDaily _ idx spent => 0 <= idx /\ in_i64 spent
  | OpSpend idx price => 0 <= idx /\ 0 <= price
  | OpSpendAll _ c k price limit => 0 <= c /\ 0 <= k /\ 0 <= price /\ in_i64 limit
  end.

Definition room (n : Z) (st : BudgetStore) : Prop :=
  zlen (budgets st) <= n /\ zlen (customerBudgets st) <= n.

Lemma normalizeBudget_range v : in_i64 v -> 0 <= normalizeBudget v <= max_i64.
Proof. unfold normalizeBudget. intros. case_if; go_lia. Qed.

Lemma column_snoc col v :
  column_ok col -> zlen col < 4294967294 -> 0 <= v <= max_i64 -> column_ok (col ++ [v]).
Proof.
  intros [Hl Hf] Hr Hv. split.
  - unfold zlen in *. rewrite length_app. simpl. lia.
  - apply Forall_app. auto.
Qed.

Lemma zlen_snoc {A} (l : list A) x : zlen (l ++ [x]) = zlen l + 1.
Proof. unfold zlen. rewrite length_app. simpl. lia. Qed.

Lemma growDaily_ok d n :
  column_ok d -> Z.of_nat n < 4294967295 -> (length d <= n)%nat ->
  column_ok (growDaily d n) /\ length (growDaily d n) = n.
Proof.
  intros [Hl Hf] Hn Hle. unfold growDaily. case_bool_decide; [split; [by split | lia]|].
  assert (length (d ++ replicate (n - length d) 0) = n)
    by (rewrite length_app, length_replicate; lia).
  split; [split|done].
  - unfold zlen. by rewrite H0.
  - apply Forall_app. split; [done | apply Forall_replicate; go_lia].
Qed.

Lemma add_campaign_wf st id v :
  wf st -> 0 <= v <= max_i64 -> zlen (budgets st) < 4294967294 -> slots st !! id = None ->
  wf (let '(st1, idx) := appendSlotLocked st v in add_slot st1 id idx).
Proof.
  intros [Wb Wc Wd Hlen Hs Hcs Hi Hci] Hv Hr Hn. unfold appendSlotLocked. simpl.
  rewrite (column_len _ Wb).
  destruct (growDaily_ok (dailySpent st) (length (budgets st ++ [v]))) as [Hg1 Hg2]; auto.
  { rewrite length_app. simpl. unfold zlen in *. lia. }
  { rewrite length_app. simpl. lia. }
  assert (forall i idx, slots st !! i = Some idx -> idx < zlen (budgets st)) as Hlt
    by (intros ? ? ?%Hs; lia).
  split; simpl; auto using column_snoc.
  - intros i idx. rewrite zlen_snoc, lookup_insert. pose proof (zlen_nonneg (budgets st)).
    case_decide; [intros [=]; lia | intros ?%Hs; lia].
  - intros i j idx. rewrite !lookup_insert.
    repeat case_decide; intros; simplify_eq; eauto;
      exfalso; eapply Z.lt_irrefl, Hlt; eassumption.
Qed.

Lemma add_customer_wf st id v :
  wf st -> 0 <= v <= max_i64 -> zlen (customerBudgets st) < 4294967294 ->
  customerSlots st !! id = None ->
  wf (let '(st1, idx) := appendCustomerSlotLocked st v in add_customer_slot st1 id idx).
Proof.
  intros [Wb Wc Wd Hlen Hs Hcs Hi Hci] Hv Hr Hn. unfold appendCustomerSlotLocked. simpl.
  rewrite (column_len _ Wc).
  assert (forall i idx, customerSlots st !! i = Some idx -> idx < zlen (customerBudgets st))
    as Hlt by (intros ? ? ?%Hcs; lia).
  split; simpl; auto using column_snoc.
  - intros i idx. rewrite zlen_snoc, lookup_insert. pose proof (zlen_nonneg (customerBudgets st)).
    case_decide; [intros [=]; lia | intros ?%Hcs; lia].
  - intros i j idx. rewrite !lookup_insert.
    repeat case_decide; intros; simplify_eq; eauto;
      exfalso; eapply Z.lt_irrefl, Hlt; eassumption.
Qed.

Lemma CheckAndSpendAll_rolled day st c k price limit :
  CheckAndSpendAll day st c k price limit =
  CheckAndSpendAll day (rolled day limit st) c k price limit.
Proof.
  unfold rolled, CheckAndSpendAll. destruct (0 <? limit) eqn:E; [|done].
  assert (maybeRollDaily day (maybeRollDaily day st) = maybeRollDaily day st) as ->; [|done].
  unfold maybeRollDaily. destruct (dailyEpoch st =? day) eqn:E2; [by rewrite E2|].
  simpl. by rewrite Z.eqb_refl.
Qed.

Lemma replace_column_wf st b c d :
  wf st -> column_ok b -> column_ok c -> column_ok d ->
  length b = length (budgets st) -> length c = length (customerBudgets st) ->
  length d = length (dailySpent st) ->
  wf (with_daily (with_customers (with_budgets st b) c) d).
Proof.
  intros [Wb Wc Wd Hlen Hs Hcs Hi Hci] Hb Hc Hd Lb Lc Ld.
  split; simpl; auto; try congruence; unfold zlen in *; rewrite ?Lb, ?Lc; eauto.
Qed.

Lemma set_budget_column_wf st idx v :
  wf st -> 0 <= v <= max_i64 -> wf (with_budgets st (set_z (budgets st) idx v)).
Proof.
  intros W Hv. apply (replace_column_wf st _ (customerBudgets st) (dailySpent st)); auto;
    try apply W; [apply column_set; [apply W | done] | apply length_insert].
Qed.

Lemma set_customer_column_wf st idx v :
  wf st -> 0 <= v <= max_i64 -> wf (with_customers st (set_z (customerBudgets st) idx v)).
Proof.
  intros W Hv. apply (replace_column_wf st (budgets st) _ (dailySpent st)); auto;
    try apply W; [apply column_set; [apply W | done] | apply length_insert].
Qed.

Lemma set_daily_column_wf st idx v :
  wf st -> 0 <= v <= max_i64 -> wf (with_daily st (set_z (dailySpent st) idx v)).
Proof.
  intros W Hv. apply (replace_column_wf st (budgets st) (customerBudgets st)); auto;
    try apply W; [apply column_set; [apply W | done] | apply length_insert].
Qed.

Lemma room_debited n st c k price limit :
  room n st -> room n (debited st c k price limit).
Proof. intros [? ?]. split; simpl; [|case_if]; by rewrite ?zlen_set. Qed.

Lemma room_rolled n day limit st : room n st -> room n (rolled day limit st).
Proof. unfold rolled, maybeRollDaily. intros [? ?]. repeat case_if; by split. Qed.

Lemma spend_all_cases day st c k price limit :
  wf st -> 0 <= c -> 0 <= k -> 0 <= price -> in_i64 limit ->
  CheckAndSpendAll day st c k price limit =
    let st' := rolled day limit st in
    if spend_allowed st' c k price limit then (true, debited st' c k price limit)
    else (false, st').
Proof.
  intros W Hc Hk Hp Hl. rewrite CheckAndSpendAll_rolled. cbn zeta.
  apply spend_after_roll; auto using rolled_wf, rolled_epoch.
Qed.

Lemma exec_allocate_ok n st o :
  wf st -> room n st -> n < 4294967294 -> op_ok o ->
  match o with OpSpend _ _ | OpSpendAll _ _ _ _ _ | OpSetDaily _ _ _ => False | _ => True end ->
  wf (exec st o) /\ room (n + 1) (exec st o).
Proof.
  intros W [Hb Hc] Hn Ho Hk. destruct o as [id b|id b|id v|id v| | |]; try done; simpl in *;
    pose proof (normalizeBudget_range _ Ho) as Hv.
  - unfold GetOrAllocateSlot. destruct (slots st !! id) eqn:E; simpl; [split; [done|split; lia]|].
    split; [exact (add_campaign_wf _ _ _ W Hv ltac:(lia) E)|].
    split; simpl; rewrite ?zlen_snoc; lia.
  - unfold GetOrAllocateCustomerSlot. destruct (id =? 0); simpl; [split; [done|split; lia]|].
    destruct (customerSlots st !! id) eqn:E; simpl; [split; [done|split; lia]|].
    split; [exact (add_customer_wf _ _ _ W Hv ltac:(lia) E)|].
    split; simpl; rewrite ?zlen_snoc; lia.
  - unfold SetBudget. destruct (slots st !! id) eqn:E.
    + case_if; [split; [done | split; lia]|].
      split; [by apply set_budget_column_wf | split; simpl; rewrite ?zlen_set; lia].
    + split; [exact (add_campaign_wf _ _ _ W Hv ltac:(lia) E)|].
      split; simpl; rewrite ?zlen_snoc; lia.
  - unfold SetCustomerBudget. destruct (id =? 0); [split; [done | split; lia]|].
    destruct (customerSlots st !! id) eqn:E.
    + case_if; [split; [done | split; lia]|].
      split; [by apply set_customer_column_wf | split; simpl; rewrite ?zlen_set; lia].
    + split; [exact (add_customer_wf _ _ _ W Hv ltac:(lia) E)|].
      split; simpl; rewrite ?zlen_snoc; lia.
Qed.

Lemma exec_ok n st o :
  wf st -> room n st -> n < 4294967294 -> op_ok o ->
  wf (exec st o) /\ room (n + 1) (exec st o).
Proof.
  intros W R Hn Ho. destruct o as [| | | |day idx spent|idx price|day c k price limit];
    try (apply exec_allocate_ok; done); simpl in *.
  - destruct Ho as [Hi Hs]. unfold SetDailySpend, addDailySpendLocked.
    pose proof (maybeRollDaily_wf day st W) as W'.
    assert (room n (maybeRollDaily day st)) as [? ?]
      by (destruct R; unfold maybeRollDaily; case_if; by split).
    case_if; [split; [by destruct (maybeRollDaily day st) | split; simpl; lia]|].
    split; [apply set_daily_column_wf; [done | repeat case_if; go_lia] | split; simpl; lia].
  - destruct Ho as [Hi Hp], R. unfold CheckAndSpend.
    rewrite checkAndSpendOn_spec by (auto; apply W). case_if; simpl.
    + pose proof (loadOn_range _ idx (wf_budgets _ W)).
      split; [apply set_budget_column_wf; [done | lia] | split; simpl; rewrite ?zlen_set; lia].
    + rewrite with_budgets_id. split; [done | split; lia].
  - destruct Ho as (Hc & Hk & Hp & Hl). rewrite spend_all_cases by auto. cbn zeta.
    assert (room (n + 1) (rolled day limit st))
      by (apply room_rolled; destruct R; split; lia).
    case_if; simpl; split; auto using rolled_wf, debited_wf, room_debited.
Qed.

Lemma exec_all_wf ops n st :
  wf st -> room n st -> n + zlen ops < 4294967295 -> Forall op_ok ops ->
  wf (foldl exec st ops).
Proof.
  revert n st. induction ops as [|o ops IH]; intros n st W R Hn Hops; simpl; [done|].
  inversion Hops; subst. unfold zlen in Hn. simpl in Hn.
  destruct (exec_ok n st o) as [W' R']; auto; [lia|].
  apply (IH (n + 1)); auto. unfold zlen. lia.
Qed.

Lemma new_store_wf : wf NewBudgetStore.
Proof.
  split; simpl; try done; try (split; [done | constructor]); intros ? ?; rewrite ?lookup_empty; done.
Qed.

(** ** Properties *)

(** C39: every store reached by any sequence of calls is well formed: each
    slot number is inside its column, no two campaigns (or customers) share
    a slot, the daily column is as long as the campaign column, and no
    budget or daily counter is ever negative or above [MaxInt64]. *)
Theorem store_reachable_wf ops :
  Forall op_ok ops -> zlen ops < 4294967295 -> wf (foldl exec NewBudgetStore ops).
Proof.
  intros H Hn. apply (exec_all_wf ops 0); auto using new_store_wf. by split.
Qed.

(** C5: [CheckAndSpendAll] is all or nothing.  The call succeeds exactly
    when the daily cap, the campaign budget and (for a campaign with a
    customer) the customer budget all cover the price; it then changes those
    counters by exactly the price and nothing else, and a refused call
    leaves the (rolled) store untouched, whichever leg refused. *)
Theorem check_and_spend_all_atomic day st c k price limit :
  wf st -> 0 <= c -> 0 <= k -> 0 <= price -> in_i64 limit ->
  let st' := rolled day limit st in
  CheckAndSpendAll day st c k price limit =
    if spend_allowed st' c k price limit then (true, debited st' c k price limit)
    else (false, st').
Proof. exact (spend_all_cases day st c k price limit). Qed.

Definition demo_ops : list op :=
  [OpCampaign 7 100; OpCustomer 9 50; OpSpendAll 20260101 0 0 30 40;
   OpSpendAll 20260101 0 0 30 40; OpCampaign 8 (-5)].

Lemma store_reachable_wf_witness : wf (foldl exec NewBudgetStore demo_ops).
Proof. apply store_reachable_wf; [repeat constructor; cbn; go_lia | reflexivity]. Defined.

Definition demo_store : BudgetStore := foldl exec NewBudgetStore (take 2 demo_ops).

Lemma check_and_spend_all_atomic_witness :
  CheckAndSpendAll 20260101 demo_store 0 0 30 40 =
    (true, mkStore {[7 := 0]} {[9 := 0]} [70] [20] [30] 20260101).
Proof.
  rewrite (check_and_spend_all_atomic 20260101 demo_store 0 0 30 40);
    [vm_compute; reflexivity | | lia | lia | lia | go_lia].
  apply (exec_all_wf (take 2 demo_ops) 0); [apply new_store_wf | by split | reflexivity |].
  repeat constructor; cbn; go_lia.
Defined.

End RtbBudget.
