(* ===== verification/RtbRace.v ===== *)
(** * Concurrent debits of the RTB budget store

    The same code as [RtbBudget], at the granularity of its atomic
    operations: each [atomic.Pointer] load, each [atomic.LoadInt64] and each
    [CompareAndSwapInt64] of [internal/rtb/budget_spend.go] is one step, and
    any number of auctions interleave.  Slices live in a heap because a
    goroutine keeps using the slice it loaded after another one has
    published a replacement; [grow_step] is the copy-on-write growth of
    [internal/rtb/budget_store.go], split where the Go code is not atomic. *)

From S2P Require Import Prelude RtbBudget.
Open Scope Z_scope.

Module RtbRace.
Import RtbBudget.

Inductive leg := LCampaign | LCustomer.

#[export] Instance leg_eq_dec : EqDecision leg.
Proof. solve_decision. Defined.

Record shared := mkShared {
  heap : gmap nat (list Z);
  pBudgets : nat;
  pCustomers : nat;
  pDaily : nat;
  nextSlice : nat;
  epoch : Z;
  mu : bool
}.

Record call := mkCall {
  cCampaign : Z; cCustomer : Z; cPrice : Z; cLimit : Z
}.

Inductive pc :=
  | PStart
  | PRollLock (day : Z)
  | PRollSwap (day : Z)
  | PRollStore (day : Z)
  | PHeadPtr
  | PHeadVal (s : nat)
  | PSpendPtr (l : leg)
  | PSpendVal (l : leg) (s : nat)
  | PSpendCas (l : leg) (s : nat) (curr : Z)
  | PDailyPtr
  | PDailyVal (s : nat)
  | PDailyCas (s : nat) (curr : Z)
  | PCreditPtr (l : leg)
  | PCreditVal (l : leg) (s : nat)
  | PCreditCas (l : leg) (s : nat) (curr : Z)
  | PDone (ok : bool).

Definition ptr (l : leg) (sh : shared) : nat :=
  match l with LCampaign => pBudgets sh | LCustomer => pCustomers sh end.

Definition leg_idx (l : leg) (c : call) : Z :=
  match l with LCampaign => cCampaign c | LCustomer => cCustomer c end.

Definition slice (sh : shared) (s : nat) : list Z := default [] (heap sh !! s).

Definition write (sh : shared) (s : nat) (i v : Z) : shared :=
  mkShared (<[s := set_z (slice sh s) i v]> (heap sh)) (pBudgets sh) (pCustomers sh)
    (pDaily sh) (nextSlice sh) (epoch sh) (mu sh).

Definition with_mu (sh : shared) (b : bool) : shared :=
  mkShared (heap sh) (pBudgets sh) (pCustomers sh) (pDaily sh) (nextSlice sh) (epoch sh) b.

(** The daily column replaced by a zeroed copy of the same length. *)
Definition swap_daily (sh : shared) : shared :=
  let cur := slice sh (pDaily sh) in
  if bool_decide (cur = []) then sh
  else mkShared (<[nextSlice sh := replicate (length cur) 0]> (heap sh))
         (pBudgets sh) (pCustomers sh) (nextSlice sh) (S (nextSlice sh)) (epoch sh) (mu sh).

Definition store_epoch (sh : shared) (day : Z) : shared :=
  mkShared (heap sh) (pBudgets sh) (pCustomers sh) (pDaily sh) (nextSlice sh) day false.

(** What runs after each leg of [CheckAndSpendAll] has succeeded, and after
    the daily leg has been refused. *)
Definition after_customer (c : call) : pc :=
  if 0 <? cLimit c then PDailyPtr else PDone true.
Definition after_leg (l : leg) (c : call) : pc :=
  match l with
  | LCampaign => if has_customer (cCustomer c) then PSpendPtr LCustomer else after_customer c
  | LCustomer => after_customer c
  end.
Definition refused (l : leg) : pc :=
  match l with LCampaign => PDone false | LCustomer => PCreditPtr LCampaign end.
Definition daily_refused (c : call) : pc :=
  if has_customer (cCustomer c) then PCreditPtr LCustomer else PCreditPtr LCampaign.
Definition after_credit (l : leg) : pc :=
  match l with LCustomer => PCreditPtr LCampaign | LCampaign => PDone false end.

Definition in_slice (sh : shared) (s : nat) (i : Z) : bool := i <? u32 (zlen (slice sh s)).
Definition cell (sh : shared) (s : nat) (i : Z) : Z :=
  default 0 (slice sh s !! Z.to_nat i).

(** One atomic operation of one auction.  [day] is the date read by
    [currentDayEpochUTC]. *)
Inductive tstep (c : call) : shared -> pc -> shared -> pc -> Prop :=
  | t_start_nolimit sh : cLimit c <= 0 -> tstep c sh PStart sh (PSpendPtr LCampaign)
  | t_start_same sh : 0 < cLimit c -> tstep c sh PStart sh PHeadPtr
  | t_start_roll sh day :
      0 < cLimit c -> epoch sh <> day -> tstep c sh PStart sh (PRollLock day)
  | t_roll_lock sh day :
      mu sh = false -> tstep c sh (PRollLock day) (with_mu sh true) (PRollSwap day)
  | t_roll_raced sh day :
      epoch sh = day -> tstep c sh (PRollSwap day) (with_mu sh false) PHeadPtr
  | t_roll_swap sh day :
      epoch sh <> day -> tstep c sh (PRollSwap day) (swap_daily sh) (PRollStore day)
  | t_roll_store sh day : tstep c sh (PRollStore day) (store_epoch sh day) PHeadPtr
  | t_head_ptr sh : tstep c sh PHeadPtr sh (PHeadVal (pDaily sh))
  | t_head_val sh s :
      tstep c sh (PHeadVal s) sh
        (if (cLimit c -64 (if in_slice sh s (cCampaign c) then cell sh s (cCampaign c) else 0))
              <? cPrice c
         then PDone false else PSpendPtr LCampaign)
  | t_spend_ptr sh l : tstep c sh (PSpendPtr l) sh (PSpendVal l (ptr l sh))
  | t_spend_val sh l s :
      tstep c sh (PSpendVal l s) sh
        (if in_slice sh s (leg_idx l c) then
           let curr := cell sh s (leg_idx l c) in
           if curr <? cPrice c then refused l else PSpendCas l s curr
         else refused l)
  | t_spend_cas_ok sh l s curr :
      cell sh s (leg_idx l c) = curr ->
      tstep c sh (PSpendCas l s curr)
        (write sh s (leg_idx l c) (curr -64 cPrice c)) (after_leg l c)
  | t_spend_cas_retry sh l s curr :
      cell sh s (leg_idx l c) <> curr -> tstep c sh (PSpendCas l s curr) sh (PSpendVal l s)
  | t_daily_ptr sh : tstep c sh PDailyPtr sh (PDailyVal (pDaily sh))
  | t_daily_val sh s :
      tstep c sh (PDailyVal s) sh
        (if in_slice sh s (cCampaign c) then
           let curr := cell sh s (cCampaign c) in
           if cLimit c <? (curr +64 cPrice c) then daily_refused c else PDailyCas s curr
         else daily_refused c)
  | t_daily_cas_ok sh s curr :
      cell sh s (cCampaign c) = curr ->
      tstep c sh (PDailyCas s curr) (write sh s (cCampaign c) (curr +64 cPrice c)) (PDone true)
  | t_daily_cas_retry sh s curr :
      cell sh s (cCampaign c) <> curr -> tstep c sh (PDailyCas s curr) sh (PDailyVal s)
  | t_credit_ptr sh l : tstep c sh (PCreditPtr l) sh (PCreditVal l (ptr l sh))
  | t_credit_val sh l s :
      tstep c sh (PCreditVal l s) sh
        (if in_slice sh s (leg_idx l c) then PCreditCas l s (cell sh s (leg_idx l c))
         else after_credit l)
  | t_credit_cas_ok sh l s curr :
      cell sh s (leg_idx l c) = curr ->
      tstep c sh (PCreditCas l s curr)
        (write sh s (leg_idx l c) (curr +64 cPrice c)) (after_credit l)
  | t_credit_cas_retry sh l s curr :
      cell sh s (leg_idx l c) <> curr -> tstep c sh (PCreditCas l s curr) sh (PCreditVal l s).

(** ** Interleavings of any number of auctions *)

Record sys := mkSys { sh : shared; threads : list (call * pc) }.

Inductive sys_step : sys -> sys -> Prop :=
  | sys_thread s k c p sh' p' :
      threads s !! k = Some (c, p) -> tstep c (sh s) p sh' p' ->
      sys_step s (mkSys sh' (<[k := (c, p')]> (threads s))).

Inductive reach (s0 : sys) : sys -> Prop :=
  | reach_refl : reach s0 s0
  | reach_step s s' : reach s0 s -> sys_step s s' -> reach s0 s'.

Definition initial (budgets customers daily : list Z) (day : Z) (calls : list call) : sys :=
  mkSys (mkShared {[0%nat := budgets; 1%nat := customers; 2%nat := daily]} 0 1 2 3 day false)
    (map (fun c => (c, PStart)) calls).

(** Does a thread hold a debit of this leg that has been neither confirmed
    nor rolled back?  A confirmed debit counts as held for good. *)
Definition holds (l : leg) (c : call) (p : pc) : bool :=
  match l, p with
  | LCampaign, (PSpendPtr LCustomer | PSpendVal LCustomer _ | PSpendCas LCustomer _ _) => true
  | LCampaign, (PDailyPtr | PDailyVal _ | PDailyCas _ _) => true
  | LCampaign, (PCreditPtr _ | PCreditVal _ _ | PCreditCas _ _ _) => true
  | LCustomer, (PDailyPtr | PDailyVal _ | PDailyCas _ _) => has_customer (cCustomer c)
  | LCustomer, (PCreditPtr LCustomer | PCreditVal LCustomer _ | PCreditCas LCustomer _ _) => true
  | LCampaign, PDone ok => ok
  | LCustomer, PDone ok => ok && has_customer (cCustomer c)
  | _, _ => false
  end.

Definition held (l : leg) (i : Z) (t : call * pc) : Z :=
  if holds l (fst t) (snd t) && (leg_idx l (fst t) =? i) then cPrice (fst t) else 0.

Definition outstanding (l : leg) (i : Z) (ts : list (call * pc)) : Z :=
  sumZ (map (held l i) ts).

(** ** Invariant of the auctions-only system *)

Section Invariant.
Variable init : leg -> list Z.
Hypothesis init_ok : forall l, column_ok (init l).

Definition call_ok (c : call) : Prop := 0 <= cPrice c /\ forall l, 0 <= leg_idx l c.

Definition slice_id (l : leg) : nat := match l with LCampaign => 0%nat | LCustomer => 1%nat end.

Record mem_ok (sh : shared) : Prop := {
  mem_ptr : forall l, ptr l sh = slice_id l;
  mem_daily : (2 <= pDaily sh < nextSlice sh)%nat;
  mem_len : forall l, zlen (slice sh (slice_id l)) = zlen (init l);
  mem_pos : forall l i, 0 <= i -> 0 <= cell sh (slice_id l) i
}.

Definition leg_used (l : leg) (c : call) : bool :=
  match l with LCampaign => true | LCustomer => has_customer (cCustomer c) end.

Definition in_range (l : leg) (c : call) : Prop := leg_idx l c < zlen (init l).

Definition pc_ok (c : call) (p : pc) : Prop :=
  (forall l, holds l c p = true -> in_range l c) /\
  match p with
  | PSpendPtr l | PCreditPtr l => leg_used l c = true
  | PSpendVal l s | PCreditVal l s => leg_used l c = true /\ s = slice_id l
  | PSpendCas l s curr =>
      leg_used l c = true /\ s = slice_id l /\ cPrice c <= curr /\ in_range l c
  | PCreditCas l s _ => leg_used l c = true /\ s = slice_id l /\ in_range l c
  | PDailyVal s | PDailyCas s _ => (2 <= s)%nat
  | _ => True
  end.

Lemma cell_write sh s i v s' j :
  0 <= i < zlen (slice sh s) -> 0 <= j ->
  cell (write sh s i v) s' j = if decide (s = s' /\ i = j) then v else cell sh s' j.
Proof.
  intros Hi Hj. unfold cell, slice at 1, write. simpl. rewrite lookup_insert.
  destruct (decide (s = s')) as [<-|Hs].
  - simpl. unfold set_z. destruct (decide (i = j)) as [<-|Hij].
    + rewrite decide_True by done. rewrite list_lookup_insert_eq by (unfold zlen in *; lia). done.
    + rewrite decide_False by tauto. rewrite list_lookup_insert_ne by lia. done.
  - rewrite decide_False by tauto. done.
Qed.

Lemma zlen_write sh s i v s' : zlen (slice (write sh s i v) s') = zlen (slice sh s').
Proof.
  unfold slice at 1, write. simpl. rewrite lookup_insert. case_decide as H; subst; [|done].
  simpl. apply zlen_set.
Qed.

Lemma in_slice_len sh l c :
  mem_ok sh -> in_slice sh (slice_id l) (leg_idx l c) = true <-> in_range l c.
Proof.
  intros M. unfold in_slice, in_range. rewrite (mem_len _ M).
  rewrite (column_len _ (init_ok l)). lia.
Qed.

Lemma slice_swap sh s :
  (s < nextSlice sh)%nat -> slice (swap_daily sh) s = slice sh s.
Proof.
  intros H. unfold swap_daily. case_bool_decide; [done|]. unfold slice. simpl.
  rewrite lookup_insert_ne by lia. done.
Qed.

(** Memory changed only outside the two debited columns. *)
Lemma mem_ok_frame sh sh' :
  mem_ok sh -> (forall l, ptr l sh' = ptr l sh) ->
  (2 <= pDaily sh' < nextSlice sh')%nat ->
  (forall l, slice sh' (slice_id l) = slice sh (slice_id l)) -> mem_ok sh'.
Proof.
  intros [Hp Hd Hl Hc] Hp' Hd' Hs. split; auto; intros l; rewrite ?Hp'; auto.
  - by rewrite Hs.
  - intros i Hi. unfold cell. rewrite Hs. by apply Hc.
Qed.

Lemma mem_ok_write sh s i v :
  mem_ok sh -> 0 <= i < zlen (slice sh s) -> 0 <= v -> mem_ok (write sh s i v).
Proof.
  intros [Hp Hd Hl Hc] Hi Hv. split; auto; intros l; rewrite ?zlen_write; auto.
  intros j Hj. rewrite cell_write by auto. case_decide; auto.
Qed.

(** The effect of a step on one cell is the opposite of its effect on what
    its thread holds. *)
Definition accounts (c : call) (sh sh' : shared) (p p' : pc) : Prop :=
  forall l i, 0 <= i ->
    cell sh' (slice_id l) i = cell sh (slice_id l) i + held l i (c, p) - held l i (c, p').

Lemma slice_id_inj l l' : slice_id l = slice_id l' -> l = l'.
Proof. destruct l, l'; simpl; congruence. Qed.

Lemma accounts_frame c sh sh' p p' :
  (forall l, slice sh' (slice_id l) = slice sh (slice_id l)) ->
  (forall l, holds l c p' = holds l c p) -> accounts c sh sh' p p'.
Proof.
  intros Hs Hh l i Hi. unfold cell. rewrite Hs. unfold held. simpl. rewrite Hh. lia.
Qed.

(** A write of the cell of leg [l] that moves the hold on that leg only. *)
Lemma accounts_write c sh l v p p' :
  call_ok c -> mem_ok sh -> in_range l c ->
  (forall l', l' <> l -> holds l' c p' = holds l' c p) ->
  v = cell sh (slice_id l) (leg_idx l c) +
      (if holds l c p then cPrice c else 0) - (if holds l c p' then cPrice c else 0) ->
  accounts c sh (write sh (slice_id l) (leg_idx l c) v) p p'.
Proof.
  intros [_ Hpos] M Hr Hh Hv l' i Hi.
  rewrite cell_write by (rewrite ?(mem_len _ M); auto). unfold held. simpl.
  destruct (decide (l' = l)) as [->|Hl].
  - case_decide as E.
    + destruct E as [_ <-]. rewrite Z.eqb_refl, !andb_true_r. lia.
    + replace (leg_idx l c =? i) with false by (symmetry; apply Z.eqb_neq; tauto).
      rewrite !andb_false_r. lia.
  - rewrite decide_False by (intros [?%slice_id_inj _]; congruence).
    rewrite Hh by done. lia.
Qed.

Definition good (c : call) (sh : shared) (p : pc) (sh' : shared) (p' : pc) : Prop :=
  mem_ok sh' /\ pc_ok c p' /\ accounts c sh sh' p p'.

(** Steps that touch neither debited column and keep the holds. *)
Lemma good_silent c sh p sh' p' :
  mem_ok sh -> (forall l, ptr l sh' = ptr l sh) -> (2 <= pDaily sh' < nextSlice sh')%nat ->
  (forall l, slice sh' (slice_id l) = slice sh (slice_id l)) ->
  (forall l, holds l c p' = holds l c p) -> pc_ok c p' -> good c sh p sh' p'.
Proof. intros. split; [|split]; eauto using mem_ok_frame, accounts_frame. Qed.

Lemma good_read c sh p p' :
  mem_ok sh -> (forall l, holds l c p' = holds l c p) -> pc_ok c p' -> good c sh p sh p'.
Proof. intros M. intros. apply good_silent; auto. apply M. Qed.

(** The two tests that choose what follows a leg. *)
Ltac by_branch c :=
  unfold after_leg, after_customer, daily_refused, refused in *;
  destruct (has_customer (cCustomer c)) eqn:?, (0 <? cLimit c) eqn:?; simpl in *;
  repeat match goal with
  | H : has_customer _ = _ |- context [has_customer _] => rewrite H
  end; simpl in *.

Lemma spend_cas_good c sh l curr :
  call_ok c -> mem_ok sh -> pc_ok c (PSpendCas l (slice_id l) curr) ->
  cell sh (slice_id l) (leg_idx l c) = curr -> curr <= max_i64 ->
  good c sh (PSpendCas l (slice_id l) curr)
    (write sh (slice_id l) (leg_idx l c) (curr -64 cPrice c)) (after_leg l c).
Proof.
  intros [Hp Hi] M [Hh (Hu & _ & Hle & Hr)] Hc Hmax. nowrap.
  assert (0 <= leg_idx l c < zlen (slice sh (slice_id l)))
    by (rewrite (mem_len _ M); auto).
  split; [|split].
  - apply mem_ok_write; auto; lia.
  - split.
    + intros l'. specialize (Hh l'). destruct l, l'; by_branch c; auto; congruence.
    + destruct l; by_branch c; done.
  - apply accounts_write; auto; [by split| |].
    + intros l' Hl. destruct l, l'; by_branch c; congruence.
    + rewrite Hc. destruct l; by_branch c; try congruence; lia.
Qed.

Lemma credit_cas_good c sh l curr :
  call_ok c -> mem_ok sh -> pc_ok c (PCreditCas l (slice_id l) curr) ->
  cell sh (slice_id l) (leg_idx l c) = curr -> curr + cPrice c <= max_i64 ->
  good c sh (PCreditCas l (slice_id l) curr)
    (write sh (slice_id l) (leg_idx l c) (curr +64 cPrice c)) (after_credit l).
Proof.
  intros [Hp Hi] M [Hh (Hu & _ & Hr)] Hc Hmax.
  pose proof (mem_pos _ M l (leg_idx l c) (Hi l)). nowrap.
  assert (0 <= leg_idx l c < zlen (slice sh (slice_id l)))
    by (rewrite (mem_len _ M); auto).
  split; [|split].
  - apply mem_ok_write; auto; lia.
  - split; [|by destruct l].
    intros l'. specialize (Hh l'). destruct l, l'; simpl in *; auto; done.
  - apply accounts_write; auto; [by split| |].
    + intros l' Hl. by destruct l, l'.
    + rewrite Hc. destruct l; simpl; lia.
Qed.

(** Deciding the next step from values just read. *)
Lemma read_value_good c sh p p' :
  mem_ok sh -> pc_ok c p -> (forall l, holds l c p' = holds l c p) ->
  match p' with
  | PSpendPtr l | PCreditPtr l => leg_used l c = true
  | PSpendVal l s | PCreditVal l s => leg_used l c = true /\ s = slice_id l
  | PSpendCas l s curr =>
      leg_used l c = true /\ s = slice_id l /\ cPrice c <= curr /\ in_range l c
  | PCreditCas l s _ => leg_used l c = true /\ s = slice_id l /\ in_range l c
  | PDailyVal s | PDailyCas s _ => (2 <= s)%nat
  | _ => True
  end -> good c sh p sh p'.
Proof.
  intros M [Hh _] He Hp'. apply good_read; auto. split; [|exact Hp'].
  intros l Hl. rewrite He in Hl. auto.
Qed.

Lemma spend_val_good c sh l s p' :
  mem_ok sh -> pc_ok c (PSpendVal l s) ->
  p' = (if in_slice sh s (leg_idx l c) then
          let curr := cell sh s (leg_idx l c) in
          if curr <? cPrice c then refused l else PSpendCas l s curr
        else refused l) ->
  good c sh (PSpendVal l s) sh p'.
Proof.
  intros M Hpc ->. pose proof Hpc as [Hh [Hu ->]].
  pose proof (in_slice_len sh l c M) as Hin.
  apply (read_value_good c sh (PSpendVal l (slice_id l))); auto.
  - intros l'. destruct l, l'; unfold refused; repeat case_if; done.
  - destruct (in_slice sh (slice_id l) (leg_idx l c)) eqn:E; cbn zeta;
      [destruct (_ <? _) eqn:E2|]; destruct l; simpl in *; auto;
      (split; [done|split; [done|split; [lia | by apply Hin]]]).
Qed.

Lemma credit_val_good c sh l s p' :
  mem_ok sh -> pc_ok c (PCreditVal l s) ->
  p' = (if in_slice sh s (leg_idx l c) then PCreditCas l s (cell sh s (leg_idx l c))
        else after_credit l) ->
  good c sh (PCreditVal l s) sh p'.
Proof.
  intros M Hpc ->. pose proof Hpc as [Hh [Hu ->]].
  pose proof (in_slice_len sh l c M) as Hin.
  assert (in_range l c) as Hr by (apply Hh; by destruct l).
  rewrite (proj2 Hin Hr).
  apply (read_value_good c sh (PCreditVal l (slice_id l))); auto.
Qed.

Lemma daily_val_good c sh s p' :
  mem_ok sh -> pc_ok c (PDailyVal s) ->
  p' = (if in_slice sh s (cCampaign c) then
          let curr := cell sh s (cCampaign c) in
          if cLimit c <? (curr +64 cPrice c) then daily_refused c else PDailyCas s curr
        else daily_refused c) ->
  good c sh (PDailyVal s) sh p'.
Proof.
  intros M Hpc ->. pose proof Hpc as [Hh Hs]. simpl in Hs.
  apply (read_value_good c sh (PDailyVal s)); auto.
  - intros l'. destruct l'; cbn zeta; (destruct (in_slice _ _ _); [destruct (cLimit c <? _)|]); by_branch c; done.
  - cbn zeta. destruct (in_slice _ _ _); [destruct (cLimit c <? _)|]; by_branch c; auto.
Qed.

Lemma slice_write_daily sh s i v l :
  (2 <= s)%nat -> slice (write sh s i v) (slice_id l) = slice sh (slice_id l).
Proof.
  intros H. unfold slice at 1, write. simpl. rewrite lookup_insert_ne by (destruct l; simpl; lia).
  done.
Qed.

Lemma swap_daily_good c sh day :
  mem_ok sh -> good c sh (PRollSwap day) (swap_daily sh) (PRollStore day).
Proof.
  intros M. pose proof (mem_daily _ M). apply good_silent; [done| | | | |].
  - intros l. unfold swap_daily. by case_bool_decide.
  - unfold swap_daily. destruct (bool_decide _); simpl; lia.
  - intros l. apply slice_swap. destruct l; simpl; lia.
  - done.
  - split; [by intros [] | done].
Qed.

Lemma tstep_good c sh p sh' p' :
  call_ok c -> mem_ok sh -> pc_ok c p ->
  (forall l, cell sh (slice_id l) (leg_idx l c) +
     (if holds l c p then cPrice c else 0) <= max_i64) ->
  tstep c sh p sh' p' -> good c sh p sh' p'.
Proof.
  intros Hc M Hpc Hmax Hs. pose proof (mem_daily _ M) as Hd.
  destruct Hs; eauto using spend_val_good, credit_val_good, daily_val_good, swap_daily_good.
  (* reads and failed compare-and-swaps *)
  all: try (apply read_value_good; [done | done | |];
    [ intros []; solve [done | by destruct l | by repeat case_if]
    | solve [done | by repeat case_if | simpl in *; try rewrite (mem_ptr _ M);
             intuition (auto; lia)] ]).
  (* lock, unlock, epoch *)
  all: try (apply good_silent; [done | by intros [] | apply M | by intros [] | by intros [] |
    split; [by intros [] | done]]).
  - apply read_value_good; auto; try (by intros []; destruct l).
    split; [apply Hpc | apply (mem_ptr _ M)].
  - pose proof Hpc as [_ (_ & -> & _)]. apply spend_cas_good; auto.
    specialize (Hmax l). step_if Hmax; destruct Hc; lia.
  - pose proof Hpc as [_ Hp]. apply read_value_good; auto; try (by intros []; destruct l).
    simpl in *; tauto.
  - apply good_silent; [done | by intros [] | apply M | | by intros [] | split; [|done]].
    + intros l. apply slice_write_daily. apply Hpc.
    + intros l. specialize (proj1 Hpc l). by destruct l.
  - pose proof Hpc as [_ Hp]. apply read_value_good; auto; try (by intros []).
  - apply read_value_good; auto; try (by intros []; destruct l).
    split; [apply Hpc | apply (mem_ptr _ M)].
  - pose proof Hpc as [_ (_ & -> & _)]. apply credit_cas_good; auto.
    specialize (Hmax l). by destruct l; simpl in *; subst.
  - pose proof Hpc as [_ Hp]. apply read_value_good; auto; try (by intros []; destruct l).
    simpl in *; tauto.
Qed.

Record sys_ok (s : sys) : Prop := {
  sys_mem : mem_ok (sh s);
  sys_threads : Forall (fun t => call_ok (fst t) /\ pc_ok (fst t) (snd t)) (threads s);
  sys_cells : forall l i, 0 <= i ->
    cell (sh s) (slice_id l) i = default 0 (init l !! Z.to_nat i) - outstanding l i (threads s)
}.

Lemma held_nonneg l i t : call_ok (fst t) -> 0 <= held l i t.
Proof. intros [H _]. unfold held. case_if; lia. Qed.

Lemma held_list_nonneg l i ts :
  Forall (fun t => call_ok (fst t) /\ pc_ok (fst t) (snd t)) ts ->
  Forall (Z.le 0) (map (held l i) ts).
Proof.
  intros H. induction H as [|t ts [Hc _] _ IH]; simpl; constructor; auto using held_nonneg.
Qed.

Lemma sumZ_elem xs k x : Forall (Z.le 0) xs -> xs !! k = Some x -> x <= sumZ xs.
Proof.
  intros H. revert k. induction H as [|y xs Hy Hxs IH]; intros [|k] Hk; simplify_eq/=.
  - pose proof (sumZ_nonneg xs Hxs). lia.
  - specialize (IH _ Hk). lia.
Qed.

Lemma init_value_range l i : 0 <= default 0 (init l !! i) <= max_i64.
Proof.
  destruct (init l !! i) eqn:E; simpl; [|go_lia]. eauto using column_value.
Qed.

Lemma outstanding_insert l i ts k t t' :
  ts !! k = Some t ->
  outstanding l i (<[k := t']> ts) = outstanding l i ts - held l i t + held l i t'.
Proof.
  intros H. unfold outstanding. change (map (held l i)) with (fmap (M:=list) (held l i)).
  rewrite list_fmap_insert. apply sumZ_insert. by rewrite list_lookup_fmap, H.
Qed.

Lemma sys_step_ok s s' : sys_ok s -> sys_step s s' -> sys_ok s'.
Proof.
  intros [M T C] Hs. destruct Hs as [s k c p sh' p' Hk Ht].
  pose proof (proj1 (Forall_lookup _ _) T k _ Hk) as [Hc Hp]. simpl in Hc, Hp.
  assert (forall l, cell (sh s) (slice_id l) (leg_idx l c) +
            (if holds l c p then cPrice c else 0) <= max_i64) as Hmax.
  { intros l. rewrite C by apply Hc.
    pose proof (init_value_range l (Z.to_nat (leg_idx l c))).
    assert (held l (leg_idx l c) (c, p) <= outstanding l (leg_idx l c) (threads s)) as Hle.
    { apply (sumZ_elem _ k); [by apply held_list_nonneg|].
      change (map (held l (leg_idx l c))) with (fmap (M:=list) (held l (leg_idx l c))).
      by rewrite list_lookup_fmap, Hk. }
    unfold held in Hle. simpl in Hle. rewrite Z.eqb_refl, andb_true_r in Hle.
    step_if Hle; lia. }
  destruct (tstep_good c _ _ _ _ Hc M Hp Hmax Ht) as (M' & Hp' & Ha).
  split; simpl; auto.
  - apply Forall_insert; auto.
  - intros l i Hi. rewrite (outstanding_insert _ _ _ _ _ _ Hk), (Ha l i Hi), C by done. lia.
Qed.

Lemma reach_ok s0 s : sys_ok s0 -> reach s0 s -> sys_ok s.
Proof. intros H R. induction R; eauto using sys_step_ok. Qed.

End Invariant.

Definition columns (b c : list Z) (l : leg) : list Z :=
  match l with LCampaign => b | LCustomer => c end.

Lemma initial_ok b c d day calls :
  column_ok b -> column_ok c -> Forall call_ok calls ->
  sys_ok (columns b c) (initial b c d day calls).
Proof.
  intros Hb Hc Hcalls.
  assert (forall l, slice (sh (initial b c d day calls)) (slice_id l) = columns b c l) as Hsl
    by (by intros []).
  assert (forall l i, cell (sh (initial b c d day calls)) (slice_id l) i =
    default 0 (columns b c l !! Z.to_nat i)) as Hcell
    by (intros; unfold cell; by rewrite Hsl).
  split; [split|..].
  - by intros [].
  - simpl. lia.
  - intros l. by rewrite Hsl.
  - intros l i _. rewrite Hcell. destruct (columns b c l !! Z.to_nat i) eqn:E; simpl; [|lia].
    assert (column_ok (columns b c l)) as Hl by (by destruct l).
    apply (column_value _ _ _ Hl E).
  - simpl. apply Forall_map. apply (Forall_impl _ _ _ Hcalls). intros cl H.
    split; [done|]. split; [by intros [] | done].
  - intros l i _. rewrite Hcell.
    assert (outstanding l i (threads (initial b c d day calls)) = 0) as ->; [|lia].
    unfold outstanding. simpl. clear. induction calls as [|cl calls IH]; simpl; [done|].
    rewrite IH. unfold held. by destruct l.
Qed.

(** What the auctions that answered [true] have been charged. *)
Definition charged (l : leg) (i : Z) (t : call * pc) : Z :=
  match snd t with PDone true => held l i t | _ => 0 end.
Definition committed (l : leg) (i : Z) (ts : list (call * pc)) : Z :=
  sumZ (map (charged l i) ts).

Definition finished (t : call * pc) : Prop :=
  match snd t with PDone _ => True | _ => False end.

Lemma committed_le l i ts :
  Forall (fun t => call_ok (fst t)) ts -> committed l i ts <= outstanding l i ts.
Proof.
  intros H. induction H as [|t ts Ht _ IH]; unfold committed, outstanding in *; simpl; [lia|].
  pose proof (held_nonneg l i t Ht). unfold charged at 1. repeat case_match; lia.
Qed.

Lemma charged_finished l i t : finished t -> held l i t = charged l i t.
Proof.
  destruct t as [c []]; try done. unfold charged, held. simpl. by destruct ok, l.
Qed.

Lemma committed_finished l i ts :
  Forall finished ts -> outstanding l i ts = committed l i ts.
Proof.
  intros H. unfold committed, outstanding.
  induction H as [|t ts Ht _ IH]; simpl; [done|]. rewrite IH. by rewrite charged_finished.
Qed.

(** C3: no interleaving of concurrent auctions overspends.  While slots are
    not being added, at every instant each campaign budget and each customer
    budget is non-negative, and the auctions that have been told they won it
    were charged at most its initial value; once all auctions have returned,
    exactly the winners' prices are missing from it, so every rolled-back
    leg was restored in full. *)
Theorem concurrent_auctions_never_overspend b c d day calls s l i v :
  column_ok b -> column_ok c -> Forall call_ok calls ->
  reach (initial b c d day calls) s ->
  0 <= i -> columns b c l !! Z.to_nat i = Some v ->
  0 <= cell (sh s) (slice_id l) i /\
  committed l i (threads s) <= v /\
  (Forall finished (threads s) -> cell (sh s) (slice_id l) i = v - committed l i (threads s)).
Proof.
  intros Hb Hc Hcalls R Hi Hv.
  assert (forall l, column_ok (columns b c l)) as Hcol by (by intros []).
  destruct (reach_ok (columns b c) Hcol _ _ (initial_ok b c d day calls Hb Hc Hcalls) R)
    as [M T C].
  assert (Forall (fun t => call_ok (fst t)) (threads s)) as T'
    by (apply (Forall_impl _ _ _ T); tauto).
  pose proof (mem_pos _ _ M l i Hi) as Hpos. specialize (C l i Hi). rewrite Hv in C. simpl in C.
  pose proof (committed_le l i _ T'). split; [done|split; [lia|]].
  intros F. rewrite C. by rewrite committed_finished.
Qed.

(** ** Executing schedules

    [tnext] computes the step a thread takes next ([None]: blocked on the
    mutex, or finished), [sched] runs the threads in a given order. *)

Definition tnext (day : Z) (c : call) (sh : shared) (p : pc) : option (shared * pc) :=
  match p with
  | PStart =>
      Some (sh, if 0 <? cLimit c then (if epoch sh =? day then PHeadPtr else PRollLock day)
                else PSpendPtr LCampaign)
  | PRollLock d => if mu sh then None else Some (with_mu sh true, PRollSwap d)
  | PRollSwap d =>
      Some (if epoch sh =? d then (with_mu sh false, PHeadPtr) else (swap_daily sh, PRollStore d))
  | PRollStore d => Some (store_epoch sh d, PHeadPtr)
  | PHeadPtr => Some (sh, PHeadVal (pDaily sh))
  | PHeadVal s =>
      let spent := if in_slice sh s (cCampaign c) then cell sh s (cCampaign c) else 0 in
      Some (sh, if (cLimit c -64 spent) <? cPrice c then PDone false else PSpendPtr LCampaign)
  | PSpendPtr l => Some (sh, PSpendVal l (ptr l sh))
  | PSpendVal l s =>
      Some (sh, if in_slice sh s (leg_idx l c) then
                  let curr := cell sh s (leg_idx l c) in
                  if curr <? cPrice c then refused l else PSpendCas l s curr
                else refused l)
  | PSpendCas l s curr =>
      Some (if cell sh s (leg_idx l c) =? curr
            then (write sh s (leg_idx l c) (curr -64 cPrice c), after_leg l c)
            else (sh, PSpendVal l s))
  | PDailyPtr => Some (sh, PDailyVal (pDaily sh))
  | PDailyVal s =>
      Some (sh, if in_slice sh s (cCampaign c) then
                  let curr := cell sh s (cCampaign c) in
                  if cLimit c <? (curr +64 cPrice c) then daily_refused c else PDailyCas s curr
                else daily_refused c)
  | PDailyCas s curr =>
      Some (if cell sh s (cCampaign c) =? curr
            then (write sh s (cCampaign c) (curr +64 cPrice c), PDone true)
            else (sh, PDailyVal s))
  | PCreditPtr l => Some (sh, PCreditVal l (ptr l sh))
  | PCreditVal l s =>
      Some (sh, if in_slice sh s (leg_idx l c) then PCreditCas l s (cell sh s (leg_idx l c))
                else after_credit l)
  | PCreditCas l s curr =>
      Some (if cell sh s (leg_idx l c) =? curr
            then (write sh s (leg_idx l c) (curr +64 cPrice c), after_credit l)
            else (sh, PCreditVal l s))
  | PDone _ => None
  end.

Lemma tnext_sound day c sh p sh' p' :
  tnext day c sh p = Some (sh', p') -> tstep c sh p sh' p'.
Proof.
  intros H. destruct p; simpl in H; try discriminate.
  all: try (injection H as <- <-; constructor; fail).
  - injection H as <- <-. destruct (0 <? cLimit c) eqn:E; [destruct (epoch sh =? day) eqn:E2|];
      constructor; lia.
  - destruct (mu sh) eqn:E; [discriminate|]. injection H as <- <-. by constructor.
  - destruct (epoch sh =? day0) eqn:E; injection H as <- <-; constructor; lia.
  - destruct (_ =? curr) eqn:E; injection H as <- <-; constructor; lia.
  - destruct (_ =? curr) eqn:E; injection H as <- <-; constructor; lia.
  - destruct (_ =? curr) eqn:E; injection H as <- <-; constructor; lia.
Qed.

Fixpoint sched (day : Z) (order : list nat) (s : sys) : option sys :=
  match order with
  | [] => Some s
  | k :: rest =>
      match threads s !! k with
      | None => None
      | Some (c, p) =>
          match tnext day c (sh s) p with
          | None => None
          | Some (sh', p') => sched day rest (mkSys sh' (<[k := (c, p')]> (threads s)))
          end
      end
  end.

Lemma sched_reach day order s0 s s' :
  reach s0 s -> sched day order s = Some s' -> reach s0 s'.
Proof.
  revert s. induction order as [|k order IH]; intros s R H; simpl in H; [by simplify_eq|].
  repeat case_match; try discriminate; simplify_eq.
  eapply IH; [|done]. eapply reach_step; [done|]. eapply sys_thread; eauto using tnext_sound.
Qed.

(** Two auctions on one campaign of 100 micro-units at 60 each: both read
    100, one wins the compare-and-swap, the other retries and is refused. *)
Definition demo_calls : list call :=
  [mkCall 0 invalidCustomerBudgetIdx 60 0; mkCall 0 invalidCustomerBudgetIdx 60 0].
Definition demo_order : list nat := [0; 1; 0; 1; 0; 1; 0; 1; 1]%nat.

Lemma concurrent_auctions_never_overspend_witness :
  exists s, sched 1 demo_order (initial [100] [] [0] 1 demo_calls) = Some s /\
    map snd (threads s) = [PDone true; PDone false] /\
    cell (sh s) 0 0 = 100 - committed LCampaign 0 (threads s).
Proof.
  eexists. split; [vm_compute; reflexivity|]. split; [reflexivity|].
  eapply (concurrent_auctions_never_overspend [100] [] [0] 1 demo_calls _ LCampaign 0 100).
  - split; [reflexivity | repeat constructor; go_lia].
  - split; [reflexivity | constructor].
  - repeat constructor; simpl; try lia; intros []; simpl; unfold invalidCustomerBudgetIdx; lia.
  - eapply (sched_reach 1 demo_order); [constructor | vm_compute; reflexivity].
  - lia.
  - reflexivity.
  - repeat constructor.
Defined.

(** ** Growth of the column during an auction

    [appendSlotLocked] copies the current slice and publishes the copy; the
    mutex it holds is not taken by the lock-free debits. *)

Inductive gpc := GStart (v : Z) | GCopied (b : list Z) | GDone.

Definition publish (sh : shared) (b : list Z) : shared :=
  let daily := growDaily (slice sh (pDaily sh)) (length b) in
  mkShared (<[S (nextSlice sh) := daily]> (<[nextSlice sh := b]> (heap sh)))
    (nextSlice sh) (pCustomers sh) (S (nextSlice sh)) (S (S (nextSlice sh))) (epoch sh) false.

Inductive grow_step : shared -> gpc -> shared -> gpc -> Prop :=
  | grow_copy sh v :
      mu sh = false ->
      grow_step sh (GStart v) (with_mu sh true) (GCopied (slice sh (pBudgets sh) ++ [v]))
  | grow_publish sh b : grow_step sh (GCopied b) (publish sh b) GDone.

Inductive greach (s0 : sys) (g0 : gpc) : sys -> gpc -> Prop :=
  | greach_refl : greach s0 g0 s0 g0
  | greach_auction s g s' : greach s0 g0 s g -> sys_step s s' -> greach s0 g0 s' g
  | greach_grow s g sh' g' :
      greach s0 g0 s g -> grow_step (sh s) g sh' g' ->
      greach s0 g0 (mkSys sh' (threads s)) g'.

Lemma sched_greach day order s0 g0 s g s' :
  greach s0 g0 s g -> sched day order s = Some s' -> greach s0 g0 s' g.
Proof.
  revert s. induction order as [|k order IH]; intros s R H; simpl in H; [by simplify_eq|].
  repeat case_match; try discriminate; simplify_eq.
  eapply IH; [|done]. eapply greach_auction; [done|]. eapply sys_thread; eauto using tnext_sound.
Qed.

(** A slot added while an auction is running loses the auction's debit.
    The first auction reads the old slice, the copy is taken, the auction's
    compare-and-swap succeeds on the old slice, and the copy is published
    with the old balance: a second auction is then admitted although the two
    winners together exceed the campaign's budget. *)
Theorem growth_loses_debit :
  exists s, greach (initial [100] [] [0] 1 demo_calls) (GStart 5) s GDone /\
    Forall finished (threads s) /\
    committed LCampaign 0 (threads s) = 120 /\
    loadOn (slice (sh s) (pBudgets (sh s))) 0 = 40.
Proof.
  set (s1 := default (initial [] [] [] 1 [])
               (sched 1 [0; 0; 0]%nat (initial [100] [] [0] 1 demo_calls))).
  set (s2 := mkSys (with_mu (sh s1) true) (threads s1)).
  set (s3 := default s2 (sched 1 [0]%nat s2)).
  set (s4 := mkSys (publish (sh s3) (slice (sh s2) 0%nat ++ [5])) (threads s3)).
  set (s5 := default s4 (sched 1 [1; 1; 1; 1]%nat s4)).
  exists s5. split; [|vm_compute; repeat constructor].
  apply (sched_greach 1 [1; 1; 1; 1]%nat _ _ s4); [|vm_compute; reflexivity].
  apply (greach_grow _ _ s3 (GCopied (slice (sh s2) 0%nat ++ [5]))); [|constructor].
  apply (sched_greach 1 [0]%nat _ _ s2); [|vm_compute; reflexivity].
  apply (greach_grow _ _ s1 (GStart 5)); [|exact (grow_copy (sh s1) 5 eq_refl)].
  apply (sched_greach 1 [0; 0; 0]%nat _ _ (initial [100] [] [0] 1 demo_calls));
    [constructor | vm_compute; reflexivity].
Qed.

End RtbRace.
