(* ===== verification/RtbCatalog.v ===== *)
(** * The auction catalog: columnar buckets and their indexes

    Models [internal/rtb/catalog_bucket_soa.go], [catalog_geo_index.go],
    [catalog_targeting_index.go], [catalog_bucket_sort.go] and the catalog
    types of [catalog_shard.go].  A Go slice is a list; reading outside a
    slice panics in Go and is [None] here. *)

From S2P Require Import Prelude.
Open Scope Z_scope.

Module RtbCatalog.

Definition CTRPPMUnit : Z := 1000000.
Definition PacingOpen : Z := 1.
Definition PacingClosed : Z := 2.
Definition MediaTypeDisplay : Z := 1.

Definition normalizeCTRPPM (ctr : Z) : Z := if ctr =? 0 then CTRPPMUnit else ctr.
Definition normalizePacingOpen (o : Z) : Z :=
  if o =? PacingClosed then PacingClosed else PacingOpen.

(** [bid * int64(ctr) * int64(boost) / denom], every product in [int64]. *)
Definition effectiveScoreWithBoost (bid ctrPPM boostPPM : Z) : Z :=
  let ctr := normalizeCTRPPM ctrPPM in
  let boost := normalizeCTRPPM boostPPM in
  let denom := CTRPPMUnit *64 CTRPPMUnit in
  ((bid *64 ctr) *64 boost) /64 denom.

Definition effectiveScore (bid ctrPPM : Z) : Z :=
  effectiveScoreWithBoost bid ctrPPM CTRPPMUnit.

(** One denormalised candidate. *)
Record bucket_row := mkRow {
  w_CatalogIdx : Z; w_CreativeID : Z; w_Bid : Z; w_CTRPPM : Z; w_Reserve : Z;
  w_DailyBudget : Z; w_PacingOpen : Z; w_DeviceMask : Z; w_CategoryMask : Z;
  w_Weight : Z; w_BoostPPM : Z; w_MediaType : Z; w_DurationSec : Z;
  w_BudgetIdx : Z; w_CustomerIdx : Z; w_DaypartMask : Z; w_TZOffsetSec : Z;
  w_ScheduleStart : Z; w_ScheduleEnd : Z; w_FreqLimit : Z; w_FcapPrefixHash : Z
}.

(** [candidateBucketSoA]: the same data, one slice per field. *)
Record candidateBucketSoA := mkSoA {
  s_CatalogIdx : list Z; s_CreativeIDs : list Z; s_Bids : list Z; s_CTRPPM : list Z;
  s_Reserves : list Z; s_DailyBudgets : list Z; s_PacingOpen : list Z;
  s_DeviceMasks : list Z; s_CategoryMasks : list Z; s_Weights : list Z;
  s_BoostPPM : list Z; s_MediaTypes : list Z; s_DurationSec : list Z;
  s_BudgetIndices : list Z; s_CustomerBudgetIndices : list Z; s_DaypartMasks : list Z;
  s_TZOffsetSec : list Z; s_ScheduleStart : list Z; s_ScheduleEnd : list Z;
  s_FreqLimits : list Z; s_FcapPrefixHash : list Z
}.

(** The columns in declaration order: what [slicesValid] and the reset,
    append and swap loops enumerate. *)
Definition columns (b : candidateBucketSoA) : list (list Z) :=
  [s_CatalogIdx b; s_CreativeIDs b; s_Bids b; s_CTRPPM b; s_Reserves b; s_DailyBudgets b;
   s_PacingOpen b; s_DeviceMasks b; s_CategoryMasks b; s_Weights b; s_BoostPPM b;
   s_MediaTypes b; s_DurationSec b; s_BudgetIndices b; s_CustomerBudgetIndices b;
   s_DaypartMasks b; s_TZOffsetSec b; s_ScheduleStart b; s_ScheduleEnd b; s_FreqLimits b;
   s_FcapPrefixHash b].

Definition soa_len (b : candidateBucketSoA) : Z := zlen (s_CatalogIdx b).

Definition slicesValid (b : candidateBucketSoA) (e : Z) : bool :=
  if (e <? 0) || (soa_len b <? e) then false
  else forallb (fun c => e <=? zlen c) (drop 1 (columns b)).

Definition resetBucketSoA : candidateBucketSoA :=
  mkSoA [] [] [] [] [] [] [] [] [] [] [] [] [] [] [] [] [] [] [] [] [].

Record creativeCacheSoA := mkCreatives {
  c_CreativeIDs : list Z; c_Bids : list Z; c_CTRPPM : list Z; c_Weights : list Z;
  c_MediaTypes : list Z; c_DurationSec : list Z
}.

Record CampaignAuctionRegistry := mkRegistry {
  Count : Z;
  CampaignIDs : list Z; Bids : list Z; CTRPPM : list Z; Reserves : list Z;
  DailyBudgets : list Z; PacingOpens : list Z; DeviceMasks : list Z;
  CategoryMasks : list Z; GeoHashes : list Z; Weights : list Z; BoostPPM : list Z;
  BudgetIndices : list Z; CustomerBudgetIndices : list Z; DaypartMasks : list Z;
  TZOffsetSec : list Z; ScheduleStart : list Z; ScheduleEnd : list Z;
  FreqLimits : list Z; FcapPrefixHash : list Z;
  GeoBucketHash : list Z; GeoBucketStart : list Z; GeoBucketSoA : candidateBucketSoA;
  TargetBucketKey : list Z; TargetBucketStart : list Z; TargetBucketSoA : candidateBucketSoA;
  CreativeCache : creativeCacheSoA; CampaignCreativeStart : list Z
}.

(** [GeoBucketCount] and [TargetBucketCount] are always the lengths of the
    key slices the index builders fill. *)
Definition GeoBucketCount (r : CampaignAuctionRegistry) : Z := zlen (GeoBucketHash r).
Definition TargetBucketCount (r : CampaignAuctionRegistry) : Z := zlen (TargetBucketKey r).

(** [sliceAtU32] and its three copies at other widths. *)
Definition sliceAt (s : list Z) (i : Z) : Z :=
  if (i <? 0) || (zlen s <=? i) then 0 else default 0 (s !! Z.to_nat i).

Definition appendRow (b : candidateBucketSoA) (w : bucket_row) : candidateBucketSoA :=
  mkSoA (s_CatalogIdx b ++ [w_CatalogIdx w]) (s_CreativeIDs b ++ [w_CreativeID w])
    (s_Bids b ++ [w_Bid w]) (s_CTRPPM b ++ [w_CTRPPM w]) (s_Reserves b ++ [w_Reserve w])
    (s_DailyBudgets b ++ [w_DailyBudget w]) (s_PacingOpen b ++ [w_PacingOpen w])
    (s_DeviceMasks b ++ [w_DeviceMask w]) (s_CategoryMasks b ++ [w_CategoryMask w])
    (s_Weights b ++ [w_Weight w]) (s_BoostPPM b ++ [w_BoostPPM w])
    (s_MediaTypes b ++ [w_MediaType w]) (s_DurationSec b ++ [w_DurationSec w])
    (s_BudgetIndices b ++ [w_BudgetIdx w]) (s_CustomerBudgetIndices b ++ [w_CustomerIdx w])
    (s_DaypartMasks b ++ [w_DaypartMask w]) (s_TZOffsetSec b ++ [w_TZOffsetSec w])
    (s_ScheduleStart b ++ [w_ScheduleStart w]) (s_ScheduleEnd b ++ [w_ScheduleEnd w])
    (s_FreqLimits b ++ [w_FreqLimit w]) (s_FcapPrefixHash b ++ [w_FcapPrefixHash w]).

(** The row [appendBucketRow] copies out of the registry. *)
Definition rowOf (reg : CampaignAuctionRegistry)
    (catalogIdx creativeID bid ctr weight media duration : Z) : option bucket_row :=
  let i := catalogIdx in
  let media := if media =? 0 then MediaTypeDisplay else media in
  reserve ← at_z (Reserves reg) i;
  daily ← at_z (DailyBudgets reg) i;
  pacing ← at_z (PacingOpens reg) i;
  device ← at_z (DeviceMasks reg) i;
  category ← at_z (CategoryMasks reg) i;
  boost ← at_z (BoostPPM reg) i;
  budgetIdx ← at_z (BudgetIndices reg) i;
  customerIdx ← at_z (CustomerBudgetIndices reg) i;
  Some (mkRow catalogIdx creativeID bid ctr reserve daily pacing device category weight boost
    media duration budgetIdx customerIdx (sliceAt (DaypartMasks reg) i)
    (sliceAt (TZOffsetSec reg) i) (sliceAt (ScheduleStart reg) i)
    (sliceAt (ScheduleEnd reg) i) (sliceAt (FreqLimits reg) i)
    (sliceAt (FcapPrefixHash reg) i)).

Definition appendBucketRow (b : candidateBucketSoA) (reg : CampaignAuctionRegistry)
    (catalogIdx creativeID bid ctr weight media duration : Z) : option candidateBucketSoA :=
  appendRow b <$> rowOf reg catalogIdx creativeID bid ctr weight media duration.

Definition campaignCreativeRange (reg : CampaignAuctionRegistry) (i : Z) : option (Z * Z) :=
  if (i <? 0) || (Count reg <=? i) then None
  else if negb (zlen (CampaignCreativeStart reg) =? Count reg + 1) then None
  else
    start ← at_z (CampaignCreativeStart reg) i;
    stop ← at_z (CampaignCreativeStart reg) (i + 1);
    if start <? stop then Some (start, stop) else None.

(** The loop over the cached creatives [start .. stop-1] of a campaign. *)
Fixpoint appendCreatives (n : nat) (slot : Z) (b : candidateBucketSoA)
    (reg : CampaignAuctionRegistry) (catalogIdx : Z) : option candidateBucketSoA :=
  match n with
  | O => Some b
  | S n' =>
      let cr := CreativeCache reg in
      id ← at_z (c_CreativeIDs cr) slot;
      bid ← at_z (c_Bids cr) slot;
      ctr ← at_z (c_CTRPPM cr) slot;
      weight ← at_z (c_Weights cr) slot;
      media ← at_z (c_MediaTypes cr) slot;
      dur ← at_z (c_DurationSec cr) slot;
      b' ← appendBucketRow b reg catalogIdx id bid ctr weight media dur;
      appendCreatives n' (slot + 1) b' reg catalogIdx
  end.

Definition appendBucketCandidate (b : candidateBucketSoA) (reg : CampaignAuctionRegistry)
    (catalogIdx : Z) : option candidateBucketSoA :=
  match campaignCreativeRange reg catalogIdx with
  | Some (s, e) => appendCreatives (Z.to_nat (e - s)) s b reg catalogIdx
  | None =>
      bid ← at_z (Bids reg) catalogIdx;
      ctr ← at_z (CTRPPM reg) catalogIdx;
      weight ← at_z (Weights reg) catalogIdx;
      appendBucketRow b reg catalogIdx 0 bid ctr weight 0 0
  end.

(** ** Row view of a bucket

    [row_at b i] reads field by field what the scan loop reads at position
    [i] of its subviews; [view b s e] is the rows the loop visits. *)

Definition row_at (b : candidateBucketSoA) (i : nat) : option bucket_row :=
  a1 ← s_CatalogIdx b !! i; a2 ← s_CreativeIDs b !! i; a3 ← s_Bids b !! i;
  a4 ← s_CTRPPM b !! i; a5 ← s_Reserves b !! i; a6 ← s_DailyBudgets b !! i;
  a7 ← s_PacingOpen b !! i; a8 ← s_DeviceMasks b !! i; a9 ← s_CategoryMasks b !! i;
  a10 ← s_Weights b !! i; a11 ← s_BoostPPM b !! i; a12 ← s_MediaTypes b !! i;
  a13 ← s_DurationSec b !! i; a14 ← s_BudgetIndices b !! i;
  a15 ← s_CustomerBudgetIndices b !! i; a16 ← s_DaypartMasks b !! i;
  a17 ← s_TZOffsetSec b !! i; a18 ← s_ScheduleStart b !! i; a19 ← s_ScheduleEnd b !! i;
  a20 ← s_FreqLimits b !! i; a21 ← s_FcapPrefixHash b !! i;
  Some (mkRow a1 a2 a3 a4 a5 a6 a7 a8 a9 a10 a11 a12 a13 a14 a15 a16 a17 a18 a19 a20 a21).

Definition view (b : candidateBucketSoA) (s e : Z) : list bucket_row :=
  omap (row_at b) (seq (Z.to_nat s) (Z.to_nat (e - s))).

(** A bucket built by appending rows, and its rows. *)
Definition fromRows (rows : list bucket_row) : candidateBucketSoA :=
  foldl appendRow resetBucketSoA rows.

Definition row_score (w : bucket_row) : Z :=
  effectiveScoreWithBoost (w_Bid w) (w_CTRPPM w) (w_BoostPPM w).

(** [bucketSoASorter.Less] on two rows. *)
Definition row_less (x y : bucket_row) : bool :=
  if negb (row_score x =? row_score y) then row_score y <? row_score x
  else if negb (w_Weight x =? w_Weight y) then w_Weight y <? w_Weight x
  else w_Bid y <? w_Bid x.

(** ** Indexes over the catalog *)

(** [sort.Search]: binary search for the first index in [[i, j)] where [f]
    holds.  Each round halves [j - i], so [Z.to_nat (j - i)] rounds suffice. *)
Fixpoint search_loop (fuel : nat) (f : Z -> bool) (i j : Z) : Z :=
  match fuel with
  | O => i
  | S fuel' =>
      if i <? j then
        let h := (i + j) / 2 in
        if f h then search_loop fuel' f i h else search_loop fuel' f (h + 1) j
      else i
  end.

Definition sort_Search (n : Z) (f : Z -> bool) : Z := search_loop (Z.to_nat n) f 0 n.

(** Shared lookup of [geoRange] and [targetingRange]. *)
Definition keyRange (keys starts : list Z) (key : Z) : option (Z * Z) :=
  if zlen keys =? 0 then None
  else
    let idx := sort_Search (zlen keys) (fun i => key <=? default 0 (keys !! Z.to_nat i)) in
    if (zlen keys <=? idx) || negb (default 0 (keys !! Z.to_nat idx) =? key) then None
    else
      start ← at_z starts idx;
      stop ← at_z starts (idx + 1);
      Some (start, stop).

Definition geoRange (r : CampaignAuctionRegistry) (geoHash : Z) : option (Z * Z) :=
  keyRange (GeoBucketHash r) (GeoBucketStart r) geoHash.

(** Grouping of catalog rows by key, in order of appearance. *)
Definition group_add (m : gmap Z (list Z)) (p : Z * Z) : gmap Z (list Z) :=
  <[fst p := default [] (m !! fst p) ++ [snd p]]> m.
Definition group (pairs : list (Z * Z)) : gmap Z (list Z) := foldl group_add ∅ pairs.

Definition sorted_keys (m : gmap Z (list Z)) : list Z :=
  merge_sort Z.le (map fst (map_to_list m)).

Fixpoint appendCandidates (b : candidateBucketSoA) (reg : CampaignAuctionRegistry)
    (idxs : list Z) : option candidateBucketSoA :=
  match idxs with
  | [] => Some b
  | i :: rest => b' ← appendBucketCandidate b reg i; appendCandidates b' reg rest
  end.

(** Fills the SoA bucket by bucket; returns the start offsets and the end. *)
Fixpoint layout (reg : CampaignAuctionRegistry) (m : gmap Z (list Z)) (keys : list Z)
    (b : candidateBucketSoA) : option (list Z * candidateBucketSoA) :=
  match keys with
  | [] => Some ([u32 (soa_len b)], b)
  | k :: ks =>
      b' ← appendCandidates b reg (default [] (m !! k));
      r ← layout reg m ks b';
      Some (u32 (soa_len b) :: fst r, snd r)
  end.

Definition with_geo (r : CampaignAuctionRegistry) (keys starts : list Z)
    (b : candidateBucketSoA) : CampaignAuctionRegistry :=
  mkRegistry (Count r) (CampaignIDs r) (Bids r) (CTRPPM r) (Reserves r) (DailyBudgets r)
    (PacingOpens r) (DeviceMasks r) (CategoryMasks r) (GeoHashes r) (Weights r) (BoostPPM r)
    (BudgetIndices r) (CustomerBudgetIndices r) (DaypartMasks r) (TZOffsetSec r)
    (ScheduleStart r) (ScheduleEnd r) (FreqLimits r) (FcapPrefixHash r)
    keys starts b (TargetBucketKey r) (TargetBucketStart r) (TargetBucketSoA r)
    (CreativeCache r) (CampaignCreativeStart r).

Definition with_target (r : CampaignAuctionRegistry) (keys starts : list Z)
    (b : candidateBucketSoA) : CampaignAuctionRegistry :=
  mkRegistry (Count r) (CampaignIDs r) (Bids r) (CTRPPM r) (Reserves r) (DailyBudgets r)
    (PacingOpens r) (DeviceMasks r) (CategoryMasks r) (GeoHashes r) (Weights r) (BoostPPM r)
    (BudgetIndices r) (CustomerBudgetIndices r) (DaypartMasks r) (TZOffsetSec r)
    (ScheduleStart r) (ScheduleEnd r) (FreqLimits r) (FcapPrefixHash r)
    (GeoBucketHash r) (GeoBucketStart r) (GeoBucketSoA r) keys starts b
    (CreativeCache r) (CampaignCreativeStart r).

Definition geo_pairs (reg : CampaignAuctionRegistry) : list (Z * Z) :=
  map (fun i => (default 0 (GeoHashes reg !! i), Z.of_nat i)) (seq 0 (Z.to_nat (Count reg))).

Definition buildGeoIndex (reg : CampaignAuctionRegistry) : option CampaignAuctionRegistry :=
  if Count reg =? 0 then Some (with_geo reg [] [] resetBucketSoA)
  else
    let buckets := group (geo_pairs reg) in
    let keys := sorted_keys buckets in
    r ← layout reg buckets keys resetBucketSoA;
    Some (with_geo reg keys (fst r) (snd r)).

(** [bits.TrailingZeros8] and [bits.TrailingZeros64]: [w] for zero. *)
Fixpoint trailing_zeros (w : nat) (x : Z) : Z :=
  match w with
  | O => 0
  | S w' => if Z.testbit x 0 then 0 else 1 + trailing_zeros w' (Z.shiftr x 1)
  end.

Definition targetingBucketKey (geo deviceBit categoryBit : Z) : Z :=
  let devIdx := trailing_zeros 8 deviceBit in
  let catIdx := trailing_zeros 64 categoryBit in
  Z.lor (Z.lor (u64 (Z.shiftl geo 32)) (u64 (Z.shiftl devIdx 16))) catIdx.

Definition bits_of (w : nat) (mask : Z) : list Z :=
  filter (fun b => Z.land mask b <> 0) (map (fun k => Z.shiftl 1 (Z.of_nat k)) (seq 0 w)).

(** [forEachDeviceBit] and [forEachCategoryBit] as the lists they visit. *)
Definition deviceBits (mask : Z) : list Z := bits_of 8 mask.
Definition categoryBits (mask : Z) : list Z := if mask =? 0 then [1] else bits_of 64 mask.

Definition target_pairs (reg : CampaignAuctionRegistry) : list (Z * Z) :=
  concat (map (fun i =>
    let geo := default 0 (GeoHashes reg !! i) in
    concat (map (fun d =>
      map (fun c => (targetingBucketKey geo d c, Z.of_nat i))
          (categoryBits (default 0 (CategoryMasks reg !! i))))
      (deviceBits (default 0 (DeviceMasks reg !! i)))))
    (seq 0 (Z.to_nat (Count reg)))).

Definition buildTargetingIndex (reg : CampaignAuctionRegistry)
    : option CampaignAuctionRegistry :=
  if Count reg =? 0 then Some (with_target reg [] [] resetBucketSoA)
  else
    let buckets := group (target_pairs reg) in
    let keys := sorted_keys buckets in
    r ← layout reg buckets keys resetBucketSoA;
    Some (with_target reg keys (fst r) (snd r)).

Definition targetingRange (r : CampaignAuctionRegistry) (geo deviceType categoryMask : Z)
    : option (Z * Z) :=
  let deviceType := if deviceType =? 0 then 1 else deviceType in
  let categoryMask := if categoryMask =? 0 then 1 else categoryMask in
  keyRange (TargetBucketKey r) (TargetBucketStart r)
    (targetingBucketKey geo deviceType categoryMask).

(** ** Columns and rows *)

Lemma fromRows_snoc rows w : fromRows (rows ++ [w]) = appendRow (fromRows rows) w.
Proof. unfold fromRows. by rewrite foldl_snoc. Qed.

(** Every column of a bucket built by appends is the projection of its rows. *)
Lemma fromRows_columns rows :
  fromRows rows =
  mkSoA (map w_CatalogIdx rows) (map w_CreativeID rows) (map w_Bid rows) (map w_CTRPPM rows)
    (map w_Reserve rows) (map w_DailyBudget rows) (map w_PacingOpen rows)
    (map w_DeviceMask rows) (map w_CategoryMask rows) (map w_Weight rows)
    (map w_BoostPPM rows) (map w_MediaType rows) (map w_DurationSec rows)
    (map w_BudgetIdx rows) (map w_CustomerIdx rows) (map w_DaypartMask rows)
    (map w_TZOffsetSec rows) (map w_ScheduleStart rows) (map w_ScheduleEnd rows)
    (map w_FreqLimit rows) (map w_FcapPrefixHash rows).
Proof.
  induction rows as [|w rows IH] using rev_ind; [done|].
  rewrite fromRows_snoc, IH. unfold appendRow. simpl. by rewrite !map_app.
Qed.

Lemma row_at_fromRows rows i : row_at (fromRows rows) i = rows !! i.
Proof.
  rewrite fromRows_columns. unfold row_at. simpl.
  assert (forall f : bucket_row -> Z, map f rows !! i = f <$> rows !! i) as Hm
    by (intros; apply list_lookup_fmap).
  rewrite !Hm. destruct (rows !! i) as [w|]; simpl; [|done]. by destruct w.
Qed.

Lemma soa_len_fromRows rows : soa_len (fromRows rows) = zlen rows.
Proof. rewrite fromRows_columns. unfold soa_len, zlen. simpl. by rewrite length_map. Qed.

Lemma slicesValid_fromRows rows e :
  slicesValid (fromRows rows) e = (0 <=? e) && (e <=? zlen rows).
Proof.
  unfold slicesValid. rewrite soa_len_fromRows. rewrite fromRows_columns.
  unfold zlen. simpl. rewrite !length_map.
  destruct (e <? 0) eqn:E1, (Z.of_nat (length rows) <? e) eqn:E2; simpl; try lia.
Qed.

Lemma omap_lookup_seq {A} (l : list A) s n :
  (s + n <= length l)%nat -> omap (fun i => l !! i) (seq s n) = take n (drop s l).
Proof.
  revert s. induction n as [|n IH]; intros s H; simpl; [done|].
  destruct (lookup_lt_is_Some_2 l s) as [x Hx]; [lia|]. rewrite Hx.
  rewrite (drop_S l x s Hx). simpl. f_equal. apply IH. lia.
Qed.

Lemma view_fromRows rows s e :
  0 <= s <= e -> e <= zlen rows ->
  view (fromRows rows) s e = take (Z.to_nat (e - s)) (drop (Z.to_nat s) rows).
Proof.
  intros Hs He. unfold view. rewrite <- omap_lookup_seq by (unfold zlen in *; lia).
  apply list_omap_ext. apply Forall2_same_length_lookup_2; [done|].
  intros i x y Hx Hy. simplify_eq. apply row_at_fromRows.
Qed.

(** The rows a catalog entry contributes: one per cached creative, or one
    with the campaign's own bid. *)
Fixpoint creativeRows (n : nat) (slot : Z) (reg : CampaignAuctionRegistry) (i : Z)
    : option (list bucket_row) :=
  match n with
  | O => Some []
  | S n' =>
      let cr := CreativeCache reg in
      id ← at_z (c_CreativeIDs cr) slot;
      bid ← at_z (c_Bids cr) slot;
      ctr ← at_z (c_CTRPPM cr) slot;
      weight ← at_z (c_Weights cr) slot;
      media ← at_z (c_MediaTypes cr) slot;
      dur ← at_z (c_DurationSec cr) slot;
      w ← rowOf reg i id bid ctr weight media dur;
      ws ← creativeRows n' (slot + 1) reg i;
      Some (w :: ws)
  end.

Definition candidateRows (reg : CampaignAuctionRegistry) (i : Z) : option (list bucket_row) :=
  match campaignCreativeRange reg i with
  | Some (s, e) => creativeRows (Z.to_nat (e - s)) s reg i
  | None =>
      bid ← at_z (Bids reg) i;
      ctr ← at_z (CTRPPM reg) i;
      weight ← at_z (Weights reg) i;
      w ← rowOf reg i 0 bid ctr weight 0 0;
      Some [w]
  end.

Fixpoint candidatesRows (reg : CampaignAuctionRegistry) (idxs : list Z)
    : option (list bucket_row) :=
  match idxs with
  | [] => Some []
  | i :: rest => ws ← candidateRows reg i; more ← candidatesRows reg rest; Some (ws ++ more)
  end.

Lemma fromRows_app_one rows w ws : fromRows (rows ++ w :: ws) = fromRows ((rows ++ [w]) ++ ws).
Proof. by rewrite <- app_assoc. Qed.

Lemma appendCreatives_rows n slot rows reg i :
  appendCreatives n slot (fromRows rows) reg i =
  (fun ws => fromRows (rows ++ ws)) <$> creativeRows n slot reg i.
Proof.
  revert slot rows. induction n as [|n IH]; intros slot rows; simpl; [by rewrite app_nil_r|].
  repeat (match goal with |- (?o ≫= _) = _ => destruct o; simpl; [|done] end).
  unfold appendBucketRow. destruct (rowOf reg i z z0 z1 z2 z3 z4) as [w|]; simpl; [|done].
  rewrite <- fromRows_snoc, IH. destruct (creativeRows n (slot + 1) reg i); simpl; [|done].
  by rewrite fromRows_app_one.
Qed.

Lemma appendBucketCandidate_rows rows reg i :
  appendBucketCandidate (fromRows rows) reg i =
  (fun ws => fromRows (rows ++ ws)) <$> candidateRows reg i.
Proof.
  unfold appendBucketCandidate, candidateRows.
  destruct (campaignCreativeRange reg i) as [[s e]|]; [apply appendCreatives_rows|].
  repeat (match goal with |- (?o ≫= _) = _ => destruct o; simpl; [|done] end).
  unfold appendBucketRow. destruct (rowOf reg i 0 z z0 z1 0 0); simpl; [|done].
  by rewrite fromRows_snoc.
Qed.

Lemma appendCandidates_rows rows reg idxs :
  appendCandidates (fromRows rows) reg idxs =
  (fun ws => fromRows (rows ++ ws)) <$> candidatesRows reg idxs.
Proof.
  revert rows. induction idxs as [|i idxs IH]; intros rows; simpl; [by rewrite app_nil_r|].
  rewrite appendBucketCandidate_rows. destruct (candidateRows reg i) as [ws|]; simpl; [|done].
  rewrite IH. destruct (candidatesRows reg idxs); simpl; [|done]. by rewrite app_assoc.
Qed.

(** ** Grouping *)

Definition members (pairs : list (Z * Z)) (k : Z) : list Z :=
  map snd (filter (fun p => fst p = k) pairs).

Lemma members_app p1 p2 k : members (p1 ++ p2) k = members p1 k ++ members p2 k.
Proof. unfold members. by rewrite filter_app, map_app. Qed.

Lemma group_lookup pairs k :
  group pairs !! k = match members pairs k with [] => None | l => Some l end.
Proof.
  unfold group. induction pairs as [|[k' i] pairs IH] using rev_ind; [done|].
  rewrite foldl_snoc. unfold group_add at 1. simpl. rewrite members_app, lookup_insert.
  unfold members at 2. rewrite filter_cons. simpl. case_decide as H.
  - subst. simpl. rewrite IH. by destruct (members pairs k).
  - simpl. by rewrite app_nil_r.
Qed.

Lemma sorted_keys_elem m k : k ∈ sorted_keys m <-> is_Some (m !! k).
Proof.
  unfold sorted_keys. rewrite (merge_sort_Permutation Z.le).
  change (map fst) with (fmap (M:=list) (@fst Z (list Z))). rewrite list_elem_of_fmap.
  split.
  - intros ([k' v] & -> & H). apply elem_of_map_to_list in H. eauto.
  - intros [v H]. exists (k, v). by rewrite elem_of_map_to_list.
Qed.

Lemma sorted_keys_sorted m : StronglySorted Z.lt (sorted_keys m).
Proof.
  assert (StronglySorted Z.le (sorted_keys m)) as H.
  { unfold sorted_keys. apply Sorted_StronglySorted; [exact Z.le_trans|].
    apply Sorted_merge_sort. intros x y. lia. }
  assert (NoDup (sorted_keys m)) as Hd.
  { unfold sorted_keys. rewrite (merge_sort_Permutation Z.le). apply NoDup_fst_map_to_list. }
  revert H Hd. generalize (sorted_keys m). clear m. induction 1 as [|x l Hs IH Hx]; intros Hd.
  - constructor.
  - apply NoDup_cons in Hd as [Hn Hd]. constructor; [auto|].
    rewrite Forall_forall in *. intros y Hy. specialize (Hx y Hy).
    assert (x <> y) by (by intros ->). lia.
Qed.

Lemma strongly_sorted_lookup l i j x y :
  StronglySorted Z.lt l -> l !! i = Some x -> l !! j = Some y -> (i < j)%nat -> x < y.
Proof.
  intros H. revert i j. induction H as [|z l Hs IH Hz]; intros [|i] [|j] Hi Hj Hij;
    simplify_eq/=; try lia.
  - rewrite Forall_lookup in Hz. eauto.
  - eapply (IH i j); eauto. lia.
Qed.

(** ** Binary search *)

Lemma search_loop_spec f n fuel i j :
  0 <= i <= j -> j <= n -> (Z.to_nat (j - i) <= fuel)%nat ->
  (forall a b, 0 <= a <= b -> b < n -> f a = true -> f b = true) ->
  (forall k, 0 <= k < i -> f k = false) -> (forall k, j <= k < n -> f k = true) ->
  let r := search_loop fuel f i j in
  i <= r <= j /\ (forall k, 0 <= k < r -> f k = false) /\ (forall k, r <= k < n -> f k = true).
Proof.
  intros Hij Hjn Hf Hmono Hlo Hhi. revert i j Hij Hjn Hf Hlo Hhi.
  induction fuel as [|fuel IH]; intros i j Hij Hjn Hf Hlo Hhi; simpl.
  - assert (i = j) as -> by lia. split; [lia|auto].
  - destruct (i <? j) eqn:E; [|assert (i = j) as -> by lia; split; [lia|auto]].
    assert (i <= (i + j) / 2 < j) as Hh.
    { split; [apply Z.div_le_lower_bound; lia | apply Z.div_lt_upper_bound; lia]. }
    destruct (f ((i + j) / 2)) eqn:Ef.
    + destruct (IH i ((i + j) / 2)) as (Hr & H1 & H2); try lia; auto.
      { intros k Hk. apply (Hmono ((i + j) / 2)); auto; lia. }
      split; [lia|auto].
    + destruct (IH ((i + j) / 2 + 1) j) as (Hr & H1 & H2); try lia; auto.
      { intros k Hk. destruct (f k) eqn:Ek; [|done].
        rewrite (Hmono k ((i + j) / 2)) in Ef; auto; lia. }
      split; [lia|auto].
Qed.

Lemma keyRange_hit keys starts i key :
  StronglySorted Z.lt keys -> zlen starts = zlen keys + 1 -> keys !! i = Some key ->
  exists s e, starts !! i = Some s /\ starts !! S i = Some e /\
    keyRange keys starts key = Some (s, e).
Proof.
  intros Hs Hl Hi. pose proof (lookup_lt_Some _ _ _ Hi) as Hlt. unfold keyRange.
  set (f := fun j => key <=? default 0 (keys !! Z.to_nat j)).
  assert (forall j, 0 <= j < zlen keys -> f j = (Z.of_nat i <=? j)) as Hf.
  { intros j Hj. destruct (at_z_Some keys j Hj) as (x & _ & Hx). unfold f. rewrite Hx. simpl.
    destruct (lt_eq_lt_dec i (Z.to_nat j)) as [[H|H]|H].
    - pose proof (strongly_sorted_lookup _ _ _ _ _ Hs Hi Hx H). lia.
    - rewrite <- H, Hi in Hx. injection Hx as <-. lia.
    - pose proof (strongly_sorted_lookup _ _ _ _ _ Hs Hx Hi H). lia. }
  destruct (search_loop_spec f (zlen keys) (Z.to_nat (zlen keys)) 0 (zlen keys))
    as (Hr & Hlo & Hhi); try (unfold zlen in *; lia).
  { intros a b Ha Hb. rewrite !Hf by lia. lia. }
  fold (sort_Search (zlen keys) f) in *. set (r := sort_Search (zlen keys) f) in *.
  assert (r = Z.of_nat i) as Er.
  { destruct (Z.lt_trichotomy r (Z.of_nat i)) as [H|[H|H]]; [|done|].
    - assert (f r = true) as Hx by (apply Hhi; unfold zlen in *; lia).
      rewrite Hf in Hx by (unfold zlen in *; lia). lia.
    - assert (f (Z.of_nat i) = false) as Hx by (apply Hlo; lia).
      rewrite Hf in Hx by (unfold zlen in *; lia). lia. }
  rewrite Er, Nat2Z.id, Hi. simpl.
  replace (zlen keys =? 0) with false by (unfold zlen in *; lia).
  replace (zlen keys <=? Z.of_nat i) with false by (unfold zlen in *; lia).
  rewrite Z.eqb_refl. simpl.
  destruct (at_z_Some starts (Z.of_nat i)) as (s & Es & Es'); [unfold zlen in *; lia|].
  destruct (at_z_Some starts (Z.of_nat i + 1)) as (e & Ee & Ee'); [unfold zlen in *; lia|].
  rewrite Es, Ee. simpl. exists s, e. rewrite Nat2Z.id in Es'.
  replace (Z.to_nat (Z.of_nat i + 1)) with (S i) in Ee' by lia. done.
Qed.

Lemma keyRange_sound keys starts key s e :
  keyRange keys starts key = Some (s, e) -> key ∈ keys.
Proof.
  unfold keyRange. set (r := sort_Search _ _). intros H.
  step_if H; [done|]. step_if H; [done|].
  apply orb_false_iff in Heqb0 as [Hr Hk].
  destruct (keys !! Z.to_nat r) as [k|] eqn:E; simpl in Hk.
  - apply list_elem_of_lookup. exists (Z.to_nat r). rewrite E. f_equal. lia.
  - destruct (decide (0 <= r)).
    + destruct (at_z_Some keys r) as (x & _ & Hx); [lia|]. congruence.
    + destruct keys as [|k0 keys]; [done|]. replace (Z.to_nat r) with 0%nat in E by lia. done.
Qed.

(** ** Layout of the buckets *)

Definition group_rows (reg : CampaignAuctionRegistry) (m : gmap Z (list Z)) (k : Z)
    (ws : list bucket_row) : Prop :=
  candidatesRows reg (default [] (m !! k)) = Some ws.

Lemma layout_spec reg m keys rows starts b :
  layout reg m keys (fromRows rows) = Some (starts, b) ->
  exists groups, Forall2 (group_rows reg m) keys groups /\
    b = fromRows (rows ++ concat groups) /\ zlen starts = zlen keys + 1 /\
    (forall i, (i <= length keys)%nat ->
       starts !! i = Some (u32 (zlen (rows ++ concat (take i groups))))).
Proof.
  revert rows starts b. induction keys as [|k keys IH]; intros rows starts b H; simpl in H.
  - simplify_eq. exists []. rewrite app_nil_r. split; [constructor|]. split; [done|].
    split; [done|]. intros i Hi. assert (i = 0)%nat as -> by (simpl in Hi; lia). simpl.
    by rewrite app_nil_r, soa_len_fromRows.
  - rewrite appendCandidates_rows in H.
    destruct (candidatesRows reg (default [] (m !! k))) as [ws|] eqn:Ews; [|done]. simpl in H.
    destruct (layout reg m keys (fromRows (rows ++ ws))) as [[st bf]|] eqn:El; [|done].
    simplify_eq/=. destruct (IH _ _ _ El) as (groups & HF & -> & Hl & Hst).
    exists (ws :: groups). split; [by constructor|]. split; [by rewrite <- app_assoc|].
    split; [unfold zlen in *; simpl; lia|].
    intros [|i] Hi; simpl.
    + by rewrite app_nil_r, soa_len_fromRows.
    + rewrite Hst by lia. by rewrite app_assoc.
Qed.

Lemma concat_take_split {A} (gs : list (list A)) i g :
  gs !! i = Some g -> concat gs = concat (take i gs) ++ g ++ concat (drop (S i) gs).
Proof.
  intros H. rewrite <- (take_drop i gs) at 1. rewrite (drop_S gs g i H).
  by rewrite concat_app.
Qed.

Lemma concat_take_S {A} (gs : list (list A)) i g :
  gs !! i = Some g -> concat (take (S i) gs) = concat (take i gs) ++ g.
Proof.
  intros H. rewrite (take_S_r _ _ _ H), concat_app. simpl. by rewrite app_nil_r.
Qed.

(** What an index lookup returns: [r] is the range of exactly the rows of
    the catalog entries [idxs], or nothing when there is no such entry. *)
Definition range_of (reg : CampaignAuctionRegistry) (b : candidateBucketSoA)
    (idxs : list Z) (r : option (Z * Z)) : Prop :=
  match r with
  | None => idxs = []
  | Some (s, e) =>
      0 <= s <= e /\ slicesValid b e = true /\ candidatesRows reg idxs = Some (view b s e)
  end.

Lemma index_lookup reg pairs starts b key :
  layout reg (group pairs) (sorted_keys (group pairs)) resetBucketSoA = Some (starts, b) ->
  soa_len b < 4294967296 ->
  range_of reg b (members pairs key) (keyRange (sorted_keys (group pairs)) starts key).
Proof.
  intros HL Hlen. change resetBucketSoA with (fromRows []) in HL.
  destruct (layout_spec _ _ _ _ _ _ HL) as (groups & HF & -> & Hl & Hst). simpl in *.
  rewrite soa_len_fromRows in Hlen.
  destruct (keyRange (sorted_keys (group pairs)) starts key) as [[s e]|] eqn:Ek; simpl.
  - pose proof (keyRange_sound _ _ _ _ _ Ek) as Hin.
    apply list_elem_of_lookup in Hin as [i Hi].
    destruct (keyRange_hit _ _ _ _ (sorted_keys_sorted _) Hl Hi) as (s' & e' & Hs & He & Ek').
    simplify_eq. pose proof (lookup_lt_Some _ _ _ Hi) as Hlt.
    destruct (Forall2_lookup_l _ _ _ _ _ HF Hi) as (ws & Hws & Hg).
    rewrite Hst in Hs by lia. rewrite Hst in He by lia. simplify_eq.
    pose proof (concat_take_split groups i ws Hws) as Hsplit.
    rewrite (concat_take_S groups i ws Hws).
    rewrite Hsplit in Hlen. rewrite !zlen_app in *.
    pose proof (zlen_nonneg (concat (take i groups))). pose proof (zlen_nonneg ws).
    pose proof (zlen_nonneg (concat (drop (S i) groups))). nowrap.
    split; [lia|]. split; [rewrite slicesValid_fromRows, Hsplit, !zlen_app; lia|].
    rewrite view_fromRows by (rewrite ?Hsplit, ?zlen_app; lia). unfold group_rows in Hg.
    assert (default [] (group pairs !! key) = members pairs key) as Em
      by (rewrite group_lookup; by destruct (members pairs key)).
    rewrite Em in Hg. rewrite Hg, Hsplit. f_equal. unfold zlen.
    rewrite drop_app_length' by lia. symmetry. apply take_app_length'. lia.
  - destruct (members pairs key) as [|x l] eqn:Em; [done|exfalso].
    assert (key ∈ sorted_keys (group pairs)) as Hin
      by (apply sorted_keys_elem; rewrite group_lookup, Em; eauto).
    apply list_elem_of_lookup in Hin as [i Hi].
    destruct (keyRange_hit _ _ _ _ (sorted_keys_sorted _) Hl Hi) as (? & ? & _ & _ & Ek').
    congruence.
Qed.

Definition geo_at (reg : CampaignAuctionRegistry) (i : nat) : Z := default 0 (GeoHashes reg !! i).

(** The catalog entries of a geo, in catalog order. *)
Definition entries_where (reg : CampaignAuctionRegistry) (P : nat -> bool) : list Z :=
  map Z.of_nat (filter (fun i => P i = true) (seq 0 (Z.to_nat (Count reg)))).

Lemma members_geo reg g :
  members (geo_pairs reg) g = entries_where reg (fun i => geo_at reg i =? g).
Proof.
  unfold geo_pairs, entries_where, members. induction (seq 0 (Z.to_nat (Count reg))) as [|i l IH];
    [done|]. simpl. rewrite !filter_cons. simpl. fold (geo_at reg i).
  destruct (decide (geo_at reg i = g)).
  - rewrite decide_True by lia. simpl. by rewrite IH.
  - rewrite decide_False by lia. done.
Qed.

(** The geo index is exact.  After [buildGeoIndex], looking a geo up
    returns the contiguous bucket range whose rows are the rows of precisely
    the campaigns of that geo, in catalog order, all columns being long
    enough for the scan; a geo without campaigns is a miss.  The binary
    search over the sorted keys never reports a wrong bucket. *)
Theorem geo_index_exact reg reg' g :
  buildGeoIndex reg = Some reg' -> soa_len (GeoBucketSoA reg') < 4294967296 ->
  range_of reg (GeoBucketSoA reg') (entries_where reg (fun i => geo_at reg i =? g))
    (geoRange reg' g).
Proof.
  unfold buildGeoIndex, geoRange. intros H Hlen.
  destruct (Count reg =? 0) eqn:E.
  - simplify_eq. simpl. unfold entries_where. by replace (Count reg) with 0 by lia.
  - destruct (layout _ _ _ _) as [[starts b]|] eqn:El; [|done]. simplify_eq/=.
    rewrite <- members_geo. by apply index_lookup.
Qed.

(** Three campaigns in two geos; the second one has two creatives. *)
Definition demo_reg : CampaignAuctionRegistry :=
  mkRegistry 3 [101; 102; 103] [500; 700; 600] [0; 0; 500000] [10; 0; 20] [0; 9000; 0]
    [1; 1; 1] [3; 1; 3] [1; 6; 1] [840; 826; 840] [1; 2; 3] [0; 0; 1000000] [0; 1; 2]
    [4294967295; 0; 0] [0; 0; 0] [0; 0; 0] [0; 0; 0] [0; 0; 0] [0; 3; 0] [0; 77; 0]
    [] [] resetBucketSoA [] [] resetBucketSoA
    (mkCreatives [11; 12] [700; 650] [0; 0] [5; 6] [1; 2] [0; 30]) [0; 0; 2; 2].

Lemma geo_index_exact_witness :
  exists reg', buildGeoIndex demo_reg = Some reg' /\
    range_of demo_reg (GeoBucketSoA reg') (entries_where demo_reg (fun i => geo_at demo_reg i =? 840))
      (geoRange reg' 840) /\ geoRange reg' 840 = Some (2, 4).
Proof.
  destruct (buildGeoIndex demo_reg) as [reg'|] eqn:E; [|by vm_compute in E].
  exists reg'. split; [done|]. split.
  - apply (geo_index_exact demo_reg reg' 840 E). vm_compute in E. simplify_eq. reflexivity.
  - vm_compute in E. simplify_eq. reflexivity.
Defined.

(** The ranking score is computed in [int64] without an overflow check:
    at neutral rate and boost (10^6 each) a bid of 9 223 373 micro-units
    already wraps to a negative score, so a row with that bid loses to a row
    that bids one micro-unit, in any bucket order the sorter produces. *)
Theorem score_overflow_inverts_order :
  effectiveScoreWithBoost 9223372 CTRPPMUnit CTRPPMUnit = 9223372 /\
  effectiveScoreWithBoost 9223373 CTRPPMUnit CTRPPMUnit < 0 /\
  forall x y, w_Bid x = 9223373 -> w_Bid y = 1 ->
    w_CTRPPM x = CTRPPMUnit -> w_BoostPPM x = CTRPPMUnit ->
    w_CTRPPM y = CTRPPMUnit -> w_BoostPPM y = CTRPPMUnit -> row_less y x = true.
Proof.
  split; [reflexivity|]. split; [reflexivity|].
  intros x y Hx Hy Hcx Hbx Hcy Hby. unfold row_less, row_score.
  rewrite Hx, Hy, Hcx, Hbx, Hcy, Hby. reflexivity.
Qed.

End RtbCatalog.
