(* ===== verification/RtbFcap.v ===== *)
(** * Frequency-cap snapshot: an open-addressing hash table

    Models [internal/rtb/auction_freqcap.go].  Go iterates a map in an
    unspecified order, so the constructor takes the entries in some order
    and the theorems hold for every order.  The probe loops have no bound in
    Go; here they take a fuel argument and [None] is divergence, and the
    theorems show that the table size is always enough fuel. *)

From S2P Require Import Prelude.
Open Scope Z_scope.

Module RtbFcap.

Record FcapSnapshot := mkSnap { Keys : list Z; Values : list Z; Mask : Z }.

Definition emptySnapshot : FcapSnapshot := mkSnap [] [] 0.

(** [for size < n { size <<= 1 }] *)
Fixpoint grow_size (fuel : nat) (size n : Z) : Z :=
  match fuel with
  | O => size
  | S fuel' => if size <? n then grow_size fuel' (Z.shiftl size 1) n else size
  end.

Definition key_at (keys : list Z) (pos : Z) : Z := default 0 (keys !! Z.to_nat pos).

(** [for keys[pos] != 0 { pos = (pos + 1) & mask }] *)
Fixpoint probe_empty (fuel : nat) (keys : list Z) (mask pos : Z) : option Z :=
  match fuel with
  | O => None
  | S fuel' =>
      if key_at keys pos =? 0 then Some pos
      else probe_empty fuel' keys mask (Z.land (pos + 1) mask)
  end.

Definition snap_insert (s : FcapSnapshot) (kv : Z * Z) : option FcapSnapshot :=
  pos ← probe_empty (length (Keys s)) (Keys s) (Mask s) (Z.land (fst kv) (Mask s));
  Some (mkSnap (set_z (Keys s) pos (fst kv)) (set_z (Values s) pos (snd kv)) (Mask s)).

Fixpoint snap_insert_all (s : FcapSnapshot) (entries : list (Z * Z)) : option FcapSnapshot :=
  match entries with
  | [] => Some s
  | kv :: rest => s' ← snap_insert s kv; snap_insert_all s' rest
  end.

Definition table_size (n : nat) : Z := grow_size (2 * n) 1 (Z.of_nat n * 2).

Definition NewFcapSnapshot (entries : list (Z * Z)) : option FcapSnapshot :=
  match entries with
  | [] => Some emptySnapshot
  | _ =>
      let size := table_size (length entries) in
      snap_insert_all
        (mkSnap (replicate (Z.to_nat size) 0) (replicate (Z.to_nat size) 0) (size - 1)) entries
  end.

(** The 64-bit finaliser that spreads the key. *)
Definition FcapLookupKey (prefixHash userHash : Z) : Z :=
  let h := Z.lxor prefixHash userHash in
  let h := Z.lxor h (Z.shiftr h 33) in
  let h := h *u64 18397679294719823053 in
  let h := Z.lxor h (Z.shiftr h 33) in
  let h := h *u64 14181476777654086739 in
  Z.lxor h (Z.shiftr h 33).

Fixpoint probe_find (fuel : nat) (s : FcapSnapshot) (lookup pos : Z) : option (Z * bool) :=
  match fuel with
  | O => None
  | S fuel' =>
      let k := key_at (Keys s) pos in
      if k =? lookup then Some (key_at (Values s) pos, true)
      else if k =? 0 then Some (0, false)
      else probe_find fuel' s lookup (Z.land (pos + 1) (Mask s))
  end.

Definition find_key (s : FcapSnapshot) (lookup : Z) : option (Z * bool) :=
  probe_find (length (Keys s)) s lookup (Z.land lookup (Mask s)).

Definition FcapCount (s : FcapSnapshot) (prefixHash userHash : Z) : option (Z * bool) :=
  if (userHash =? 0) || (prefixHash =? 0) then Some (0, false)
  else match Keys s with
  | [] => Some (0, false)
  | _ => find_key s (FcapLookupKey prefixHash userHash)
  end.

Definition FreqCapExceeded (limit count : Z) : bool := (0 <? limit) && (limit <=? count).

(** ** Table invariant *)

Section Table.
Variable m : Z.
Hypothesis m_pos : 0 <= m.
Let size := 2 ^ m.

Lemma size_pos : 0 < size.
Proof. unfold size. apply Z.pow_pos_nonneg; lia. Qed.

Lemma land_mask x : Z.land x (size - 1) = x mod size.
Proof.
  unfold size. rewrite <- Z.land_ones by lia. f_equal.
  rewrite Z.ones_equiv. lia.
Qed.

(** [walk keys pos d]: the slots [pos, pos+1, ..., pos+d-1] are occupied. *)
Definition occupied (keys : list Z) (pos d : Z) : Prop :=
  forall j, 0 <= j < d -> key_at keys ((pos + j) mod size) <> 0.

Record stored (s : FcapSnapshot) (kv : Z * Z) (d : Z) : Prop := {
  st_range : 0 <= d < size;
  st_key : key_at (Keys s) ((fst kv + d) mod size) = fst kv;
  st_val : key_at (Values s) ((fst kv + d) mod size) = snd kv;
  st_path : occupied (Keys s) (fst kv) d
}.

Definition count_used (keys : list Z) : nat := length (filter (fun k => k <> 0) keys).

Record table (s : FcapSnapshot) (es : list (Z * Z)) : Prop := {
  tb_mask : Mask s = size - 1;
  tb_keys : length (Keys s) = Z.to_nat size;
  tb_vals : length (Values s) = Z.to_nat size;
  tb_used : count_used (Keys s) = length es;
  tb_stored : forall kv, kv ∈ es -> exists d, stored s kv d;
  tb_only : forall i k, Keys s !! i = Some k -> k <> 0 -> k ∈ map fst es
}.

Lemma count_used_insert keys i k :
  keys !! i = Some 0 -> k <> 0 -> count_used (<[i := k]> keys) = S (count_used keys).
Proof.
  unfold count_used. revert i. induction keys as [|x keys IH]; intros [|i] H Hk; simpl in *;
    try done; simplify_eq.
  - rewrite !filter_cons. by rewrite decide_True, decide_False by tauto.
  - rewrite !filter_cons. case_decide; simpl; rewrite (IH _ H Hk); done.
Qed.

Lemma empty_slot keys :
  (count_used keys < length keys)%nat -> exists i, keys !! i = Some 0.
Proof.
  unfold count_used. induction keys as [|x keys IH]; simpl; [lia|]. rewrite filter_cons.
  intros H. destruct (decide (x = 0)) as [->|Hx]; [by exists 0%nat|].
  rewrite decide_True in H by done. simpl in H. destruct IH as [i Hi]; [lia|]. by exists (S i).
Qed.

Lemma key_at_set keys pos k q :
  0 <= pos < zlen keys -> 0 <= q ->
  key_at (set_z keys pos k) q = if decide (pos = q) then k else key_at keys q.
Proof.
  intros Hp Hq. unfold key_at, set_z. case_decide as H.
  - subst. rewrite list_lookup_insert_eq by (unfold zlen in *; lia). done.
  - rewrite list_lookup_insert_ne by lia. done.
Qed.

Lemma mod_range x : 0 <= x mod size < size.
Proof. apply Z.mod_pos_bound. apply size_pos. Qed.

Lemma step_mod pos d : ((pos mod size) + 1 + d) mod size = (pos + (d + 1)) mod size.
Proof.
  rewrite <- Z.add_assoc, Z.add_mod_idemp_l by (pose proof size_pos; lia). f_equal. lia.
Qed.

(** From any start a full turn meets an empty slot. *)
Lemma distance_to_empty keys pos :
  length keys = Z.to_nat size -> (count_used keys < length keys)%nat ->
  exists d, 0 <= d < size /\ key_at keys ((pos + d) mod size) = 0.
Proof.
  intros Hl Hu. destruct (empty_slot keys Hu) as [i Hi].
  pose proof (lookup_lt_Some _ _ _ Hi). pose proof size_pos.
  exists ((Z.of_nat i - pos) mod size). split; [apply mod_range|].
  rewrite Z.add_mod_idemp_r by lia. replace (pos + (Z.of_nat i - pos)) with (Z.of_nat i) by lia.
  rewrite Z.mod_small by lia. unfold key_at. by rewrite Nat2Z.id, Hi.
Qed.

(** The first empty slot at distance [d] is what the insertion probe finds. *)
Lemma probe_empty_spec keys d fuel pos :
  0 <= d -> (Z.to_nat d < fuel)%nat -> 0 <= pos < size ->
  key_at keys ((pos + d) mod size) = 0 -> occupied keys pos d ->
  probe_empty fuel keys (size - 1) pos = Some ((pos + d) mod size).
Proof.
  intros Hd Hf. revert d Hd Hf pos.
  induction fuel as [|fuel IH]; intros d Hd Hf pos Hp He Ho; [lia|]. simpl.
  destruct (decide (d = 0)) as [->|Hd0].
  - rewrite Z.add_0_r, Z.mod_small in He by lia. rewrite He, Z.eqb_refl.
    rewrite Z.add_0_r, Z.mod_small by lia. done.
  - assert (key_at keys pos <> 0) as Hk.
    { specialize (Ho 0). rewrite Z.add_0_r, Z.mod_small in Ho by lia. apply Ho. lia. }
    replace (key_at keys pos =? 0) with false by lia.
    rewrite land_mask. rewrite (IH (d - 1)); try lia.
    + rewrite Z.add_mod_idemp_l by (pose proof size_pos; lia). do 2 f_equal. lia.
    + apply mod_range.
    + rewrite Z.add_mod_idemp_l by (pose proof size_pos; lia).
      replace (pos + 1 + (d - 1)) with (pos + d) by lia. done.
    + intros j Hj. rewrite Z.add_mod_idemp_l by (pose proof size_pos; lia).
      replace (pos + 1 + j) with (pos + (j + 1)) by lia. apply Ho. lia.
Qed.

(** The least distance at which a decidable property of slots holds. *)
Lemma least_below (P : Z -> bool) pos n :
  (exists e, 0 <= e < Z.of_nat n /\ P ((pos + e) mod size) = true /\
    forall j, 0 <= j < e -> P ((pos + j) mod size) = false) \/
  (forall j, 0 <= j < Z.of_nat n -> P ((pos + j) mod size) = false).
Proof.
  induction n as [|n [(e & He & HP & Hb)|Hn]].
  - right. lia.
  - left. exists e. split; [lia|auto].
  - destruct (P ((pos + Z.of_nat n) mod size)) eqn:E.
    + left. exists (Z.of_nat n). split; [lia|auto].
    + right. intros j Hj. destruct (decide (j = Z.of_nat n)) as [->|]; [done|apply Hn; lia].
Qed.

Lemma least_distance (P : Z -> bool) pos d :
  0 <= d < size -> P ((pos + d) mod size) = true ->
  exists e, 0 <= e <= d /\ P ((pos + e) mod size) = true /\
    forall j, 0 <= j < e -> P ((pos + j) mod size) = false.
Proof.
  intros Hd HP. destruct (least_below P pos (S (Z.to_nat d))) as [(e & He & H1 & H2)|H].
  - exists e. split; [lia|auto].
  - specialize (H d). rewrite HP in H. discriminate H. lia.
Qed.

Lemma least_empty keys pos :
  length keys = Z.to_nat size -> (count_used keys < length keys)%nat ->
  exists e, 0 <= e < size /\ key_at keys ((pos + e) mod size) = 0 /\ occupied keys pos e.
Proof.
  intros Hl Hu. destruct (distance_to_empty keys pos Hl Hu) as (d & Hd & Hz).
  destruct (least_distance (fun q => key_at keys q =? 0) pos d Hd) as (e & He & H1 & H2);
    [lia|]. exists e. split; [lia|]. split; [lia|]. intros j Hj. specialize (H2 j Hj). lia.
Qed.

Definition unique_keys (keys : list Z) : Prop :=
  forall i j k, keys !! i = Some k -> keys !! j = Some k -> k <> 0 -> i = j.

Definition full_table (s : FcapSnapshot) (es : list (Z * Z)) : Prop :=
  table s es /\ unique_keys (Keys s).

Lemma key_at_lookup keys pos k : key_at keys pos = k -> k <> 0 -> keys !! Z.to_nat pos = Some k.
Proof. unfold key_at. destruct (keys !! Z.to_nat pos); simpl; congruence. Qed.

Lemma slot_lookup keys pos :
  length keys = Z.to_nat size -> key_at keys (pos mod size) = 0 ->
  keys !! Z.to_nat (pos mod size) = Some 0.
Proof.
  intros Hl H. pose proof (mod_range pos).
  destruct (lookup_lt_is_Some_2 keys (Z.to_nat (pos mod size))) as [x Hx]; [lia|].
  unfold key_at in H. rewrite Hx in *. simpl in H. by subst.
Qed.

Lemma occupied_mod keys pos d : occupied keys (pos mod size) d <-> occupied keys pos d.
Proof.
  pose proof size_pos. unfold occupied.
  split; intros H1 j Hj; specialize (H1 j Hj); rewrite Z.add_mod_idemp_l in *; auto; lia.
Qed.

Lemma stored_insert s kv d pos k v :
  length (Keys s) = Z.to_nat size -> length (Values s) = Z.to_nat size ->
  0 <= pos < size -> key_at (Keys s) pos = 0 -> fst kv <> 0 -> k <> 0 ->
  stored s kv d ->
  stored (mkSnap (set_z (Keys s) pos k) (set_z (Values s) pos v) (Mask s)) kv d.
Proof.
  intros Hl Hv Hp He Hk0 Hk [Hd Hkey Hval Hpath].
  pose proof (mod_range (fst kv + d)).
  assert (pos <> (fst kv + d) mod size) as Hne by (intros E; rewrite <- E in Hkey; congruence).
  split; simpl; [done|..].
  - rewrite key_at_set by (unfold zlen; lia). by rewrite decide_False.
  - rewrite key_at_set by (unfold zlen; lia). by rewrite decide_False.
  - intros j Hj. pose proof (mod_range (fst kv + j)).
    rewrite key_at_set by (unfold zlen; lia). case_decide; [done | by apply Hpath].
Qed.

Lemma snap_insert_spec s es k v :
  full_table s es -> Forall (fun kv => fst kv <> 0) es ->
  k <> 0 -> k ∉ map fst es -> Z.of_nat (length es) < size ->
  exists s', snap_insert s (k, v) = Some s' /\ full_table s' (es ++ [(k, v)]).
Proof.
  intros [[Hm Hl Hv Hu Hs Ho] Hun] Hnz Hk Hn Hlt. pose proof size_pos as Hsz.
  destruct (least_empty (Keys s) k Hl) as (e & He & Hz & Hocc); [lia|].
  set (pos := (k + e) mod size) in *. pose proof (mod_range (k + e)) as Hpos. fold pos in Hpos.
  assert (snap_insert s (k, v) =
    Some (mkSnap (set_z (Keys s) pos k) (set_z (Values s) pos v) (Mask s))) as ->.
  { unfold snap_insert. simpl. rewrite Hm, land_mask.
    rewrite (probe_empty_spec (Keys s) e); simpl; try lia.
    - rewrite Z.add_mod_idemp_l by lia. fold pos. done.
    - apply mod_range.
    - rewrite Z.add_mod_idemp_l by lia. done.
    - by apply occupied_mod. }
  eexists. split; [done|]. pose proof (slot_lookup (Keys s) (k + e) Hl Hz) as Hslot.
  fold pos in Hslot. rewrite Forall_forall in Hnz.
  assert (forall (l : list Z) i x, length (set_z l i x) = length l) as Hset
    by (intros; apply length_insert).
  split; [split; simpl|]; simpl; rewrite ?Hset; auto.
  - unfold set_z. rewrite count_used_insert, length_app by done. simpl. lia.
  - intros kv [Hin|Hin%list_elem_of_singleton]%elem_of_app.
    + destruct (Hs kv Hin) as [d Hd]. exists d.
      apply (stored_insert s kv d pos k v); auto.
    + subst kv. exists e. split; simpl; [lia| | |].
      * fold pos. rewrite key_at_set by (unfold zlen; lia). by rewrite decide_True.
      * fold pos. rewrite key_at_set by (unfold zlen; lia). by rewrite decide_True.
      * intros j Hj. pose proof (mod_range (k + j)).
        rewrite key_at_set by (unfold zlen; lia). case_decide; [done | by apply Hocc].
  - unfold set_z. intros i x Hi Hx. rewrite map_app, elem_of_app.
    destruct (decide (i = Z.to_nat pos)) as [->|Hne].
    + rewrite list_lookup_insert_eq in Hi by lia. simplify_eq. right. left.
    + rewrite list_lookup_insert_ne in Hi by done. left. eauto.
  - assert (forall j, Keys s !! j = Some k -> False) as Hnew
      by (intros j Hj; apply Hn; eauto).
    unfold set_z. intros i j x Hi Hj Hx.
    destruct (decide (i = Z.to_nat pos)) as [->|Hi'], (decide (j = Z.to_nat pos)) as [->|Hj'];
      rewrite ?list_lookup_insert_eq, ?list_lookup_insert_ne in * by (done || lia);
      simplify_eq; eauto; exfalso; eauto.
Qed.

Lemma probe_find_stop s lookup e fuel pos :
  Mask s = size - 1 -> 0 <= e -> (Z.to_nat e < fuel)%nat -> 0 <= pos < size ->
  (forall j, 0 <= j < e -> key_at (Keys s) ((pos + j) mod size) <> lookup) ->
  occupied (Keys s) pos e ->
  (key_at (Keys s) ((pos + e) mod size) = lookup \/ key_at (Keys s) ((pos + e) mod size) = 0) ->
  probe_find fuel s lookup pos =
    if key_at (Keys s) ((pos + e) mod size) =? lookup
    then Some (key_at (Values s) ((pos + e) mod size), true) else Some (0, false).
Proof.
  intros Hm He Hf. revert e He Hf pos. pose proof size_pos as Hsz.
  induction fuel as [|fuel IH]; intros e He Hf pos Hp Hne Ho Hend; [lia|]. simpl.
  destruct (decide (e = 0)) as [->|He0].
  - rewrite Z.add_0_r, Z.mod_small in * by lia. destruct Hend as [->| ->].
    + by rewrite Z.eqb_refl.
    + rewrite Z.eqb_refl. by case_if.
  - pose proof (Hne 0) as H0. pose proof (Ho 0) as H1.
    rewrite Z.add_0_r, Z.mod_small in H0, H1 by lia.
    replace (key_at (Keys s) pos =? lookup) with false by (specialize (H0 ltac:(lia)); lia).
    replace (key_at (Keys s) pos =? 0) with false by (specialize (H1 ltac:(lia)); lia).
    rewrite Hm, land_mask.
    assert (forall j, ((pos + 1) mod size + j) mod size = (pos + (j + 1)) mod size) as Hj.
    { intros j. rewrite Z.add_mod_idemp_l by lia. f_equal. lia. }
    rewrite (IH (e - 1)); rewrite ?Hj; replace (e - 1 + 1) with e by lia; try done; try lia.
    + apply mod_range.
    + intros j Hj'. rewrite Hj. apply Hne. lia.
    + intros j Hj'. rewrite Hj. apply Ho. lia.
Qed.

(** A stored key is found with its value. *)
Lemma find_key_hit s es k v :
  full_table s es -> (k, v) ∈ es -> k <> 0 -> find_key s k = Some (v, true).
Proof.
  intros [Ht Hun] Hin Hk. pose proof size_pos as Hsz. destruct Ht as [Hm Hl Hv _ Hs _].
  destruct (Hs _ Hin) as (d & [Hd Hkey Hval Hpath]). simpl in *.
  unfold find_key. rewrite Hm, land_mask.
  assert (forall j, (k mod size + j) mod size = (k + j) mod size) as Hj
    by (intros; apply Z.add_mod_idemp_l; lia).
  rewrite (probe_find_stop s k d); rewrite ?Hj; try done; try lia.
  - by rewrite Hkey, Z.eqb_refl, Hval.
  - apply mod_range.
  - intros j Hlt E. rewrite Hj in E. apply key_at_lookup in E, Hkey; [|done|done].
    pose proof (Hun _ _ _ E Hkey Hk). pose proof (mod_range (k + j)).
    pose proof (mod_range (k + d)).
    assert ((k + j) mod size = (k + d) mod size) as Em by lia.
    assert ((d - j) mod size = 0) as Ez.
    { replace (d - j) with ((k + d) - (k + j)) by lia.
      rewrite Zminus_mod, Em, Z.sub_diag. apply Z.mod_0_l. lia. }
    rewrite Z.mod_small in Ez by lia. lia.
  - by apply occupied_mod.
Qed.

(** A key the table does not hold is reported missing. *)
Lemma find_key_miss s es k :
  full_table s es -> k ∉ map fst es -> k <> 0 -> Z.of_nat (length es) < size ->
  find_key s k = Some (0, false).
Proof.
  intros [[Hm Hl Hv Hu _ Ho] _] Hn Hk Hlt. pose proof size_pos as Hsz.
  destruct (least_empty (Keys s) k Hl) as (e & He & Hz & Hocc); [lia|].
  unfold find_key. rewrite Hm, land_mask.
  assert (forall j, (k mod size + j) mod size = (k + j) mod size) as Hj
    by (intros; apply Z.add_mod_idemp_l; lia).
  rewrite (probe_find_stop s k e); rewrite ?Hj; try done; try lia.
  - rewrite Hz. by replace (0 =? k) with false by lia.
  - apply mod_range.
  - intros j Hlt' E. apply key_at_lookup in E; [|done]. apply Hn. by apply (Ho _ _ E).
  - by apply occupied_mod.
Qed.

Lemma snap_insert_all_spec s done_es es :
  full_table s done_es -> NoDup (map fst (done_es ++ es)) ->
  Forall (fun kv => fst kv <> 0) (done_es ++ es) ->
  Z.of_nat (length (done_es ++ es)) < size ->
  exists s', snap_insert_all s es = Some s' /\ full_table s' (done_es ++ es).
Proof.
  revert s done_es. induction es as [|[k v] es IH]; intros s ds Ht Hnd Hnz Hlt; simpl.
  - rewrite app_nil_r. eauto.
  - pose proof Hnz as [Hnz1 [Hk _]%Forall_cons]%Forall_app. simpl in Hk.
    rewrite length_app in Hlt. simpl in Hlt.
    destruct (snap_insert_spec s ds k v) as (s' & -> & Ht'); try done; try lia.
    + rewrite map_app in Hnd. apply NoDup_app in Hnd as (_ & Hd & _).
      intros Hin. apply (Hd k Hin). left.
    + simpl. replace (ds ++ (k, v) :: es) with ((ds ++ [(k, v)]) ++ es) in *
        by (by rewrite <- app_assoc).
      apply IH; try done. rewrite !length_app. simpl. lia.
Qed.

Lemma key_at_replicate n q : key_at (replicate n 0) q = 0.
Proof.
  unfold key_at. destruct (replicate n 0 !! Z.to_nat q) eqn:E; [|done].
  apply lookup_replicate in E as [-> _]. done.
Qed.

Lemma full_table_empty :
  full_table (mkSnap (replicate (Z.to_nat size) 0) (replicate (Z.to_nat size) 0) (size - 1)) [].
Proof.
  assert (forall n i k, replicate n 0 !! i = Some k -> k = 0) as Hr
    by (intros n i k [-> _]%lookup_replicate; done).
  split; [split|]; simpl; rewrite ?length_replicate; try done.
  - unfold count_used. generalize (Z.to_nat size). induction n; [done|]. simpl.
    rewrite filter_cons. by rewrite decide_False by tauto.
  - intros kv H. by apply elem_of_nil in H.
  - intros i k H. by apply Hr in H.
  - intros i j k H. by apply Hr in H.
Qed.

End Table.

(** ** The table size *)

Lemma grow_size_spec fuel size n :
  (exists m, 0 <= m /\ size = 2 ^ m) -> n <= size + Z.of_nat fuel ->
  (exists m, 0 <= m /\ grow_size fuel size n = 2 ^ m) /\ n <= grow_size fuel size n.
Proof.
  revert size. induction fuel as [|fuel IH]; intros size Hp Hn; simpl; [split; [done|lia]|].
  destruct (size <? n) eqn:E; [|split; [done|lia]].
  destruct Hp as (m & Hm & ->). pose proof (Z.pow_pos_nonneg 2 m).
  apply IH.
  - exists (m + 1). rewrite Z.shiftl_mul_pow2, Z.pow_add_r by lia. split; lia.
  - rewrite Z.shiftl_mul_pow2 by lia. lia.
Qed.

Lemma table_size_spec n :
  (exists m, 0 <= m /\ table_size n = 2 ^ m) /\ 2 * Z.of_nat n <= table_size n.
Proof.
  unfold table_size. destruct (grow_size_spec (2 * n) 1 (Z.of_nat n * 2)) as [H1 H2].
  - by exists 0.
  - lia.
  - split; [done|lia].
Qed.

(** The iteration order of the Go map does not matter: [entries] is any
    listing of the map, and the snapshot answers as the map does. *)
Definition map_answer (counts : gmap Z Z) (k : Z) : Z * bool :=
  match counts !! k with Some v => (v, true) | None => (0, false) end.

(** [NewFcapSnapshot] always terminates and the probe of [FcapCount]
    answers exactly like the Go map it was built from, for every iteration
    order, as long as no key is the empty-slot marker 0: a key in the map is
    found with its counter, any other non-zero key is reported missing. *)
Theorem snapshot_implements_map entries counts prefixHash userHash :
  NoDup (map fst entries) ->
  counts = list_to_map entries ->
  counts !! 0 = None ->
  prefixHash <> 0 -> userHash <> 0 ->
  FcapLookupKey prefixHash userHash <> 0 ->
  exists s, NewFcapSnapshot entries = Some s /\
    FcapCount s prefixHash userHash = Some (map_answer counts (FcapLookupKey prefixHash userHash)).
Proof.
  intros Hnd -> H0 Hp Hu. set (k := FcapLookupKey prefixHash userHash). intros Hk.
  destruct entries as [|e es].
  { exists emptySnapshot. split; [done|]. unfold FcapCount, map_answer. simpl.
    rewrite lookup_empty. by case_if. }
  destruct (table_size_spec (length (e :: es))) as ((m & Hm & Esz) & Hge).
  assert (Forall (fun kv => fst kv <> 0) (e :: es)) as Hnz.
  { apply Forall_forall. intros [k' v'] Hin Ez. simpl in Ez. subst.
    apply (not_elem_of_list_to_map_2 (M := gmap Z)) in H0. apply H0.
    by apply list_elem_of_fmap_2 with (f := fst) in Hin. }
  destruct (snap_insert_all_spec m Hm _ [] (e :: es) (full_table_empty m)) as (s & Es & Ht);
    [done..| simpl in *; lia |].
  exists s. unfold NewFcapSnapshot. rewrite Esz. split; [done|].
  unfold FcapCount. replace ((userHash =? 0) || (prefixHash =? 0)) with false by lia.
  assert (find_key s k = Some (map_answer (list_to_map (e :: es)) k)) as Hf.
  { unfold map_answer. destruct (list_to_map (e :: es) !! k) as [v|] eqn:E.
    - apply (find_key_hit m Hm s (e :: es)); [done| |done].
      by apply elem_of_list_to_map_2 in E.
    - apply (find_key_miss m Hm s (e :: es)); [done| |done|simpl in *; lia].
      by apply (not_elem_of_list_to_map_2 (M := gmap Z)) in E. }
  destruct Ht as [[_ Hl _ _ _ _] _]. pose proof (Z.pow_pos_nonneg 2 m).
  destruct (Keys s); [simpl in Hl; lia | done].
Qed.

Lemma snapshot_implements_map_witness :
  exists s, NewFcapSnapshot [(FcapLookupKey 7 9, 3); (12, 5); (20, 1)] = Some s /\
    FcapCount s 7 9 =
      Some (map_answer (list_to_map [(FcapLookupKey 7 9, 3); (12, 5); (20, 1)])
              (FcapLookupKey 7 9)).
Proof.
  apply (snapshot_implements_map [(FcapLookupKey 7 9, 3); (12, 5); (20, 1)]
    (list_to_map [(FcapLookupKey 7 9, 3); (12, 5); (20, 1)]) 7 9).
  - apply (bool_decide_unpack _). vm_compute. exact I.
  - reflexivity.
  - by vm_compute.
  - lia.
  - lia.
  - by vm_compute.
Defined.

End RtbFcap.
