(* ===== verification/RtbAuction.v ===== *)
(** * The auction: filters, ranking, clearing and the debit

    Models [internal/rtb/auction.go], [auction_rank.go], [auction_clearing.go],
    [auction_daypart.go] and [no_bid.go] on top of the budget store, the
    catalog and the frequency-cap snapshot.  [monotime.Nano] is a clock
    argument read at the loop position; metrics and the asynchronous budget
    mirror are not modelled.  [None] is a panic or a divergence. *)

From S2P Require Import Prelude RtbBudget RtbCatalog RtbFcap.
Import RtbBudget RtbCatalog RtbFcap.
Open Scope Z_scope.

Module RtbAuction.

(** ** Data *)

Inductive NoBidReason :=
  | NoBidNone | NoBidInvalidRequest | NoBidEmptyShard | NoBidCorruptCatalog
  | NoBidNoCandidates | NoBidSpendFailed | NoBidPacingClosed | NoBidDailyCapExceeded
  | NoBidTimeout | NoBidDealMismatch | NoBidScanLimit | NoBidPrebidIVT
  | NoBidSchainInvalid | NoBidBreakerOpen | NoBidDaypartClosed | NoBidFreqCapExceeded.

#[export] Instance NoBidReason_eq_dec : EqDecision NoBidReason.
Proof. solve_decision. Defined.

Definition OK (n : NoBidReason) : bool := bool_decide (n = NoBidNone).

Definition NoBidReason_String (n : NoBidReason) : string :=
  match n with
  | NoBidNone => "ok" | NoBidInvalidRequest => "invalid_request"
  | NoBidEmptyShard => "empty_shard" | NoBidCorruptCatalog => "corrupt_catalog"
  | NoBidNoCandidates => "no_candidates" | NoBidSpendFailed => "spend_failed"
  | NoBidPacingClosed => "pacing_closed" | NoBidDailyCapExceeded => "daily_cap"
  | NoBidTimeout => "timeout" | NoBidDealMismatch => "deal_mismatch"
  | NoBidScanLimit => "scan_limit" | NoBidPrebidIVT => "prebid_ivt"
  | NoBidSchainInvalid => "schain_invalid" | NoBidBreakerOpen => "breaker_open"
  | NoBidDaypartClosed => "daypart_closed" | NoBidFreqCapExceeded => "freq_cap"
  end.

Record BidRequest := mkRequest {
  q_CategoryMask : Z; q_MinBid : Z; q_GeoHash : Z; q_DeviceType : Z; q_MediaTypeMask : Z;
  q_MaxDurationSec : Z; q_DeadlineMono : Z; q_DealBlock : NoBidReason; q_NowUnix : Z;
  q_FcapUserHash : Z; q_BlockedCatMask : Z
}.

Record AuctionResult := mkResult { r_CampaignID : Z; r_CreativeID : Z; r_Price : Z }.
Definition noResult : AuctionResult := mkResult 0 0 0.

Inductive ClearingMode := ClearingSecondPrice | ClearingFirstPrice.

Definition geoShardMask : Z := 63.
Definition rankDeadlineCheckMask : Z := 127.
Definition rankMaxScanCandidates : Z := 500.

Record Registry := mkReg {
  catalog : list CampaignAuctionRegistry;   (* the 64 geo shards *)
  store : BudgetStore;
  clearingMode : ClearingMode;
  targetingIndexEnabled : bool;
  fcap : option FcapSnapshot
}.

Definition LoadShard (r : Registry) (idx : Z) : option CampaignAuctionRegistry :=
  catalog r !! Z.to_nat (Z.land idx geoShardMask).

(** ** Dayparting *)

Fixpoint DaypartMaskFromHours (hours : list Z) : Z :=
  match hours with
  | [] => 0
  | h :: rest =>
      let mask := DaypartMaskFromHours rest in
      if (0 <=? h) && (h <? 24) then Z.lor mask (u32 (Z.shiftl 1 h)) else mask
  end.

Definition localHourFromOffset (nowUnix tzOffsetSec : Z) : Z :=
  let local := if tzOffsetSec =? 0 then nowUnix else nowUnix +64 tzOffsetSec in
  let sec := Z.rem local 86400 in
  let sec := if sec <? 0 then sec +64 86400 else sec in
  Z.quot sec 3600.

Definition scheduleOpen (startUnix endUnix daypartMask tzOffsetSec nowUnix : Z) : bool :=
  if (0 <? startUnix) && (nowUnix <? startUnix) then false
  else if (0 <? endUnix) && (endUnix <=? nowUnix) then false
  else if daypartMask =? 0 then true
  else
    let hour := localHourFromOffset nowUnix tzOffsetSec in
    if (hour <? 0) || (23 <? hour) then true
    else negb (Z.land daypartMask (u32 (Z.shiftl 1 hour)) =? 0).

(** ** Clearing *)

Definition clearingPrice (mode : ClearingMode) (floor winnerBid secondBid : Z) : Z :=
  match mode with
  | ClearingFirstPrice => winnerBid
  | ClearingSecondPrice =>
      if negb (secondBid =? -1) && (floor <? secondBid) then secondBid else floor
  end.

Definition applyReserve (price reserve winnerBid : Z) : Z :=
  let price := if price <? reserve then reserve else price in
  if winnerBid <? price then winnerBid else price.

(** ** Catalog guards *)

Definition catalogSlicesValid (reg : CampaignAuctionRegistry) : bool :=
  let count := Count reg in
  if forallb (fun c => count <=? zlen c)
       [CampaignIDs reg; Bids reg; CTRPPM reg; Reserves reg; DailyBudgets reg; PacingOpens reg;
        DeviceMasks reg; CategoryMasks reg; GeoHashes reg; Weights reg; RtbCatalog.BoostPPM reg;
        BudgetIndices reg; CustomerBudgetIndices reg]
  then
    let geoEnd := soa_len (GeoBucketSoA reg) in
    if (0 <? geoEnd) && negb (slicesValid (GeoBucketSoA reg) geoEnd) then false
    else
      let targetEnd := soa_len (TargetBucketSoA reg) in
      if (0 <? targetEnd) && negb (slicesValid (TargetBucketSoA reg) targetEnd) then false
      else true
  else false.

Definition candidateRange (r : Registry) (reg : CampaignAuctionRegistry) (req : BidRequest)
    : option (candidateBucketSoA * Z * Z) :=
  let geo := '(s, e) ← geoRange reg (q_GeoHash req); Some (GeoBucketSoA reg, s, e) in
  if targetingIndexEnabled r then
    match targetingRange reg (q_GeoHash req) (q_DeviceType req) (q_CategoryMask req) with
    | Some (s, e) => Some (TargetBucketSoA reg, s, e)
    | None => geo
    end
  else geo.

(** ** The scan loop

    The loop's local variables; [scanned] counts the rows that passed the
    calendar and frequency filters. *)

Record acc := mkAcc {
  winnerIdx : Z; winnerCreative : Z; winnerBid : Z; winnerWeight : Z; maxScore : Z;
  secondBid : Z; scanned : Z;
  pacingBlocked : bool; dailyBlocked : bool; daypartBlocked : bool; freqBlocked : bool
}.

Definition acc0 : acc := mkAcc (-1) 0 (-1) 0 (-1) (-1) 0 false false false false.

Definition set_scanned (a : acc) (n : Z) : acc :=
  mkAcc (winnerIdx a) (winnerCreative a) (winnerBid a) (winnerWeight a) (maxScore a)
    (secondBid a) n (pacingBlocked a) (dailyBlocked a) (daypartBlocked a) (freqBlocked a).
Definition set_pacing (a : acc) : acc :=
  mkAcc (winnerIdx a) (winnerCreative a) (winnerBid a) (winnerWeight a) (maxScore a)
    (secondBid a) (scanned a) true (dailyBlocked a) (daypartBlocked a) (freqBlocked a).
Definition set_daily (a : acc) : acc :=
  mkAcc (winnerIdx a) (winnerCreative a) (winnerBid a) (winnerWeight a) (maxScore a)
    (secondBid a) (scanned a) (pacingBlocked a) true (daypartBlocked a) (freqBlocked a).
Definition set_daypart (a : acc) : acc :=
  mkAcc (winnerIdx a) (winnerCreative a) (winnerBid a) (winnerWeight a) (maxScore a)
    (secondBid a) (scanned a) (pacingBlocked a) (dailyBlocked a) true (freqBlocked a).
Definition set_freq (a : acc) : acc :=
  mkAcc (winnerIdx a) (winnerCreative a) (winnerBid a) (winnerWeight a) (maxScore a)
    (secondBid a) (scanned a) (pacingBlocked a) (dailyBlocked a) (daypartBlocked a) true.
Definition set_second (a : acc) (b : Z) : acc :=
  mkAcc (winnerIdx a) (winnerCreative a) (winnerBid a) (winnerWeight a) (maxScore a)
    b (scanned a) (pacingBlocked a) (dailyBlocked a) (daypartBlocked a) (freqBlocked a).
Definition set_winner (a : acc) (w : bucket_row) (score : Z) : acc :=
  mkAcc (w_CatalogIdx w) (w_CreativeID w) (w_Bid w) (w_Weight w) score
    (secondBid a) (scanned a) (pacingBlocked a) (dailyBlocked a) (daypartBlocked a)
    (freqBlocked a).

(** What one iteration does: go on, leave the loop, or return at once. *)
Inductive outcome :=
  | Next (a : acc)
  | Break (a : acc)
  | Return (a : acc) (n : NoBidReason).

(** The inline daypart test of the loop: [true] when the row is closed. *)
Definition daypart_closed (w : bucket_row) (nowUnix : Z) : bool :=
  let mask := w_DaypartMask w in
  if mask =? 0 then false
  else
    let local := nowUnix +64 w_TZOffsetSec w in
    let sec := Z.rem local 86400 in
    let sec := if sec <? 0 then sec +64 86400 else sec in
    let hour := Z.quot sec 3600 in
    (0 <=? hour) && (hour <? 24) && (Z.land mask (u32 (Z.shiftl 1 hour)) =? 0).

Definition calendar_closed (w : bucket_row) (nowUnix : Z) : bool :=
  ((0 <? w_ScheduleStart w) && (nowUnix <? w_ScheduleStart w)) ||
  ((0 <? w_ScheduleEnd w) && (w_ScheduleEnd w <=? nowUnix)) ||
  daypart_closed w nowUnix.

(** The frequency filter; [None] if the probe of the snapshot diverges. *)
Definition freq_exceeded (fc : option FcapSnapshot) (userHash : Z) (w : bucket_row)
    : option bool :=
  match fc with
  | Some s =>
      if (0 <? w_FreqLimit w) && negb (userHash =? 0) && negb (w_FcapPrefixHash w =? 0) then
        '(cnt, ok) ← FcapCount s (w_FcapPrefixHash w) userHash;
        Some (ok && FreqCapExceeded (w_FreqLimit w) cnt)
      else Some false
  | None => Some false
  end.

(** The request-side filters after pacing: device, category, blocked
    categories, media type, duration, reserve and floor. *)
Definition targeting_mismatch (req : BidRequest) (w : bucket_row) : bool :=
  (Z.land (w_DeviceMask w) (q_DeviceType req) =? 0) ||
  (Z.land (w_CategoryMask w) (q_CategoryMask req) =? 0) ||
  (negb (q_BlockedCatMask req =? 0) &&
     negb (Z.land (w_CategoryMask w) (q_BlockedCatMask req) =? 0)) ||
  (negb (q_MediaTypeMask req =? 0) &&
     (Z.land (w_MediaType w) (q_MediaTypeMask req) =? 0)) ||
  ((0 <? q_MaxDurationSec req) && (0 <? w_DurationSec w) &&
     (q_MaxDurationSec req <? w_DurationSec w)) ||
  (w_Bid w <? w_Reserve w) || (w_Bid w <? q_MinBid req).

(** The switch on the score of an eligible row. *)
Definition rank_row (a : acc) (w : bucket_row) : outcome :=
  let score := row_score w in
  let bid := w_Bid w in
  if (0 <=? winnerIdx a) && (0 <=? secondBid a) && (score <? maxScore a) then Break a
  else if maxScore a <? score then
    let a1 := if 0 <=? winnerIdx a then set_second a (winnerBid a) else a in
    Next (set_winner a1 w score)
  else if (score =? maxScore a) && (0 <=? winnerIdx a) then
    let a1 := if winnerWeight a <? w_Weight w
              then set_winner (set_second a (winnerBid a)) w (maxScore a) else a in
    Next (if secondBid a1 <? bid then set_second a1 bid else a1)
  else if (0 <=? winnerIdx a) && (secondBid a <? bid) then Next (set_second a bid)
  else Next a.

Definition scan_row (r : Registry) (reg : CampaignAuctionRegistry) (req : BidRequest)
    (now : Z) (a : acc) (w : bucket_row) : option outcome :=
  if (0 <? q_DeadlineMono req) && (Z.land (scanned a) rankDeadlineCheckMask =? 0)
       && (q_DeadlineMono req <? now)
  then Some (Return a NoBidTimeout)
  else if calendar_closed w (q_NowUnix req) then Some (Next (set_daypart a))
  else
    fq ← freq_exceeded (fcap r) (q_FcapUserHash req) w;
    if (fq : bool) then Some (Next (set_freq a))
    else
      let a := set_scanned a (scanned a + 1) in
      if rankMaxScanCandidates <? scanned a then Some (Return a NoBidScanLimit)
      else if (w_CatalogIdx w <? 0) || (Count reg <=? w_CatalogIdx w)
      then Some (Return a NoBidCorruptCatalog)
      else if w_PacingOpen w =? PacingClosed then Some (Next (set_pacing a))
      else if targeting_mismatch req w then Some (Next a)
      else if negb (budgetSlotExists (store r) (w_BudgetIdx w))
      then Some (Return a NoBidCorruptCatalog)
      else if LoadBudget (store r) (w_BudgetIdx w) <? w_Bid w then Some (Next a)
      else if (0 <? w_DailyBudget w) &&
              (loadDailyHeadroom (store r) (w_BudgetIdx w) (w_DailyBudget w) <? w_Bid w)
      then Some (Next (set_daily a))
      else if negb (w_CustomerIdx w =? invalidCustomerBudgetIdx) &&
              (LoadCustomerBudget (store r) (w_CustomerIdx w) <? w_Bid w)
      then Some (Next a)
      else Some (rank_row a w).

Fixpoint scan (r : Registry) (reg : CampaignAuctionRegistry) (req : BidRequest)
    (clock : nat -> Z) (pos : nat) (a : acc) (rows : list bucket_row)
    : option (acc * NoBidReason) :=
  match rows with
  | [] => Some (a, NoBidNone)
  | w :: rest =>
      o ← scan_row r reg req (clock pos) a w;
      match o with
      | Next a' => scan r reg req clock (S pos) a' rest
      | Break a' => Some (a', NoBidNone)
      | Return a' n => Some (a', n)
      end
  end.

Definition rank_result (a : acc) : NoBidReason :=
  if winnerIdx a =? -1 then
    if daypartBlocked a then NoBidDaypartClosed
    else if freqBlocked a then NoBidFreqCapExceeded
    else if pacingBlocked a then NoBidPacingClosed
    else if dailyBlocked a then NoBidDailyCapExceeded
    else NoBidNoCandidates
  else NoBidNone.

(** [(winnerIdx, winnerCreative, secondBid, noBid)] of [rankCandidates]. *)
Definition rankCandidates (r : Registry) (reg : CampaignAuctionRegistry) (req : BidRequest)
    (clock : nat -> Z) (soa : candidateBucketSoA) (bucketStart bucketEnd : Z)
    : option (Z * Z * Z * NoBidReason) :=
  if negb (slicesValid soa bucketEnd) then Some (-1, 0, -1, NoBidCorruptCatalog)
  else if (bucketStart <? 0) || (bucketEnd <? bucketStart) || (soa_len soa <? bucketEnd)
  then Some (-1, 0, -1, NoBidCorruptCatalog)
  else
    '(a, n) ← scan r reg req clock 0 acc0 (view soa bucketStart bucketEnd);
    match n with
    | NoBidNone =>
        match rank_result a with
        | NoBidNone => Some (winnerIdx a, winnerCreative a, secondBid a, NoBidNone)
        | n' => Some (-1, 0, -1, n')
        end
    | n' => Some (-1, 0, -1, n')
    end.

(** ** The auction *)

Definition runAuction (r : Registry) (day : Z) (clock : nat -> Z) (req : BidRequest)
    (spend : bool) : option (BudgetStore * AuctionResult * NoBidReason) :=
  let refuse n := Some (store r, noResult, n) in
  if q_MinBid req <? 0 then refuse NoBidInvalidRequest
  else match LoadShard r (q_GeoHash req) with
  | None => refuse NoBidEmptyShard
  | Some reg =>
      if Count reg =? 0 then refuse NoBidEmptyShard
      else if negb (catalogSlicesValid reg) then refuse NoBidCorruptCatalog
      else if negb (OK (q_DealBlock req)) then refuse (q_DealBlock req)
      else match candidateRange r reg req with
      | None => refuse NoBidNoCandidates
      | Some (bucket, bucketStart, bucketEnd) =>
          '(widx, wcreative, second, noBid) ←
            rankCandidates r reg req clock bucket bucketStart bucketEnd;
          if negb (OK noBid) then refuse noBid
          else
            wbid ← at_z (Bids reg) widx;
            wreserve ← at_z (Reserves reg) widx;
            let price := clearingPrice (clearingMode r) (q_MinBid req) wbid second in
            let price := applyReserve price wreserve wbid in
            if (zlen (BudgetIndices reg) <=? widx) || (zlen (CampaignIDs reg) <=? widx)
            then refuse NoBidCorruptCatalog
            else
              id ← at_z (CampaignIDs reg) widx;
              if spend then
                budgetIdx ← at_z (BudgetIndices reg) widx;
                customerIdx ← at_z (CustomerBudgetIndices reg) widx;
                dailyLimit ← at_z (DailyBudgets reg) widx;
                let '(ok, st') :=
                  CheckAndSpendAll day (store r) budgetIdx customerIdx price dailyLimit in
                if negb ok then Some (st', noResult, NoBidSpendFailed)
                else Some (st', mkResult id wcreative price, NoBidNone)
              else Some (store r, mkResult id wcreative price, NoBidNone)
      end
  end.

Definition RunAuction (r : Registry) (day : Z) (clock : nat -> Z) (req : BidRequest) :=
  runAuction r day clock req true.
Definition RunAuctionEval (r : Registry) (day : Z) (clock : nat -> Z) (req : BidRequest) :=
  runAuction r day clock req false.

(** ** Reference ranking

    [eligible] is the conjunction of all filters; the specification of the
    scan over a presorted bucket is stated on the list of eligible rows. *)

Definition solvent (st : BudgetStore) (w : bucket_row) : bool :=
  (w_Bid w <=? LoadBudget st (w_BudgetIdx w)) &&
  ((w_DailyBudget w <=? 0) ||
     (w_Bid w <=? loadDailyHeadroom st (w_BudgetIdx w) (w_DailyBudget w))) &&
  ((w_CustomerIdx w =? invalidCustomerBudgetIdx) ||
     (w_Bid w <=? LoadCustomerBudget st (w_CustomerIdx w))).

Definition eligible (r : Registry) (req : BidRequest) (w : bucket_row) : bool :=
  negb (calendar_closed w (q_NowUnix req)) &&
  negb (default false (freq_exceeded (fcap r) (q_FcapUserHash req) w)) &&
  negb (w_PacingOpen w =? PacingClosed) &&
  negb (targeting_mismatch req w) && solvent (store r) w.

Definition eligible_rows (r : Registry) (req : BidRequest) (rows : list bucket_row) :=
  filter (fun w => eligible r req w = true) rows.

(** The price setter among the eligible rows after the winner: the best bid
    of the rows tied with the winner's score, or else the next row's bid. *)
Definition second_price (w : bucket_row) (rest : list bucket_row) : Z :=
  match filter (fun x => row_score x = row_score w) rest with
  | [] => match rest with [] => -1 | x :: _ => w_Bid x end
  | ties => foldr Z.max (-1) (map w_Bid ties)
  end.

Definition row_ge (x y : bucket_row) : Prop := row_less y x = false.

Record row_sane (r : Registry) (reg : CampaignAuctionRegistry) (req : BidRequest)
    (w : bucket_row) : Prop := {
  sane_idx : 0 <= w_CatalogIdx w < Count reg;
  sane_slot : budgetSlotExists (store r) (w_BudgetIdx w) = true;
  sane_bid : 0 <= w_Bid w;
  sane_score : 0 <= row_score w;
  sane_freq : is_Some (freq_exceeded (fcap r) (q_FcapUserHash req) w)
}.

(** The part of the accumulator the ranking reads. *)
Definition core (a : acc) := (winnerIdx a, winnerCreative a, winnerBid a, winnerWeight a,
  maxScore a, secondBid a).

Lemma core_scanned a n : core (set_scanned a n) = core a.
Proof. done. Qed.

(** One row: a filtered row leaves the ranking alone, an eligible row is ranked. *)
Lemma scan_row_spec r reg req now a w :
  row_sane r reg req w -> q_DeadlineMono req <= 0 -> scanned a < rankMaxScanCandidates ->
  (eligible r req w = true /\
     scan_row r reg req now a w = Some (rank_row (set_scanned a (scanned a + 1)) w)) \/
  (eligible r req w = false /\
     exists a', scan_row r reg req now a w = Some (Next a') /\ core a' = core a /\
       scanned a' <= scanned a + 1).
Proof.
  intros [Hidx Hslot _ _ [fq Hfq]] Hd Hs. unfold scan_row, eligible.
  replace (0 <? q_DeadlineMono req) with false by lia. cbn [andb]. rewrite Hfq. simpl.
  destruct (calendar_closed w (q_NowUnix req)).
  { right. split; [done|]. eexists. split; [done|]. simpl. split; [done|lia]. }
  destruct fq; simpl.
  { right. split; [done|]. eexists. split; [done|]. simpl. split; [done|lia]. }
  replace (rankMaxScanCandidates <? scanned a + 1) with false by lia.
  replace ((w_CatalogIdx w <? 0) || (Count reg <=? w_CatalogIdx w)) with false by lia.
  destruct (w_PacingOpen w =? PacingClosed).
  { right. split; [done|]. eexists. split; [done|]. simpl. split; [done|lia]. }
  destruct (targeting_mismatch req w).
  { right. split; [done|]. eexists. split; [done|]. simpl. split; [done|lia]. }
  rewrite Hslot. simpl. unfold solvent.
  destruct (LoadBudget (store r) (w_BudgetIdx w) <? w_Bid w) eqn:E1.
  { right. split; [simpl; lia|]. eexists. split; [done|]. simpl. split; [done|lia]. }
  destruct ((0 <? w_DailyBudget w) && _) eqn:E2.
  { right. split; [simpl; lia|]. eexists. split; [done|]. simpl. split; [done|lia]. }
  destruct (negb (w_CustomerIdx w =? invalidCustomerBudgetIdx) && _) eqn:E3.
  { right. split; [simpl; lia|]. eexists. split; [done|]. simpl. split; [done|lia]. }
  left. split; [simpl; lia|done].
Qed.

(** [rank_rows]: the ranking alone, over rows that passed every filter. *)
Fixpoint rank_rows (a : acc) (rows : list bucket_row) : acc :=
  match rows with
  | [] => a
  | w :: rest => match rank_row a w with
                 | Next a' => rank_rows a' rest
                 | Break a' | Return a' _ => a'
                 end
  end.

Lemma rank_row_core a b w :
  core a = core b ->
  match rank_row a w, rank_row b w with
  | Next a', Next b' => core a' = core b' /\ scanned a' = scanned a
  | Break a', Break b' => core a' = core b'
  | _, _ => False
  end.
Proof.
  destruct a, b. unfold core, rank_row. simpl. intros H. simplify_eq.
  destruct ((0 <=? winnerIdx1) && (0 <=? secondBid1) && (row_score w <? maxScore1)); [done|].
  destruct (maxScore1 <? row_score w); [by destruct (0 <=? winnerIdx1)|].
  destruct ((row_score w =? maxScore1) && (0 <=? winnerIdx1)).
  - destruct (winnerWeight1 <? w_Weight w); simpl; by case_if.
  - by destruct ((0 <=? winnerIdx1) && (secondBid1 <? w_Bid w)).
Qed.

Lemma scan_eligible r reg req clock pos a b rows :
  Forall (row_sane r reg req) rows -> q_DeadlineMono req <= 0 ->
  scanned a + zlen rows <= rankMaxScanCandidates -> core a = core b ->
  exists a', scan r reg req clock pos a rows = Some (a', NoBidNone) /\
    core a' = core (rank_rows b (eligible_rows r req rows)).
Proof.
  intros Hsane Hd. revert pos a b. unfold eligible_rows.
  induction Hsane as [|w rows Hw Hrows IH]; intros pos a b Hs Hc; simpl; [eauto|].
  unfold zlen in Hs. simpl in Hs.
  destruct (scan_row_spec r reg req (clock pos) a w Hw Hd) as [[He ->]|(He & a' & -> & Hc' & Hs')].
  - lia.
  - rewrite filter_cons, decide_True by done. simpl.
    pose proof (rank_row_core (set_scanned a (scanned a + 1)) b w Hc) as Hr.
    destruct (rank_row _ w) as [a'|a'|], (rank_row b w) as [b'|b'|]; try done; [|by eauto].
    destruct Hr as [Hc' Hs']. simpl in Hs'. apply IH; [unfold zlen; lia | done].
  - rewrite filter_cons, decide_False by congruence. simpl.
    apply IH; [unfold zlen; lia | congruence].
Qed.

(** *** Ranking a presorted list *)

Lemma row_ge_score x y : row_ge x y -> row_score y <= row_score x.
Proof. unfold row_ge, row_less. repeat case_if; lia. Qed.

Lemma row_ge_weight x y :
  row_ge x y -> row_score x = row_score y -> w_Weight y <= w_Weight x.
Proof. unfold row_ge, row_less. intros H E. rewrite E, Z.eqb_refl in H. simpl in H.
  repeat step_if H; lia. Qed.

Lemma foldr_max_shift s b l : foldr Z.max (Z.max s b) l = Z.max b (foldr Z.max s l).
Proof. induction l; simpl; lia. Qed.

(** In a presorted list nothing after a row below the best score can tie. *)
Lemma no_ties_below m x rows :
  StronglySorted row_ge (x :: rows) -> row_score x < m ->
  filter (fun y => row_score y = m) (x :: rows) = [].
Proof.
  intros [_ Hx]%StronglySorted_inv Hm. apply filter_none.
  apply Forall_cons. split; [lia|]. eapply Forall_impl; [exact Hx|].
  intros y Hy%row_ge_score. simpl. lia.
Qed.

(** With a winner and a price setter chosen, only ties can move the price. *)
Lemma rank_rows_ties a rows :
  0 <= winnerIdx a -> 0 <= secondBid a ->
  Forall (fun x => row_score x <= maxScore a /\
    (row_score x = maxScore a -> w_Weight x <= winnerWeight a)) rows ->
  StronglySorted row_ge rows ->
  core (rank_rows a rows) =
    core (set_second a (foldr Z.max (secondBid a)
       (map w_Bid (filter (fun x => row_score x = maxScore a) rows)))).
Proof.
  intros Hi. revert a Hi. induction rows as [|x rows IH]; intros a Hi Hsec HF Hsort;
    [by destruct a|].
  pose proof HF as [[HS HW] HF']%Forall_cons.
  simpl rank_rows. unfold rank_row. replace (0 <=? winnerIdx a) with true by lia.
  replace (0 <=? secondBid a) with true by lia. cbn [andb].
  replace (maxScore a <? row_score x) with false by lia.
  destruct (row_score x <? maxScore a) eqn:E.
  - rewrite (no_ties_below (maxScore a)) by (done || lia). by destruct a.
  - replace (row_score x =? maxScore a) with true by lia. cbn [andb].
    replace (winnerWeight a <? w_Weight x) with false by (specialize (HW ltac:(lia)); lia).
    rewrite filter_cons, decide_True by lia. cbn [map foldr].
    apply StronglySorted_inv in Hsort as [Hsort _].
    destruct (secondBid a <? w_Bid x) eqn:E2; rewrite IH; simpl; auto; try lia; f_equal; f_equal.
    + rewrite <- foldr_max_shift. f_equal. lia.
    + rewrite <- foldr_max_shift. f_equal. lia.
Qed.

Lemma rank_rows_sorted w rest :
  StronglySorted row_ge (w :: rest) -> 0 <= w_CatalogIdx w -> 0 <= row_score w ->
  Forall (fun x => 0 <= w_Bid x) rest ->
  core (rank_rows acc0 (w :: rest)) =
    (w_CatalogIdx w, w_CreativeID w, w_Bid w, w_Weight w, row_score w, second_price w rest).
Proof.
  intros Hsort Hi Hsc Hbid. pose proof Hsort as [Hrest Hw]%StronglySorted_inv.
  cbn [rank_rows]. unfold rank_row at 1. cbn [acc0 winnerIdx secondBid maxScore].
  replace (-1 <? row_score w) with true by lia. cbn.
  destruct rest as [|x rest]; [done|].
  pose proof Hbid as [Hbx _]%Forall_cons. pose proof Hw as [Hx _]%Forall_cons.
  pose proof (row_ge_score _ _ Hx) as Hsx. pose proof (row_ge_weight _ _ Hx) as Hwx.
  cbn [rank_rows]. unfold rank_row at 1.
  cbn [set_winner acc0 winnerIdx secondBid maxScore winnerWeight].
  replace (0 <=? w_CatalogIdx w) with true by lia. cbn [andb].
  change (0 <=? -1) with false. cbn [andb].
  replace (row_score w <? row_score x) with false by lia.
  assert (Forall (fun y => row_score y <= row_score w /\
    (row_score y = row_score w -> w_Weight y <= w_Weight w)) rest) as HF.
  { apply Forall_cons in Hw as [_ Hw]. eapply Forall_impl; [exact Hw|].
    intros y Hy. split; [by apply row_ge_score|].
    intros E. apply row_ge_weight; [done|congruence]. }
  apply StronglySorted_inv in Hrest as [Hrest Hxr].
  unfold second_price.
  destruct (decide (row_score x = row_score w)) as [E|E].
  - rewrite filter_cons, decide_True by done.
    replace (row_score x =? row_score w) with true by lia. cbn [andb].
    replace (w_Weight w <? w_Weight x) with false by (specialize (Hwx ltac:(congruence)); lia).
    cbn [secondBid set_winner acc0]. replace (-1 <? w_Bid x) with true by lia.
    rewrite rank_rows_ties by (simpl; auto; lia). unfold core. cbn -[Z.max]. f_equal.
    rewrite <- foldr_max_shift. f_equal. lia.
  - rewrite (no_ties_below (row_score w)); [|by constructor|lia].
    replace (row_score x =? row_score w) with false by lia. cbn [andb].
    replace (-1 <? w_Bid x) with true by lia.
    rewrite rank_rows_ties by (simpl; auto; lia). unfold core. simpl. f_equal.
    rewrite filter_none; [done|]. eapply Forall_impl; [exact Hxr|].
    intros y Hy%row_ge_score. simpl. lia.
Qed.

Lemma core_inj a i c b wt m s : core a = (i, c, b, wt, m, s) ->
  winnerIdx a = i /\ winnerCreative a = c /\ winnerBid a = b /\ secondBid a = s.
Proof. destruct a. unfold core. simpl. intros. by simplify_eq. Qed.

(** A presorted bucket segment, as [sortBucketSoA] leaves it, that the scan
    limit does not cut short. *)
Record presorted (r : Registry) (reg : CampaignAuctionRegistry) (req : BidRequest)
    (soa : candidateBucketSoA) (s e : Z) : Prop := {
  ps_range : 0 <= s <= e;
  ps_slices : slicesValid soa e = true;
  ps_sorted : StronglySorted row_ge (view soa s e);
  ps_sane : Forall (row_sane r reg req) (view soa s e);
  ps_limit : zlen (view soa s e) <= rankMaxScanCandidates
}.

Lemma slicesValid_len soa e : slicesValid soa e = true -> e <= soa_len soa.
Proof. unfold slicesValid. intros H. step_if H; [done|lia]. Qed.

(** On a presorted bucket the single early-exit pass of
    [rankCandidates] computes the reference auction: the winner is the first
    eligible row (best score, then heaviest weight), its price setter is the
    highest bid among the eligible rows tied with its score, or the next
    eligible row's bid when there is no tie, and a bucket without eligible
    rows is a typed refusal. *)
Theorem rank_presorted r reg req clock soa s e :
  presorted r reg req soa s e -> q_DeadlineMono req <= 0 ->
  match eligible_rows r req (view soa s e) with
  | [] => exists n, n <> NoBidNone /\
      rankCandidates r reg req clock soa s e = Some (-1, 0, -1, n)
  | w :: rest =>
      rankCandidates r reg req clock soa s e =
        Some (w_CatalogIdx w, w_CreativeID w, second_price w rest, NoBidNone)
  end.
Proof.
  intros [Hr Hsl Hsort Hsane Hlim] Hd. unfold rankCandidates. rewrite Hsl. cbn [negb].
  pose proof (slicesValid_len _ _ Hsl).
  replace ((s <? 0) || (e <? s) || (soa_len soa <? e)) with false by lia.
  destruct (scan_eligible r reg req clock 0 acc0 acc0 (view soa s e)) as (a & -> & Ha);
    [done|done|simpl; lia|done|]. simpl.
  pose proof (StronglySorted_filter row_ge (fun w => eligible r req w = true) _ Hsort) as Hsf.
  fold (eligible_rows r req (view soa s e)) in Hsf.
  assert (Forall (row_sane r reg req) (eligible_rows r req (view soa s e))) as Hsf'.
  { rewrite Forall_forall in *. intros x [_ Hx]%list_elem_of_filter. auto. }
  destruct (eligible_rows r req (view soa s e)) as [|w rest].
  - apply core_inj in Ha as (Ei & _). unfold rank_result. rewrite Ei. simpl.
    destruct (daypartBlocked a), (freqBlocked a), (pacingBlocked a), (dailyBlocked a);
      eexists; (split; [|done]); done.
  - pose proof Hsf' as [Hw Hrest]%Forall_cons. destruct Hw as [Hi _ _ Hs _].
    rewrite rank_rows_sorted in Ha; try done; try lia.
    2:{ eapply Forall_impl; [exact Hrest|]. by intros x []. }
    apply core_inj in Ha as (Ei & Ec & _ & Es). unfold rank_result. rewrite Ei, Ec, Es.
    by replace (w_CatalogIdx w =? -1) with false by lia.
Qed.

(** ** The auction as a whole *)

(** Whatever the order of the rows, the winner the scan holds is an eligible
    row of the bucket. *)
Definition held (r : Registry) (req : BidRequest) (rows : list bucket_row) (a : acc) : Prop :=
  winnerIdx a = -1 \/
  exists w, w ∈ rows /\ eligible r req w = true /\
    winnerIdx a = w_CatalogIdx w /\ winnerCreative a = w_CreativeID w.

Lemma rank_row_held r req rows a w :
  held r req rows a -> w ∈ rows -> eligible r req w = true ->
  match rank_row a w with Next a' | Break a' | Return a' _ => held r req rows a' end.
Proof.
  intros H Hw He. unfold rank_row.
  assert (forall b sc, held r req rows (set_winner b w sc)) as Hset
    by (intros; right; by exists w).
  assert (forall b x, held r req rows b -> held r req rows (set_second b x)) as Hsec
    by (intros b x Hb; exact Hb).
  destruct ((0 <=? winnerIdx a) && (0 <=? secondBid a) && (row_score w <? maxScore a)); [done|].
  destruct (maxScore a <? row_score w); [auto|].
  destruct ((row_score w =? maxScore a) && (0 <=? winnerIdx a)).
  - destruct (winnerWeight a <? w_Weight w); case_if; auto.
  - case_if; auto.
Qed.

Ltac returns := eexists; split; [|eexists; reflexivity]; discriminate.

Lemma scan_row_cases r reg req now a w o :
  scan_row r reg req now a w = Some o ->
  (exists n, n <> NoBidNone /\ exists a', o = Return a' n) \/
  (exists a', o = Next a' /\ core a' = core a) \/
  (eligible r req w = true /\ o = rank_row (set_scanned a (scanned a + 1)) w).
Proof.
  unfold scan_row, eligible, solvent. intros H.
  destruct (_ && (q_DeadlineMono req <? now)); [simplify_eq; left; returns|].
  destruct (calendar_closed w (q_NowUnix req)); [simplify_eq; right; left; eauto|].
  destruct (freq_exceeded (fcap r) (q_FcapUserHash req) w) as [fq|]; [|done].
  simpl in H. destruct fq; [simplify_eq; right; left; eauto|].
  destruct (_ <? scanned a + 1); [simplify_eq; left; returns|].
  destruct (_ || _); [simplify_eq; left; returns|].
  destruct (w_PacingOpen w =? PacingClosed); [simplify_eq; right; left; eauto|].
  destruct (targeting_mismatch req w); [simplify_eq; right; left; eauto|].
  destruct (negb _); [simplify_eq; left; returns|].
  destruct (LoadBudget (store r) (w_BudgetIdx w) <? w_Bid w) eqn:E1;
    [simplify_eq; right; left; eauto|].
  destruct ((0 <? w_DailyBudget w) && _) eqn:E2; [simplify_eq; right; left; eauto|].
  destruct (negb (w_CustomerIdx w =? invalidCustomerBudgetIdx) && _) eqn:E3;
    [simplify_eq; right; left; eauto|].
  simplify_eq. right. right. split; [simpl; lia|done].
Qed.

Lemma held_core r req rows a b : core a = core b -> held r req rows b -> held r req rows a.
Proof. destruct a, b. unfold core, held. simpl. intros. by simplify_eq. Qed.

Lemma scan_held r reg req clock pos a all rows a' n :
  rows ⊆ all -> held r req all a ->
  scan r reg req clock pos a rows = Some (a', n) -> n <> NoBidNone \/ held r req all a'.
Proof.
  revert pos a. induction rows as [|w rows IH]; intros pos a Hsub Ha H; simpl in H.
  { simplify_eq. auto. }
  destruct (scan_row r reg req (clock pos) a w) as [o|] eqn:E; [|done]. simpl in H.
  assert (w ∈ all) as Hw by (apply Hsub; left).
  assert (rows ⊆ all) as Hsub' by (intros x Hx; apply Hsub; by right).
  apply scan_row_cases in E as [(n' & Hn & a2 & ->)|[(a2 & -> & Hc)|[He ->]]].
  - simplify_eq. auto.
  - apply (IH (S pos) a2); auto. by apply (held_core _ _ _ _ a).
  - pose proof (rank_row_held r req all (set_scanned a (scanned a + 1)) w Ha Hw He) as Hr.
    destruct (rank_row _ w) as [a2|a2|a2 n2]; [by apply (IH (S pos) a2)|..];
      simplify_eq; auto.
Qed.

Lemma rank_sound r reg req clock soa s e i c b :
  rankCandidates r reg req clock soa s e = Some (i, c, b, NoBidNone) ->
  exists w, w ∈ view soa s e /\ eligible r req w = true /\
    i = w_CatalogIdx w /\ c = w_CreativeID w.
Proof.
  unfold rankCandidates. intros H. do 2 (step_if H; [done|]).
  destruct (scan _ _ _ _ _ _ _) as [[a n]|] eqn:Es; [|done]. simpl in H.
  pose proof (scan_held r reg req clock 0 acc0 (view soa s e) (view soa s e) a n) as Hh.
  destruct n; try done. destruct (rank_result a) eqn:Er; try done. simplify_eq.
  unfold rank_result in Er. destruct (winnerIdx a =? -1) eqn:Ei.
  - by destruct (daypartBlocked a), (freqBlocked a), (pacingBlocked a), (dailyBlocked a).
  - destruct Hh as [?|[?|Hh]]; try done; try (by left). lia.
Qed.

Lemma price_bounds mode floor second bid reserve :
  0 <= floor -> 0 <= bid ->
  let price := applyReserve (clearingPrice mode floor bid second) reserve bid in
  0 <= price <= bid /\
  (reserve <= bid -> reserve <= price) /\ (floor <= bid -> floor <= price).
Proof.
  intros Hf Hb. unfold applyReserve, clearingPrice.
  assert (exists p, (match mode with ClearingSecondPrice =>
    if negb (second =? -1) && (floor <? second) then second else floor
    | ClearingFirstPrice => bid end) = p /\ (floor <= p \/ p = bid)) as (p & -> & Hp).
  { eexists. split; [done|]. destruct mode; [case_if|]; lia. }
  cbv zeta. destruct (p <? reserve) eqn:E1; case_if; repeat split; intros; lia.
Qed.

(** The values Go's types already guarantee, plus non-negative bids. *)
Record catalog_typed (reg : CampaignAuctionRegistry) : Prop := {
  ct_bids : Forall (Z.le 0) (Bids reg);
  ct_budget : Forall (Z.le 0) (BudgetIndices reg);
  ct_customer : Forall (Z.le 0) (CustomerBudgetIndices reg);
  ct_daily : Forall in_i64 (DailyBudgets reg)
}.

(** What a won auction guarantees about the winner [w] of catalog entry
    [w_CatalogIdx w] with bid [bid], reserve [reserve] and budget legs
    [c], [k], [limit]. *)
Record won (r : Registry) (reg : CampaignAuctionRegistry) (day : Z) (req : BidRequest)
    (spend : bool) (st' : BudgetStore) (res : AuctionResult)
    (w : bucket_row) (bid reserve c k limit : Z) : Prop := {
  won_eligible : eligible r req w = true;
  won_id : at_z (CampaignIDs reg) (w_CatalogIdx w) = Some (r_CampaignID res);
  won_creative : r_CreativeID res = w_CreativeID w;
  won_bid : at_z (Bids reg) (w_CatalogIdx w) = Some bid;
  won_reserve : at_z (Reserves reg) (w_CatalogIdx w) = Some reserve;
  won_legs : spend = true -> at_z (BudgetIndices reg) (w_CatalogIdx w) = Some c /\
    at_z (CustomerBudgetIndices reg) (w_CatalogIdx w) = Some k /\
    at_z (DailyBudgets reg) (w_CatalogIdx w) = Some limit;
  won_price : 0 <= r_Price res <= bid;
  won_over_reserve : reserve <= bid -> reserve <= r_Price res;
  won_over_floor : q_MinBid req <= bid -> q_MinBid req <= r_Price res;
  won_store : st' = if spend then debited (rolled day limit (store r)) c k (r_Price res) limit
                    else store r;
  won_covered : spend = true ->
    spend_allowed (rolled day limit (store r)) c k (r_Price res) limit = true
}.

Lemma Forall_at_z (P : Z -> Prop) l i x : Forall P l -> at_z l i = Some x -> P x.
Proof. intros H Hi%at_z_lookup. rewrite Forall_lookup in H. eauto. Qed.

(** C38: the outcome of [runAuction], whatever the order of the bucket, the
    clock and the targeting switch.  On a win the result names an eligible
    row of the bucket the request selects; the price never exceeds the
    campaign's bid and is at least the reserve and the request's floor
    whenever that bid covers them; with [spend] the campaign, customer and
    daily counters all cover the price and are debited by exactly the price
    returned, and without [spend] the store is untouched.  A refusal returns
    the empty result and changes no counter (a refused debit may still roll
    the daily column to the current day). *)
Theorem auction_outcome r day clock req spend st' res n :
  wf (store r) ->
  (forall reg, LoadShard r (q_GeoHash req) = Some reg -> catalog_typed reg) ->
  runAuction r day clock req spend = Some (st', res, n) ->
  if OK n then
    exists reg soa s e w bid reserve c k limit,
      LoadShard r (q_GeoHash req) = Some reg /\ candidateRange r reg req = Some (soa, s, e) /\
      w ∈ view soa s e /\ won r reg day req spend st' res w bid reserve c k limit
  else res = noResult /\ (st' = store r \/
    exists limit, n = NoBidSpendFailed /\ spend = true /\ st' = rolled day limit (store r)).
Proof.
  intros W HT H. unfold runAuction in H.
  assert (forall m, m <> NoBidNone -> OK m = false) as Hok
    by (intros; apply bool_decide_eq_false; done).
  destruct (q_MinBid req <? 0) eqn:Em; [simplify_eq; rewrite Hok by done; auto|].
  destruct (LoadShard r (q_GeoHash req)) as [reg|] eqn:El;
    [|simplify_eq; rewrite Hok by done; auto].
  specialize (HT _ eq_refl). destruct HT as [Tb Tc Tk Td].
  destruct (Count reg =? 0); [simplify_eq; rewrite Hok by done; auto|].
  destruct (negb (catalogSlicesValid reg)); [simplify_eq; rewrite Hok by done; auto|].
  destruct (OK (q_DealBlock req)) eqn:Ed; cbn [negb] in H; [|simplify_eq; rewrite Ed; auto].
  destruct (candidateRange r reg req) as [[[soa s] e]|] eqn:Ec;
    [|simplify_eq; rewrite Hok by done; auto].
  destruct (rankCandidates _ _ _ _ _ _ _) as [[[[i cr] sec] nb]|] eqn:Er; [|done]. simpl in H.
  destruct (OK nb) eqn:Eo; cbn [negb] in H; [|simplify_eq; rewrite Eo; auto].
  apply bool_decide_eq_true in Eo as ->.
  apply rank_sound in Er as (w & Hw & He & -> & ->).
  destruct (at_z (Bids reg) _) as [bid|] eqn:Eb; [|done]. simpl in H.
  destruct (at_z (Reserves reg) _) as [reserve|] eqn:Ere; [|done]. simpl in H.
  pose proof (price_bounds (clearingMode r) (q_MinBid req) sec bid reserve
    ltac:(lia) (Forall_at_z _ _ _ _ Tb Eb)) as (Hp & Hres & Hfl).
  set (price := applyReserve _ _ _) in *.
  destruct (_ || _) in H; [simplify_eq; rewrite Hok by done; auto|].
  destruct (at_z (CampaignIDs reg) _) as [id|] eqn:Eid; [|done]. simpl in H.
  destruct spend.
  - destruct (at_z (BudgetIndices reg) _) as [c|] eqn:Ebi; [|done]. simpl in H.
    destruct (at_z (CustomerBudgetIndices reg) _) as [k|] eqn:Ek; [|done]. simpl in H.
    destruct (at_z (DailyBudgets reg) _) as [limit|] eqn:Eli; [|done]. simpl in H.
    pose proof (Forall_at_z _ _ _ _ Tc Ebi). pose proof (Forall_at_z _ _ _ _ Tk Ek).
    pose proof (Forall_at_z _ _ _ _ Td Eli). cbn beta in *.
    rewrite spend_all_cases in H by (done || lia).
    cbv zeta in H. destruct (spend_allowed _ c k price limit) eqn:Ea; cbn [negb] in H;
      simplify_eq.
    + exists reg, soa, s, e, w, bid, reserve, c, k, limit. do 3 (split; [done|]). by split.
    + rewrite Hok by done. split; [done|]. right. eauto.
  - simplify_eq. exists reg, soa, s, e, w, bid, reserve, 0, 0, 0.
    do 3 (split; [done|]). by split.
Qed.

(** ** Concrete auctions *)

(** [demo_reg] indexed, its geo bucket 826 in the order [sortBucketSoA] leaves. *)
Definition demo_catalog : CampaignAuctionRegistry := default demo_reg (buildGeoIndex demo_reg).

Definition demo_store : BudgetStore :=
  foldl exec NewBudgetStore
    [OpCampaign 101 5000; OpCampaign 102 5000; OpCampaign 103 5000; OpCustomer 9 4000].

Definition demo_registry : Registry :=
  mkReg (replicate 64 demo_catalog) demo_store ClearingSecondPrice false None.

Definition demo_request : BidRequest := mkRequest 6 100 826 1 0 0 0 NoBidNone 1000 0 0.

Lemma demo_store_wf : wf demo_store.
Proof.
  unfold demo_store. apply (exec_all_wf _ 0);
    [apply new_store_wf | by split | reflexivity | repeat constructor; cbn; go_lia].
Qed.

Definition demo_rows : list bucket_row :=
  Eval vm_compute in view (GeoBucketSoA demo_catalog) 0 2.

Lemma demo_view : view (GeoBucketSoA demo_catalog) 0 2 = demo_rows.
Proof. by vm_compute. Qed.

Lemma demo_presorted :
  presorted demo_registry demo_catalog demo_request (GeoBucketSoA demo_catalog) 0 2.
Proof.
  split; [lia | by vm_compute | | | by vm_compute]; rewrite demo_view; unfold demo_rows.
  - repeat constructor.
  - repeat apply Forall_cons_2; [..|apply Forall_nil_2];
      (split; [vm_compute; split; (reflexivity || discriminate) | by vm_compute | by vm_compute | by vm_compute | ]);
      by eexists.
Qed.

Lemma demo_eligible :
  eligible_rows demo_registry demo_request (view (GeoBucketSoA demo_catalog) 0 2) = demo_rows.
Proof. by vm_compute. Qed.

Lemma rank_presorted_witness :
  rankCandidates demo_registry demo_catalog demo_request (fun _ => 0)
    (GeoBucketSoA demo_catalog) 0 2 = Some (1, 11, 650, NoBidNone).
Proof.
  pose proof (rank_presorted demo_registry demo_catalog demo_request (fun _ => 0)
    (GeoBucketSoA demo_catalog) 0 2 demo_presorted ltac:(vm_compute; discriminate)) as H.
  rewrite demo_eligible in H. exact H.
Defined.

Lemma demo_typed : catalog_typed demo_catalog.
Proof. split; apply (bool_decide_unpack _); vm_compute; exact I. Qed.

Lemma auction_outcome_witness :
  exists st', RunAuction demo_registry 20260101 (fun _ => 0) demo_request =
      Some (st', mkResult 102 11 650, NoBidNone) /\
    exists reg soa s e w bid reserve c k limit,
      LoadShard demo_registry 826 = Some reg /\
      candidateRange demo_registry reg demo_request = Some (soa, s, e) /\
      w ∈ view soa s e /\
      won demo_registry reg 20260101 demo_request true st' (mkResult 102 11 650) w bid reserve
        c k limit.
Proof.
  eexists. split; [vm_compute; reflexivity|].
  refine (auction_outcome demo_registry 20260101 (fun _ => 0) demo_request true _ _ NoBidNone
    demo_store_wf _ _); [|vm_compute; reflexivity].
  intros reg [-> _]%lookup_replicate. exact demo_typed.
Defined.

(** The cap of [applyReserve] uses the campaign's own bid, not the bid
    of the winning creative.  When a creative overrides the bid upwards, an
    auction can clear below the request's floor: campaign 102 bids 400, its
    creative bids 700 and wins a request with floor 600, and the price
    returned is 400. *)
Theorem creative_override_breaks_floor :
  let reg := mkRegistry 1 [102] [400] [0] [0] [0] [1] [1] [6] [826] [2] [0] [0]
    [4294967295] [] [] [] [] [] [] [] [] resetBucketSoA [] [] resetBucketSoA
    (mkCreatives [11] [700] [0] [5] [1] [0]) [0; 1] in
  let st := exec NewBudgetStore (OpCampaign 102 5000) in
  let req := mkRequest 6 600 826 1 0 0 0 NoBidNone 1000 0 0 in
  exists reg' w, buildGeoIndex reg = Some reg' /\ view (GeoBucketSoA reg') 0 1 = [w] /\
    w_Bid w = 700 /\
    let r := mkReg (replicate 64 reg') st ClearingSecondPrice false None in
    exists st', RunAuction r 20260101 (fun _ => 0) req =
      Some (st', mkResult 102 11 400, NoBidNone) /\ 400 < q_MinBid req.
Proof.
  do 2 eexists. split; [vm_compute; reflexivity|]. split; [vm_compute; reflexivity|].
  split; [reflexivity|]. eexists. split; [vm_compute; reflexivity | reflexivity].
Qed.

End RtbAuction.
