(* ===== verification/Wire.v ===== *)
(** * Bytes on the wire

    Shared by the binary codecs: a byte slice is a list of integers in
    [0, 256), [encoding/binary]'s little-endian accessors, slicing with Go's
    range check, and the overwrite of a prefix of a destination buffer. *)

From S2P Require Import Prelude.
Open Scope Z_scope.

Module Wire.

Definition is_byte (b : Z) : Prop := 0 <= b < 256.

(** [binary.LittleEndian.PutUint16/32/64] and [Uint16/32/64]. *)
Fixpoint le_put (n : nat) (v : Z) : list Z :=
  match n with
  | O => []
  | S n' => v mod 256 :: le_put n' (v / 256)
  end.

Fixpoint le_get (bs : list Z) : Z :=
  match bs with
  | [] => 0
  | b :: rest => b + 256 * le_get rest
  end.

(** [bs[a:b]]; the bounds are checked by the callers that need it. *)
Definition sub (bs : list Z) (a b : nat) : list Z := take (b - a) (drop a bs).

(** [bs[a:b]] of a slice that may be too short: [None] is the panic. *)
Definition sub_checked (bs : list Z) (a b : Z) : option (list Z) :=
  if (0 <=? a) && (a <=? b) && (b <=? zlen bs)
  then Some (sub bs (Z.to_nat a) (Z.to_nat b)) else None.

(** [copy(dst, bytes)] into a buffer known to be long enough. *)
Definition overwrite (dst bytes : list Z) : list Z := bytes ++ drop (length bytes) dst.

(** A write of [bytes] at [dst[a : a + len(bytes)]]; [None] is the panic. *)
Definition put_at (dst : list Z) (a : Z) (bytes : list Z) : option (list Z) :=
  if (0 <=? a) && (a + zlen bytes <=? zlen dst)
  then Some (take (Z.to_nat a) dst ++ bytes ++ drop (Z.to_nat a + length bytes) dst)
  else None.

Lemma length_le_put n v : length (le_put n v) = n.
Proof. revert v. induction n; intros v; simpl; auto. Qed.

Lemma zlen_le_put n v : zlen (le_put n v) = Z.of_nat n.
Proof. unfold zlen. by rewrite length_le_put. Qed.

Lemma le_get_put n v : 0 <= v < 256 ^ Z.of_nat n -> le_get (le_put n v) = v.
Proof.
  revert v. induction n as [|n IH]; intros v Hv.
  - simpl. change (256 ^ Z.of_nat 0) with 1 in Hv. lia.
  - simpl le_put. simpl le_get. rewrite Nat2Z.inj_succ, Z.pow_succ_r in Hv by lia.
    rewrite IH; [pose proof (Z.div_mod v 256); lia|].
    split; [apply Z.div_pos; lia | apply Z.div_lt_upper_bound; lia].
Qed.

Lemma le_put_bytes n v : Forall is_byte (le_put n v).
Proof.
  revert v. induction n; intros v; simpl; constructor; auto.
  unfold is_byte. apply Z.mod_pos_bound. lia.
Qed.

Lemma le_get_bounds bs : Forall is_byte bs -> 0 <= le_get bs < 256 ^ zlen bs.
Proof.
  unfold zlen. induction 1 as [|b bs Hb _ IH]; simpl le_get; [by split|].
  simpl length. rewrite Nat2Z.inj_succ, Z.pow_succ_r by lia. unfold is_byte in Hb. lia.
Qed.

(** The accessors at their three widths. *)
Lemma get_put16 v : in_u16 v -> le_get (le_put 2 v) = v.
Proof. intros H. apply le_get_put. exact H. Qed.
Lemma get_put32 v : in_u32 v -> le_get (le_put 4 v) = v.
Proof. intros H. apply le_get_put. exact H. Qed.
Lemma get_put64 v : in_u64 v -> le_get (le_put 8 v) = v.
Proof. intros H. apply le_get_put. exact H. Qed.

Lemma le_put_get bs : Forall is_byte bs -> le_put (length bs) (le_get bs) = bs.
Proof.
  unfold is_byte. induction 1 as [|b bs Hb _ IH]; [done|]. simpl.
  rewrite (Z.mul_comm 256), Z.mod_add, Z.div_add, Z.mod_small, Z.div_small by lia.
  by rewrite Z.add_0_l, IH.
Qed.

Lemma length_sub bs a b : (a <= b <= length bs)%nat -> length (sub bs a b) = (b - a)%nat.
Proof. intros H. unfold sub. rewrite length_take, length_drop. lia. Qed.

Lemma sub_app_r xs ys a b :
  (length xs <= a)%nat -> sub (xs ++ ys) a b = sub ys (a - length xs) (b - length xs).
Proof.
  intros H. unfold sub. rewrite drop_app_ge by done. f_equal. lia.
Qed.

Lemma sub_app_l xs ys a b : (a <= b <= length xs)%nat -> sub (xs ++ ys) a b = sub xs a b.
Proof.
  intros H. unfold sub. rewrite drop_app_le by lia.
  apply take_app_le. rewrite length_drop. lia.
Qed.

Lemma sub_all xs : sub xs 0 (length xs) = xs.
Proof. unfold sub. rewrite drop_0, Nat.sub_0_r. by apply take_ge. Qed.

Lemma sub_prefix xs ys b : b = length xs -> sub (xs ++ ys) 0 b = xs.
Proof. intros ->. rewrite sub_app_l by lia. apply sub_all. Qed.

Lemma sub_checked_ok bs a b :
  0 <= a <= b -> b <= zlen bs -> sub_checked bs a b = Some (sub bs (Z.to_nat a) (Z.to_nat b)).
Proof.
  intros Ha Hb. unfold sub_checked.
  by replace ((0 <=? a) && (a <=? b) && (b <=? zlen bs)) with true by lia.
Qed.

(** Writing right after an overwritten prefix extends the prefix. *)
Lemma put_at_next dst done_ bytes :
  zlen done_ + zlen bytes <= zlen dst ->
  put_at (overwrite dst done_) (zlen done_) bytes = Some (overwrite dst (done_ ++ bytes)).
Proof.
  intros H. unfold put_at, overwrite, zlen in *. rewrite !length_app, length_drop.
  rewrite Nat.add_sub_assoc, (Nat.add_comm _ (length dst)), Nat.add_sub by lia.
  case_if; [f_equal|lia].
  rewrite Nat2Z.id, take_app_length. rewrite <- app_assoc. do 2 f_equal.
  rewrite drop_app_ge, drop_drop by lia. f_equal. lia.
Qed.

Lemma overwrite_nil dst : overwrite dst [] = dst.
Proof. unfold overwrite. simpl. apply drop_0. Qed.

Lemma zlen_overwrite dst bytes : zlen bytes <= zlen dst -> zlen (overwrite dst bytes) = zlen dst.
Proof. unfold zlen, overwrite. rewrite length_app, length_drop. lia. Qed.

Lemma take_zlen {A} (l : list A) : take (Z.to_nat (zlen l)) l = l.
Proof. unfold zlen. rewrite Nat2Z.id. apply firstn_all. Qed.

Lemma lookup_next pre x post k :
  zlen pre = k -> default 0 ((pre ++ x :: post) !! Z.to_nat k) = x.
Proof. intros <-. unfold zlen. by rewrite Nat2Z.id, list_lookup_middle. Qed.

End Wire.
