(* ===== verification/UdpCodec.v ===== *)
(** * The UDP control-plane codec

    Models [internal/domain/shard/control_udp_codec.go], the wire part of
    [control_udp_weights.go] and [control_udp_send.go].  Encoders take the
    destination buffer and return it with the number of bytes written;
    [None] is a Go panic (an index or a slice out of range).  A [float64]
    is its IEEE bit pattern, which is what [math.Float64bits] sends, and a
    Go string is its bytes. *)

From S2P Require Import Prelude Wire.
From Stdlib Require Import Floats.SpecFloat.
Import Wire.
Open Scope Z_scope.

Module UdpCodec.

Definition udpMagic : Z := 1163087960.
Definition udpProtocolVersion : Z := 1.
Definition udpProtocolVersion2 : Z := 2.
Definition udpProtocolVersion3 : Z := 3.
Definition UDPHeaderSize : Z := 48.
Definition UDPMaxControlShards : Z := 16.
Definition udpCanaryFloorRPS : Z := 100.
Definition udpCanaryFloorPct : Z := 5.
Definition UDPMsgQuotaEpoch : Z := 1.
Definition UDPMsgConfigSnapshot : Z := 2.
Definition UDPMsgConfigRequest : Z := 3.
Definition UDPMsgMigrationBarrier : Z := 4.
Definition UDPFlagSnapshot : Z := 1.
Definition UDPFlagNodeWeights : Z := 2.
Definition UDPMaxNodeWeights : nat := 64.
Definition UDPMaxNodeIDLen : nat := 63.

Record UDPControlLimits := mkLimits { NumShards : Z; Limits : list Z; MaxRPD : Z }.

Definition zeroLimits : UDPControlLimits := mkLimits 0 (replicate 16 0) 0.

Record UDPHeader := mkHeader {
  Magic : Z; Version : Z; MsgType : Z; Flags : Z; CoarseTimeNs : Z; EpochID : Z;
  ConfigHash : list Z; SlotMapVersion : Z; HdrShards : Z; PayloadLen : Z
}.

Record UDPConfigRequestPayload := mkRequestPayload {
  TrackerID : Z; LastEpoch : Z; Hash : list Z
}.

Record UDPNodeWeight := mkWeight {
  NodeID : list Z; Role : string; Weight : Z; Score : Z; Provenance : Z
}.

Definition udpShardPayloadLen (numShards : Z) : Z :=
  if (numShards =? 0) || (UDPMaxControlShards <? numShards) then 0 else numShards * 8.

(** ** Header *)

Definition header_bytes (hdr : UDPHeader) : list Z :=
  le_put 4 (Magic hdr) ++ [Version hdr; MsgType hdr] ++ le_put 2 (Flags hdr) ++
  le_put 8 (u64 (CoarseTimeNs hdr)) ++ le_put 8 (u64 (EpochID hdr)) ++ ConfigHash hdr ++
  le_put 4 (u32 (SlotMapVersion hdr)) ++ [HdrShards hdr; 0] ++ le_put 2 (PayloadLen hdr).

Definition udpEncodeHeader (dst : list Z) (hdr : UDPHeader) : list Z * Z :=
  if zlen dst <? UDPHeaderSize then (dst, 0)
  else (overwrite dst (header_bytes hdr), UDPHeaderSize).

Definition known_version (v : Z) : bool :=
  (v =? udpProtocolVersion) || (v =? udpProtocolVersion2) || (v =? udpProtocolVersion3).

(** [Some hdr] is the Go result [true]. *)
Definition udpDecodeHeader (src : list Z) : option UDPHeader :=
  if zlen src <? UDPHeaderSize then None
  else
    let magic := le_get (sub src 0 4) in
    let version := default 0 (src !! 4%nat) in
    if negb (magic =? udpMagic) then None
    else if negb (known_version version) then None
    else Some (mkHeader magic version (default 0 (src !! 5%nat)) (le_get (sub src 6 8))
      (i64 (le_get (sub src 8 16))) (i64 (le_get (sub src 16 24))) (sub src 24 40)
      (i32 (le_get (sub src 40 44))) (default 0 (src !! 44%nat)) (le_get (sub src 46 48))).

(** ** Shard limits

    The loop counter is a [uint8], so [i*8] and [i*8+8] wrap at 256. *)

Fixpoint decode_limits (n : nat) (i : Z) (payload lim : list Z) : option (list Z) :=
  match n with
  | O => Some lim
  | S n' =>
      bs ← sub_checked payload (u8 (i * 8)) (u8 (u8 (i * 8) + 8));
      if i <? UDPMaxControlShards
      then decode_limits n' (i + 1) payload (set_z lim i (le_get bs)) else None
  end.

Definition udpDecodeShardLimits (payload : list Z) (numShards version : Z)
    (out : UDPControlLimits) : option (bool * UDPControlLimits) :=
  let need := udpShardPayloadLen numShards in
  if zlen payload <? need then Some (false, out)
  else
    lim ← decode_limits (Z.to_nat numShards) 0 payload (Limits out);
    let maxRPD :=
      if (version =? udpProtocolVersion2) && (need + 8 <=? zlen payload)
      then le_get (sub payload (Z.to_nat need) (Z.to_nat (need + 8))) else 0 in
    Some (true, mkLimits numShards lim maxRPD).

Fixpoint encode_limits (n : nat) (i : Z) (lim dst : list Z) : option (list Z) :=
  match n with
  | O => Some dst
  | S n' =>
      v ← at_z lim i;
      if u8 (i * 8) <=? u8 (u8 (i * 8) + 8) then
        dst' ← put_at dst (u8 (i * 8)) (le_put 8 v);
        encode_limits n' (i + 1) lim dst'
      else None
  end.

Definition udpEncodeShardLimits (dst : list Z) (limits : UDPControlLimits)
    : option (list Z * Z) :=
  if NumShards limits =? 0 then Some (dst, 0)
  else
    let need := udpShardPayloadLen (NumShards limits) in
    let extra := if 0 <? MaxRPD limits then 8 else 0 in
    if zlen dst <? need + extra then Some (dst, 0)
    else
      dst1 ← encode_limits (Z.to_nat (NumShards limits)) 0 (Limits limits) dst;
      if 0 <? extra then
        dst2 ← put_at dst1 need (le_put 8 (MaxRPD limits)); Some (dst2, need + extra)
      else Some (dst1, need + extra).

(** ** Configuration request *)

Definition request_bytes (req : UDPConfigRequestPayload) : list Z :=
  le_put 4 (TrackerID req) ++ le_put 8 (u64 (LastEpoch req)) ++ Hash req.

Definition udpEncodeConfigRequest (dst : list Z) (req : UDPConfigRequestPayload) : list Z * Z :=
  if zlen dst <? 28 then (dst, 0) else (overwrite dst (request_bytes req), 28).

Definition udpDecodeConfigRequest (payload : list Z) : option UDPConfigRequestPayload :=
  if zlen payload <? 28 then None
  else Some (mkRequestPayload (le_get (sub payload 0 4)) (i64 (le_get (sub payload 4 12)))
               (sub payload 12 28)).

(** ** Node weights *)

Definition clip_id (id : list Z) : list Z := take UDPMaxNodeIDLen id.

Definition weight_len (w : UDPNodeWeight) : Z := 1 + zlen (clip_id (NodeID w)) + 8 + 8 + 1.

Definition udpNodeWeightsEncodedLen (weights : list UDPNodeWeight) : Z :=
  match weights with
  | [] => 0
  | _ => 2 + sumZ (map weight_len (take UDPMaxNodeWeights weights))
  end.

(** The five writes of one entry: id length, id, weight, score, provenance. *)
Definition weight_bytes (w : UDPNodeWeight) : list Z :=
  [zlen (clip_id (NodeID w))] ++ clip_id (NodeID w) ++ le_put 8 (Weight w) ++
  le_put 8 (Score w) ++ [Provenance w].

Fixpoint encode_weights (off : Z) (dst : list Z) (ws : list UDPNodeWeight)
    : option (list Z * Z) :=
  match ws with
  | [] => Some (dst, off)
  | w :: rest =>
      dst' ← put_at dst off (weight_bytes w);
      encode_weights (off + zlen (weight_bytes w)) dst' rest
  end.

Definition udpEncodeNodeWeights (dst : list Z) (weights : list UDPNodeWeight)
    : option (list Z * Z) :=
  match weights with
  | [] => Some (dst, 0)
  | _ =>
      let ws := take UDPMaxNodeWeights weights in
      if zlen dst <? udpNodeWeightsEncodedLen weights then Some (dst, 0)
      else dst' ← put_at dst 0 (le_put 2 (u16 (zlen ws))); encode_weights 2 dst' ws
  end.

(** One round of the decoder's loop: every access is guarded, so a short
    payload is the result [false] ([None] here), never a panic. *)
Fixpoint decode_weights (n : nat) (off : Z) (payload : list Z) : option (list UDPNodeWeight) :=
  match n with
  | O => Some []
  | S n' =>
      if zlen payload <=? off then None
      else
        let idLen := default 0 (payload !! Z.to_nat off) in
        let off := off + 1 in
        if (Z.of_nat UDPMaxNodeIDLen <? idLen) || (zlen payload <? off + idLen) then None
        else
          let id := sub payload (Z.to_nat off) (Z.to_nat (off + idLen)) in
          let off := off + idLen in
          if zlen payload <? off + 17 then None
          else
            let weight := le_get (sub payload (Z.to_nat off) (Z.to_nat (off + 8))) in
            let score := le_get (sub payload (Z.to_nat (off + 8)) (Z.to_nat (off + 16))) in
            let prov := default 0 (payload !! Z.to_nat (off + 16)) in
            rest ← decode_weights n' (off + 17) payload;
            Some (mkWeight id "" weight score prov :: rest)
  end.

Definition udpDecodeNodeWeights (payload : list Z) : option (list UDPNodeWeight) :=
  if zlen payload <? 2 then None
  else
    let count := le_get (sub payload 0 2) in
    if count =? 0 then Some []
    else if Z.of_nat UDPMaxNodeWeights <? count then None
    else decode_weights (Z.to_nat count) 2 payload.

(** ** The datagram *)

Definition set_header (hdr : UDPHeader) (version flags msgType shards len : Z) : UDPHeader :=
  mkHeader udpMagic version msgType flags (CoarseTimeNs hdr) (EpochID hdr) (ConfigHash hdr)
    (SlotMapVersion hdr) shards len.

Definition EncodeQuotaEpochDatagramWithWeights (dst : list Z) (msgType : Z) (hdr : UDPHeader)
    (limits : UDPControlLimits) (weights : list UDPNodeWeight) : option (list Z * Z) :=
  let version :=
    if 0 <? zlen weights then udpProtocolVersion3
    else if 0 <? MaxRPD limits then udpProtocolVersion2 else udpProtocolVersion in
  let flags := if 0 <? zlen weights then Z.lor (Flags hdr) UDPFlagNodeWeights else Flags hdr in
  let payloadLen := udpShardPayloadLen (NumShards limits) in
  let payloadLen := if 0 <? MaxRPD limits then payloadLen + 8 else payloadLen in
  let payloadLen := payloadLen + udpNodeWeightsEncodedLen weights in
  if zlen dst <? UDPHeaderSize + payloadLen then Some (dst, 0)
  else
    let hdr' := set_header hdr version flags msgType (NumShards limits) (u16 payloadLen) in
    let '(dst1, _) := udpEncodeHeader dst hdr' in
    let head := take (Z.to_nat UDPHeaderSize) dst1 in
    '(body, n) ← udpEncodeShardLimits (drop (Z.to_nat UDPHeaderSize) dst1) limits;
    let off := UDPHeaderSize + n in
    let dst2 := head ++ body in
    if 0 <? zlen weights then
      '(tail, m) ← udpEncodeNodeWeights (drop (Z.to_nat off) dst2) weights;
      Some (take (Z.to_nat off) dst2 ++ tail, off + m)
    else Some (dst2, off).

Definition EncodeQuotaEpochDatagram (dst : list Z) (msgType : Z) (hdr : UDPHeader)
    (limits : UDPControlLimits) : option (list Z * Z) :=
  EncodeQuotaEpochDatagramWithWeights dst msgType hdr limits [].

(** ** Limits policy *)

Definition limit_at (l : UDPControlLimits) (i : nat) : Z := default 0 (Limits l !! i).

(** The pointers may be nil. *)
Definition udpLimitsTightening (prev next : option UDPControlLimits) : bool :=
  match next, prev with
  | None, _ => true
  | Some _, None => false
  | Some nx, Some pv =>
      let n := if NumShards nx <? NumShards pv then NumShards nx else NumShards pv in
      forallb (fun i => limit_at nx i <=? limit_at pv i) (seq 0 (Z.to_nat n))
  end.

Definition canary_floor (limit : Z) : Z :=
  if 0 <? limit then
    let pct := (limit *u64 udpCanaryFloorPct) / 100 in
    if udpCanaryFloorRPS <? pct then pct else udpCanaryFloorRPS
  else udpCanaryFloorRPS.

Definition udpApplyCanaryFloor (l : UDPControlLimits) : option UDPControlLimits :=
  if zlen (Limits l) <? NumShards l then None
  else
    let n := Z.to_nat (NumShards l) in
    Some (mkLimits (NumShards l) (map canary_floor (take n (Limits l)) ++ drop n (Limits l))
            (MaxRPD l)).

(** ** Configuration hash: FNV-128a over the little-endian fields *)

Definition fnv128_offset : Z := 144066263297769815596495629667062367629.
Definition fnv128_prime : Z := 309485009821345068724781371.

Definition fnv128a (bs : list Z) : Z :=
  foldl (fun h b => (Z.lxor h b * fnv128_prime) mod 2 ^ 128) fnv128_offset bs.

Definition hashNodeWeights (weights : list UDPNodeWeight) : list Z :=
  le_put 2 (u16 (zlen weights)) ++ concat (map weight_bytes weights).

Definition ComputeUDPConfigHashWithWeights (epoch slotVersion : Z) (limits : UDPControlLimits)
    (weights : list UDPNodeWeight) : list Z :=
  let written :=
    le_put 8 (u64 epoch) ++ le_put 4 (u32 slotVersion) ++
    concat (map (le_put 8) (take (Z.to_nat (NumShards limits)) (Limits limits))) ++
    (if 0 <? MaxRPD limits then le_put 8 (MaxRPD limits) else []) ++
    (if 0 <? zlen weights then hashNodeWeights weights else []) in
  rev (le_put 16 (fnv128a written)).

Definition ComputeUDPConfigHash (epoch slotVersion : Z) (limits : UDPControlLimits) : list Z :=
  ComputeUDPConfigHashWithWeights epoch slotVersion limits [].

(** ** Provenance and drain policy of the weights *)

Definition ProvenanceToUDPCode (p : string) : Z :=
  if bool_decide (p ∈ ["own_window"; "own"]) then 0
  else if bool_decide (p ∈ ["neighbor_median"; "neighbor"]) then 1
  else if bool_decide (p ∈ ["historical_daily"; "historical"]) then 2
  else 3.

Definition ProvenanceFromUDPCode (code : Z) : string :=
  if code =? 0 then "own_window" else if code =? 1 then "neighbor_median"
  else if code =? 2 then "historical_daily" else "conservative_default".

Definition UDPNodeWeightStaleLag : Z := 2.

Definition NodeWeightsDrainFrozen (channelStale : bool) (publisherEpoch appliedEpoch : Z)
    : bool :=
  if channelStale then true
  else if (publisherEpoch <=? 0) || (appliedEpoch <=? 0) then false
  else UDPNodeWeightStaleLag <? publisherEpoch -64 appliedEpoch.

(** [math.Float64bits] of a binary64 in the Standard Library's specification. *)
Definition float64bits (x : spec_float) : Z :=
  let sign (s : bool) := if s then 2 ^ 63 else 0 in
  match x with
  | S754_zero s => sign s
  | S754_infinity s => sign s + 2047 * 2 ^ 52
  | S754_nan => 2047 * 2 ^ 52 + 2 ^ 51 + 1
  | S754_finite s m e =>
      if 2 ^ 52 <=? Zpos m then sign s + (e + 1075) * 2 ^ 52 + (Zpos m - 2 ^ 52)
      else sign s + Zpos m
  end.

Definition float64_of_int (n : Z) : spec_float := binary_normalize 53 1024 n 0 false.
Definition float64_div (x y : spec_float) : spec_float := SFdiv 53 1024 x y.

Definition set_weight (w : UDPNodeWeight) (v : Z) : UDPNodeWeight :=
  mkWeight (NodeID w) (Role w) v (Score w) (Provenance w).

Definition EqualizeNodeWeights (weights : list UDPNodeWeight) : list UDPNodeWeight :=
  let eq := float64bits (float64_div (float64_of_int 1) (float64_of_int (zlen weights))) in
  map (fun w => set_weight w eq) weights.

Definition EffectiveNodeWeights (weights : list UDPNodeWeight) (channelStale : bool)
    (publisherEpoch appliedEpoch : Z) : list UDPNodeWeight :=
  if NodeWeightsDrainFrozen channelStale publisherEpoch appliedEpoch
  then EqualizeNodeWeights weights else weights.

(** ** Header round trip *)

Record header_ok (hdr : UDPHeader) : Prop := {
  ho_magic : Magic hdr = udpMagic;
  ho_version : known_version (Version hdr) = true;
  ho_flags : in_u16 (Flags hdr);
  ho_time : in_i64 (CoarseTimeNs hdr);
  ho_epoch : in_i64 (EpochID hdr);
  ho_hash : length (ConfigHash hdr) = 16%nat;
  ho_slot : in_i32 (SlotMapVersion hdr);
  ho_len : in_u16 (PayloadLen hdr)
}.

Lemma length_header_bytes hdr :
  length (ConfigHash hdr) = 16%nat -> length (header_bytes hdr) = 48%nat.
Proof. intros H. unfold header_bytes. rewrite !length_app, !length_le_put, H. done. Qed.

(** The fields of an encoded header, at the offsets the decoder reads. *)
Lemma header_fields hdr rest :
  length (ConfigHash hdr) = 16%nat ->
  let src := header_bytes hdr ++ rest in
  sub src 0 4 = le_put 4 (Magic hdr) /\ src !! 4%nat = Some (Version hdr) /\
  src !! 5%nat = Some (MsgType hdr) /\ sub src 6 8 = le_put 2 (Flags hdr) /\
  sub src 8 16 = le_put 8 (u64 (CoarseTimeNs hdr)) /\
  sub src 16 24 = le_put 8 (u64 (EpochID hdr)) /\ sub src 24 40 = ConfigHash hdr /\
  sub src 40 44 = le_put 4 (u32 (SlotMapVersion hdr)) /\ src !! 44%nat = Some (HdrShards hdr) /\
  sub src 46 48 = le_put 2 (PayloadLen hdr).
Proof.
  intros H. destruct hdr as [mg v mt fl ct ep hash sv ns pl]. cbn [ConfigHash] in H.
  do 16 (destruct hash as [|? hash]; [discriminate H|]).
  destruct hash; [|discriminate H]. repeat split.
Qed.

Lemma u64_in_u64 z : in_u64 (u64 z).
Proof. apply u64_range. Qed.

Lemma decode_header_bytes hdr rest :
  header_ok hdr -> udpDecodeHeader (header_bytes hdr ++ rest) = Some hdr.
Proof.
  intros [Hm Hv Hf Ht He Hh Hs Hl].
  destruct (header_fields hdr rest Hh) as (E0 & E4 & E5 & E6 & E8 & E16 & E24 & E40 & E44 & E46).
  unfold udpDecodeHeader. rewrite zlen_app.
  replace (zlen (header_bytes hdr)) with 48
    by (unfold zlen; rewrite length_header_bytes by done; done).
  pose proof (zlen_nonneg rest). change UDPHeaderSize with 48.
  replace (48 + zlen rest <? 48) with false by lia.
  rewrite E0, E4, E5, E6, E8, E16, E24, E40, E44, E46. cbn [default from_option id].
  rewrite Hm, !get_put16, !get_put32, !get_put64 by (done || auto with go).
  rewrite Z.eqb_refl, Hv. cbn [negb]. rewrite !i64_u64, i32_u32 by done.
  destruct hdr. cbn in *. by subst.
Qed.

(** The 48-byte header round-trips through any destination buffer that
    can hold it: every field comes back with its sign, the rest of the
    buffer is untouched, and the decoder accepts the result whatever follows
    the header. *)
Theorem header_roundtrip dst hdr :
  header_ok hdr -> UDPHeaderSize <= zlen dst ->
  exists dst', udpEncodeHeader dst hdr = (dst', UDPHeaderSize) /\ zlen dst' = zlen dst /\
    drop 48 dst' = drop 48 dst /\ udpDecodeHeader dst' = Some hdr.
Proof.
  intros Hok Hlen. unfold udpEncodeHeader.
  replace (zlen dst <? UDPHeaderSize) with false by lia.
  pose proof (length_header_bytes hdr (ho_hash _ Hok)) as Hhl.
  eexists. split; [done|]. split; [|split].
  - apply zlen_overwrite. unfold zlen at 1. rewrite Hhl. exact Hlen.
  - unfold overwrite. rewrite Hhl. rewrite drop_app_ge by lia. rewrite Hhl.
    by rewrite Nat.sub_diag, drop_0.
  - by apply decode_header_bytes.
Qed.

Definition demo_header : UDPHeader :=
  mkHeader udpMagic 1 1 0 1700000000000000000 (-7) (replicate 16 171) (-1) 2 16.

Lemma demo_header_ok : header_ok demo_header.
Proof. split; (reflexivity || (cbn; go_lia)). Qed.

Lemma header_roundtrip_witness :
  exists dst', udpEncodeHeader (replicate 60 9) demo_header = (dst', UDPHeaderSize) /\
    zlen dst' = 60 /\ drop 48 dst' = replicate 12 9 /\ udpDecodeHeader dst' = Some demo_header.
Proof.
  exact (header_roundtrip (replicate 60 9) demo_header demo_header_ok ltac:(vm_compute; discriminate)).
Defined.

(** ** Shard limits: when the decoder panics, and the round trip *)

Lemma small_offset i : 0 <= i < 16 -> u8 (i * 8) = i * 8 /\ u8 (u8 (i * 8) + 8) = i * 8 + 8.
Proof.
  intros H. assert (u8 (i * 8) = i * 8) as E by (apply u8_id; go_lia).
  rewrite E. split; [done|]. apply u8_id. go_lia.
Qed.

Lemma decode_limits_panics n i payload lim :
  0 <= i <= 16 -> 16 < i + Z.of_nat n -> decode_limits n i payload lim = None.
Proof.
  revert i lim. induction n as [|n IH]; intros i lim Hi Hn; [lia|]. simpl.
  destruct (sub_checked _ _ _) as [bs|]; [|done]. simpl. unfold UDPMaxControlShards.
  destruct (i <? 16) eqn:E; [|done]. apply IH; lia.
Qed.

Lemma decode_limits_returns n i payload lim :
  0 <= i -> i + Z.of_nat n <= 16 -> (i + Z.of_nat n) * 8 <= zlen payload ->
  is_Some (decode_limits n i payload lim).
Proof.
  revert i lim. induction n as [|n IH]; intros i lim Hi Hn Hl; simpl; [eauto|].
  destruct (small_offset i) as [-> ->]; [lia|]. rewrite sub_checked_ok by lia. simpl.
  unfold UDPMaxControlShards. replace (i <? 16) with true by lia. apply IH; lia.
Qed.

(** [udpDecodeShardLimits] panics exactly when the header's shard count
    is above [UDPMaxControlShards]: the length check then asks for zero
    bytes, and the loop runs past the payload or past the 16-element array.
    For every other count, whatever the payload, it returns. *)
Theorem decode_limits_panic_iff payload numShards version out :
  in_u8 numShards ->
  udpDecodeShardLimits payload numShards version out = None <-> UDPMaxControlShards < numShards.
Proof.
  intros Hn. unfold udpDecodeShardLimits, udpShardPayloadLen, UDPMaxControlShards.
  destruct (16 <? numShards) eqn:E.
  - rewrite orb_true_r. pose proof (zlen_nonneg payload).
    replace (zlen payload <? 0) with false by lia.
    rewrite decode_limits_panics by (unfold_ranges; lia). simpl. split; [lia|done].
  - rewrite orb_false_r. split; [|lia]. case_if; [done|].
    destruct (decode_limits_returns (Z.to_nat numShards) 0 payload (Limits out)) as [l Hl];
      [lia|go_lia| |by rewrite Hl].
    destruct (numShards =? 0) eqn:E0; go_lia.
Qed.

Lemma decode_limits_panic_iff_witness :
  udpDecodeShardLimits (replicate 136 0) 17 1 zeroLimits = None /\
  udpDecodeShardLimits (replicate 3 0) 2 1 zeroLimits <> None.
Proof.
  split.
  - apply decode_limits_panic_iff; [go_lia | reflexivity].
  - intros H. apply decode_limits_panic_iff in H; [discriminate H | go_lia].
Defined.

Definition limit_bytes (ls : list Z) : list Z := concat (map (le_put 8) ls).

Lemma zlen_limit_bytes ls : zlen (limit_bytes ls) = 8 * zlen ls.
Proof.
  induction ls as [|v ls IH]; [done|].
  change (limit_bytes (v :: ls)) with (le_put 8 v ++ limit_bytes ls).
  rewrite zlen_app, IH. unfold zlen. rewrite length_le_put. simpl length. lia.
Qed.

Lemma sub_middle pre bs tail a b :
  zlen pre = a -> b = a + zlen bs -> sub (pre ++ bs ++ tail) (Z.to_nat a) (Z.to_nat b) = bs.
Proof.
  intros <- ->. unfold zlen. rewrite sub_app_r by lia.
  replace (Z.to_nat (Z.of_nat (length pre)) - length pre)%nat with 0%nat by lia.
  apply sub_prefix. lia.
Qed.

Lemma decode_limits_bytes ls i pre tail lim :
  Forall in_u64 ls -> zlen pre = 8 * i -> 0 <= i -> i + zlen ls <= 16 -> zlen lim = 16 ->
  decode_limits (length ls) i (pre ++ limit_bytes ls ++ tail) lim =
    Some (take (Z.to_nat i) lim ++ ls ++ drop (Z.to_nat i + length ls) lim).
Proof.
  intros Hls. revert i pre lim. induction Hls as [|v ls Hv _ IH]; intros i pre lim Hp Hi Hn Hl.
  - simpl. by rewrite Nat.add_0_r, take_drop.
  - unfold zlen in Hn. simpl length in *. cbn [decode_limits].
    destruct (small_offset i) as [-> ->]; [lia|].
    change (limit_bytes (v :: ls)) with (le_put 8 v ++ limit_bytes ls).
    assert (zlen (le_put 8 v) = 8) as H8 by (unfold zlen; by rewrite length_le_put).
    pose proof (zlen_nonneg (limit_bytes ls)). pose proof (zlen_nonneg tail).
    rewrite <- app_assoc. rewrite sub_checked_ok by (rewrite ?zlen_app; lia). simpl option_bind.
    cbn [mbind option_bind]. rewrite sub_middle by lia. rewrite get_put64 by done.
    unfold UDPMaxControlShards. replace (i <? 16) with true by lia.
    rewrite (app_assoc pre), IH; rewrite ?zlen_app, ?zlen_set; try (unfold zlen in *; lia).
    f_equal. unfold set_z. replace (Z.to_nat (i + 1)) with (S (Z.to_nat i)) by lia.
    rewrite (take_S_r _ _ v) by (apply list_lookup_insert_eq; unfold zlen in *; lia).
    rewrite take_insert_ge by lia. rewrite <- app_assoc. f_equal. simpl. f_equal. f_equal.
    rewrite drop_insert_lt by lia. f_equal. lia.
Qed.

Lemma encode_limits_bytes n i lim dst pre :
  zlen pre = 8 * i -> 0 <= i -> i + Z.of_nat n <= 16 -> zlen lim = 16 ->
  8 * (i + Z.of_nat n) <= zlen dst ->
  encode_limits n i lim (overwrite dst pre) =
    Some (overwrite dst (pre ++ limit_bytes (take n (drop (Z.to_nat i) lim)))).
Proof.
  revert i pre. induction n as [|n IH]; intros i pre Hp Hi Hn Hl Hd.
  - simpl. by rewrite app_nil_r.
  - cbn [encode_limits]. destruct (at_z_Some lim i) as (v & -> & Hv); [lia|].
    cbn [mbind option_bind]. destruct (small_offset i) as [-> ->]; [lia|].
    replace (i * 8 <=? i * 8 + 8) with true by lia.
    assert (zlen (le_put 8 v) = 8) as H8 by (unfold zlen; by rewrite length_le_put).
    replace (i * 8) with (zlen pre) by lia. rewrite put_at_next by lia.
    cbn [mbind option_bind].
    rewrite IH by (rewrite ?zlen_app; lia).
    rewrite (drop_S _ _ _ Hv). replace (Z.to_nat (i + 1)) with (S (Z.to_nat i)) by lia.
    cbn [take]. rewrite <- app_assoc. done.
Qed.

Record limits_ok (l : UDPControlLimits) : Prop := {
  lo_shards : 0 < NumShards l <= UDPMaxControlShards;
  lo_array : length (Limits l) = 16%nat;
  lo_values : Forall in_u64 (Limits l);
  lo_rpd : in_u64 (MaxRPD l)
}.

(** The limits in force, the bytes they are sent as, and what a receiver of
    protocol version [version] reads back. *)
Definition active (l : UDPControlLimits) : list Z := take (Z.to_nat (NumShards l)) (Limits l).

Definition limits_wire (l : UDPControlLimits) : list Z :=
  limit_bytes (active l) ++ (if 0 <? MaxRPD l then le_put 8 (MaxRPD l) else []).

Definition received (version : Z) (l : UDPControlLimits) : UDPControlLimits :=
  mkLimits (NumShards l) (active l ++ drop (Z.to_nat (NumShards l)) (replicate 16 0))
    (if version =? udpProtocolVersion2 then MaxRPD l else 0).

Lemma zlen_active l : limits_ok l -> zlen (active l) = NumShards l.
Proof.
  intros [Hs Ha _ _]. unfold active, zlen, UDPMaxControlShards in *. rewrite length_take. lia.
Qed.

Lemma payload_len l : limits_ok l -> udpShardPayloadLen (NumShards l) = 8 * NumShards l.
Proof.
  intros [Hs _ _ _]. unfold udpShardPayloadLen, UDPMaxControlShards in *.
  replace ((NumShards l =? 0) || (16 <? NumShards l)) with false by lia. lia.
Qed.

Lemma zlen_limits_wire l :
  limits_ok l -> zlen (limits_wire l) = 8 * NumShards l + (if 0 <? MaxRPD l then 8 else 0).
Proof.
  intros Hok. unfold limits_wire. rewrite zlen_app, zlen_limit_bytes, zlen_active by done.
  by destruct (0 <? MaxRPD l).
Qed.

Lemma encode_shard_limits_wire dst l :
  limits_ok l -> zlen (limits_wire l) <= zlen dst ->
  udpEncodeShardLimits dst l = Some (overwrite dst (limits_wire l), zlen (limits_wire l)).
Proof.
  intros Hok Hd. rewrite zlen_limits_wire in * by done. unfold udpEncodeShardLimits.
  rewrite payload_len by done. pose proof Hok as [Hs Ha _ _]. unfold UDPMaxControlShards in Hs.
  replace (NumShards l =? 0) with false by lia.
  replace (zlen dst <? _) with false by (destruct (0 <? MaxRPD l); lia).
  pose proof (encode_limits_bytes (Z.to_nat (NumShards l)) 0 (Limits l) dst []) as He.
  rewrite overwrite_nil in He. rewrite He;
    [|done|lia|lia|unfold zlen; lia|destruct (0 <? MaxRPD l); lia].
  cbn [mbind option_bind app]. change (Z.to_nat 0) with 0%nat. rewrite drop_0. fold (active l).
  unfold limits_wire. destruct (0 <? MaxRPD l) eqn:E.
  - change (0 <? 8) with true. cbn iota.
    pose proof (zlen_limit_bytes (active l)) as Hz. rewrite zlen_active in Hz by done.
    rewrite <- Hz. rewrite put_at_next; [done|].
    rewrite Hz. unfold zlen at 1. rewrite length_le_put. lia.
  - by rewrite app_nil_r.
Qed.

Lemma decode_active l tail :
  limits_ok l ->
  decode_limits (Z.to_nat (NumShards l)) 0 (limit_bytes (active l) ++ tail) (Limits zeroLimits) =
    Some (active l ++ drop (Z.to_nat (NumShards l)) (replicate 16 0)).
Proof.
  intros Hok. pose proof (zlen_active l Hok) as Hact. pose proof Hok as [Hs _ Hv _].
  unfold UDPMaxControlShards in Hs.
  replace (Z.to_nat (NumShards l)) with (length (active l)) by (unfold zlen in *; lia).
  rewrite <- (app_nil_l (limit_bytes _ ++ _)).
  rewrite (decode_limits_bytes (active l) 0 [] tail (Limits zeroLimits));
    [done|by apply Forall_take|done|lia|lia|done].
Qed.

Lemma decode_shard_limits_wire l version tail :
  limits_ok l -> tail = [] \/ version <> udpProtocolVersion2 ->
  udpDecodeShardLimits (limits_wire l ++ tail) (NumShards l) version zeroLimits =
    Some (true, received version l).
Proof.
  intros Hok Ht. pose proof (zlen_limits_wire l Hok) as Hw. pose proof (zlen_nonneg tail).
  unfold udpDecodeShardLimits. rewrite payload_len, zlen_app by done.
  replace (zlen (limits_wire l) + zlen tail <? 8 * NumShards l) with false
    by (destruct (0 <? MaxRPD l); lia).
  assert (limits_wire l ++ tail = limit_bytes (active l) ++
    (if 0 <? MaxRPD l then le_put 8 (MaxRPD l) else []) ++ tail) as Ewire
    by (unfold limits_wire; by rewrite <- app_assoc).
  rewrite Ewire, decode_active by done. cbn [mbind option_bind]. unfold received. do 3 f_equal.
  destruct (version =? udpProtocolVersion2) eqn:Ev; [|done]. cbn [andb].
  destruct Ht as [->|Hn]; [|lia]. change (zlen (@nil Z)) with 0.
  pose proof (lo_rpd _ Hok) as Hr. destruct (0 <? MaxRPD l) eqn:E.
  - replace (8 * NumShards l + 8 <=? zlen (limits_wire l) + 0) with true by lia.
    rewrite sub_middle; [by apply get_put64|rewrite zlen_limit_bytes, zlen_active by done; lia|].
    unfold zlen. rewrite length_le_put. lia.
  - replace (8 * NumShards l + 8 <=? zlen (limits_wire l) + 0) with false by lia. go_lia.
Qed.

(** The shard limits round-trip through any buffer that can hold them:
    the active limits come back exactly, the unused array slots come back
    zero, and the daily cap comes back for protocol version 2 and is dropped
    by every other version. *)
Theorem shard_limits_roundtrip dst l version :
  limits_ok l -> zlen (limits_wire l) <= zlen dst ->
  exists dst' n, udpEncodeShardLimits dst l = Some (dst', n) /\ n = zlen (limits_wire l) /\
    udpDecodeShardLimits (take (Z.to_nat n) dst') (NumShards l) version zeroLimits =
      Some (true, received version l).
Proof.
  intros Hok Hd. do 2 eexists. split; [by apply encode_shard_limits_wire|]. split; [done|].
  unfold overwrite. rewrite take_app_le by (unfold zlen; lia).
  rewrite take_ge by (unfold zlen; lia).
  rewrite <- (app_nil_r (limits_wire l)). apply decode_shard_limits_wire; auto.
Qed.

Definition demo_limits : UDPControlLimits :=
  mkLimits 2 ([50000; 18446744073709551615] ++ replicate 14 0) 9000.

Lemma demo_limits_ok : limits_ok demo_limits.
Proof.
  split; [split; reflexivity || discriminate | reflexivity | | cbn; go_lia].
  repeat apply Forall_cons_2; try apply Forall_nil_2; cbn; go_lia.
Qed.

Lemma shard_limits_roundtrip_witness :
  exists dst' n, udpEncodeShardLimits (replicate 40 7) demo_limits = Some (dst', n) /\ n = 24 /\
    udpDecodeShardLimits (take (Z.to_nat n) dst') 2 2 zeroLimits = Some (true, demo_limits).
Proof.
  exact (shard_limits_roundtrip (replicate 40 7) demo_limits 2 demo_limits_ok
    ltac:(vm_compute; discriminate)).
Defined.

(** ** Node weights round trip *)

Definition weight_ok (w : UDPNodeWeight) : Prop := in_u64 (Weight w) /\ in_u64 (Score w).

(** The role is not sent and a long node id is cut to 63 bytes. *)
Definition received_weight (w : UDPNodeWeight) : UDPNodeWeight :=
  mkWeight (clip_id (NodeID w)) "" (Weight w) (Score w) (Provenance w).

Definition weights_bytes (ws : list UDPNodeWeight) : list Z := concat (map weight_bytes ws).

Definition weights_wire (ws : list UDPNodeWeight) : list Z :=
  match ws with
  | [] => []
  | _ => let ws' := take UDPMaxNodeWeights ws in le_put 2 (u16 (zlen ws')) ++ weights_bytes ws'
  end.

Lemma zlen_weight_bytes w : zlen (weight_bytes w) = weight_len w.
Proof.
  unfold weight_bytes, weight_len. rewrite !zlen_app, !zlen_le_put.
  change (zlen [_]) with 1. change (zlen [Provenance w]) with 1. lia.
Qed.

Lemma zlen_weights_bytes ws : zlen (weights_bytes ws) = sumZ (map weight_len ws).
Proof.
  induction ws as [|w ws IH]; [done|].
  change (weights_bytes (w :: ws)) with (weight_bytes w ++ weights_bytes ws).
  rewrite zlen_app, zlen_weight_bytes, IH. done.
Qed.

Lemma clip_len id : 0 <= zlen (clip_id id) <= 63.
Proof. unfold clip_id, zlen, UDPMaxNodeIDLen. rewrite length_take. lia. Qed.

(** Decoding one entry that starts right after [pre]. *)
Lemma decode_one n pre w rest :
  weight_ok w ->
  decode_weights (S n) (zlen pre) (pre ++ weight_bytes w ++ rest) =
    (fun ws => received_weight w :: ws) <$>
      decode_weights n (zlen pre + weight_len w) (pre ++ weight_bytes w ++ rest).
Proof.
  intros [Hw Hs]. set (id := clip_id (NodeID w)). pose proof (clip_len (NodeID w)) as Hid.
  fold id in Hid. set (k := zlen pre). pose proof (zlen_nonneg pre) as Hk. fold k in Hk.
  pose proof (zlen_nonneg rest) as Hr.
  assert (zlen (pre ++ weight_bytes w ++ rest) = k + weight_len w + zlen rest) as Hlen.
  { rewrite !zlen_app, zlen_weight_bytes. fold k. lia. }
  assert (weight_len w = 18 + zlen id) as Hwl by (unfold weight_len; fold id; lia).
  set (pl := pre ++ weight_bytes w ++ rest) in *.
  set (t4 := [Provenance w] ++ rest). set (t3 := le_put 8 (Score w) ++ t4).
  set (t2 := le_put 8 (Weight w) ++ t3). set (t1 := id ++ t2).
  assert (pl = pre ++ zlen id :: t1) as E0.
  { unfold pl, weight_bytes. fold id. rewrite <- !app_assoc. done. }
  assert (pl = (pre ++ [zlen id]) ++ id ++ t2) as E1 by (rewrite E0; exact (app_assoc pre [zlen id] t1)).
  assert (pl = ((pre ++ [zlen id]) ++ id) ++ le_put 8 (Weight w) ++ t3) as E2
    by (rewrite E1; exact (app_assoc _ _ _)).
  assert (pl = (((pre ++ [zlen id]) ++ id) ++ le_put 8 (Weight w)) ++ le_put 8 (Score w) ++ t4)
    as E3 by (rewrite E2; exact (app_assoc _ _ _)).
  assert (pl = ((((pre ++ [zlen id]) ++ id) ++ le_put 8 (Weight w)) ++ le_put 8 (Score w)) ++
    Provenance w :: rest) as E4 by (rewrite E3; exact (app_assoc _ (le_put 8 (Score w)) t4)).
  assert (zlen (pre ++ [zlen id]) = k + 1) as L1 by (rewrite zlen_app; done).
  assert (zlen ((pre ++ [zlen id]) ++ id) = k + 1 + zlen id) as L2 by (rewrite zlen_app, L1; done).
  assert (zlen (((pre ++ [zlen id]) ++ id) ++ le_put 8 (Weight w)) = k + 1 + zlen id + 8) as L3
    by (rewrite zlen_app, L2; done).
  assert (zlen ((((pre ++ [zlen id]) ++ id) ++ le_put 8 (Weight w)) ++ le_put 8 (Score w)) =
    k + 1 + zlen id + 16) as L4 by (rewrite zlen_app, L3, zlen_le_put; lia).
  cbn [decode_weights]. rewrite Hlen.
  replace (k + weight_len w + zlen rest <=? k) with false by lia.
  assert (default 0 (pl !! Z.to_nat k) = zlen id) as -> by (rewrite E0; by apply lookup_next).
  replace ((Z.of_nat UDPMaxNodeIDLen <? zlen id) || (k + weight_len w + zlen rest <? k + 1 + zlen id))
    with false by (change (Z.of_nat UDPMaxNodeIDLen) with 63; lia).
  replace (k + weight_len w + zlen rest <? k + 1 + zlen id + 17) with false by lia.
  assert (sub pl (Z.to_nat (k + 1)) (Z.to_nat (k + 1 + zlen id)) = id) as ->
    by (rewrite E1; apply sub_middle; lia).
  assert (le_get (sub pl (Z.to_nat (k + 1 + zlen id)) (Z.to_nat (k + 1 + zlen id + 8))) = Weight w)
    as -> by (rewrite E2, sub_middle by (rewrite ?zlen_le_put; lia); by apply get_put64).
  assert (le_get (sub pl (Z.to_nat (k + 1 + zlen id + 8)) (Z.to_nat (k + 1 + zlen id + 16))) =
    Score w) as ->
    by (rewrite E3, sub_middle by (rewrite ?zlen_le_put; lia); by apply get_put64).
  assert (default 0 (pl !! Z.to_nat (k + 1 + zlen id + 16)) = Provenance w) as ->
    by (rewrite E4; by apply lookup_next).
  replace (k + 1 + zlen id + 17) with (k + weight_len w) by lia.
  by destruct (decode_weights n (k + weight_len w) pl).
Qed.

Lemma decode_weights_bytes ws pre tail :
  Forall weight_ok ws ->
  decode_weights (length ws) (zlen pre) (pre ++ weights_bytes ws ++ tail) =
    Some (map received_weight ws).
Proof.
  intros H. revert pre. induction H as [|w ws Hw _ IH]; intros pre; [done|].
  change (weights_bytes (w :: ws)) with (weight_bytes w ++ weights_bytes ws).
  cbn [length]. rewrite <- app_assoc, decode_one by done.
  rewrite <- zlen_weight_bytes, <- zlen_app, (app_assoc pre), IH. done.
Qed.

Lemma encode_weights_bytes ws dst pre :
  zlen pre + zlen (weights_bytes ws) <= zlen dst ->
  encode_weights (zlen pre) (overwrite dst pre) ws =
    Some (overwrite dst (pre ++ weights_bytes ws), zlen pre + zlen (weights_bytes ws)).
Proof.
  revert pre. induction ws as [|w ws IH]; intros pre H; cbn [encode_weights].
  - change (weights_bytes []) with (@nil Z). rewrite app_nil_r. do 2 f_equal. unfold zlen. simpl. lia.
  - change (weights_bytes (w :: ws)) with (weight_bytes w ++ weights_bytes ws) in *.
    rewrite zlen_app in H. pose proof (zlen_nonneg (weights_bytes ws)).
    rewrite put_at_next by lia. cbn [mbind option_bind].
    rewrite <- zlen_app, IH by (rewrite zlen_app; lia).
    rewrite !zlen_app, <- app_assoc. do 2 f_equal. lia.
Qed.

Lemma weights_count (ws : list UDPNodeWeight) : ws <> [] -> 0 < zlen (take UDPMaxNodeWeights ws) <= 64.
Proof.
  intros H. unfold zlen, UDPMaxNodeWeights. rewrite length_take.
  destruct ws; [done|]. simpl length. lia.
Qed.

Lemma zlen_weights_wire ws : zlen (weights_wire ws) = udpNodeWeightsEncodedLen ws.
Proof.
  unfold weights_wire, udpNodeWeightsEncodedLen. destruct ws as [|w ws]; [done|].
  cbv zeta. rewrite zlen_app, zlen_le_put, zlen_weights_bytes. done.
Qed.

Lemma encode_node_weights_wire dst ws :
  zlen (weights_wire ws) <= zlen dst ->
  udpEncodeNodeWeights dst ws = Some (overwrite dst (weights_wire ws), zlen (weights_wire ws)).
Proof.
  intros H. destruct ws as [|w ws]; [by rewrite overwrite_nil|].
  unfold udpEncodeNodeWeights. rewrite <- zlen_weights_wire.
  replace (zlen dst <? zlen (weights_wire (w :: ws))) with false by lia.
  unfold weights_wire in *. set (ws' := take UDPMaxNodeWeights (w :: ws)) in *.
  set (head := le_put 2 _) in *. rewrite zlen_app in H.
  pose proof (zlen_nonneg (weights_bytes ws')).
  assert (zlen head = 2) as H2 by apply zlen_le_put.
  rewrite <- (overwrite_nil dst) at 1. change 0 with (zlen (@nil Z)) at 1.
  rewrite put_at_next by (change (zlen (@nil Z)) with 0; lia). cbn [mbind option_bind app].
  rewrite <- H2. rewrite encode_weights_bytes by lia. by rewrite zlen_app.
Qed.

Lemma decode_node_weights_wire ws :
  ws <> [] -> Forall weight_ok ws ->
  udpDecodeNodeWeights (weights_wire ws) =
    Some (map received_weight (take UDPMaxNodeWeights ws)).
Proof.
  intros Hne Hok.
  pose proof (weights_count ws Hne) as Hc. unfold weights_wire.
  destruct ws as [|w ws]; [done|]. cbv zeta. set (ws' := take UDPMaxNodeWeights (w :: ws)) in *.
  assert (u16 (zlen ws') = zlen ws') as -> by (apply u16_id; go_lia).
  unfold udpDecodeNodeWeights. rewrite zlen_app, zlen_le_put.
  pose proof (zlen_nonneg (weights_bytes ws')).
  change (Z.of_nat 2) with 2. replace (2 + zlen (weights_bytes ws') <? 2) with false by lia.
  rewrite sub_prefix by (by rewrite length_le_put). rewrite get_put16 by go_lia.
  replace (zlen ws' =? 0) with false by lia.
  replace (Z.of_nat UDPMaxNodeWeights <? zlen ws') with false
    by (change (Z.of_nat UDPMaxNodeWeights) with 64; lia).
  unfold zlen at 1. rewrite Nat2Z.id.
  pose proof (decode_weights_bytes ws' (le_put 2 (zlen ws')) []) as Hdec.
  rewrite app_nil_r, zlen_le_put in Hdec. apply Hdec. by apply Forall_take.
Qed.

(** The node-weight section round-trips: whatever the weights, the
    encoder never panics on a buffer of the length it announces, and the
    decoder returns the first 64 of them in order, each with its exact
    weight and score bits, its provenance and its node id cut to 63 bytes. *)
Theorem node_weights_roundtrip dst ws :
  ws <> [] -> Forall weight_ok ws -> udpNodeWeightsEncodedLen ws <= zlen dst ->
  exists dst' n, udpEncodeNodeWeights dst ws = Some (dst', n) /\
    n = udpNodeWeightsEncodedLen ws /\
    udpDecodeNodeWeights (take (Z.to_nat n) dst') =
      Some (map received_weight (take UDPMaxNodeWeights ws)).
Proof.
  intros Hne Hok Hd. rewrite <- zlen_weights_wire in *. do 2 eexists.
  split; [by apply encode_node_weights_wire|]. split; [done|].
  unfold overwrite. rewrite take_app_le, take_ge by (unfold zlen; lia).
  by apply decode_node_weights_wire.
Qed.

Definition demo_weights : list UDPNodeWeight :=
  [mkWeight [110; 49] "edge" 4602678819172646912 4607182418800017408 1;
   mkWeight (replicate 70 97) "core" 4602678819172646912 0 0].

Lemma node_weights_roundtrip_witness :
  exists dst' n, udpEncodeNodeWeights (replicate 128 0) demo_weights = Some (dst', n) /\ n = 103 /\
    udpDecodeNodeWeights (take (Z.to_nat n) dst') = Some (map received_weight demo_weights).
Proof.
  apply (node_weights_roundtrip (replicate 128 0) demo_weights); [done| |vm_compute; discriminate].
  repeat constructor; cbn; go_lia.
Defined.

End UdpCodec.
