(* ===== verification/UdpControl.v ===== *)
(** * The tracker's control channel

    Models [internal/stream/tracker_udp_control.go] (the ingress quota map,
    the UDP control state machine and the TCP snapshot path), the coarse
    clock of [internal/filter/clock_bundle.go] and the publisher of
    [internal/control/udp_server.go].  Packets arrive one at a time
    ([recvLoop] is a single goroutine); the object pools, metrics and sockets
    are not modelled.  Readings of the monotonic clock are arguments, and
    [None] is a Go panic. *)

From S2P Require Import Prelude Wire UdpCodec.
Import Wire UdpCodec.
Open Scope Z_scope.

Module UdpControl.

Definition maxIngressWorkers : Z := 64.

(** ** Ingress quota map *)

Record IngressQuotaCell := mkCell { maxAllowed : Z; currentOps : Z }.

Record IngressQuotaMap := mkQuota {
  q_epoch : Z; q_numShards : Z; q_numWorkers : Z; cells : list IngressQuotaCell
}.

Definition per_worker (limit numWorkers : Z) : Z :=
  let per := limit / numWorkers in
  if (per =? 0) && (0 <? limit) then 1 else per.

Definition BuildIngressQuotaMap (epoch : Z) (limits : UDPControlLimits) (numWorkers : Z)
    : option IngressQuotaMap :=
  if (NumShards limits =? 0) || (numWorkers <=? 0) then None
  else
    let numWorkers := if maxIngressWorkers <? numWorkers then maxIngressWorkers else numWorkers in
    Some (mkQuota epoch (NumShards limits) (u8 numWorkers)
      (concat (map (fun shard =>
         replicate (Z.to_nat numWorkers) (mkCell (per_worker (limit_at limits shard) numWorkers) 0))
         (seq 0 (Z.to_nat (NumShards limits)))))).

Definition TryAcquire (m : IngressQuotaMap) (shard worker : Z) : bool * IngressQuotaMap :=
  if (shard <? 0) || (worker <? 0) || (q_numShards m <=? shard) then (true, m)
  else
    let worker := if q_numWorkers m <=? worker then Z.rem worker (q_numWorkers m) else worker in
    let idx := shard * q_numWorkers m + worker in
    match at_z (cells m) idx with
    | None => (true, m)
    | Some cell =>
        if maxAllowed cell =? 0 then (true, m)
        else
          let put n := mkQuota (q_epoch m) (q_numShards m) (q_numWorkers m)
                         (set_z (cells m) idx (mkCell (maxAllowed cell) n)) in
          let ops := currentOps cell +u64 1 in
          if maxAllowed cell <? ops then (false, put (ops +u64 18446744073709551615))
          else (true, put ops)
    end.

(** ** State *)

Record ingressSnapshot := mkSnapshot {
  s_epoch : Z; s_configHash : list Z; s_slotMapVersion : Z; s_limits : UDPControlLimits;
  s_nodeWeights : list UDPNodeWeight
}.

(** The cached wall clock of the filter package. *)
Record Clock := mkClock { cachedUnixMilli : Z; clockTickPausedUntil : Z }.

Record UDPControl := mkControl {
  enabled : bool;
  numWorkers : Z;
  syncInterval : Z;
  snapshot : option ingressSnapshot;
  quotaMap : option IngressQuotaMap;
  stale : bool;                       (* channelState *)
  currentEpoch : Z;
  lastPublisherEpoch : Z;
  lastPacketMono : Z;
  knownHash : list Z;
  clock : Clock
}.

Definition udpCoarseTimeClampMs : Z := 50.

Definition ApplyUDPCoarseTime (now coarseTimeNs : Z) (k : Clock) : Clock :=
  if coarseTimeNs <=? 0 then k
  else
    let remoteMs := Z.quot coarseTimeNs 1000000 in
    let localMs := cachedUnixMilli k in
    let deltaMs := remoteMs -64 localMs in
    let deltaMs :=
      if udpCoarseTimeClampMs <? deltaMs then udpCoarseTimeClampMs
      else if deltaMs <? - udpCoarseTimeClampMs then - udpCoarseTimeClampMs else deltaMs in
    let targetMs := localMs +64 deltaMs in
    if targetMs <? localMs then
      mkClock localMs (now +64 ((localMs -64 targetMs) *64 1000000))
    else if localMs <? targetMs then mkClock targetMs 0
    else k.

Definition NewUDPControl (enabled : bool) (syncInterval numShards numWorkers initialRPS : Z)
    (k : Clock) : UDPControl :=
  let workers := if numWorkers <=? 0 then 1 else numWorkers in
  let workers := if maxIngressWorkers <? workers then maxIngressWorkers else workers in
  let interval := if syncInterval <=? 0 then 10000000000 else syncInterval in
  if enabled && (0 <? numShards) then
    let n := if UDPMaxControlShards <? numShards then UDPMaxControlShards else numShards in
    let rps := if initialRPS =? 0 then 50000 else initialRPS in
    let limits := mkLimits n (replicate (Z.to_nat n) rps ++ replicate (16 - Z.to_nat n) 0) 0 in
    let hash := ComputeUDPConfigHash 0 0 limits in
    mkControl enabled workers interval (Some (mkSnapshot 0 hash 0 limits []))
      (BuildIngressQuotaMap 0 limits workers) false 0 0 0 hash k
  else mkControl enabled workers interval None None false 0 0 0 (replicate 16 0) k.

Definition with_quota (c : UDPControl) (m : IngressQuotaMap) : UDPControl :=
  mkControl (enabled c) (numWorkers c) (syncInterval c) (snapshot c) (Some m) (stale c)
    (currentEpoch c) (lastPublisherEpoch c) (lastPacketMono c) (knownHash c) (clock c).
Definition with_epoch (c : UDPControl) (epoch : Z) : UDPControl :=
  mkControl (enabled c) (numWorkers c) (syncInterval c) (snapshot c) (quotaMap c) (stale c)
    epoch (lastPublisherEpoch c) (lastPacketMono c) (knownHash c) (clock c).
Definition with_hash (c : UDPControl) (h : list Z) : UDPControl :=
  mkControl (enabled c) (numWorkers c) (syncInterval c) (snapshot c) (quotaMap c) (stale c)
    (currentEpoch c) (lastPublisherEpoch c) (lastPacketMono c) h (clock c).
Definition with_stale (c : UDPControl) (b : bool) : UDPControl :=
  mkControl (enabled c) (numWorkers c) (syncInterval c) (snapshot c) (quotaMap c) b
    (currentEpoch c) (lastPublisherEpoch c) (lastPacketMono c) (knownHash c) (clock c).

(** ** Accessors *)

Definition PublisherEpoch (c : UDPControl) : Z :=
  if 0 <? lastPublisherEpoch c then lastPublisherEpoch c else currentEpoch c.

Definition DrainFrozen (c : UDPControl) : bool :=
  if negb (enabled c) then false
  else NodeWeightsDrainFrozen (stale c) (PublisherEpoch c) (currentEpoch c).

Definition NodeWeights (c : UDPControl) : list UDPNodeWeight :=
  match snapshot c with
  | None => []
  | Some s => EffectiveNodeWeights (s_nodeWeights s) (stale c) (PublisherEpoch c) (currentEpoch c)
  end.

Definition TryIngress (c : UDPControl) (shard workerID : Z) : bool * UDPControl :=
  if negb (enabled c) then (true, c)
  else match quotaMap c with
  | None => (true, c)
  | Some m => let '(ok, m') := TryAcquire m shard workerID in (ok, with_quota c m')
  end.

Definition ShardLimitRPS (c : UDPControl) (shard : Z) : Z :=
  if (shard <? 0) || (UDPMaxControlShards <=? shard) then 0
  else match snapshot c with
  | None => 0
  | Some s => if NumShards (s_limits s) <=? shard then 0
              else limit_at (s_limits s) (Z.to_nat shard)
  end.

(** ** Packets *)

Definition commitSnapshot (c : UDPControl) (hdr : UDPHeader) (limits : UDPControlLimits)
    (weights : list UDPNodeWeight) : UDPControl :=
  let next := mkSnapshot (EpochID hdr) (ConfigHash hdr) (SlotMapVersion hdr) limits weights in
  let qm := match BuildIngressQuotaMap (EpochID hdr) limits (numWorkers c) with
            | Some m => Some m
            | None => quotaMap c
            end in
  mkControl (enabled c) (numWorkers c) (syncInterval c) (Some next) qm (stale c)
    (currentEpoch c) (lastPublisherEpoch c) (lastPacketMono c) (knownHash c) (clock c).

Definition markFresh (now : Z) (c : UDPControl) : UDPControl :=
  mkControl (enabled c) (numWorkers c) (syncInterval c) (snapshot c) (quotaMap c) false
    (currentEpoch c) (lastPublisherEpoch c) now (knownHash c) (clock c).

Definition applyLimits (now : Z) (c : UDPControl) (hdr : UDPHeader) (limits : UDPControlLimits)
    (weights : list UDPNodeWeight) (isSnapshot : bool) : option (bool * UDPControl) :=
  let cur := currentEpoch c in
  let epoch := EpochID hdr in
  let commit := markFresh now (with_epoch (commitSnapshot c hdr limits weights) epoch) in
  if epoch <=? cur then Some (false, c)
  else if (epoch =? cur +64 1) || (cur =? 0) then Some (true, commit)
  else
    prev ← snapshot c;
    if udpLimitsTightening (Some (s_limits prev)) (Some limits) then Some (true, commit)
    else if isSnapshot then Some (true, with_hash commit (ConfigHash hdr))
    else Some (false, c).

Definition note_packet (now : Z) (hdr : UDPHeader) (c : UDPControl) : UDPControl :=
  mkControl (enabled c) (numWorkers c) (syncInterval c) (snapshot c) (quotaMap c) (stale c)
    (currentEpoch c) (EpochID hdr) (lastPacketMono c) (knownHash c)
    (ApplyUDPCoarseTime now (CoarseTimeNs hdr) (clock c)).

Definition ApplyPacket (now : Z) (c : UDPControl) (buf : list Z) : option (bool * UDPControl) :=
  if zlen buf <? UDPHeaderSize then Some (false, c)
  else match udpDecodeHeader buf with
  | None => Some (false, c)
  | Some hdr =>
      let payload := drop (Z.to_nat UDPHeaderSize) buf in
      if zlen payload <? PayloadLen hdr then Some (false, c)
      else
        let payload := take (Z.to_nat (PayloadLen hdr)) payload in
        let c := note_packet now hdr c in
        if (MsgType hdr =? UDPMsgQuotaEpoch) || (MsgType hdr =? UDPMsgConfigSnapshot) then
          '(ok, limits) ← udpDecodeShardLimits payload (HdrShards hdr) (Version hdr) zeroLimits;
          if negb ok then Some (false, c)
          else
            let shardLen := udpShardPayloadLen (HdrShards hdr) in
            let shardLen := if Version hdr =? udpProtocolVersion2 then shardLen + 8 else shardLen in
            let carries := (udpProtocolVersion3 <=? Version hdr) ||
                           negb (Z.land (Flags hdr) UDPFlagNodeWeights =? 0) in
            let weights :=
              if carries && (shardLen <? zlen payload)
              then udpDecodeNodeWeights (drop (Z.to_nat shardLen) payload) else Some [] in
            match weights with
            | None => Some (false, c)
            | Some ws =>
                let isSnapshot := (MsgType hdr =? UDPMsgConfigSnapshot) ||
                                  negb (Z.land (Flags hdr) UDPFlagSnapshot =? 0) in
                applyLimits now c hdr limits ws isSnapshot
            end
        else if MsgType hdr =? UDPMsgMigrationBarrier then Some (true, markFresh now c)
        else Some (false, c)
  end.

(** ** Staleness *)

Definition tightenCanaryFloor (c : UDPControl) : option UDPControl :=
  match snapshot c with
  | None => Some c
  | Some snap =>
      let limits := mkLimits (NumShards (s_limits snap)) (Limits (s_limits snap)) 0 in
      limits' ← udpApplyCanaryFloor limits;
      let hdr := mkHeader udpMagic udpProtocolVersion UDPMsgConfigSnapshot UDPFlagSnapshot 0
        (s_epoch snap) (s_configHash snap) (s_slotMapVersion snap) (NumShards limits') 0 in
      Some (commitSnapshot c hdr limits' (s_nodeWeights snap))
  end.

(** The boolean says whether a configuration request is sent. *)
Definition checkStale (now : Z) (c : UDPControl) : option (bool * UDPControl) :=
  let last := lastPacketMono c in
  if last =? 0 then Some (false, c)
  else if now -64 last <=? syncInterval c *64 2 then Some (false, c)
  else if stale c then Some (false, with_stale c true)
  else c' ← tightenCanaryFloor (with_stale c true); Some (true, c').

(** The datagram of [sendConfigRequest]. *)
Definition configRequest (trackerID : Z) (c : UDPControl) : list Z :=
  let hash := match snapshot c with Some s => s_configHash s | None => replicate 16 0 end in
  let hdr := mkHeader udpMagic udpProtocolVersion UDPMsgConfigRequest 0 0 (currentEpoch c) hash
    0 0 28 in
  let buf := fst (udpEncodeHeader (replicate 76 0) hdr) in
  take 48 buf ++
    fst (udpEncodeConfigRequest (drop 48 buf) (mkRequestPayload trackerID (currentEpoch c) hash)).

(** ** The TCP snapshot path *)

Definition applyTCPSnapshot (now routingEpoch slotMapVersion : Z) (limits : UDPControlLimits)
    (c : UDPControl) : UDPControl :=
  if 0 <? NumShards limits then
    let hdr := mkHeader 0 0 0 0 0 routingEpoch (replicate 16 0) slotMapVersion
      (NumShards limits) 0 in
    markFresh now (with_epoch (commitSnapshot c hdr limits []) routingEpoch)
  else c.

(** ** The publisher *)

(** [buildLimits], with the answers of its three queries as arguments: the
    licence's request rate and daily cap (zero when absent) and the number
    of active regions when the deployment is multi-region. *)
Definition buildLimits (numShards maxRPS defaultRPS maxRPD : Z) (regions : option Z)
    : UDPControlLimits :=
  let n := if numShards <=? 0 then 1 else numShards in
  let n := if UDPMaxControlShards <? n then UDPMaxControlShards else n in
  let rps :=
    if 0 <? maxRPS then let s := maxRPS / n in if s =? 0 then 1 else s
    else if defaultRPS =? 0 then 50000 else defaultRPS in
  let rpd := match regions with
             | Some k => if (0 <? maxRPD) && (0 <? k) then maxRPD / k else 0
             | None => 0
             end in
  mkLimits n (replicate (Z.to_nat n) rps ++ replicate (16 - Z.to_nat n) 0) rpd.

(** [publishEpoch]: the new epoch counter and the datagram, if one is sent. *)
Definition publishEpoch (epoch nowNs slotVersion : Z) (limits : UDPControlLimits)
    (weights : list UDPNodeWeight) (isSnapshot : bool) : option (Z * list Z) :=
  let epoch := epoch +64 1 in
  let hash := ComputeUDPConfigHashWithWeights epoch slotVersion limits weights in
  let flags := if isSnapshot then UDPFlagSnapshot else 0 in
  let msgType := if isSnapshot then UDPMsgConfigSnapshot else UDPMsgQuotaEpoch in
  let hdr := mkHeader 0 0 0 flags nowNs epoch hash slotVersion 0 0 in
  '(pkt, n) ← EncodeQuotaEpochDatagramWithWeights (replicate 4096 0) msgType hdr limits weights;
  Some (epoch, take (Z.to_nat n) pkt).

(** ** What the publisher puts on the wire *)

Definition datagram_version (l : UDPControlLimits) (ws : list UDPNodeWeight) : Z :=
  if 0 <? zlen ws then udpProtocolVersion3
  else if 0 <? MaxRPD l then udpProtocolVersion2 else udpProtocolVersion.

Definition datagram_header (mt : Z) (hdr : UDPHeader) (l : UDPControlLimits)
    (ws : list UDPNodeWeight) : UDPHeader :=
  set_header hdr (datagram_version l ws)
    (if 0 <? zlen ws then Z.lor (Flags hdr) UDPFlagNodeWeights else Flags hdr) mt (NumShards l)
    (zlen (limits_wire l) + zlen (weights_wire ws)).

Definition datagram (mt : Z) (hdr : UDPHeader) (l : UDPControlLimits) (ws : list UDPNodeWeight)
    : list Z :=
  header_bytes (datagram_header mt hdr l ws) ++ limits_wire l ++ weights_wire ws.

Lemma weights_wire_bound ws : 0 <= zlen (weights_wire ws) <= 5186.
Proof.
  rewrite zlen_weights_wire. unfold udpNodeWeightsEncodedLen. destruct ws as [|w ws]; [lia|].
  assert (forall k l, 0 <= sumZ (map weight_len (take k l)) <= 81 * Z.of_nat k) as H.
  { induction k as [|k IH]; intros [|x l]; try (simpl; lia). cbn [take map sumZ].
    specialize (IH l). assert (18 <= weight_len x <= 81)
      by (pose proof (clip_len (NodeID x)); unfold weight_len; lia).
    lia. }
  specialize (H 64%nat (w :: ws)). unfold UDPMaxNodeWeights. lia.
Qed.

Lemma wire_length l ws :
  limits_ok l ->
  0 < zlen (limits_wire l) <= 136 /\
  in_u16 (zlen (limits_wire l) + zlen (weights_wire ws)) /\
  (if 0 <? MaxRPD l then udpShardPayloadLen (NumShards l) + 8
   else udpShardPayloadLen (NumShards l)) + udpNodeWeightsEncodedLen ws =
  zlen (limits_wire l) + zlen (weights_wire ws).
Proof.
  intros Hok. rewrite zlen_limits_wire, payload_len, <- zlen_weights_wire by done.
  pose proof (weights_wire_bound ws). pose proof (lo_shards _ Hok). unfold UDPMaxControlShards in *.
  unfold_ranges. destruct (0 <? MaxRPD l); lia.
Qed.

Lemma encode_datagram dst mt hdr l ws :
  limits_ok l -> length (ConfigHash hdr) = 16%nat ->
  zlen (datagram mt hdr l ws) <= zlen dst ->
  EncodeQuotaEpochDatagramWithWeights dst mt hdr l ws =
    Some (overwrite dst (datagram mt hdr l ws), zlen (datagram mt hdr l ws)).
Proof.
  intros Hok Hh Hd. unfold EncodeQuotaEpochDatagramWithWeights. cbv zeta.
  destruct (wire_length l ws Hok) as (Hlw & Hu & ->). rewrite (u16_id _ Hu).
  fold (datagram_version l ws). fold (datagram_header mt hdr l ws).
  unfold datagram in *. set (H := header_bytes _) in *. rewrite !zlen_app in *.
  pose proof (weights_wire_bound ws).
  assert (zlen H = 48) as HH by (unfold zlen, H; by rewrite length_header_bytes).
  change UDPHeaderSize with 48. replace (zlen dst <? _) with false by lia.
  unfold udpEncodeHeader. change UDPHeaderSize with 48. replace (zlen dst <? 48) with false by lia.
  fold H. change (Z.to_nat 48) with 48%nat.
  assert (length H = 48%nat) as HHn by (unfold zlen in HH; lia).
  assert (drop 48 (overwrite dst H) = drop 48 dst) as ->
    by (unfold overwrite; rewrite HHn, <- HHn, drop_app_length; done).
  assert (take 48 (overwrite dst H) = H) as ->
    by (unfold overwrite; rewrite <- HHn, take_app_length; done).
  assert (zlen (drop 48 dst) = zlen dst - 48) as Hd48
    by (unfold zlen in *; rewrite length_drop; lia).
  rewrite encode_shard_limits_wire by (done || lia). cbn [mbind option_bind].
  set (L := limits_wire l) in *. set (N := weights_wire ws) in *.
  assert (overwrite (drop 48 dst) L = L ++ drop (48 + length L) dst) as HL
    by (unfold overwrite; by rewrite drop_drop).
  rewrite HL. destruct (0 <? zlen ws) eqn:Ew.
  - assert (Z.to_nat (48 + zlen L) = length (H ++ L)) as Hn
      by (rewrite length_app; unfold zlen; lia).
    rewrite Hn, app_assoc, drop_app_length, take_app_length.
    rewrite encode_node_weights_wire
      by (fold N; unfold zlen in *; rewrite length_drop; lia).
    cbn [mbind option_bind]. fold N. f_equal. f_equal; [|lia].
    unfold overwrite. rewrite drop_drop, !length_app, <- !app_assoc. do 4 f_equal. lia.
  - assert (N = []) as HN by (destruct ws; [done|discriminate Ew]). rewrite HN.
    f_equal. f_equal; [|change (zlen (@nil Z)) with 0; lia].
    unfold overwrite. rewrite !app_nil_r, length_app, <- !app_assoc. do 3 f_equal. lia.
Qed.

Lemma take_overwrite dst bs : take (Z.to_nat (zlen bs)) (overwrite dst bs) = bs.
Proof. unfold overwrite, zlen. by rewrite Nat2Z.id, take_app_length. Qed.

(** ** What the tracker makes of it *)

(** One iteration of [recvLoop]: the socket read fills a 2048-byte buffer
    and drops the rest of a longer datagram. *)
Definition recv (now : Z) (c : UDPControl) (pkt : list Z) : option (bool * UDPControl) :=
  let buf := take 2048 pkt in
  if 0 <? zlen buf then ApplyPacket now c buf else Some (false, c).

Record publishable (mt : Z) (hdr : UDPHeader) (l : UDPControlLimits) (ws : list UDPNodeWeight)
    : Prop := {
  pb_limits : limits_ok l;
  pb_weights : Forall weight_ok ws;
  pb_type : mt = UDPMsgQuotaEpoch \/ mt = UDPMsgConfigSnapshot;
  pb_flags : Flags hdr = 0 \/ Flags hdr = UDPFlagSnapshot;
  pb_time : in_i64 (CoarseTimeNs hdr);
  pb_epoch : in_i64 (EpochID hdr);
  pb_hash : length (ConfigHash hdr) = 16%nat;
  pb_slot : in_i32 (SlotMapVersion hdr)
}.

Lemma datagram_header_ok mt hdr l ws :
  publishable mt hdr l ws -> header_ok (datagram_header mt hdr l ws).
Proof.
  intros [Hl Hw Ht Hf Hti He Hh Hs]. destruct (wire_length l ws Hl) as (_ & Hu & _).
  split; unfold datagram_header; cbn; auto.
  - unfold datagram_version. repeat case_if; done.
  - destruct Hf as [-> | ->]; case_if; vm_compute; split; (reflexivity || discriminate).
Qed.

(** The weight section as the receiver finds it: right after the limits, but
    after the daily cap only in a version 2 packet. *)
Definition sent_weights (l : UDPControlLimits) (ws : list UDPNodeWeight) : option (list UDPNodeWeight) :=
  match ws with
  | [] => Some []
  | _ => udpDecodeNodeWeights
           ((if 0 <? MaxRPD l then le_put 8 (MaxRPD l) else []) ++ weights_wire ws)
  end.

Definition is_snapshot (mt : Z) (hdr : UDPHeader) : bool :=
  (mt =? UDPMsgConfigSnapshot) || (Flags hdr =? UDPFlagSnapshot).

Lemma zlen_datagram mt hdr l ws :
  length (ConfigHash hdr) = 16%nat ->
  zlen (datagram mt hdr l ws) = 48 + (zlen (limits_wire l) + zlen (weights_wire ws)).
Proof.
  intros H. unfold datagram. rewrite !zlen_app. unfold zlen at 1.
  by rewrite length_header_bytes.
Qed.

Lemma apply_datagram now c mt hdr l ws :
  publishable mt hdr l ws ->
  ApplyPacket now c (datagram mt hdr l ws) =
    let H := datagram_header mt hdr l ws in
    let c' := note_packet now H c in
    match sent_weights l ws with
    | None => Some (false, c')
    | Some ws' =>
        applyLimits now c' H (received (datagram_version l ws) l) ws' (is_snapshot mt hdr)
    end.
Proof.
  intros Hp. pose proof (datagram_header_ok _ _ _ _ Hp) as Hh.
  destruct Hp as [Hl Hw Ht Hf Hti He Hhash Hs].
  destruct (wire_length l ws Hl) as (Hlw & _ & _). pose proof (weights_wire_bound ws) as Hww.
  unfold ApplyPacket. rewrite zlen_datagram by done. change UDPHeaderSize with 48.
  replace (48 + (zlen (limits_wire l) + zlen (weights_wire ws)) <? 48) with false by lia.
  unfold datagram at 1. rewrite decode_header_bytes by done. cbv zeta.
  assert (drop (Z.to_nat 48) (datagram mt hdr l ws) = limits_wire l ++ weights_wire ws) as ->.
  { unfold datagram. change (Z.to_nat 48) with 48%nat.
    rewrite <- (length_header_bytes (datagram_header mt hdr l ws)) by done.
    apply drop_app_length. }
  change (PayloadLen (datagram_header mt hdr l ws)) with
    (zlen (limits_wire l) + zlen (weights_wire ws)).
  rewrite <- zlen_app, Z.ltb_irrefl, take_zlen.
  change (MsgType (datagram_header mt hdr l ws)) with mt.
  change (HdrShards (datagram_header mt hdr l ws)) with (NumShards l).
  change (Version (datagram_header mt hdr l ws)) with (datagram_version l ws).
  replace ((mt =? UDPMsgQuotaEpoch) || (mt =? UDPMsgConfigSnapshot)) with true
    by (destruct Ht as [-> | ->]; done).
  assert (weights_wire ws = [] \/ datagram_version l ws <> udpProtocolVersion2) as Hv
    by (destruct ws; [by left | right; unfold datagram_version; done]).
  rewrite decode_shard_limits_wire by done. cbn [mbind option_bind negb].
  rewrite payload_len by done. pose proof (zlen_active l Hl) as Ha.
  assert ((mt =? UDPMsgConfigSnapshot) ||
    negb (Z.land (Flags (datagram_header mt hdr l ws)) UDPFlagSnapshot =? 0) =
    is_snapshot mt hdr) as ->.
  { unfold is_snapshot, datagram_header. cbn [set_header Flags].
    destruct Hf as [-> | ->]; destruct (0 <? zlen ws); done. }
  destruct ws as [|w ws].
  - change (weights_wire []) with (@nil Z) in *. rewrite app_nil_r.
    replace (_ <? zlen (limits_wire l)) with false.
    { rewrite andb_false_r. done. }
    rewrite zlen_limits_wire by done. unfold datagram_version.
    change (0 <? zlen (@nil UDPNodeWeight)) with false. destruct (0 <? MaxRPD l); cbn; lia.
  - change (datagram_version l (w :: ws)) with udpProtocolVersion3.
    change (udpProtocolVersion3 =? udpProtocolVersion2) with false.
    change (udpProtocolVersion3 <=? udpProtocolVersion3) with true. cbn [orb andb]. cbn iota.
    assert (limits_wire l ++ weights_wire (w :: ws) = limit_bytes (active l) ++
      (if 0 <? MaxRPD l then le_put 8 (MaxRPD l) else []) ++ weights_wire (w :: ws)) as ->
      by (unfold limits_wire; by rewrite <- app_assoc).
    assert (Z.to_nat (8 * NumShards l) = length (limit_bytes (active l))) as ->.
    { pose proof (zlen_limit_bytes (active l)). unfold zlen in *. lia. }
    rewrite drop_app_length. rewrite zlen_app, zlen_limit_bytes, Ha.
    set (tail := _ ++ weights_wire (w :: ws)).
    assert (0 < zlen tail) as Htail.
    { unfold tail, weights_wire. rewrite !zlen_app, zlen_le_put.
      pose proof (zlen_nonneg (if 0 <? MaxRPD l then le_put 8 (MaxRPD l) else [])).
      pose proof (zlen_nonneg (weights_bytes (take UDPMaxNodeWeights (w :: ws)))). lia. }
    replace (8 * NumShards l <? 8 * NumShards l + zlen tail) with true by lia. done.
Qed.

Lemma recv_datagram now c mt hdr l ws :
  length (ConfigHash hdr) = 16%nat -> zlen (datagram mt hdr l ws) <= 2048 ->
  recv now c (datagram mt hdr l ws) = ApplyPacket now c (datagram mt hdr l ws).
Proof.
  intros Hh Hlen. pose proof (zlen_datagram mt hdr l ws Hh) as Hz. unfold recv.
  rewrite (take_ge (datagram _ _ _ _)) by (unfold zlen in Hlen; lia).
  pose proof (zlen_nonneg (limits_wire l)). pose proof (zlen_nonneg (weights_wire ws)).
  by replace (0 <? zlen (datagram mt hdr l ws)) with true by lia.
Qed.

Lemma length_config_hash e v l ws : length (ComputeUDPConfigHashWithWeights e v l ws) = 16%nat.
Proof. unfold ComputeUDPConfigHashWithWeights. by rewrite length_rev, length_le_put. Qed.

(** The header [publishEpoch] builds for epoch [e]. *)
Definition publish_header (e nowNs slotVersion : Z) (l : UDPControlLimits)
    (ws : list UDPNodeWeight) (isSnapshot : bool) : UDPHeader :=
  mkHeader 0 0 0 (if isSnapshot then UDPFlagSnapshot else 0) nowNs e
    (ComputeUDPConfigHashWithWeights e slotVersion l ws) slotVersion 0 0.
Definition publish_type (isSnapshot : bool) : Z :=
  if isSnapshot then UDPMsgConfigSnapshot else UDPMsgQuotaEpoch.

Record publish_ok (e nowNs slotVersion : Z) (l : UDPControlLimits) (ws : list UDPNodeWeight)
    : Prop := {
  po_epoch : 0 <= e < max_i64;
  po_time : in_i64 nowNs;
  po_slot : in_i32 slotVersion;
  po_limits : limits_ok l;
  po_weights : Forall weight_ok ws
}.

Lemma publish_publishable e nowNs v l ws sn :
  publish_ok e nowNs v l ws ->
  publishable (publish_type sn) (publish_header (e + 1) nowNs v l ws sn) l ws.
Proof.
  intros [He Ht Hs Hl Hw]. split; auto; unfold publish_header, publish_type; cbn.
  - destruct sn; auto.
  - destruct sn; auto.
  - go_lia.
Qed.

Lemma publish_datagram e nowNs v l ws sn :
  publish_ok e nowNs v l ws ->
  let D := datagram (publish_type sn) (publish_header (e + 1) nowNs v l ws sn) l ws in
  zlen D <= 4096 -> publishEpoch e nowNs v l ws sn = Some (e + 1, D).
Proof.
  intros Hp D Hlen. pose proof (publish_publishable e nowNs v l ws sn Hp) as Hpb.
  destruct Hp as [He Ht Hs Hl Hw]. unfold publishEpoch. cbv zeta.
  rewrite i64_id by go_lia. fold (publish_header (e + 1) nowNs v l ws sn).
  fold (publish_type sn). rewrite encode_datagram; [|done|apply length_config_hash|].
  - cbn [mbind option_bind]. rewrite take_overwrite. done.
  - fold D. unfold zlen at 2. by rewrite length_replicate.
Qed.

Definition adopted (now : Z) (c c' : UDPControl) (e slotVersion : Z) (hash : list Z)
    (l : UDPControlLimits) (ws : list UDPNodeWeight) : Prop :=
  currentEpoch c' = e /\ snapshot c' = Some (mkSnapshot e hash slotVersion l ws) /\
  quotaMap c' = BuildIngressQuotaMap e l (numWorkers c) /\ stale c' = false /\
  lastPacketMono c' = now.

(** Publisher and tracker agree.  A tracker that has applied the
    publisher's previous epoch (or none yet) and receives the datagram of
    the next epoch adopts exactly the published limits, slot-map version,
    hash and node weights, rebuilds its quota map from them and becomes
    fresh, provided the datagram fits the 2048-byte receive buffer and does
    not carry both node weights and a daily cap. *)
Theorem published_epoch_adopted now c e nowNs v l ws sn :
  publish_ok e nowNs v l ws -> ws = [] \/ MaxRPD l = 0 ->
  currentEpoch c = e \/ currentEpoch c = 0 -> 0 < numWorkers c ->
  48 + (zlen (limits_wire l) + zlen (weights_wire ws)) <= 2048 ->
  exists pkt c', publishEpoch e nowNs v l ws sn = Some (e + 1, pkt) /\
    recv now c pkt = Some (true, c') /\
    adopted now c c' (e + 1) v (ComputeUDPConfigHashWithWeights (e + 1) v l ws)
      (received (datagram_version l ws) l)
      (map received_weight (take UDPMaxNodeWeights ws)).
Proof.
  intros Hp Hone Hcur Hw Hlen. pose proof (publish_publishable e nowNs v l ws sn Hp) as Hpb.
  pose proof (zlen_datagram (publish_type sn) (publish_header (e + 1) nowNs v l ws sn) l ws
    (length_config_hash _ _ _ _)) as Hz.
  eexists. eexists. split; [apply publish_datagram; [done|lia]|].
  rewrite recv_datagram, apply_datagram by (done || apply length_config_hash || lia). cbv zeta.
  assert (sent_weights l ws = Some (map received_weight (take UDPMaxNodeWeights ws))) as ->.
  { unfold sent_weights. destruct ws as [|w ws]; [done|].
    destruct Hone as [?|Hr]; [done|]. rewrite Hr. change (0 <? 0) with false. cbn [app].
    apply decode_node_weights_wire; [done|apply Hp]. }
  unfold applyLimits. cbn [note_packet currentEpoch].
  change (EpochID (datagram_header _ (publish_header (e + 1) _ _ _ _ _) _ _)) with (e + 1).
  pose proof (po_epoch _ _ _ _ _ Hp) as He.
  replace (e + 1 <=? currentEpoch c) with false by lia.
  assert ((e + 1 =? currentEpoch c +64 1) || (currentEpoch c =? 0) = true) as ->.
  { destruct Hcur as [-> | ->]; [rewrite i64_id by go_lia|]; rewrite ?Z.eqb_refl; auto with bool. }
  split; [done|]. split; [done|]. split; [done|]. split; [|done]. cbn.
  unfold BuildIngressQuotaMap. pose proof (lo_shards _ (po_limits _ _ _ _ _ Hp)).
  cbn [received NumShards]. by replace ((NumShards l =? 0) || (numWorkers c <=? 0)) with false by lia.
Qed.

Definition demo_clock : Clock := mkClock 1700000000000 0.
Definition demo_tracker : UDPControl := NewUDPControl true 0 2 4 0 demo_clock.

Lemma demo_publish_ok : publish_ok 0 1700000000000000000 3 demo_limits [].
Proof. split; [cbn; go_lia | go_lia | go_lia | apply demo_limits_ok | constructor]. Qed.

Lemma published_epoch_adopted_witness :
  exists pkt c', publishEpoch 0 1700000000000000000 3 demo_limits [] false = Some (1, pkt) /\
    recv 77 demo_tracker pkt = Some (true, c') /\
    adopted 77 demo_tracker c' 1 3 (ComputeUDPConfigHashWithWeights 1 3 demo_limits [])
      demo_limits [].
Proof.
  apply (published_epoch_adopted 77 demo_tracker 0 1700000000000000000 3 demo_limits [] false);
    [apply demo_publish_ok | by left | by right | reflexivity | vm_compute; discriminate].
Defined.

(** What a rejected packet leaves alone. *)
Definition same_policy (c c' : UDPControl) : Prop :=
  currentEpoch c' = currentEpoch c /\ snapshot c' = snapshot c /\ quotaMap c' = quotaMap c /\
  stale c' = stale c.

Lemma first_word_of_cap m rest :
  0 <= m -> le_get (sub (le_put 8 m ++ rest) 0 2) = m mod 65536.
Proof.
  intros Hm. change (sub (le_put 8 m ++ rest) 0 2) with [m mod 256; m / 256 mod 256].
  cbn [le_get]. change 65536 with (256 * 256). rewrite Z.rem_mul_r by lia. lia.
Qed.

(** The version 3 packet cannot carry a daily cap.  The encoder puts
    the 8-byte cap between the limits and the node weights whenever the cap
    is set, but the receiver skips it only in version 2, so it reads the
    cap's low 16 bits as the weight count: whenever that count is above 64
    every epoch of a deployment with both is rejected and the tracker keeps
    its old limits. *)
Theorem multi_region_epoch_rejected now c mt hdr l ws :
  publishable mt hdr l ws -> ws <> [] -> 64 < MaxRPD l mod 65536 ->
  exists c', ApplyPacket now c (datagram mt hdr l ws) = Some (false, c') /\ same_policy c c'.
Proof.
  intros Hp Hne Hm. rewrite apply_datagram by done. cbv zeta.
  pose proof (lo_rpd _ (pb_limits _ _ _ _ Hp)) as Hr. unfold sent_weights.
  destruct ws as [|w ws]; [done|].
  assert (0 < MaxRPD l).
  { destruct (decide (MaxRPD l = 0)) as [E|E]; [rewrite E in Hm; discriminate Hm | go_lia]. }
  replace (0 <? MaxRPD l) with true by lia. unfold udpDecodeNodeWeights.
  rewrite zlen_app, zlen_le_put. pose proof (zlen_nonneg (weights_wire (w :: ws))).
  change (Z.of_nat 8) with 8. replace (8 + zlen (weights_wire (w :: ws)) <? 2) with false by lia.
  rewrite first_word_of_cap by lia. change (Z.of_nat UDPMaxNodeWeights) with 64.
  replace (MaxRPD l mod 65536 =? 0) with false by lia.
  replace (64 <? MaxRPD l mod 65536) with true by lia. eexists. by split.
Qed.

Lemma multi_region_epoch_rejected_witness :
  exists c', ApplyPacket 5 demo_tracker
      (datagram UDPMsgQuotaEpoch (publish_header 1 1700000000000000000 3 demo_limits demo_weights false)
        demo_limits demo_weights) = Some (false, c') /\ same_policy demo_tracker c'.
Proof.
  apply (multi_region_epoch_rejected 5 demo_tracker UDPMsgQuotaEpoch); [|done|reflexivity].
  apply (publish_publishable 0 1700000000000000000 3 demo_limits demo_weights false).
  split; [cbn; go_lia | go_lia | go_lia | apply demo_limits_ok | repeat constructor; cbn; go_lia].
Defined.

(** A datagram longer than the tracker's receive buffer is always
    discarded.  The publisher builds up to 4096 bytes, [recvLoop] reads
    2048, and the truncated payload is shorter than the header announces, so
    a deployment with enough node weights never gets an epoch through. *)
Theorem oversized_datagram_discarded now c mt hdr l ws :
  publishable mt hdr l ws -> 2048 < zlen (datagram mt hdr l ws) ->
  recv now c (datagram mt hdr l ws) = Some (false, c).
Proof.
  intros Hp Hlen. pose proof (datagram_header_ok _ _ _ _ Hp) as Hh.
  pose proof (zlen_datagram mt hdr l ws (pb_hash _ _ _ _ Hp)) as Hz.
  pose proof (length_header_bytes (datagram_header mt hdr l ws) (ho_hash _ Hh)) as HH.
  unfold recv. set (buf := take 2048 _).
  assert (zlen buf = 2048) as Hb by (unfold buf, zlen in *; rewrite length_take; lia).
  rewrite Hb. change (0 <? 2048) with true. cbn iota. unfold ApplyPacket. rewrite Hb.
  change (2048 <? UDPHeaderSize) with false. cbn iota.
  assert (buf = header_bytes (datagram_header mt hdr l ws) ++
    take 2000 (limits_wire l ++ weights_wire ws)) as Ebuf.
  { unfold buf, datagram. rewrite take_app, HH. rewrite (take_ge (header_bytes _)) by lia. done. }
  rewrite Ebuf, decode_header_bytes by done. rewrite <- Ebuf.
  change (PayloadLen (datagram_header mt hdr l ws)) with
    (zlen (limits_wire l) + zlen (weights_wire ws)).
  replace (zlen (drop (Z.to_nat UDPHeaderSize) buf) <? _) with true; [done|].
  change (Z.to_nat UDPHeaderSize) with 48%nat. unfold zlen at 1. rewrite length_drop.
  unfold zlen in Hb. symmetry. apply Z.ltb_lt. lia.
Qed.

Definition many_weights : list UDPNodeWeight := replicate 40 (mkWeight (replicate 63 97) "" 1 1 0).

Lemma oversized_datagram_discarded_witness :
  recv 5 demo_tracker (datagram UDPMsgQuotaEpoch
      (publish_header 1 1700000000000000000 3 (buildLimits 4 0 0 0 None) many_weights false)
      (buildLimits 4 0 0 0 None) many_weights) = Some (false, demo_tracker).
Proof.
  apply (oversized_datagram_discarded 5 demo_tracker); [|vm_compute; reflexivity].
  apply (publish_publishable 0 1700000000000000000 3 (buildLimits 4 0 0 0 None) many_weights false).
  split; [cbn; go_lia | go_lia | go_lia | |].
  - split; [by split | done | | by split]. apply (bool_decide_unpack _). vm_compute. exact I.
  - apply Forall_replicate. by split.
Defined.

(** ** Epoch safety *)

(** The policy a packet carries, read off the bytes: the part of the payload
    that holds node weights, where there is one, and whether the packet is a
    snapshot. *)
Definition packet_payload (buf : list Z) (hdr : UDPHeader) : list Z :=
  take (Z.to_nat (PayloadLen hdr)) (drop 48 buf).

Definition limits_len (hdr : UDPHeader) : Z :=
  udpShardPayloadLen (HdrShards hdr) + (if Version hdr =? udpProtocolVersion2 then 8 else 0).

Definition weight_section (hdr : UDPHeader) (payload : list Z) : option (list Z) :=
  if ((udpProtocolVersion3 <=? Version hdr) || Z.testbit (Flags hdr) 1) &&
     (limits_len hdr <? zlen payload)
  then Some (drop (Z.to_nat (limits_len hdr)) payload) else None.

Definition snapshot_packet (hdr : UDPHeader) : Prop :=
  MsgType hdr = UDPMsgConfigSnapshot \/ Z.testbit (Flags hdr) 0 = true.

Record epoch_packet (buf : list Z) (hdr : UDPHeader) (l : UDPControlLimits)
    (ws : list UDPNodeWeight) : Prop := {
  ep_header : udpDecodeHeader buf = Some hdr;
  ep_type : MsgType hdr = UDPMsgQuotaEpoch \/ MsgType hdr = UDPMsgConfigSnapshot;
  ep_length : 48 <= zlen buf /\ PayloadLen hdr <= zlen (drop 48 buf);
  ep_limits : udpDecodeShardLimits (packet_payload buf hdr) (HdrShards hdr) (Version hdr)
                zeroLimits = Some (true, l);
  ep_weights : match weight_section hdr (packet_payload buf hdr) with
               | Some section => udpDecodeNodeWeights section = Some ws
               | None => ws = []
               end
}.

(** The epochs a tracker may go to: newer ones only, and over a gap only
    with a snapshot or with limits that tighten those in force. *)
Definition may_adopt (c : UDPControl) (hdr : UDPHeader) (l : UDPControlLimits) : Prop :=
  currentEpoch c < EpochID hdr /\
  (EpochID hdr = currentEpoch c +64 1 \/ currentEpoch c = 0 \/ snapshot_packet hdr \/
   exists prev, snapshot c = Some prev /\
     udpLimitsTightening (Some (s_limits prev)) (Some l) = true).

(** The tracker after adopting a packet's policy: all of it is the packet's,
    and the quota counters start again from zero. *)
Definition fresh_policy (now : Z) (c : UDPControl) (hdr : UDPHeader) (l : UDPControlLimits)
    (ws : list UDPNodeWeight) (c' : UDPControl) : Prop :=
  currentEpoch c' = EpochID hdr /\
  snapshot c' = Some (mkSnapshot (EpochID hdr) (ConfigHash hdr) (SlotMapVersion hdr) l ws) /\
  quotaMap c' = (if (NumShards l =? 0) || (numWorkers c <=? 0) then quotaMap c
                 else BuildIngressQuotaMap (EpochID hdr) l (numWorkers c)) /\
  numWorkers c' = numWorkers c /\ stale c' = false /\ lastPacketMono c' = now.

Definition policy_kept (c c' : UDPControl) : Prop :=
  currentEpoch c' = currentEpoch c /\ snapshot c' = snapshot c /\ quotaMap c' = quotaMap c /\
  numWorkers c' = numWorkers c.

Lemma flag_bit f n : 0 <= n -> negb (Z.land f (2 ^ n) =? 0) = Z.testbit f n.
Proof.
  intros Hn. destruct (Z.testbit f n) eqn:E.
  - apply negb_true_iff, Z.eqb_neq. intros H.
    assert (Z.testbit (Z.land f (2 ^ n)) n = true) as Ht
      by (rewrite Z.land_spec, E, Z.pow2_bits_true by done; done).
    rewrite H, Z.bits_0 in Ht. done.
  - apply negb_false_iff, Z.eqb_eq, Z.bits_inj'. intros k Hk. rewrite Z.land_spec, Z.bits_0.
    destruct (decide (k = n)) as [->|Hne]; [by rewrite E|].
    rewrite Z.pow2_bits_false by lia. apply andb_false_r.
Qed.

Lemma snapshot_flag hdr :
  (MsgType hdr =? UDPMsgConfigSnapshot) || negb (Z.land (Flags hdr) UDPFlagSnapshot =? 0) = true <->
  snapshot_packet hdr.
Proof.
  change UDPFlagSnapshot with (2 ^ 0). rewrite flag_bit by lia. unfold snapshot_packet.
  rewrite orb_true_iff, Z.eqb_eq. done.
Qed.

(** [applyLimits] adopts what [may_adopt] admits, and nothing else. *)
Lemma applyLimits_spec now c hdr l ws sn ok c' :
  (sn = true <-> snapshot_packet hdr) ->
  applyLimits now c hdr l ws sn = Some (ok, c') ->
  (ok = true /\ may_adopt c hdr l /\ fresh_policy now c hdr l ws c') \/
  (ok = false /\ ~ may_adopt c hdr l /\ c' = c).
Proof.
  intros Hsn H. unfold applyLimits in H. cbv zeta in H.
  assert (forall h, fresh_policy now c hdr l ws
    (with_hash (markFresh now (with_epoch (commitSnapshot c hdr l ws) (EpochID hdr))) h) /\
    fresh_policy now c hdr l ws
      (markFresh now (with_epoch (commitSnapshot c hdr l ws) (EpochID hdr)))) as Hf.
  { intros h. unfold fresh_policy, commitSnapshot, BuildIngressQuotaMap. cbn.
    destruct ((NumShards l =? 0) || (numWorkers c <=? 0)); split_and!; done. }
  destruct (EpochID hdr <=? currentEpoch c) eqn:E1.
  { simplify_eq. right. split; [done|]. split; [|done]. intros [? _]. lia. }
  destruct ((EpochID hdr =? currentEpoch c +64 1) || (currentEpoch c =? 0)) eqn:E2.
  { simplify_eq. left. split; [done|]. split; [|exact (proj2 (Hf []))]. split; lia. }
  destruct (snapshot c) as [prev|] eqn:Es; [|done]. cbn [mbind option_bind] in H.
  destruct (udpLimitsTightening _ _) eqn:E3.
  { simplify_eq. left. split; [done|]. split; [|exact (proj2 (Hf []))]. split; [lia|]. rewrite Es. eauto 6. }
  destruct sn; simplify_eq.
  - left. split; [done|]. split; [|exact (proj1 (Hf _))]. split; [lia|]. right; right; left. by apply Hsn.
  - right. split; [done|]. split; [|done]. intros (_ & [?|[?|[Hp|(p & Hp & Ht)]]]); try lia.
    + by apply Hsn in Hp.
    + rewrite Es in Hp. simplify_eq. congruence.
Qed.

(** A packet that does not carry a policy changes none, and one that does is
    handed to [applyLimits] as it was decoded. *)
Lemma ApplyPacket_cases now c buf ok c' :
  ApplyPacket now c buf = Some (ok, c') ->
  (policy_kept c c' /\ forall hdr l ws, ~ epoch_packet buf hdr l ws) \/
  (exists hdr l ws sn, epoch_packet buf hdr l ws /\ (sn = true <-> snapshot_packet hdr) /\
     applyLimits now (note_packet now hdr c) hdr l ws sn = Some (ok, c')).
Proof.
  unfold ApplyPacket. intros H.
  destruct (zlen buf <? UDPHeaderSize) eqn:E0.
  { simplify_eq. left. split; [done|]. intros hdr l ws [_ _ [? _] _ _].
    change UDPHeaderSize with 48 in E0. lia. }
  destruct (udpDecodeHeader buf) as [hdr|] eqn:Eh.
  2:{ simplify_eq. left. split; [done|]. intros ??? [??]. congruence. }
  change (Z.to_nat UDPHeaderSize) with 48%nat in H.
  destruct (zlen (drop 48 buf) <? PayloadLen hdr) eqn:E1.
  { simplify_eq. left. split; [done|]. intros ??? [? _ [_ ?] _ _]. simplify_eq. lia. }
  cbv zeta in H. fold (packet_payload buf hdr) in H.
  destruct ((MsgType hdr =? _) || _) eqn:Et.
  2:{ left. split; [|intros ??? [? Ht _ _ _]; simplify_eq; lia].
      by destruct (MsgType hdr =? UDPMsgMigrationBarrier); simplify_eq. }
  destruct (udpDecodeShardLimits (packet_payload buf hdr) _ _ _) as [[ok1 l]|] eqn:El; [|done].
  cbn [mbind option_bind] in H. destruct ok1; cbn [negb] in H.
  2:{ simplify_eq. left. split; [done|]. intros ??? [? _ _ ? _]. congruence. }
  assert ((if Version hdr =? udpProtocolVersion2 then udpShardPayloadLen (HdrShards hdr) + 8
    else udpShardPayloadLen (HdrShards hdr)) = limits_len hdr) as Hl
    by (unfold limits_len; destruct (Version hdr =? udpProtocolVersion2); lia).
  rewrite Hl in H. change UDPFlagNodeWeights with (2 ^ 1) in H. rewrite flag_bit in H by lia.
  assert (forall ws, epoch_packet buf hdr l ws <->
    match weight_section hdr (packet_payload buf hdr) with
    | Some section => udpDecodeNodeWeights section = Some ws
    | None => ws = []
    end) as Hep.
  { intros ws. split; [intros [? _ _ _ ?]; by simplify_eq|]. intros Hw.
    split; [done | lia | change UDPHeaderSize with 48 in E0; lia | done | done]. }
  unfold weight_section in Hep.
  destruct (_ && _) in H, Hep.
  - destruct (udpDecodeNodeWeights _) as [ws|] eqn:Ew.
    + right. exists hdr, l, ws. eexists. split; [by apply Hep|]. split; [|exact H].
      apply snapshot_flag.
    + simplify_eq. left. split; [done|]. intros h2 l2 ws2 He.
      pose proof (ep_header _ _ _ _ He). pose proof (ep_limits _ _ _ _ He). simplify_eq.
      apply Hep in He. congruence.
  - right. exists hdr, l, []. eexists. split; [by apply Hep|]. split; [|exact H].
    apply snapshot_flag.
Qed.

(** C31: epoch safety of [ApplyPacket], for any bytes and any tracker
    state.  A packet is adopted exactly when it is a well-formed quota
    packet whose epoch is newer and, where it skips epochs on a tracker that
    has one, is a snapshot or tightens the limits in force.  Adopting it
    makes the whole policy the packet's: the epoch, the limits, the node
    weights, the slot-map version and hash, and a quota map built from
    those limits (the old map stays only if the packet names no shard).
    Any other packet leaves epoch, limits, weights and quota map as they
    were; the epoch never goes back. *)
Theorem epoch_safety now c buf ok c' :
  ApplyPacket now c buf = Some (ok, c') ->
  currentEpoch c <= currentEpoch c' /\
  ((exists hdr l ws, epoch_packet buf hdr l ws /\ may_adopt c hdr l /\ ok = true /\
      fresh_policy now c hdr l ws c') \/
   ((forall hdr l ws, epoch_packet buf hdr l ws -> ~ may_adopt c hdr l) /\ policy_kept c c')).
Proof.
  intros H. apply ApplyPacket_cases in H as [[Hk Hn]|(hdr & l & ws & sn & Hp & Hsn & H)].
  { split; [destruct Hk as (-> & _); lia|]. right. split; [|done].
    intros hdr l ws Hp. by destruct (Hn hdr l ws). }
  apply applyLimits_spec in H as [(Hok & Hm & Hf)|(_ & Hm & ->)]; [| |done].
  - split; [|left; exists hdr, l, ws; done].
    destruct Hm as [Hlt _], Hf as (-> & _). cbn in Hlt. lia.
  - split; [cbn; lia|]. right. split; [|done]. intros h2 l2 ws2 Hp2.
    pose proof (ep_header _ _ _ _ Hp). pose proof (ep_header _ _ _ _ Hp2). simplify_eq.
    pose proof (ep_limits _ _ _ _ Hp). pose proof (ep_limits _ _ _ _ Hp2). simplify_eq.
    exact Hm.
Qed.

Lemma epoch_safety_witness :
  exists c', ApplyPacket 9 demo_tracker
    (datagram UDPMsgQuotaEpoch (publish_header 4 0 3 (buildLimits 4 0 0 0 None) demo_weights false) (buildLimits 4 0 0 0 None)
       demo_weights) = Some (true, c') /\ currentEpoch demo_tracker <= currentEpoch c' /\
    currentEpoch c' = 4.
Proof.
  eexists. split; [vm_compute; reflexivity|]. split; [|reflexivity].
  refine (proj1 (epoch_safety 9 demo_tracker
    (datagram UDPMsgQuotaEpoch (publish_header 4 0 3 (buildLimits 4 0 0 0 None) demo_weights false) (buildLimits 4 0 0 0 None)
       demo_weights) true _ _)).
  vm_compute. reflexivity.
Defined.

(** One unauthenticated datagram crashes the tracker: any packet with
    a valid magic and version, of a quota type, that announces between 17
    and 255 shards makes [ApplyPacket] panic, whatever its payload and the
    tracker's state. *)
Theorem hostile_packet_panics now c hdr payload :
  header_ok hdr -> zlen payload = PayloadLen hdr ->
  MsgType hdr = UDPMsgQuotaEpoch \/ MsgType hdr = UDPMsgConfigSnapshot ->
  16 < HdrShards hdr < 256 ->
  ApplyPacket now c (header_bytes hdr ++ payload) = None.
Proof.
  intros Hh Hlen Ht Hs. pose proof (length_header_bytes hdr (ho_hash _ Hh)) as HH.
  unfold ApplyPacket. rewrite zlen_app. pose proof (zlen_nonneg payload).
  replace (zlen (header_bytes hdr)) with 48 by (unfold zlen; by rewrite HH).
  replace (48 + zlen payload <? UDPHeaderSize) with false by (change UDPHeaderSize with 48; lia).
  rewrite decode_header_bytes by done. cbv zeta.
  change (Z.to_nat UDPHeaderSize) with 48%nat. rewrite <- HH, drop_app_length.
  rewrite <- Hlen, Z.ltb_irrefl, take_zlen.
  replace ((MsgType hdr =? UDPMsgQuotaEpoch) || (MsgType hdr =? UDPMsgConfigSnapshot)) with true
    by (destruct Ht as [-> | ->]; done).
  unfold udpDecodeShardLimits, udpShardPayloadLen, UDPMaxControlShards.
  replace (16 <? HdrShards hdr) with true by lia. rewrite orb_true_r.
  replace (zlen payload <? 0) with false by lia.
  by rewrite decode_limits_panics by lia.
Qed.

Lemma hostile_packet_panics_witness :
  ApplyPacket 0 demo_tracker
    (header_bytes (mkHeader udpMagic 1 1 0 0 1 (replicate 16 0) 0 200 0) ++ []) = None.
Proof.
  apply (hostile_packet_panics 0 demo_tracker (mkHeader udpMagic 1 1 0 0 1 (replicate 16 0) 0 200 0) []);
    [|reflexivity|by left|by split].
  split; try reflexivity; vm_compute; split; (reflexivity || discriminate).
Defined.

(** ** The ingress quota *)

(** The cells of one shard, and the requests they have admitted. *)
Definition shard_cells (m : IngressQuotaMap) (s : Z) : list IngressQuotaCell :=
  take (Z.to_nat (q_numWorkers m)) (drop (Z.to_nat (s * q_numWorkers m)) (cells m)).
Definition used (m : IngressQuotaMap) (s : Z) : Z := sumZ (map currentOps (shard_cells m s)).

(** Admissions of shard [s] along a sequence of requests. *)
Fixpoint admitted (m : IngressQuotaMap) (s : Z) (reqs : list (Z * Z)) : Z :=
  match reqs with
  | [] => 0
  | (shard, worker) :: rest =>
      let '(ok, m') := TryAcquire m shard worker in
      (if ok && (shard =? s) then 1 else 0) + admitted m' s rest
  end.

(** Every cell of the map is below its allowance, and the shards are laid
    out one after the other. *)
Record quota_wf (m : IngressQuotaMap) : Prop := {
  qw_workers : 0 < q_numWorkers m;
  qw_len : zlen (cells m) = q_numShards m * q_numWorkers m;
  qw_cells : Forall (fun c => 0 <= currentOps c <= maxAllowed c /\
    maxAllowed c < 18446744073709551615) (cells m)
}.

Definition limited (m : IngressQuotaMap) (s : Z) (per : Z) : Prop :=
  0 <= s < q_numShards m /\ 0 < per /\
  Forall (fun c => maxAllowed c = per) (shard_cells m s).

Lemma zlen_shard_cells m s :
  quota_wf m -> 0 <= s < q_numShards m -> zlen (shard_cells m s) = q_numWorkers m.
Proof.
  intros [Hw Hl _] Hs. unfold shard_cells, zlen in *. rewrite length_take, length_drop.
  assert ((s + 1) * q_numWorkers m <= q_numShards m * q_numWorkers m) by nia. lia.
Qed.

Definition set_cell (m : IngressQuotaMap) (idx : Z) (c : IngressQuotaCell) : IngressQuotaMap :=
  mkQuota (q_epoch m) (q_numShards m) (q_numWorkers m) (set_z (cells m) idx c).

Lemma shard_cells_set m s s' w c :
  0 <= s -> 0 <= s' -> 0 <= w < q_numWorkers m ->
  shard_cells (set_cell m (s * q_numWorkers m + w) c) s' =
    if s' =? s then <[Z.to_nat w := c]> (shard_cells m s) else shard_cells m s'.
Proof.
  intros Hs Hs' Hw. unfold shard_cells, set_cell, set_z. cbn [cells q_numWorkers].
  set (W := q_numWorkers m) in *.
  assert (0 <= s * W) by nia. assert (0 <= s' * W) by nia.
  destruct (Z.lt_trichotomy s' s) as [Hlt|[->|Hlt]].
  - replace (s' =? s) with false by lia. assert ((s' + 1) * W <= s * W) by nia.
    rewrite drop_insert_ge by lia. rewrite take_insert_ge; [done|]. lia.
  - rewrite Z.eqb_refl. rewrite drop_insert_ge by lia.
    replace (Z.to_nat (s * W + w) - Z.to_nat (s * W))%nat with (Z.to_nat w) by lia.
    by rewrite take_insert_lt by lia.
  - replace (s' =? s) with false by lia. assert ((s + 1) * W <= s' * W) by nia.
    by rewrite drop_insert_lt by lia.
Qed.

Lemma used_set m s s' w c old :
  0 <= s -> 0 <= s' -> 0 <= w < q_numWorkers m ->
  shard_cells m s !! Z.to_nat w = Some old ->
  used (set_cell m (s * q_numWorkers m + w) c) s' =
    used m s' + (if s' =? s then currentOps c - currentOps old else 0).
Proof.
  intros Hs Hs' Hw Ho. unfold used. rewrite shard_cells_set by done.
  destruct (s' =? s) eqn:E; [|lia]. replace s' with s by lia.
  change (map currentOps) with (fmap (M := list) currentOps).
  rewrite list_fmap_insert, (sumZ_insert _ _ (currentOps old)); [lia|].
  by rewrite list_lookup_fmap, Ho.
Qed.

Lemma shard_cell m s w :
  quota_wf m -> 0 <= s < q_numShards m -> 0 <= w < q_numWorkers m ->
  exists c, at_z (cells m) (s * q_numWorkers m + w) = Some c /\
    shard_cells m s !! Z.to_nat w = Some c.
Proof.
  intros Q Hs Hw. pose proof (qw_len _ Q) as Hl.
  assert ((s + 1) * q_numWorkers m <= q_numShards m * q_numWorkers m) by nia.
  destruct (at_z_Some (cells m) (s * q_numWorkers m + w)) as (c & Hc & Hn); [nia|].
  exists c. split; [done|]. unfold shard_cells.
  rewrite lookup_take_lt, lookup_drop by lia. rewrite <- Hn. f_equal. nia.
Qed.

Lemma Forall_shard_cells P m s : Forall P (cells m) -> Forall P (shard_cells m s).
Proof. intros H. unfold shard_cells. by apply Forall_take, Forall_drop. Qed.

(** One request: dimensions, well-formedness and allowances are kept, and an
    admission of a limited shard uses exactly one unit of it. *)
Lemma try_acquire_step m sh w ok m' :
  quota_wf m -> 0 <= w -> TryAcquire m sh w = (ok, m') ->
  quota_wf m' /\ q_numShards m' = q_numShards m /\ q_numWorkers m' = q_numWorkers m /\
  forall s per, limited m s per ->
    limited m' s per /\ used m' s = used m s + (if ok && (sh =? s) then 1 else 0).
Proof.
  intros Q Hw H. unfold TryAcquire in H.
  destruct ((sh <? 0) || (w <? 0) || (q_numShards m <=? sh)) eqn:E1.
  { simplify_eq. split_and!; try done. intros s per Hlim. split; [done|].
    destruct Hlim as [Hs _]. replace (sh =? s) with false by lia. rewrite andb_false_r. lia. }
  set (w' := if q_numWorkers m <=? w then Z.rem w (q_numWorkers m) else w) in H.
  pose proof (qw_workers _ Q) as HW.
  assert (0 <= w' < q_numWorkers m) as Hw'.
  { unfold w'. destruct (q_numWorkers m <=? w) eqn:E; [|lia]. apply Z.rem_bound_pos; lia. }
  destruct (shard_cell m sh w' Q) as (c & Hc & Hcs); [lia|done|]. rewrite Hc in H.
  pose proof (qw_cells _ Q) as HC.
  assert (0 <= currentOps c <= maxAllowed c /\ maxAllowed c < 18446744073709551615) as Hcell.
  { rewrite Forall_lookup in HC. apply at_z_lookup in Hc. eauto. }
  destruct (maxAllowed c =? 0) eqn:E2.
  { simplify_eq. split_and!; try done. intros s per Hlim. split; [done|].
    destruct (decide (sh = s)) as [->|Hne].
    - destruct Hlim as (_ & Hp & Hall). rewrite Forall_lookup in Hall.
      specialize (Hall _ _ Hcs). lia.
    - replace (sh =? s) with false by lia. rewrite andb_false_r. lia. }
  cbv zeta in H. rewrite (u64_id (currentOps c + 1)) in H by go_lia.
  set (n := if maxAllowed c <? currentOps c + 1 then currentOps c else currentOps c + 1).
  assert (m' = set_cell m (sh * q_numWorkers m + w') (mkCell (maxAllowed c) n) /\
    ok = negb (maxAllowed c <? currentOps c + 1)) as [-> ->].
  { unfold set_cell, n. destruct (maxAllowed c <? currentOps c + 1); simplify_eq; [|done].
    split; [|done]. do 3 f_equal. unfold u64.
    replace (currentOps c + 1 + 18446744073709551615) with (currentOps c + 1 * 18446744073709551616)
      by lia. rewrite Z.mod_add, Z.mod_small by go_lia. done. }
  assert (0 <= n <= maxAllowed c /\ n - currentOps c =
    (if maxAllowed c <? currentOps c + 1 then 0 else 1)) as Hn.
  { unfold n. destruct (maxAllowed c <? currentOps c + 1) eqn:E; lia. }
  split_and!; [split|done|done|].
  - exact HW.
  - unfold set_cell. cbn. rewrite zlen_set. apply Q.
  - unfold set_cell, set_z. cbn. apply Forall_insert; [done|]. cbn. lia.
  - intros s per (Hs & Hp & Hall). split.
    + split; [done|]. split; [done|]. rewrite shard_cells_set by lia.
      destruct (s =? sh) eqn:E; [|done]. replace sh with s in * by lia.
      apply Forall_insert; [done|]. cbn. rewrite Forall_lookup in Hall. eauto.
    + rewrite (used_set m sh s w' _ c) by (done || lia). cbn [currentOps].
      rewrite (Z.eqb_sym sh s). destruct (s =? sh); rewrite ?andb_true_r, ?andb_false_r; [|lia].
      destruct (maxAllowed c <? currentOps c + 1); cbn; lia.
Qed.

Lemma used_bound m s per :
  quota_wf m -> limited m s per -> 0 <= used m s <= q_numWorkers m * per.
Proof.
  intros Q (Hs & Hp & Hall). rewrite <- (zlen_shard_cells m s) by done. unfold used.
  pose proof (Forall_shard_cells _ m s (qw_cells _ Q)) as HC.
  revert HC Hall. generalize (shard_cells m s). clear Q. induction l as [|c l IH]; intros HC Hall.
  - unfold zlen. simpl. lia.
  - apply Forall_cons in HC as [Hc HC]. apply Forall_cons in Hall as [Ha Hall].
    specialize (IH HC Hall). unfold zlen in *. cbn [length map sumZ].
    rewrite Nat2Z.inj_succ, Z.mul_succ_l. lia.
Qed.

Lemma admitted_used m s per reqs :
  quota_wf m -> limited m s per -> Forall (fun r => 0 <= snd r) reqs ->
  used m s + admitted m s reqs <= q_numWorkers m * per.
Proof.
  intros Q Hlim Hreq. revert m Q Hlim. induction Hreq as [|[sh w] reqs Hr _ IH]; intros m Q Hlim.
  - pose proof (used_bound m s per Q Hlim). simpl. lia.
  - cbn [admitted]. destruct (TryAcquire m sh w) as [ok m'] eqn:E.
    destruct (try_acquire_step m sh w ok m' Q Hr E) as (Q' & _ & Hd & Hs).
    destruct (Hs s per Hlim) as [Hlim' Hu]. specialize (IH m' Q' Hlim'). rewrite Hd in IH. lia.
Qed.

(** *** The map [BuildIngressQuotaMap] lays out *)

Lemma concat_blocks {A} (f : nat -> list A) W k j i :
  (forall x, length (f x) = W) -> (i < j)%nat ->
  take W (drop (i * W) (concat (map f (seq k j)))) = f (k + i)%nat.
Proof.
  intros Hf. revert k i. induction j as [|j IH]; intros k i Hi; [lia|]. cbn [seq map concat].
  destruct i as [|i].
  - rewrite Nat.mul_0_l, drop_0, Nat.add_0_r, take_app_length'; auto.
  - rewrite drop_app_ge by (rewrite Hf; lia). rewrite Hf.
    replace (S i * W - W)%nat with (i * W)%nat by lia. rewrite IH by lia. f_equal. lia.
Qed.

Lemma length_blocks {A} (f : nat -> list A) W k j :
  (forall x, length (f x) = W) -> length (concat (map f (seq k j))) = (j * W)%nat.
Proof.
  intros Hf. revert k. induction j as [|j IH]; intros k; [done|]. cbn [seq map concat].
  rewrite length_app, Hf, IH. lia.
Qed.

Lemma Forall_blocks {A} (P : A -> Prop) (f : nat -> list A) xs :
  (forall x, x ∈ xs -> Forall P (f x)) -> Forall P (concat (map f xs)).
Proof.
  induction xs as [|x xs IH]; intros H; [constructor|]. cbn [map concat]. apply Forall_app_2.
  - apply H. left.
  - apply IH. intros y Hy. apply H. by right.
Qed.

Definition workers_used (numWorkers : Z) : Z := Z.min numWorkers maxIngressWorkers.

Lemma per_worker_bounds limit W :
  0 <= limit -> 0 < W ->
  0 <= per_worker limit W <= Z.max limit 1 /\ (limit = 0 -> per_worker limit W = 0) /\
  (0 < limit -> 0 < per_worker limit W) /\ W * per_worker limit W <= Z.max limit W.
Proof.
  intros Hl HW. unfold per_worker. pose proof (Z.mul_div_le limit W HW).
  pose proof (Z.div_pos limit W Hl HW). pose proof (Z.div_le_upper_bound limit W limit HW).
  destruct ((limit / W =? 0) && (0 <? limit)) eqn:E.
  - split_and!; try intros; nia.
  - split_and!; try intros; nia.
Qed.

Definition worker_cells (l : UDPControlLimits) (workers : Z) (shard : nat)
    : list IngressQuotaCell :=
  replicate (Z.to_nat (workers_used workers))
    (mkCell (per_worker (limit_at l shard) (workers_used workers)) 0).

Lemma build_cells e l workers m :
  BuildIngressQuotaMap e l workers = Some m ->
  cells m = concat (map (worker_cells l workers) (seq 0 (Z.to_nat (NumShards l)))).
Proof.
  unfold BuildIngressQuotaMap. intros H. destruct (_ || _); [done|].
  assert ((if maxIngressWorkers <? workers then maxIngressWorkers else workers) =
    workers_used workers) as EW by (unfold workers_used; case_if; lia).
  rewrite EW in H. by injection H as <-.
Qed.

Lemma build_spec e l workers m :
  limits_ok l -> Forall (fun v => v < 18446744073709551615) (Limits l) ->
  BuildIngressQuotaMap e l workers = Some m ->
  quota_wf m /\ q_numShards m = NumShards l /\ q_numWorkers m = workers_used workers /\
  forall s, 0 <= s < NumShards l -> Forall (fun c => maxAllowed c =
    per_worker (limit_at l (Z.to_nat s)) (workers_used workers)) (shard_cells m s) /\ used m s = 0.
Proof.
  intros Hok Hmax H. unfold BuildIngressQuotaMap in H.
  destruct ((NumShards l =? 0) || (workers <=? 0)) eqn:E; [done|].
  assert ((if maxIngressWorkers <? workers then maxIngressWorkers else workers) =
    workers_used workers) as EW by (unfold workers_used; case_if; lia).
  rewrite EW in H. set (W := workers_used workers) in *.
  assert (0 < W <= 64) as HW by (unfold W, workers_used, maxIngressWorkers; lia).
  assert (u8 W = W) as Eu by (apply u8_id; go_lia). rewrite Eu in H.
  injection H as <-. pose proof (lo_shards _ Hok) as Hs. unfold UDPMaxControlShards in Hs.
  set (f := fun shard => replicate (Z.to_nat W) (mkCell (per_worker (limit_at l shard) W) 0)).
  assert (forall x, length (f x) = Z.to_nat W) as Hf by (intros; apply length_replicate).
  assert (forall x, 0 <= limit_at l x < 18446744073709551615) as Hlim.
  { intros x. unfold limit_at. destruct (Limits l !! x) as [v|] eqn:Ev; cbn; [|lia].
    pose proof (lo_values _ Hok) as Hv. rewrite Forall_lookup in Hv, Hmax.
    specialize (Hv _ _ Ev). specialize (Hmax _ _ Ev). go_lia. }
  split_and!; [split|done|done|]; cbn [q_numWorkers q_numShards cells].
  - lia.
  - unfold zlen. rewrite (length_blocks f (Z.to_nat W)) by done. lia.
  - apply Forall_blocks. intros x _. apply Forall_replicate. cbn.
    pose proof (per_worker_bounds (limit_at l x) W). specialize (Hlim x). lia.
  - intros s Hs'. unfold used, shard_cells. cbn [cells q_numWorkers].
    replace (Z.to_nat (s * W)) with (Z.to_nat s * Z.to_nat W)%nat by lia.
    rewrite (concat_blocks f (Z.to_nat W) 0) by (done || lia). cbn [Nat.add].
    split; [by apply Forall_replicate|].
    unfold f. generalize (Z.to_nat W). induction n; [done|]. cbn. lia.
Qed.

(** The ingress quota is an upper bound.  Over any sequence of
    requests, of any shards and any worker numbers, between two rebuilds of
    the map, a shard with a non-zero limit admits at most that many requests
    in total, or one per worker when the limit is smaller than the number of
    workers. *)
Theorem ingress_quota_bound e l workers m s reqs :
  limits_ok l -> Forall (fun v => v < 18446744073709551615) (Limits l) ->
  BuildIngressQuotaMap e l workers = Some m -> 0 <= s < NumShards l ->
  0 < limit_at l (Z.to_nat s) -> Forall (fun r => 0 <= snd r) reqs ->
  admitted m s reqs <= Z.max (limit_at l (Z.to_nat s)) (workers_used workers).
Proof.
  intros Hok Hmax H Hs Hlim Hreq. destruct (build_spec e l workers m Hok Hmax H)
    as (Q & Es & Ew & Hc). destruct (Hc s Hs) as [Hall Hu].
  pose proof (qw_workers _ Q) as HW. rewrite Ew in HW.
  destruct (per_worker_bounds (limit_at l (Z.to_nat s)) (workers_used workers)) as (_ & _ & Hp & Hm);
    [lia|done|].
  assert (limited m s (per_worker (limit_at l (Z.to_nat s)) (workers_used workers))) as Hl.
  { split; [lia|]. split; [by apply Hp|done]. }
  pose proof (admitted_used m s _ reqs Q Hl Hreq). rewrite Ew in *. lia.
Qed.

Lemma ingress_quota_bound_witness :
  exists m, BuildIngressQuotaMap 1 (buildLimits 2 10 0 0 None) 3 = Some m /\
    admitted m 1 (replicate 40 (1, 2) ++ replicate 40 (1, 7)) <= 5.
Proof.
  eexists. split; [vm_compute; reflexivity|].
  refine (ingress_quota_bound 1 (buildLimits 2 10 0 0 None) 3 _ 1 _ _ _ _ _ _ _).
  - split; [by split | done | | by split]. apply (bool_decide_unpack _). vm_compute. exact I.
  - apply (bool_decide_unpack _). vm_compute. exact I.
  - vm_compute. reflexivity.
  - by split.
  - reflexivity.
  - apply (bool_decide_unpack _). vm_compute. exact I.
Defined.

(** Zero means unlimited to the quota map but tightest to the epoch
    gap rule.  A plain quota packet that skips epochs and sets every limit
    to zero is therefore adopted as a tightening, and afterwards the
    tracker admits every request of every shard. *)
Theorem zero_limits_open_the_gate now c hdr n :
  currentEpoch c < EpochID hdr -> currentEpoch c <> 0 -> 0 < n <= 16 ->
  0 < numWorkers c -> enabled c = true ->
  (exists prev, snapshot c = Some prev /\ Forall (Z.le 0) (Limits (s_limits prev))) ->
  let zero := mkLimits n (replicate 16 0) 0 in
  exists c', applyLimits now c hdr zero [] false = Some (true, c') /\
    forall shard worker, TryIngress c' shard worker = (true, c').
Proof.
  intros He Hc Hn Hw Hen (prev & Hsnap & Hpos) zero.
  assert (forall i, 0 <= limit_at (s_limits prev) i) as Hp.
  { intros i. unfold limit_at. destruct (Limits (s_limits prev) !! i) as [v|] eqn:E; [|done].
    rewrite Forall_lookup in Hpos. by apply (Hpos i). }
  assert (forall i, limit_at zero i = 0) as Hz.
  { intros i. unfold limit_at, zero. cbn [Limits].
    destruct (replicate 16 0 !! i) as [v|] eqn:E; [|done].
    by apply lookup_replicate in E as [-> _]. }
  assert (udpLimitsTightening (Some (s_limits prev)) (Some zero) = true) as Ht.
  { unfold udpLimitsTightening. apply forallb_forall. intros i _. rewrite Hz. specialize (Hp i). lia. }
  assert (BuildIngressQuotaMap (EpochID hdr) zero (numWorkers c) <> None) as Hb.
  { unfold BuildIngressQuotaMap, zero. cbn [NumShards].
    by replace ((n =? 0) || (numWorkers c <=? 0)) with false by lia. }
  destruct (BuildIngressQuotaMap (EpochID hdr) zero (numWorkers c)) as [m|] eqn:Em; [|done].
  set (c' := markFresh now (with_epoch (commitSnapshot c hdr zero []) (EpochID hdr))).
  exists c'. split.
  { unfold applyLimits. fold c'. replace (EpochID hdr <=? currentEpoch c) with false by lia.
    destruct (_ || _); [done|]. rewrite Hsnap. cbn [mbind option_bind]. by rewrite Ht. }
  assert (quotaMap c' = Some m) as Hq by (unfold c', commitSnapshot; cbn; by rewrite Em).
  assert (forall q, quotaMap c' = Some q -> with_quota c' q = c') as Hid
    by (intros q Hq'; unfold with_quota; rewrite <- Hq'; by destruct c').
  intros shard worker. unfold TryIngress. change (enabled c') with (enabled c). rewrite Hen, Hq.
  cbn [negb]. assert (TryAcquire m shard worker = (true, m)) as ->; [|by rewrite Hid].
  unfold TryAcquire. cbv zeta. destruct (_ || _); [done|].
  match goal with |- context [at_z (cells m) ?i] => destruct (at_z (cells m) i) as [cl|] eqn:Ea end;
    [|done].
  assert (maxAllowed cl = 0) as ->; [|done].
  apply at_z_lookup in Ea. rewrite (build_cells _ _ _ _ Em) in Ea.
  assert (Forall (fun x => maxAllowed x = 0) (concat (map (worker_cells zero (numWorkers c))
    (seq 0 (Z.to_nat (NumShards zero)))))) as HF.
  { apply Forall_blocks. intros x _. apply Forall_replicate. cbn. rewrite Hz.
    unfold per_worker, workers_used. by rewrite Z.div_0_l by (unfold maxIngressWorkers; lia). }
  rewrite Forall_lookup in HF. eauto.
Qed.

Lemma zero_limits_open_the_gate_witness :
  exists c', applyLimits 5 (with_epoch demo_tracker 3)
      (mkHeader udpMagic 1 1 0 0 9 (replicate 16 0) 0 2 16) (mkLimits 2 (replicate 16 0) 0) [] false =
        Some (true, c') /\
    forall shard worker, TryIngress c' shard worker = (true, c').
Proof.
  apply (zero_limits_open_the_gate 5 (with_epoch demo_tracker 3)
    (mkHeader udpMagic 1 1 0 0 9 (replicate 16 0) 0 2 16) 2);
    [reflexivity | done | by split | reflexivity | reflexivity |].
  eexists. split; [reflexivity|]. apply (bool_decide_unpack _). vm_compute. exact I.
Defined.

(** The canary floor is a floor, not a cap.  When the channel goes
    stale a limit of at least 100 is reduced to a twentieth of it (never
    below 100), but any smaller non-zero limit is raised to 100, so going
    stale loosens it. *)
Theorem canary_floor_direction limit :
  0 < limit -> limit * 5 < 18446744073709551616 ->
  (canary_floor limit <= limit <-> 100 <= limit) /\
  canary_floor limit = Z.max 100 (limit * 5 / 100).
Proof.
  intros Hl Hm. unfold canary_floor, udpCanaryFloorPct, udpCanaryFloorRPS.
  replace (0 <? limit) with true by lia. rewrite u64_id by go_lia.
  assert (limit * 5 / 100 <= limit) by (apply Z.div_le_upper_bound; lia).
  destruct (100 <? limit * 5 / 100) eqn:E; split; lia.
Qed.

Lemma canary_floor_direction_witness :
  (canary_floor 40 <= 40 <-> 100 <= 40) /\ canary_floor 40 = 100.
Proof. exact (canary_floor_direction 40 ltac:(reflexivity) ltac:(reflexivity)). Defined.

End UdpControl.
