(* ===== verification/SlotMap.v ===== *)
(** * Slot map: campaign routing and its versions

    Models [internal/domain/shard/sharding.go], [slot_index.go],
    [slot_map_parity.go], [store_slot_map.go], [slot_map_loader.go] and the
    activation and rollback transactions of
    [internal/shardadmin/slot_migration_activate.go].  The two Postgres
    tables are a map from (version, slot) to (shard, state) and the meta row,
    with the statements of [internal/ingest/queries/slot_map.sql]; a
    transaction that returns an error leaves the tables unchanged.  A UUID is
    its 16 bytes. *)

From S2P Require Import Prelude.
Open Scope Z_scope.

Module SlotMap.

Definition SlotCount : Z := 1024.
Definition SlotMask : Z := 1023.

(** ** Routing *)

(** CRC-32C, bit by bit: the reflected Castagnoli polynomial. *)
Definition crc_bit (c : Z) : Z :=
  if Z.testbit c 0 then Z.lxor (Z.shiftr c 1) 2197175160 else Z.shiftr c 1.
Definition crc_byte (c b : Z) : Z := Nat.iter 8 crc_bit (Z.lxor c b).
Definition crc32Castagnoli (bs : list Z) : Z :=
  Z.lxor (foldl crc_byte 4294967295 bs) 4294967295.

Definition CampaignSlotIndex (id : list Z) : Z := i16 (Z.land (crc32Castagnoli id) SlotMask).

Definition FilterCampaignIDsBySlot (ids : list (list Z)) (slot : Z) : list (list Z) :=
  filter (fun id => CampaignSlotIndex id = slot) ids.

Record SlotMapSnapshot := mkSnapshot { Table : list Z; Version : Z; MigrationGen : Z }.

Definition buildSlotTable (numBuckets : Z) : list Z :=
  let n := if numBuckets <=? 0 then 1 else numBuckets in
  map (fun i => u8 (Z.rem (Z.of_nat i) n)) (seq 0 1024).

(** [StaticSlotSharder] holds one atomically swapped snapshot. *)
Definition NewStaticSlotSharder (numBuckets : Z) : SlotMapSnapshot :=
  mkSnapshot (buildSlotTable numBuckets) 0 0.

Definition GetShard (s : SlotMapSnapshot) (id : list Z) : Z :=
  default 0 (Table s !! Z.to_nat (Z.land (crc32Castagnoli id) 1023)).

Definition SwapSnapshot (s : SlotMapSnapshot) (version : Z) (table : option (list Z)) (gen : Z)
    : SlotMapSnapshot :=
  mkSnapshot (match table with Some t => t | None => Table s end) version gen.

Definition ReloadFromModulo (s : SlotMapSnapshot) (numBuckets : Z) : SlotMapSnapshot :=
  SwapSnapshot s 0 (Some (buildSlotTable numBuckets)) 0.

Definition StoreSlotMap (s : SlotMapSnapshot) (table : list Z) : SlotMapSnapshot :=
  SwapSnapshot s (Version s) (Some (map u8 table)) (MigrationGen s).

Definition SetActiveVersion (s : SlotMapSnapshot) (version : Z) : SlotMapSnapshot :=
  SwapSnapshot s version (Some (Table s)) (MigrationGen s).

(** ** Parity with the edge *)

Definition CompareSlotMaps (a b : list Z) : Z * Z :=
  if negb (zlen a =? SlotCount) || negb (zlen b =? SlotCount) then (SlotCount, -1)
  else
    foldl (fun '(diffs, first) i =>
        if default 0 (a !! i) =? default 0 (b !! i) then (diffs, first)
        else (diffs + 1, if first <? 0 then Z.of_nat i else first))
      (0, -1) (seq 0 (length a)).

Definition SlotMapsEqual (a b : list Z) : bool := fst (CompareSlotMaps a b) =? 0.

Definition ShardFromSlotTable (id slots : list Z) : option Z :=
  if negb (zlen slots =? SlotCount) then None
  else Some (default 0 (slots !! Z.to_nat (Z.land (crc32Castagnoli id) SlotMask))).

Definition ApplySlotMapToSharder (s : SlotMapSnapshot) (version activeVersion : Z)
    (slots : list Z) : option SlotMapSnapshot :=
  if negb (zlen slots =? SlotCount) then None
  else Some (SetActiveVersion (StoreSlotMap s slots)
               (if version =? 0 then activeVersion else version)).

(** ** The tables *)

Inductive RedisSlotState := ACTIVE | MIGRATING | DRAINING.

#[export] Instance RedisSlotState_eq_dec : EqDecision RedisSlotState.
Proof. solve_decision. Defined.

Record RedisSlotMap := mkSlotRow { r_Slot : Z; r_ShardID : Z; r_State : RedisSlotState }.

(** The state of an override is free text until it is validated. *)
Record SlotOverride := mkOverride {
  o_Slot : Z; o_ShardID : Z; o_State : option RedisSlotState
}.

Inductive SlotMapError :=
  | ErrSlotMapIncomplete | ErrSlotMapVersionNotFound | ErrSlotMapInvalidSlot
  | ErrSlotMapInvalidShard | ErrSlotMapInvalidState | ErrSlotMissing (slot : Z)
  | ErrSlotMapAlreadyActive | ErrOlderThanActive | ErrRollbackTarget
  | ErrUniqueViolation.

Record DB := mkDB {
  slot_rows : gmap (Z * Z) (Z * RedisSlotState);   (* redis_slot_map *)
  active_version : Z;                              (* redis_slot_map_meta *)
  routing_epoch : Z
}.

Definition with_rows (d : DB) (m : gmap (Z * Z) (Z * RedisSlotState)) : DB :=
  mkDB m (active_version d) (routing_epoch d).
Definition with_active (d : DB) (v : Z) : DB := mkDB (slot_rows d) v (routing_epoch d).

Definition slot_ids : list Z := seqZ 0 1024.
(* unfolded last, so that conversion does not enumerate the slots *)
Strategy 1000 [slot_ids].

(** [SELECT ... WHERE version = $1 ORDER BY slot]; the table's CHECK keeps
    every slot in [0, 1023]. *)
Definition ListSlotMapByVersion (d : DB) (v : Z) : list RedisSlotMap :=
  omap (fun s => '(sh, st) ← slot_rows d !! (v, s); Some (mkSlotRow s sh st)) slot_ids.

Definition CountSlotMapRowsForVersion (d : DB) (v : Z) : Z := zlen (ListSlotMapByVersion d v).

Definition GetMaxSlotMapVersion (d : DB) : Z :=
  match map (fun p => fst (fst p)) (map_to_list (slot_rows d)) with
  | [] => 0
  | v :: vs => foldr Z.max v vs
  end.

(** The INSERT of the copy hits the primary key (version, slot). *)
Definition version_conflict (d : DB) (base new : Z) : bool :=
  existsb (fun r => bool_decide (is_Some (slot_rows d !! (new, r_Slot r))))
    (ListSlotMapByVersion d base).

Definition CopySlotMapVersion (d : DB) (base new : Z) : DB :=
  with_rows d (foldr (fun r m => <[(new, r_Slot r) := (r_ShardID r, r_State r)]> m)
                 (slot_rows d) (ListSlotMapByVersion d base)).

Definition UpdateSlotMapEntry (d : DB) (v slot shard : Z) (st : RedisSlotState) : DB :=
  match slot_rows d !! (v, slot) with
  | Some _ => with_rows d (<[(v, slot) := (shard, st)]> (slot_rows d))
  | None => d
  end.

(** ** Repository operations: an error or a value, and the tables after *)

Definition validateSlotOverride (o : SlotOverride) : option SlotMapError :=
  if (o_Slot o <? 0) || (SlotMask <? o_Slot o) then Some ErrSlotMapInvalidSlot
  else if o_ShardID o <? 0 then Some ErrSlotMapInvalidShard
  else match o_State o with Some _ => None | None => Some ErrSlotMapInvalidState end.

Fixpoint validate_all (os : list SlotOverride) : option SlotMapError :=
  match os with
  | [] => None
  | o :: rest => match validateSlotOverride o with Some e => Some e | None => validate_all rest end
  end.

Definition apply_override (v : Z) (d : DB) (o : SlotOverride) : DB :=
  UpdateSlotMapEntry d v (o_Slot o) (o_ShardID o) (default ACTIVE (o_State o)).

Definition CreateNextVersion (d : DB) (base : Z) (overrides : list SlotOverride)
    : (SlotMapError + Z) * DB :=
  match validate_all overrides with
  | Some e => (inl e, d)
  | None =>
      let baseCount := CountSlotMapRowsForVersion d base in
      if baseCount =? 0 then (inl ErrSlotMapVersionNotFound, d)
      else if negb (baseCount =? SlotCount) then (inl ErrSlotMapIncomplete, d)
      else
        let newVersion := i32 (GetMaxSlotMapVersion d + 1) in
        if version_conflict d base newVersion then (inl ErrUniqueViolation, d) else
        let d1 := CopySlotMapVersion d base newVersion in
        let d2 := foldl (apply_override newVersion) d1 overrides in
        if negb (CountSlotMapRowsForVersion d2 newVersion =? SlotCount)
        then (inl ErrSlotMapIncomplete, d)
        else (inr newVersion, d2)
  end.

Fixpoint mark_slots (d : DB) (version : Z) (slots : list Z) (targetShard : Z)
    : SlotMapError + DB :=
  match slots with
  | [] => inr d
  | s :: rest =>
      if (s <? 0) || (SlotMask <? s) then inl ErrSlotMapInvalidSlot
      else match slot_rows d !! (version, s) with
      | None => inl (ErrSlotMissing s)
      | Some _ => mark_slots (UpdateSlotMapEntry d version s targetShard MIGRATING) version rest
                    targetShard
      end
  end.

Definition MarkSlotsMigrating (d : DB) (version : Z) (slots : list Z) (targetShard : Z)
    : option SlotMapError * DB :=
  if targetShard <? 0 then (Some ErrSlotMapInvalidShard, d)
  else match slots with
  | [] => (None, d)
  | _ =>
      if CountSlotMapRowsForVersion d version =? 0 then (Some ErrSlotMapVersionNotFound, d)
      else match mark_slots d version slots targetShard with
           | inl e => (Some e, d)
           | inr d' => (None, d')
           end
  end.

Definition ActivateVersion (d : DB) (version : Z) : option SlotMapError * DB :=
  let count := CountSlotMapRowsForVersion d version in
  if count =? 0 then (Some ErrSlotMapVersionNotFound, d)
  else if negb (count =? SlotCount) then (Some ErrSlotMapIncomplete, d)
  else (None, with_active d version).

Definition ListMigratingSlots (d : DB) (version : Z) : list RedisSlotMap :=
  filter (fun r => r_State r = MIGRATING) (ListSlotMapByVersion d version).

(** The transaction of [ActivateSlotMapVersionWithMigration]: the migrating
    rows were listed before it started. *)
Definition activate_with_migration (d : DB) (version : Z) (migrating : list RedisSlotMap)
    : option SlotMapError * DB :=
  if active_version d =? version then (Some ErrSlotMapAlreadyActive, d)
  else if version <? active_version d then (Some ErrOlderThanActive, d)
  else
    let count := CountSlotMapRowsForVersion d version in
    if count =? 0 then (Some ErrSlotMapVersionNotFound, d)
    else if negb (count =? SlotCount) then (Some ErrSlotMapIncomplete, d)
    else
      let d1 := foldl (fun d r => UpdateSlotMapEntry d version (r_Slot r) (r_ShardID r) DRAINING)
                  d migrating in
      (None, with_active d1 version).

Definition RollbackSlotMapVersion (d : DB) (previous : Z) : option SlotMapError * DB :=
  if active_version d <=? previous then (Some ErrRollbackTarget, d)
  else if negb (CountSlotMapRowsForVersion d previous =? SlotCount)
  then (Some ErrSlotMapIncomplete, d)
  else (None, with_active d previous).

(** ** Loading *)

Fixpoint fill_table (rows : list RedisSlotMap) (table : list Z) : option (list Z) :=
  match rows with
  | [] => Some table
  | r :: rest =>
      if (r_Slot r <? 0) || (SlotMask <? r_Slot r) then None
      else fill_table rest (set_z table (r_Slot r) (u16 (r_ShardID r)))
  end.

Definition TableFromRows (rows : list RedisSlotMap) : option (list Z) :=
  if negb (zlen rows =? SlotCount) then None else fill_table rows (replicate 1024 0).

(** The pool is reachable; the result says whether the map was loaded. *)
Definition LoadActiveSlotMap (d : DB) (s : SlotMapSnapshot) (fallbackBuckets : Z)
    : bool * SlotMapSnapshot :=
  let fallback := SwapSnapshot s 0 (Some (buildSlotTable fallbackBuckets)) 0 in
  let version := active_version d in
  if CountSlotMapRowsForVersion d version =? 0 then (false, fallback)
  else match TableFromRows (ListSlotMapByVersion d version) with
  | None => (false, fallback)
  | Some table => (true, SwapSnapshot s version (Some (map u8 table)) (routing_epoch d))
  end.

Definition ReloadStaticSlotMapIfChanged (d : DB) (s : SlotMapSnapshot) (fallbackBuckets : Z)
    : bool * SlotMapSnapshot :=
  let version := active_version d in
  if (version =? Version s) && negb (Version s =? 0) then (false, s)
  else (true, snd (LoadActiveSlotMap d s fallbackBuckets)).

(** The check value of CRC-32C. *)
Example crc32c_check : crc32Castagnoli [49; 50; 51; 52; 53; 54; 55; 56; 57] = 3808858755.
Proof. reflexivity. Qed.

(** ** Completeness of a version *)

Definition complete (d : DB) (v : Z) : Prop :=
  forall s, 0 <= s < 1024 -> is_Some (slot_rows d !! (v, s)).

Definition row_of (d : DB) (v s : Z) : option RedisSlotMap :=
  '(sh, st) ← slot_rows d !! (v, s); Some (mkSlotRow s sh st).

Lemma omap_all {A B} (f : A -> option B) l :
  (length (omap f l) = length l <-> Forall (fun x => is_Some (f x)) l) /\
  (length (omap f l) <= length l)%nat.
Proof.
  induction l as [|x l [IH1 IH2]]; [split; [split; [constructor|done]|done]|].
  cbn [omap list_omap]. destruct (f x) as [y|] eqn:E; cbn [length].
  - split; [|lia]. split.
    + intros H. constructor; [eauto|]. apply IH1. lia.
    + intros [_ H]%Forall_cons. apply IH1 in H. lia.
  - split; [|lia]. split; [lia|]. intros [[y Hy] _]%Forall_cons. congruence.
Qed.

Lemma omap_total_lookup {A B} (f : A -> option B) l i x :
  Forall (fun x => is_Some (f x)) l -> l !! i = Some x -> omap f l !! i = f x.
Proof.
  intros H. revert i. induction H as [|y l [z Hz] _ IH]; intros [|i] Hi; simplify_eq/=;
    rewrite Hz; [done|]. by apply IH.
Qed.

Lemma is_Some_row d v s : is_Some (row_of d v s) <-> is_Some (slot_rows d !! (v, s)).
Proof.
  unfold row_of. destruct (slot_rows d !! (v, s)) as [[sh st]|]; cbn; split; intros [? H];
    eauto; discriminate.
Qed.

Lemma list_rows d v : ListSlotMapByVersion d v = omap (row_of d v) slot_ids.
Proof. done. Qed.

Lemma count_complete d v : CountSlotMapRowsForVersion d v = SlotCount <-> complete d v.
Proof.
  unfold CountSlotMapRowsForVersion, zlen. rewrite list_rows.
  destruct (omap_all (row_of d v) slot_ids) as [H _].
  assert (length slot_ids = 1024%nat) as Hl by done. rewrite Hl in H.
  assert (Z.of_nat (length (omap (row_of d v) slot_ids)) = SlotCount <->
    length (omap (row_of d v) slot_ids) = 1024%nat) as -> by (unfold SlotCount; lia).
  rewrite H, Forall_forall. unfold complete, slot_ids. split.
  - intros HF s Hs. apply is_Some_row, HF, elem_of_seqZ. lia.
  - intros HF s Hs%elem_of_seqZ. apply is_Some_row, HF. lia.
Qed.

Lemma complete_count d v :
  complete d v ->
  (CountSlotMapRowsForVersion d v =? 0) = false /\
  (CountSlotMapRowsForVersion d v =? SlotCount) = true.
Proof.
  intros H%count_complete. rewrite H. split; [done|apply Z.eqb_refl].
Qed.

Lemma count_true d v : (CountSlotMapRowsForVersion d v =? SlotCount) = true -> complete d v.
Proof. intros H%Z.eqb_eq. by apply count_complete. Qed.

Lemma slot_ids_lookup s : 0 <= s < 1024 -> slot_ids !! Z.to_nat s = Some s.
Proof. intros H. unfold slot_ids. apply lookup_seqZ. lia. Qed.

Lemma complete_rows d v s :
  complete d v -> 0 <= s < 1024 -> ListSlotMapByVersion d v !! Z.to_nat s = row_of d v s.
Proof.
  intros H Hs. rewrite list_rows. apply omap_total_lookup; [|by apply slot_ids_lookup].
  apply Forall_forall. intros x Hx%elem_of_seqZ. apply is_Some_row, H. lia.
Qed.

(** ** How the statements change the rows *)

Definition dom_le (d d' : DB) : Prop :=
  forall k, is_Some (slot_rows d !! k) -> is_Some (slot_rows d' !! k).

Lemma update_lookup d v s sh st k :
  slot_rows (UpdateSlotMapEntry d v s sh st) !! k =
    if decide (k = (v, s)) then (fun _ => (sh, st)) <$> slot_rows d !! k else slot_rows d !! k.
Proof.
  unfold UpdateSlotMapEntry. case_decide as Hk.
  - subst k. destruct (slot_rows d !! (v, s)) as [x|] eqn:E; cbn.
    + by rewrite lookup_insert_eq.
    + done.
  - destruct (slot_rows d !! (v, s)); [|done]. cbn. by rewrite lookup_insert_ne.
Qed.

Lemma update_dom d v s sh st k :
  is_Some (slot_rows (UpdateSlotMapEntry d v s sh st) !! k) <-> is_Some (slot_rows d !! k).
Proof. rewrite update_lookup. case_decide; [|done]. by rewrite fmap_is_Some. Qed.

Lemma update_meta d v s sh st :
  active_version (UpdateSlotMapEntry d v s sh st) = active_version d /\
  routing_epoch (UpdateSlotMapEntry d v s sh st) = routing_epoch d.
Proof. unfold UpdateSlotMapEntry. by destruct (slot_rows d !! (v, s)). Qed.

(** Any sequence of updates keeps the key set and the meta row. *)
Lemma fold_update_dom {A} (f : DB -> A -> DB) l d :
  (forall d x, (forall k, is_Some (slot_rows (f d x) !! k) <-> is_Some (slot_rows d !! k)) /\
     active_version (f d x) = active_version d) ->
  (forall k, is_Some (slot_rows (foldl f d l) !! k) <-> is_Some (slot_rows d !! k)) /\
  active_version (foldl f d l) = active_version d.
Proof.
  intros Hf. revert d. induction l as [|x l IH]; intros d; [done|]. cbn [foldl].
  destruct (IH (f d x)) as [H1 H2], (Hf d x) as [H3 H4].
  split; [|congruence]. intros k. by rewrite H1.
Qed.

Lemma apply_override_dom v d o :
  (forall k, is_Some (slot_rows (apply_override v d o) !! k) <-> is_Some (slot_rows d !! k)) /\
  active_version (apply_override v d o) = active_version d.
Proof. unfold apply_override. split; [intros k; apply update_dom|apply update_meta]. Qed.

Definition copied (d : DB) (base new : Z) (l : list RedisSlotMap) : gmap (Z * Z) (Z * RedisSlotState) :=
  foldr (fun r m => <[(new, r_Slot r) := (r_ShardID r, r_State r)]> m) (slot_rows d) l.

Lemma copied_other d base new l v s :
  v <> new -> copied d base new l !! (v, s) = slot_rows d !! (v, s).
Proof.
  intros Hv. unfold copied. induction l as [|r l IH]; [done|]. cbn [foldr].
  rewrite lookup_insert_ne by congruence. done.
Qed.

Lemma copy_rows d base new :
  slot_rows (CopySlotMapVersion d base new) = copied d base new (ListSlotMapByVersion d base).
Proof. reflexivity. Qed.

Lemma copied_slot d base new s :
  complete d base -> 0 <= s < 1024 ->
  slot_rows (CopySlotMapVersion d base new) !! (new, s) = slot_rows d !! (base, s).
Proof.
  intros Hc Hs. unfold CopySlotMapVersion. cbn [with_rows slot_rows]. rewrite list_rows.
  assert (forall l, (forall x, x ∈ l -> 0 <= x < 1024) -> s ∈ l ->
    foldr (fun r m => <[(new, r_Slot r) := (r_ShardID r, r_State r)]> m) (slot_rows d)
      (omap (row_of d base) l) !! (new, s) = slot_rows d !! (base, s)) as H.
  { induction l as [|x l IH]; intros Hl Hin; [by apply elem_of_nil in Hin|].
    cbn [omap list_omap]. destruct (Hc x (Hl x ltac:(left))) as [[sh st] Hx].
    unfold row_of at 1. rewrite Hx. cbn.
    destruct (decide (x = s)) as [->|Hne].
    - by rewrite lookup_insert_eq, Hx.
    - rewrite lookup_insert_ne by congruence. apply IH.
      + intros y Hy. apply Hl. by right.
      + by apply elem_of_cons in Hin as [?|?]. }
  apply H; [|apply elem_of_seqZ; lia]. intros x Hx%elem_of_seqZ. lia.
Qed.

Lemma copy_dom_le d base new : dom_le d (CopySlotMapVersion d base new).
Proof.
  intros k Hk. unfold CopySlotMapVersion. cbn [with_rows slot_rows].
  induction (ListSlotMapByVersion d base) as [|r l IH]; [done|]. cbn [foldr].
  destruct (decide (k = (new, r_Slot r))) as [->|Hne];
    [rewrite lookup_insert_eq; eauto | by rewrite lookup_insert_ne].
Qed.

(** The override in force for a slot: the last one listed. *)
Fixpoint last_override (os : list SlotOverride) (s : Z) (base : Z * RedisSlotState)
    : Z * RedisSlotState :=
  match os with
  | [] => base
  | o :: rest =>
      last_override rest s
        (if o_Slot o =? s then (o_ShardID o, default ACTIVE (o_State o)) else base)
  end.

Lemma overrides_lookup v os d s x :
  slot_rows d !! (v, s) = Some x ->
  slot_rows (foldl (apply_override v) d os) !! (v, s) = Some (last_override os s x).
Proof.
  revert d x. induction os as [|o os IH]; intros d x H; [done|]. cbn [foldl last_override].
  apply IH. unfold apply_override. rewrite update_lookup.
  destruct (o_Slot o =? s) eqn:E.
  - rewrite decide_True by (f_equal; lia). by rewrite H.
  - rewrite decide_False by (intros [=]; lia). done.
Qed.

Lemma overrides_other v os d v' s :
  v' <> v -> slot_rows (foldl (apply_override v) d os) !! (v', s) = slot_rows d !! (v', s).
Proof.
  intros Hv. revert d. induction os as [|o os IH]; intros d; [done|]. cbn [foldl].
  rewrite IH. unfold apply_override. rewrite update_lookup, decide_False; [done|congruence].
Qed.

Lemma complete_mono d d' v : dom_le d d' -> complete d v -> complete d' v.
Proof. intros H Hc s Hs. apply H, Hc, Hs. Qed.

Lemma max_version d v s : is_Some (slot_rows d !! (v, s)) -> v <= GetMaxSlotMapVersion d.
Proof.
  intros [x Hx%elem_of_map_to_list]. unfold GetMaxSlotMapVersion.
  assert (v ∈ map (fun p : Z * Z * (Z * RedisSlotState) => fst (fst p))
    (map_to_list (slot_rows d))) as Hin.
  { apply (list_elem_of_fmap_2 (fun p : Z * Z * (Z * RedisSlotState) => fst (fst p))) in Hx.
    exact Hx. }
  destruct (map _ _) as [|w vs]; [by apply elem_of_nil in Hin|].
  assert (forall l : list Z, w <= foldr Z.max w l /\ forall y, y ∈ l -> y <= foldr Z.max w l) as H.
  { induction l as [|y l [IH1 IH2]]; [split; [simpl; lia|intros y Hy; by apply elem_of_nil in Hy]|].
    cbn [foldr]. split; [lia|]. intros z [->|Hz]%elem_of_cons; [lia|].
    specialize (IH2 z Hz). lia. }
  destruct (H vs) as [H1 H2]. apply elem_of_cons in Hin as [->|Hin]; auto.
Qed.

Lemma foldl_overrides_meta v os d :
  (forall k, is_Some (slot_rows (foldl (apply_override v) d os) !! k) <-> is_Some (slot_rows d !! k)) /\
  active_version (foldl (apply_override v) d os) = active_version d.
Proof. apply fold_update_dom. intros. apply apply_override_dom. Qed.

(** The version after the largest one has no row. *)
Lemma fresh_no_conflict d base : version_conflict d base (GetMaxSlotMapVersion d + 1) = false.
Proof.
  unfold version_conflict. induction (ListSlotMapByVersion d base) as [|r l IH]; [done|].
  cbn [existsb]. rewrite IH, bool_decide_eq_false_2; [done|].
  intros H%max_version. lia.
Qed.

Definition created (d : DB) (base v' : Z) (os : list SlotOverride) : DB :=
  foldl (apply_override v') (CopySlotMapVersion d base v') os.

Lemma create_ok d base os :
  validate_all os = None ->
  (CountSlotMapRowsForVersion d base =? 0) = false ->
  (CountSlotMapRowsForVersion d base =? SlotCount) = true ->
  let v' := i32 (GetMaxSlotMapVersion d + 1) in
  version_conflict d base v' = false ->
  (CountSlotMapRowsForVersion (created d base v' os) v' =? SlotCount) = true ->
  CreateNextVersion d base os = (inr v', created d base v' os).
Proof.
  intros H1 H2 H3 v' H0 H4. unfold CreateNextVersion. rewrite H1, H2, H3.
  change (CountSlotMapRowsForVersion (foldl (apply_override v') (CopySlotMapVersion d base v') os)
    v' =? SlotCount) with (CountSlotMapRowsForVersion (created d base v' os) v' =? SlotCount).
  unfold created, v' in *. cbv zeta. rewrite H0, H4. reflexivity.
Qed.

Lemma create_fail d base os :
  ~ (validate_all os = None /\ (CountSlotMapRowsForVersion d base =? SlotCount) = true) ->
  exists e, CreateNextVersion d base os = (inl e, d).
Proof.
  intros H. unfold CreateNextVersion. destruct (validate_all os) as [e|]; [eauto|].
  destruct (CountSlotMapRowsForVersion d base =? 0); [eauto|].
  destruct (CountSlotMapRowsForVersion d base =? SlotCount); [|eauto]. by destruct H.
Qed.

Lemma created_rows d base v' os :
  complete d base -> forall s, 0 <= s < 1024 -> exists x, slot_rows d !! (base, s) = Some x /\
    slot_rows (created d base v' os) !! (v', s) = Some (last_override os s x).
Proof.
  intros Hc s Hs. destruct (Hc s Hs) as [x Hx]. exists x. split; [exact Hx|].
  apply overrides_lookup. rewrite copied_slot by done. exact Hx.
Qed.

Lemma created_other d base v' os v s :
  v <> v' -> slot_rows (created d base v' os) !! (v, s) = slot_rows d !! (v, s).
Proof.
  intros Hv. unfold created. rewrite overrides_other by done. rewrite copy_rows.
  by apply copied_other.
Qed.

Lemma created_active d base v' os : active_version (created d base v' os) = active_version d.
Proof. unfold created. by destruct (foldl_overrides_meta v' os (CopySlotMapVersion d base v')) as [_ ->]. Qed.

(** Cloning the map.  [CreateNextVersion] succeeds exactly when every
    override is valid and the base version has all 1024 slots (and the
    version counter has room); the new version then has every slot, each
    with the last override given for it or else the base row, and no other
    version nor the active pointer changes.  A failure changes nothing. *)
Theorem create_next_version_spec d base os :
  GetMaxSlotMapVersion d < 2147483647 -> -2147483649 < GetMaxSlotMapVersion d ->
  let v' := GetMaxSlotMapVersion d + 1 in
  (validate_all os = None /\ complete d base /\ exists d',
     CreateNextVersion d base os = (inr v', d') /\ complete d' v' /\
     (forall s, 0 <= s < 1024 -> exists x, slot_rows d !! (base, s) = Some x /\
        slot_rows d' !! (v', s) = Some (last_override os s x)) /\
     (forall v s, v <> v' -> slot_rows d' !! (v, s) = slot_rows d !! (v, s)) /\
     active_version d' = active_version d) \/
  (~ (validate_all os = None /\ complete d base) /\
     exists e, CreateNextVersion d base os = (inl e, d)).
Proof.
  intros Hmax Hmin v'. destruct (validate_all os) as [e|] eqn:Ev.
  { right. split; [intros [[=] _]|]. apply create_fail. rewrite Ev. by intros [[=] _]. }
  destruct (CountSlotMapRowsForVersion d base =? SlotCount) eqn:E1.
  2:{ right. split; [intros [_ [_ H]%complete_count]; congruence|].
      apply create_fail. intros [_ H]. congruence. }
  left. apply count_true in E1 as Hc. destruct (complete_count _ _ Hc) as [E0 _].
  pose proof (create_ok d base os Ev E0 E1) as Hok. cbv zeta in Hok.
  replace (i32 (GetMaxSlotMapVersion d + 1)) with v' in Hok by (symmetry; apply i32_id; go_lia).
  assert (complete (created d base v' os) v') as Hc2.
  { intros s Hs. destruct (created_rows d base v' os Hc s Hs) as (x & _ & ->). eauto. }
  split; [reflexivity|]. split; [exact Hc|]. exists (created d base v' os).
  assert (version_conflict d base v' = false) as Hnc by apply fresh_no_conflict.
  split; [apply (Hok Hnc), complete_count, Hc2|]. split; [exact Hc2|].
  split; [exact (created_rows d base v' os Hc)|]. split; [|apply created_active].
  intros v s. apply created_other.
Qed.

(** ** Every reachable state routes *)

Inductive op :=
  | OpCreate (base : Z) (overrides : list SlotOverride)
  | OpMark (version : Z) (slots : list Z) (target : Z)
  | OpActivate (version : Z)
  | OpMigrate (version : Z)
  | OpRollback (previous : Z).

Definition exec (d : DB) (o : op) : DB :=
  match o with
  | OpCreate base os => snd (CreateNextVersion d base os)
  | OpMark v ss t => snd (MarkSlotsMigrating d v ss t)
  | OpActivate v => snd (ActivateVersion d v)
  | OpMigrate v => snd (activate_with_migration d v (ListMigratingSlots d v))
  | OpRollback v => snd (RollbackSlotMapVersion d v)
  end.

(** Migration 00028: version 1 over four shards, active. *)
Definition initial_db : DB :=
  mkDB (list_to_map (map (fun s => ((1, s), (Z.rem s 4, ACTIVE))) slot_ids)) 1 0.

Lemma mark_slots_dom d v ss t d' :
  mark_slots d v ss t = inr d' ->
  (forall k, is_Some (slot_rows d' !! k) <-> is_Some (slot_rows d !! k)) /\
  active_version d' = active_version d.
Proof.
  revert d. induction ss as [|s ss IH]; intros d H; cbn [mark_slots] in H; [by simplify_eq|].
  destruct (_ || _); [done|]. destruct (slot_rows d !! (v, s)); [|done].
  apply IH in H as [H1 H2]. split.
  - intros k. by rewrite H1, update_dom.
  - rewrite H2. apply update_meta.
Qed.

(** What every operation does: it keeps the tables, or keeps the active
    version and drops no row, or activates a complete version. *)
Definition keeps (d d' : DB) : Prop :=
  dom_le d d' /\ (active_version d' = active_version d \/ complete d' (active_version d')).

Lemma keeps_refl d : keeps d d.
Proof. split; [by intros k|by left]. Qed.

Lemma create_keeps d base os : keeps d (snd (CreateNextVersion d base os)).
Proof.
  unfold CreateNextVersion. destruct (validate_all os); [apply keeps_refl|].
  destruct (_ =? 0); [apply keeps_refl|]. destruct (negb _); [apply keeps_refl|].
  cbv zeta. destruct (version_conflict _ _ _); [apply keeps_refl|].
  destruct (negb _); [apply keeps_refl|]. cbn [snd].
  set (nv := i32 _). destruct (foldl_overrides_meta nv os (CopySlotMapVersion d base nv)) as [H1 H2].
  split; [|left; exact H2]. intros k Hk. apply H1. by apply copy_dom_le.
Qed.

Lemma mark_keeps d v ss t : keeps d (snd (MarkSlotsMigrating d v ss t)).
Proof.
  unfold MarkSlotsMigrating. destruct (t <? 0); [apply keeps_refl|].
  destruct ss as [|s ss]; [apply keeps_refl|]. destruct (_ =? 0); [apply keeps_refl|].
  destruct (mark_slots d v (s :: ss) t) as [e|d'] eqn:E; [apply keeps_refl|].
  apply mark_slots_dom in E as [H1 H2]. split; [|left; exact H2]. intros k. apply H1.
Qed.

Lemma activate_keeps d v : keeps d (snd (ActivateVersion d v)).
Proof.
  unfold ActivateVersion. destruct (_ =? 0); [apply keeps_refl|].
  destruct (CountSlotMapRowsForVersion d v =? SlotCount) eqn:E; [|apply keeps_refl].
  split; [by intros k|right]. exact (count_true d v E).
Qed.

Lemma migrate_keeps d v l : keeps d (snd (activate_with_migration d v l)).
Proof.
  unfold activate_with_migration. destruct (_ =? v); [apply keeps_refl|].
  destruct (v <? _); [apply keeps_refl|]. cbv zeta. destruct (_ =? 0); [apply keeps_refl|].
  destruct (CountSlotMapRowsForVersion d v =? SlotCount) eqn:E; [|apply keeps_refl].
  apply count_true in E. cbn [negb snd].
  set (f := fun d r => _). destruct (fold_update_dom f l d) as [H1 _].
  { intros d0 x. split; [intros k; apply update_dom|apply update_meta]. }
  generalize dependent (foldl f d l). intros d' H1. split; [intros k; apply H1|right].
  intros s Hs. apply H1. exact (E s Hs).
Qed.

Lemma rollback_keeps d v : keeps d (snd (RollbackSlotMapVersion d v)).
Proof.
  unfold RollbackSlotMapVersion. destruct (_ <=? v); [apply keeps_refl|].
  destruct (CountSlotMapRowsForVersion d v =? SlotCount) eqn:E; [|apply keeps_refl].
  split; [by intros k|right]. exact (count_true d v E).
Qed.

Lemma exec_keeps_active_complete d o :
  complete d (active_version d) -> complete (exec d o) (active_version (exec d o)).
Proof.
  intros Hc. assert (keeps d (exec d o)) as [Hd [Ha|Ha]]; [|rewrite Ha; by apply (complete_mono d)|exact Ha].
  destruct o; cbn [exec]; [apply create_keeps|apply mark_keeps|apply activate_keeps|
    apply migrate_keeps|apply rollback_keeps].
Qed.

Lemma initial_complete : complete initial_db 1.
Proof. apply count_complete. vm_compute. reflexivity. Qed.

Lemma fill_table_spec d v ids t :
  (forall s, s ∈ ids -> 0 <= s < 1024 /\ is_Some (slot_rows d !! (v, s))) ->
  length t = 1024%nat ->
  exists t', fill_table (omap (row_of d v) ids) t = Some t' /\ length t' = 1024%nat /\
    forall s, 0 <= s < 1024 -> t' !! Z.to_nat s =
      if decide (s ∈ ids) then (fun x => u16 (fst x)) <$> slot_rows d !! (v, s)
      else t !! Z.to_nat s.
Proof.
  intros Hids. revert t. induction ids as [|x ids IH]; intros t Ht.
  - exists t. split; [done|]. split; [done|]. intros s _. rewrite decide_False; [done|].
    apply not_elem_of_nil.
  - destruct (Hids x ltac:(left)) as [Hx [[sh st] Hr]]. cbn [omap list_omap].
    unfold row_of at 1. rewrite Hr. cbn [mbind option_bind fill_table r_Slot r_ShardID].
    replace ((x <? 0) || (SlotMask <? x)) with false by (unfold SlotMask; lia).
    destruct (IH ltac:(intros; apply Hids; by right) (set_z t x (u16 sh)))
      as (t' & -> & Hl & Hs); [unfold set_z; by rewrite length_insert|].
    exists t'. split; [done|]. split; [done|]. intros s Hs'. rewrite (Hs s Hs').
    destruct (decide (s ∈ ids)) as [Hin|Hin].
    + rewrite decide_True; [done|by right].
    + destruct (decide (s = x)) as [->|Hne].
      * rewrite decide_True by left. rewrite Hr. cbn. unfold set_z.
        apply list_lookup_insert_eq. lia.
      * rewrite decide_False by (rewrite not_elem_of_cons; done). unfold set_z.
        apply list_lookup_insert_ne. lia.
Qed.

Lemma load_complete d s fb :
  complete d (active_version d) ->
  exists t, LoadActiveSlotMap d s fb = (true, mkSnapshot t (active_version d) (routing_epoch d)) /\
    length t = 1024%nat /\
    forall i, 0 <= i < 1024 -> t !! Z.to_nat i =
      (fun x => u8 (u16 (fst x))) <$> slot_rows d !! (active_version d, i).
Proof.
  intros Hc. unfold LoadActiveSlotMap. destruct (complete_count _ _ Hc) as [-> Hn].
  unfold TableFromRows. unfold CountSlotMapRowsForVersion in Hn. rewrite Hn. cbn [negb].
  rewrite list_rows.
  destruct (fill_table_spec d (active_version d) slot_ids (replicate 1024 0)) as (t & -> & Hl & Ht).
  { intros x Hx%elem_of_seqZ. split; [lia|]. apply Hc. lia. }
  { apply length_replicate. }
  exists (map u8 t). split; [done|]. split; [by rewrite length_map|]. intros i Hi.
  change (map u8 t) with (u8 <$> t). rewrite list_lookup_fmap, (Ht i Hi), decide_True.
  - by destruct (slot_rows d !! (active_version d, i)).
  - apply elem_of_seqZ. lia.
Qed.

(** Routing never depends on the fallback.  After any sequence of
    version creations, migration marks, activations and rollbacks starting
    from the migrated database, in any order and with any arguments, the
    active version has all 1024 slots, so [LoadActiveSlotMap] succeeds and
    publishes, for every slot, the stored shard (modulo the table's 8 bits). *)
Theorem active_map_always_loads ops s fb :
  let d := foldl exec initial_db ops in
  exists t, LoadActiveSlotMap d s fb = (true, mkSnapshot t (active_version d) (routing_epoch d)) /\
    forall i, 0 <= i < 1024 -> exists sh st,
      slot_rows d !! (active_version d, i) = Some (sh, st) /\
      t !! Z.to_nat i = Some (u8 (u16 sh)).
Proof.
  intros d. assert (complete d (active_version d)) as Hc.
  { unfold d. assert (complete initial_db (active_version initial_db)) as H0
      by apply initial_complete.
    revert H0. generalize initial_db. induction ops as [|o ops IH]; intros d0 H0; [done|].
    cbn [foldl]. apply IH. by apply exec_keeps_active_complete. }
  destruct (load_complete d s fb Hc) as (t & Ht & _ & Hl). exists t. split; [done|].
  intros i Hi. rewrite (Hl i Hi). destruct (Hc i Hi) as [[sh st] Hx]. rewrite Hx.
  by exists sh, st.
Qed.

(** ** Routing *)

Lemma slot_range x : 0 <= Z.land x 1023 < 1024.
Proof.
  change 1023 with (Z.ones 10). rewrite Z.land_ones by lia. apply Z.mod_pos_bound. lia.
Qed.

(** The modulo sharder.  With 1 to 256 buckets every campaign is routed
    to [slot mod n], a bucket below [n], where [slot] is the campaign's slot
    index; campaigns with the same slot index go to the same bucket. *)
Theorem static_sharder_routes n id :
  1 <= n <= 256 ->
  GetShard (NewStaticSlotSharder n) id = CampaignSlotIndex id mod n /\
  0 <= GetShard (NewStaticSlotSharder n) id < n /\ 0 <= CampaignSlotIndex id < 1024.
Proof.
  intros Hn. unfold GetShard, CampaignSlotIndex, SlotMask, NewStaticSlotSharder, buildSlotTable.
  cbn [Table]. pose proof (slot_range (crc32Castagnoli id)) as Hr.
  set (k := Z.land (crc32Castagnoli id) 1023) in *.
  assert (i16 k = k) as -> by (unfold i16; rewrite Z.mod_small; lia).
  replace (n <=? 0) with false by lia.
  change (map (fun i => u8 (Z.rem (Z.of_nat i) n)) (seq 0 1024)) with
    ((fun i => u8 (Z.rem (Z.of_nat i) n)) <$> seq 0 1024).
  rewrite list_lookup_fmap, lookup_seq_lt by lia. cbn [fmap option_fmap option_map default from_option].
  rewrite Nat.add_0_l, Z2Nat.id, Z.rem_mod_nonneg by lia.
  pose proof (Z.mod_pos_bound k n). rewrite u8_id by go_lia. cbn. lia.
Qed.

Lemma static_sharder_routes_witness :
  GetShard (NewStaticSlotSharder 4) (replicate 16 7) = CampaignSlotIndex (replicate 16 7) mod 4 /\
  0 <= GetShard (NewStaticSlotSharder 4) (replicate 16 7) < 4 /\
  0 <= CampaignSlotIndex (replicate 16 7) < 1024.
Proof. apply (static_sharder_routes 4 (replicate 16 7)). lia. Defined.

(** The tracker and the edge agree on a campaign's shard exactly when
    the shard number fits the tracker's 8-bit table: after
    [ApplySlotMapToSharder] the tracker routes to the edge's shard modulo
    256, for every campaign. *)
Theorem sharder_edge_parity s version active slots id :
  zlen slots = SlotCount -> Forall in_u16 slots ->
  exists s' k, ApplySlotMapToSharder s version active slots = Some s' /\
    ShardFromSlotTable id slots = Some k /\ GetShard s' id = k mod 256 /\
    (GetShard s' id = k <-> k < 256) /\
    Version s' = (if version =? 0 then active else version).
Proof.
  intros Hl Hu. unfold ApplySlotMapToSharder, ShardFromSlotTable. rewrite Hl, Z.eqb_refl.
  cbn [negb]. unfold SlotMask. pose proof (slot_range (crc32Castagnoli id)) as Hr.
  set (i := Z.land (crc32Castagnoli id) 1023) in *.
  destruct (lookup_lt_is_Some_2 slots (Z.to_nat i)) as [k Hk];
    [unfold zlen, SlotCount in Hl; lia|].
  do 2 eexists. split; [done|]. split; [by rewrite Hk|]. cbn [default from_option].
  assert (0 <= k) as Hk0 by (rewrite Forall_lookup in Hu; specialize (Hu _ _ Hk); go_lia).
  assert (GetShard (SetActiveVersion (StoreSlotMap s slots)
    (if version =? 0 then active else version)) id = k mod 256) as E.
  { unfold GetShard. cbn [SetActiveVersion StoreSlotMap SwapSnapshot Table].
    change (map u8 slots) with (u8 <$> slots). fold i. by rewrite list_lookup_fmap, Hk. }
  rewrite E. split; [done|]. split; [|done]. unfold Datatypes.id.
  pose proof (Z.mod_pos_bound k 256). split; intros H'; [lia|]. apply Z.mod_small. lia.
Qed.

Lemma sharder_edge_parity_witness :
  exists s' k, ApplySlotMapToSharder (NewStaticSlotSharder 1) 7 0 (replicate 1024 300) = Some s' /\
    ShardFromSlotTable (replicate 16 1) (replicate 1024 300) = Some k /\
    GetShard s' (replicate 16 1) = k mod 256 /\
    (GetShard s' (replicate 16 1) = k <-> k < 256) /\ Version s' = 7.
Proof.
  apply (sharder_edge_parity (NewStaticSlotSharder 1) 7 0 (replicate 1024 300) (replicate 16 1));
    [reflexivity | apply Forall_replicate; by split].
Defined.

Lemma create_next_version_spec_witness :
  let os := [mkOverride 5 9 (Some ACTIVE)] in
  (validate_all os = None /\ complete initial_db 1 /\ exists d',
     CreateNextVersion initial_db 1 os = (inr 2, d') /\ complete d' 2 /\
     (forall s, 0 <= s < 1024 -> exists x, slot_rows initial_db !! (1, s) = Some x /\
        slot_rows d' !! (2, s) = Some (last_override os s x)) /\
     (forall v s, v <> 2 -> slot_rows d' !! (v, s) = slot_rows initial_db !! (v, s)) /\
     active_version d' = active_version initial_db) \/
  (~ (validate_all os = None /\ complete initial_db 1) /\
     exists e, CreateNextVersion initial_db 1 os = (inl e, initial_db)).
Proof.
  assert (GetMaxSlotMapVersion initial_db = 1) as E by (vm_compute; reflexivity).
  pose proof (create_next_version_spec initial_db 1 [mkOverride 5 9 (Some ACTIVE)]) as H.
  rewrite E in H. apply H; lia.
Defined.

End SlotMap.
