(* ===== verification/RedisKeys.v ===== *)
(** * Redis keys and cluster slots

    Models [internal/domain/shard/redis_keys.go] and the key derivations of
    [internal/stream/local_quanta_keys.go]: the textual campaign id, the hash
    tags that keep a campaign's keys on one Redis Cluster node, the cluster
    slot computation, the debit sub-slot of a high-volume campaign, and the
    keys the budget synchronisation of [internal/domain/worker_sync.go] and the
    local-quota lane of [internal/stream/local_quanta_stream.go] use.  A Go
    string is its bytes; [uuid.UUID.String], third-party code, is the
    parameter [uuid_String]. *)

From stdpp Require Import pretty.
From S2P Require Import Prelude Wire SlotMap.
Open Scope Z_scope.

Module RedisKeys.

Import Wire.

Definition lit (s : string) : list Z :=
  map (fun c => Z.of_nat (Ascii.nat_of_ascii c)) (String.list_ascii_of_string s).

Definition hexChars : list Z := lit "0123456789abcdef".
Definition hex (n : Z) : Z := default 0 (hexChars !! Z.to_nat n).
Definition hex_byte (b : Z) : list Z := [hex (Z.shiftr b 4); hex (Z.land b 15)].
Definition hex_bytes (bs : list Z) : list Z := mjoin (map hex_byte bs).

Definition AppendUUID (dst u : list Z) : list Z :=
  dst ++ hex_bytes (take 4 u) ++ [45] ++ hex_bytes (take 2 (drop 4 u)) ++ [45] ++
  hex_bytes (take 2 (drop 6 u)) ++ [45] ++ hex_bytes (take 2 (drop 8 u)) ++ [45] ++
  hex_bytes (take 6 (drop 10 u)).

Definition campaignHashTag (id : list Z) : list Z := AppendUUID [123] id ++ [125].

(** [strconv.AppendInt] of a positive number. *)
Definition decimal (n : Z) : list Z := lit (pretty (Z.to_N n)).

Definition AppendCampaignSubHashTag (dst id : list Z) (sub : Z) : list Z :=
  AppendUUID (dst ++ [123]) id ++
  (if 0 <? sub then lit ":slot_" ++ (if sub <? 10 then [u8 (48 + sub)] else decimal sub) else []) ++
  [125].

Section Keys.
Context (uuid_String : list Z -> list Z).

Definition budgetCampaignKey (id : list Z) : list Z :=
  campaignHashTag id ++ lit "budget:campaign:" ++ uuid_String id.
Definition budgetQuotaKey (id : list Z) : list Z :=
  campaignHashTag id ++ lit "budget:quota:" ++ uuid_String id.
Definition campaignSyncKey (id : list Z) : list Z :=
  campaignHashTag id ++ lit "budget:sync:campaign:" ++ uuid_String id.
Definition customerSyncKey (campaignID customerID : list Z) : list Z :=
  campaignHashTag campaignID ++ lit "budget:sync:customer:" ++ uuid_String customerID.
Definition fcapKeyPrefix (campaignID brandFcapKey : list Z) : list Z :=
  match brandFcapKey with
  | [] => campaignHashTag campaignID ++ lit "fcap:c:" ++ uuid_String campaignID ++ lit ":u:"
  | _ => brandFcapKey ++ lit ":u:"
  end.
Definition dailySpendKeyPrefix (id : list Z) : list Z :=
  campaignHashTag id ++ lit "budget:daily_spent:campaign:" ++ uuid_String id ++ lit ":".
Definition PlacementBlacklistKey (id : list Z) : list Z :=
  campaignHashTag id ++ lit "blacklist:placement:" ++ uuid_String id.
Definition BudgetQuotaKeySub (id : list Z) (sub : Z) : list Z :=
  if sub <=? 0 then budgetQuotaKey id
  else AppendCampaignSubHashTag [] id sub ++ lit "budget:quota:" ++ uuid_String id.
Definition FcapKeyPrefixSub (campaignID brandFcapKey : list Z) (sub : Z) : list Z :=
  if (sub <=? 0) || negb (bool_decide (brandFcapKey = [])) then fcapKeyPrefix campaignID brandFcapKey
  else AppendUUID (AppendCampaignSubHashTag [] campaignID sub ++ lit "fcap:c:") campaignID ++ lit ":u:".

Definition budgetQuotaKeyForDebit (id : list Z) (subSlot : Z) : list Z :=
  if subSlot <=? 0 then budgetQuotaKey id else BudgetQuotaKeySub id subSlot.

(** The counter the sync worker reads ([prepareBudgetEntity]) and the one the
    local-quota lane increments ([flushShardPipeline]), per kind. *)
Definition prepare_sync_key (prefix id : list Z) : list Z :=
  if bool_decide (prefix = lit "campaign") then campaignSyncKey id
  else lit "budget:sync:" ++ prefix ++ lit ":" ++ uuid_String id.
Definition lane_campaign_sync_key (id : list Z) : list Z :=
  lit "budget:sync:campaign:" ++ uuid_String id.
Definition lane_customer_sync_key (id : list Z) : list Z :=
  lit "budget:sync:customer:" ++ uuid_String id.

End Keys.

(** ** Cluster slots *)

Definition crc16Table : list Z :=
  [
   0; 4129; 8258; 12387; 16516; 20645; 24774; 28903; 33032; 37161; 41290; 45419; 49548; 53677; 57806; 61935;
   4657; 528; 12915; 8786; 21173; 17044; 29431; 25302; 37689; 33560; 45947; 41818; 54205; 50076; 62463; 58334;
   9314; 13379; 1056; 5121; 25830; 29895; 17572; 21637; 42346; 46411; 34088; 38153; 58862; 62927; 50604; 54669;
   13907; 9842; 5649; 1584; 30423; 26358; 22165; 18100; 46939; 42874; 38681; 34616; 63455; 59390; 55197; 51132;
   18628; 22757; 26758; 30887; 2112; 6241; 10242; 14371; 51660; 55789; 59790; 63919; 35144; 39273; 43274; 47403;
   23285; 19156; 31415; 27286; 6769; 2640; 14899; 10770; 56317; 52188; 64447; 60318; 39801; 35672; 47931; 43802;
   27814; 31879; 19684; 23749; 11298; 15363; 3168; 7233; 60846; 64911; 52716; 56781; 44330; 48395; 36200; 40265;
   32407; 28342; 24277; 20212; 15891; 11826; 7761; 3696; 65439; 61374; 57309; 53244; 48923; 44858; 40793; 36728;
   37256; 33193; 45514; 41451; 53516; 49453; 61774; 57711; 4224; 161; 12482; 8419; 20484; 16421; 28742; 24679;
   33721; 37784; 41979; 46042; 49981; 54044; 58239; 62302; 689; 4752; 8947; 13010; 16949; 21012; 25207; 29270;
   46570; 42443; 38312; 34185; 62830; 58703; 54572; 50445; 13538; 9411; 5280; 1153; 29798; 25671; 21540; 17413;
   42971; 47098; 34713; 38840; 59231; 63358; 50973; 55100; 9939; 14066; 1681; 5808; 26199; 30326; 17941; 22068;
   55628; 51565; 63758; 59695; 39368; 35305; 47498; 43435; 22596; 18533; 30726; 26663; 6336; 2273; 14466; 10403;
   52093; 56156; 60223; 64286; 35833; 39896; 43963; 48026; 19061; 23124; 27191; 31254; 2801; 6864; 10931; 14994;
   64814; 60687; 56684; 52557; 48554; 44427; 40424; 36297; 31782; 27655; 23652; 19525; 15522; 11395; 7392; 3265;
   61215; 65342; 53085; 57212; 44955; 49082; 36825; 40952; 28183; 32310; 20053; 24180; 11923; 16050; 3793; 7920
  ].

Definition crc16_step (crc b : Z) : Z :=
  Z.lxor (u16 (Z.shiftl crc 8))
    (default 0 (crc16Table !! Z.to_nat (Z.lxor (u8 (Z.shiftr crc 8)) b))).
Definition crc16 (data : list Z) : Z := foldl crc16_step 0 data.

(** The scan for the tag: the last opening brace before the first closing
    brace that has one. *)
Fixpoint tag_scan (key : list Z) (i tagStart : Z) : Z * Z :=
  match key with
  | [] => (tagStart, -1)
  | c :: rest =>
      if c =? 123 then tag_scan rest (i + 1) i
      else if (c =? 125) && (0 <=? tagStart) then (tagStart, i)
      else tag_scan rest (i + 1) tagStart
  end.

Definition RedisClusterSlot (key : list Z) : Z :=
  let '(tagStart, tagEnd) := tag_scan key 0 (-1) in
  let hashKey :=
    if (0 <=? tagStart) && (tagStart + 1 <? tagEnd)
    then take (Z.to_nat (tagEnd - tagStart - 1)) (drop (Z.to_nat (tagStart + 1)) key)
    else key in
  crc16 hashKey mod 16384.

(** ** Debit sub-slots *)

Record Campaign := mkCampaign {
  ID : list Z; CustomerID : list Z; BehaviorFlags : Z; BrandFcapKey : list Z;
  FreqLimit : Z; FreqWindow : Z
}.

Definition BehaviorHighVolumeDebit : Z := 256.
Definition HighVolumeDebitSubShards : Z := 4.

Definition DebitSubShardCount (c : option Campaign) : Z :=
  match c with
  | None => 0
  | Some c => if Z.land (BehaviorFlags c) BehaviorHighVolumeDebit =? 0 then 0
              else HighVolumeDebitSubShards
  end.

(** CRC-32 (IEEE), bit by bit, on the complemented register. *)
Definition ieee_bit (c : Z) : Z :=
  if Z.testbit c 0 then Z.lxor (Z.shiftr c 1) 3988292384 else Z.shiftr c 1.
Definition ieee_byte (c b : Z) : Z := Nat.iter 8 ieee_bit (Z.lxor c b).
Definition crc32_Update (crc : Z) (bs : list Z) : Z :=
  Z.lxor (foldl ieee_byte (Z.lxor crc 4294967295) bs) 4294967295.

(** Writes into a 36-byte buffer. *)
Definition hex_at (b : list Z) (i : nat) (v : Z) : list Z :=
  <[S i := hex (Z.land v 15)]> (<[i := hex (Z.shiftr v 4)]> b).
Definition formatUUIDCanonical (dst id : list Z) : list Z :=
  let at_ i := default 0 (id !! i) in
  let b := hex_at dst 0 (at_ 0%nat) in let b := hex_at b 2 (at_ 1%nat) in
  let b := hex_at b 4 (at_ 2%nat) in let b := hex_at b 6 (at_ 3%nat) in
  let b := <[8%nat := 45]> b in
  let b := hex_at b 9 (at_ 4%nat) in let b := hex_at b 11 (at_ 5%nat) in
  let b := <[13%nat := 45]> b in
  let b := hex_at b 14 (at_ 6%nat) in let b := hex_at b 16 (at_ 7%nat) in
  let b := <[18%nat := 45]> b in
  let b := hex_at b 19 (at_ 8%nat) in let b := hex_at b 21 (at_ 9%nat) in
  let b := <[23%nat := 45]> b in
  let b := hex_at b 24 (at_ 10%nat) in let b := hex_at b 26 (at_ 11%nat) in
  let b := hex_at b 28 (at_ 12%nat) in let b := hex_at b 30 (at_ 13%nat) in
  let b := hex_at b 32 (at_ 14%nat) in hex_at b 34 (at_ 15%nat).

Definition is_nil_uuid (id : list Z) : bool := bool_decide (id = replicate 16 0).

Definition computeCompositeHashUUID (campaignID userID : list Z) : Z :=
  if is_nil_uuid campaignID then
    match userID with [] => 0 | _ => crc32_Update 0 userID end
  else
    let crc := crc32_Update 0 (formatUUIDCanonical (replicate 36 0) campaignID) in
    match userID with [] => crc | _ => crc32_Update crc userID end.

Definition debitSubSlot (camp : Campaign) (userID clickID : list Z) : Z :=
  let n := DebitSubShardCount (Some camp) in
  if n <=? 1 then 0
  else
    let key := match userID with [] => clickID | _ => userID end in
    match key with
    | [] => 0
    | _ => computeCompositeHashUUID (ID camp) key mod n
    end.

Definition spreadHighVolumeShard (shardCount : Z) (campaignID : list Z) (subSlot : Z) : Z :=
  if shardCount <=? 1 then 0
  else u32 (SlotMap.crc32Castagnoli campaignID + u32 subSlot) mod u32 shardCount.

Definition fcapKeyPrefixForDebit (uuid_String : list Z -> list Z) (camp : option Campaign)
    (userID clickID : list Z) : list Z :=
  match camp with
  | None => []
  | Some c => FcapKeyPrefixSub uuid_String (ID c) (BrandFcapKey c) (debitSubSlot c userID clickID)
  end.

(** Check values: CRC-16/XMODEM, CRC-32 and the slot of a tagged key. *)
Example crc16_check : crc16 (lit "123456789") = 12739.
Proof. reflexivity. Qed.

Example crc32_check : crc32_Update 0 (lit "123456789") = 3421780262.
Proof. reflexivity. Qed.

(** ** The tag of a key *)

Definition plain (c : Z) : Prop := c <> 123 /\ c <> 125.

Lemma hex_plain n : plain (hex n).
Proof.
  unfold hex. destruct (hexChars !! Z.to_nat n) as [c|] eqn:E; [|split; discriminate].
  assert (Forall plain hexChars) as H by (repeat constructor; discriminate).
  exact (proj1 (Forall_lookup _ _) H _ _ E).
Qed.

Lemma hex_bytes_plain bs : Forall plain (hex_bytes bs).
Proof.
  unfold hex_bytes. induction bs as [|b bs IH]; [constructor|]. cbn.
  repeat apply Forall_cons_2; auto using hex_plain.
Qed.

Lemma uuid_plain u : Forall plain (AppendUUID [] u).
Proof.
  unfold AppendUUID. rewrite app_nil_l.
  repeat apply Forall_app_2; auto using hex_bytes_plain; repeat constructor; discriminate.
Qed.

Lemma AppendUUID_app d u : AppendUUID d u = d ++ AppendUUID [] u.
Proof. unfold AppendUUID. by rewrite app_nil_l. Qed.

Lemma uuid_not_nil u : AppendUUID [] u <> [].
Proof. intros H%(f_equal length). unfold AppendUUID in H. rewrite !length_app in H. cbn in H. lia. Qed.

Lemma tag_scan_plain body rest i t :
  Forall plain body -> 0 <= t -> tag_scan (body ++ [125] ++ rest) i t = (t, i + zlen body).
Proof.
  intros H Ht. revert i. induction H as [|c l [Hc1 Hc2] _ IH]; intros i.
  - cbn. replace (0 <=? t) with true by lia. cbn. f_equal. unfold zlen. cbn. lia.
  - cbn [app tag_scan]. replace (c =? 123) with false by lia. replace (c =? 125) with false by lia.
    cbn [andb]. change (l ++ 125 :: rest) with (l ++ [125] ++ rest). rewrite IH. f_equal.
    unfold zlen. cbn [length]. lia.
Qed.

(** A key of the form {body}rest hashes its body. *)
Lemma slot_of_tag body rest :
  Forall plain body -> body <> [] ->
  RedisClusterSlot ([123] ++ body ++ [125] ++ rest) = crc16 body mod 16384.
Proof.
  intros H Hne. unfold RedisClusterSlot. cbn [app tag_scan].
  change (123 =? 123) with true. cbv iota.
  change (body ++ 125 :: rest) with (body ++ [125] ++ rest).
  rewrite tag_scan_plain by (done || lia).
  assert (0 < zlen body) by (destruct body; [done|unfold zlen; cbn; lia]).
  replace ((0 <=? 0) && (0 + 1 <? 0 + 1 + zlen body)) with true by lia.
  cbn [app]. change (Z.to_nat (0 + 1)) with 1%nat. cbn [drop].
  replace (Z.to_nat (0 + 1 + zlen body - 0 - 1)) with (length body) by (unfold zlen; lia).
  rewrite drop_0, take_app_length. done.
Qed.

Lemma tag_shape id rest :
  campaignHashTag id ++ rest = [123] ++ AppendUUID [] id ++ [125] ++ rest.
Proof. unfold campaignHashTag. rewrite AppendUUID_app, <- !app_assoc. done. Qed.

Lemma sub_tag_shape id sub rest :
  0 < sub < 10 ->
  AppendCampaignSubHashTag [] id sub ++ rest =
    [123] ++ (AppendUUID [] id ++ lit ":slot_" ++ [48 + sub]) ++ [125] ++ rest.
Proof.
  intros H. unfold AppendCampaignSubHashTag. rewrite AppendUUID_app, app_nil_l.
  replace (0 <? sub) with true by lia. replace (sub <? 10) with true by lia.
  rewrite u8_id by go_lia. rewrite <- !app_assoc. done.
Qed.

Lemma debitSubSlot_range camp u c : 0 <= debitSubSlot camp u c < 4.
Proof.
  unfold debitSubSlot. destruct (DebitSubShardCount (Some camp) <=? 1) eqn:E; [lia|].
  assert (DebitSubShardCount (Some camp) = 4) as ->.
  { unfold DebitSubShardCount in *. case_match; [discriminate E|reflexivity]. }
  cbv zeta. destruct (match u with [] => c | _ => u end); [lia|]. apply Z.mod_pos_bound. lia.
Qed.

(** One campaign, one cluster node.  Every key of a campaign hashes to the
    slot of its textual id, whatever text follows the hash tag, so a script
    may use them together; and the quota key and the frequency-cap prefix of
    one debit of a campaign without a brand cap share a slot too, whichever
    debit sub-slot the user or click selects. *)
Theorem campaign_keys_colocated uuid_String id customer user click rest camp :
  Forall (fun k => RedisClusterSlot (k ++ rest) = crc16 (AppendUUID [] id) mod 16384)
    [budgetCampaignKey uuid_String id; budgetQuotaKey uuid_String id;
     campaignSyncKey uuid_String id; customerSyncKey uuid_String id customer;
     fcapKeyPrefix uuid_String id []; dailySpendKeyPrefix uuid_String id;
     PlacementBlacklistKey uuid_String id] /\
  (BrandFcapKey camp = [] ->
   RedisClusterSlot (fcapKeyPrefixForDebit uuid_String (Some camp) user click ++ rest) =
   RedisClusterSlot (budgetQuotaKeyForDebit uuid_String (ID camp) (debitSubSlot camp user click))).
Proof.
  split.
  - unfold budgetCampaignKey, budgetQuotaKey, campaignSyncKey, customerSyncKey, fcapKeyPrefix,
      dailySpendKeyPrefix, PlacementBlacklistKey.
    repeat apply Forall_cons_2; [..|constructor]; rewrite <- app_assoc, tag_shape;
      apply slot_of_tag; auto using uuid_plain, uuid_not_nil.
  - intros Hb. unfold fcapKeyPrefixForDebit, FcapKeyPrefixSub, budgetQuotaKeyForDebit, BudgetQuotaKeySub.
    pose proof (debitSubSlot_range camp user click) as Hr.
    set (sub := debitSubSlot camp user click) in *. rewrite Hb.
    rewrite bool_decide_eq_true_2 by done. cbn [negb]. rewrite orb_false_r.
    destruct (sub <=? 0) eqn:Es.
    + unfold fcapKeyPrefix, budgetQuotaKey. rewrite <- app_assoc, !tag_shape.
      rewrite !slot_of_tag; auto using uuid_plain, uuid_not_nil.
    + assert (0 < sub < 10) by lia. rewrite AppendUUID_app, <- !app_assoc.
      rewrite !sub_tag_shape by done. rewrite !slot_of_tag; auto.
      all: try (intros HH%(f_equal length); rewrite !length_app in HH; cbn in HH; lia).
      all: apply Forall_app_2; [apply uuid_plain|]; apply Forall_app_2;
        [repeat constructor; discriminate|repeat constructor; lia].
Qed.

Lemma campaign_keys_colocated_witness :
  let camp := mkCampaign (replicate 16 171) (replicate 16 1) 256 [] 0 0 in
  BrandFcapKey camp = [] /\
  RedisClusterSlot (fcapKeyPrefixForDebit (AppendUUID []) (Some camp) (lit "u1") [] ++ lit "u1") =
  RedisClusterSlot (budgetQuotaKeyForDebit (AppendUUID []) (ID camp) (debitSubSlot camp (lit "u1") [])).
Proof.
  split; [reflexivity|].
  apply (campaign_keys_colocated (AppendUUID []) (replicate 16 171) [] (lit "u1") [] (lit "u1")
    (mkCampaign (replicate 16 171) (replicate 16 1) 256 [] 0 0)). reflexivity.
Defined.

(** Two counters that never meet.  The local-quota lane adds a
    campaign's spend to a key that is not the one the sync worker drains,
    for any campaigns, and the filter adds a customer's spend to a key that
    is not the one the customer sync drains; only the lane's customer key
    and the filter's campaign key are drained. *)
Theorem sync_keys_diverge uuid_String id id' camp camp' :
  lane_campaign_sync_key uuid_String id <> prepare_sync_key uuid_String (lit "campaign") id' /\
  customerSyncKey uuid_String camp id <> prepare_sync_key uuid_String (lit "customer") id' /\
  lane_customer_sync_key uuid_String id = prepare_sync_key uuid_String (lit "customer") id /\
  campaignSyncKey uuid_String camp' = prepare_sync_key uuid_String (lit "campaign") camp'.
Proof.
  unfold prepare_sync_key. rewrite bool_decide_eq_true_2 by done.
  rewrite bool_decide_eq_false_2 by (vm_compute; discriminate).
  unfold campaignSyncKey, customerSyncKey. rewrite !tag_shape.
  split_and!; try done; intros [=].
Qed.

(** ** CRC-16 against its polynomial *)

(** The bitwise definition of CRC-16/XMODEM: polynomial 0x1021. *)
Definition xmodem_bit (c : Z) : Z :=
  if Z.testbit c 15 then Z.lxor (u16 (Z.shiftl c 1)) 4129 else u16 (Z.shiftl c 1).
Definition xmodem_byte (c b : Z) : Z := Nat.iter 8 xmodem_bit (Z.lxor c (Z.shiftl b 8)).
Definition xmodem (data : list Z) : Z := foldl xmodem_byte 0 data.

Lemma u16_lxor a b : u16 (Z.lxor a b) = Z.lxor (u16 a) (u16 b).
Proof.
  unfold u16. change 65536 with (2 ^ 16). rewrite <- !Z.land_ones by lia.
  apply Z.bits_inj'. intros m _. rewrite !Z.land_spec, !Z.lxor_spec, !Z.land_spec.
  by destruct (Z.testbit a m), (Z.testbit b m), (Z.testbit (Z.ones 16) m).
Qed.

Lemma xmodem_bit_lxor a b : xmodem_bit (Z.lxor a b) = Z.lxor (xmodem_bit a) (xmodem_bit b).
Proof.
  unfold xmodem_bit. rewrite Z.lxor_spec, Z.shiftl_lxor, u16_lxor.
  set (x := u16 (Z.shiftl a 1)). set (y := u16 (Z.shiftl b 1)).
  destruct (Z.testbit a 15), (Z.testbit b 15); cbn [xorb];
    apply Z.bits_inj'; intros m _; rewrite !Z.lxor_spec;
    by destruct (Z.testbit x m), (Z.testbit y m), (Z.testbit 4129 m).
Qed.

Lemma xmodem_iter_lxor n a b :
  Nat.iter n xmodem_bit (Z.lxor a b) = Z.lxor (Nat.iter n xmodem_bit a) (Nat.iter n xmodem_bit b).
Proof. induction n as [|n IH]; [done|]. rewrite !Nat.iter_succ, IH. apply xmodem_bit_lxor. Qed.

Lemma xmodem_table :
  Forall (fun h => Nat.iter 8 xmodem_bit (Z.shiftl h 8) = default 0 (crc16Table !! Z.to_nat h) /\
                   Nat.iter 8 xmodem_bit h = Z.shiftl h 8) (seqZ 0 256).
Proof. apply (bool_decide_unpack _). vm_compute. exact I. Qed.

Lemma lxor_byte a b : is_byte a -> is_byte b -> is_byte (Z.lxor a b).
Proof.
  unfold is_byte. intros Ha Hb. assert (Z.lxor a b = u8 (Z.lxor a b)) as ->.
  { unfold u8. change 256 with (2 ^ 8) in *. rewrite <- Z.land_ones by lia.
    apply Z.bits_inj'. intros m _. rewrite Z.land_spec.
    destruct (decide (m < 8)) as [Hm|Hm].
    - destruct (decide (0 <= m)); [|rewrite !Z.testbit_neg_r by lia; done].
      rewrite Z.ones_spec_low by lia. by rewrite andb_true_r.
    - rewrite Z.ones_spec_high by lia. rewrite andb_false_r, Z.lxor_spec.
      rewrite <- (Z.mod_small a (2 ^ 8)), <- (Z.mod_small b (2 ^ 8)) by lia.
      rewrite !Z.mod_pow2_bits_high by lia. done. }
  apply u8_range.
Qed.

Lemma crc16_step_ref c b :
  in_u16 c -> is_byte b -> crc16_step c b = xmodem_byte c b /\ in_u16 (crc16_step c b).
Proof.
  intros Hc Hb. unfold crc16_step, xmodem_byte.
  set (hi := u8 (Z.shiftr c 8)). set (lo := c mod 256).
  assert (is_byte hi) as Hhi by apply u8_range.
  assert (is_byte lo) as Hlo by (apply Z.mod_pos_bound; lia).
  assert (hi = c / 256) as Ehi.
  { unfold hi. rewrite Z.shiftr_div_pow2 by lia. change (2 ^ 8) with 256.
    apply u8_id. unfold in_u16, in_u8 in *.
    split; [apply Z.div_pos; lia|apply Z.div_lt_upper_bound; lia]. }
  assert (c = hi * 256 + lo) as Ec by (pose proof (Z.div_mod c 256); unfold lo; lia).
  assert (c = Z.lxor (Z.shiftl hi 8) lo) as Ex.
  {
    rewrite <- Z.add_nocarry_lxor by (apply land_shiftl_low; unfold is_byte in Hlo; lia).
    rewrite Z.shiftl_mul_pow2 by lia. exact Ec. }
  assert (u16 (Z.shiftl c 8) = Z.shiftl lo 8) as ->.
  { rewrite !Z.shiftl_mul_pow2 by lia. change (2 ^ 8) with 256. unfold u16.
    rewrite Ec. replace ((hi * 256 + lo) * 256) with (lo * 256 + hi * 65536) by lia.
    rewrite Z.mod_add by lia. unfold is_byte in Hlo. rewrite Z.mod_small; lia. }
  assert (Z.lxor c (Z.shiftl b 8) = Z.lxor (Z.shiftl (Z.lxor hi b) 8) lo) as ->.
  { rewrite Ex at 1. rewrite Z.shiftl_lxor, !Z.lxor_assoc. f_equal. apply Z.lxor_comm. }
  pose proof (lxor_byte hi b Hhi Hb) as Hx.
  pose proof xmodem_table as Ht. rewrite Forall_forall in Ht.
  destruct (Ht (Z.lxor hi b)) as [Ht1 _]; [apply elem_of_seqZ; unfold is_byte in *; lia|].
  destruct (Ht lo) as [_ Ht2]; [apply elem_of_seqZ; unfold is_byte in *; lia|].
  rewrite xmodem_iter_lxor, <- Ht1, Ht2. split; [apply Z.lxor_comm|].
  rewrite <- Ht2, Z.lxor_comm, <- xmodem_iter_lxor. set (v := Z.lxor _ _).
  change (Nat.iter 8 xmodem_bit v) with (xmodem_bit (Nat.iter 7 xmodem_bit v)).
  set (w := Nat.iter 7 xmodem_bit v). unfold xmodem_bit.
  case_match; [|apply Z.mod_pos_bound; lia].
  replace 4129 with (u16 4129) by done. rewrite <- u16_lxor. apply Z.mod_pos_bound. lia.
Qed.

(** The table is the polynomial.  The table-driven [crc16] computes
    CRC-16/XMODEM, bit for bit, of every byte string. *)
Theorem crc16_is_xmodem data :
  Forall is_byte data -> crc16 data = xmodem data /\ in_u16 (crc16 data).
Proof.
  unfold crc16, xmodem. assert (in_u16 0) as H0 by (split; lia). revert H0.
  generalize 0 at 1 2 3 4. intros c Hc H. revert c Hc.
  induction H as [|b l Hb _ IH]; intros c Hc; [done|]. cbn [foldl].
  destruct (crc16_step_ref c b Hc Hb) as [<- Hr]. by apply IH.
Qed.

Lemma crc16_is_xmodem_witness :
  Forall is_byte (lit "{a}b") /\ crc16 (lit "{a}b") = xmodem (lit "{a}b").
Proof.
  assert (Forall is_byte (lit "{a}b")) as H by (apply (bool_decide_unpack _); vm_compute; exact I).
  split; [exact H|]. apply (crc16_is_xmodem (lit "{a}b") H).
Defined.

(** ** The textual id *)

Ltac destruct_uuid id := do 16 (destruct id as [|? id]; [discriminate|]);
  destruct id; [|discriminate].

(** The two formatters write the same text. *)
Lemma format_is_append id :
  length id = 16%nat -> formatUUIDCanonical (replicate 36 0) id = AppendUUID [] id.
Proof. intros H. destruct_uuid id. reflexivity. Qed.

Lemma hex_table :
  Forall (fun a => Forall (fun b => hex_byte a = hex_byte b -> a = b) (seqZ 0 256)) (seqZ 0 256).
Proof. apply (bool_decide_unpack _). vm_compute. exact I. Qed.

Lemma hex_byte_inj a b : is_byte a -> is_byte b -> hex_byte a = hex_byte b -> a = b.
Proof.
  intros Ha Hb.
  assert (a ∈ seqZ 0 256 /\ b ∈ seqZ 0 256) as [Ia Ib]
    by (rewrite !elem_of_seqZ; unfold is_byte in *; lia).
  exact (proj1 (Forall_forall _ _) (proj1 (Forall_forall _ _) hex_table a Ia) b Ib).
Qed.

Lemma hex_bytes_inj l l' :
  length l = length l' -> Forall is_byte l -> Forall is_byte l' ->
  hex_bytes l = hex_bytes l' -> l = l'.
Proof.
  intros Hl H. revert l' Hl. induction H as [|a l Ha _ IH]; intros [|b l'] Hl H' E; try done.
  apply Forall_cons in H' as [Hb H']. cbn in E. injection E as E1 E2 E3.
  f_equal; [apply hex_byte_inj; auto; unfold hex_byte; congruence|]. apply IH; auto.
Qed.

(** Distinct ids have distinct texts, hence distinct hash tags. *)
Lemma uuid_text_inj id id' :
  length id = 16%nat -> length id' = 16%nat -> Forall is_byte id -> Forall is_byte id' ->
  AppendUUID [] id = AppendUUID [] id' -> id = id'.
Proof.
  intros Hl Hl' Hb Hb' E. apply hex_bytes_inj; [congruence|done|done|].
  destruct_uuid id. destruct_uuid id'. cbn in E. unfold hex_bytes. cbn. congruence.
Qed.

End RedisKeys.
