(* ===== verification/QuantaLedger.v ===== *)
(** * Local quota ledger

    Models [internal/stream/local_quanta.go], [local_quanta_flush.go],
    [local_quanta_refill.go], [local_quanta_strict.go], the embedded scripts
    [local-quota-refill.lua] and [local-quota-return.lua], the recovery path
    of [local_quanta_broker.go] and the publication of local debits in
    [internal/filter/unified/unified_eval.go].  A tracker holds chunks of
    campaign budget in 4096 cells, refills them from the Redis quota keys and
    flushes them back.  The sharder, the campaign registry and
    [uuid.UUID.String] are parameters; a Redis shard is the map of its quota
    keys; what Redis answers (error, executed, executed but unacknowledged) is
    an input of each operation.  [float64] is [SpecFloat] at 53 bits. *)

From Stdlib Require Import SpecFloat.
From S2P Require Import Prelude SlotMap RedisKeys.
Open Scope Z_scope.

Module QuantaLedger.

Import RedisKeys.

Definition localQuantaSlotCount : Z := 4096.
Definition localQuantaSlotMask : Z := 4095.

Record LocalQuantaCell := mkCell {
  campaignHash : Z; remaining : Z; chunkSize : Z; rpsEMA : Z; campaignID : list Z
}.

Definition nil_uuid : list Z := replicate 16 0.
Definition zero_cell : LocalQuantaCell := mkCell 0 0 0 0 nil_uuid.
#[export] Instance cell_inhabited : Inhabited LocalQuantaCell := populate zero_cell.

Definition with_remaining (c : LocalQuantaCell) (r : Z) : LocalQuantaCell :=
  mkCell (campaignHash c) r (chunkSize c) (rpsEMA c) (campaignID c).

Definition NewLocalQuantaLedger : list LocalQuantaCell := replicate 4096 zero_cell.

(** ** Cells *)

Definition ledgerCellHash (id : list Z) (subSlot : Z) : Z :=
  let h := SlotMap.crc32Castagnoli id in
  if 0 <? subSlot then Z.lxor h (u32 subSlot *u32 2246822507) else h.

Definition cell_index (id : list Z) (subSlot : Z) : Z :=
  let base := SlotMap.crc32Castagnoli id in
  let sub := Z.land subSlot 3 in
  Z.land (base +u32 (u32 sub *u32 1024)) localQuantaSlotMask.

(** [cellForDebit] returns a pointer: the index of the cell. *)
Definition cellForDebit (id : list Z) (subSlot : Z) : nat * Z :=
  (Z.to_nat (cell_index id subSlot), ledgerCellHash id subSlot).

Definition HasCredit (l : list LocalQuantaCell) (id : list Z) : bool :=
  let '(i, h) := cellForDebit id 0 in
  (campaignHash (l !!! i) =? h) && (0 <? remaining (l !!! i)).

Definition RemainingDebit (l : list LocalQuantaCell) (id : list Z) (sub : Z) : Z :=
  let '(i, h) := cellForDebit id sub in
  if campaignHash (l !!! i) =? h then remaining (l !!! i) else 0.
Definition Remaining (l : list LocalQuantaCell) (id : list Z) : Z := RemainingDebit l id 0.

Definition ChunkSize (l : list LocalQuantaCell) (id : list Z) : Z :=
  let '(i, h) := cellForDebit id 0 in
  if campaignHash (l !!! i) =? h then chunkSize (l !!! i) else 0.

Definition RefundDebit (l : list LocalQuantaCell) (id : list Z) (subSlot amountMicro : Z) : list LocalQuantaCell :=
  if amountMicro <=? 0 then l
  else
    let '(i, h) := cellForDebit id subSlot in
    if negb (campaignHash (l !!! i) =? h) then l
    else <[i := with_remaining (l !!! i) (remaining (l !!! i) +64 amountMicro)]> l.

Definition recordSpendEMA (c : LocalQuantaCell) : LocalQuantaCell :=
  let next := rpsEMA c +u64 100 in
  mkCell (campaignHash c) (remaining c) (chunkSize c)
    (if 1000000 <? next then 1000000 else next) (campaignID c).

(** One successful iteration of the compare-and-swap loop. *)
Definition TrySpendDebit (l : list LocalQuantaCell) (id : list Z) (subSlot amountMicro : Z) : bool * list LocalQuantaCell :=
  if amountMicro <=? 0 then (true, l)
  else
    let '(i, h) := cellForDebit id subSlot in
    let cell := l !!! i in
    if negb (campaignHash cell =? h) then (false, l)
    else
      let rem := remaining cell in
      if rem <? amountMicro then (false, l)
      else (true, <[i := recordSpendEMA (with_remaining cell (rem -64 amountMicro))]> l).

Definition CreditDebit (l : list LocalQuantaCell) (id : list Z) (subSlot amountMicro chunk : Z) : list LocalQuantaCell :=
  if amountMicro <=? 0 then l
  else
    let '(i, h) := cellForDebit id subSlot in
    let cell := l !!! i in
    <[i := mkCell h (remaining cell +64 amountMicro)
             (if 0 <? chunk then chunk else chunkSize cell) (rpsEMA cell) id]> l.

Definition NeedsRefill (l : list LocalQuantaCell) (id : list Z) (thresholdPct : Z) : bool :=
  let '(i, h) := cellForDebit id 0 in
  let cell := l !!! i in
  if negb (campaignHash cell =? h) || (chunkSize cell <=? 0) then true
  else if remaining cell <=? 0 then true
  else
    let pct := if thresholdPct <=? 0 then 20 else thresholdPct in
    remaining cell <? (chunkSize cell *64 pct) /64 100.

(** ** Rates and chunks *)

Definition f64 := spec_float.
Definition f_of_Z (z : Z) : f64 := binary_normalize 53 1024 z 0 false.
Definition f_div (a b : f64) : f64 := SFdiv 53 1024 a b.
Definition f_mul (a b : f64) : f64 := SFmul 53 1024 a b.
(** The conversion to [int64], exact when the value is in range. *)
Definition f_trunc (f : f64) : Z :=
  match f with
  | S754_finite s m e =>
      let v := if 0 <=? e then Zpos m * 2 ^ e else Zpos m / 2 ^ (- e) in if s then - v else v
  | _ => 0
  end.

Definition RPSEMA (l : list LocalQuantaCell) (id : list Z) : f64 :=
  let '(i, h) := cellForDebit id 0 in
  if campaignHash (l !!! i) =? h then f_div (f_of_Z (rpsEMA (l !!! i))) (f_of_Z 1000) else f_of_Z 0.

Definition AdaptiveChunkSize (emaRPS : f64) (floorMicro ceilingMicro baseChunk : Z) : Z :=
  let baseChunk := if baseChunk <=? 0 then 5000000 else baseChunk in
  let floorMicro := if floorMicro <=? 0 then 500000 else floorMicro in
  let ceilingMicro := if ceilingMicro <=? 0 then 50000000 else ceilingMicro in
  let chunk :=
    if SFltb (f_of_Z 0) emaRPS then
      let scaled := f_trunc (f_mul emaRPS (f_of_Z 10000)) in
      if 0 <? scaled then scaled else baseChunk
    else baseChunk in
  let chunk := if chunk <? floorMicro then floorMicro else chunk in
  if ceilingMicro <? chunk then ceilingMicro else chunk.

Definition AdaptiveChunkSizeStrict (emaRPS : f64)
    (floorMicro ceilingMicro baseChunk redisRemaining strictThreshold : Z) : Z :=
  let floor :=
    if (0 <? strictThreshold) && (0 <? redisRemaining) && (redisRemaining <? strictThreshold *64 2)
    then
      let half := floorMicro /64 2 in
      let half := if half <? 100000 then 100000 else half in
      let floor := if half <? floorMicro then half else floorMicro in
      if redisRemaining <? strictThreshold then
        let quarter := floorMicro /64 4 in
        let quarter := if quarter <? 50000 then 50000 else quarter in
        if quarter <? floor then quarter else floor
      else floor
    else floorMicro in
  AdaptiveChunkSize emaRPS floor ceilingMicro baseChunk.

Definition adaptiveRefillThresholdPct (emaRPS : f64) (basePct : Z) : Z :=
  let basePct := if basePct <=? 0 then 20 else basePct in
  if SFleb (f_of_Z 500) emaRPS then (if 10 <? basePct then basePct /64 2 else 10)
  else if SFltb (f_of_Z 0) emaRPS && SFltb emaRPS (f_of_Z 5) then
    let capPct := basePct *64 2 in if 40 <? capPct then 40 else capPct
  else basePct.

(** ** Strict mode *)

Record LocalQuantaStrict := mkStrict { enterMicro : Z; exitMicro : Z; flags : list Z }.

Definition NewLocalQuantaStrict (enter exit : Z) : LocalQuantaStrict :=
  let enter := if enter <=? 0 then 5000000 else enter in
  let exit := if exit <=? enter then enter +64 3000000 else exit in
  mkStrict enter exit (replicate 4096 0).

Definition slotIndex (id : list Z) : Z := Z.land (SlotMap.crc32Castagnoli id) localQuantaSlotMask.

Definition IsStrict (s : option LocalQuantaStrict) (id : list Z) : bool :=
  match s with
  | None => false
  | Some s => default 0 (flags s !! Z.to_nat (slotIndex id)) =? 1
  end.

Definition UpdateFromRedisRemaining (s : option LocalQuantaStrict) (id : list Z) (redisRemaining : Z)
    : option LocalQuantaStrict :=
  match s with
  | None => None
  | Some s =>
      let idx := slotIndex id in
      Some (mkStrict (enterMicro s) (exitMicro s)
        (if redisRemaining <? enterMicro s then set_z (flags s) idx 1
         else if exitMicro s <=? redisRemaining then set_z (flags s) idx 0
         else flags s))
  end.

(** ** Flushing *)

Definition takeRemainingDebit (l : list LocalQuantaCell) (id : list Z) (subSlot : Z) : Z * list LocalQuantaCell :=
  let '(i, h) := cellForDebit id subSlot in
  let cell := l !!! i in
  if negb (campaignHash cell =? h) then (0, l)
  else if remaining cell <=? 0 then (0, l)
  else (remaining cell, <[i := with_remaining cell 0]> l).

Definition TakeRemaining (l : list LocalQuantaCell) (id : list Z) : Z * list LocalQuantaCell :=
  foldl (fun '(total, l) sub => let '(t, l') := takeRemainingDebit l id sub in (total +64 t, l'))
    (0, l) [0; 1; 2; 3].

(** The calls [FlushOccupied] makes, and the ledger after them. *)
Fixpoint flush_cells (l : list LocalQuantaCell) : list (list Z * Z) * list LocalQuantaCell :=
  match l with
  | [] => ([], [])
  | cell :: rest =>
      let '(calls, rest') := flush_cells rest in
      if (campaignHash cell =? 0) || (remaining cell <=? 0) then (calls, cell :: rest')
      else if bool_decide (campaignID cell = nil_uuid) then (calls, with_remaining cell 0 :: rest')
      else ((campaignID cell, remaining cell) :: calls, with_remaining cell 0 :: rest')
  end.
Definition FlushOccupied (l : list LocalQuantaCell) : list (list Z * Z) * list LocalQuantaCell := flush_cells l.

(** ** list (gmap (list Z) Z) *)

(** How a script call ends: executed and acknowledged, not executed, or
    executed with the acknowledgement lost. *)
Inductive ScriptOutcome := Executed | Failed | ExecutedNoReply.

Definition quota_get (r : list (gmap (list Z) Z)) (shard : Z) (key : list Z) : Z :=
  default 0 ((default ∅ (r !! Z.to_nat shard)) !! key).
Definition quota_set (r : list (gmap (list Z) Z)) (shard : Z) (key : list Z) (v : Z) : list (gmap (list Z) Z) :=
  <[Z.to_nat shard := <[key := v]> (default ∅ (r !! Z.to_nat shard))]> r.

(** [local-quota-refill.lua]. *)
Definition refill_script (r : list (gmap (list Z) Z)) (shard : Z) (key : list Z) (chunk : Z) : Z * list (gmap (list Z) Z) :=
  if chunk <=? 0 then (-1, r)
  else if quota_get r shard key <? chunk then (-1, r)
  else (chunk, quota_set r shard key (quota_get r shard key - chunk)).

(** [local-quota-return.lua]; INCRBY refuses to overflow. *)
Definition return_script (r : list (gmap (list Z) Z)) (shard : Z) (key : list Z) (amt : Z) : bool * list (gmap (list Z) Z) :=
  if amt <=? 0 then (true, r)
  else let v := quota_get r shard key + amt in
    if bool_decide (in_i64 v) then (true, quota_set r shard key v) else (false, r).

Record RefillConfig := mkConfig {
  BaseChunkMicro : Z; ThresholdPct : Z; MaxPerShard : Z; FloorMicro : Z; CeilingMicro : Z;
  StrictEnter : Z
}.

(** [NewQuotaRefillWorker] normalises the two fields it checks. *)
Definition NewQuotaRefillWorker (c : RefillConfig) : RefillConfig :=
  mkConfig (if BaseChunkMicro c <=? 0 then 5000000 else BaseChunkMicro c) (ThresholdPct c)
    (if MaxPerShard c <=? 0 then 4 else MaxPerShard c) (FloorMicro c) (CeilingMicro c)
    (StrictEnter c).

Record World := mkWorld {
  led : list LocalQuantaCell; redis : list (gmap (list Z) Z); strict : option LocalQuantaStrict;
  published : list (list Z * Z)   (* budget deltas on the broker topic *)
}.

(** What the environment does during one [tryRefillSlot]. *)
Record RefillEnv := mkRefillEnv {
  inflight : Z; client_up : bool; lock_claimed : bool; get_ok : bool; run : ScriptOutcome;
  flush_run : Z -> ScriptOutcome
}.

Section Worker.
Context (uuid_String : list Z -> list Z) (GetShard : list Z -> Z)
  (GetCampaign : list Z -> option Campaign) (has_publisher : bool) (cfg : RefillConfig).

Definition sub_shards (id : list Z) : Z := DebitSubShardCount (GetCampaign id).

Definition returnToRedisSlot (r : list (gmap (list Z) Z)) (id : list Z) (amount shard subSlot : Z)
    (out : ScriptOutcome) : list (gmap (list Z) Z) :=
  if amount <=? 0 then r
  else if (shard <? 0) || (zlen r <=? shard) then r
  else match out with
  | Failed => r
  | Executed | ExecutedNoReply =>
      snd (return_script r shard (budgetQuotaKeyForDebit uuid_String id subSlot) amount)
  end.

Definition returnToRedis (r : list (gmap (list Z) Z)) (id : list Z) (amount : Z) (out : Z -> ScriptOutcome) : list (gmap (list Z) Z) :=
  if amount <=? 0 then r
  else
    let n := sub_shards id in
    if n <=? 1 then returnToRedisSlot r id amount (GetShard id) 0 (out 0)
    else
      let perSlot := amount /64 n in
      let rem := Z.rem amount n in
      foldl (fun r sub =>
        let amt := if sub =? 0 then perSlot +64 rem else perSlot in
        if amt <=? 0 then r
        else returnToRedisSlot r id amt (spreadHighVolumeShard (zlen r) id sub) sub (out sub))
      r (seqZ 0 n).

Definition publish_delta (w : World) (id : list Z) (amount : Z) : World :=
  if has_publisher && negb (amount =? 0)
  then mkWorld (led w) (redis w) (strict w) (published w ++ [(id, amount)]) else w.

Definition FlushLocalQuanta (w : World) (id : list Z) (out : Z -> ScriptOutcome) : Z * World :=
  let '(taken, l) := TakeRemaining (led w) id in
  if taken <=? 0 then (0, mkWorld l (redis w) (strict w) (published w))
  else (taken, publish_delta (mkWorld l (returnToRedis (redis w) id taken out) (strict w) (published w))
                 id (- taken)).

Definition flush_call (out : list Z -> Z -> ScriptOutcome) (w : World) (c : list Z * Z) : World :=
  let '(id, rem) := c in
  if (rem <=? 0) || bool_decide (id = nil_uuid) then w
  else publish_delta (mkWorld (led w) (returnToRedis (redis w) id rem (out id)) (strict w) (published w))
         id (- rem).

Definition FlushAll (w : World) (out : list Z -> Z -> ScriptOutcome) : World :=
  let '(calls, l) := FlushOccupied (led w) in
  foldl (flush_call out) (mkWorld l (redis w) (strict w) (published w)) calls.

(** The flush a campaign entering strict mode triggers. *)
Definition enter_strict (w : World) (id : list Z) (rem : Z) (out : Z -> ScriptOutcome) : World :=
  let wasStrict := IsStrict (strict w) id in
  let s' := UpdateFromRedisRemaining (strict w) id rem in
  let w1 := mkWorld (led w) (redis w) s' (published w) in
  if negb wasStrict && IsStrict s' id then snd (FlushLocalQuanta w1 id out) else w1.

Definition tryRefillSlot (w : World) (id : list Z) (shard subSlot : Z) (env : RefillEnv)
    : bool * World :=
  if (shard <? 0) || (zlen (redis w) <=? shard) then (true, w)
  else if (shard <? 16) && (MaxPerShard cfg <=? inflight env) then (false, w)
  else if negb (client_up env) then (false, w)
  else if negb (lock_claimed env) then (false, w)
  else if negb (get_ok env) then (false, w)
  else
    let key := budgetQuotaKeyForDebit uuid_String id subSlot in
    let rem := quota_get (redis w) shard key in
    let w1 := enter_strict w id rem (flush_run env) in
    let ema := RPSEMA (led w1) id in
    let chunk := AdaptiveChunkSizeStrict ema (FloorMicro cfg) (CeilingMicro cfg)
                   (BaseChunkMicro cfg) rem (StrictEnter cfg) in
    let '(res, r') := refill_script (redis w1) shard key chunk in
    match run env with
    | Failed => (false, w1)
    | ExecutedNoReply => (false, mkWorld (led w1) r' (strict w1) (published w1))
    | Executed =>
        if res <? 0 then (true, w1)
        else (true, mkWorld (CreditDebit (led w1) id subSlot res chunk) r'
                (UpdateFromRedisRemaining (strict w1) id (rem -64 res)) (published w1))
    end.

Fixpoint refill_subs (w : World) (id : list Z) (subs : list Z) (env : Z -> RefillEnv)
    : bool * World :=
  match subs with
  | [] => (false, w)
  | sub :: rest =>
      let '(ok, w') := tryRefillSlot w id (spreadHighVolumeShard (zlen (redis w)) id sub) sub (env sub) in
      if ok then (true, w') else refill_subs w' id rest env
  end.

Definition tryRefill (w : World) (id : list Z) (shard : Z) (env : Z -> RefillEnv) : bool * World :=
  let n := sub_shards id in
  if 1 <? n then refill_subs w id (seqZ 0 n) env else tryRefillSlot w id shard 0 (env 0).

(** One entry of [pending] at a tick: whether it is dropped, and the world. *)
Definition poll (w : World) (id : list Z) (env : Z -> RefillEnv) : bool * World :=
  let threshold := adaptiveRefillThresholdPct (RPSEMA (led w) id) (ThresholdPct cfg) in
  if negb (NeedsRefill (led w) id threshold) then (true, w)
  else tryRefill w id (GetShard id) env.

(** ** Debits and their deltas *)

(** The debit of [tryLocalQuantaFullSkipCheck] and its rollback. *)
Definition spend (w : World) (id : list Z) (subSlot amount : Z) : bool * World :=
  let '(ok, l) := TrySpendDebit (led w) id subSlot amount in
  let w1 := mkWorld l (redis w) (strict w) (published w) in
  if ok then (true, if 0 <? amount then publish_delta w1 id amount else w1) else (false, w1).

Definition rollbackLocalQuantaSpend (w : World) (id : list Z) (subSlot amountMicro : Z) : World :=
  if 0 <? amountMicro then
    publish_delta (mkWorld (RefundDebit (led w) id subSlot amountMicro) (redis w) (strict w) (published w))
      id (- amountMicro)
  else w.

End Worker.

(** ** Recovery: the deltas of the topic, from its first offset *)

Definition FetchRecoveryDeltas (log : list (list Z * Z)) : gmap (list Z) Z :=
  foldl (fun m '(id, amt) => <[id := default 0 (m !! id) +64 amt]> m) ∅ log.

(** The map is iterated in no particular order: [ids] is the order taken. *)
Definition RecoverFromDeltas (cfg : RefillConfig) (l : list LocalQuantaCell) (deltas : gmap (list Z) Z)
    (ids : list (list Z)) : list LocalQuantaCell :=
  foldl (fun l id =>
    let micro := default 0 (deltas !! id) in
    if 0 <? micro then CreditDebit l id 0 micro (BaseChunkMicro cfg) else l) l ids.

(** ** Money *)

Definition local (l : list LocalQuantaCell) : Z := sumZ (map remaining l).

Definition shard_sum (m : gmap (list Z) Z) : Z := map_fold (fun _ v acc => v + acc) 0 m.
Definition stored (r : list (gmap (list Z) Z)) : Z := sumZ (map shard_sum r).
Definition money (w : World) : Z := local (led w) + stored (redis w).

Definition led_ok (l : list LocalQuantaCell) : Prop :=
  length l = 4096%nat /\ Forall (fun c => 0 <= remaining c) l.
Definition redis_ok (r : list (gmap (list Z) Z)) : Prop := Forall (map_Forall (fun _ v => 0 <= v)) r.
Definition world_ok (w : World) : Prop := led_ok (led w) /\ redis_ok (redis w).

Lemma shard_sum_insert_new m k v : m !! k = None -> shard_sum (<[k := v]> m) = v + shard_sum m.
Proof. intros H. unfold shard_sum. rewrite map_fold_insert_L; [done|intros; lia|done]. Qed.

Lemma shard_sum_insert m k v :
  shard_sum (<[k := v]> m) = shard_sum m - default 0 (m !! k) + v.
Proof.
  destruct (m !! k) as [x|] eqn:E.
  - rewrite <- (insert_delete_id m k x E) at 2. rewrite <- insert_delete_eq.
    rewrite !shard_sum_insert_new by apply lookup_delete_eq. cbn. lia.
  - rewrite shard_sum_insert_new by done. cbn. lia.
Qed.

Lemma shard_sum_nonneg m : map_Forall (fun _ v => 0 <= v) m -> 0 <= shard_sum m.
Proof.
  induction m as [|k v m Hk IH] using map_ind; intros H; [done|].
  apply map_Forall_insert in H as [Hv H]; [|done]. rewrite shard_sum_insert_new by done.
  specialize (IH H). lia.
Qed.

Lemma shard_sum_lookup m k :
  map_Forall (fun _ v => 0 <= v) m -> 0 <= default 0 (m !! k) <= shard_sum m.
Proof.
  intros H. destruct (m !! k) as [v|] eqn:E; cbn; [|pose proof (shard_sum_nonneg m H); lia].
  pose proof (H _ _ E) as Hv. pose proof (map_Forall_delete _ m k H) as Hd.
  apply shard_sum_nonneg in Hd. rewrite <- (insert_delete_id m k v E).
  rewrite shard_sum_insert_new by apply lookup_delete_eq. cbn in Hv. lia.
Qed.

(** ** Cells *)

Lemma cell_lt id sub : (fst (cellForDebit id sub) < 4096)%nat.
Proof.
  cbn [cellForDebit fst]. unfold cell_index, localQuantaSlotMask. change 4095 with (Z.ones 12).
  rewrite Z.land_ones by lia. pose proof (Z.mod_pos_bound (SlotMap.crc32Castagnoli id +u32
    (u32 (Z.land sub 3) *u32 1024)) (2 ^ 12)). lia.
Qed.

Lemma local_insert l i c :
  (i < length l)%nat -> local (<[i := c]> l) = local l - remaining (l !!! i) + remaining c.
Proof.
  intros H. unfold local. change (map remaining) with (fmap (M:=list) remaining).
  rewrite list_fmap_insert. apply sumZ_insert. rewrite list_lookup_fmap.
  by rewrite list_lookup_lookup_total_lt.
Qed.

Lemma nonneg_le_sum l i x : Forall (Z.le 0) l -> l !! i = Some x -> 0 <= x <= sumZ l.
Proof.
  intros H. revert i. induction H as [|y l Hy Hl IH]; intros [|i] E; simplify_eq/=.
  - pose proof (sumZ_nonneg l Hl). lia.
  - specialize (IH i E). lia.
Qed.

Lemma led_nonneg l : led_ok l -> Forall (Z.le 0) (map remaining l).
Proof. intros [_ H]. by apply Forall_map. Qed.

Lemma cell_bound l i : led_ok l -> (i < 4096)%nat -> 0 <= remaining (l !!! i) <= local l.
Proof.
  intros H Hi. apply (nonneg_le_sum _ i); [by apply led_nonneg|]. destruct H as [Hl _].
  change (map remaining) with (fmap (M:=list) remaining). rewrite list_lookup_fmap.
  by rewrite list_lookup_lookup_total_lt by lia.
Qed.

Lemma local_nonneg l : led_ok l -> 0 <= local l.
Proof. intros H. by apply sumZ_nonneg, led_nonneg. Qed.

Lemma fresh_ok : led_ok NewLocalQuantaLedger /\ local NewLocalQuantaLedger = 0.
Proof. split; [split; [done|by apply Forall_replicate]|vm_compute; reflexivity]. Qed.

Lemma led_ok_insert l i c :
  led_ok l -> 0 <= remaining c -> led_ok (<[i := c]> l).
Proof. intros [Hl H] Hc. split; [by rewrite length_insert|]. by apply Forall_insert. Qed.

Lemma spend_money l id sub amt :
  led_ok l -> local l <= max_i64 ->
  let '(ok, l') := TrySpendDebit l id sub amt in
  led_ok l' /\ local l' = local l - (if ok then Z.max 0 amt else 0).
Proof.
  intros H Hb. unfold TrySpendDebit. destruct (amt <=? 0) eqn:Ea; [split; [done|lia]|].
  cbn [cellForDebit]. pose proof (cell_lt id sub) as Hlt. cbn [cellForDebit fst] in Hlt.
  set (i := Z.to_nat (cell_index id sub)) in *. cbv zeta.
  destruct (negb _); [split; [done|lia]|]. destruct (_ <? amt) eqn:Er; [split; [done|lia]|].
  pose proof (cell_bound l i H Hlt).
  rewrite i64_id by go_lia. split.
  - apply led_ok_insert; [done|cbn; lia].
  - rewrite local_insert by (destruct H; lia). cbn. lia.
Qed.

Lemma credit_money l id sub amt chunk :
  led_ok l -> 0 <= amt -> local l + amt <= max_i64 ->
  led_ok (CreditDebit l id sub amt chunk) /\
  local (CreditDebit l id sub amt chunk) = local l + amt.
Proof.
  intros H Ha Hb. unfold CreditDebit. destruct (amt <=? 0) eqn:Ea; [split; [done|lia]|].
  cbn [cellForDebit]. pose proof (cell_lt id sub) as Hlt. cbn [cellForDebit fst] in Hlt.
  set (i := Z.to_nat (cell_index id sub)) in *. cbv zeta.
  pose proof (cell_bound l i H Hlt). rewrite i64_id by go_lia. split.
  - apply led_ok_insert; [done|cbn; lia].
  - rewrite local_insert by (destruct H; lia). cbn. lia.
Qed.

(** Whether the cell of a debit still carries its campaign's tag. *)
Definition tagged (l : list LocalQuantaCell) (id : list Z) (sub : Z) : bool :=
  campaignHash (l !!! fst (cellForDebit id sub)) =? snd (cellForDebit id sub).

Lemma refund_money l id sub amt :
  led_ok l -> 0 < amt -> local l + amt <= max_i64 ->
  led_ok (RefundDebit l id sub amt) /\
  local (RefundDebit l id sub amt) = local l + (if tagged l id sub then amt else 0).
Proof.
  intros H Ha Hb. unfold RefundDebit, tagged. replace (amt <=? 0) with false by lia.
  pose proof (cell_lt id sub) as Hlt. cbn [cellForDebit fst snd] in *.
  set (i := Z.to_nat (cell_index id sub)) in *.
  destruct (campaignHash (l !!! i) =? ledgerCellHash id sub) eqn:E; cbn [negb]; [|split; [done|lia]].
  pose proof (cell_bound l i H Hlt). rewrite i64_id by go_lia. split.
  - apply led_ok_insert; [done|cbn; lia].
  - rewrite local_insert by (destruct H; lia). cbn. lia.
Qed.

Lemma take_money l id sub :
  led_ok l -> let '(t, l') := takeRemainingDebit l id sub in
  led_ok l' /\ 0 <= t /\ local l' = local l - t.
Proof.
  intros H. unfold takeRemainingDebit. cbn [cellForDebit].
  pose proof (cell_lt id sub) as Hlt. cbn [cellForDebit fst] in Hlt.
  set (i := Z.to_nat (cell_index id sub)) in *. cbv zeta.
  destruct (negb _); [split_and!; [done|lia|lia]|].
  destruct (_ <=? 0) eqn:Er; [split_and!; [done|lia|lia]|].
  pose proof (cell_bound l i H Hlt). split_and!; [|lia|].
  - apply led_ok_insert; [done|cbn; lia].
  - rewrite local_insert by (destruct H; lia). cbn. lia.
Qed.

Lemma take_all_money l id :
  led_ok l -> local l <= max_i64 -> let '(t, l') := TakeRemaining l id in
  led_ok l' /\ 0 <= t /\ local l' = local l - t.
Proof.
  unfold TakeRemaining. intros H Hb.
  assert (forall subs t l0, led_ok l0 -> 0 <= t -> local l0 + t = local l ->
    let '(t', l') := foldl (fun '(total, l) sub =>
      let '(t, l') := takeRemainingDebit l id sub in (total +64 t, l')) (t, l0) subs in
    led_ok l' /\ 0 <= t' /\ local l' = local l - t') as Hf.
  { induction subs as [|sub subs IH]; intros t l0 H0 Ht E; [split_and!; [done|done|lia]|].
    cbn [foldl]. pose proof (take_money l0 id sub H0) as Hs.
    destruct (takeRemainingDebit l0 id sub) as [t1 l1]. destruct Hs as (H1 & Ht1 & E1).
    pose proof (local_nonneg l1 H1). rewrite i64_id by go_lia. apply IH; [done|lia|lia]. }
  apply Hf; [done|lia|lia].
Qed.

Definition ids_ok (l : list LocalQuantaCell) : Prop :=
  Forall (fun c => campaignHash c <> 0 /\ 0 < remaining c -> campaignID c <> nil_uuid) l.

Lemma flush_money l :
  Forall (fun c => 0 <= remaining c) l ->
  let '(calls, l') := flush_cells l in
  length l' = length l /\ Forall (fun c => 0 <= remaining c) l' /\
  Forall (fun c => 0 < snd c /\ fst c <> nil_uuid) calls /\
  local l' + sumZ (map snd calls) <= local l /\
  (ids_ok l -> local l' + sumZ (map snd calls) = local l).
Proof.
  unfold local. induction 1 as [|c l Hc Hl IH]; [cbn; split_and!; auto; lia|].
  cbn [flush_cells]. destruct (flush_cells l) as [calls l']. destruct IH as (IH1 & IH2 & IH3 & IH4 & IH5).
  assert (ids_ok (c :: l) -> ids_ok l) as Ht by (intros [_ ?]%Forall_cons; done).
  destruct (_ || _) eqn:E1.
  { cbn. split_and!; [lia|by apply Forall_cons_2|done|lia|]. intros HH%Ht%IH5. lia. }
  assert (Forall (fun c => 0 <= remaining c) (with_remaining c 0 :: l'))
    by (apply Forall_cons_2; [cbn; lia|done]).
  case_bool_decide as E2; cbn.
  - split_and!; [lia|done|done|lia|].
    intros [HH _]%Forall_cons. destruct HH; [lia|done].
  - split_and!; [lia|done|apply Forall_cons_2; [split; [cbn; lia|done]|done]|lia|].
    intros HH%Ht%IH5. lia.
Qed.

(** ** Quota keys *)

Lemma stored_set r shard key v :
  0 <= shard < zlen r ->
  stored (quota_set r shard key v) = stored r - quota_get r shard key + v.
Proof.
  intros H. unfold stored, quota_set, quota_get.
  destruct (lookup_lt_is_Some_2 r (Z.to_nat shard)) as [m Hm]; [unfold zlen in H; lia|].
  change (map shard_sum) with (fmap (M:=list) shard_sum).
  rewrite list_fmap_insert, Hm. cbn [default from_option]. rewrite shard_sum_insert.
  rewrite (sumZ_insert _ _ (shard_sum m)) by (by rewrite list_lookup_fmap, Hm).
  unfold id. lia.
Qed.

Lemma quota_bound r shard key :
  redis_ok r -> 0 <= quota_get r shard key <= stored r.
Proof.
  intros H. unfold quota_get, stored.
  assert (Forall (Z.le 0) (map shard_sum r)) as Hn.
  { apply Forall_map. eapply Forall_impl; [exact H|]. intros m Hm. by apply shard_sum_nonneg. }
  destruct (r !! Z.to_nat shard) as [m|] eqn:E.
  - change (default ∅ (Some m)) with m. pose proof (proj1 (Forall_lookup _ _) H _ _ E) as Hm. cbn in Hm.
    pose proof (shard_sum_lookup m key Hm).
    assert (0 <= shard_sum m <= sumZ (map shard_sum r)); [|lia].
    apply (nonneg_le_sum _ (Z.to_nat shard)); [done|].
    change (map shard_sum) with (fmap (M:=list) shard_sum). by rewrite list_lookup_fmap, E.
  - change (default ∅ None) with (∅ : gmap (list Z) Z). rewrite lookup_empty. cbn. pose proof (sumZ_nonneg _ Hn). lia.
Qed.

Lemma stored_nonneg r : redis_ok r -> 0 <= stored r.
Proof. intros H. pose proof (quota_bound r 0 [] H). lia. Qed.

Lemma redis_ok_set r shard key v : redis_ok r -> 0 <= v -> redis_ok (quota_set r shard key v).
Proof.
  intros H Hv. apply Forall_insert; [done|]. apply map_Forall_insert_2; [done|].
  destruct (r !! Z.to_nat shard) as [m|] eqn:E; cbn.
  - exact (proj1 (Forall_lookup _ _) H _ _ E).
  - apply map_Forall_empty.
Qed.

Lemma zlen_quota_set r shard key v : zlen (quota_set r shard key v) = zlen r.
Proof. unfold zlen, quota_set. by rewrite length_insert. Qed.

(** [gained r r' amt full]: Redis went from [r] to [r'], receiving at most
    [amt], and exactly [amt] when [full]. *)
Definition gained (r r' : list (gmap (list Z) Z)) (amt : Z) (full : Prop) : Prop :=
  redis_ok r' /\ zlen r' = zlen r /\ stored r <= stored r' <= stored r + amt /\
  (full -> stored r' = stored r + amt).

Lemma gained_none r amt (full : Prop) :
  redis_ok r -> 0 <= amt -> (full -> amt = 0) -> gained r r amt full.
Proof. intros H Ha Hf. unfold gained. split_and!; auto; try lia. intros HH%Hf. lia. Qed.

Lemma gained_trans r r1 r2 a b (f g : Prop) :
  gained r r1 a f -> gained r1 r2 b g -> gained r r2 (a + b) (f /\ g).
Proof.
  intros (_ & H2 & H3 & H4) (K1 & K2 & K3 & K4). unfold gained. split_and!; try lia; [done|].
  intros [Hf%H4 Hg%K4]. lia.
Qed.

Lemma return_gained r shard key amt :
  redis_ok r -> 0 <= shard < zlen r -> 0 <= amt -> stored r + amt <= max_i64 ->
  gained r (snd (return_script r shard key amt)) amt True.
Proof.
  intros H Hs Ha Hb. unfold return_script. destruct (amt <=? 0) eqn:E.
  { cbn. apply gained_none; auto; intros; lia. }
  pose proof (quota_bound r shard key H). rewrite bool_decide_eq_true_2 by go_lia. cbn [snd].
  unfold gained. rewrite zlen_quota_set, stored_set by done.
  split_and!; [apply redis_ok_set; [done|lia]|done|lia|lia|lia].
Qed.

(** ** Moves between the ledger and Redis *)

Section Money.
Context (uuid_String : list Z -> list Z) (GetShard : list Z -> Z)
  (GetCampaign : list Z -> option Campaign) (has_publisher : bool) (cfg : RefillConfig).

(** The script ran, and the sharder names an existing shard. *)
Definition return_good (r : list (gmap (list Z) Z)) (id : list Z) (out : Z -> ScriptOutcome) : Prop :=
  (forall sub, out sub <> Failed) /\ 0 <= GetShard id < zlen r.

Lemma slot_gained r id amt shard sub out :
  redis_ok r -> 0 <= amt -> stored r + amt <= max_i64 ->
  gained r (returnToRedisSlot uuid_String r id amt shard sub out) amt
    (out <> Failed /\ 0 <= shard < zlen r).
Proof.
  intros H Ha Hb. unfold returnToRedisSlot.
  destruct (amt <=? 0) eqn:E1; [apply gained_none; auto; intros; lia|].
  destruct (_ || _) eqn:E2; [apply gained_none; auto; intros [_ ?]; lia|].
  assert (0 <= shard < zlen r) as Hs by lia.
  pose proof (return_gained r shard (budgetQuotaKeyForDebit uuid_String id sub) amt H Hs Ha Hb)
    as (G1 & G2 & G3 & G4).
  destruct out; unfold gained; split_and!; auto; try lia;
    apply gained_none; auto; intros [? _]; done.
Qed.

Lemma sub_shards_cases id : sub_shards GetCampaign id = 0 \/ sub_shards GetCampaign id = 4.
Proof.
  unfold sub_shards, DebitSubShardCount. destruct (GetCampaign id); [|by left].
  case_match; [by left|by right].
Qed.

Lemma spread_range n id sub :
  0 < n < 4294967296 -> 0 <= spreadHighVolumeShard n id sub < n.
Proof.
  intros H. unfold spreadHighVolumeShard. destruct (n <=? 1) eqn:E; [lia|].
  rewrite (u32_id n) by go_lia. apply Z.mod_pos_bound. lia.
Qed.

(** The shares of the sub-slots add up to the amount returned. *)
Lemma shares_gained f g subs r id :
  redis_ok r -> 0 < zlen r < 4294967296 ->
  Forall (fun sub => 0 <= f sub) subs ->
  stored r + sumZ (map f subs) <= max_i64 ->
  gained r (foldl (fun r sub =>
      if f sub <=? 0 then r
      else returnToRedisSlot uuid_String r id (f sub) (spreadHighVolumeShard (zlen r) id sub) sub (g sub))
    r subs) (sumZ (map f subs)) (forall sub, g sub <> Failed).
Proof.
  intros H Hn Hf. revert r H Hn. induction Hf as [|sub subs Hs Hf IH]; intros r H Hn Hb.
  { apply gained_none; auto; done. }
  cbn [foldl map sumZ] in *.
  assert (0 <= sumZ (map f subs)) by (apply sumZ_nonneg; by apply Forall_map).
  set (r1 := if f sub <=? 0 then r else _).
  assert (gained r r1 (f sub) (g sub <> Failed)) as G1.
  { unfold r1. destruct (f sub <=? 0) eqn:E; [apply gained_none; auto; intros; lia|].
    destruct (slot_gained r id (f sub) (spreadHighVolumeShard (zlen r) id sub) sub (g sub))
      as (A1 & A2 & A3 & A4); auto; [lia|].
    unfold gained. split_and!; auto; try lia. intros. apply A4. split; [done|]. by apply spread_range. }
  destruct G1 as (A1 & A2 & A3 & A4).
  destruct (IH r1) as (B1 & B2 & B3 & B4); [done|lia|lia|].
  unfold gained. split_and!; auto; try lia. intros HH. rewrite B4, A4 by auto. lia.
Qed.

Lemma return_money r id amt out :
  redis_ok r -> 0 < zlen r < 4294967296 -> 0 <= amt -> stored r + amt <= max_i64 ->
  gained r (returnToRedis uuid_String GetShard GetCampaign r id amt out) amt (return_good r id out).
Proof.
  intros H Hn Ha Hb. unfold returnToRedis.
  destruct (amt <=? 0) eqn:E; [apply gained_none; auto; intros; lia|].
  pose proof (stored_nonneg r H). cbv zeta.
  destruct (sub_shards_cases id) as [-> | ->].
  - change (0 <=? 1) with true. cbv iota.
    destruct (slot_gained r id amt (GetShard id) 0 (out 0) H Ha Hb) as (A1 & A2 & A3 & A4).
    unfold gained. split_and!; auto; try lia. intros [Ho Hs]. apply A4. auto.
  - change (4 <=? 1) with false. cbv iota. change (seqZ 0 4) with [0; 1; 2; 3].
    pose proof (Z.quot_rem amt 4) as Hq. pose proof (Z.rem_bound_pos amt 4) as Hr.
    pose proof (Z.quot_pos amt 4) as Hp.
    set (f := fun sub : Z => if sub =? 0 then amt /64 4 +64 Z.rem amt 4 else amt /64 4).
    assert (amt /64 4 = Z.quot amt 4) as Eq by (apply i64_id; go_lia).
    assert (Z.quot amt 4 +64 Z.rem amt 4 = Z.quot amt 4 + Z.rem amt 4) as Er by (apply i64_id; go_lia).
    destruct (shares_gained f out [0; 1; 2; 3] r id) as (A1 & A2 & A3 & A4); auto.
    + unfold f. rewrite Eq, Er. repeat apply Forall_cons_2; cbn; [lia..|constructor].
    + unfold f. rewrite Eq, Er. cbn. lia.
    + assert (sumZ (map f [0; 1; 2; 3]) = amt) as Es by (unfold f; rewrite Eq, Er; cbn; lia).
      rewrite Es in A3, A4. split; [exact A1|]. split; [exact A2|]. split; [exact A3|].
      intros HH. apply A4, HH.
Qed.

(** [accounts w w' ds full]: a step from [w] to [w'] that spends [ds] creates
    no money, and loses none when [full]. *)
Definition accounts (w w' : World) (ds : Z) (full : Prop) : Prop :=
  world_ok w' /\ zlen (redis w') = zlen (redis w) /\ money w' + ds <= money w /\
  (full -> money w' + ds = money w).

Lemma accounts_same w ds w' : world_ok w -> led w' = led w -> redis w' = redis w -> ds = 0 ->
  forall full, accounts w w' ds full.
Proof.
  intros [H1 H2] El Er -> full. unfold accounts, world_ok, money. rewrite El, Er.
  split_and!; auto; lia.
Qed.

Lemma accounts_trans w w1 w2 a b (f g : Prop) :
  accounts w w1 a f -> accounts w1 w2 b g -> accounts w w2 (a + b) (f /\ g).
Proof.
  intros (A1 & A2 & A3 & A4) (B1 & B2 & B3 & B4). unfold accounts.
  split_and!; auto; try lia. intros [Hf%A4 Hg%B4]. lia.
Qed.

Lemma publish_world w id amt :
  led (publish_delta has_publisher w id amt) = led w /\
  redis (publish_delta has_publisher w id amt) = redis w.
Proof. unfold publish_delta. by destruct (_ && _). Qed.

Lemma flush_accounts w id out :
  world_ok w -> 0 < zlen (redis w) < 4294967296 -> money w <= max_i64 ->
  accounts w (snd (FlushLocalQuanta uuid_String GetShard GetCampaign has_publisher w id out)) 0
    (return_good (redis w) id out).
Proof.
  intros [Hl Hr] Hn Hb. unfold FlushLocalQuanta. unfold money in *.
  pose proof (local_nonneg _ Hl). pose proof (stored_nonneg _ Hr).
  pose proof (take_all_money (led w) id Hl) as Ht. destruct (TakeRemaining (led w) id) as [t l].
  destruct Ht as (Hl' & Ht & El); [lia|]. pose proof (local_nonneg _ Hl').
  destruct (t <=? 0) eqn:E.
  - unfold accounts, world_ok, money. cbn [led redis snd].
    split; [by split|]. split; [done|]. split; [lia|intros _; lia].
  - cbn [snd]. assert (stored (redis w) + t <= max_i64) as Hs by lia.
    destruct (return_money (redis w) id t out Hr Hn Ht Hs) as (A1 & A2 & A3 & A4).
    match goal with |- accounts _ (publish_delta _ ?w1 _ _) _ _ =>
      destruct (publish_world w1 id (- t)) as [El' Er'] end.
    unfold accounts, world_ok, money. rewrite El', Er'. cbn [led redis].
    split; [by split|]. split; [done|]. split; [lia|intros HH%A4; lia].
Qed.

Definition all_good (w : World) (out : list Z -> Z -> ScriptOutcome) : Prop :=
  ids_ok (led w) /\ forall id, return_good (redis w) id (out id).

Lemma flush_calls_accounts out calls w :
  world_ok w -> 0 < zlen (redis w) < 4294967296 ->
  money w + sumZ (map snd calls) <= max_i64 ->
  Forall (fun c => 0 < snd c /\ fst c <> nil_uuid) calls ->
  accounts w (foldl (flush_call uuid_String GetShard GetCampaign has_publisher out) w calls)
    (- sumZ (map snd calls)) (forall id, return_good (redis w) id (out id)).
Proof.
  intros H Hn Hb Hc. revert w H Hn Hb. induction Hc as [|[id rem] calls [Hrem Hid] Hc IH]; intros w H Hn Hb.
  { by apply accounts_same. }
  cbn [foldl map sumZ snd fst] in *.
  assert (0 <= sumZ (map snd calls)) as Hpos.
  { apply sumZ_nonneg, Forall_map. eapply Forall_impl; [exact Hc|]. intros c [? _]. lia. }
  destruct H as [Hl Hr]. pose proof (local_nonneg _ Hl). unfold money in *.
  assert (stored (redis w) + rem <= max_i64) as Hs by lia.
  destruct (return_money (redis w) id rem (out id) Hr Hn ltac:(lia) Hs) as (A1 & A2 & A3 & A4).
  set (w1 := flush_call _ _ _ _ out w (id, rem)).
  assert (led w1 = led w /\ redis w1 = returnToRedis uuid_String GetShard GetCampaign (redis w) id rem (out id))
    as [El Er].
  { unfold w1, flush_call. replace (rem <=? 0) with false by lia.
    rewrite bool_decide_eq_false_2 by done. cbn [orb].
    match goal with |- context [publish_delta _ ?x _ _] => destruct (publish_world x id (- rem)) as [-> ->] end.
    done. }
  destruct (IH w1) as (B1 & B2 & B3 & B4).
  { by split; rewrite ?El, ?Er. }
  { rewrite Er. lia. }
  { rewrite El, Er. lia. }
  unfold accounts, money in *. rewrite El, Er in *. split; [done|]. split; [lia|]. split; [lia|].
  intros HH. pose proof (A4 (HH id)).
  assert (forall id', return_good (redis w1) id' (out id')) as HH1.
  { intros id'. destruct (HH id'). split; [done|]. rewrite Er. lia. }
  rewrite <- Er in *. specialize (B4 HH1). lia.
Qed.

Lemma flush_all_accounts w out :
  world_ok w -> 0 < zlen (redis w) < 4294967296 -> money w <= max_i64 ->
  accounts w (FlushAll uuid_String GetShard GetCampaign has_publisher w out) 0 (all_good w out).
Proof.
  intros [[Hl Hl'] Hr] Hn Hb. unfold FlushAll, FlushOccupied.
  pose proof (flush_money (led w) Hl') as Hf. destruct (flush_cells (led w)) as [calls l].
  destruct Hf as (F1 & F2 & F3 & F4 & F5). unfold money in *.
  set (w1 := mkWorld l (redis w) (strict w) (published w)).
  destruct (flush_calls_accounts out calls w1) as (A1 & A2 & A3 & A4); auto.
  { split; [split; [cbn; lia|done]|done]. }
  { unfold money, w1. cbn [led redis]. lia. }
  unfold accounts, money in *. unfold w1 in *. cbn [led redis] in *.
  split; [done|]. split; [done|]. split; [lia|]. intros [Hi Hg]. specialize (A4 Hg). specialize (F5 Hi). lia.
Qed.

Lemma enter_strict_accounts w id rem out :
  world_ok w -> 0 < zlen (redis w) < 4294967296 -> money w <= max_i64 ->
  accounts w (enter_strict uuid_String GetShard GetCampaign has_publisher w id rem out) 0
    (return_good (redis w) id out).
Proof.
  intros H Hn Hb. unfold enter_strict. cbv zeta.
  set (w1 := mkWorld _ (redis w) _ _). destruct (_ && _).
  - exact (flush_accounts w1 id out H Hn Hb).
  - by apply accounts_same.
Qed.

Definition refill_good (w : World) (id : list Z) (env : RefillEnv) : Prop :=
  run env <> ExecutedNoReply /\ return_good (redis w) id (flush_run env).

Lemma refill_script_money r shard key chunk :
  redis_ok r -> 0 <= shard < zlen r ->
  let '(res, r') := refill_script r shard key chunk in
  redis_ok r' /\ zlen r' = zlen r /\ stored r' = stored r - Z.max 0 res /\
  (res < 0 -> r' = r) /\ 0 <= stored r'.
Proof.
  intros H Hs. unfold refill_script. pose proof (quota_bound r shard key H).
  pose proof (stored_nonneg r H).
  destruct (chunk <=? 0) eqn:E1; [split_and!; auto; lia|].
  destruct (_ <? chunk) eqn:E2; [split_and!; auto; lia|].
  rewrite stored_set, zlen_quota_set by done.
  split; [apply redis_ok_set; [done|lia]|]. split_and!; lia.
Qed.

Lemma refill_slot_accounts w id shard sub env :
  world_ok w -> 0 < zlen (redis w) < 4294967296 -> money w <= max_i64 ->
  accounts w (snd (tryRefillSlot uuid_String GetShard GetCampaign has_publisher cfg w id shard sub env)) 0
    (refill_good w id env).
Proof.
  intros H Hn Hb. unfold tryRefillSlot.
  destruct ((shard <? 0) || (zlen (redis w) <=? shard)) eqn:Es; [by apply accounts_same|].
  destruct (_ && _); [by apply accounts_same|]. destruct (negb _); [by apply accounts_same|].
  destruct (negb _); [by apply accounts_same|]. destruct (negb _); [by apply accounts_same|].
  cbv zeta. set (key := budgetQuotaKeyForDebit _ _ _). set (rem := quota_get (redis w) shard key).
  destruct (enter_strict_accounts w id rem (flush_run env) H Hn Hb) as (A1 & A2 & A3 & A4).
  set (w1 := enter_strict _ _ _ _ w id rem _) in *. set (chunk := AdaptiveChunkSizeStrict _ _ _ _ _ _).
  destruct A1 as [Hl Hr]. unfold money in *. pose proof (local_nonneg _ Hl).
  pose proof (refill_script_money (redis w1) shard key chunk Hr ltac:(lia)) as Hs.
  destruct (refill_script (redis w1) shard key chunk) as [res r'].
  destruct Hs as (B1 & B2 & B3 & B4 & B5).
  assert (accounts w w1 0 (refill_good w id env)) as Hw1.
  { unfold accounts, money. split; [by split|]. split; [done|]. split; [lia|]. intros [_ Hg%A4]. lia. }
  destruct (run env) eqn:Erun; [|exact Hw1|].
  - destruct (res <? 0) eqn:E; [exact Hw1|]. cbn [snd].
    destruct (credit_money (led w1) id sub res chunk Hl) as [C1 C2]; [lia|lia|].
    unfold accounts, money. cbn [led redis]. split; [by split|]. split; [lia|].
    split; [lia|]. intros [_ Hg%A4]. lia.
  - unfold accounts, money. cbn [snd led redis]. split; [by split|]. split; [lia|]. split; [lia|].
    intros [Hg _]. done.
Qed.

Lemma refill_subs_accounts subs w id env :
  world_ok w -> 0 < zlen (redis w) < 4294967296 -> money w <= max_i64 ->
  accounts w (snd (refill_subs uuid_String GetShard GetCampaign has_publisher cfg w id subs env)) 0
    (forall sub, refill_good w id (env sub)).
Proof.
  revert w. induction subs as [|sub subs IH]; intros w H Hn Hb; [by apply accounts_same|].
  cbn [refill_subs].
  pose proof (refill_slot_accounts w id (spreadHighVolumeShard (zlen (redis w)) id sub) sub (env sub) H Hn Hb)
    as (A1 & A2 & A3 & A4).
  destruct (tryRefillSlot _ _ _ _ _ _ _ _ _ _) as [ok w'] eqn:E. cbn [snd] in *.
  destruct ok; cbn [snd].
  - unfold accounts. split; [done|]. split; [done|]. split; [lia|]. intros HH. by apply A4.
  - destruct (IH w' A1) as (B1 & B2 & B3 & B4); [lia|lia|].
    unfold accounts. split; [done|]. split; [lia|]. split; [lia|]. intros HH.
    rewrite B4; [rewrite <- (A4 (HH sub)); lia|]. intros sub'. unfold refill_good, return_good in *.
    rewrite A2. apply HH.
Qed.

Lemma poll_accounts w id env :
  world_ok w -> 0 < zlen (redis w) < 4294967296 -> money w <= max_i64 ->
  accounts w (snd (poll uuid_String GetShard GetCampaign has_publisher cfg w id env)) 0
    (forall sub, refill_good w id (env sub)).
Proof.
  intros H Hn Hb. unfold poll. destruct (negb _); [by apply accounts_same|].
  unfold tryRefill. destruct (1 <? _); [by apply refill_subs_accounts|].
  destruct (refill_slot_accounts w id (GetShard id) 0 (env 0) H Hn Hb) as (A1 & A2 & A3 & A4).
  unfold accounts. auto.
Qed.

(** ** Runs of a tracker *)

Inductive quota_op :=
  | OpSpend (id : list Z) (sub amt : Z)
  | OpRollback (id : list Z) (sub amt : Z)
  | OpPoll (id : list Z) (env : Z -> RefillEnv)
  | OpFlush (id : list Z) (out : Z -> ScriptOutcome)
  | OpFlushAll (out : list Z -> Z -> ScriptOutcome)
  | OpRestart (s : option LocalQuantaStrict)
  | OpRecover (log : list (list Z * Z)) (ids : list (list Z)).

(** What a recovery credits: the positive sums of the deltas it fetched. *)
Definition recredit (o : quota_op) : Z :=
  match o with
  | OpRecover log ids => sumZ (map (fun id => Z.max 0 (default 0 (FetchRecoveryDeltas log !! id))) ids)
  | _ => 0
  end.
Definition recredited (ops : list quota_op) : Z := sumZ (map recredit ops).

(** The world and the money debited and not refunded.  A rollback undoes a
    debit that was made; a restart, after a crash or a shutdown, starts from
    an empty ledger; a recovery has fetched [log] and takes the campaigns of
    the deltas in the order [ids]. *)
Definition exec (st : World * Z) (o : quota_op) : World * Z :=
  let '(w, s) := st in
  match o with
  | OpSpend id sub amt =>
      let '(ok, w') := spend has_publisher w id sub amt in
      (w', if ok then s + Z.max 0 amt else s)
  | OpRollback id sub amt =>
      if (0 <? amt) && (amt <=? s)
      then (rollbackLocalQuantaSpend has_publisher w id sub amt,
            if tagged (led w) id sub then s - amt else s)
      else (w, s)
  | OpPoll id env => (snd (poll uuid_String GetShard GetCampaign has_publisher cfg w id env), s)
  | OpFlush id out => (snd (FlushLocalQuanta uuid_String GetShard GetCampaign has_publisher w id out), s)
  | OpFlushAll out => (FlushAll uuid_String GetShard GetCampaign has_publisher w out, s)
  | OpRestart st => (mkWorld NewLocalQuantaLedger (redis w) st (published w), s)
  | OpRecover log ids =>
      (mkWorld (RecoverFromDeltas cfg (led w) (FetchRecoveryDeltas log) ids) (redis w) (strict w) (published w), s)
  end.

(** Redis executed and acknowledged what it was sent, and nothing was held
    locally at a restart. *)
Definition op_good (w : World) (o : quota_op) : Prop :=
  match o with
  | OpSpend _ _ _ | OpRollback _ _ _ | OpRecover _ _ => True
  | OpRestart _ => local (led w) = 0
  | OpPoll id env => forall sub, refill_good w id (env sub)
  | OpFlush id out => return_good (redis w) id out
  | OpFlushAll out => all_good w out
  end.

Fixpoint run_good (st : World * Z) (ops : list quota_op) : Prop :=
  match ops with
  | [] => True
  | o :: rest => op_good (fst st) o /\ run_good (exec st o) rest
  end.

Lemma recredit_nonneg o : 0 <= recredit o.
Proof.
  destruct o as [| | | | | |log ids]; cbn [recredit]; try lia.
  induction ids as [|id ids IH]; cbn [map sumZ]; lia.
Qed.

Lemma recover_money log ids l :
  led_ok l -> local l + recredit (OpRecover log ids) <= max_i64 ->
  led_ok (RecoverFromDeltas cfg l (FetchRecoveryDeltas log) ids) /\
  local (RecoverFromDeltas cfg l (FetchRecoveryDeltas log) ids) = local l + recredit (OpRecover log ids).
Proof.
  unfold RecoverFromDeltas. revert l. induction ids as [|id ids IH]; intros l Hl Hb; cbn [foldl recredit map sumZ] in *.
  { split; [done|lia]. }
  pose proof (recredit_nonneg (OpRecover log ids)) as Hn. cbn [recredit] in Hn. cbv zeta.
  set (micro := default 0 (FetchRecoveryDeltas log !! id)) in *. destruct (0 <? micro) eqn:E.
  - destruct (credit_money l id 0 micro (BaseChunkMicro cfg) Hl) as [H1 H2]; [lia|lia|].
    destruct (IH _ H1) as [H3 H4]; [cbn [recredit] in *; lia|]. split; [exact H3|].
    cbn [recredit] in H4. lia.
  - destruct (IH l Hl) as [H3 H4]; [cbn [recredit] in *; lia|]. split; [exact H3|]. cbn [recredit] in H4. lia.
Qed.

Lemma exec_accounts w s o :
  world_ok w -> 0 < zlen (redis w) < 4294967296 -> 0 <= s -> money w + s + recredit o <= max_i64 ->
  let '(w', s') := exec (w, s) o in
  0 <= s' /\ accounts w w' (s' - s - recredit o) (op_good w o).
Proof.
  intros H Hn Hs Hb. pose proof H as [Hl Hr]. unfold money in Hb.
  pose proof (local_nonneg _ Hl). pose proof (stored_nonneg _ Hr).
  destruct o as [id sub amt|id sub amt|id env|id out|out|st|log ids]; cbn [exec op_good];
    [change (recredit _) with 0 in *..|].
  - unfold spend. pose proof (spend_money (led w) id sub amt Hl) as Hm.
    destruct (TrySpendDebit (led w) id sub amt) as [ok l]. destruct Hm as [M1 M2]; [lia|].
    set (w1 := mkWorld l (redis w) (strict w) (published w)).
    assert (forall w', led w' = l -> redis w' = redis w -> forall s', s' - s = local (led w) - local l ->
      0 <= s' /\ accounts w w' (s' - s - 0) True) as Hgen.
    { intros w' El Er s' Es. split; [destruct ok; lia|]. unfold accounts, world_ok, money.
      rewrite El, Er. split; [by split|]. split; [done|]. split; [lia|intros _; lia]. }
    destruct ok; [|apply Hgen; [done|done|lia]].
    apply Hgen; [| |lia]; destruct (0 <? amt); try done; apply (publish_world w1 id amt).
  - destruct (_ && _) eqn:E; [|split; [done|apply accounts_same; auto; lia]].
    unfold rollbackLocalQuantaSpend. replace (0 <? amt) with true by lia.
    destruct (refund_money (led w) id sub amt Hl) as [M1 M2]; [lia|lia|].
    match goal with |- context [publish_delta _ ?x _ _] =>
      destruct (publish_world x id (- amt)) as [El Er] end.
    split; [destruct (tagged _ _ _); lia|]. unfold accounts, world_ok, money. rewrite El, Er.
    cbn [led redis]. split; [by split|]. split; [done|].
    destruct (tagged _ _ _); (split; [lia|intros _; lia]).
  - split; [done|]. replace (s - s - 0) with 0 by lia. apply poll_accounts; auto; unfold money; lia.
  - split; [done|]. replace (s - s - 0) with 0 by lia. apply flush_accounts; auto; unfold money; lia.
  - split; [done|]. replace (s - s - 0) with 0 by lia. apply flush_all_accounts; auto; unfold money; lia.
  - split; [done|]. destruct fresh_ok as [Hf Hf0]. unfold accounts, world_ok, money. cbn [led redis].
    rewrite Hf0. split_and!; auto; lia.
  - split; [done|]. destruct (recover_money log ids (led w) Hl) as [Hm1 Hm2]; [lia|].
    unfold accounts, world_ok, money. cbn [led redis]. rewrite Hm2. split_and!; auto; lia.
Qed.


End Money.

(** ** A run: one shard, one campaign, chunks of half a unit *)

Definition demo_id : list Z := replicate 15 17 ++ [1].
Definition demo_cfg : RefillConfig :=
  NewQuotaRefillWorker (mkConfig 1000000 20 0 500000 50000000 0).
Definition demo_env : Z -> RefillEnv :=
  fun _ => mkRefillEnv 0 true true true Executed (fun _ => Executed).
Definition demo_world : World :=
  mkWorld NewLocalQuantaLedger [{[ budgetQuotaKeyForDebit (AppendUUID []) demo_id 0 := 5000000 ]}]
    None [].
Definition demo_ops : list quota_op :=
  [OpPoll demo_id demo_env; OpSpend demo_id 0 400000; OpRollback demo_id 0 100000;
   OpFlush demo_id (fun _ => Executed); OpRestart None; OpRecover [(demo_id, 400000); (demo_id, -100000)] [demo_id]].
Definition demo_run : World * Z :=
  foldl (exec (AppendUUID []) (fun _ => 0) (fun _ => None) true demo_cfg) (demo_world, 0) demo_ops.

Lemma demo_world_ok : world_ok demo_world /\ money demo_world = 5000000.
Proof.
  split; [split; [split; [done|apply (bool_decide_unpack _); vm_compute; exact I]|]|vm_compute; reflexivity].
  apply Forall_cons_2; [|constructor]. cbn. apply map_Forall_insert_2; [lia|apply map_Forall_empty].
Qed.


Example demo_run_result : snd demo_run = 300000 /\ money (fst demo_run) = 5000000 /\ recredited demo_ops = 300000.
Proof. vm_compute. done. Qed.

(** ** Recovery *)

Definition delta_sum (log : list (list Z * Z)) (id : list Z) : Z :=
  sumZ (map snd (filter (fun d => fst d = id) log)).

Lemma fetch_sum log id :
  default 0 (FetchRecoveryDeltas log !! id) = i64 (delta_sum log id).
Proof.
  unfold FetchRecoveryDeltas, delta_sum.
  assert (forall m : gmap (list Z) Z, in_i64 (default 0 (m !! id)) ->
    default 0 (foldl (fun m '(id, amt) => <[id := default 0 (m !! id) +64 amt]> m) m log !! id) =
    i64 (default 0 (m !! id) + sumZ (map snd (filter (fun d => fst d = id) log)))) as H.
  { induction log as [|[id' amt] log IH]; intros m Hm; cbn [foldl].
    { cbn. rewrite Z.add_0_r. by rewrite i64_id. }
    rewrite filter_cons. cbn [fst].
    destruct (decide (id' = id)) as [->|Hne].
    - rewrite IH by (rewrite lookup_insert_eq; apply i64_range). rewrite lookup_insert_eq.
      change (default 0 (Some ?x)) with x. cbn [map sumZ snd]. rewrite i64_i64_add. f_equal. lia.
    - rewrite IH by (by rewrite lookup_insert_ne). by rewrite lookup_insert_ne. }
  rewrite H; [done|]. rewrite lookup_empty. cbn. go_lia.
Qed.

(** The publisher is wired and the debits of [amts] all succeed. *)
Fixpoint debits (w : World) (id : list Z) (sub : Z) (amts : list Z) : option World :=
  match amts with
  | [] => Some w
  | a :: rest => let '(ok, w') := spend true w id sub a in if ok then debits w' id sub rest else None
  end.

Lemma spend_publishes w id sub amt w' :
  0 < amt -> spend true w id sub amt = (true, w') ->
  published w' = published w ++ [(id, amt)] /\ redis w' = redis w.
Proof.
  intros Ha. unfold spend. destruct (TrySpendDebit (led w) id sub amt) as [[] l]; [|discriminate].
  replace (0 <? amt) with true by lia. unfold publish_delta. replace (amt =? 0) with false by lia.
  cbn. intros [= <-]. done.
Qed.

Lemma debits_publish amts w id sub w' :
  Forall (fun a => 0 < a) amts -> debits w id sub amts = Some w' ->
  published w' = published w ++ map (pair id) amts /\ redis w' = redis w.
Proof.
  intros Ha. revert w. induction Ha as [|a amts Hp _ IH]; intros w; cbn [debits map].
  { intros [= ->]. by rewrite app_nil_r. }
  destruct (spend true w id sub a) as [[] w1] eqn:E; [|discriminate]. intros [H1 H2]%IH.
  apply spend_publishes in E as [E1 E2]; [|done]. rewrite H1, E1, <- app_assoc, H2. done.
Qed.

Lemma delta_sum_own id amts : delta_sum (map (pair id) amts) id = sumZ amts.
Proof.
  unfold delta_sum. induction amts as [|a amts IH]; [done|]. cbn [map].
  rewrite filter_cons, decide_True by done. cbn [map sumZ snd]. by rewrite IH.
Qed.

Lemma recover_one c log id :
  0 < delta_sum log id <= max_i64 ->
  RecoverFromDeltas c NewLocalQuantaLedger (FetchRecoveryDeltas log) [id] =
  CreditDebit NewLocalQuantaLedger id 0 (delta_sum log id) (BaseChunkMicro c).
Proof.
  intros H. unfold RecoverFromDeltas. cbn [foldl]. cbv zeta.
  rewrite fetch_sum, i64_id by go_lia. by replace (0 <? delta_sum log id) with true by lia.
Qed.

Lemma credited_cell l id amt chunk :
  length l = 4096%nat -> 0 < amt ->
  CreditDebit l id 0 amt chunk !!! fst (cellForDebit id 0) =
    mkCell (ledgerCellHash id 0) (remaining (l !!! fst (cellForDebit id 0)) +64 amt)
      (if 0 <? chunk then chunk else chunkSize (l !!! fst (cellForDebit id 0)))
      (rpsEMA (l !!! fst (cellForDebit id 0))) id.
Proof.
  intros Hl Ha. unfold CreditDebit. replace (amt <=? 0) with false by lia.
  pose proof (cell_lt id 0) as Hlt. cbn [cellForDebit fst] in *.
  apply list_lookup_total_insert_eq. lia.
Qed.

(** Recovery spends the budget twice.  When a tracker's debits succeed and
    it restarts, [RecoverFromDeltas] credits its empty ledger with the sum of
    the published deltas, which are the debits: the ledger holds again the
    whole amount already spent, on top of what Redis still holds, and a debit
    of that amount succeeds. *)
Theorem recovery_recredits_spend c w id amts w' :
  published w = [] -> Forall (fun a => 0 < a) amts -> 0 < sumZ amts <= max_i64 ->
  debits w id 0 amts = Some w' ->
  let l := RecoverFromDeltas c NewLocalQuantaLedger (FetchRecoveryDeltas (published w')) [id] in
  local l = sumZ amts /\ money (mkWorld l (redis w') None (published w')) = stored (redis w) + sumZ amts /\
  fst (TrySpendDebit l id 0 (sumZ amts)) = true.
Proof.
  intros Hp Ha Hs Hd l. apply debits_publish in Hd as [E1 E2]; [|done]. rewrite Hp, app_nil_l in E1.
  destruct fresh_ok as [Hok H0]. assert (length NewLocalQuantaLedger = 4096%nat) as Hlen by apply Hok.
  unfold l. rewrite E1, recover_one by (by rewrite delta_sum_own). rewrite delta_sum_own.
  destruct (credit_money NewLocalQuantaLedger id 0 (sumZ amts) (BaseChunkMicro c) Hok) as [_ Hc];
    [lia|lia|]. unfold money. cbn [led redis]. rewrite Hc, H0, E2.
  split; [done|]. split; [lia|].
  pose proof (credited_cell NewLocalQuantaLedger id (sumZ amts) (BaseChunkMicro c) Hlen ltac:(lia)) as Hcell.
  unfold TrySpendDebit. replace (sumZ amts <=? 0) with false by lia.
  cbn [cellForDebit fst] in *. rewrite Hcell. cbn [campaignHash remaining]. rewrite Z.eqb_refl.
  cbn [negb]. assert (remaining (NewLocalQuantaLedger !!! Z.to_nat (cell_index id 0)) = 0) as ->.
  { pose proof (cell_lt id 0) as Hlt. cbn [cellForDebit fst] in Hlt.
    unfold NewLocalQuantaLedger. by rewrite lookup_total_replicate_2. }
  rewrite Z.add_0_l, i64_id by go_lia. by rewrite Z.ltb_irrefl.
Qed.

Definition spent_world : World :=
  mkWorld (CreditDebit NewLocalQuantaLedger demo_id 0 1000000 1000000)
    [{[ budgetQuotaKeyForDebit (AppendUUID []) demo_id 0 := 4000000 ]}] None [].

Lemma recovery_recredits_spend_witness :
  exists w', debits spent_world demo_id 0 [600000; 400000] = Some w' /\
  let l := RecoverFromDeltas demo_cfg NewLocalQuantaLedger (FetchRecoveryDeltas (published w')) [demo_id] in
  local l = 1000000 /\ money (mkWorld l (redis w') None (published w')) = stored (redis spent_world) + 1000000 /\
  fst (TrySpendDebit l demo_id 0 1000000) = true.
Proof.
  assert (is_Some (debits spent_world demo_id 0 [600000; 400000])) as [w' E].
  { apply (bool_decide_unpack _). vm_compute. exact I. }
  exists w'. split; [exact E|].
  apply (recovery_recredits_spend demo_cfg spent_world demo_id [600000; 400000] w');
    [reflexivity|by repeat constructor|unfold max_i64; simpl; lia|exact E].
Defined.

(** ** Sub-slots and collisions *)

Lemma sub_cells_distinct id sub :
  1 <= sub <= 3 -> fst (cellForDebit id sub) <> fst (cellForDebit id 0).
Proof.
  intros Hs. cbn [cellForDebit fst]. unfold cell_index, localQuantaSlotMask.
  change 4095 with (Z.ones 12). rewrite !Z.land_ones by lia. change (2 ^ 12) with 4096.
  change (Z.land 0 3) with 0.
  assert (Z.land sub 3 = sub) as ->.
  { change 3 with (Z.ones 2). rewrite Z.land_ones by lia. apply Z.mod_small. lia. }
  set (b := SlotMap.crc32Castagnoli id).
  assert (forall x, 0 <= x -> u32 (b + x) mod 4096 = (b + x) mod 4096) as Hmod.
  { intros x Hx. unfold u32. symmetry. change 4294967296 with (4096 * 1048576).
    rewrite Z.rem_mul_r by lia. rewrite Z.add_comm, Z.mul_comm, Z.mod_add by lia.
    by rewrite Z.mod_mod by lia. }
  change (u32 (u32 0 * 1024)) with 0.
  rewrite (u32_id sub), (u32_id (sub * 1024)), !Hmod by go_lia. rewrite Z.add_0_r.
  pose proof (Z.mod_pos_bound b 4096). pose proof (Z.mod_pos_bound (b + sub * 1024) 4096).
  intros E%Z2Nat.inj; [|lia|lia].
  assert ((sub * 1024) mod 4096 = 0) as E0.
  { replace (sub * 1024) with ((b + sub * 1024) - b) by lia.
    rewrite Zminus_mod, E, Z.sub_diag. done. }
  rewrite Z.mod_small in E0; lia.
Qed.

Lemma credit_other l id sub amt chunk i :
  i <> fst (cellForDebit id sub) -> CreditDebit l id sub amt chunk !!! i = l !!! i.
Proof.
  intros H. unfold CreditDebit. destruct (amt <=? 0); [done|]. cbn [cellForDebit fst] in *.
  rewrite !list_lookup_total_alt. by rewrite list_lookup_insert_ne.
Qed.

(** The environment lets a refill through. *)
Definition healthy (cfg : RefillConfig) (env : RefillEnv) : Prop :=
  inflight env < MaxPerShard cfg /\ client_up env = true /\ lock_claimed env = true /\
  get_ok env = true /\ run env = Executed.

Lemma healthy_refill us gs gc hp cfg w id shard sub env :
  strict w = None -> healthy cfg env ->
  let '(ok, w') := tryRefillSlot us gs gc hp cfg w id shard sub env in
  ok = true /\ (forall i, i <> fst (cellForDebit id sub) -> led w' !!! i = led w !!! i).
Proof.
  intros Hs (H1 & H2 & H3 & H4 & H5). unfold tryRefillSlot.
  destruct (_ || _); [done|]. replace (MaxPerShard cfg <=? inflight env) with false by lia.
  rewrite andb_false_r, H2, H3, H4, H5. cbn [negb]. cbv zeta.
  assert (forall rem out, enter_strict us gs gc hp w id rem out = w) as Hw.
  { intros rem out. unfold enter_strict. rewrite Hs. cbn. destruct w; cbn in *; by subst. }
  rewrite !Hw. destruct (refill_script _ _ _ _) as [res r'].
  destruct (res <? 0); [done|]. split; [done|]. intros i Hi. cbn [led]. by apply credit_other.
Qed.

(** A high-volume campaign lives on one sub-slot.  For a campaign with
    four debit sub-slots, outside strict mode, when Redis answers the first
    refill attempt, a poll drops the request from the pending set and leaves
    the cells of sub-slots 1, 2 and 3 as they were: only sub-slot 0 is ever
    refilled, although the debits spread over the four. *)
Theorem subslots_starve us gs gc hp cfg w id env sub :
  strict w = None -> sub_shards gc id = 4 -> healthy cfg (env 0) -> 1 <= sub <= 3 ->
  fst (poll us gs gc hp cfg w id env) = true /\
  led (snd (poll us gs gc hp cfg w id env)) !!! fst (cellForDebit id sub) =
    led w !!! fst (cellForDebit id sub).
Proof.
  intros Hs Hn He Hsub. unfold poll. destruct (negb _); [done|].
  unfold tryRefill. rewrite Hn. change (1 <? 4) with true. change (seqZ 0 4) with [0; 1; 2; 3].
  cbn [refill_subs].
  pose proof (healthy_refill us gs gc hp cfg w id (spreadHighVolumeShard (zlen (redis w)) id 0) 0
    (env 0) Hs He) as H.
  destruct (tryRefillSlot _ _ _ _ _ _ _ _ _ _) as [ok w']. destruct H as [-> H]. cbn [fst snd].
  split; [done|]. apply H. by apply sub_cells_distinct.
Qed.

Definition high_volume (_ : list Z) : option Campaign :=
  Some (mkCampaign demo_id nil_uuid 256 [] 0 0).

Lemma subslots_starve_witness :
  let w := mkWorld NewLocalQuantaLedger [{[ budgetQuotaKeyForDebit (AppendUUID []) demo_id 0 := 5000000 ]}] None [] in
  fst (poll (AppendUUID []) (fun _ => 0) high_volume true demo_cfg w demo_id demo_env) = true /\
  led (snd (poll (AppendUUID []) (fun _ => 0) high_volume true demo_cfg w demo_id demo_env)) !!!
    fst (cellForDebit demo_id 2) = led w !!! fst (cellForDebit demo_id 2).
Proof.
  apply (subslots_starve (AppendUUID []) (fun _ => 0) high_volume true demo_cfg
    (mkWorld NewLocalQuantaLedger [{[ budgetQuotaKeyForDebit (AppendUUID []) demo_id 0 := 5000000 ]}] None [])
    demo_id demo_env 2); [reflexivity|reflexivity|repeat split; vm_compute; reflexivity|lia].
Defined.

(** Credit follows the cell, not the campaign.  When two campaigns share a
    ledger cell, a refill of the second takes the cell over with the credit
    the first had left: the first reads zero, the second holds both amounts
    and can debit them. *)
Theorem collision_moves_credit l id id' amt chunk :
  led_ok l -> cell_index id 0 = cell_index id' 0 -> ledgerCellHash id 0 <> ledgerCellHash id' 0 ->
  0 < amt -> Remaining l id + amt <= max_i64 -> tagged l id 0 = true ->
  let l' := CreditDebit l id' 0 amt chunk in
  Remaining l' id = 0 /\ Remaining l' id' = Remaining l id + amt /\
  fst (TrySpendDebit l' id' 0 (Remaining l id + amt)) = true.
Proof.
  intros [Hlen Hok] Hi Hh Ha Hb Ht l'.
  assert (fst (cellForDebit id 0) = fst (cellForDebit id' 0)) as Ei by (cbn; by rewrite Hi).
  pose proof (credited_cell l id' amt chunk Hlen Ha) as Hcell. fold l' in Hcell.
  pose proof (cell_bound l (fst (cellForDebit id' 0)) (conj Hlen Hok) (cell_lt id' 0)) as Hpos.
  unfold tagged in Ht. rewrite Ei in Ht.
  unfold Remaining, RemainingDebit, TrySpendDebit in *. cbn [cellForDebit fst snd] in *.
  rewrite Ei in *. rewrite Ht in *. rewrite Hcell. cbn [campaignHash remaining].
  rewrite (proj2 (Z.eqb_neq _ _)) by congruence. rewrite Z.eqb_refl, i64_id by go_lia.
  split; [done|]. split; [done|].
  replace (remaining (l !!! Z.to_nat (cell_index id' 0)) + amt <=? 0) with false by lia.
  cbn [negb]. by rewrite Z.ltb_irrefl.
Qed.

Definition rival_id : list Z := replicate 14 17 ++ [3; 76].

Lemma collision_moves_credit_witness :
  let l := CreditDebit NewLocalQuantaLedger demo_id 0 700000 700000 in
  let l' := CreditDebit l rival_id 0 500000 500000 in
  Remaining l' demo_id = 0 /\ Remaining l' rival_id = Remaining l demo_id + 500000 /\
  fst (TrySpendDebit l' rival_id 0 (Remaining l demo_id + 500000)) = true.
Proof.
  assert (Remaining (CreditDebit NewLocalQuantaLedger demo_id 0 700000 700000) demo_id = 700000) as E
    by (vm_compute; reflexivity).
  apply (collision_moves_credit (CreditDebit NewLocalQuantaLedger demo_id 0 700000 700000) demo_id rival_id
    500000 500000).
  - destruct fresh_ok as [H E0]. apply credit_money; [exact H|lia|rewrite E0; unfold max_i64; lia].
  - vm_compute. reflexivity.
  - vm_compute. discriminate.
  - lia.
  - rewrite E. unfold max_i64. lia.
  - vm_compute. reflexivity.
Defined.

(** The chunk asked for is within the configured bounds, whatever the rate. *)
Lemma chunk_bounds ema floor ceil base :
  0 < floor <= ceil -> floor <= AdaptiveChunkSize ema floor ceil base <= ceil.
Proof.
  intros H. unfold AdaptiveChunkSize. replace (floor <=? 0) with false by lia.
  replace (ceil <=? 0) with false by lia. cbv zeta.
  set (chunk := if SFltb _ _ then _ else _). destruct (chunk <? floor) eqn:E1;
    [destruct (ceil <? floor) eqn:E2|destruct (ceil <? chunk) eqn:E2]; lia.
Qed.

End QuantaLedger.
