(* ===== verification/DeltaRing.v ===== *)
(** * Budget delta ring

    Models the multi-producer ring of [internal/stream/local_quanta_broker.go]
    ([BudgetDeltaPublisher.enqueue], [flush], [produce]) at the granularity of
    its atomic operations: any number of concurrent [enqueue] calls and the
    single worker.  The broker client is the list of deltas handed to it. *)

From S2P Require Import Prelude.
Open Scope Z_scope.

Module DeltaRing.

Definition budgetDeltaRingCapacity : Z := 8192.
Definition budgetDeltaRingMask : Z := 8191.
Definition budgetDeltaRingUsable : Z := 8191.

Record delta := mkDelta { d_campaign : list Z; d_amount : Z }.

Record budgetDeltaSlot := mkSlot { ready : Z; amountMicro : Z; campaignID : list Z }.
#[export] Instance slot_inhabited : Inhabited budgetDeltaSlot := populate (mkSlot 0 0 []).

Record Ring := mkRing {
  writeCursor : Z; allocCursor : Z; readCursor : Z; slots : list budgetDeltaSlot
}.

Definition NewRing : Ring := mkRing 0 0 0 (replicate (Z.to_nat budgetDeltaRingCapacity) (mkSlot 0 0 [])).

Definition pos (j : Z) : nat := Z.to_nat (Z.land j budgetDeltaRingMask).
Definition slot_at (r : Ring) (j : Z) : budgetDeltaSlot := slots r !!! pos j.
Definition set_slot (r : Ring) (j : Z) (s : budgetDeltaSlot) : Ring :=
  mkRing (writeCursor r) (allocCursor r) (readCursor r) (<[pos j := s]> (slots r)).

(** ** A call of [enqueue]

    [PClaimed j] and later hold slot [j]; [PDone (Some j)] is the return
    after publishing, [PDone None] a drop. *)
Inductive pc :=
  | PLoadAlloc | PLoadRead (alloc : Z) | PCas (alloc : Z) | PClaimed (j : Z) | PCampaign (j : Z)
  | PAmount (j : Z) | PReady (j : Z) | PWrite (j : Z) | PDone (res : option Z).

(** One atomic step; the flag marks the claim of a slot. *)
Definition pstep (d : delta) (r : Ring) (p : pc) : option (Ring * pc * bool) :=
  match p with
  | PLoadAlloc => Some (r, PLoadRead (allocCursor r), false)
  | PLoadRead alloc =>
      if budgetDeltaRingUsable <=? alloc -u64 readCursor r then Some (r, PDone None, false)
      else Some (r, PCas alloc, false)
  | PCas alloc =>
      if allocCursor r =? alloc
      then Some (mkRing (writeCursor r) (alloc +u64 1) (readCursor r) (slots r), PClaimed alloc, true)
      else Some (r, PLoadAlloc, false)
  | PClaimed j =>
      if ready (slot_at r j) =? 0 then Some (r, PCampaign j, false) else Some (r, PDone None, false)
  | PCampaign j =>
      let s := slot_at r j in
      Some (set_slot r j (mkSlot (ready s) (amountMicro s) (d_campaign d)), PAmount j, false)
  | PAmount j =>
      let s := slot_at r j in
      Some (set_slot r j (mkSlot (ready s) (d_amount d) (campaignID s)), PReady j, false)
  | PReady j =>
      let s := slot_at r j in
      Some (set_slot r j (mkSlot 1 (amountMicro s) (campaignID s)), PWrite j, false)
  | PWrite j =>
      Some (mkRing (j +u64 1) (allocCursor r) (readCursor r) (slots r), PDone (Some j), false)
  | PDone _ => None
  end.

(** ** The worker: one iteration of [flush]'s loop *)

Inductive cpc :=
  | CRead | CWrite (read : Z) | CReady (read : Z) | CProduce (read : Z) | CClear (read : Z)
  | CStoreRead (read : Z).

Definition cstep (r : Ring) (c : cpc) : Ring * cpc * option delta :=
  match c with
  | CRead => (r, CWrite (readCursor r), None)
  | CWrite read => if writeCursor r <=? read then (r, CRead, None) else (r, CReady read, None)
  | CReady read =>
      if ready (slot_at r read) =? 1 then (r, CProduce read, None) else (r, CRead, None)
  | CProduce read =>
      let s := slot_at r read in (r, CClear read, Some (mkDelta (campaignID s) (amountMicro s)))
  | CClear read =>
      let s := slot_at r read in
      (set_slot r read (mkSlot 0 (amountMicro s) (campaignID s)), CStoreRead read, None)
  | CStoreRead read =>
      (mkRing (writeCursor r) (allocCursor r) (read +u64 1) (slots r), CRead, None)
  end.

(** ** Interleavings

    [claimed] records, in claim order, the deltas whose call won a slot;
    [out] what was handed to the broker.  The counters are 64 bits wide and a
    run makes fewer than 2^64 claims. *)
Record System := mkSystem {
  ring : Ring; calls : list (delta * pc); worker : cpc; claimed : list delta; out : list delta
}.

Definition init : System := mkSystem NewRing [] CRead [] [].

Inductive step : System -> System -> Prop :=
  | step_call s d :
      step s (mkSystem (ring s) (calls s ++ [(d, PLoadAlloc)]) (worker s) (claimed s) (out s))
  | step_producer s i d p r' p' (won : bool) :
      calls s !! i = Some (d, p) -> pstep d (ring s) p = Some (r', p', won) ->
      (won = true -> zlen (claimed s) + 1 < 18446744073709551616) ->
      step s (mkSystem r' (<[i := (d, p')]> (calls s)) (worker s)
                (if won then claimed s ++ [d] else claimed s) (out s))
  | step_worker s r' c' o :
      cstep (ring s) (worker s) = (r', c', o) ->
      step s (mkSystem r' (calls s) c' (claimed s) (match o with Some d => out s ++ [d] | None => out s end)).

Inductive reachable : System -> Prop :=
  | reach_init : reachable init
  | reach_step s s' : reachable s -> step s s' -> reachable s'.

(** ** Invariant *)

(** The slot a call owns, and the index it won. *)
Definition owns (p : pc) : option Z :=
  match p with PClaimed j | PCampaign j | PAmount j | PReady j => Some j | _ => None end.
Definition won_index (p : pc) : option Z :=
  match p with
  | PClaimed j | PCampaign j | PAmount j | PReady j | PWrite j => Some j
  | PDone o => o
  | _ => None
  end.

(** The first index whose slot is not yet free again. *)
Definition low (s : System) : Z :=
  match worker s with CStoreRead r => r + 1 | _ => readCursor (ring s) end.
Definition emitted (s : System) : Z :=
  match worker s with CClear r | CStoreRead r => r + 1 | _ => readCursor (ring s) end.

Definition holds (d : delta) (sl : budgetDeltaSlot) : Prop :=
  campaignID sl = d_campaign d /\ amountMicro sl = d_amount d.

Definition call_ok (s : System) (d : delta) (p : pc) : Prop :=
  match p with
  | PLoadAlloc | PDone None => True
  | PLoadRead a => 0 <= a <= zlen (claimed s)
  | PCas a => 0 <= a <= zlen (claimed s) /\ a - readCursor (ring s) < 8191
  | PClaimed j | PCampaign j => low s <= j < zlen (claimed s) /\ ready (slot_at (ring s) j) = 0
  | PAmount j =>
      low s <= j < zlen (claimed s) /\ ready (slot_at (ring s) j) = 0 /\
      campaignID (slot_at (ring s) j) = d_campaign d
  | PReady j =>
      low s <= j < zlen (claimed s) /\ ready (slot_at (ring s) j) = 0 /\ holds d (slot_at (ring s) j)
  | PWrite j | PDone (Some j) => 0 <= j < zlen (claimed s)
  end.

Definition worker_ok (s : System) : Prop :=
  match worker s with
  | CRead => True
  | CWrite r => r = readCursor (ring s)
  | CReady r => r = readCursor (ring s) /\ r < zlen (claimed s)
  | CProduce r | CClear r =>
      r = readCursor (ring s) /\ r < zlen (claimed s) /\ ready (slot_at (ring s) r) = 1
  | CStoreRead r => r = readCursor (ring s) /\ r < zlen (claimed s)
  end.

(** Index [j] is published: its slot holds the delta claimed there. *)
Definition published (s : System) (j : Z) : Prop :=
  ready (slot_at (ring s) j) = 1 /\
  exists d, claimed s !! Z.to_nat j = Some d /\ holds d (slot_at (ring s) j).

Definition owned (s : System) (j : Z) : Prop :=
  exists i d p, calls s !! i = Some (d, p) /\ owns p = Some j.

Record inv (s : System) : Prop := mkInv {
  inv_len : zlen (slots (ring s)) = 8192;
  inv_alloc : allocCursor (ring s) = zlen (claimed s);
  inv_bound : zlen (claimed s) < 18446744073709551616;
  inv_read : 0 <= readCursor (ring s) /\ low s <= zlen (claimed s) <= readCursor (ring s) + 8191;
  inv_write : 0 <= writeCursor (ring s) <= zlen (claimed s);
  inv_worker : worker_ok s;
  inv_out : out s = take (Z.to_nat (emitted s)) (claimed s);
  inv_calls : forall i d p, calls s !! i = Some (d, p) -> call_ok s d p;
  inv_won : forall i d p j, calls s !! i = Some (d, p) -> won_index p = Some j ->
    claimed s !! Z.to_nat j = Some d;
  inv_uniq : forall i i' d d' p p' j, calls s !! i = Some (d, p) -> calls s !! i' = Some (d', p') ->
    won_index p = Some j -> won_index p' = Some j -> i = i';
  inv_slots : forall j, low s <= j < zlen (claimed s) -> owned s j \/ published s j;
  inv_free : forall j, zlen (claimed s) <= j < low s + 8192 -> ready (slot_at (ring s) j) = 0
}.

(** ** Positions *)

Lemma pos_mod j : Z.of_nat (pos j) = j mod 8192.
Proof.
  unfold pos, budgetDeltaRingMask. change 8191 with (Z.ones 13). rewrite Z.land_ones by lia.
  change (2 ^ 13) with 8192. pose proof (Z.mod_pos_bound j 8192). lia.
Qed.

Lemma pos_inj j k : - 8192 < j - k < 8192 -> pos j = pos k -> j = k.
Proof.
  intros H E. assert (j mod 8192 = k mod 8192) as Em by (rewrite <- !pos_mod; by rewrite E).
  pose proof (Z.div_mod j 8192). pose proof (Z.div_mod k 8192). lia.
Qed.

Lemma pos_wrap j : pos (j + 8192) = pos j.
Proof.
  apply Nat2Z.inj. rewrite !pos_mod. replace (j + 8192) with (j + 1 * 8192) by lia.
  by rewrite Z.mod_add by lia.
Qed.

Lemma slot_set_same r j k sl :
  zlen (slots r) = 8192 -> pos k = pos j -> slot_at (set_slot r j sl) k = sl.
Proof.
  intros Hl E. unfold slot_at, set_slot. cbn [slots]. rewrite E.
  apply list_lookup_total_insert_eq. pose proof (pos_mod j). pose proof (Z.mod_pos_bound j 8192).
  unfold zlen in Hl. lia.
Qed.

Lemma slot_set_other r j k sl :
  pos k <> pos j -> slot_at (set_slot r j sl) k = slot_at r k.
Proof.
  intros E. unfold slot_at, set_slot. cbn [slots]. rewrite !list_lookup_total_alt.
  by rewrite list_lookup_insert_ne.
Qed.

Lemma zlen_set_slot r j sl : zlen (slots (set_slot r j sl)) = zlen (slots r).
Proof. unfold zlen, set_slot. cbn [slots]. by rewrite length_insert. Qed.

(** ** Frames *)

Lemma call_ok_frame s s' d p :
  zlen (claimed s) <= zlen (claimed s') -> readCursor (ring s) <= readCursor (ring s') ->
  (forall j, owns p = Some j -> low s' <= j /\ slot_at (ring s') j = slot_at (ring s) j) ->
  call_ok s d p -> call_ok s' d p.
Proof.
  intros Hc Hr Ho H. destruct p as [|a|a|j|j|j|j|j|[j|]]; cbn [call_ok owns] in *; try lia; try done.
  all: destruct (Ho j eq_refl) as [Hl ->]; intuition lia.
Qed.

Lemma owned_range s i d p j :
  inv s -> calls s !! i = Some (d, p) -> owns p = Some j ->
  low s <= j < zlen (claimed s) /\ ready (slot_at (ring s) j) = 0 /\ won_index p = Some j.
Proof.
  intros H Hi Ho. pose proof (inv_calls s H i d p Hi) as Hc.
  destruct p as [|a|a|k|k|k|k|k|[k|]]; try discriminate; cbn in Ho; simplify_eq; cbn in Hc;
    destruct Hc as [? Hc]; intuition.
Qed.

(** A call whose pc changes without touching the ring. *)
Lemma inv_move s i d p p' :
  inv s -> calls s !! i = Some (d, p) -> owns p' = owns p ->
  (won_index p' = won_index p) -> call_ok s d p' ->
  inv (mkSystem (ring s) (<[i := (d, p')]> (calls s)) (worker s) (claimed s) (out s)).
Proof.
  intros H Hi Ho Hw Hc. pose proof (lookup_lt_Some _ _ _ Hi) as Hlt.
  assert (forall k d' q, <[i := (d, p')]> (calls s) !! k = Some (d', q) ->
    exists q0, calls s !! k = Some (d', q0) /\ owns q = owns q0 /\ won_index q = won_index q0 /\
      call_ok s d' q) as Hk.
  { intros k d' q. destruct (decide (k = i)) as [->|Hne].
    - rewrite list_lookup_insert_eq by done. intros [= <- <-]. eauto 6.
    - rewrite list_lookup_insert_ne by done. intros E. exists q. split_and!; auto.
      exact (inv_calls s H k d' q E). }
  destruct H as [H1 H2 H3 H4 H5 H6 H7 H8 H9 H10 H11 H12]. constructor; auto.
  - intros k d' q E. destruct (Hk k d' q E) as (q0 & _ & _ & _ & E4). exact E4.
  - cbn [calls claimed]. intros k d' q j E Ej. destruct (Hk k d' q E) as (q0 & E1 & _ & E3 & _).
    rewrite E3 in Ej. by apply (H9 k d' q0).
  - cbn [calls]. intros k k' d1 d2 q q' j E E' Ej Ej'.
    destruct (Hk k d1 q E) as (q0 & E1 & _ & E3 & _). destruct (Hk k' d2 q' E') as (q1 & E1' & _ & E3' & _).
    rewrite E3 in Ej. rewrite E3' in Ej'. by apply (H10 k k' d1 d2 q0 q1 j).
  - intros j Hj. destruct (H11 j Hj) as [(k & d' & q & E & Eo)|Hp]; [left|by right].
    unfold owned. cbn [calls]. destruct (decide (k = i)) as [->|Hne].
    + rewrite Hi in E. simplify_eq. exists i, d', p'. rewrite list_lookup_insert_eq by done.
      split; [done|congruence].
    + exists k, d', q. by rewrite list_lookup_insert_ne.
Qed.

Lemma low_read s : readCursor (ring s) <= low s <= readCursor (ring s) + 1 \/ ~ worker_ok s.
Proof.
  unfold low, worker_ok. destruct (worker s) as [|r|r|r|r|r]; try (left; lia).
  destruct (decide (r = readCursor (ring s))); [left; lia|right; intros [? _]; done].
Qed.

Lemma window s :
  inv s -> readCursor (ring s) <= low s <= readCursor (ring s) + 1 /\
  low s <= zlen (claimed s) <= low s + 8191 /\ 0 <= emitted s <= zlen (claimed s).
Proof.
  intros H. pose proof (inv_read s H). pose proof (inv_worker s H) as Hw.
  destruct (low_read s) as [?|?]; [|done]. unfold emitted, worker_ok, low in *.
  destruct (worker s); lia.
Qed.

(** Writing the slot of [j] leaves the other slots of the window. *)
Lemma other_slot s j k sl :
  inv s -> low s <= j < low s + 8192 -> low s <= k < low s + 8192 -> k <> j ->
  slot_at (set_slot (ring s) j sl) k = slot_at (ring s) k.
Proof.
  intros H Hj Hk Hne. apply slot_set_other. intros E. apply Hne, (pos_inj k j); [lia|done].
Qed.

(** The owner of slot [j] writes it. *)
Lemma inv_write_slot s i d p p' j sl :
  inv s -> calls s !! i = Some (d, p) -> owns p = Some j -> won_index p' = Some j ->
  let s' := mkSystem (set_slot (ring s) j sl) (<[i := (d, p')]> (calls s)) (worker s)
              (claimed s) (out s) in
  call_ok s' d p' ->
  owns p' = Some j \/ (owns p' = None /\ ready sl = 1 /\ holds d sl) -> inv s'.
Proof.
  intros H Hi Ho Hw s' Hc Hcase. pose proof (lookup_lt_Some _ _ _ Hi) as Hlt.
  destruct (owned_range s i d p j H Hi Ho) as (Hj & Hr0 & Hwj).
  destruct (window s H) as (Hlr & Hwin & _).
  assert (forall k, low s <= k < low s + 8192 -> k <> j ->
    slot_at (ring s') k = slot_at (ring s) k) as Hother by (intros; apply other_slot; auto; lia).
  assert (slot_at (ring s') j = sl) as Hself by (apply slot_set_same; [apply H|done]).
  assert (forall k d' q, k <> i -> calls s !! k = Some (d', q) -> forall j', won_index q = Some j' -> j' <> j)
    as Huniq.
  { intros k d' q Hne E j' Ej ->. apply Hne. by apply (inv_uniq s H k i d' d q p j). }
  pose proof (inv_worker s H) as Hwk.
  constructor; try apply H.
  - change (ring s') with (set_slot (ring s) j sl). rewrite zlen_set_slot. apply H.
  - unfold worker_ok in *. cbn [worker s'] in *. destruct (worker s) eqn:Ew; auto.
    + destruct Hwk as (E1 & E2 & E3). split_and!; auto. rewrite Hother; auto; unfold low in *;
        rewrite Ew in *; [lia|]. intros ->. lia.
    + destruct Hwk as (E1 & E2 & E3). split_and!; auto. rewrite Hother; auto; unfold low in *;
        rewrite Ew in *; [lia|]. intros ->. lia.
  - cbn [calls s']. intros k d' q. destruct (decide (k = i)) as [->|Hne].
    + rewrite list_lookup_insert_eq by done. intros [= <- <-]. exact Hc.
    + rewrite list_lookup_insert_ne by done. intros E.
      apply (call_ok_frame s); [cbn; lia|cbn; lia| |exact (inv_calls s H k d' q E)].
      intros j' Ej'. destruct (owned_range s k d' q j' H E Ej') as (Hj' & _ & Hw').
      split; [change (low s') with (low s); lia|]. apply Hother; [lia|]. by apply (Huniq k d' q).
  - cbn [calls claimed s']. intros k d' q k'. destruct (decide (k = i)) as [->|Hne].
    + rewrite list_lookup_insert_eq by done. intros [= <- <-]. rewrite Hw. intros [= <-].
      by apply (inv_won s H i d p).
    + rewrite list_lookup_insert_ne by done. apply (inv_won s H).
  - cbn [calls s']. intros k k' d1 d2 q q' jj.
    destruct (decide (k = i)) as [->|Hne], (decide (k' = i)) as [->|Hne']; auto.
    + rewrite list_lookup_insert_eq, list_lookup_insert_ne by done. intros [= <- <-] E.
      rewrite Hw. intros [= <-] Ej. exfalso. by apply (Huniq k' d2 q' Hne' E j).
    + rewrite list_lookup_insert_ne, list_lookup_insert_eq by done. intros E [= <- <-] Ej.
      rewrite Hw. intros [= <-]. exfalso. by apply (Huniq k d1 q Hne E j).
    + rewrite !list_lookup_insert_ne by done. apply (inv_uniq s H).
  - intros k Hk. change (low s') with (low s) in Hk. cbn [claimed s'] in Hk.
    destruct (decide (k = j)) as [->|Hkj].
    + destruct Hcase as [Hown|(_ & Hr1 & Hh)].
      * left. exists i, d, p'. cbn [calls s']. by rewrite list_lookup_insert_eq.
      * right. unfold published. rewrite Hself. split; [done|]. exists d. split; [|done].
        by apply (inv_won s H i d p).
    + destruct (inv_slots s H k Hk) as [(m & d' & q & E & Eo)|[Hr1 Hp]].
      * left. exists m, d', q. cbn [calls s']. rewrite list_lookup_insert_ne; [done|].
        intros ->. rewrite Hi in E. simplify_eq.
      * right. unfold published. rewrite Hother by (auto; lia). done.
  - intros k Hk. change (low s') with (low s) in Hk. cbn [claimed s'] in Hk.
    rewrite Hother by lia. by apply H.
Qed.

(** Winning a slot. *)
Lemma inv_claim s i d a :
  inv s -> calls s !! i = Some (d, PCas a) -> allocCursor (ring s) = a ->
  zlen (claimed s) + 1 < 18446744073709551616 ->
  inv (mkSystem (mkRing (writeCursor (ring s)) (a +u64 1) (readCursor (ring s)) (slots (ring s)))
         (<[i := (d, PClaimed a)]> (calls s)) (worker s) (claimed s ++ [d]) (out s)).
Proof.
  intros H Hi Ea Hb. pose proof (lookup_lt_Some _ _ _ Hi) as Hlt.
  pose proof (inv_calls s H i d _ Hi) as Hc. cbn [call_ok] in Hc.
  destruct (window s H) as (Hlr & Hwin & Hem). rewrite (inv_alloc s H) in Ea. subst a.
  set (n := zlen (claimed s)) in *. pose proof (zlen_nonneg (claimed s)) as Hn. fold n in Hn.
  pose proof (inv_read s H). pose proof (inv_write s H).
  assert (zlen (claimed s ++ [d]) = n + 1) as Hlen by (rewrite zlen_app; done).
  assert (forall k, 0 <= k < n -> (claimed s ++ [d]) !! Z.to_nat k = claimed s !! Z.to_nat k) as Happ.
  { intros k Hk. apply lookup_app_l. unfold n, zlen in Hk. lia. }
  assert ((claimed s ++ [d]) !! Z.to_nat n = Some d) as Hlast.
  { unfold n, zlen. rewrite Nat2Z.id. by apply list_lookup_middle. }
  assert (forall k d' q j, calls s !! k = Some (d', q) -> won_index q = Some j -> 0 <= j < n) as Hrange.
  { intros k d' q j E Ej. pose proof (inv_calls s H k d' q E) as Hq.
    destruct q as [|?|?|?|?|?|?|?|[?|]]; cbn in Ej; simplify_eq; cbn [call_ok] in Hq; fold n in Hq;
      lia. }
  set (s' := mkSystem _ _ _ _ _).
  assert (low s' = low s) as Hlow by done.
  constructor; cbn [ring calls worker claimed out allocCursor writeCursor readCursor slots s'];
    rewrite ?Hlen; try rewrite Hlow; try (apply H).
  - rewrite u64_id by go_lia. done.
  - lia.
  - lia.
  - lia.
  - pose proof (inv_worker s H) as Hw. unfold worker_ok in *. cbn [worker ring claimed readCursor s'] in *.
    rewrite Hlen. fold n in Hw. destruct (worker s); intuition lia.
  - change (emitted s') with (emitted s). rewrite (inv_out s H). symmetry. apply take_app_le.
    unfold n, zlen in *. lia.
  - intros k d' q. destruct (decide (k = i)) as [->|Hne].
    + rewrite list_lookup_insert_eq by done. intros [= <- <-]. cbn [call_ok]. rewrite Hlow.
      cbn [claimed s']. rewrite Hlen. split; [lia|]. apply (inv_free s H). fold n. lia.
    + rewrite list_lookup_insert_ne by done. intros E.
      apply (call_ok_frame s); [cbn; rewrite Hlen; lia|cbn; lia| |exact (inv_calls s H k d' q E)].
      intros j Ej. destruct (owned_range s k d' q j H E Ej) as (Hj & _ & _).
      split; [rewrite Hlow; lia|done].
  - intros k d' q j. destruct (decide (k = i)) as [->|Hne].
    + rewrite list_lookup_insert_eq by done. intros [= <- <-] [= <-]. exact Hlast.
    + rewrite list_lookup_insert_ne by done. intros E Ej. rewrite Happ by eauto.
      by apply (inv_won s H k d' q).
  - intros k k' d1 d2 q q' j.
    destruct (decide (k = i)) as [->|Hne], (decide (k' = i)) as [->|Hne']; auto.
    + rewrite list_lookup_insert_eq, list_lookup_insert_ne by done. intros [= <- <-] E [= <-] Ej.
      pose proof (Hrange _ _ _ _ E Ej). lia.
    + rewrite list_lookup_insert_ne, list_lookup_insert_eq by done. intros E [= <- <-] Ej [= <-].
      pose proof (Hrange _ _ _ _ E Ej). lia.
    + rewrite !list_lookup_insert_ne by done. apply (inv_uniq s H).
  - intros j Hj. destruct (decide (j = n)) as [->|Hjn].
    + left. exists i, d, (PClaimed n). cbn [calls s']. by rewrite list_lookup_insert_eq.
    + destruct (inv_slots s H j) as [(m & d' & q & E & Eo)|(Hr1 & d' & E & Hh)]; [fold n; lia| |].
      * left. exists m, d', q. cbn [calls s']. rewrite list_lookup_insert_ne; [done|].
        intros ->. rewrite Hi in E. simplify_eq.
      * right. split; [exact Hr1|]. exists d'. cbn [claimed s']. rewrite Happ by lia. done.
  - intros j Hj. apply (inv_free s H). fold n. lia.
Qed.

(** Publishing: the cursor store, then the return. *)
Lemma inv_store_write s w : inv s -> 0 <= w <= zlen (claimed s) ->
  inv (mkSystem (mkRing w (allocCursor (ring s)) (readCursor (ring s)) (slots (ring s)))
         (calls s) (worker s) (claimed s) (out s)).
Proof. intros H Hw. destruct H. constructor; auto. Qed.

Lemma inv_producer s i d p r' p' (won : bool) :
  inv s -> calls s !! i = Some (d, p) -> pstep d (ring s) p = Some (r', p', won) ->
  (won = true -> zlen (claimed s) + 1 < 18446744073709551616) ->
  inv (mkSystem r' (<[i := (d, p')]> (calls s)) (worker s)
         (if won then claimed s ++ [d] else claimed s) (out s)).
Proof.
  intros H Hi Hs Hb. pose proof (inv_calls s H i d p Hi) as Hc. pose proof (inv_len s H) as Hlen.
  pose proof (inv_bound s H). pose proof (inv_alloc s H). pose proof (inv_read s H) as [Hr0 _].
  destruct (window s H) as (Hlr & Hwin & _).
  destruct p as [|a|a|j|j|j|j|j|res]; cbn [pstep] in Hs; [..|discriminate].
  - injection Hs as <- <- <-. apply (inv_move s i d PLoadAlloc); auto. cbn [call_ok]. lia.
  - destruct (_ <=? _) eqn:E; injection Hs as <- <- <-; apply (inv_move s i d (PLoadRead a)); auto.
    + exact I.
    + cbn [call_ok] in *. split; [done|]. unfold budgetDeltaRingUsable in E.
    destruct (decide (readCursor (ring s) <= a)); [|lia]. rewrite u64_id in E by go_lia. lia.
  - destruct (_ =? a) eqn:E; injection Hs as <- <- <-.
    + apply Z.eqb_eq in E. by apply inv_claim; auto.
    + apply (inv_move s i d (PCas a)); auto. exact I.
  - cbn [call_ok] in Hc. destruct Hc as [Hj Hz]. rewrite Hz in Hs. injection Hs as <- <- <-.
    by apply (inv_move s i d (PClaimed j)).
  - injection Hs as <- <- <-. cbn [call_ok] in Hc. destruct Hc as [Hj Hz].
    apply (inv_write_slot s i d (PCampaign j) (PAmount j) j); [done|done|done|done| |by left].
    cbn [call_ok ring claimed]. rewrite slot_set_same by done. done.
  - injection Hs as <- <- <-. cbn [call_ok] in Hc. destruct Hc as (Hj & Hz & Hcid).
    apply (inv_write_slot s i d (PAmount j) (PReady j) j); [done|done|done|done| |by left].
    cbn [call_ok ring claimed]. rewrite slot_set_same by done. done.
  - injection Hs as <- <- <-. cbn [call_ok] in Hc. destruct Hc as (Hj & Hz & Hh).
    apply (inv_write_slot s i d (PReady j) (PWrite j) j); [done|done|done|done| |by right].
    cbn [call_ok claimed]. lia.
  - injection Hs as <- <- <-. cbn [call_ok] in Hc. rewrite u64_id by go_lia.
    apply (inv_store_write (mkSystem (ring s) (<[i := (d, PDone (Some j))]> (calls s)) (worker s)
      (claimed s) (out s))); [|cbn [claimed]; lia].
    by apply (inv_move s i d (PWrite j)).
Qed.

(** The worker moves without touching the ring. *)
Lemma inv_worker_move s c o :
  inv s -> (forall s', ring s' = ring s -> claimed s' = claimed s -> worker s' = c -> worker_ok s') ->
  (match c with CStoreRead _ => False | _ => True end) ->
  (match worker s with CStoreRead _ => False | _ => True end) ->
  o = take (Z.to_nat (match c with CClear r => r + 1 | _ => readCursor (ring s) end)) (claimed s) ->
  inv (mkSystem (ring s) (calls s) c (claimed s) o).
Proof.
  intros H Hw Hc Hs Ho.
  assert (low (mkSystem (ring s) (calls s) c (claimed s) o) = low s) as El.
  { unfold low. cbn. destruct c, (worker s); done. }
  pose proof (inv_slots s H) as Hsl. pose proof (inv_free s H) as Hf. pose proof (inv_read s H) as Hr.
  rewrite <- El in Hsl, Hf, Hr.
  constructor; try apply H; auto.
  - unfold emitted. cbn [worker ring]. rewrite Ho. destruct c; done.
  - cbn [calls]. intros i d p E. apply (call_ok_frame s); [done|done| |exact (inv_calls s H i d p E)].
    intros j Ej. destruct (owned_range s i d p j H E Ej) as (Hj & _). rewrite El. split; [lia|done].
Qed.

(** The worker frees the slot it has read. *)
Lemma inv_clear s r sl :
  inv s -> worker s = CClear r -> ready sl = 0 ->
  inv (mkSystem (set_slot (ring s) r sl) (calls s) (CStoreRead r) (claimed s) (out s)).
Proof.
  intros H Ew Hz. pose proof (inv_worker s H) as Hw. unfold worker_ok in Hw. rewrite Ew in Hw.
  destruct Hw as (Er & Hrn & Hr1). destruct (window s H) as (Hlr & Hwin & _).
  assert (low s = r) as El by (unfold low; rewrite Ew; done).
  assert (forall k, r <= k < r + 8192 -> k <> r ->
    slot_at (set_slot (ring s) r sl) k = slot_at (ring s) k) as Hother
    by (intros; apply other_slot; auto; lia).
  set (s' := mkSystem _ _ _ _ _). assert (low s' = r + 1) as El' by done.
  pose proof (inv_read s H) as [Hr0 _].
  constructor; try apply H; rewrite ?El'.
  - change (ring s') with (set_slot (ring s) r sl). rewrite zlen_set_slot. apply H.
  - cbn. pose proof (inv_read s H). lia.
  - cbn. done.
  - pose proof (inv_out s H) as Ho. unfold emitted in *. rewrite Ew in Ho. exact Ho.
  - cbn [calls s']. intros i d p E. apply (call_ok_frame s); [done|done| |exact (inv_calls s H i d p E)].
    intros j Ej. destruct (owned_range s i d p j H E Ej) as (Hj & Hj0 & _).
    assert (j <> r) by (intros ->; lia). rewrite El'. split; [lia|]. apply Hother; lia.
  - cbn [claimed s']. intros j Hj. destruct (inv_slots s H j) as [Ho|[Hp1 Hp2]]; [lia|by left|].
    right. unfold published. cbn [ring claimed s']. rewrite Hother by lia. done.
  - cbn [claimed s' ring]. intros j Hj. destruct (decide (j = r + 8192)) as [->|Hne].
    + rewrite slot_set_same; [done|apply H|apply pos_wrap].
    + rewrite Hother by lia. apply (inv_free s H). lia.
Qed.

Lemma inv_advance s r :
  inv s -> worker s = CStoreRead r ->
  inv (mkSystem (mkRing (writeCursor (ring s)) (allocCursor (ring s)) (r +u64 1) (slots (ring s)))
         (calls s) CRead (claimed s) (out s)).
Proof.
  intros H Ew. pose proof (inv_worker s H) as Hw. unfold worker_ok in Hw. rewrite Ew in Hw.
  destruct Hw as [Er Hrn]. pose proof (inv_bound s H). pose proof (inv_read s H) as [Hr0 Hr].
  assert (low s = r + 1) as El by (unfold low; rewrite Ew; done).
  rewrite u64_id by go_lia. set (s' := mkSystem _ _ _ _ _).
  assert (low s' = low s) as El' by (rewrite El; done).
  pose proof (inv_slots s H) as Hsl. pose proof (inv_free s H) as Hf. rewrite <- El' in Hsl, Hf.
  constructor; try apply H; auto.
  - rewrite El'. cbn. lia.
  - cbn. done.
  - pose proof (inv_out s H) as Ho. unfold emitted in *. rewrite Ew in Ho. exact Ho.
  - cbn [calls s']. intros i d p E. apply (call_ok_frame s); [done|cbn; lia| |exact (inv_calls s H i d p E)].
    intros j Ej. destruct (owned_range s i d p j H E Ej) as (Hj & _). rewrite El'. split; [lia|done].
Qed.

Lemma inv_init : inv init.
Proof.
  assert (forall j, ready (slot_at NewRing j) = 0) as Hz.
  { intros j. unfold slot_at, NewRing. cbn [slots]. rewrite lookup_total_replicate_2; [done|].
    pose proof (pos_mod j). pose proof (Z.mod_pos_bound j 8192).
    unfold budgetDeltaRingCapacity. lia. }
  constructor; unfold init; cbn [ring calls worker claimed out]; try done.
  - intros j Hj. exfalso. unfold low, zlen in Hj. cbn in Hj. lia.
Qed.

Lemma inv_worker_step s r' c' o :
  inv s -> cstep (ring s) (worker s) = (r', c', o) ->
  inv (mkSystem r' (calls s) c' (claimed s) (match o with Some d => out s ++ [d] | None => out s end)).
Proof.
  intros H Hs. pose proof (inv_worker s H) as Hw. pose proof (inv_write s H) as Hwr.
  pose proof (inv_out s H) as Ho. pose proof (window s H) as (_ & Hwin & Hem).
  unfold emitted in *. unfold worker_ok in Hw.
  destruct (worker s) as [|r|r|r|r|r] eqn:Ew; cbn [cstep] in Hs.
  - injection Hs as <- <- <-. apply inv_worker_move; rewrite ?Ew; auto.
    intros s' Er Ec Ew'. unfold worker_ok. by rewrite Ew', Er.
  - destruct (_ <=? r) eqn:E; injection Hs as <- <- <-; apply inv_worker_move; rewrite ?Ew; auto;
      intros s' Er Ec Ew'; unfold worker_ok; rewrite Ew'; [done|]. rewrite Er, Ec. lia.
  - destruct (_ =? 1) eqn:E; injection Hs as <- <- <-; apply inv_worker_move; rewrite ?Ew; auto;
      intros s' Er Ec Ew'; unfold worker_ok; rewrite Ew'; [|done]. rewrite Er, Ec.
    intuition lia.
  - injection Hs as <- <- <-. destruct Hw as (Er & Hrn & Hr1). pose proof (inv_read s H) as [Hr0 _].
    apply inv_worker_move; rewrite ?Ew; auto.
    + intros s' Er' Ec Ew'. unfold worker_ok, slot_at in *. by rewrite Ew', Er', Ec.
    + assert (low s = r) as El by (unfold low; rewrite Ew; done).
      destruct (inv_slots s H r) as [(i & d & p & E & Eo)|(_ & d & E & Hh1 & Hh2)]; [lia| |].
      { destruct (owned_range s i d p r H E Eo) as (_ & Hz & _). lia. }
      rewrite Ho, <- Er, Hh1, Hh2. replace (Z.to_nat (r + 1)) with (S (Z.to_nat r)) by lia.
      rewrite (take_S_r _ _ d) by done. by destruct d.
  - injection Hs as <- <- <-. by apply inv_clear.
  - injection Hs as <- <- <-. by apply inv_advance.
Qed.

Lemma reachable_inv s : reachable s -> inv s.
Proof.
  induction 1 as [|s s' _ IH Hs]; [apply inv_init|]. destruct Hs.
  - (* a new call *)
    destruct IH as [H1 H2 H3 H4 H5 H6 H7 H8 H9 H10 H11 H12].
    assert (forall i e p, (calls s ++ [(d, PLoadAlloc)]) !! i = Some (e, p) ->
      calls s !! i = Some (e, p) \/ p = PLoadAlloc) as Hc.
    { intros i e p [E|[_ E]]%lookup_app_Some; [by left|right].
      apply list_lookup_singleton_Some in E as [_ [= _ <-]]. done. }
    constructor; auto; cbn [calls].
    + intros i e p [E| ->]%Hc; [exact (H8 i e p E)|exact I].
    + intros i e p j [E| ->]%Hc; [by apply (H9 i e p)|discriminate].
    + intros i i' e e' p p' j [E| ->]%Hc [E'| ->]%Hc; try discriminate. by apply (H10 i i' e e' p p').
    + intros j Hj. destruct (H11 j Hj) as [(i & e & p & E & Eo)|?]; [left|by right].
      exists i, e, p. cbn [calls]. split; [|done]. by apply lookup_app_l_Some.
  - eapply inv_producer; eauto.
  - by apply inv_worker_step.
Qed.

(** ** Schedules *)

Inductive pick := Call (d : delta) | Producer (i : nat) | Worker.

Definition work (s : System) : System :=
  let '(r', c', o) := cstep (ring s) (worker s) in
  mkSystem r' (calls s) c' (claimed s) (match o with Some d => out s ++ [d] | None => out s end).

Definition exec_pick (s : System) (k : pick) : System :=
  match k with
  | Call d => mkSystem (ring s) (calls s ++ [(d, PLoadAlloc)]) (worker s) (claimed s) (out s)
  | Producer i =>
      match calls s !! i with
      | None => s
      | Some (d, p) =>
          match pstep d (ring s) p with
          | None => s
          | Some (r', p', won) =>
              if won && (18446744073709551616 <=? zlen (claimed s) + 1) then s
              else mkSystem r' (<[i := (d, p')]> (calls s)) (worker s)
                     (if won then claimed s ++ [d] else claimed s) (out s)
          end
      end
  | Worker => work s
  end.

Lemma exec_pick_reachable s k : reachable s -> reachable (exec_pick s k).
Proof.
  intros H. destruct k as [d|i|]; cbn [exec_pick].
  - eapply reach_step; [exact H|constructor].
  - destruct (calls s !! i) as [[d p]|] eqn:E; [|done].
    destruct (pstep d (ring s) p) as [[[r' p'] won]|] eqn:Ep; [|done].
    destruct (won && _) eqn:Eb; [done|]. eapply reach_step; [exact H|].
    eapply step_producer; eauto. intros ->. cbn [andb] in Eb. lia.
  - unfold work. destruct (cstep (ring s) (worker s)) as [[r' c'] o] eqn:E.
    eapply reach_step; [exact H|]. by constructor.
Qed.

Lemma run_reachable ks : reachable (foldl exec_pick init ks).
Proof.
  assert (forall s, reachable s -> reachable (foldl exec_pick s ks)) as H.
  { induction ks as [|k ks IH]; intros s Hs; [done|]. cbn [foldl]. by apply IH, exec_pick_reachable. }
  apply H. constructor.
Qed.

(** C32: the delta ring is exact.  For any number of concurrent [enqueue] calls
    interleaved with the worker in any way: the deltas handed to the broker
    are a prefix of the claimed ones in claim order, each intact and none
    twice; a call that returned after publishing has its delta at its own
    place in that order; and fewer than 8192 deltas are ever pending. *)
Theorem delta_ring_exact s :
  reachable s ->
  out s `prefix_of` claimed s /\ zlen (claimed s) - zlen (out s) <= 8191 /\
  (forall i d j, calls s !! i = Some (d, PDone (Some j)) -> claimed s !! Z.to_nat j = Some d) /\
  (forall i i' d d' j, calls s !! i = Some (d, PDone (Some j)) ->
     calls s !! i' = Some (d', PDone (Some j)) -> i = i').
Proof.
  intros H%reachable_inv. pose proof (inv_out s H) as Ho. destruct (window s H) as (Hlr & Hwin & Hem).
  split_and!.
  - rewrite Ho. exists (drop (Z.to_nat (emitted s)) (claimed s)). by rewrite take_drop.
  - assert (zlen (out s) = emitted s) as ->.
    { unfold zlen in *. rewrite Ho, length_take. lia. }
    pose proof (inv_read s H). pose proof (inv_worker s H). 
    unfold emitted, low, worker_ok in *. destruct (worker s); lia.
  - intros i d j E. by apply (inv_won s H i d _ j E).
  - intros i i' d d' j E E'. by apply (inv_uniq s H i i' d d' _ _ j E E').
Qed.

Definition d0 : delta := mkDelta [1] 700.
Definition d1 : delta := mkDelta [2] 900.
(** Both calls claim, the second publishes first, then the worker drains. *)
Definition late_store : list pick :=
  [Call d0; Call d1; Producer 0; Producer 0; Producer 0; Producer 1; Producer 1; Producer 1] ++
  replicate 5 (Producer 1) ++ replicate 5 (Producer 0).
Definition drained : System := foldl exec_pick init (late_store ++ replicate 7 Worker).

Lemma delta_ring_exact_witness :
  reachable drained /\ out drained = [d0] /\ out drained `prefix_of` claimed drained.
Proof.
  split; [apply run_reachable|]. split; [vm_compute; reflexivity|].
  apply (delta_ring_exact drained). apply run_reachable.
Defined.

Lemma idle_worker s n :
  (worker s = CRead \/ worker s = CWrite (readCursor (ring s))) ->
  writeCursor (ring s) <= readCursor (ring s) ->
  out (Nat.iter n work s) = out s.
Proof.
  intros Hw Hle. enough (out (Nat.iter n work s) = out s /\ ring (Nat.iter n work s) = ring s /\
    (worker (Nat.iter n work s) = CRead \/ worker (Nat.iter n work s) = CWrite (readCursor (ring s))))
    by intuition.
  induction n as [|n IH]; [done|]. rewrite Nat.iter_succ. set (t := Nat.iter n work s) in *.
  destruct IH as (IH1 & IH2 & IH3). unfold work. rewrite IH2.
  destruct IH3 as [-> | ->]; cbn [cstep].
  - cbn. auto.
  - replace (writeCursor (ring s) <=? readCursor (ring s)) with true by lia. cbn. auto.
Qed.

(** A published delta can stay invisible.  Two calls of [enqueue] run
    concurrently and both return after publishing; the cursor stores land in
    the opposite order, so the write cursor goes back to 1, and however long
    the worker runs, or [Close] flushes, the second delta is never handed to
    the broker. *)
Theorem delta_ring_hides_delta :
  reachable drained /\
  calls drained = [(d0, PDone (Some 0)); (d1, PDone (Some 1))] /\ claimed drained = [d0; d1] /\
  forall n, out (Nat.iter n work drained) = [d0].
Proof.
  split; [apply run_reachable|]. split; [vm_compute; reflexivity|]. split; [vm_compute; reflexivity|].
  intros n. rewrite idle_worker; [vm_compute; reflexivity|right; vm_compute; reflexivity|].
  assert (writeCursor (ring drained) = 1 /\ readCursor (ring drained) = 1) as [-> ->]
    by (vm_compute; split; reflexivity). done.
Qed.

End DeltaRing.
