(* ===== verification/SlotMigration.v ===== *)
(** * Slot migration: replay of the delta stream

    Models [internal/domain/shard/slot_migration_dual_write.go] and
    [slot_migration_rewarm.go].  While a slot migrates, the source shard
    logs each debit in a stream; [CatchUpSlotMigrationDeltas] replays the
    entries after a cursor on the target shard.  Stream ids are integers in
    insertion order (0 stands for 0-0); [uuid.Parse] and
    [uuid.UUID.String] are parameters; what the target shard answers is an
    input. *)

From S2P Require Import Prelude RedisKeys QuantaLedger.
Open Scope Z_scope.

Module SlotMigration.

Import RedisKeys.

(** ** Entries *)

(** The dynamic type of a stream field. *)
Inductive value := VString (s : list Z) | VInt64 (n : Z) | VOther.

Record entry := mkEntry {
  e_ID : Z; f_campaign_id : option value; f_amount : option value; f_spend_key : option value
}.

Record SlotMigrationDelta := mkDelta { CampaignID : list Z; Amount : Z; SpendKey : list Z }.

(** [strconv.ParseInt(s, 10, 64)]. *)
Fixpoint digits (s : list Z) (acc : Z) : option Z :=
  match s with
  | [] => Some acc
  | c :: rest => if (48 <=? c) && (c <=? 57) then digits rest (acc * 10 + (c - 48)) else None
  end.
Definition ParseInt (s : list Z) : option Z :=
  let '(neg, body) := match s with
    | 45 :: r => (true, r) | 43 :: r => (false, r) | _ => (false, s) end in
  match body with
  | [] => None
  | _ => n ← digits body 0;
         let v := if (neg : bool) then - n else n in
         if bool_decide (in_i64 v) then Some v else None
  end.

(** ** Redis *)

Definition shard := gmap (list Z) Z.
Definition get (m : gmap (list Z) Z) (k : list Z) : Z := default 0 (m !! k).
(** INCRBY refuses to overflow. *)
Definition incr_by (m : gmap (list Z) Z) (k : list Z) (v : Z) : bool * gmap (list Z) Z :=
  let x := get m k + v in
  if bool_decide (in_i64 x) then (true, <[k := x]> m) else (false, m).

(** What the target answers for one entry: whether EXISTS fails, and how the
    pipeline of the two INCRBY ends. *)
Record TargetEnv := mkTargetEnv { exists_ok : bool; pipe : QuantaLedger.ScriptOutcome }.

(** What the source answers: the reads before the loop, the SET of the
    cursor, and the reads of the lag. *)
Record SourceEnv := mkSourceEnv { read_ok : bool; set_ok : bool; lag_ok : bool }.

Record Source := mkSource { cursor : option Z; stream : list entry }.

Section Replay.
Context (uuid_Parse : list Z -> option (list Z)) (uuid_String : list Z -> list Z).

Definition parseSlotMigrationDelta (e : entry) : option SlotMigrationDelta :=
  match f_campaign_id e with
  | Some (VString campStr) =>
      id ← uuid_Parse campStr;
      amount ← match f_amount e with
               | Some (VString v) => ParseInt v
               | Some (VInt64 v) => Some v
               | _ => None
               end;
      match f_spend_key e with
      | None => Some (mkDelta id amount (budgetCampaignKey uuid_String id))
      | Some (VString spendStr) => Some (mkDelta id amount spendStr)
      | Some _ => None
      end
  | _ => None
  end.

(** The result says whether the entry was applied without error. *)
Definition applySlotMigrationDelta (dst : gmap (list Z) Z) (d : SlotMigrationDelta) (env : TargetEnv)
    : bool * gmap (list Z) Z :=
  if Amount d =? 0 then (true, dst)
  else if negb (exists_ok env) then (false, dst)
  else match dst !! SpendKey d with
  | None => (false, dst)
  | Some _ =>
      match pipe env with
      | QuantaLedger.Failed => (false, dst)
      | o =>
          let '(ok1, m1) := incr_by dst (SpendKey d) (i64 (- Amount d)) in
          let '(ok2, m2) := incr_by m1 (campaignSyncKey uuid_String (CampaignID d)) (Amount d) in
          (match o with QuantaLedger.Executed => ok1 && ok2 | _ => false end, m2)
      end
  end.

(** The loop: entries applied, last id applied, whether it ended without
    error, and the target. *)
Fixpoint replay (entries : list entry) (cur applied : Z) (dst : gmap (list Z) Z)
    (env : Z -> TargetEnv) : bool * Z * Z * gmap (list Z) Z :=
  match entries with
  | [] => (true, cur, applied, dst)
  | e :: rest =>
      match parseSlotMigrationDelta e with
      | None => (false, cur, applied, dst)
      | Some d =>
          let '(ok, dst') := applySlotMigrationDelta dst d (env (e_ID e)) in
          if ok then replay rest (e_ID e) (applied + 1) dst' env else (false, cur, applied, dst')
      end
  end.

(** XRANGE from [openStreamRangeID]: the whole stream for no cursor or 0-0,
    else the entries after it. *)
Definition pending (s : Source) : list entry :=
  let cur := default 0 (cursor s) in
  if cur =? 0 then stream s else filter (fun e => cur < e_ID e) (stream s).

Definition SlotMigrationReplicationLag (s : Source) : Z := zlen (pending s).

(** The result is the number applied, the lag, whether there was no error, and
    the shards. *)
Definition CatchUpSlotMigrationDeltas (s : Source) (dst : gmap (list Z) Z)
    (env : Z -> TargetEnv) (src : SourceEnv) : Z * Z * bool * Source * gmap (list Z) Z :=
  if negb (read_ok src) then (0, 0, false, s, dst) else
  let entries := pending s in
  let '(ok, cur, applied, dst') := replay entries (default 0 (cursor s)) 0 dst env in
  if negb ok then (applied, zlen entries - applied, false, s, dst')
  else if (0 <? applied) && negb (set_ok src) then (applied, 0, false, s, dst')
  else
    let s' := if 0 <? applied then mkSource (Some cur) (stream s) else s in
    if negb (lag_ok src) then (applied, 0, false, s', dst')
    else (applied, SlotMigrationReplicationLag s', true, s', dst').

(** Starting a slot resets the cursor and keeps the stream; stopping deletes
    both. *)
Definition EnableSlotMigrationDualWrite (s : Source) : Source := mkSource None (stream s).
Definition DisableSlotMigrationDualWrite (s : Source) : Source := mkSource None [].

(** [campaigns] is the table's (limit, spend) per id; the first missing row
    stops the loop. *)
Fixpoint RewarmCampaignBudgetKeys (campaigns : gmap (list Z) (Z * Z)) (dst : gmap (list Z) Z)
    (ids : list (list Z)) : bool * gmap (list Z) Z :=
  match ids with
  | [] => (true, dst)
  | id :: rest =>
      match campaigns !! id with
      | None => (false, dst)
      | Some (limit, spent) =>
          let remaining := limit -64 spent in
          let remaining := if remaining <? 0 then 0 else remaining in
          RewarmCampaignBudgetKeys campaigns (<[budgetCampaignKey uuid_String id := remaining]> dst) rest
      end
  end.

(** ** What an entry contributes to a key *)

Definition contribution (e : entry) (k : list Z) : Z :=
  match parseSlotMigrationDelta e with
  | None => 0
  | Some d =>
      if Amount d =? 0 then 0
      else (if bool_decide (k = SpendKey d) then i64 (- Amount d) else 0) +
           (if bool_decide (k = campaignSyncKey uuid_String (CampaignID d)) then Amount d else 0)
  end.
Definition total (l : list entry) (k : list Z) : Z := sumZ (map (fun e => contribution e k) l).

Lemma incr_get m k v m' k' :
  incr_by m k v = (true, m') -> get m' k' = get m k' + (if bool_decide (k' = k) then v else 0).
Proof.
  unfold incr_by. destruct (bool_decide (in_i64 (get m k + v))); [|discriminate]. intros [= <-].
  unfold get at 1. case_bool_decide as E; [subst; by rewrite lookup_insert_eq|].
  rewrite lookup_insert_ne by congruence. unfold get. lia.
Qed.

Lemma apply_get e d dst env dst' k :
  parseSlotMigrationDelta e = Some d -> applySlotMigrationDelta dst d env = (true, dst') ->
  get dst' k = get dst k + contribution e k.
Proof.
  intros Hp. unfold applySlotMigrationDelta, contribution. rewrite Hp.
  destruct (Amount d =? 0); [intros [= <-]; lia|]. destruct (negb _); [discriminate|].
  destruct (dst !! SpendKey d); [|discriminate]. destruct (pipe env); [|discriminate|].
  - destruct (incr_by dst _ _) as [ok1 m1] eqn:E1, (incr_by m1 _ _) as [ok2 m2] eqn:E2.
    intros [= Hok <-]. apply andb_true_iff in Hok as [-> ->].
    rewrite (incr_get _ _ _ _ k E2), (incr_get _ _ _ _ k E1). lia.
  - destruct (incr_by dst _ _) as [ok1 m1], (incr_by m1 _ _) as [ok2 m2]. discriminate.
Qed.

Lemma replay_ok l cur n dst env cur' n' dst' :
  replay l cur n dst env = (true, cur', n', dst') ->
  n' = n + zlen l /\ cur' = default cur (e_ID <$> last l) /\
  forall k, get dst' k = get dst k + total l k.
Proof.
  revert cur n dst. induction l as [|e l IH]; intros cur n dst; cbn [replay].
  { intros [= <- <- <-]. split; [unfold zlen; cbn; lia|]. split; [done|]. intros k. unfold total. cbn. lia. }
  destruct (parseSlotMigrationDelta e) as [d|] eqn:Ep; [|discriminate].
  destruct (applySlotMigrationDelta dst d (env (e_ID e))) as [[] dst1] eqn:Ea; [|discriminate].
  intros (E1 & E2 & E3)%IH. split; [unfold zlen in *; cbn [length]; lia|]. split.
  - rewrite E2. rewrite last_cons. by destruct (last l).
  - intros k. rewrite E3, (apply_get e d _ _ _ k Ep Ea). unfold total. cbn [map sumZ]. lia.
Qed.

(** Stream ids grow from 1. *)
Definition stream_ok (s : Source) : Prop :=
  StronglySorted (fun a b => e_ID a < e_ID b) (stream s) /\ Forall (fun e => 0 < e_ID e) (stream s) /\
  0 <= default 0 (cursor s).

Lemma pending_filter s :
  stream_ok s -> pending s = filter (fun e => default 0 (cursor s) < e_ID e) (stream s).
Proof.
  intros (_ & Hp & _). unfold pending. destruct (_ =? 0) eqn:E; [|done].
  symmetry. apply filter_all. eapply Forall_impl; [exact Hp|]. cbn. intros. lia.
Qed.

Lemma last_is_max l e :
  StronglySorted (fun a b => e_ID a < e_ID b) l -> last l = Some e -> Forall (fun x => e_ID x <= e_ID e) l.
Proof.
  intros H. induction H as [|x l Hs IH Hx]; [done|]. rewrite last_cons.
  destruct (last l) as [y|] eqn:El.
  - intros [= ->]. constructor; [|by apply IH].
    apply last_Some_elem_of in El. rewrite Forall_forall in Hx. specialize (Hx e El). lia.
  - intros [= ->]. apply last_None in El as ->. constructor; [lia|constructor].
Qed.

Lemma pending_after s n env dst src lag s' dst' :
  stream_ok s -> CatchUpSlotMigrationDeltas s dst env src = (n, lag, true, s', dst') ->
  n = zlen (pending s) /\ stream s' = stream s /\
  Forall (fun e => e_ID e <= default 0 (cursor s')) (stream s) /\
  default 0 (cursor s) <= default 0 (cursor s') /\ lag = zlen (pending s') /\
  forall k, get dst' k = get dst k + total (pending s) k.
Proof.
  intros Hs. unfold CatchUpSlotMigrationDeltas. destruct (read_ok src); [|discriminate]. cbn [negb].
  destruct (replay (pending s) _ 0 dst env) as [[[ok cur] applied] dst1] eqn:E.
  destruct ok; cbn [negb]; [|discriminate]. apply replay_ok in E as (En & Ec & Ek). rewrite Z.add_0_l in En.
  destruct ((0 <? applied) && _) eqn:Eset; [discriminate|].
  destruct (lag_ok src); [|discriminate]. cbn [negb]. intros [= <- <- <- <-].
  rewrite (pending_filter s Hs) in *. destruct Hs as (Hsort & Hpos & Hcur).
  assert (forall c, Forall (fun e => e_ID e <= c) (filter (fun e => default 0 (cursor s) < e_ID e) (stream s)) ->
    default 0 (cursor s) <= c -> Forall (fun e => e_ID e <= c) (stream s)) as Hall.
  { intros c Hf Hc. rewrite Forall_forall in *. intros e He.
    destruct (decide (default 0 (cursor s) < e_ID e)); [|lia].
    apply Hf. by apply list_elem_of_filter. }
  pose proof (StronglySorted_filter _ (fun e => default 0 (cursor s) < e_ID e) (stream s) Hsort) as Hsf.
  destruct (0 <? applied) eqn:Ea.
  - cbn [stream cursor default from_option]. split; [done|]. split; [done|].
    destruct (last (filter _ (stream s))) as [e|] eqn:El.
    + cbn in Ec. subst cur. pose proof (last_is_max _ e Hsf El) as Hm.
      apply last_Some_elem_of in El as He. apply list_elem_of_filter in He as [He _].
      split; [apply Hall; [exact Hm|cbn in *; lia]|]. split; [cbn in *; lia|]. done.
    + apply last_None in El. rewrite El in En. unfold zlen in En. cbn in En. lia.
  - assert (filter (fun e => default 0 (cursor s) < e_ID e) (stream s) = []) as Hnil.
    { destruct (filter _ (stream s)); [done|]. unfold zlen in En. cbn in En. lia. }
    split; [done|]. split; [done|]. split; [apply Hall; [rewrite Hnil; constructor|lia]|].
    split; [lia|]. done.
Qed.

(** C33: each delta is replayed exactly once.  When a catch-up succeeds, every
    key of the target has moved by exactly what the entries after the cursor
    contribute, whatever the debits logged, the number reported is theirs and
    the lag is zero; and a later catch-up, with any entries appended in
    between, sees those entries only. *)
Theorem catch_up_exactly_once s dst env src n lag s' dst' more :
  stream_ok s -> CatchUpSlotMigrationDeltas s dst env src = (n, lag, true, s', dst') ->
  Forall (fun e => default 0 (cursor s') < e_ID e) more ->
  n = zlen (pending s) /\ lag = 0 /\
  (forall k, get dst' k = get dst k + total (pending s) k) /\
  pending (mkSource (cursor s') (stream s' ++ more)) = more.
Proof.
  intros Hs E Hm. apply pending_after in E as (En & Es & Hle & Hc & El & Ek); [|done].
  destruct Hs as (Hsort & Hpos & Hcur).
  assert (forall l, Forall (fun e => default 0 (cursor s') < e_ID e) l ->
    pending (mkSource (cursor s') (stream s' ++ l)) = l) as Hp.
  { intros l Hl. unfold pending. cbn [cursor stream]. rewrite Es. destruct (_ =? 0) eqn:E0.
    - destruct (stream s) as [|e r]; [done|]. apply Forall_cons in Hle as [? _].
      apply Forall_cons in Hpos as [? _]. lia.
    - rewrite filter_app, filter_none, app_nil_l; [by apply filter_all|].
      eapply Forall_impl; [exact Hle|]. cbn. intros. lia. }
  split; [done|]. split; [|split; [done|by apply Hp]].
  specialize (Hp [] ltac:(constructor)). rewrite app_nil_r in Hp. rewrite El.
  destruct s' as [c l]. cbn [cursor stream] in *. by rewrite Hp.
Qed.

Lemma replay_app l1 l2 cur n dst env cur1 n1 dst1 :
  replay l1 cur n dst env = (true, cur1, n1, dst1) ->
  replay (l1 ++ l2) cur n dst env = replay l2 cur1 n1 dst1 env.
Proof.
  revert cur n dst. induction l1 as [|e l IH]; intros cur n dst; cbn [replay app].
  { by intros [= <- <- <-]. }
  destruct (parseSlotMigrationDelta e) as [d|]; [|discriminate].
  destruct (applySlotMigrationDelta dst d (env (e_ID e))) as [[] dst2]; [|discriminate]. apply IH.
Qed.

(** A failed catch-up is replayed from its start.  When an entry fails
    because the target lacks its spend key, the entries before it have been
    applied but the cursor has not moved; once the key is there, a catch-up
    that succeeds applies them a second time. *)
Theorem retry_applies_twice s dst env src pre e post d cur1 n1 dst1 :
  stream_ok s -> read_ok src = true -> pending s = pre ++ e :: post ->
  replay pre (default 0 (cursor s)) 0 dst env = (true, cur1, n1, dst1) ->
  parseSlotMigrationDelta e = Some d -> Amount d <> 0 -> dst1 !! SpendKey d = None ->
  CatchUpSlotMigrationDeltas s dst env src = (zlen pre, zlen (pending s) - zlen pre, false, s, dst1) /\
  forall dst2 env2 src2 n lag s' dst3,
    (forall k, get dst2 k = get dst1 k) ->
    CatchUpSlotMigrationDeltas s dst2 env2 src2 = (n, lag, true, s', dst3) ->
    forall k, get dst3 k = get dst k + 2 * total pre k + total (e :: post) k.
Proof.
  intros Hs Hro Hp Hr He Ha Hk. split.
  - unfold CatchUpSlotMigrationDeltas. rewrite Hro, Hp, (replay_app _ _ _ _ _ _ _ _ _ Hr). cbn [replay].
    rewrite He. unfold applySlotMigrationDelta. replace (Amount d =? 0) with false by lia.
    rewrite Hk. apply replay_ok in Hr as (En & _ & _). rewrite Z.add_0_l in En. subst n1.
    cbn [negb]. destruct (exists_ok _); reflexivity.
  - intros dst2 env2 src2 n lag s' dst3 Hg E k. apply pending_after in E as (_ & _ & _ & _ & _ & Ek); [|done].
    apply replay_ok in Hr as (_ & _ & E1). rewrite Ek, Hg, E1, Hp. unfold total.
    rewrite map_app, sumZ_app. lia.
Qed.

End Replay.

(** ** A stream of two debits, the second to a key the target lacks *)

Definition demo_entry (i : Z) (key : string) (amount : string) : entry :=
  mkEntry i (Some (VString (lit "c"))) (Some (VString (lit amount))) (Some (VString (lit key))).
Definition demo_source : Source := mkSource None [demo_entry 1 "a" "30"; demo_entry 2 "b" "5"].
Definition src_ok : SourceEnv := mkSourceEnv true true true.
Definition all_ok : Z -> TargetEnv := fun _ => mkTargetEnv true QuantaLedger.Executed.

Lemma demo_source_ok : stream_ok demo_source.
Proof. split; [repeat constructor; cbn; lia|]. split; [repeat constructor; cbn; lia|cbn; lia]. Qed.

Lemma catch_up_exactly_once_witness :
  let dst := {[ lit "a" := 100; lit "b" := 100 ]} in
  let '(n, lag, ok, s', dst') := CatchUpSlotMigrationDeltas Some Datatypes.id demo_source dst all_ok src_ok in
  ok = true /\ n = 2 /\ lag = 0 /\ get dst' (lit "a") = 70 /\
  pending (mkSource (cursor s') (stream s' ++ [demo_entry 3 "a" "1"])) = [demo_entry 3 "a" "1"].
Proof.
  set (dst := {[ lit "a" := 100; lit "b" := 100 ]} : gmap (list Z) Z). cbv zeta.
  destruct (CatchUpSlotMigrationDeltas Some Datatypes.id demo_source dst all_ok src_ok)
    as [[[[n lag] ok] s'] dst'] eqn:E.
  assert (ok = true /\ cursor s' = Some 2) as [-> Ec].
  { assert ((let '(_, _, ok, s', _) := CatchUpSlotMigrationDeltas Some Datatypes.id demo_source dst all_ok
      src_ok in (ok, cursor s')) = (true, Some 2)) as H by (vm_compute; reflexivity).
    rewrite E in H. by injection H. }
  destruct (catch_up_exactly_once Some Datatypes.id demo_source dst all_ok src_ok n lag s' dst'
    [demo_entry 3 "a" "1"] demo_source_ok E) as (En & El & Ek & Ep);
    [rewrite Ec; repeat constructor; cbn; lia|].
  split; [reflexivity|]. split; [exact En|]. split; [exact El|].
  split; [rewrite Ek; vm_compute; reflexivity|exact Ep].
Defined.

Lemma retry_applies_twice_witness :
  let dst := {[ lit "a" := 100 ]} in
  let '(_, _, ok, s1, dst1) := CatchUpSlotMigrationDeltas Some Datatypes.id demo_source dst all_ok src_ok in
  ok = false /\ s1 = demo_source /\ get dst1 (lit "a") = 70 /\
  let '(_, _, ok2, _, dst3) :=
    CatchUpSlotMigrationDeltas Some Datatypes.id s1 (<[lit "b" := 0]> dst1) all_ok src_ok in
  ok2 = true /\ get dst3 (lit "a") = 40.
Proof.
  set (dst := {[ lit "a" := 100 ]} : gmap (list Z) Z). cbv zeta.
  destruct (replay Some Datatypes.id [demo_entry 1 "a" "30"] 0 0 dst all_ok) as [[[ok0 c0] n0] dst1] eqn:E0.
  assert (ok0 = true /\ dst1 !! lit "b" = None /\ get dst1 (lit "a") = 70 /\ get dst1 (lit "b") = 0) as (-> & Hb & Ha & Hb0).
  { assert ((let '(ok, _, _, m) := replay Some Datatypes.id [demo_entry 1 "a" "30"] 0 0 dst all_ok in
      (ok, m !! lit "b", get m (lit "a"), get m (lit "b"))) = (true, None, 70, 0)) as H
      by (vm_compute; reflexivity).
    rewrite E0 in H. by injection H. }
  destruct (retry_applies_twice Some Datatypes.id demo_source dst all_ok src_ok [demo_entry 1 "a" "30"]
    (demo_entry 2 "b" "5") [] (mkDelta (lit "c") 5 (lit "b")) c0 n0 dst1 demo_source_ok) as [E1 H2];
    [reflexivity|reflexivity|exact E0|vm_compute; reflexivity|done|exact Hb|].
  rewrite E1. split; [reflexivity|]. split; [reflexivity|]. split; [exact Ha|].
  destruct (CatchUpSlotMigrationDeltas Some Datatypes.id demo_source (<[lit "b" := 0]> dst1) all_ok src_ok)
    as [[[[n lag] ok2] s2] dst3] eqn:E2.
  assert (ok2 = true) as ->.
  { assert ((let '(_, _, _, m) := replay Some Datatypes.id [demo_entry 1 "a" "30"] 0 0 dst all_ok in
      let '(_, _, ok, _, _) := CatchUpSlotMigrationDeltas Some Datatypes.id demo_source
        (<[lit "b" := 0]> m) all_ok src_ok in ok) = true) as H by (vm_compute; reflexivity).
    rewrite E0, E2 in H. exact H. }
  split; [reflexivity|].
  rewrite (H2 (<[lit "b" := 0]> dst1) all_ok src_ok n lag s2 dst3); [vm_compute; reflexivity| |exact E2].
  intros k. unfold get. destruct (decide (k = lit "b")) as [->|Hne];
    [rewrite lookup_insert_eq; exact (eq_sym Hb0)|by rewrite lookup_insert_ne].
Defined.

End SlotMigration.
