(* ===== verification/SpendSync.v ===== *)
(** * Settlement of a campaign's spend

    Models [internal/domain/worker_sync.go] and [worker_sync_dedup.go], the
    flush transaction of [internal/domain/store_campaign.go], the claim of
    [internal/dedup/adapter.go] with its SQL function, and the counters of
    [unified-filter.lua], for one campaign and its worker.  The filter adds
    each debit to a counter; the worker moves the counter to an in-flight
    counter under a lock with an expiry, charges Postgres under an
    idempotency key and clears the in-flight counter.  The worker may crash,
    the lock may expire and any call may fail or lose its reply at any point.
    The theorems are about one worker; the program starts one per shard in the
    processor and in the control plane, and [exec2] runs two.
    The transaction ids and keys drawn at random are inputs; [seq_of]
    (InflightSeq) and [factor] (FactorU of the amount) are parameters. *)

From S2P Require Import Prelude.
Open Scope Z_scope.

Module SpendSync.

Record State := mkState {
  (* Redis *)
  sync : option Z; inflight : option Z; locked : bool; txid : option Z; dirty : bool;
  (* Postgres: current_spend, sync_idempotency, dedup_key_proposals *)
  spend : Z; applied : gset Z; proposals : gmap Z (Z * Z);
  (* the worker's rollup entry: amount and transaction id *)
  staged : option (Z * Z);
  (* all that the filter has debited *)
  debited : Z
}.

Definition init : State := mkState None None false None false 0 ∅ ∅ None 0.

Definition num (v : option Z) : Z := default 0 v.
Arguments num : simpl never.

Lemma num_Some v : num (Some v) = v.
Proof. reflexivity. Qed.

Lemma num_None : num None = 0.
Proof. reflexivity. Qed.

Ltac nums := cbn; rewrite ?num_Some, ?num_None.

(** [unified-filter.lua]: INCRBY, and SADD when the counter was empty. *)
Definition debit (s : State) (amount : Z) : State :=
  let c_sync := num (sync s) + amount in
  mkState (Some c_sync) (inflight s) (locked s) (txid s) ((c_sync =? amount) || dirty s)
    (spend s) (applied s) (proposals s) (staged s) (debited s + amount).

(** ** The two scripts *)

Definition with_redis (s : State) (sy infl : option Z) (lk : bool) (tx : option Z) (d : bool) : State :=
  mkState sy infl lk tx d (spend s) (applied s) (proposals s) (staged s) (debited s).

(** [prepareSyncScript]: the amount (0 for nothing to do) and the id. *)
Definition prepareSyncScript (s : State) (newTx : Z) : State * (Z * option Z) :=
  if locked s then (s, (0, None))
  else
    let tx := match txid s with Some t => t | None => newTx end in
    let total := num (inflight s) + num (sync s) in
    if total <=? 0 then
      let sy := match sync s with Some c => if c <=? 0 then None else Some c | None => None end in
      (with_redis s sy (inflight s) (locked s) None (dirty s), (0, None))
    else
      let cur := num (sync s) in
      let '(sy, infl) :=
        if 0 <? cur then
          let remaining := cur + - cur in
          (if remaining <=? 0 then None else Some remaining, Some (num (inflight s) + cur))
        else (None, inflight s) in
      (with_redis s sy infl true (Some tx) (dirty s), (total, Some tx)).

Definition commitSyncScript (s : State) (amount : Z) : State :=
  let remaining := num (inflight s) - amount in
  let infl := if remaining <=? 0 then None else Some remaining in
  let d := if (num (sync s) <=? 0) && (num infl <=? 0) then false else dirty s in
  with_redis s (sync s) infl false None d.

(** ** Staging *)

Definition with_staged (s : State) (e : option (Z * Z)) : State :=
  mkState (sync s) (inflight s) (locked s) (txid s) (dirty s) (spend s) (applied s) (proposals s) e
    (debited s).

(** [prepareBudgetEntity]: an answer of 0 removes the campaign from the dirty
    set.  [reply] is false when the script ran but its answer was lost. *)
Definition prepareBudgetEntity (s : State) (newTx : Z) (reply : bool) : State * option (Z * Z) :=
  let '(s1, (amount, tx)) := prepareSyncScript s newTx in
  if negb reply then (s1, None)
  else if amount =? 0 then (with_redis s1 (sync s1) (inflight s1) (locked s1) (txid s1) false, None)
  else match tx with
  | Some t => (s1, if 0 <? amount then Some (amount, t) else None)
  | None => (s1, None)
  end.

Definition stageCampaignRollup (s : State) (newTx : Z) (reply : bool) : State :=
  match prepareBudgetEntity s newTx reply with
  | (s1, Some entry) => with_staged s1 (Some entry)
  | (s1, None) => s1
  end.

(** ** Postgres *)

Inductive Outcome := OutcomeConfirmed | OutcomeAlreadyConfirmed | OutcomeHashMismatch.

(** [dedup_claim_confirm] on the scope of the sequence: outcome and key.  The
    rows of these scopes are only written here, already confirmed. *)
Definition claim_confirm (ps : gmap Z (Z * Z)) (seq factor_u newKey : Z)
    : Outcome * Z * gmap Z (Z * Z) :=
  match ps !! seq with
  | Some (f, key) =>
      if f =? factor_u then (OutcomeAlreadyConfirmed, key, ps) else (OutcomeHashMismatch, key, ps)
  | None => (OutcomeConfirmed, newKey, <[seq := (factor_u, newKey)]> ps)
  end.

Inductive PgOutcome := Committed | RolledBack | CommittedNoReply.

(** What happens during one flush of the entry. *)
Record FlushEnv := mkFlushEnv {
  new_key : Z;            (* the key a first claim draws *)
  claim_runs : bool; claim_reply : bool; resume_reply : bool; gate_ok : bool;
  row_skipped : bool;     (* SKIP LOCKED found the row locked, flush not strict *)
  customer_balance : Z;
  pg : PgOutcome;
  redis_ok : bool         (* the commit script runs *)
}.

Definition with_pg (s : State) (sp : Z) (ap : gset Z) (ps : gmap Z (Z * Z)) : State :=
  mkState (sync s) (inflight s) (locked s) (txid s) (dirty s) sp ap ps (staged s) (debited s).

(** [applySpendFlush]: whether it reports no error, and the state it would
    commit. *)
Definition applySpendFlush (s : State) (amount key : Z) (env : FlushEnv) : bool * State :=
  if bool_decide (key ∈ applied s) then (true, s)
  else if row_skipped env then (false, s)
  else if customer_balance env <? amount then (false, s)
  else (true, with_pg s (spend s + amount) ({[ key ]} ∪ applied s) (proposals s)).

(** [CommitRollupRedis] ignores the error of the script. *)
Definition CommitRollupRedis (s : State) (amount : Z) (env : FlushEnv) : State :=
  with_staged (if redis_ok env then commitSyncScript s amount else s) None.

Section Worker.
Context (seq_of : Z -> Z) (factor : Z -> Z).

(** [resolveSpendDedup]: no answer on an error, else whether to apply and the
    key that replaces the transaction id. *)
Definition resolveSpendDedup (s : State) (amount tx : Z) (env : FlushEnv)
    : State * option (bool * Z) :=
  if negb (claim_runs env) then (s, None)
  else
    let '(outcome, key, ps) := claim_confirm (proposals s) (seq_of tx) (factor amount) (new_key env) in
    let s1 := with_pg s (spend s) (applied s) ps in
    (s1, if negb (claim_reply env) then None
         else match outcome with
         | OutcomeHashMismatch => None
         | OutcomeAlreadyConfirmed =>
             if resume_reply env then Some (negb (bool_decide (key ∈ applied s1)), key) else None
         | OutcomeConfirmed => Some (true, key)
         end).

(** [flushCampaignRollup] on the entry: claim, apply, commit; every error
    retains the entry. *)
Definition flushCampaignRollup (s : State) (env : FlushEnv) : State :=
  match staged s with
  | None => s
  | Some (amount, tx) =>
      let '(s1, resolved) := resolveSpendDedup s amount tx env in
      match resolved with
      | None => s1
      | Some (false, _) => CommitRollupRedis s1 amount env
      | Some (true, key) =>
          if negb (gate_ok env) then s1
          else
            let '(ok, s2) := applySpendFlush s1 amount key env in
            match pg env with
            | RolledBack => s1
            | CommittedNoReply => s2
            | Committed => if ok then CommitRollupRedis s2 amount env else s2
            end
      end
  end.

(** ** Runs *)

Inductive op :=
  | Debit (amount : Z)
  | LockExpires
  | Collect (newTx : Z) (reply : bool)   (* a scan of the dirty set *)
  | Flush (env : FlushEnv)
  | Crash.

Definition exec (s : State) (o : op) : State :=
  match o with
  | Debit a => debit s a
  | LockExpires => with_redis s (sync s) (inflight s) false (txid s) (dirty s)
  | Collect newTx reply => if dirty s then stageCampaignRollup s newTx reply else s
  | Flush env => flushCampaignRollup s env
  | Crash => with_staged s None
  end.

(** Debits are positive; a new transaction id has an unused sequence, a new
    key is new. *)
Definition op_ok (s : State) (o : op) : Prop :=
  match o with
  | Debit a => 0 < a
  | Collect newTx _ => proposals s !! seq_of newTx = None
  | Flush env => new_key env ∉ applied s
  | _ => True
  end.

Fixpoint run_ok (s : State) (ops : list op) : Prop :=
  match ops with
  | [] => True
  | o :: rest => op_ok s o /\ run_ok (exec s o) rest
  end.

#[export] Instance op_ok_decision s o : Decision (op_ok s o).
Proof. destruct o; cbn [op_ok]; apply _. Defined.

#[export] Instance run_ok_decision s ops : Decision (run_ok s ops).
Proof. revert s. induction ops; intros s; cbn [run_ok]; apply _. Defined.

(** ** Accounting *)

(** [charged s x]: Postgres has charged [x] of what is in flight. *)
Record charged (s : State) (x : Z) : Prop := mkCharged {
  ch_sync : 0 <= num (sync s);
  ch_range : 0 <= x <= num (inflight s);
  ch_spend : 0 <= spend s;
  ch_sum : spend s + num (sync s) + num (inflight s) - x = debited s;
  ch_staged : forall a t, staged s = Some (a, t) -> txid s = Some t /\ 0 < a <= num (inflight s);
  ch_tx : match txid s with
    | None => x = 0
    | Some t =>
        match proposals s !! seq_of t with
        | None => x = 0
        | Some (f, key) => if bool_decide (key ∈ applied s) then f = factor x else x = 0
        end
    end
}.

Lemma charged_init : charged init 0.
Proof. constructor; nums; try lia; done. Qed.

Lemma charged_debit s x a : charged s x -> 0 < a -> charged (debit s a) x.
Proof. intros [H1 H2 H3 H4 H5 H6] Ha. constructor; nums; auto; lia. Qed.

(** The prepare script keeps the accounts; its answer is 0, or what is in
    flight under the current id. *)
Lemma charged_prepare s x newTx :
  charged s x -> proposals s !! seq_of newTx = None ->
  let '(s1, (amount, tx)) := prepareSyncScript s newTx in
  charged s1 x /\
  (amount = 0 \/ 0 < amount <= num (inflight s1) /\ exists t, tx = Some t /\ txid s1 = Some t).
Proof.
  intros H Hnew. pose proof H as [H1 H2 H3 H4 H5 H6]. unfold prepareSyncScript.
  destruct (locked s) eqn:El; [split; [done|by left]|].
  set (tx := match txid s with Some t => t | None => newTx end). cbv zeta.
  assert (match proposals s !! seq_of tx with
    | None => x = 0
    | Some (f, key) => if bool_decide (key ∈ applied s) then f = factor x else x = 0 end) as Htx.
  { unfold tx. destruct (txid s); [exact H6|]. by rewrite Hnew. }
  assert (forall a t', staged s = Some (a, t') -> Some tx = Some t' /\ 0 < a <= num (inflight s)) as Hst.
  { intros a t' E. destruct (H5 a t' E) as (Et & Ea). unfold tx. rewrite Et. done. }
  destruct (_ <=? 0) eqn:Et.
  - assert (num (inflight s) = 0 /\ num (sync s) = 0) as [Ei Es] by lia.
    assert (staged s = None) as Hn.
    { destruct (staged s) as [[a t]|] eqn:E; [|done]. destruct (H5 a t eq_refl) as (_ & ? & ?). lia. }
    split; [|by left].
    destruct (sync s) as [c|]; [rewrite num_Some in *|]; subst; cbn;
      constructor; nums; rewrite ?Hn; rewrite ?num_None in *; try lia; done.
  - destruct (0 <? num (sync s)) eqn:Ec.
    + replace (num (sync s) + - num (sync s)) with 0 by lia. change (0 <=? 0) with true. cbv iota.
      split; [|right; split; [nums; lia|by exists tx]].
      constructor; nums; auto; try lia. intros a t E. destruct (Hst a t E). split; [done|lia].
    + split; [|right; split; [nums; lia|by exists tx]]. constructor; nums; auto; lia.
Qed.

Lemma charged_stage s x newTx reply :
  charged s x -> proposals s !! seq_of newTx = None ->
  charged (stageCampaignRollup s newTx reply) x.
Proof.
  intros H Hnew. unfold stageCampaignRollup, prepareBudgetEntity. pose proof (charged_prepare s x newTx H Hnew) as Hp.
  destruct (prepareSyncScript s newTx) as [s1 [amount tx]]. destruct Hp as [Hc Hp].
  destruct reply; cbn [negb]; [|exact Hc]. destruct (amount =? 0) eqn:E.
  - destruct Hc. by constructor.
  - destruct Hp as [->|(Ha & t & -> & Et)]; [done|]. replace (0 <? amount) with true by lia.
    destruct Hc. constructor; auto. cbn. intros a t' [= <- <-]. done.
Qed.

(** Committing an entry that Postgres has charged. *)
Lemma charged_commit s amount tx env :
  charged s amount -> staged s = Some (amount, tx) ->
  exists x, charged (CommitRollupRedis s amount env) x.
Proof.
  intros [H1 H2 H3 H4 H5 H6] Es. destruct (H5 amount tx Es) as [Et Ha]. unfold CommitRollupRedis.
  destruct (redis_ok env).
  - exists 0. unfold commitSyncScript. cbv zeta.
    assert (num (if num (inflight s) - amount <=? 0 then None else Some (num (inflight s) - amount)) =
      num (inflight s) - amount) as En.
    { destruct (_ <=? 0) eqn:E; [rewrite num_None; lia|done]. }
    constructor; cbn; rewrite ?En; try lia; try done.
  - exists amount. constructor; auto; done.
Qed.

Hypothesis factor_inj : forall a b, factor a = factor b -> a = b.

Lemma charged_flush s x env :
  charged s x -> new_key env ∉ applied s -> exists x', charged (flushCampaignRollup s env) x'.
Proof.
  intros H Hk. pose proof H as [H1 H2 H3 H4 H5 H6]. unfold flushCampaignRollup, resolveSpendDedup.
  destruct (staged s) as [[amount tx]|] eqn:Es; [|by exists x].
  destruct (H5 amount tx eq_refl) as [Et Ha]. rewrite Et in H6.
  destruct (claim_runs env); [|by exists x]. cbn [negb]. unfold claim_confirm.
  assert (forall s1 key, charged s1 0 -> staged s1 = Some (amount, tx) -> txid s1 = Some tx ->
    proposals s1 !! seq_of tx = Some (factor amount, key) -> num (inflight s1) = num (inflight s) ->
    key ∉ applied s1 ->
    exists x', charged (if negb (gate_ok env) then s1
      else let '(ok, s2) := applySpendFlush s1 amount key env in
           match pg env with
           | Committed => if ok then CommitRollupRedis s2 amount env else s2
           | RolledBack => s1
           | CommittedNoReply => s2
           end) x') as Happly.
  { intros s1 key Hc Es1 Et1 Ep Ei Hnk. destruct (gate_ok env); [|by exists 0]. cbn [negb].
    unfold applySpendFlush. rewrite bool_decide_eq_false_2 by done.
    destruct (row_skipped env); [destruct (pg env); by exists 0|].
    destruct (_ <? amount); [destruct (pg env); by exists 0|].
    set (s2 := with_pg s1 (spend s1 + amount) ({[ key ]} ∪ applied s1) (proposals s1)).
    assert (charged s2 amount) as H2c.
    { destruct Hc as [C1 C2 C3 C4 C5 C6]. constructor; cbn; auto; try lia.
      rewrite Et1, Ep. rewrite bool_decide_eq_true_2; [done|].
      by apply elem_of_union_l, elem_of_singleton. }
    destruct (pg env); [|by exists 0|by exists amount].
    by apply (charged_commit s2 amount tx). }
  destruct (proposals s !! seq_of tx) as [[f key]|] eqn:Ep.
  - set (s1 := with_pg s (spend s) (applied s) (proposals s)).
    assert (charged s1 x) as H1c by (clear - H; destruct s; exact H).
    destruct (f =? factor amount) eqn:Ef; cbv beta iota zeta; fold s1;
      [|destruct (negb (claim_reply env)); by exists x].
    apply Z.eqb_eq in Ef. destruct (negb (claim_reply env)); [by exists x|].
    destruct (resume_reply env); [|by exists x].
    destruct (decide (key ∈ applied s)) as [Hin|Hin].
    + rewrite bool_decide_eq_true_2 in * by exact Hin. cbn [negb].
      assert (x = amount) as -> by (apply factor_inj; congruence).
      by apply (charged_commit s1 amount tx).
    + rewrite bool_decide_eq_false_2 in * by exact Hin. cbn [negb].
      subst x. apply Happly; try done. subst f. exact Ep.
  - set (ps := <[seq_of tx := (factor amount, new_key env)]> (proposals s)). subst x.
    set (s1 := with_pg s (spend s) (applied s) ps).
    assert (charged s1 0) as H1c.
    { constructor; unfold s1, with_pg; cbn [sync inflight txid spend applied proposals staged debited]; auto; try lia;
        [rewrite Es; exact H5|].
      rewrite Et. unfold ps. rewrite lookup_insert_eq. by rewrite bool_decide_eq_false_2. }
    destruct (negb (claim_reply env)); [by exists 0|].
    apply Happly; try done. cbn. apply lookup_insert_eq.
Qed.

Lemma charged_exec s x o :
  charged s x -> op_ok s o -> exists x', charged (exec s o) x'.
Proof.
  intros H Ho. destruct o as [a| |newTx reply|env|]; cbn [exec op_ok] in *.
  - exists x. by apply charged_debit.
  - exists x. destruct H. by constructor.
  - destruct (dirty s); [|by exists x]. exists x. by apply charged_stage.
  - by apply (charged_flush s x).
  - exists x. destruct H. by constructor.
Qed.

Lemma charged_run ops : run_ok init ops -> exists x, charged (foldl exec init ops) x.
Proof.
  assert (exists x, charged init x) as Hi by (exists 0; apply charged_init).
  revert Hi. generalize init. induction ops as [|o ops IH]; intros s0 [x Hx] Hok; [by exists x|].
  destruct Hok as [Ho Hok]. cbn [foldl]. apply IH; [by apply (charged_exec s0 x)|done].
Qed.


(** ** What a scan, a debit and a healthy flush do *)

(** A healthy flush, but for the customer's balance. *)
Definition flush_with (key balance : Z) : op :=
  Flush (mkFlushEnv key true true true true false balance Committed true).

(** A scan of an unlocked campaign with new spend stages all of it. *)
Lemma collect_stages c infl tx sp ap ps st d newTx :
  0 < c -> 0 <= num infl ->
  exec (mkState (Some c) infl false tx true sp ap ps st d) (Collect newTx true) =
  let t := match tx with Some t => t | None => newTx end in
  mkState None (Some (num infl + c)) true (Some t) true sp ap ps (Some (num infl + c, t)) d.
Proof.
  intros Hc Hi. cbn [exec dirty]. unfold stageCampaignRollup, prepareBudgetEntity, prepareSyncScript.
  cbn [locked txid inflight sync]. cbv zeta. rewrite num_Some.
  replace (num infl + c <=? 0) with false by lia. replace (0 <? c) with true by lia.
  replace (c + - c) with 0 by lia. change (0 <=? 0) with true. cbv iota. cbn [negb].
  replace (num infl + c =? 0) with false by lia. by replace (0 <? num infl + c) with true by lia.
Qed.

Lemma collect_locked sy infl tx sp ap ps st d newTx :
  exec (mkState sy infl true tx true sp ap ps st d) (Collect newTx true) =
  mkState sy infl true tx false sp ap ps st d.
Proof. reflexivity. Qed.

Lemma debit_empty infl lk tx d0 sp ap ps st d a :
  exec (mkState None infl lk tx d0 sp ap ps st d) (Debit a) =
  mkState (Some a) infl lk tx true sp ap ps st (d + a).
Proof. cbn [exec]. unfold debit. cbn [sync]. rewrite num_None, Z.add_0_l, Z.eqb_refl. done. Qed.

Lemma flush_settles sy infl lk tx d sp ap ps amount t deb key balance :
  num infl = amount -> 0 < amount <= balance -> ps !! seq_of t = None -> key ∉ ap ->
  exec (mkState sy infl lk tx d sp ap ps (Some (amount, t)) deb) (flush_with key balance) =
  mkState sy None false None (if num sy <=? 0 then false else d) (sp + amount) ({[ key ]} ∪ ap)
    (<[seq_of t := (factor amount, key)]> ps) None deb.
Proof.
  intros Hi Ha Hps Hk. cbn [exec flush_with].
  unfold flushCampaignRollup, resolveSpendDedup. cbn [staged claim_runs negb proposals].
  unfold claim_confirm. rewrite Hps. cbn [claim_reply negb gate_ok].
  unfold applySpendFlush. cbn [with_pg applied new_key]. rewrite bool_decide_eq_false_2 by exact Hk.
  cbn [row_skipped customer_balance]. replace (balance <? amount) with false by lia.
  cbn [pg]. unfold CommitRollupRedis, commitSyncScript, with_redis, with_staged, with_pg.
  cbn [redis_ok sync inflight locked txid dirty spend applied proposals staged debited].
  rewrite Hi, Z.sub_diag. change (0 <=? 0) with true. cbv iota. rewrite num_None.
  change (0 <=? 0) with true. by rewrite andb_true_r.
Qed.

(** A healthy round settles.  After any run that left no transaction id
    behind, a scan of the unlocked dirty campaign followed by a flush in which
    every call succeeds and the customer can pay charges all that was debited
    and empties both counters. *)
Theorem healthy_round_settles ops newTx key balance :
  let s := foldl exec init ops in
  run_ok init ops -> locked s = false -> txid s = None -> dirty s = true ->
  0 < num (sync s) -> debited s - spend s <= balance ->
  proposals s !! seq_of newTx = None -> key ∉ applied s ->
  let s' := foldl exec init (ops ++ [Collect newTx true; flush_with key balance]) in
  spend s' = debited s' /\ debited s' = debited s /\ num (sync s') + num (inflight s') = 0 /\
  dirty s' = false /\ txid s' = None.
Proof.
  intros s Hok Hl Ht Hd Hs Hb Hnew Hk s'. destruct (charged_run ops Hok) as [x Hx].
  unfold s'. rewrite foldl_app. fold s in Hx |- *. clearbody s. clear s'.
  destruct Hx as [H1 H2 H3 H4 _ H6]. rewrite Ht in H6. subst x.
  destruct s as [sy infl lk tx d sp ap ps st deb].
  cbn [locked txid dirty sync inflight spend debited applied proposals] in *. subst lk tx d. cbn [foldl].
  destruct sy as [c|]; [rewrite num_Some in *|rewrite num_None in Hs; lia].
  rewrite collect_stages by lia. cbv zeta.
  rewrite flush_settles by (try done; lia). cbn. rewrite !num_None. split; [lia|done].
Qed.

(** ** Two ways to stop settling *)

(** The first claim meets an empty balance, the lock expires, more is spent
    and the campaign is scanned again. *)
Definition grow (a b t t' key : Z) : list op :=
  [Debit a; Collect t true; flush_with key 0; LockExpires; Debit b; Collect t' true].

Record stuck (s : State) (a t key : Z) : Prop := mkStuck {
  st_tx : txid s = Some t;
  st_row : proposals s !! seq_of t = Some (factor a, key);
  st_new : spend s = 0;
  st_inflight : a < num (inflight s);
  st_sync : 0 <= num (sync s);
  st_staged : forall a' t', staged s = Some (a', t') -> t' = t /\ a < a'
}.

Lemma stuck_exec s a t key o : 0 < a -> stuck s a t key -> op_ok s o -> stuck (exec s o) a t key.
Proof.
  intros Ha Hs Ho. pose proof Hs as [H1 H2 H3 H4 H5 H6].
  destruct o as [c| |newTx reply|env|]; cbn [exec op_ok] in *.
  - constructor; nums; auto; lia.
  - by constructor.
  - destruct (dirty s); [|done]. unfold stageCampaignRollup, prepareBudgetEntity, prepareSyncScript.
    destruct (locked s); [destruct reply; by constructor|]. rewrite H1. cbv zeta.
    replace (num (inflight s) + num (sync s) <=? 0) with false by lia.
    destruct (0 <? num (sync s)) eqn:Ec.
    + replace (num (sync s) + - num (sync s)) with 0 by lia. change (0 <=? 0) with true. cbv iota.
      destruct reply; cbn [negb]; [|constructor; nums; auto; lia].
      replace (num (inflight s) + num (sync s) =? 0) with false by lia.
      replace (0 <? num (inflight s) + num (sync s)) with true by lia.
      constructor; nums; auto; try lia. intros a' t' [= <- <-]. lia.
    + destruct reply; cbn [negb]; [|constructor; nums; auto; lia].
      replace (num (inflight s) + num (sync s) =? 0) with false by lia.
      replace (0 <? num (inflight s) + num (sync s)) with true by lia.
      constructor; nums; auto; try lia. intros a' t' [= <- <-]. lia.
  - unfold flushCampaignRollup, resolveSpendDedup. destruct (staged s) as [[a' t']|] eqn:Es; [|done].
    destruct (H6 a' t' eq_refl) as [-> Ha']. destruct (claim_runs env); [|done].
    cbn [negb]. unfold claim_confirm. rewrite H2.
    assert ((factor a =? factor a') = false) as -> by (apply Z.eqb_neq; intros E%factor_inj; lia).
    assert (stuck (with_pg s (spend s) (applied s) (proposals s)) a t key) as Hs' by (destruct s; exact Hs).
    by destruct (negb (claim_reply env)).
  - by constructor.
Qed.

Lemma stuck_run s a t key ops :
  0 < a -> stuck s a t key -> run_ok s ops -> stuck (foldl exec s ops) a t key.
Proof.
  intros Ha. revert s. induction ops as [|o ops IH]; intros s Hs Hok; [exact Hs|].
  destruct Hok as [Ho Hok]. apply (IH _ (stuck_exec s a t key o Ha Hs Ho) Hok).
Qed.

Lemma grow_state a b t t' key :
  0 < a -> 0 < b ->
  foldl exec init (grow a b t t' key) =
  mkState None (Some (a + b)) true (Some t) true 0 ∅ {[seq_of t := (factor a, key)]}
    (Some (a + b, t)) (a + b).
Proof.
  intros Ha Hb. unfold grow, init. cbn [foldl]. rewrite debit_empty.
  rewrite collect_stages by (rewrite ?num_None; lia). rewrite num_None, !Z.add_0_l. cbv zeta.
  assert (exec (mkState None (Some a) true (Some t) true 0 ∅ ∅ (Some (a, t)) a) (flush_with key 0) =
    mkState None (Some a) true (Some t) true 0 ∅ {[seq_of t := (factor a, key)]} (Some (a, t)) a) as ->.
  { cbn [exec flush_with]. unfold flushCampaignRollup, resolveSpendDedup. cbn [staged claim_runs negb proposals].
    unfold claim_confirm. rewrite lookup_empty. cbn [claim_reply negb gate_ok].
    unfold applySpendFlush. rewrite bool_decide_eq_false_2 by apply not_elem_of_empty.
    cbn [row_skipped customer_balance]. by replace (0 <? a) with true by lia. }
  change (exec (mkState ?sy ?infl ?lk ?tx ?d ?sp ?ap ?ps ?st ?deb) LockExpires) with
    (mkState sy infl false tx d sp ap ps st deb).
  rewrite debit_empty.
  by rewrite collect_stages by (rewrite ?num_Some; lia).
Qed.

(** Spend that grows under its id is never settled.  When an entry has
    been claimed but not charged, for want of the customer's balance, and its
    lock expires before the balance is back, a scan that finds new spend
    restages the campaign under the same id with a larger amount: every later
    claim is a hash mismatch.  Whatever happens next, top-ups and restarts
    included, Postgres never charges the campaign. *)
Theorem grown_spend_never_settles a b t t' key ops :
  0 < a -> 0 < b -> run_ok (foldl exec init (grow a b t t' key)) ops ->
  spend (foldl exec init (grow a b t t' key ++ ops)) = 0 /\
  debited (foldl exec init (grow a b t t' key)) = a + b.
Proof.
  intros Ha Hb Hok. rewrite foldl_app. rewrite (grow_state a b t t' key Ha Hb) in *.
  split; [|done]. apply (stuck_run _ a t key ops Ha); [|exact Hok].
  constructor; nums; try lia; try done; [apply lookup_singleton_eq|].
  intros a' t0 [= <- <-]. split; [done|lia].
Qed.

(** A campaign whose spend is debited twice, scanned again while its lock is
    held, and then settled. *)
Definition strand (a b t t' key balance : Z) : list op :=
  [Debit a; Collect t true; Debit b; Collect t' true; flush_with key balance].

Record stranded (s : State) (a b : Z) : Prop := mkStranded {
  sd_dirty : dirty s = false;
  sd_staged : staged s = None;
  sd_spend : spend s = a;
  sd_sync : b <= num (sync s);
  sd_debited : debited s = a + num (sync s)
}.

Lemma stranded_exec s a b o :
  0 < b -> stranded s a b -> op_ok s o -> stranded (exec s o) a b.
Proof.
  intros Hb Hs Ho. pose proof Hs as [H1 H2 H3 H4 H5].
  destruct o as [c| |newTx reply|env|]; cbn [exec op_ok] in *.
  - constructor; nums; auto; try lia. rewrite H1, orb_false_r. lia.
  - by constructor.
  - by rewrite H1.
  - unfold flushCampaignRollup. by rewrite H2.
  - by constructor.
Qed.

Lemma stranded_run s a b ops :
  0 < b -> stranded s a b -> run_ok s ops -> stranded (foldl exec s ops) a b.
Proof.
  intros Hb. revert s. induction ops as [|o ops IH]; intros s Hs Hok; [exact Hs|].
  destruct Hok as [Ho Hok]. apply (IH _ (stranded_exec s a b o Hb Hs Ho) Hok).
Qed.

Lemma strand_state a b t t' key balance :
  0 < a <= balance -> 0 < b ->
  foldl exec init (strand a b t t' key balance) =
  mkState (Some b) None false None false a {[ key ]} {[seq_of t := (factor a, key)]} None (a + b).
Proof.
  intros Ha Hb. unfold strand, init. cbn [foldl]. rewrite debit_empty.
  rewrite collect_stages by (rewrite ?num_None; lia). rewrite num_None, !Z.add_0_l. cbv zeta.
  rewrite debit_empty, collect_locked.
  rewrite flush_settles by (try done; try apply not_elem_of_empty; rewrite ?num_Some; lia).
  rewrite union_empty_r_L, Z.add_0_l, num_Some. by destruct (b <=? 0).
Qed.

(** Spend debited while an entry is being settled is stranded.  A scan
    that finds the lock held takes the campaign out of the dirty set; the
    settlement then charges the first amount only, and since the counter is
    not empty no later debit marks the campaign dirty again.  Whatever happens
    next, Postgres never charges more than the first amount. *)
Theorem stranded_spend_never_settles a b t t' key balance ops :
  0 < a <= balance -> 0 < b -> run_ok (foldl exec init (strand a b t t' key balance)) ops ->
  spend (foldl exec init (strand a b t t' key balance ++ ops)) = a /\
  a + b <= debited (foldl exec init (strand a b t t' key balance ++ ops)).
Proof.
  clear factor_inj. intros Ha Hb Hok. rewrite foldl_app.
  rewrite (strand_state a b t t' key balance Ha Hb) in *.
  assert (stranded (foldl exec (mkState (Some b) None false None false a {[ key ]}
    {[seq_of t := (factor a, key)]} None (a + b)) ops) a b) as [_ _ Hs Hn Hd].
  { apply stranded_run; [done| |exact Hok]. constructor; nums; auto; lia. }
  split; [exact Hs|lia].
Qed.

(** Two workers on one shard: each has its own rollup entry, Redis and
    Postgres are shared.  The state holds the entry of the worker that runs,
    [other] the entry of the other. *)
Definition exec2 (w : State * option (Z * Z)) (o : bool * op) : State * option (Z * Z) :=
  let '(s, other) := w in
  if fst o then (exec s (snd o), other)
  else let s' := exec (with_staged s other) (snd o) in (with_staged s' (staged s), staged s').

End Worker.

(** Two workers charge more than was debited.  Both stage the same 5 when the
    lock expires in between; the first settles it and stages the next 10; the
    second finds its 5 already confirmed and takes it off the in-flight counter
    of the 10, with the lock and the transaction id.  What is left is staged
    again under a new id, and both entries are charged. *)
Theorem two_workers_overcharge :
  let ops := [(true, Debit 5); (true, Collect 1 true); (true, LockExpires); (false, Collect 2 true);
              (true, flush_with 10 100); (true, Debit 10); (true, Collect 3 true); (false, flush_with 11 100);
              (false, Collect 4 true); (true, flush_with 12 100); (false, flush_with 13 100)] in
  let s := fst (foldl (exec2 (fun z => z) (fun z => z)) (init, None) ops) in
  debited s = 15 /\ spend s = 20 /\ num (sync s) + num (inflight s) = 0.
Proof. vm_compute. done. Qed.

(** A sequence number that comes up again, with the same amount, drops the
    spend: the claim answers that it is confirmed, and nothing is charged. *)
Theorem reused_sequence_drops_spend :
  let ops := [Debit 5; Collect 1 true; flush_with 10 100; Debit 5; Collect 2 true; flush_with 11 100] in
  let s := foldl (exec (fun _ => 0) (fun z => z)) init ops in
  debited s = 10 /\ spend s = 5 /\ num (sync s) + num (inflight s) = 0.
Proof. vm_compute. done. Qed.

(** ** The hypotheses at concrete inputs *)

Lemma id_inj (a b : Z) : (fun z => z) a = (fun z => z) b -> a = b.
Proof. done. Qed.

(** A flush whose commit reply is lost, a crash, the same spend settled again. *)
Definition demo_ops : list op :=
  [Debit 5; Collect 1 true; Flush (mkFlushEnv 10 true true true true false 100 CommittedNoReply true);
   Crash; LockExpires; Collect 2 true; flush_with 11 100].


Lemma healthy_round_settles_witness :
  spend (foldl (exec (fun z => z) (fun z => z)) init
    ([Debit 5; Debit 2] ++ [Collect 1 true; flush_with 10 100])) = 7.
Proof.
  assert (run_ok (fun z => z) (fun z => z) init [Debit 5; Debit 2]) as Hok by (cbn; lia).
  destruct (healthy_round_settles (fun z => z) (fun z => z) id_inj [Debit 5; Debit 2] 1 10 100 Hok
    eq_refl eq_refl eq_refl eq_refl) as (Hs & Hd & _);
    [vm_compute; congruence|reflexivity|apply not_elem_of_empty|].
  rewrite Hs. exact Hd.
Defined.

Lemma grown_spend_never_settles_witness :
  spend (foldl (exec (fun z => z) (fun z => z)) init
    (grow 5 2 1 2 10 ++ [LockExpires; Crash; Collect 3 true; flush_with 11 100])) = 0.
Proof.
  apply (grown_spend_never_settles (fun z => z) (fun z => z) id_inj 5 2 1 2 10
    [LockExpires; Crash; Collect 3 true; flush_with 11 100]); [lia|lia|].
  apply (bool_decide_unpack _). vm_compute. exact I.
Defined.

Lemma stranded_spend_never_settles_witness :
  spend (foldl (exec (fun z => z) (fun z => z)) init
    (strand 5 2 1 2 10 100 ++ [Debit 4; Collect 3 true; flush_with 11 100])) = 5.
Proof.
  apply (stranded_spend_never_settles (fun z => z) (fun z => z) 5 2 1 2 10 100
    [Debit 4; Collect 3 true; flush_with 11 100]); [lia|lia|].
  apply (bool_decide_unpack _). vm_compute. exact I.
Defined.

End SpendSync.
