(* ===== verification/PoisonSplit.v ===== *)
(** * The event store interface and the poison-batch split

    Models [internal/stream/processor_poison_split.go] and
    [internal/stream/store_errors.go].  The store behind a stream consumer is
    an interface of the source ([domain.EventStore]); it is a typeclass here,
    with what the consumers rely on as its laws.  An event is a reference to
    a pooled object together with the Redis id of its message. *)

From Stdlib Require String.
From S2P Require Import Prelude Text.
Open Scope Z_scope.

Module PoisonSplit.

Import Text.

(** ** Errors of a store *)

Inductive StoreError :=
  | ErrCanceled                  (* context.Canceled *)
  | ErrDeadlineExceeded          (* context.DeadlineExceeded *)
  | ErrSpoolMaxSegments          (* errCHSpoolMaxSegments *)
  | ErrText (message : string).  (* any other error *)

Definition retriable_texts : list string :=
  ["connection refused"; "connect:"; "closed pool"; "conn closed"; "broken pipe";
   "clickhouse unavailable"; "clickhouse write failed"; "failed to connect"]%string.

Definition isRetriableStoreError (e : StoreError) : bool :=
  match e with
  | ErrCanceled => existsb (Contains (ToLower "context canceled")) retriable_texts
  | ErrDeadlineExceeded | ErrSpoolMaxSegments => true
  | ErrText s => existsb (Contains (ToLower s)) retriable_texts
  end.

(** ** The store *)

Record Msg := mkMsg { data : Z; msgID : Z }.

(** The deduplication token: first and last id, and the length. *)
Definition token (batch : list Msg) : option (Z * Z * Z) :=
  match head batch, last batch with
  | Some a, Some b => Some (msgID a, msgID b, zlen batch)
  | _, _ => None
  end.

Class EventStore (St : Type) := mkEventStore {
  StoreBatch : St -> list Msg -> option (Z * Z * Z) -> St * option StoreError;
  rows : St -> list Z;   (* the contents of the persisted events *)
  rows_mono : forall s b tok, rows s ⊆ rows (StoreBatch s b tok).1;
  rows_stored : forall s b tok, (StoreBatch s b tok).2 = None ->
    map data b ⊆ rows (StoreBatch s b tok).1
}.

(** ** The split *)

Record SplitResult (St : Type) := mkSplit {
  after : St; successIdx : list Z; failIdx : list Z;
  calls : nat    (* how often the store was called *)
}.
Arguments mkSplit {St}.
Arguments after {St}.
Arguments successIdx {St}.
Arguments failIdx {St}.
Arguments calls {St}.

Section Split.
Context {St : Type} `{!EventStore St}.

(** [splitStoreBatch]; [None] is fuel exhausted. *)
Fixpoint split_fuel (fuel : nat) (s : St) (batch : list Msg) (baseIdx : Z)
    : option (SplitResult St) :=
  match batch, fuel with
  | [], _ => Some (mkSplit s [] [] 0)
  | _, O => None
  | _, S fuel' =>
      let '(s1, err) := StoreBatch s batch (token batch) in
      match err with
      | None => Some (mkSplit s1 (seqZ baseIdx (zlen batch)) [] 1)
      | Some e =>
          if isRetriableStoreError e then Some (mkSplit s1 [] (seqZ baseIdx (zlen batch)) 1)
          else if (length batch =? 1)%nat then Some (mkSplit s1 [] [baseIdx] 1)
          else
            let mid := (length batch / 2)%nat in
            match split_fuel fuel' s1 (take mid batch) baseIdx with
            | None => None
            | Some l =>
                match split_fuel fuel' (after l) (drop mid batch) (baseIdx + Z.of_nat mid) with
                | None => None
                | Some r => Some (mkSplit (after r) (successIdx l ++ successIdx r)
                              (failIdx l ++ failIdx r) (1 + calls l + calls r))
                end
            end
      end
  end.

Definition splitStoreBatch (s : St) (batch : list Msg) (baseIdx : Z) : option (SplitResult St) :=
  split_fuel (length batch) s batch baseIdx.

(** What any call returns: the indices of the batch, each once and in order
    on its side; the successes are persisted; at most [2 n - 1] store calls. *)
Record split_ok (s : St) (batch : list Msg) (baseIdx : Z) (r : SplitResult St) : Prop := {
  so_perm : Permutation (successIdx r ++ failIdx r) (seqZ baseIdx (zlen batch));
  so_ok_sorted : StronglySorted Z.lt (successIdx r);
  so_fail_sorted : StronglySorted Z.lt (failIdx r);
  so_mono : rows s ⊆ rows (after r);
  so_stored : forall i m, i ∈ successIdx r -> at_z batch (i - baseIdx) = Some m ->
    data m ∈ rows (after r);
  so_calls : (calls r <= 2 * length batch - 1)%nat
}.

Lemma seqZ_sorted m n : StronglySorted Z.lt (seqZ m n).
Proof.
  destruct (Z.le_gt_cases n 0) as [Hn|Hn]; [rewrite seqZ_nil by done; constructor|].
  assert (0 <= n) as H0 by lia. clear Hn. revert m. revert n H0.
  refine (natlike_ind _ _ _); [intros m; rewrite seqZ_nil by done; constructor|].
  intros n Hn IH m. rewrite seqZ_cons, Z.pred_succ by lia. constructor; [apply IH|].
  apply Forall_seqZ. intros m'. lia.
Qed.

Lemma sorted_app (l1 l2 : list Z) b :
  StronglySorted Z.lt l1 -> StronglySorted Z.lt l2 ->
  (forall x, x ∈ l1 -> x < b) -> (forall x, x ∈ l2 -> b <= x) -> StronglySorted Z.lt (l1 ++ l2).
Proof.
  intros H1 H2 Hl Hr. induction H1 as [|x l1 Hs IH Hx]; [exact H2|]. cbn. constructor.
  - apply IH. intros y Hy. apply Hl. by apply list_elem_of_further.
  - rewrite Forall_app. split; [exact Hx|]. apply Forall_forall. intros y Hy%Hr.
    pose proof (Hl x (list_elem_of_here _ _)). lia.
Qed.

Lemma split_ok_nil s baseIdx : split_ok s [] baseIdx (mkSplit s [] [] 0).
Proof.
  split; cbn; [constructor|constructor|constructor|done| |lia].
  intros i m Hi. by apply elem_of_nil in Hi.
Qed.

(** The result of one store call that ends the recursion. *)
Lemma split_ok_leaf s batch baseIdx s1 good :
  batch <> [] -> rows s ⊆ rows s1 ->
  (good = true -> map data batch ⊆ rows s1) ->
  split_ok s batch baseIdx
    (mkSplit s1 (if good then seqZ baseIdx (zlen batch) else [])
       (if good then [] else seqZ baseIdx (zlen batch)) 1).
Proof.
  intros Hne Hm Hst. split; cbn.
  - destruct good; rewrite ?app_nil_r; done.
  - destruct good; [apply seqZ_sorted|constructor].
  - destruct good; [constructor|apply seqZ_sorted].
  - exact Hm.
  - intros i m Hi Hat. destruct good; [|by apply elem_of_nil in Hi]. apply Hst; [done|].
    apply list_elem_of_fmap. exists m. split; [done|]. apply at_z_lookup in Hat.
    by apply list_elem_of_lookup_2 in Hat.
  - destruct batch; [done|cbn; lia].
Qed.

Lemma split_ok_perm_range s batch baseIdx r i :
  split_ok s batch baseIdx r -> i ∈ successIdx r \/ i ∈ failIdx r ->
  baseIdx <= i < baseIdx + zlen batch.
Proof.
  intros H Hi. apply (elem_of_seqZ baseIdx (zlen batch) i). rewrite <- (so_perm _ _ _ _ H).
  by apply elem_of_app.
Qed.

(** Joining the two halves. *)
Lemma split_ok_join s s1 batch mid baseIdx l r :
  (0 < mid < length batch)%nat -> rows s ⊆ rows s1 ->
  split_ok s1 (take mid batch) baseIdx l ->
  split_ok (after l) (drop mid batch) (baseIdx + Z.of_nat mid) r ->
  split_ok s batch baseIdx (mkSplit (after r) (successIdx l ++ successIdx r)
    (failIdx l ++ failIdx r) (1 + calls l + calls r)).
Proof.
  intros Hmid Hm Hl Hr.
  assert (zlen (take mid batch) = Z.of_nat mid) as El by (unfold zlen; rewrite length_take; lia).
  assert (zlen (drop mid batch) = zlen batch - Z.of_nat mid) as Er
    by (unfold zlen; rewrite length_drop; lia).
  pose proof (fun i => split_ok_perm_range _ _ _ _ i Hl) as Rl.
  pose proof (fun i => split_ok_perm_range _ _ _ _ i Hr) as Rr. rewrite El in Rl. rewrite Er in Rr.
  destruct Hl as [P1 A1 B1 M1 S1 C1], Hr as [P2 A2 B2 M2 S2 C2]. rewrite El in P1. rewrite Er in P2.
  split; cbn.
  - replace (zlen batch) with (Z.of_nat mid + (zlen batch - Z.of_nat mid)) by lia.
    rewrite seqZ_app by (unfold zlen in *; lia). rewrite <- P1, <- P2.
    rewrite <- !app_assoc. apply Permutation_app_head. rewrite !app_assoc.
    apply Permutation_app_tail, Permutation_app_comm.
  - apply (sorted_app _ _ (baseIdx + Z.of_nat mid)); auto; intros i Hi;
      [destruct (Rl i); auto|destruct (Rr i); auto].
  - apply (sorted_app _ _ (baseIdx + Z.of_nat mid)); auto; intros i Hi;
      [destruct (Rl i); auto|destruct (Rr i); auto].
  - etransitivity; [exact Hm|]. etransitivity; eassumption.
  - intros i m [Hi|Hi]%elem_of_app Hat.
    + apply M2. apply (S1 i m Hi). destruct (Rl i (or_introl Hi)). apply at_z_lookup in Hat.
      unfold at_z. rewrite El. replace ((0 <=? i - baseIdx) && (i - baseIdx <? Z.of_nat mid)) with true by lia.
      rewrite lookup_take_lt by lia. exact Hat.
    + apply (S2 i m Hi). destruct (Rr i (or_introl Hi)). apply at_z_lookup in Hat.
      unfold at_z. rewrite Er.
      replace ((0 <=? i - (baseIdx + Z.of_nat mid)) &&
        (i - (baseIdx + Z.of_nat mid) <? zlen batch - Z.of_nat mid)) with true by lia.
      rewrite lookup_drop. rewrite <- Hat. f_equal. lia.
  - rewrite length_take in C1. rewrite length_drop in C2. lia.
Qed.

Lemma split_fuel_ok fuel s batch baseIdx :
  (length batch <= fuel)%nat ->
  exists r, split_fuel fuel s batch baseIdx = Some r /\ split_ok s batch baseIdx r.
Proof.
  revert s batch baseIdx. induction fuel as [|fuel IH]; intros s batch baseIdx Hf;
    (destruct batch as [|m batch']; [eexists; split; [reflexivity|apply split_ok_nil]|]);
    [cbn in Hf; lia|].
  set (batch := m :: batch') in *. cbn [split_fuel]. fold batch.
  pose proof (rows_mono s batch (token batch)) as Hm. pose proof (rows_stored s batch (token batch)) as Hst.
  destruct (StoreBatch s batch (token batch)) as [s1 err]. cbn [fst snd] in Hm, Hst.
  assert (batch <> []) as Hne by done.
  destruct err as [e|].
  - pose proof (split_ok_leaf s batch baseIdx s1 false Hne Hm ltac:(done)) as Hleaf. cbn in Hleaf.
    destruct (isRetriableStoreError e); [eauto|].
    destruct (length batch =? 1)%nat eqn:E1.
    + apply Nat.eqb_eq in E1. unfold zlen in Hleaf. rewrite E1 in Hleaf. eauto.
    + apply Nat.eqb_neq in E1. set (mid := (length batch / 2)%nat).
      assert (0 < mid < length batch)%nat as Hmid.
      { assert (2 <= length batch)%nat by (cbn in *; lia). subst mid.
        split; [apply Nat.div_str_pos; lia|apply Nat.div_lt; lia]. }
      destruct (IH s1 (take mid batch) baseIdx) as (l & -> & Hl); [rewrite length_take; lia|].
      destruct (IH (after l) (drop mid batch) (baseIdx + Z.of_nat mid)) as (r & -> & Hr);
        [rewrite length_drop; lia|].
      eexists. split; [reflexivity|]. by apply (split_ok_join s s1 batch mid).
  - eexists. split; [reflexivity|].
    exact (split_ok_leaf s batch baseIdx s1 true Hne Hm (fun _ => Hst eq_refl)).
Qed.

(** C36: the split always ends.  On any batch and any store it returns after
    at most [2 n - 1] store calls; the indices of the batch are divided
    between successes and failures, each once and in increasing order, and
    every success is persisted. *)
Theorem split_terminates s batch baseIdx :
  exists r, splitStoreBatch s batch baseIdx = Some r /\
    Permutation (successIdx r ++ failIdx r) (seqZ baseIdx (zlen batch)) /\
    StronglySorted Z.lt (successIdx r) /\ StronglySorted Z.lt (failIdx r) /\
    (forall i m, i ∈ successIdx r -> at_z batch (i - baseIdx) = Some m -> data m ∈ rows (after r)) /\
    (calls r <= 2 * length batch - 1)%nat.
Proof.
  destruct (split_fuel_ok (length batch) s batch baseIdx) as (r & E & []); [done|].
  exists r. auto 10.
Qed.

(** ** A store that refuses exactly the batches with a poison row *)

Section Poison.
Variable poison : Z -> bool.
Variable fatal : StoreError.
Hypothesis fatal_hard : isRetriableStoreError fatal = false.
Hypothesis refuses : forall s b tok,
  (StoreBatch s b tok).2 = if existsb (fun m => poison (data m)) b then Some fatal else None.

(** Indices, from [base] on, of the rows on one side. *)
Fixpoint indices (want : bool) (base : Z) (batch : list Msg) : list Z :=
  match batch with
  | [] => []
  | m :: rest =>
      if Bool.eqb (poison (data m)) want then base :: indices want (base + 1) rest
      else indices want (base + 1) rest
  end.

Lemma indices_app want base b1 b2 :
  indices want base (b1 ++ b2) = indices want base b1 ++ indices want (base + zlen b1) b2.
Proof.
  revert base. induction b1 as [|m b1 IH]; intros base; cbn [app indices].
  - unfold zlen. cbn. by rewrite Z.add_0_r.
  - rewrite IH. replace (base + zlen (m :: b1)) with (base + 1 + zlen b1) by (unfold zlen; cbn; lia).
    by destruct (Bool.eqb _ _).
Qed.

Lemma indices_clean want base batch :
  existsb (fun m => poison (data m)) batch = false ->
  indices want base batch = if want then [] else seqZ base (zlen batch).
Proof.
  revert base. induction batch as [|m batch IH]; intros base H; [by destruct want|].
  cbn in H. apply orb_false_iff in H as [Hm H]. cbn [indices]. rewrite Hm, IH by exact H.
  destruct want; [done|]. cbn. rewrite (seqZ_cons base) by (unfold zlen; cbn; lia).
  do 2 f_equal; unfold zlen; cbn; lia.
Qed.

Lemma split_fuel_poison fuel s batch baseIdx r :
  split_fuel fuel s batch baseIdx = Some r ->
  successIdx r = indices false baseIdx batch /\ failIdx r = indices true baseIdx batch.
Proof.
  revert s batch baseIdx r. induction fuel as [|fuel IH]; intros s batch baseIdx r H;
    (destruct batch as [|m batch']; [by injection H as <-|]); [done|].
  set (batch := m :: batch') in *. cbn [split_fuel] in H. fold batch in H.
  pose proof (refuses s batch (token batch)) as Hr.
  destruct (StoreBatch s batch (token batch)) as [s1 err]. cbn [snd] in Hr. subst err.
  destruct (existsb _ batch) eqn:Ep.
  - rewrite fatal_hard in H. destruct (length batch =? 1)%nat eqn:E1.
    + apply Nat.eqb_eq in E1. injection H as <-. cbn [successIdx failIdx].
      destruct batch' as [|? ?]; [|done]. cbn in Ep. rewrite orb_false_r in Ep. cbn. by rewrite Ep.
    + set (mid := (length batch / 2)%nat) in H.
      destruct (split_fuel fuel s1 (take mid batch) baseIdx) as [l|] eqn:El; [|done].
      destruct (split_fuel fuel (after l) (drop mid batch) _) as [r'|] eqn:Er; [|done].
      injection H as <-. cbn [successIdx failIdx].
      destruct (IH _ _ _ _ El) as [-> ->], (IH _ _ _ _ Er) as [-> ->].
      replace (Z.of_nat mid) with (zlen (take mid batch)).
      * by rewrite <- !indices_app, take_drop.
      * unfold zlen. rewrite length_take. subst mid.
        pose proof (Nat.Div0.div_le_upper_bound (length batch) 2 (length batch)). lia.
  - injection H as <-. cbn [successIdx failIdx]. rewrite !indices_clean by exact Ep. done.
Qed.

(** The split isolates the poison rows.  With a store that refuses, with
    a hard error, exactly the batches that hold a poison row, the failures
    are the indices of the poison rows and the successes all the others. *)
Theorem split_isolates_poison s batch baseIdx :
  exists r, splitStoreBatch s batch baseIdx = Some r /\
    failIdx r = indices true baseIdx batch /\ successIdx r = indices false baseIdx batch.
Proof.
  destruct (split_fuel_ok (length batch) s batch baseIdx) as (r & E & _); [done|].
  exists r. split; [exact E|]. by destruct (split_fuel_poison _ _ _ _ _ E).
Qed.

End Poison.

End Split.

(** ** Two stores *)

(** A table that refuses a batch with a negative content. *)
Definition table_store (s : list Z) (b : list Msg) : list Z * option StoreError :=
  if existsb (fun m => data m <? 0) b then (s, Some (ErrText "bad row"))
  else (s ++ map data b, None).

#[export] Instance table_event_store : EventStore (list Z).
Proof.
  refine (mkEventStore (list Z) (fun s b _ => table_store s b) (fun s => s) _ _);
    intros s b _; unfold table_store; destruct (existsb _ b); cbn; try done.
  - intros x Hx. by apply elem_of_app; left.
  - intros _ x Hx. by apply elem_of_app; right.
Defined.

(** A table whose calls meet the outcomes of a script, then succeed. *)
Definition Scripted : Type := list (option StoreError) * list Z.

Definition scripted_store (s : Scripted) (b : list Msg) : Scripted * option StoreError :=
  match s.1 with
  | [] => (([], s.2 ++ map data b), None)
  | None :: rest => ((rest, s.2 ++ map data b), None)
  | Some e :: rest => ((rest, s.2), Some e)
  end.

#[export] Instance scripted_event_store : EventStore Scripted.
Proof.
  refine (mkEventStore Scripted (fun s b _ => scripted_store s b) snd _ _);
    intros [[|[e|] rest] ids] b _; cbn; try done;
    first [intros x Hx; by apply elem_of_app; left | intros _ x Hx; by apply elem_of_app; right].
Defined.

Lemma split_isolates_poison_witness :
  exists r, splitStoreBatch ([] : list Z)
    [mkMsg 10 1; mkMsg (-20) 2; mkMsg 30 3; mkMsg (-40) 4; mkMsg 50 5] 0 = Some r /\
    failIdx r = [1; 3] /\ successIdx r = [0; 2; 4].
Proof.
  apply (split_isolates_poison (St := list Z) (fun i => i <? 0) (ErrText "bad row") ltac:(reflexivity)).
  intros s b tok. cbn. unfold table_store. by destruct (existsb _ b).
Defined.

End PoisonSplit.
