(* ===== verification/Processor.v ===== *)
(** * The stream consumer

    Models [internal/stream/processor.go]: the workers that read a Redis
    stream through a consumer group, persist batches of events, acknowledge
    them, and move poison rows to a dead-letter stream, with the janitor that
    claims the messages of dead consumers.  The Redis group is its queue and
    its pending entries list; events live in pooled objects, so a batch holds
    references into a heap.  Handlers run one at a time; every Redis call may
    fail or lose its reply, and the store is any [EventStore]. *)

From stdpp Require Import pretty.
From S2P Require Import Prelude Breaker PoisonSplit.
Open Scope Z_scope.

Module Processor.
Import Breaker PoisonSplit.

(** ** State *)

(** An element of the parallel slices [batch] and [msgIDs]. *)
Record Entry := mkEntry { evt : Z; eid : Z }.

#[export] Instance Entry_eq_dec : EqDecision Entry.
Proof. solve_decision. Defined.

Record Worker := mkWorker { batch : list Entry; retryCount : Z; retryWait : Z }.

Record Config := mkConfig {
  consumerID : string; batchSize : Z; maxRetries : Z; retryInitWait : Z; retryMaxWait : Z
}.

Definition workerConsumerID (cfg : Config) (workerIdx : N) : string :=
  consumerID cfg +:+ "-w" +:+ pretty workerIdx.

Record World (St : Type) := mkWorld {
  queue : list Z;            (* stream entries the group has not delivered *)
  delivered : list Z;        (* every entry it has delivered *)
  pel : gmap Z string;       (* pending entries and their consumer *)
  retries : gmap Z Z;        (* the hash ad:events:retries *)
  dlq : list Z;              (* contents written to the dead-letter stream *)
  store : St;
  cb : CircuitBreaker;
  heap : gmap Z Z;           (* content of every event object *)
  pool : list Z;             (* EventPool *)
  workers : gmap string Worker
}.
Arguments mkWorld {St}.
Arguments queue {St}.
Arguments delivered {St}.
Arguments pel {St}.
Arguments retries {St}.
Arguments dlq {St}.
Arguments store {St}.
Arguments cb {St}.
Arguments heap {St}.
Arguments pool {St}.
Arguments workers {St}.

(** A Redis command that ran, that ran but whose reply was lost, that did
    not run. *)
Inductive Reply := ROk | RLost | RFail.

Definition ran (r : Reply) : bool := match r with RFail => false | _ => true end.
Definition is_ok (r : Reply) : bool := match r with ROk => true | _ => false end.

Section Consumer.
Context {St : Type} `{!EventStore St} (cfg : Config).

Implicit Types (w : World St) (ws : Worker).

Definition with_group w q d (p : gmap Z string) : World St :=
  mkWorld q d p (retries w) (dlq w) (store w) (cb w) (heap w) (pool w) (workers w).
Definition with_retries w r : World St :=
  mkWorld (queue w) (delivered w) (pel w) r (dlq w) (store w) (cb w) (heap w) (pool w) (workers w).
Definition with_dlq w q : World St :=
  mkWorld (queue w) (delivered w) (pel w) (retries w) q (store w) (cb w) (heap w) (pool w) (workers w).
Definition with_store w s : World St :=
  mkWorld (queue w) (delivered w) (pel w) (retries w) (dlq w) s (cb w) (heap w) (pool w) (workers w).
Definition with_cb w c : World St :=
  mkWorld (queue w) (delivered w) (pel w) (retries w) (dlq w) (store w) c (heap w) (pool w) (workers w).
Definition with_events w h p : World St :=
  mkWorld (queue w) (delivered w) (pel w) (retries w) (dlq w) (store w) (cb w) h p (workers w).
Definition with_worker w k ws : World St :=
  mkWorld (queue w) (delivered w) (pel w) (retries w) (dlq w) (store w) (cb w) (heap w) (pool w)
    (<[k := ws]> (workers w)).

(** ** Redis *)

Definition acked (p : gmap Z string) (ids : list Z) : gmap Z string :=
  foldr delete p ids.

Definition XAck w (ids : list Z) (r : Reply) : World St :=
  if ran r then with_group w (queue w) (delivered w) (acked (pel w) ids) else w.

Definition HDel w (ids : list Z) (r : Reply) : World St :=
  if ran r then with_retries w (foldr delete (retries w) ids) else w.

(** [HIncrBy] of one entry: the new counter, 0 when the reply is lost. *)
Definition HIncrBy (m : gmap Z Z) (id : Z) (r : Reply) : gmap Z Z * Z :=
  let v := default 0 (m !! id) +64 1 in
  (if ran r then <[id := v]> m else m, if is_ok r then v else 0).

(** The pipeline of [HIncrBy]s: the hash and the replies. *)
Definition incr_all (m : gmap Z Z) (ids : list Z) (rep : Z -> Reply) : gmap Z Z * list Z :=
  foldl (fun '(m, vs) id => let '(m', v) := HIncrBy m id (rep id) in (m', vs ++ [v])) (m, []) ids.

(** [XReadGroup] with [">"]: the next entries become pending. *)
Definition read_new w (k : string) (n : nat) : World St * list Z :=
  let ids := take n (queue w) in
  (with_group w (drop n (queue w)) (delivered w ++ ids)
     (foldr (fun id p => <[id := k]> p) (pel w) ids), ids).

(** [XReadGroup] with ["0"]: the first pending entries of the consumer. *)
Definition own_pending (p : gmap Z string) (k : string) (n : nat) : list Z :=
  take n (merge_sort Z.le (map fst (filter (fun kv => kv.2 = k) (map_to_list p)))).

(** ** Pooled events *)

Definition fresh_ref (h : gmap Z Z) : Z := 1 + foldr Z.max 0 (map fst (map_to_list h)).

(** [EventPool.Get]: some pooled object, or a new one. *)
Definition Get (h : gmap Z Z) (p : list Z) (choice : option nat) : Z * list Z :=
  match choice with
  | Some i => match p !! i with Some r => (r, delete i p) | None => (fresh_ref h, p) end
  | None => (fresh_ref h, p)
  end.

(** [parseMessage] of a list of messages, with the choices of the pool. *)
Fixpoint parse_all w (gets : Z -> option nat) (ids : list Z) : World St * list Entry :=
  match ids with
  | [] => (w, [])
  | id :: ids' =>
      let '(r, p) := Get (heap w) (pool w) (gets id) in
      let '(w1, es) := parse_all (with_events w (<[r := id]> (heap w)) p) gets ids' in
      (w1, mkEntry r id :: es)
  end.

Definition put_all w (es : list Entry) : World St :=
  with_events w (heap w) (map evt es ++ pool w).

(** What the store and the dead-letter writer read through the references. *)
Definition resolve (h : gmap Z Z) (es : list Entry) : list Msg :=
  map (fun e => mkMsg (default 0 (h !! evt e)) (eid e)) es.

(** ** flushBatch and moveToDLQ *)

Definition flushBatch w (es : list Entry) (ack : Reply) (ackErr : StoreError)
    : World St * option StoreError :=
  match es with
  | [] => (w, None)
  | _ =>
      let msgs := resolve (heap w) es in
      let '(s, err) := StoreBatch (store w) msgs (token msgs) in
      let w1 := with_store w s in
      match err with
      | Some e => (w1, Some e)
      | None => (XAck w1 (map eid es) ack, if is_ok ack then None else Some ackErr)
      end
  end.

Record DlqEnv := mkDlqEnv { marshal_ok : Z -> bool; xadd : Z -> Reply; dlq_ack : Z -> Reply }.

(** [moveToDLQ]: whether it reports no error. *)
Definition moveToDLQ w (es : list Entry) (env : DlqEnv) : World St * bool :=
  let written := filter (fun e => marshal_ok env (eid e) = true) es in
  match written with
  | [] => (w, true)
  | _ =>
      let added := filter (fun e => ran (xadd env (eid e)) = true) written in
      let ackedIDs := map eid (filter (fun e => is_ok (xadd env (eid e)) = true) written) in
      let hasError := negb (forallb (fun e => is_ok (xadd env (eid e))) written) in
      let w1 := with_dlq w (dlq w ++ map data (resolve (heap w) added)) in
      let w2 := with_group w1 (queue w1) (delivered w1)
        (acked (pel w1) (filter (fun id => ran (dlq_ack env id) = true) ackedIDs)) in
      if negb (bool_decide (ackedIDs = [])) && negb (forallb (fun id => is_ok (dlq_ack env id)) ackedIDs)
      then (w2, false)
      else (w2, negb (hasError || (length ackedIDs <? length written)%nat))
  end.

(** ** tryFlush *)

Record TryEnv := mkTryEnv {
  now_allow : Z; now_record : Z; ctx_done : bool;
  flush_ack : Reply; flush_ack_err : StoreError;
  hdel : Reply; incr : Z -> Reply; split_ack : Reply; dlq_env : DlqEnv
}.

Definition initial_wait : Z := 100000000.

Definition doubled ws (env : TryEnv) : Z :=
  if ctx_done env then retryWait ws
  else if retryMaxWait cfg <? retryWait ws *64 2 then retryMaxWait cfg else retryWait ws *64 2.

(** The in-place compaction [newBatch = append(newBatch, batch[i])]: the
    array and the length of [newBatch]. *)
Fixpoint compact (arr : list Entry) (j : nat) (failed : list Z) : list Entry * nat :=
  match failed with
  | [] => (arr, j)
  | i :: rest =>
      match at_z arr i with
      | Some e => compact (<[j := e]> arr) (S j) rest
      | None => (arr, j)
      end
  end.

(** The loop that returns the other events to the pool. *)
Fixpoint put_loop (i : Z) (arr : list Entry) (failed : list Z) : list Z :=
  match arr with
  | [] => []
  | e :: rest =>
      match failed with
      | f :: failed' =>
          if i =? f then put_loop (i + 1) rest failed' else evt e :: put_loop (i + 1) rest failed
      | [] => evt e :: put_loop (i + 1) rest []
      end
  end.

Definition select (es : list Entry) (idx : list Z) : list Entry := omap (at_z es) idx.

(** The poison branch: split, acknowledge the successes, dead-letter the
    failures; a failed dead-letter write keeps them in the batch. *)
Definition decompose w ws (env : TryEnv) (count : Z) : World St * Worker :=
  match splitStoreBatch (store w) (resolve (heap w) (batch ws)) 0 with
  | None => (w, ws)
  | Some r =>
      let okIDs := map eid (select (batch ws) (successIdx r)) in
      let w1 := with_store w (after r) in
      let w2 := match okIDs with
        | [] => w1
        | _ => HDel (XAck w1 okIDs (split_ack env)) okIDs (hdel env)
        end in
      let failed := select (batch ws) (failIdx r) in
      let '(w3, ok) := match failed with
        | [] => (w2, true)
        | _ => moveToDLQ w2 failed (dlq_env env)
        end in
      if ok then (put_all w3 (batch ws), mkWorker [] 0 initial_wait)
      else
        let '(arr, n) := compact (batch ws) 0 (failIdx r) in
        (with_events w3 (heap w3) (put_loop 0 arr (failIdx r) ++ pool w3),
         mkWorker (take n arr) count (retryWait ws))
  end.

Definition tryFlush w (k : string) ws (env : TryEnv) : World St * Worker :=
  let '(admitted, cb1) := Allow (now_allow env) (cb w) in
  let w0 := with_cb w cb1 in
  if negb admitted then (w0, ws)
  else
    let '(w1, err) := flushBatch w0 (batch ws) (flush_ack env) (flush_ack_err env) in
    match err with
    | None =>
        let w2 := HDel (with_cb w1 (RecordSuccess k (cb w1))) (map eid (batch ws)) (hdel env) in
        (put_all w2 (batch ws), mkWorker [] 0 initial_wait)
    | Some ErrCanceled => (with_cb w1 (RecordCancellation (now_record env) (cb w1)), ws)
    | Some e =>
        let w2 := with_cb w1 (RecordFailure (now_record env) k (cb w1)) in
        let '(rts, vals) := incr_all (retries w2) (map eid (batch ws)) (incr env) in
        let w3 := with_retries w2 rts in
        let maxIncr := foldl Z.max 0 vals in
        let count := Z.max (retryCount ws +64 1) maxIncr in
        if existsb (fun v => maxRetries cfg <? v) vals then
          if isRetriableStoreError e then (w3, mkWorker (batch ws) count (doubled ws env))
          else decompose w3 (mkWorker (batch ws) count (retryWait ws)) env count
        else (w3, mkWorker (batch ws) count (doubled ws env))
    end.

(** ** The other loops *)

Record LoopEnv := mkLoopEnv {
  l_now : Z; l_read : bool; l_gets : Z -> option nat;
  l_ack : Reply; l_ack_err : StoreError; l_hdel : Reply; l_dlq : DlqEnv
}.

(** [recoverPending]; [None] is fuel exhausted. *)
Fixpoint recover_fuel (fuel : nat) w (k : string) (envs : nat -> LoopEnv) (n : nat)
    : option (World St) :=
  match fuel with
  | O => None
  | S fuel' =>
      let env := envs n in
      if negb (l_read env) then Some w
      else
        let ids := own_pending (pel w) k (Z.to_nat (batchSize cfg)) in
        match ids with
        | [] => Some w
        | _ =>
            let '(w1, es) := parse_all w (l_gets env) ids in
            let '(w2, err) := flushBatch w1 es (l_ack env) (l_ack_err env) in
            match err with
            | None =>
                let w3 := HDel (with_cb w2 (RecordSuccess k (cb w2))) ids (l_hdel env) in
                recover_fuel fuel' (put_all w3 es) k envs (S n)
            | Some ErrCanceled => Some (put_all w2 es)
            | Some e =>
                let w3 := with_cb w2 (RecordFailure (l_now env) k (cb w2)) in
                if isRetriableStoreError e then Some (put_all w3 es)
                else
                  let '(w4, _) := moveToDLQ w3 es (l_dlq env) in
                  Some (put_all (HDel w4 ids (l_hdel env)) es)
            end
        end
  end.

Definition recoverPending w k envs : option (World St) :=
  recover_fuel (S (size (pel w))) w k envs 0.

(** [drainNewMessages]. *)
Fixpoint drain_fuel (fuel : nat) w (k : string) (envs : nat -> LoopEnv) (n : nat)
    : option (World St) :=
  match fuel with
  | O => None
  | S fuel' =>
      let env := envs n in
      if negb (l_read env) then Some w
      else
        let '(w0, ids) := read_new w k (Z.to_nat (batchSize cfg)) in
        match ids with
        | [] => Some w0
        | _ =>
            let '(w1, es) := parse_all w0 (l_gets env) ids in
            let '(w2, err) := flushBatch w1 es (l_ack env) (l_ack_err env) in
            match err with
            | None => drain_fuel fuel' (put_all w2 es) k envs (S n)
            | Some _ => Some (put_all w2 es)
            end
        end
  end.

Definition drainNewMessages w k envs : option (World St) :=
  drain_fuel (S (length (queue w))) w k envs 0.

(** One page of [claimStuckMessages]: the entries that [XAutoClaim] hands to
    the janitor, and the calls on them. *)
Definition claim_page w (page : list Z * (Z -> Reply) * LoopEnv) : World St :=
  let '(claimed, incr, env) := page in
  let ids := filter (fun id => is_Some (pel w !! id)) claimed in
  match ids with
  | [] => w
  | _ =>
      let w0 := with_group w (queue w) (delivered w)
        (foldr (fun id p => <[id := consumerID cfg]> p) (pel w) ids) in
      let '(rts, vals) := incr_all (retries w0) ids incr in
      let '(w1, es) := parse_all (with_retries w0 rts) (l_gets env) ids in
      let tagged := zip es vals in
      let over := map fst (filter (fun ev => maxRetries cfg < ev.2) tagged) in
      let rest := map fst (filter (fun ev => ~ maxRetries cfg < ev.2) tagged) in
      let w2 := match over with
        | [] => w1
        | _ => HDel (put_all (moveToDLQ w1 over (l_dlq env)).1 over) (map eid over) (l_hdel env)
        end in
      match rest with
      | [] => w2
      | _ =>
          let '(w3, err) := flushBatch w2 rest (l_ack env) (l_ack_err env) in
          let w4 := match err with
            | Some _ => with_cb w3 (RecordFailure (l_now env) "janitor" (cb w3))
            | None => HDel (with_cb w3 (RecordSuccess "janitor" (cb w3))) (map eid rest) (l_hdel env)
            end in
          put_all w4 rest
      end
  end.

Definition claimStuckMessages w (pages : list (list Z * (Z -> Reply) * LoopEnv)) : World St :=
  foldl claim_page w pages.

(** ** Workers *)

(** The start of [worker]: its pending entries, then an empty batch. *)
Definition start_worker w k envs : World St :=
  with_worker (default w (recoverPending w k envs)) k (mkWorker [] 0 (retryInitWait cfg)).

(** A read of at most the room left in the batch. *)
Definition read_batch w k (n : nat) gets : World St :=
  match workers w !! k with
  | None => w
  | Some ws =>
      let readCount := batchSize cfg - zlen (batch ws) in
      if readCount <=? 0 then w
      else
        let '(w0, ids) := read_new w k (Nat.min n (Z.to_nat readCount)) in
        let '(w1, es) := parse_all w0 gets ids in
        with_worker w1 k (mkWorker (batch ws ++ es) (retryCount ws) (retryWait ws))
  end.

Definition flush_worker w k env : World St :=
  match workers w !! k with
  | None => w
  | Some ws => let '(w1, ws1) := tryFlush w k ws env in with_worker w1 k ws1
  end.

Definition drop_worker w k : World St :=
  mkWorld (queue w) (delivered w) (pel w) (retries w) (dlq w) (store w) (cb w) (heap w) (pool w)
    (delete k (workers w)).

(** The shutdown branch of [worker]. *)
Definition shutdown_worker w k (env : LoopEnv) (drains recovers : nat -> LoopEnv) : World St :=
  match workers w !! k with
  | None => w
  | Some ws =>
      let '(w1, err) := flushBatch w (batch ws) (l_ack env) (l_ack_err env) in
      let w2 := drop_worker w1 k in
      let w3 := match err with None => put_all w2 (batch ws) | Some _ => w2 end in
      let w4 := default w3 (drainNewMessages w3 k drains) in
      default w4 (recoverPending w4 k recovers)
  end.

Inductive op :=
  | Produce (id : Z)
  | Start (k : string) (envs : nat -> LoopEnv)
  | Read (k : string) (n : nat) (gets : Z -> option nat)
  | Flush (k : string) (env : TryEnv)
  | Claim (pages : list (list Z * (Z -> Reply) * LoopEnv))
  | Shutdown (k : string) (env : LoopEnv) (drains recovers : nat -> LoopEnv)
  | Kill (k : string).

Definition exec w (o : op) : World St :=
  match o with
  | Produce id => with_group w (queue w ++ [id]) (delivered w) (pel w)
  | Start k envs => start_worker w k envs
  | Read k n gets => read_batch w k n gets
  | Flush k env => flush_worker w k env
  | Claim pages => claimStuckMessages w pages
  | Shutdown k env d r => shutdown_worker w k env d r
  | Kill k => drop_worker w k
  end.

(** ** Invariant *)

(** Everything delivered is pending, persisted or dead-lettered. *)
Definition kept w : Prop := forall id, id ∈ delivered w ->
  is_Some (pel w !! id) \/ id ∈ rows (store w) \/ id ∈ dlq w.

(** The events of the batches hold their messages and belong to one batch. *)
Record refs_ok w : Prop := mkRefs {
  rf_heap : forall k ws e, workers w !! k = Some ws -> e ∈ batch ws -> heap w !! evt e = Some (eid e);
  rf_free : forall k ws e, workers w !! k = Some ws -> e ∈ batch ws -> evt e ∉ pool w;
  rf_pool : forall r, r ∈ pool w -> is_Some (heap w !! r);
  rf_sep : forall k1 k2 ws1 ws2 e1 e2, k1 <> k2 ->
    workers w !! k1 = Some ws1 -> workers w !! k2 = Some ws2 ->
    e1 ∈ batch ws1 -> e2 ∈ batch ws2 -> evt e1 <> evt e2;
  rf_distinct : forall k ws, workers w !! k = Some ws -> NoDup (map evt (batch ws));
  rf_nodup : NoDup (pool w)
}.

(** Entries held outside the batches (by worker [k], or by no worker). *)
Record held w (k : option string) (es : list Entry) : Prop := mkHeld {
  hd_heap : forall e, e ∈ es -> heap w !! evt e = Some (eid e);
  hd_free : forall e, e ∈ es -> evt e ∉ pool w;
  hd_sep : forall k' ws e e', k <> Some k' -> workers w !! k' = Some ws -> e ∈ batch ws ->
    e' ∈ es -> evt e <> evt e';
  hd_distinct : NoDup (map evt es)
}.

Lemma lookup_acked p ids id : acked p ids !! id = if decide (id ∈ ids) then None else p !! id.
Proof.
  unfold acked. induction ids as [|i ids IH]; cbn [foldr].
  - rewrite decide_False by apply not_elem_of_nil. done.
  - rewrite lookup_delete, IH.
    destruct (decide (i = id)) as [->|Hne]; [by rewrite decide_True by apply list_elem_of_here|].
    destruct (decide (id ∈ ids)) as [Hin|Hin]; [by rewrite decide_True by (by apply list_elem_of_further)|].
    rewrite decide_False; [done|]. by intros [|]%elem_of_cons.
Qed.

Lemma lookup_assigned (p : gmap Z string) k ids id :
  foldr (fun i p => <[i := k]> p) p ids !! id = if decide (id ∈ ids) then Some k else p !! id.
Proof.
  induction ids as [|i ids IH]; cbn [foldr].
  - rewrite decide_False by apply not_elem_of_nil. done.
  - rewrite lookup_insert, IH.
    destruct (decide (i = id)) as [->|Hne]; [by rewrite decide_True by apply list_elem_of_here|].
    destruct (decide (id ∈ ids)) as [Hin|Hin]; [by rewrite decide_True by (by apply list_elem_of_further)|].
    rewrite decide_False; [done|]. by intros [|]%elem_of_cons.
Qed.

Lemma kept_acked w q ids :
  kept w -> (forall id, id ∈ ids -> id ∈ rows (store w) \/ id ∈ dlq w) ->
  kept (with_group w q (delivered w) (acked (pel w) ids)).
Proof.
  intros H Hids id Hid. cbn in *. rewrite lookup_acked. case_decide as Hin; [right; auto|auto].
Qed.

Lemma kept_XAck w ids r :
  kept w -> (forall id, id ∈ ids -> id ∈ rows (store w) \/ id ∈ dlq w) -> kept (XAck w ids r).
Proof. intros H Hids. unfold XAck. destruct (ran r); [by apply kept_acked|done]. Qed.

(** Messages read through intact references. *)
Definition intact w (es : list Entry) : Prop :=
  forall e, e ∈ es -> heap w !! evt e = Some (eid e).

Lemma resolve_data w es : intact w es -> map data (resolve (heap w) es) = map eid es.
Proof.
  intros H. unfold resolve. rewrite map_map. apply map_ext_in. intros e He. cbn.
  by rewrite (H e) by (by apply list_elem_of_In).
Qed.

(** The parts of the world that [refs_ok] and [held] talk about. *)
Definition same_refs w w' : Prop := heap w' = heap w /\ pool w' = pool w /\ workers w' = workers w.

Lemma refs_ok_same w w' : same_refs w w' -> refs_ok w -> refs_ok w'.
Proof. intros (E1 & E2 & E3) []. by split; rewrite ?E1, ?E2, ?E3. Qed.

Lemma held_same w w' k es : same_refs w w' -> held w k es -> held w' k es.
Proof. intros (E1 & E2 & E3) []. by split; rewrite ?E1, ?E2, ?E3. Qed.

Lemma same_refs_trans w1 w2 w3 : same_refs w1 w2 -> same_refs w2 w3 -> same_refs w1 w3.
Proof. intros (A & B & C) (D & E & F). split_and!; congruence. Qed.

Lemma flushBatch_spec w es ack ackErr :
  kept w -> intact w es ->
  let '(w', _) := flushBatch w es ack ackErr in kept w' /\ same_refs w w'.
Proof.
  intros Hk Hh. unfold flushBatch. destruct es as [|e0 es0]; [done|]. set (es := e0 :: es0) in *.
  pose proof (rows_mono (store w) (resolve (heap w) es) (token (resolve (heap w) es))) as Hm.
  pose proof (rows_stored (store w) (resolve (heap w) es) (token (resolve (heap w) es))) as Hst.
  destruct (StoreBatch _ _ _) as [s err]. cbn [fst snd] in *.
  assert (kept (with_store w s)) as Hk1 by (intros id Hid; destruct (Hk id Hid) as [|[|]]; auto).
  destruct err as [e|]; [done|]. split.
  - apply kept_XAck; [done|]. intros id Hid. left. cbn. apply Hst; [done|].
    by rewrite (resolve_data w es Hh).
  - unfold XAck. by destruct (ran ack).
Qed.

Lemma moveToDLQ_spec w es env :
  kept w -> intact w es -> let '(w', _) := moveToDLQ w es env in kept w' /\ same_refs w w'.
Proof.
  intros Hk Hh. unfold moveToDLQ. set (written := filter _ es).
  assert (forall e, e ∈ written -> e ∈ es) as Hw by (intros e He; by apply list_elem_of_filter in He as [_ He]).
  destruct written as [|e0 es0] eqn:Ew; [done|]. rewrite <- Ew in *. clear Ew e0 es0. cbv zeta.
  set (w1 := with_dlq w _). set (ids := map eid _).
  assert (kept w1) as Hk1.
  { intros id Hid. destruct (Hk id Hid) as [|[|]]; auto. right; right. cbn. apply elem_of_app. by left. }
  set (w2 := with_group w1 _ _ _). assert (kept w2 /\ same_refs w w2) as Hk2.
  { split; [|done]. apply kept_acked; [done|]. intros id [_ Hid]%list_elem_of_filter. right. cbn.
    apply elem_of_app. right. subst ids. apply list_elem_of_fmap in Hid as (e & -> & He).
    apply list_elem_of_filter in He as [Ha He].
    rewrite (resolve_data w).
    - apply list_elem_of_fmap. exists e. split; [done|]. apply list_elem_of_filter. split; [|done].
      by destruct (xadd env (eid e)).
    - intros e' [_ He']%list_elem_of_filter. apply Hh, Hw, He'. }
  destruct (negb _ && negb _); exact Hk2.
Qed.

Lemma HDel_spec w ids r : (kept w -> kept (HDel w ids r)) /\ same_refs w (HDel w ids r).
Proof. unfold HDel. by destruct (ran r). Qed.

(** ** Pooled objects *)

Lemma fresh_ref_fresh h : h !! fresh_ref h = None.
Proof.
  destruct (h !! fresh_ref h) as [v|] eqn:E; [exfalso|done]. apply elem_of_map_to_list in E.
  assert (fresh_ref h ∈ map fst (map_to_list h)) as Hin
    by (apply list_elem_of_fmap; exists (fresh_ref h, v); done).
  unfold fresh_ref in Hin at 1. revert Hin. generalize (map fst (map_to_list h)).
  intros l Hin. enough (forall x, x ∈ l -> x <= foldr Z.max 0 l) as H by (apply H in Hin; lia).
  clear. induction l as [|y l IH]; intros x Hx; [by apply elem_of_nil in Hx|]. cbn.
  apply elem_of_cons in Hx as [->|Hx]; [lia|]. specialize (IH x Hx). lia.
Qed.

Lemma Get_spec h p c r p' :
  NoDup p -> (forall x, x ∈ p -> is_Some (h !! x)) -> Get h p c = (r, p') ->
  (r ∉ p') /\ (p' `sublist_of` p) /\ (r ∈ p \/ h !! r = None).
Proof.
  intros Hn Hp H. unfold Get in H.
  assert (fresh_ref h ∉ p) as Hf
    by (intros [v Hv]%Hp; pose proof (fresh_ref_fresh h); congruence).
  destruct c as [i|]; [destruct (p !! i) as [x|] eqn:E|]; simplify_eq.
  - split_and!; [|apply sublist_delete|left; by apply list_elem_of_lookup_2 in E].
    intros [j Hj]%list_elem_of_lookup_1. rewrite NoDup_alt in Hn. destruct (decide (j < i)%nat).
    + rewrite list_lookup_delete_lt in Hj by lia. specialize (Hn _ _ _ E Hj). lia.
    + rewrite list_lookup_delete_ge in Hj by lia. specialize (Hn _ _ _ E Hj). lia.
  - split; [done|]. split; [reflexivity|right; apply fresh_ref_fresh].
  - split; [done|]. split; [reflexivity|right; apply fresh_ref_fresh].
Qed.

(** The parts that parsing leaves alone. *)
Definition same_rest w w' : Prop :=
  queue w' = queue w /\ delivered w' = delivered w /\ pel w' = pel w /\ retries w' = retries w /\
  dlq w' = dlq w /\ store w' = store w /\ cb w' = cb w /\ workers w' = workers w.

Lemma kept_same_rest w w' : same_rest w w' -> kept w -> kept w'.
Proof. intros (_ & E1 & E2 & _ & E3 & E4 & _) H id. rewrite E1, E2, E3, E4. apply H. Qed.

Lemma parse_one w k es0 c r p id :
  refs_ok w -> held w k es0 -> Get (heap w) (pool w) c = (r, p) ->
  let w1 := with_events w (<[r := id]> (heap w)) p in
  refs_ok w1 /\ held w1 k (es0 ++ [mkEntry r id]).
Proof.
  intros [R1 R2 R3 R4 R5 R6] [A B C D] HG. cbv zeta.
  destruct (Get_spec _ _ _ _ _ R6 R3 HG) as (Hr & Hsub & Hcase).
  assert (forall x, x ∈ p -> x ∈ pool w) as Hin
    by (intros x Hx; eapply elem_of_submseteq; [exact Hx|by apply sublist_submseteq]).
  assert (forall x, is_Some (heap w !! x) -> x ∉ pool w -> x <> r) as Hne.
  { intros x [v Hv] Hx ->. destruct Hcase; congruence. }
  split; split; cbn.
  - intros k' ws e Hw He. rewrite lookup_insert_ne; [eauto|]. symmetry. apply Hne; eauto.
  - intros k' ws e Hw He ?%Hin. by eapply R2.
  - intros x Hx%Hin%R3. rewrite lookup_insert. case_decide; [done|exact Hx].
  - exact R4.
  - exact R5.
  - by apply (sublist_NoDup _ (pool w)).
  - intros e [He|He]%elem_of_app.
    + rewrite lookup_insert_ne; [auto|]. symmetry. apply Hne; eauto.
    + apply list_elem_of_singleton in He as ->. cbn. by rewrite lookup_insert_eq.
  - intros e [He|He]%elem_of_app; [by intros ?%Hin; eapply B|].
    apply list_elem_of_singleton in He as ->. done.
  - intros k' ws e e' Hk Hw He [He'|He']%elem_of_app; [eauto|].
    apply list_elem_of_singleton in He' as ->. cbn. apply Hne; eauto.
  - rewrite map_app. cbn. apply NoDup_app. split_and!; [done| |apply NoDup_singleton].
    intros x Hx ->%list_elem_of_singleton. apply list_elem_of_fmap in Hx as (e & E & He).
    apply (Hne (evt e)); eauto.
Qed.

Lemma parse_all_spec gets ids : forall w k es0,
  refs_ok w -> held w k es0 ->
  let '(w', es) := parse_all w gets ids in
  refs_ok w' /\ held w' k (es0 ++ es) /\ map eid es = ids /\ same_rest w w'.
Proof.
  induction ids as [|id ids IH]; intros w k es0 Hr Hh; cbn [parse_all].
  - by rewrite app_nil_r.
  - destruct (Get _ _ _) as [r p] eqn:HG. destruct (parse_one w k es0 _ r p id Hr Hh HG) as [Hr1 Hh1].
    specialize (IH _ k _ Hr1 Hh1). destruct (parse_all _ gets ids) as [w' es].
    destruct IH as (Hr2 & Hh2 & Hm & Hs). split_and!; [exact Hr2| |cbn; by rewrite Hm|exact Hs].
    by rewrite <- app_assoc in Hh2.
Qed.

Lemma held_nil w k : held w k [].
Proof. split; try (intros *; try intros ? ? ?; intros Hx; by apply elem_of_nil in Hx). constructor. Qed.

(** Returning held events to the pool. *)
Lemma put_all_spec w es : refs_ok w -> held w None es -> refs_ok (put_all w es).
Proof.
  intros [R1 R2 R3 R4 R5 R6] [A B C D]. split; cbn; auto.
  - intros k ws e Hw He [Hx|Hx]%elem_of_app; [|by eapply R2].
    apply list_elem_of_fmap in Hx as (e' & E & He'). by apply (C k ws e e').
  - intros r [Hx|Hx]%elem_of_app; [|auto]. apply list_elem_of_fmap in Hx as (e & -> & He).
    rewrite A by done. eauto.
  - apply NoDup_app. split_and!; [done| |done].
    intros x Hx Hp. apply list_elem_of_fmap in Hx as (e & -> & He). by apply (B e).
Qed.

Lemma put_all_kept w es : kept w -> kept (put_all w es).
Proof. done. Qed.

(** ** The handlers keep the invariant *)

Record inv w : Prop := mkInv { inv_kept : kept w; inv_refs : refs_ok w }.

Lemma batch_held w k ws : refs_ok w -> workers w !! k = Some ws -> held w (Some k) (batch ws).
Proof.
  intros [R1 R2 R3 R4 R5 R6] Hw. split; eauto.
  intros k' ws' e e' Hk Hw' He He'. apply (R4 k' k ws' ws e e'); auto. congruence.
Qed.

Lemma set_batch w k es c r :
  refs_ok w -> held w (Some k) es -> refs_ok (with_worker w k (mkWorker es c r)).
Proof.
  intros [R1 R2 R3 R4 R5 R6] [A B C D]. split; cbn; auto.
  - intros k' ws e. rewrite lookup_insert. case_decide; [intros [= <-]; apply A|eauto].
  - intros k' ws e. rewrite lookup_insert. case_decide; [intros [= <-]; apply B|eauto].
  - intros k1 k2 ws1 ws2 e1 e2 Hk. rewrite !lookup_insert.
    case_decide as E1; case_decide as E2; [congruence| | |eauto].
    + intros [= <-] H2 He1 He2 E. by apply (C k2 ws2 e2 e1); [congruence|..].
    + intros H1 [= <-] He1 He2. apply (C k1 ws1 e1 e2); [congruence|..]; done.
  - intros k' ws. rewrite lookup_insert. case_decide; [by intros [= <-]|eauto].
Qed.

Lemma refs_drop w k : refs_ok w -> refs_ok (drop_worker w k).
Proof.
  intros [R1 R2 R3 R4 R5 R6].
  split; cbn; auto.
  - intros k' ws e [_ Hw]%lookup_delete_Some. eauto.
  - intros k' ws e [_ Hw]%lookup_delete_Some. eauto.
  - intros k1 k2 ws1 ws2 e1 e2 Hk [_ Hw1]%lookup_delete_Some [_ Hw2]%lookup_delete_Some. eauto.
  - intros k' ws [_ Hw]%lookup_delete_Some. eauto.
Qed.

Lemma held_drop w k es : held w (Some k) es -> held (drop_worker w k) None es.
Proof.
  intros [A B C D]. split; cbn; auto.
  intros k' ws e e' _ [Hk Hw]%lookup_delete_Some He He'. by apply (C k' ws e e'); [congruence|..].
Qed.

(** A worker gives its whole batch back. *)
Lemma release w k es c r :
  refs_ok w -> held w (Some k) es ->
  refs_ok (with_worker (put_all w es) k (mkWorker [] c r)).
Proof.
  intros Hr Hh. change (refs_ok (put_all (with_worker w k (mkWorker [] c r)) es)).
  apply put_all_spec; [apply set_batch; [done|apply held_nil]|].
  destruct Hh as [A B C D]. split; cbn; auto.
  intros k' ws e e' _. rewrite lookup_insert. case_decide as Ek.
  - intros [= <-] He. by apply elem_of_nil in He.
  - intros Hw He He'. by apply (C k' ws e e'); [congruence|..].
Qed.

Lemma kept_with_worker w k ws : kept (with_worker w k ws) <-> kept w.
Proof. done. Qed.

Lemma kept_read w k n : kept w -> kept (read_new w k n).1.
Proof.
  intros H id Hid. cbn in *. rewrite lookup_assigned. case_decide as E; [left; eauto|].
  apply elem_of_app in Hid as [Hid|Hid]; [auto|done].
Qed.

Lemma read_inv w k n : inv w -> inv (read_new w k n).1.
Proof.
  intros [Hk Hr]. split; [by apply kept_read|]. by apply (refs_ok_same w).
Qed.

Definition dlq_clean (env : DlqEnv) : Prop :=
  forall id, xadd env id = ROk /\ dlq_ack env id = ROk.

Lemma moveToDLQ_clean w es env : dlq_clean env -> (moveToDLQ w es env).2 = true.
Proof.
  intros H. unfold moveToDLQ.
  set (written := filter (fun e => marshal_ok env (eid e) = true) es).
  assert (forall l : list Entry, forallb (fun e => is_ok (xadd env (eid e))) l = true) as Hx.
  { intros l. apply forallb_forall. intros e _. by rewrite (proj1 (H _)). }
  assert (forall l, forallb (fun id => is_ok (dlq_ack env id)) l = true) as Ha.
  { intros l. apply forallb_forall. intros e _. by rewrite (proj2 (H _)). }
  destruct written as [|e0 es0]; [done|]. cbv zeta. rewrite Ha, Hx, andb_false_r. cbn [snd].
  rewrite filter_all by (apply Forall_forall; intros e _; by rewrite (proj1 (H _))).
  rewrite length_map, Nat.ltb_irrefl. done.
Qed.

Lemma select_ids es idx id :
  id ∈ map eid (select es idx) -> exists i e, i ∈ idx /\ at_z es i = Some e /\ id = eid e.
Proof.
  intros (e & -> & He)%list_elem_of_fmap. apply list_elem_of_omap in He as (i & Hi & Hat). eauto.
Qed.

Lemma at_z_map {A B} (f : A -> B) l i x : at_z l i = Some x -> at_z (map f l) i = Some (f x).
Proof.
  unfold at_z, zlen. rewrite length_map. case_if; [|done]. change (map f l) with (f <$> l).
  rewrite list_lookup_fmap. by intros ->.
Qed.

Lemma decompose_inv w k ws ws0 env count :
  inv w -> workers w !! k = Some ws0 -> batch ws0 = batch ws -> dlq_clean (dlq_env env) ->
  let '(w', ws') := decompose w ws env count in
  inv (with_worker w' k ws').
Proof.
  intros [Hk Hr] Hw Hb Hd. pose proof (batch_held w k ws0 Hr Hw) as Hh. rewrite Hb in Hh.
  unfold decompose, splitStoreBatch.
  destruct (split_fuel_ok _ (store w) (resolve (heap w) (batch ws)) 0 (le_n _)) as (r & -> & Hsp).
  cbv zeta. set (okIDs := map eid (select (batch ws) (successIdx r))). set (w1 := with_store w (after r)).
  assert (kept w1) as Hk1.
  { intros id Hid. destruct (Hk id Hid) as [|[|]]; auto. right; left. by apply (so_mono _ _ _ _ Hsp). }
  assert (forall id, id ∈ okIDs -> id ∈ rows (store w1) \/ id ∈ dlq w1) as Hok.
  { intros id (i & e & Hi & Hat & ->)%select_ids. left. cbn.
    assert (at_z (resolve (heap w) (batch ws)) (i - 0) =
      Some (mkMsg (default 0 (heap w !! evt e)) (eid e))) as Hm
      by (rewrite Z.sub_0_r; by apply (at_z_map (fun e => mkMsg (default 0 (heap w !! evt e)) (eid e)))).
    pose proof (so_stored _ _ _ _ Hsp i _ Hi Hm) as Hs. cbn in Hs.
    rewrite (hd_heap _ _ _ Hh e) in Hs; [exact Hs|].
    apply at_z_lookup in Hat. by apply list_elem_of_lookup_2 in Hat. }
  set (w2 := match okIDs with [] => w1 | _ => _ end).
  assert (kept w2 /\ same_refs w w2) as [Hk2 Hs2].
  { subst w2. destruct okIDs as [|id0 ids0] eqn:E; [done|]. rewrite <- E in *. split.
    - apply HDel_spec. by apply kept_XAck.
    - unfold HDel, XAck. by destruct (ran (split_ack env)), (ran (hdel env)). }
  set (failed := select _ (failIdx r)).
  assert (let '(w3, ok) := match failed with [] => (w2, true) | _ => moveToDLQ w2 failed (dlq_env env) end in
    ok = true /\ kept w3 /\ same_refs w w3) as H3.
  { assert (intact w2 failed) as Hi.
    { intros e (i & Hi & Hat)%list_elem_of_omap. destruct Hs2 as (-> & _ & _). apply (hd_heap _ _ _ Hh).
      apply at_z_lookup in Hat. by apply list_elem_of_lookup_2 in Hat. }
    pose proof (moveToDLQ_spec w2 failed (dlq_env env) Hk2 Hi) as Hm.
    pose proof (moveToDLQ_clean w2 failed (dlq_env env) Hd) as Hc.
    destruct failed; [done|]. destruct (moveToDLQ w2 _ _) as [w3 ok]. destruct Hm as [Hm1 Hm2].
    split; [exact Hc|]. split; [exact Hm1|].
    destruct Hm2 as (E1 & E2 & E3), Hs2 as (E4 & E5 & E6). split_and!; congruence. }
  destruct (match failed with [] => _ | _ => _ end) as [w3 ok]. destruct H3 as (-> & Hk3 & Hs3).
  split; [exact Hk3|]. apply release; [by apply (refs_ok_same w)|by apply (held_same w)].
Qed.

Lemma tryFlush_inv w k ws env :
  inv w -> workers w !! k = Some ws -> dlq_clean (dlq_env env) ->
  let '(w', ws') := tryFlush w k ws env in inv (with_worker w' k ws').
Proof.
  intros [Hk Hr] Hw Hd. pose proof (batch_held w k ws Hr Hw) as Hh. unfold tryFlush.
  destruct (Allow _ _) as [admitted cb1]. set (w0 := with_cb w cb1).
  assert (forall w1 c r, kept w1 -> same_refs w w1 -> inv (with_worker w1 k (mkWorker (batch ws) c r))) as Hkeep.
  { intros w1 c r Hk1 Hs. split; [exact Hk1|].
    apply set_batch; [by apply (refs_ok_same w)|by apply (held_same w)]. }
  assert (forall w1, kept w1 -> same_refs w w1 -> inv (with_worker w1 k ws)) as Hkeep'.
  { intros w1. destruct ws as [b c r]. apply Hkeep. }
  destruct (negb admitted); [by apply Hkeep'|].
  pose proof (flushBatch_spec w0 (batch ws) (flush_ack env) (flush_ack_err env) Hk
    (fun e He => hd_heap _ _ _ Hh e He)) as Hf.
  destruct (flushBatch w0 _ _ _) as [w1 err]. destruct Hf as [Hk1 Hs1].
  assert (same_refs w w1) as Hs by exact Hs1. clear Hs1.
  assert (forall e, let '(w', ws') :=
      (let w2 := with_cb w1 (RecordFailure (now_record env) k (cb w1)) in
       let '(rts, vals) := incr_all (retries w2) (map eid (batch ws)) (incr env) in
       let w3 := with_retries w2 rts in
       let maxIncr := foldl Z.max 0 vals in
       let count := Z.max (retryCount ws +64 1) maxIncr in
       if existsb (fun v => maxRetries cfg <? v) vals then
         if isRetriableStoreError e then (w3, mkWorker (batch ws) count (doubled ws env))
         else decompose w3 (mkWorker (batch ws) count (retryWait ws)) env count
       else (w3, mkWorker (batch ws) count (doubled ws env))) in inv (with_worker w' k ws')) as Herr.
  { intros e. cbv zeta. destruct (incr_all _ _ _) as [rts vals].
    set (w3 := with_retries _ rts).
    assert (kept w3) as Hk3 by done. assert (same_refs w w3) as Hs3 by done.
    destruct (existsb _ _); [|by apply Hkeep]. destruct (isRetriableStoreError e); [by apply Hkeep|].
    pose proof (decompose_inv w3 k (mkWorker (batch ws) (Z.max (retryCount ws +64 1) (foldl Z.max 0 vals))
      (retryWait ws)) ws env (Z.max (retryCount ws +64 1) (foldl Z.max 0 vals))) as Hdc.
    destruct (decompose w3 _ _ _) as [w' ws']. apply Hdc; try done.
    - split; [exact Hk3|by apply (refs_ok_same w)].
    - destruct Hs3 as (_ & _ & ->). exact Hw. }
  destruct err as [[| | |msg]|].
  - by apply Hkeep'.
  - exact (Herr ErrDeadlineExceeded).
  - exact (Herr ErrSpoolMaxSegments).
  - exact (Herr (ErrText msg)).
  - set (w2 := HDel _ _ _). assert (kept w2 /\ same_refs w w2) as [Hk2 Hs2].
    { subst w2. split; [by apply HDel_spec|]. unfold HDel. by destruct (ran (hdel env)). }
    split; [exact Hk2|]. apply release; [by apply (refs_ok_same w)|by apply (held_same w)].
Qed.

(** Events that live for one pass of a loop. *)
Lemma transient w gets ids :
  inv w ->
  let '(w1, es) := parse_all w gets ids in
  kept w1 /\ refs_ok w1 /\ held w1 None es /\ map eid es = ids /\ same_rest w w1.
Proof.
  intros [Hk Hr]. pose proof (parse_all_spec gets ids w None [] Hr (held_nil w None)) as H.
  destruct (parse_all w gets ids) as [w1 es]. destruct H as (H1 & H2 & H3 & H4).
  split; [by apply (kept_same_rest w)|done].
Qed.

Lemma finish w1 w2 es :
  refs_ok w1 -> held w1 None es -> kept w2 -> same_refs w1 w2 -> inv (put_all w2 es).
Proof.
  intros Hr Hh Hk Hs. split; [exact Hk|].
  apply put_all_spec; [by apply (refs_ok_same w1)|by apply (held_same w1)].
Qed.

Lemma HDel_pel w ids r : pel (HDel w ids r) = pel w.
Proof. unfold HDel. by destruct (ran r). Qed.

Lemma flushBatch_queue w es ack ackErr : queue (flushBatch w es ack ackErr).1 = queue w.
Proof.
  unfold flushBatch. destruct es; [done|]. destruct (StoreBatch _ _ _) as [s err]. destruct err; [done|].
  unfold XAck. by destruct (ran ack).
Qed.

Lemma flushBatch_ok w es ack ackErr w' :
  flushBatch w es ack ackErr = (w', None) -> es <> [] -> pel w' = acked (pel w) (map eid es).
Proof.
  intros H Hne. unfold flushBatch in H. destruct es as [|e0 es0]; [done|].
  destruct (StoreBatch _ _ _) as [s err]. destruct err; [done|].
  destruct ack; cbn in H; simplify_eq. done.
Qed.

Lemma size_acked p ids id : id ∈ ids -> is_Some (p !! id) -> (size (acked p ids) < size p)%nat.
Proof.
  intros Hid [c Hc]. apply map_subset_size, map_subset_alt. split.
  - apply map_subseteq_spec. intros i x. rewrite lookup_acked. by case_decide.
  - exists id. rewrite lookup_acked, decide_True by done. split; [eauto|done].
Qed.

Lemma own_pending_pending p k n id : id ∈ own_pending p k n -> is_Some (p !! id).
Proof.
  unfold own_pending. intros (i & Hi & _)%elem_of_take. apply list_elem_of_lookup_2 in Hi.
  rewrite merge_sort_Permutation in Hi. apply list_elem_of_fmap in Hi as ([id' c] & -> & Hi).
  apply list_elem_of_filter in Hi as [_ Hi]. apply elem_of_map_to_list in Hi. eauto.
Qed.

(** [recoverPending] ends, and keeps the invariant. *)
Lemma recover_fuel_spec fuel : forall w k envs n,
  inv w -> (size (pel w) < fuel)%nat ->
  exists w', recover_fuel fuel w k envs n = Some w' /\ inv w'.
Proof.
  induction fuel as [|fuel IH]; intros w k envs n Hinv Hf; [lia|]. cbn [recover_fuel].
  destruct (negb (l_read (envs n))); [eauto|].
  destruct (own_pending _ _ _) as [|id0 ids0] eqn:Eids; [eauto|]. rewrite <- Eids.
  set (ids := own_pending _ _ _) in *.
  pose proof (transient w (l_gets (envs n)) ids Hinv) as Ht.
  destruct (parse_all w _ ids) as [w1 es]. destruct Ht as (Hk1 & Hr1 & Hh1 & Hm & Hs).
  assert (es <> []) as Hne by (intros ->; cbn in Hm; congruence).
  assert (pel w1 = pel w) as Ep by apply Hs.
  pose proof (flushBatch_spec w1 es (l_ack (envs n)) (l_ack_err (envs n)) Hk1 (hd_heap _ _ _ Hh1)) as Hfl.
  destruct (flushBatch w1 es _ _) as [w2 err] eqn:Efl. destruct Hfl as [Hk2 Hs2].
  pose proof (fun w3 => finish w1 w3 es Hr1 Hh1) as Hfin.
  assert (forall e, exists w', (let w3 := with_cb w2 (RecordFailure (l_now (envs n)) k (cb w2)) in
      if isRetriableStoreError e then Some (put_all w3 es)
      else let '(w4, _) := moveToDLQ w3 es (l_dlq (envs n)) in
           Some (put_all (HDel w4 ids (l_hdel (envs n))) es)) = Some w' /\ inv w') as Herr.
  { intros e. cbv zeta. destruct (isRetriableStoreError e); [eexists; split; [done|]; by apply Hfin|].
    set (w3 := with_cb w2 _).
    assert (intact w3 es) as Hi.
    { intros e' He'. change (heap w3) with (heap w2). destruct Hs2 as (-> & _ & _). by apply (hd_heap _ _ _ Hh1). }
    pose proof (moveToDLQ_spec w3 es (l_dlq (envs n)) Hk2 Hi) as Hd.
    destruct (moveToDLQ w3 es _) as [w4 ok]. destruct Hd as [Hk4 Hs4].
    eexists. split; [done|]. apply Hfin; [by apply HDel_spec|].
    apply (same_refs_trans w1 w4); [by apply (same_refs_trans w1 w2)|by apply HDel_spec]. }
  destruct err as [[| | |msg]|].
  - eexists. split; [done|]. by apply Hfin.
  - apply (Herr ErrDeadlineExceeded).
  - apply (Herr ErrSpoolMaxSegments).
  - apply (Herr (ErrText msg)).
  - apply flushBatch_ok in Efl; [|exact Hne]. rewrite Hm, Ep in Efl.
    set (w3 := HDel _ ids _). assert (pel w3 = pel w2) as E3 by exact (HDel_pel (with_cb w2 _) ids _).
    apply IH.
    + apply Hfin; [by apply HDel_spec|]. subst w3. unfold HDel. by destruct (ran (l_hdel (envs n))).
    + cbn. rewrite E3, Efl. assert (id0 ∈ ids) as Hin by (rewrite Eids; apply list_elem_of_here).
      pose proof (size_acked (pel w) ids id0 Hin (own_pending_pending _ _ _ _ Hin)). lia.
Qed.

Lemma recoverPending_spec w k envs :
  inv w -> exists w', recoverPending w k envs = Some w' /\ inv w'.
Proof. intros H. apply recover_fuel_spec; [done|lia]. Qed.

(** [drainNewMessages] ends, and keeps the invariant. *)
Lemma drain_fuel_spec fuel : forall w k envs n,
  inv w -> (length (queue w) < fuel)%nat ->
  exists w', drain_fuel fuel w k envs n = Some w' /\ inv w'.
Proof.
  induction fuel as [|fuel IH]; intros w k envs n Hinv Hf; [lia|]. cbn [drain_fuel].
  destruct (negb (l_read (envs n))); [eauto|].
  pose proof (read_inv w k (Z.to_nat (batchSize cfg)) Hinv) as Hinv0.
  destruct (read_new w k _) as [w0 ids] eqn:Eread. cbn [fst] in Hinv0.
  destruct ids as [|id0 ids0]; [eauto|]. set (ids := id0 :: ids0) in *.
  pose proof (transient w0 (l_gets (envs n)) ids Hinv0) as Ht.
  destruct (parse_all w0 _ ids) as [w1 es]. destruct Ht as (Hk1 & Hr1 & Hh1 & Hm & Hs).
  pose proof (flushBatch_spec w1 es (l_ack (envs n)) (l_ack_err (envs n)) Hk1 (hd_heap _ _ _ Hh1)) as Hfl.
  pose proof (flushBatch_queue w1 es (l_ack (envs n)) (l_ack_err (envs n))) as Hq.
  destruct (flushBatch w1 es _ _) as [w2 err]. destruct Hfl as [Hk2 Hs2]. cbn [fst] in Hq.
  assert (inv (put_all w2 es)) as Hfin by by apply (finish w1).
  destruct err; [eauto|]. apply IH; [exact Hfin|]. cbn. rewrite Hq. destruct Hs as (-> & _).
  unfold read_new in Eread. injection Eread as <- Et. cbn. rewrite length_drop.
  destruct (queue w) as [|q qs]; [rewrite take_nil in Et; done|].
  destruct (Z.to_nat (batchSize cfg)); [done|cbn in *; lia].
Qed.

Lemma drainNewMessages_spec w k envs :
  inv w -> exists w', drainNewMessages w k envs = Some w' /\ inv w'.
Proof. intros H. apply drain_fuel_spec; [done|lia]. Qed.

Lemma held_part w k es es' : held w k es -> es' ⊆+ es -> held w k es'.
Proof.
  intros [A B C D] Hsub. assert (forall e, e ∈ es' -> e ∈ es) as Hin
    by (intros e He; by eapply elem_of_submseteq).
  split; eauto. apply submseteq_Permutation in Hsub as [l Hl].
  assert (Permutation (map evt es) (map evt es' ++ map evt l)) as Hp
    by (rewrite <- map_app; by apply Permutation_map).
  rewrite Hp in D. by apply NoDup_app in D as (D & _).
Qed.

Lemma put_part w a b :
  refs_ok w -> held w None (a ++ b) -> refs_ok (put_all w a) /\ held (put_all w a) None b.
Proof.
  intros Hr Hh. split.
  - apply put_all_spec; [done|]. apply (held_part _ _ (a ++ b)); [done|]. apply submseteq_inserts_r. done.
  - destruct Hh as [A B C D]. split; cbn.
    + intros e He. apply A, elem_of_app. by right.
    + intros e He [Hx|Hx]%elem_of_app; [|by apply (B e); [apply elem_of_app; right|]].
      rewrite map_app in D. apply NoDup_app in D as (_ & D & _). apply (D (evt e)); [done|].
      apply list_elem_of_fmap. eauto.
    + intros k ws e e' Hk Hw He He'. apply (C k ws e e'); auto. apply elem_of_app. by right.
    + rewrite map_app in D. by apply NoDup_app in D as (_ & _ & D).
Qed.

Lemma zip_fst_part {A B} (l : list A) (l' : list B) : map fst (zip l l') ⊆+ l.
Proof.
  revert l'. induction l as [|x l IH]; intros [|y l']; cbn; try apply submseteq_nil_l.
  by apply submseteq_skip.
Qed.

Lemma claim_page_inv w page : inv w -> inv (claim_page w page).
Proof.
  intros [Hk Hr]. destruct page as [[claimed incr] env]. unfold claim_page.
  destruct (filter _ claimed) as [|id0 ids0]; [done|]. set (ids := id0 :: ids0).
  set (w0 := with_group w _ _ _). cbv zeta. destruct (incr_all (retries w0) ids incr) as [rts vals].
  assert (inv (with_retries w0 rts)) as Hinv0.
  { split; [|by apply (refs_ok_same w)]. intros id Hid. subst w0.
    cbn [pel store dlq delivered with_retries with_group] in *. rewrite lookup_assigned.
    case_decide; [eauto|auto]. }
  pose proof (transient _ (l_gets env) ids Hinv0) as Ht.
  destruct (parse_all _ _ ids) as [w1 es]. destruct Ht as (Hk1 & Hr1 & Hh1 & _ & _).
  set (over := map fst (filter (fun ev => maxRetries cfg < ev.2) (zip es vals))).
  set (rest := map fst (filter (fun ev => ~ maxRetries cfg < ev.2) (zip es vals))).
  assert (held w1 None (over ++ rest)) as Hor.
  { apply (held_part _ _ es); [done|]. subst over rest. rewrite <- map_app.
    etransitivity; [|apply (zip_fst_part es vals)]. apply Permutation_submseteq, Permutation_map.
    apply filter_app_complement. }
  set (w2 := match over with [] => w1 | _ => _ end).
  assert (kept w2 /\ refs_ok w2 /\ held w2 None rest) as (Hk2 & Hr2 & Hh2).
  { subst w2. destruct over as [|e0 es0] eqn:Eo; [done|]. rewrite <- Eo in *.
    assert (intact w1 over) as Hi by (intros e He; apply (hd_heap _ _ _ Hor), elem_of_app; by left).
    pose proof (moveToDLQ_spec w1 over (l_dlq env) Hk1 Hi) as Hd.
    destruct (moveToDLQ w1 over _) as [w1' ok]. destruct Hd as [Hk1' Hs1']. cbn [fst].
    destruct (HDel_spec (put_all w1' over) (map eid over) (l_hdel env)) as [HDk HDs].
    destruct (put_part w1' over rest) as [Hp1 Hp2];
      [by apply (refs_ok_same w1)|by apply (held_same w1)|].
    split; [by apply HDk|]. split; [by apply (refs_ok_same (put_all w1' over))|].
    by apply (held_same (put_all w1' over)). }
  destruct rest as [|e0 es0] eqn:Er; [by split|]. rewrite <- Er in *.
  pose proof (flushBatch_spec w2 rest (l_ack env) (l_ack_err env) Hk2 (hd_heap _ _ _ Hh2)) as Hf.
  destruct (flushBatch w2 rest _ _) as [w3 err]. destruct Hf as [Hk3 Hs3].
  destruct err as [e|]; [by apply (finish w2)|].
  destruct (HDel_spec (with_cb w3 (RecordSuccess "janitor" (cb w3))) (map eid rest) (l_hdel env)) as [HDk HDs].
  apply (finish w2); [done|done|by apply HDk|]. by apply (same_refs_trans w2 w3).
Qed.

Lemma claim_inv pages : forall w, inv w -> inv (claimStuckMessages w pages).
Proof.
  unfold claimStuckMessages. induction pages as [|pg pages IH]; intros w H; [done|].
  apply IH. by apply claim_page_inv.
Qed.

Lemma start_inv w k envs : inv w -> inv (start_worker w k envs).
Proof.
  intros H. unfold start_worker. destruct (recoverPending_spec w k envs H) as (w' & -> & [Hk Hr]).
  cbn [default]. split; [exact Hk|]. apply set_batch; [exact Hr|apply held_nil].
Qed.

Lemma read_batch_inv w k n gets : inv w -> inv (read_batch w k n gets).
Proof.
  intros H. unfold read_batch. destruct (workers w !! k) as [ws|] eqn:Hw; [|done].
  cbv zeta. destruct (_ <=? 0); [done|].
  pose proof (read_inv w k (Nat.min n (Z.to_nat (batchSize cfg - zlen (batch ws)))) H) as H0.
  destruct (read_new w k _) as [w0 ids] eqn:Eread. cbn [fst] in H0.
  assert (workers w0 !! k = Some ws) as Hw0 by (unfold read_new in Eread; by injection Eread as <- _).
  destruct H0 as [Hk0 Hr0].
  pose proof (parse_all_spec gets ids w0 (Some k) (batch ws) Hr0 (batch_held _ _ _ Hr0 Hw0)) as Hp.
  destruct (parse_all w0 gets ids) as [w1 es]. destruct Hp as (Hr1 & Hh1 & _ & Hs).
  split; [change (kept w1); by apply (kept_same_rest w0)|]. by apply set_batch.
Qed.

Lemma shutdown_inv w k env d r : inv w -> inv (shutdown_worker w k env d r).
Proof.
  intros [Hk Hr]. unfold shutdown_worker. destruct (workers w !! k) as [ws|] eqn:Hw; [|done].
  pose proof (batch_held w k ws Hr Hw) as Hh.
  pose proof (flushBatch_spec w (batch ws) (l_ack env) (l_ack_err env) Hk (hd_heap _ _ _ Hh)) as Hf.
  destruct (flushBatch w _ _ _) as [w1 err]. destruct Hf as [Hk1 Hs1]. cbv zeta.
  set (w3 := match err with None => _ | Some _ => _ end).
  assert (inv w3) as H3.
  { subst w3. assert (refs_ok (drop_worker w1 k)) as Hrd by (apply refs_drop; by apply (refs_ok_same w)).
    destruct err; [by split|]. split; [exact Hk1|]. apply put_all_spec; [exact Hrd|].
    apply held_drop. by apply (held_same w). }
  destruct (drainNewMessages_spec w3 k d H3) as (w4 & -> & H4).
  change (default w3 (Some w4)) with w4.
  destruct (recoverPending_spec w4 k r H4) as (w5 & -> & H5). exact H5.
Qed.

(** A run is clean when the dead-letter writes of its flushes succeed. *)
Definition op_ok (o : op) : Prop :=
  match o with Flush _ env => dlq_clean (dlq_env env) | _ => True end.

Lemma exec_inv w o : inv w -> op_ok o -> inv (exec w o).
Proof.
  intros H Ho. destruct o as [id|k envs|k n gets|k env|pages|k env d r|k]; cbn [exec op_ok] in *.
  - destruct H as [Hk Hr]. split; [exact Hk|by apply (refs_ok_same w)].
  - by apply start_inv.
  - by apply read_batch_inv.
  - unfold flush_worker. destruct (workers w !! k) as [ws|] eqn:Hw; [|done].
    pose proof (tryFlush_inv w k ws env H Hw Ho) as Hf. by destruct (tryFlush w k ws env).
  - by apply claim_inv.
  - by apply shutdown_inv.
  - destruct H as [Hk Hr]. split; [exact Hk|by apply refs_drop].
Qed.

(** An empty stream and no worker. *)
Definition init (s : St) (breaker : CircuitBreaker) : World St :=
  mkWorld [] [] ∅ ∅ [] s breaker ∅ [] ∅.

Lemma init_inv s b : inv (init s b).
Proof.
  split.
  - intros id Hid. by apply elem_of_nil in Hid.
  - split; cbn.
    + intros k ws e. by rewrite lookup_empty.
    + intros k ws e. by rewrite lookup_empty.
    + intros r Hx. by apply elem_of_nil in Hx.
    + intros k1 k2 ws1 ws2 e1 e2 _. by rewrite lookup_empty.
    + intros k ws. by rewrite lookup_empty.
    + constructor.
Qed.

Lemma run_keeps_inv ops : forall w, inv w -> Forall op_ok ops -> inv (foldl exec w ops).
Proof.
  induction ops as [|o ops IH]; intros w H Hok; [done|]. apply Forall_cons in Hok as [Ho Hok].
  apply IH; [by apply exec_inv|done].
Qed.

(** C12: no message is lost.  Take any store, any run of reads, flushes,
    janitor passes, shutdowns and crashes, with any call failing or losing its
    reply, except that the dead-letter writes of a flush succeed.  Every
    message the consumer group has delivered is pending, persisted or in the
    dead-letter stream, and every event a worker holds still carries the
    message it is held for. *)
Theorem no_message_lost s b ops :
  Forall op_ok ops ->
  let w := foldl exec (init s b) ops in
  (forall id, id ∈ delivered w ->
    is_Some (pel w !! id) \/ id ∈ rows (store w) \/ id ∈ dlq w) /\
  (forall k ws e, workers w !! k = Some ws -> e ∈ batch ws ->
    heap w !! evt e = Some (eid e) /\ evt e ∉ pool w).
Proof.
  intros Hok w. destruct (run_keeps_inv ops (init s b) (init_inv s b) Hok) as [Hk Hr].
  split; [exact Hk|]. intros k ws e Hw He. split; [by eapply rf_heap|by eapply rf_free].
Qed.

(** The loops of a worker's start and shutdown end.  After any clean run
    [recoverPending] and [drainNewMessages] return, whatever the store and
    Redis answer on each iteration. *)
Theorem worker_loops_terminate s b ops k envs :
  Forall op_ok ops ->
  let w := foldl exec (init s b) ops in
  (exists w', recoverPending w k envs = Some w') /\ (exists w', drainNewMessages w k envs = Some w').
Proof.
  intros Hok w. pose proof (run_keeps_inv ops (init s b) (init_inv s b) Hok) as H.
  destruct (recoverPending_spec w k envs H) as (w1 & E1 & _).
  destruct (drainNewMessages_spec w k envs H) as (w2 & E2 & _). eauto.
Qed.

(** ** The breaker around a flush *)

Lemma flushBatch_cb w es ack ackErr : cb (flushBatch w es ack ackErr).1 = cb w.
Proof.
  unfold flushBatch. destruct es; [done|]. destruct (StoreBatch _ _ _) as [s err]. destruct err; [done|].
  unfold XAck. by destruct (ran ack).
Qed.

Lemma HDel_cb w ids r : cb (HDel w ids r) = cb w.
Proof. unfold HDel. by destruct (ran r). Qed.

Lemma moveToDLQ_cb w es env : cb (moveToDLQ w es env).1 = cb w.
Proof. unfold moveToDLQ. destruct (filter _ es); [done|]. cbv zeta. by destruct (negb _ && negb _). Qed.

Lemma decompose_cb w ws env count : cb (decompose w ws env count).1 = cb w.
Proof.
  unfold decompose. destruct (splitStoreBatch _ _ _) as [r|]; [|done]. cbv zeta.
  set (w2 := match map eid _ with [] => _ | _ => _ end).
  assert (cb w2 = cb w) as E2.
  { subst w2. destruct (map eid _); [done|]. rewrite HDel_cb. unfold XAck. by destruct (ran (split_ack env)). }
  assert (cb (match select (batch ws) (failIdx r) with
    | [] => (w2, true) | _ => moveToDLQ w2 (select (batch ws) (failIdx r)) (dlq_env env) end).1 = cb w) as E3.
  { clearbody w2. destruct (select (batch ws) (failIdx r)); [exact E2|]. by rewrite moveToDLQ_cb. }
  clearbody w2.
  destruct (match select _ _ with [] => _ | _ => _ end) as [w3 ok]. destruct ok; [exact E3|].
  by destruct (compact _ _ _).
Qed.

Lemma record_resolves now k c :
  state (RecordSuccess k c) <> CircuitHalfOpen /\ state (RecordFailure now k c) <> CircuitHalfOpen /\
  state (RecordCancellation now c) <> CircuitHalfOpen.
Proof.
  unfold RecordSuccess, RecordFailure, RecordCancellation, reopen.
  destruct c as [[] f l t o]; cbn; split_and!; try done; by destruct (_ && _).
Qed.

(** A flush never leaves the breaker half open.  A worker that was
    admitted as the probe records its outcome on every path (success,
    cancellation, error, decomposition of a poison batch), so no flush blocks
    the workers behind a probe that never ends. *)
Theorem flush_resolves_probe w k ws env :
  state (cb w) <> CircuitHalfOpen -> state (cb (tryFlush w k ws env).1) <> CircuitHalfOpen.
Proof.
  intros H. unfold tryFlush. destruct (Allow _ _) as [admitted cb1] eqn:Ea.
  destruct admitted; cbn [negb]; [|change (state cb1 <> CircuitHalfOpen); unfold Allow in Ea;
    destruct (state (cb w)) eqn:Es; [done|destruct (_ <=? _); [done|congruence]|done]].
  destruct (flushBatch _ _ _ _) as [w1 err].
  destruct (record_resolves (now_record env) k (cb w1)) as (Hs & Hf & Hc).
  assert (forall e, state (cb (let '(rts, vals) := incr_all (retries w1) (map eid (batch ws)) (incr env) in
    let w3 := with_retries (with_cb w1 (RecordFailure (now_record env) k (cb w1))) rts in
    let count := Z.max (retryCount ws +64 1) (foldl Z.max 0 vals) in
    if existsb (fun v => maxRetries cfg <? v) vals then
      if isRetriableStoreError e then (w3, mkWorker (batch ws) count (doubled ws env))
      else decompose w3 (mkWorker (batch ws) count (retryWait ws)) env count
    else (w3, mkWorker (batch ws) count (doubled ws env))).1) <> CircuitHalfOpen) as Herr.
  { intros e. destruct (incr_all _ _ _) as [rts vals]. cbv zeta. destruct (existsb _ _); [|exact Hf].
    destruct (isRetriableStoreError e); [exact Hf|]. by rewrite decompose_cb. }
  destruct err as [[| | |msg]|].
  - exact Hc.
  - exact (Herr ErrDeadlineExceeded).
  - exact (Herr ErrSpoolMaxSegments).
  - exact (Herr (ErrText msg)).
  - cbv zeta. change (state (cb (HDel (with_cb w1 (RecordSuccess k (cb w1))) (map eid (batch ws)) (hdel env)))
      <> CircuitHalfOpen). rewrite HDel_cb. exact Hs.
Qed.

(** ** The compaction after a failed dead-letter write *)

Lemma compact_length b j failed arr n :
  Forall (fun i => 0 <= i < zlen b) failed -> compact b j failed = (arr, n) ->
  length arr = length b /\ n = (j + length failed)%nat.
Proof.
  intros H. revert b j arr n H. induction failed as [|i failed IH]; intros b j arr n H E; cbn in E.
  - simplify_eq. split; [done|cbn; lia].
  - apply Forall_cons in H as [Hi H]. destruct (at_z_Some b i Hi) as (e & Hat & _). rewrite Hat in E.
    apply IH in E as [E1 E2].
    + rewrite length_insert in E1. split; [exact E1|cbn; lia].
    + eapply Forall_impl; [exact H|]. intros i'. unfold zlen. by rewrite length_insert.
Qed.

Lemma put_loop_hits failed : forall p arr,
  failed <> seqZ p (zlen failed) -> (length failed <= length arr)%nat ->
  exists i e, arr !! i = Some e /\ (i < length failed)%nat /\ evt e ∈ put_loop p arr failed.
Proof.
  induction failed as [|f failed IH]; intros p arr Hne Hlen; [done|].
  destruct arr as [|e arr]; [cbn in Hlen; lia|]. cbn [put_loop]. destruct (p =? f) eqn:E.
  - apply Z.eqb_eq in E as ->. destruct (IH (f + 1) arr) as (i & e' & Hi & Hlt & Hin).
    + intros Heq. apply Hne. rewrite (seqZ_cons f) by (unfold zlen; cbn; lia). f_equal.
      rewrite Heq at 1. f_equal; unfold zlen; cbn; lia.
    + cbn in Hlen. lia.
    + exists (S i), e'. cbn. split; [exact Hi|split; [lia|exact Hin]].
  - exists 0%nat, e. split; [done|]. split; [cbn; lia|apply list_elem_of_here].
Qed.

(** A failed dead-letter write gives a retained event back to the pool.
    The batch is compacted in place before the loop that returns the other
    events walks over it, so unless the failed rows are the first ones of the
    batch an event that stays in the batch is also put in the pool. *)
Theorem retained_event_pooled w ws env count w' ws' r :
  splitStoreBatch (store w) (resolve (heap w) (batch ws)) 0 = Some r ->
  decompose w ws env count = (w', ws') -> batch ws' <> [] ->
  failIdx r <> seqZ 0 (zlen (failIdx r)) ->
  exists e, e ∈ batch ws' /\ evt e ∈ pool w'.
Proof.
  intros Hr Hd Hne Hnp. unfold decompose in Hd. rewrite Hr in Hd. cbv zeta in Hd.
  destruct (match select _ (failIdx r) with [] => _ | _ => _ end) as [w3 ok].
  destruct ok; [by simplify_eq/=|]. destruct (compact _ _ _) as [arr n] eqn:Ec. simplify_eq. cbn [batch pool].
  destruct (split_fuel_ok _ (store w) (resolve (heap w) (batch ws)) 0 (le_n _)) as (r' & Er & Hsp).
  unfold splitStoreBatch in Hr. rewrite Hr in Er. simplify_eq.
  assert (zlen (resolve (heap w) (batch ws)) = zlen (batch ws)) as El
    by (unfold zlen, resolve; by rewrite length_map).
  apply compact_length in Ec as [Ea En].
  - destruct (put_loop_hits (failIdx r') 0 arr Hnp) as (i & e & Hi & Hlt & Hin).
    + rewrite Ea. pose proof (so_perm _ _ _ _ Hsp) as Hp. apply Permutation_length in Hp.
      rewrite length_app, length_seqZ, El in Hp. unfold zlen in Hp. lia.
    + exists e. split; [|apply elem_of_app; by left]. apply elem_of_take. exists i. split; [done|lia].
  - apply Forall_forall. intros i Hi.
    pose proof (split_ok_perm_range _ _ _ _ i Hsp (or_intror Hi)). lia.
Qed.

End Consumer.

(** ** Concrete runs *)

Definition demo_cfg : Config := mkConfig "node" 10 0 100000000 5000000000.

Definition bad_row : StoreError := ErrText "code: 27, cannot parse input".

Definition dlq_up : DlqEnv := mkDlqEnv (fun _ => true) (fun _ => ROk) (fun _ => ROk).

Definition demo_env (d : DlqEnv) : TryEnv :=
  mkTryEnv 0 0 false ROk bad_row ROk (fun _ => ROk) ROk d.

Definition demo_loop (n : nat) : LoopEnv := mkLoopEnv 0 true (fun _ => Some 0%nat) ROk bad_row ROk dlq_up.

Definition demo_init (script : list (option StoreError)) : World Scripted :=
  init (script, []) (NewCircuitBreaker 5 1000).

(** Messages 1 and 2 are read; the flush fails, the split stores 1, and 2 is
    dead-lettered if the write succeeds. *)
Definition demo_script : list (option StoreError) :=
  [Some bad_row; Some bad_row; None; Some bad_row].

Definition demo_ops (d : DlqEnv) : list op :=
  [Produce 1; Produce 2; Start "w" demo_loop; Read "w" 5 (fun _ => None); Flush "w" (demo_env d)].

(** A failed dead-letter write can lose a message.  The event that was
    both kept and pooled is handed out for the next message and overwritten;
    the retry then persists that message twice and acknowledges both ids, and
    the kept message is in no pending list, no row and no dead letter. *)
Theorem failed_dlq_write_loses_message :
  let down := mkDlqEnv (fun _ => true) (fun _ => RFail) (fun _ => ROk) in
  let w := foldl (exec demo_cfg) (demo_init demo_script)
    (demo_ops down ++ [Produce 3; Read "w" 5 (fun _ => Some 0%nat); Flush "w" (demo_env down)]) in
  2 ∈ delivered w /\ pel w !! 2 = None /\ rows (store w) = [1; 3; 3] /\ dlq w = [].
Proof. cbv zeta. split; [apply (bool_decide_unpack _); vm_compute; exact I|]. by vm_compute. Qed.

(** Transient errors are dead-lettered while a batch is decomposed.  The
    split answers a retriable error as a failure of its rows, and the caller
    moves every failed row to the dead-letter stream and acknowledges it:
    here message 1, whose only error was a timeout of the store. *)
Theorem timeout_in_split_dead_letters :
  isRetriableStoreError ErrDeadlineExceeded = true /\
  let w := foldl (exec demo_cfg)
    (demo_init [Some bad_row; Some bad_row; Some ErrDeadlineExceeded; None]) (demo_ops dlq_up) in
  dlq w = [1] /\ rows (store w) = [2] /\ pel w = ∅.
Proof. split; [done|]. by vm_compute. Qed.

Lemma demo_ops_ok : Forall op_ok (demo_ops dlq_up).
Proof. repeat constructor. Qed.

Lemma no_message_lost_witness :
  let w := foldl (exec demo_cfg) (demo_init demo_script) (demo_ops dlq_up) in
  2 ∈ delivered w /\ (is_Some (pel w !! 2) \/ 2 ∈ rows (store w) \/ 2 ∈ dlq w) /\ dlq w = [2].
Proof.
  intros w. assert (2 ∈ delivered w) as Hd by (apply (bool_decide_unpack _); vm_compute; exact I).
  split; [exact Hd|]. split; [|by vm_compute].
  apply (no_message_lost demo_cfg (demo_script, []) (NewCircuitBreaker 5 1000) (demo_ops dlq_up)
    demo_ops_ok). exact Hd.
Defined.

Lemma worker_loops_terminate_witness :
  exists w', recoverPending demo_cfg
    (foldl (exec demo_cfg) (demo_init demo_script) (demo_ops dlq_up)) "w" demo_loop = Some w'.
Proof.
  exact (proj1 (worker_loops_terminate demo_cfg (demo_script, []) (NewCircuitBreaker 5 1000)
    (demo_ops dlq_up) "w" demo_loop demo_ops_ok)).
Defined.

(** An open breaker whose timeout is over, and a store that fails. *)
Lemma flush_resolves_probe_witness :
  let w := mkWorld [] [] ∅ ∅ [] ([Some bad_row], []) (mkBreaker CircuitOpen ∅ 0 5 100) {[7 := 1]} [] ∅
    : World Scripted in
  let env := mkTryEnv 200 200 false ROk bad_row ROk (fun _ => ROk) ROk dlq_up in
  (Allow 200 (cb w)).1 = true /\
  state (cb (tryFlush demo_cfg w "w" (mkWorker [mkEntry 7 1] 0 1) env).1) <> CircuitHalfOpen.
Proof.
  split; [reflexivity|]. apply flush_resolves_probe. vm_compute. discriminate.
Defined.

Lemma retained_event_pooled_witness :
  let w := mkWorld [] [] ∅ ∅ [] ([Some bad_row; None; Some bad_row], []) (NewCircuitBreaker 5 1000)
    {[7 := 1; 8 := 2]} [] ∅ : World Scripted in
  let ws := mkWorker [mkEntry 7 1; mkEntry 8 2] 1 1 in
  let env := demo_env (mkDlqEnv (fun _ => true) (fun _ => RFail) (fun _ => ROk)) in
  exists e, e ∈ batch (decompose w ws env 1).2 /\ evt e ∈ pool (decompose w ws env 1).1.
Proof.
  intros w ws env. eapply (retained_event_pooled w ws env 1).
  - vm_compute. reflexivity.
  - apply surjective_pairing.
  - vm_compute. discriminate.
  - vm_compute. discriminate.
Defined.

End Processor.
