(* ===== verification/BrokerWire.v ===== *)
(** * The broker's wire protocol

    Models [pkg/broker/protocol/protocol.go] and [offset.go]: length-prefixed
    frames with a checksum, the requests and responses they carry, and the
    batch iterator.  A decoder panics where Go slices out of range. *)

From S2P Require Import Prelude Wire RedisKeys.
Open Scope Z_scope.

Module BrokerWire.
Import Wire.

(** ** Big-endian accessors and the checksum *)

Definition be_put (n : nat) (v : Z) : list Z := rev (le_put n v).
Definition be_get (bs : list Z) : Z := le_get (rev bs).

Definition ChecksumIEEE (bs : list Z) : Z := RedisKeys.crc32_Update 0 bs.

(** [crc32.Update(crc, IEEETable, data)]. *)
Definition crc32_Update (crc : Z) (data : list Z) : Z := RedisKeys.crc32_Update crc data.

(** A decoder answers, refuses or panics. *)
Inductive Dec (A : Type) := Panic | Err | Ok (x : A).
Arguments Panic {A}.
Arguments Err {A}.
Arguments Ok {A}.

Definition bind {A B} (m : Dec A) (f : A -> Dec B) : Dec B :=
  match m with Panic => Panic | Err => Err | Ok x => f x end.
Notation "x <- m ; f" := (bind m (fun x => f)) (at level 60, m at next level, right associativity).

(** [bs[a:b]]. *)
Definition slice (bs : list Z) (a b : Z) : Dec (list Z) :=
  match sub_checked bs a b with Some s => Ok s | None => Panic end.

(** ** Commands *)

Definition CmdProduce := 1.
Definition CmdFetch := 2.
Definition CmdProduceBatch := 3.
Definition CmdRegisterTopic := 4.
Definition CmdCommitOffset := 5.
Definition CmdCommittedOffset := 6.
Definition CmdProduceResp := 101.
Definition CmdFetchResp := 102.
Definition CmdProduceBatchResp := 103.
Definition CmdRegisterTopicResp := 104.
Definition CmdCommitOffsetResp := 105.
Definition CmdCommittedOffsetResp := 106.

Definition known_commands : list Z :=
  [CmdProduce; CmdFetch; CmdProduceBatch; CmdRegisterTopic; CmdCommitOffset; CmdCommittedOffset;
   CmdProduceResp; CmdFetchResp; CmdProduceBatchResp; CmdRegisterTopicResp;
   CmdCommitOffsetResp; CmdCommittedOffsetResp].

(** ** Frames *)

(** The bytes every encoder writes: length, command, sequence, payload and
    the checksum of the payload. *)
Definition frame (cmd seq : Z) (payload : list Z) : list Z :=
  be_put 4 (u32 (14 + zlen payload)) ++ be_put 2 cmd ++ be_put 8 seq ++ payload ++
  be_put 4 (ChecksumIEEE payload).

(** An encoder fills a prefix of its buffer; a short buffer panics. *)
Definition encode (buf : list Z) (cmd seq : Z) (payload : list Z) : Dec (list Z) :=
  if zlen buf <? 18 + zlen payload then Panic else Ok (frame cmd seq payload).

Definition parseFrame (readBuf : list Z) (length : Z) : Dec (Z * Z * list Z) :=
  if length <? 14 then Err
  else
    c <- slice readBuf 0 2;
    s <- slice readBuf 2 10;
    payload <- slice readBuf 10 (u32 (length - 4));
    sum <- slice readBuf (u32 (length - 4)) (zlen readBuf);
    if (zlen sum <? 4) then Panic
    else if negb (ChecksumIEEE payload =? be_get (take 4 sum)) then Err
    else if existsb (Z.eqb (be_get c)) known_commands then Ok (be_get c, be_get s, payload)
    else Err.

(** [io.ReadFull] on the rest of a stream. *)
Definition ReadFull (input : list Z) (n : Z) : Dec (list Z * list Z) :=
  if zlen input <? n then Err else Ok (take (Z.to_nat n) input, drop (Z.to_nat n) input).

(** [ReadFrame] with a buffer of [bufLen] bytes: the frame and the rest. *)
Definition ReadFrame (input : list Z) (bufLen : Z) : Dec (Z * Z * list Z * list Z) :=
  hdr <- ReadFull input 4;
  let length := be_get hdr.1 in
  if bufLen <? length then Err
  else
    body <- ReadFull hdr.2 length;
    f <- parseFrame body.1 length;
    Ok (f, body.2).

(** [readFullConn]: each read answers some bytes of the connection, possibly
    with an error; [None] when there are no more reads. *)
Fixpoint readFullConn (reads : list (nat * bool)) (input : list Z) (want : nat)
    : option (Dec (list Z * list Z)) :=
  match want, reads with
  | O, _ => Some (Ok ([], input))
  | _, [] => None
  | _, (n, failed) :: reads' =>
      let got := take (Nat.min n want) input in
      if failed then Some Err
      else if (length got =? 0)%nat then Some Err
      else match readFullConn reads' (drop (length got) input) (want - length got) with
      | Some (Ok (more, rest)) => Some (Ok (got ++ more, rest))
      | other => other
      end
  end.

(** ** Produce *)

Definition DecodeProduceRequest (payload : list Z) : Dec (list Z * Z * list Z) :=
  if zlen payload <? 4 then Err
  else
    let topicLen := be_get (take 2 payload) in
    if zlen payload <? 2 + topicLen + 2 then Err
    else
      topic <- slice payload 2 (u16 (2 + topicLen));
      partition <- slice payload (u16 (2 + topicLen)) (u16 (u16 (2 + topicLen) + 2));
      msg <- slice payload (u16 (u16 (2 + topicLen) + 2)) (zlen payload);
      Ok (topic, be_get partition, msg).

Definition produce_payload (topic : list Z) (partition : Z) (payload : list Z) : list Z :=
  be_put 2 (u16 (zlen topic)) ++ topic ++ be_put 2 partition ++ payload.

Definition EncodeProduceRequest (buf : list Z) (seq : Z) (topic : list Z) (partition : Z)
    (payload : list Z) : Dec (list Z) :=
  encode buf CmdProduce seq (produce_payload topic partition payload).

(** ** Fetch *)

Definition DecodeFetchRequest (payload : list Z) : Dec (list Z * Z * Z * Z) :=
  if zlen payload <? 16 then Err
  else
    let topicLen := be_get (take 2 payload) in
    if zlen payload <? 2 + topicLen + 2 + 12 then Err
    else
      topic <- slice payload 2 (u16 (2 + topicLen));
      let pos := 2 + topicLen in
      partition <- slice payload pos (pos + 2);
      offset <- slice payload (pos + 2) (pos + 10);
      maxBytes <- slice payload (pos + 10) (pos + 14);
      Ok (topic, be_get partition, be_get offset, be_get maxBytes).

Definition fetch_payload (topic : list Z) (partition startOffset maxBytes : Z) : list Z :=
  be_put 2 (u16 (zlen topic)) ++ topic ++ be_put 2 partition ++ be_put 8 startOffset ++
  be_put 4 maxBytes.

Definition EncodeFetchRequest buf seq topic partition startOffset maxBytes : Dec (list Z) :=
  encode buf CmdFetch seq (fetch_payload topic partition startOffset maxBytes).

Definition FetchRespMetaLen := 13.

Definition fetch_meta (status msgCount highWatermark : Z) : list Z :=
  [status] ++ be_put 4 msgCount ++ be_put 8 highWatermark.

(** The checksum is taken in two steps, over the meta and then the data. *)
Definition EncodeFetchResponse (frameBuf : list Z) (seq status msgCount highWatermark : Z)
    (data : list Z) : Dec (list Z) :=
  let meta := fetch_meta status msgCount highWatermark in
  let payloadLen := FetchRespMetaLen + zlen data in
  let checksum := match data with
    | [] => ChecksumIEEE meta
    | _ => crc32_Update (ChecksumIEEE meta) data
    end in
  if zlen frameBuf <? 18 + payloadLen then Panic
  else Ok (be_put 4 (u32 (14 + payloadLen)) ++ be_put 2 CmdFetchResp ++ be_put 8 seq ++ meta ++ data ++
           be_put 4 checksum).

Definition DecodeFetchResponseMeta (payload : list Z) : Dec (Z * Z * Z) :=
  if zlen payload <? FetchRespMetaLen then Err
  else Ok (default 0 (head payload), be_get (sub payload 1 5), be_get (sub payload 5 13)).

(** ** Topic registration *)

Definition DecodeRegisterTopicRequest (payload : list Z) : Dec (list Z) :=
  if zlen payload <? 2 then Err
  else
    let topicLen := be_get (take 2 payload) in
    if zlen payload <? 2 + topicLen then Err else slice payload 2 (u16 (2 + topicLen)).

Definition EncodeRegisterTopicRequest buf seq (topic : list Z) : Dec (list Z) :=
  encode buf CmdRegisterTopic seq (be_put 2 (u16 (zlen topic)) ++ topic).

Definition EncodeRegisterTopicResponse buf seq (status topicID : Z) : Dec (list Z) :=
  encode buf CmdRegisterTopicResp seq (status :: be_put 2 topicID).

Definition DecodeRegisterTopicResponse (payload : list Z) : Dec (Z * Z) :=
  if zlen payload <? 3 then Err
  else Ok (default 0 (head payload), be_get (sub payload 1 3)).

(** ** Produce responses *)

Definition EncodeProduceResponse buf seq (status offset : Z) : Dec (list Z) :=
  encode buf CmdProduceResp seq (status :: be_put 8 offset).

Definition EncodeProduceBatchResponse buf seq (status offset committedCount : Z) : Dec (list Z) :=
  encode buf CmdProduceBatchResp seq (status :: be_put 8 offset ++ be_put 4 committedCount).

Definition DecodeProduceBatchResponse (payload : list Z) : Dec (Z * Z * Z) :=
  if zlen payload <? 13 then Err
  else Ok (default 0 (head payload), be_get (sub payload 1 9), be_get (sub payload 9 13)).

(** ** Consumer offsets *)

Definition DecodeOffsetKeyRequest (payload : list Z) : Dec (list Z * Z * list Z) :=
  if zlen payload <? 6 then Err
  else
    let topicLen := be_get (take 2 payload) in
    if zlen payload <? 2 + topicLen + 2 + 2 then Err
    else
      topic <- slice payload 2 (2 + topicLen);
      partition <- slice payload (2 + topicLen) (4 + topicLen);
      groupLen <- slice payload (4 + topicLen) (6 + topicLen);
      let pos := 6 + topicLen in
      if zlen payload <? pos + be_get groupLen then Err
      else
        group <- slice payload pos (pos + be_get groupLen);
        Ok (topic, be_get partition, group).

Definition DecodeCommitOffsetRequest (payload : list Z) : Dec (list Z * Z * list Z * Z) :=
  key <- DecodeOffsetKeyRequest payload;
  let '(topic, partition, group) := key in
  let keyLen := 2 + zlen topic + 2 + 2 + zlen group in
  if zlen payload <? keyLen + 8 then Err
  else
    offset <- slice payload keyLen (keyLen + 8);
    Ok (topic, partition, group, be_get offset).

Definition offset_key (topic : list Z) (partition : Z) (group : list Z) : list Z :=
  be_put 2 (u16 (zlen topic)) ++ topic ++ be_put 2 partition ++ be_put 2 (u16 (zlen group)) ++ group.

Definition EncodeCommitOffsetRequest buf seq topic partition group (offset : Z) : Dec (list Z) :=
  encode buf CmdCommitOffset seq (offset_key topic partition group ++ be_put 8 offset).

Definition EncodeCommittedOffsetRequest buf seq topic partition group : Dec (list Z) :=
  encode buf CmdCommittedOffset seq (offset_key topic partition group).

Definition EncodeCommitOffsetResponse buf seq (status offset : Z) : Dec (list Z) :=
  encode buf CmdCommitOffsetResp seq (status :: be_put 8 offset).

Definition EncodeCommittedOffsetResponse buf seq (status offset : Z) : Dec (list Z) :=
  encode buf CmdCommittedOffsetResp seq (status :: be_put 8 offset).

Definition DecodeCommitOffsetResponse (payload : list Z) : Dec (Z * Z) :=
  if zlen payload <? 9 then Err
  else Ok (default 0 (head payload), be_get (sub payload 1 9)).

Definition DecodeCommittedOffsetResponse (payload : list Z) : Dec (Z * Z) :=
  DecodeCommitOffsetResponse payload.

Definition ValidateConsumerGroup (group : list Z) : bool :=
  (0 <? zlen group) && (zlen group <=? 255).

(** ** Batches *)

(** The header is stored through a pointer: little-endian, with two bytes of
    padding that keep whatever the buffer held. *)
Definition AppendBatchMessage (buf : list Z) (topicID : Z) (payload pad : list Z) : list Z :=
  buf ++ le_put 2 topicID ++ pad ++ le_put 4 (u32 (zlen payload)) ++ payload.

(** [BatchIterator.Next] on what is left: a message and the rest. *)
Definition Next (remaining : list Z) : option (Z * list Z * list Z) :=
  if zlen remaining <? 8 then None
  else
    let payloadLen := le_get (sub remaining 4 8) in
    let totalSize := 8 + payloadLen in
    if zlen remaining <? totalSize then None
    else Some (le_get (take 2 remaining), sub remaining 8 (Z.to_nat totalSize), drop (Z.to_nat totalSize) remaining).

(** The loop of [handleProduceBatch]: every message of a batch. *)
Fixpoint iterate (fuel : nat) (remaining : list Z) : option (list (Z * list Z)) :=
  match fuel with
  | O => None
  | S fuel' =>
      match Next remaining with
      | None => Some []
      | Some (topicID, payload, remaining') =>
          match iterate fuel' remaining' with
          | Some ms => Some ((topicID, payload) :: ms)
          | None => None
          end
      end
  end.

(** ** Lemmas on the pieces *)

Lemma zlen_be_put n v : zlen (be_put n v) = Z.of_nat n.
Proof. unfold zlen, be_put. by rewrite length_rev, length_le_put. Qed.

Lemma be_get_put n v : 0 <= v < 256 ^ Z.of_nat n -> be_get (be_put n v) = v.
Proof. intros H. unfold be_get, be_put. rewrite rev_involutive. by apply le_get_put. Qed.

Lemma be_get_put16 v : in_u16 v -> be_get (be_put 2 v) = v.
Proof. apply (be_get_put 2). Qed.
Lemma be_get_put32 v : in_u32 v -> be_get (be_put 4 v) = v.
Proof. apply (be_get_put 4). Qed.
Lemma be_get_put64 v : in_u64 v -> be_get (be_put 8 v) = v.
Proof. apply (be_get_put 8). Qed.

Lemma be_get_bounds bs : Forall is_byte bs -> 0 <= be_get bs < 256 ^ zlen bs.
Proof.
  intros H. unfold be_get, zlen. rewrite <- (length_rev bs). apply le_get_bounds.
  apply Forall_forall. intros b Hb%list_elem_of_In%in_rev. rewrite Forall_forall in H.
  by apply H, list_elem_of_In.
Qed.

Lemma slice_mid pre x post a b :
  zlen pre = a -> a + zlen x = b -> slice (pre ++ x ++ post) a b = Ok x.
Proof.
  intros <- <-. unfold slice. rewrite sub_checked_ok by (rewrite ?zlen_app; unfold zlen; lia).
  f_equal. unfold zlen. rewrite <- Nat2Z.inj_add, !Nat2Z.id. unfold sub.
  rewrite drop_app_length. replace (length pre + length x - length pre)%nat with (length x) by lia.
  apply take_app_length.
Qed.

Lemma slice_end pre x a b : zlen pre = a -> a + zlen x = b -> slice (pre ++ x) a b = Ok x.
Proof. intros H1 H2. rewrite <- (app_nil_r x) at 1. by apply slice_mid. Qed.

Lemma slice_tail pre x a : zlen pre = a -> slice (pre ++ x) a (zlen (pre ++ x)) = Ok x.
Proof. intros H. apply slice_end; [exact H|]. rewrite zlen_app. lia. Qed.

Lemma slice_head x post b : zlen x = b -> slice (x ++ post) 0 b = Ok x.
Proof. intros H. by apply (slice_mid [] x post 0 b). Qed.

Lemma lxor_u32 a b : in_u32 a -> in_u32 b -> in_u32 (Z.lxor a b).
Proof.
  intros Ha Hb. assert (Z.lxor a b = u32 (Z.lxor a b)) as ->; [|apply u32_range].
  unfold u32. change 4294967296 with (2 ^ 32). apply Z.bits_inj'. intros m Hm.
  destruct (Z.lt_ge_cases m 32) as [Hlt|Hge]; [by rewrite Z.mod_pow2_bits_low|].
  rewrite Z.mod_pow2_bits_high by lia. rewrite Z.lxor_spec.
  assert (forall x, in_u32 x -> Z.testbit x m = false) as Hx.
  { intros x Hx. rewrite <- (Z.mod_small x (2 ^ 32)) by exact Hx. apply Z.mod_pow2_bits_high. lia. }
  by rewrite !Hx.
Qed.

Lemma ieee_bit_range c : in_u32 c -> in_u32 (RedisKeys.ieee_bit c).
Proof.
  intros H. unfold RedisKeys.ieee_bit. assert (in_u32 (Z.shiftr c 1)) as Hs.
  { rewrite Z.shiftr_div_pow2 by lia. change (2 ^ 1) with 2. unfold in_u32 in *.
    split; [apply Z.div_pos; lia|apply Z.div_lt_upper_bound; lia]. }
  case_if; [|exact Hs]. apply lxor_u32; [exact Hs|]. unfold in_u32. lia.
Qed.

Lemma ieee_byte_range c b : in_u32 c -> is_byte b -> in_u32 (RedisKeys.ieee_byte c b).
Proof.
  intros Hc Hb. unfold RedisKeys.ieee_byte.
  assert (in_u32 (Z.lxor c b)) as H by (apply lxor_u32; [exact Hc|unfold is_byte, in_u32 in *; lia]).
  revert H. generalize (Z.lxor c b). intros x Hx. generalize 8%nat. intros n.
  induction n as [|n IH]; [exact Hx|].
  rewrite Nat.iter_succ. by apply ieee_bit_range.
Qed.

Lemma checksum_range bs : Forall is_byte bs -> in_u32 (ChecksumIEEE bs).
Proof.
  intros H. unfold ChecksumIEEE, RedisKeys.crc32_Update. apply lxor_u32; [|unfold in_u32; lia].
  assert (in_u32 (Z.lxor 0 4294967295)) as H0 by (change (Z.lxor 0 4294967295) with 4294967295; unfold in_u32; lia). revert H0.
  generalize (Z.lxor 0 4294967295). induction H as [|b bs Hb _ IH]; intros c Hc; [exact Hc|].
  cbn [foldl]. apply IH. by apply ieee_byte_range.
Qed.

(** The checksum taken in two steps is the checksum of the whole. *)
Lemma checksum_app a b : crc32_Update (ChecksumIEEE a) b = ChecksumIEEE (a ++ b).
Proof.
  unfold crc32_Update, ChecksumIEEE, RedisKeys.crc32_Update. rewrite foldl_app.
  by rewrite Z.lxor_assoc, Z.lxor_nilpotent, Z.lxor_0_r.
Qed.

(** ** Round trips *)

Lemma parseFrame_frame cmd seq payload :
  in_u16 cmd -> existsb (Z.eqb cmd) known_commands = true -> in_u64 seq ->
  Forall is_byte payload -> in_u32 (14 + zlen payload) ->
  parseFrame (be_put 2 cmd ++ be_put 8 seq ++ payload ++ be_put 4 (ChecksumIEEE payload))
    (14 + zlen payload) = Ok (cmd, seq, payload).
Proof.
  intros Hc Hk Hs Hb Hl. pose proof (zlen_nonneg payload) as Hp. unfold parseFrame.
  replace (14 + zlen payload <? 14) with false by lia.
  rewrite (slice_head (be_put 2 cmd)) by apply zlen_be_put. cbn [bind].
  rewrite (slice_mid (be_put 2 cmd) (be_put 8 seq)) by (rewrite ?zlen_be_put; done). cbn [bind].
  rewrite u32_id by (unfold in_u32 in *; lia).
  rewrite (app_assoc (be_put 2 cmd)), (slice_mid (be_put 2 cmd ++ be_put 8 seq) payload)
    by (rewrite ?zlen_app, ?zlen_be_put; lia). cbn [bind].
  rewrite (app_assoc _ payload), slice_tail by (rewrite ?zlen_app, ?zlen_be_put; lia). cbn [bind].
  rewrite zlen_be_put. change (Z.of_nat 4 <? 4) with false. cbv iota.
  rewrite take_ge by (unfold be_put; by rewrite length_rev, length_le_put).
  rewrite be_get_put32 by by apply checksum_range. rewrite Z.eqb_refl. cbn [negb].
  rewrite be_get_put16, be_get_put64 by done. by rewrite Hk.
Qed.

Lemma ReadFrame_frame cmd seq payload rest bufLen :
  in_u16 cmd -> existsb (Z.eqb cmd) known_commands = true -> in_u64 seq ->
  Forall is_byte payload -> 14 + zlen payload <= bufLen -> in_u32 (14 + zlen payload) ->
  ReadFrame (frame cmd seq payload ++ rest) bufLen = Ok (cmd, seq, payload, rest).
Proof.
  intros Hc Hk Hs Hb Hbuf Hl. pose proof (zlen_nonneg payload) as Hp. unfold ReadFrame, frame.
  rewrite <- app_assoc. set (body := be_put 2 cmd ++ be_put 8 seq ++ payload ++ be_put 4 (ChecksumIEEE payload)).
  assert (zlen body = 14 + zlen payload) as Hbody
    by (unfold body; rewrite !zlen_app, !zlen_be_put; lia).
  assert (forall x y, zlen (x : list Z) <= zlen (x ++ y)) as Hle
    by (intros x y; rewrite zlen_app; pose proof (zlen_nonneg y); lia).
  assert (forall x y n, zlen x = n -> ReadFull (x ++ y) n = Ok (x, y)) as Hfull.
  { intros x y n <-. unfold ReadFull. replace (zlen (x ++ y) <? zlen x) with false by (specialize (Hle x y); lia).
    unfold zlen. by rewrite Nat2Z.id, take_app_length, drop_app_length. }
  rewrite (Hfull (be_put 4 _)) by apply zlen_be_put. cbn [bind fst snd].
  rewrite u32_id by done. rewrite be_get_put32 by done.
  replace (bufLen <? 14 + zlen payload) with false by lia.
  rewrite (Hfull body rest) by done. cbn [bind fst snd]. unfold body.
  by rewrite parseFrame_frame.
Qed.

(** The range hypotheses of a request that is encoded and read back. *)
Record fits (buf : list Z) (bufLen seq : Z) (payload : list Z) : Prop := mkFits {
  ft_seq : in_u64 seq; ft_bytes : Forall is_byte payload;
  ft_buf : 18 + zlen payload <= zlen buf; ft_len : 14 + zlen payload <= bufLen;
  ft_u32 : in_u32 (14 + zlen payload)
}.

Lemma encode_read buf bufLen cmd seq payload rest :
  fits buf bufLen seq payload -> in_u16 cmd -> existsb (Z.eqb cmd) known_commands = true ->
  exists bytes, encode buf cmd seq payload = Ok bytes /\
    ReadFrame (bytes ++ rest) bufLen = Ok (cmd, seq, payload, rest).
Proof.
  intros [H1 H2 H3 H4 H5] Hc Hk. unfold encode.
  replace (zlen buf <? 18 + zlen payload) with false by lia.
  eexists. split; [done|]. by apply ReadFrame_frame.
Qed.

Lemma take2_put v rest : in_u16 v -> be_get (take 2 (be_put 2 v ++ rest)) = v.
Proof.
  intros H. rewrite take_app_length'; [by apply be_get_put16|].
  unfold be_put. by rewrite length_rev, length_le_put.
Qed.

Lemma decode_produce topic partition payload :
  zlen topic <= 65531 -> in_u16 partition ->
  DecodeProduceRequest (produce_payload topic partition payload) = Ok (topic, partition, payload).
Proof.
  intros Ht Hp. pose proof (zlen_nonneg topic). pose proof (zlen_nonneg payload).
  unfold DecodeProduceRequest, produce_payload.
  rewrite (u16_id (zlen topic)) by (unfold in_u16; lia).
  rewrite take2_put by (unfold in_u16; lia).
  rewrite !u16_id by (unfold in_u16; rewrite ?u16_id; unfold in_u16; lia).
  set (w := be_put 2 (zlen topic) ++ topic ++ be_put 2 partition ++ payload).
  assert (zlen w = 4 + zlen topic + zlen payload) as Hw by (unfold w; rewrite !zlen_app, !zlen_be_put; lia).
  replace (zlen w <? 4) with false by lia. replace (zlen w <? 2 + zlen topic + 2) with false by lia.
  unfold w. clear Hw w.
  rewrite (slice_mid (be_put 2 _) topic) by (rewrite ?zlen_be_put; lia). cbn [bind].
  rewrite (app_assoc _ topic), (slice_mid _ (be_put 2 partition))
    by (rewrite ?zlen_app, ?zlen_be_put; lia). cbn [bind].
  rewrite (app_assoc _ (be_put 2 partition)), slice_tail by (rewrite ?zlen_app, ?zlen_be_put; lia).
  cbn [bind]. by rewrite be_get_put16.
Qed.

(** A produce request survives the wire.  A client's frame, followed by
    anything, is read back by the server as the same command, sequence,
    topic, partition and message, and the rest of the stream is untouched,
    for every topic of at most 65 531 bytes. *)
Theorem produce_roundtrip buf bufLen seq topic partition payload rest :
  zlen topic <= 65531 -> in_u16 partition ->
  fits buf bufLen seq (produce_payload topic partition payload) ->
  exists bytes body,
    EncodeProduceRequest buf seq topic partition payload = Ok bytes /\
    ReadFrame (bytes ++ rest) bufLen = Ok (CmdProduce, seq, body, rest) /\
    DecodeProduceRequest body = Ok (topic, partition, payload).
Proof.
  intros Ht Hp Hf. destruct (encode_read buf bufLen CmdProduce seq _ rest Hf) as (bytes & E & R); try done.
  eexists _, _. split; [exact E|]. split; [exact R|]. by apply decode_produce.
Qed.

(** ** Topic lengths that wrap *)

Lemma topic_len_range payload :
  Forall is_byte payload -> 2 <= zlen payload -> 0 <= be_get (take 2 payload) < 65536.
Proof.
  intros H Hl. pose proof (be_get_bounds (take 2 payload) ltac:(by apply Forall_take)) as Hb.
  replace (zlen (take 2 payload)) with 2 in Hb; [exact Hb|].
  unfold zlen in *. rewrite length_take. lia.
Qed.

Lemma slice_ok bs a b : 0 <= a <= b -> b <= zlen bs -> exists x, slice bs a b = Ok x.
Proof. intros Ha Hb. unfold slice. rewrite sub_checked_ok by lia. eauto. Qed.

Lemma slice_bad bs a b : b < a -> slice bs a b = Panic.
Proof. intros H. unfold slice, sub_checked. by replace ((0 <=? a) && (a <=? b) && (b <=? zlen bs)) with false by lia. Qed.

Lemma produce_panics payload :
  Forall is_byte payload ->
  65532 <= be_get (take 2 payload) -> 4 + be_get (take 2 payload) <= zlen payload ->
  DecodeProduceRequest payload = Panic.
Proof.
  intros Hb Hc Hl. unfold DecodeProduceRequest. replace (zlen payload <? 4) with false by lia.
  pose proof (topic_len_range payload Hb ltac:(lia)) as Ht.
  set (t := be_get (take 2 payload)) in *. replace (zlen payload <? 2 + t + 2) with false by lia.
  assert (t = 65532 \/ t = 65533 \/ t = 65534 \/ t = 65535) as Hcase by lia.
  destruct (decide (t < 65534)) as [Hlt|Hge].
  - rewrite !(u16_id (2 + t)) by (unfold in_u16; lia).
    destruct (slice_ok payload 2 (2 + t)) as [x ->]; [lia|lia|]. cbn [bind].
    rewrite slice_bad; [done|]. destruct Hcase as [Hx|[Hx|[Hx|Hx]]]; first [lia|rewrite Hx; reflexivity].
  - rewrite slice_bad; [done|]. destruct Hcase as [Hx|[Hx|[Hx|Hx]]]; first [lia|rewrite Hx; reflexivity].
Qed.

(** Which produce requests crash the broker.  The decoder computes its
    slice bounds in 16 bits: it panics exactly on the requests whose topic
    has at least 65 532 bytes and is all there. *)
Theorem decode_produce_panics_iff payload :
  Forall is_byte payload ->
  DecodeProduceRequest payload = Panic <->
  65532 <= be_get (take 2 payload) /\ 4 + be_get (take 2 payload) <= zlen payload.
Proof.
  intros Hb. unfold DecodeProduceRequest. destruct (zlen payload <? 4) eqn:E4.
  - assert (2 <= zlen payload \/ zlen payload < 2) as [H2|H2] by lia.
    + pose proof (topic_len_range payload Hb H2). split; [done|lia].
    + split; [done|]. intros [H1 H3]. lia.
  - pose proof (topic_len_range payload Hb ltac:(lia)) as Ht.
    set (t := be_get (take 2 payload)) in *. destruct (zlen payload <? 2 + t + 2) eqn:El; [split; [done|lia]|].
    assert (t < 65532 \/ t = 65532 \/ t = 65533 \/ t = 65534 \/ t = 65535) as Hc by lia.
    destruct Hc as [Hc|Hc].
    + rewrite !u16_id by (unfold in_u16; rewrite ?u16_id; unfold in_u16; lia).
      destruct (slice_ok payload 2 (2 + t)) as [x ->]; [lia|lia|].
      destruct (slice_ok payload (2 + t) (2 + t + 2)) as [y Ey]; [lia|lia|].
      destruct (slice_ok payload (2 + t + 2) (zlen payload)) as [z Ez]; [lia|lia|].
      cbn [bind]. rewrite Ey. cbn [bind]. rewrite Ez. cbn [bind]. split; [done|lia].
    + split; [intros _; lia|]. intros _. fold t.
      pose proof (produce_panics payload Hb) as Hpan. unfold DecodeProduceRequest in Hpan. fold t in Hpan.
      rewrite E4, El in Hpan. apply Hpan; lia.
Qed.

(** Such a request passes every check before the decoder: the frame of a
    65 532 byte topic is well formed, and decoding it panics. *)
Theorem long_topic_frame_panics buf bufLen seq topic partition payload rest :
  65532 <= zlen topic <= 65535 -> in_u16 partition ->
  fits buf bufLen seq (produce_payload topic partition payload) ->
  exists bytes body,
    EncodeProduceRequest buf seq topic partition payload = Ok bytes /\
    ReadFrame (bytes ++ rest) bufLen = Ok (CmdProduce, seq, body, rest) /\
    DecodeProduceRequest body = Panic.
Proof.
  intros Ht Hp Hf. destruct (encode_read buf bufLen CmdProduce seq _ rest Hf) as (bytes & E & R); try done.
  eexists _, _. split; [exact E|]. split; [exact R|].
  apply produce_panics; [apply Hf|..]; unfold produce_payload;
    rewrite u16_id by (unfold in_u16; lia); rewrite take2_put by (unfold in_u16; lia);
    rewrite ?zlen_app, ?zlen_be_put; pose proof (zlen_nonneg payload); lia.
Qed.

(** ** The other requests *)

Lemma zlen_sum3 (a b c : list Z) : zlen (a ++ b ++ c) = zlen a + zlen b + zlen c.
Proof. rewrite !zlen_app. lia. Qed.

Lemma decode_fetch topic partition startOffset maxBytes :
  zlen topic <= 65533 -> in_u16 partition -> in_u64 startOffset -> in_u32 maxBytes ->
  DecodeFetchRequest (fetch_payload topic partition startOffset maxBytes) =
  Ok (topic, partition, startOffset, maxBytes).
Proof.
  intros Ht Hp Hs Hm. pose proof (zlen_nonneg topic). unfold DecodeFetchRequest, fetch_payload.
  rewrite (u16_id (zlen topic)) by (unfold in_u16; lia). rewrite take2_put by (unfold in_u16; lia).
  rewrite u16_id by (unfold in_u16; lia).
  set (w := be_put 2 (zlen topic) ++ topic ++ be_put 2 partition ++ be_put 8 startOffset ++ be_put 4 maxBytes).
  assert (zlen w = 16 + zlen topic) as Hw by (unfold w; rewrite !zlen_app, !zlen_be_put; lia).
  replace (zlen w <? 16) with false by lia. replace (zlen w <? 2 + zlen topic + 2 + 12) with false by lia.
  unfold w. clear Hw w.
  rewrite (slice_mid (be_put 2 _) topic) by (rewrite ?zlen_be_put; lia). cbn [bind].
  rewrite (app_assoc _ topic), (slice_mid _ (be_put 2 partition)) by (rewrite ?zlen_app, ?zlen_be_put; lia).
  cbn [bind].
  rewrite (app_assoc _ (be_put 2 partition)), (slice_mid _ (be_put 8 startOffset))
    by (rewrite ?zlen_app, ?zlen_be_put; lia). cbn [bind].
  rewrite (app_assoc _ (be_put 8 startOffset)), (slice_end _ (be_put 4 maxBytes))
    by (rewrite ?zlen_app, ?zlen_be_put; lia).
  cbn [bind]. by rewrite be_get_put16, be_get_put64, be_get_put32.
Qed.

Lemma decode_offset_key topic partition group rest :
  zlen topic <= 65535 -> in_u16 partition -> zlen group <= 65535 ->
  DecodeOffsetKeyRequest (offset_key topic partition group ++ rest) = Ok (topic, partition, group).
Proof.
  intros Ht Hp Hg. pose proof (zlen_nonneg topic). pose proof (zlen_nonneg group). pose proof (zlen_nonneg rest).
  unfold DecodeOffsetKeyRequest, offset_key. rewrite !(u16_id (zlen _)) by (unfold in_u16; lia).
  rewrite <- !app_assoc. rewrite take2_put by (unfold in_u16; lia).
  set (w := be_put 2 (zlen topic) ++ topic ++ be_put 2 partition ++ be_put 2 (zlen group) ++ group ++ rest).
  assert (zlen w = 6 + zlen topic + zlen group + zlen rest) as Hw by (unfold w; rewrite !zlen_app, !zlen_be_put; lia).
  replace (zlen w <? 6) with false by lia. replace (zlen w <? 2 + zlen topic + 2 + 2) with false by lia.
  assert (slice w (4 + zlen topic) (6 + zlen topic) = Ok (be_put 2 (zlen group))) as E3.
  { unfold w. rewrite (app_assoc (be_put 2 (zlen topic))), (app_assoc _ (be_put 2 partition)).
    apply slice_mid; rewrite ?zlen_app, ?zlen_be_put; lia. }
  assert (slice w (6 + zlen topic) (6 + zlen topic + zlen group) = Ok group) as E4.
  { unfold w. rewrite (app_assoc (be_put 2 (zlen topic))), (app_assoc _ (be_put 2 partition)),
      (app_assoc _ (be_put 2 (zlen group))). apply slice_mid; rewrite ?zlen_app, ?zlen_be_put; lia. }
  unfold w at 1. rewrite (slice_mid (be_put 2 _) topic) by (rewrite ?zlen_be_put; lia). cbn [bind].
  unfold w at 1. rewrite (app_assoc _ topic), (slice_mid _ (be_put 2 partition))
    by (rewrite ?zlen_app, ?zlen_be_put; lia). cbn [bind].
  rewrite E3. cbn [bind]. rewrite be_get_put16 by (unfold in_u16; lia).
  replace (zlen w <? 6 + zlen topic + zlen group) with false by lia. rewrite E4. cbn [bind].
  by rewrite be_get_put16.
Qed.

Lemma decode_commit topic partition group offset :
  zlen topic <= 65535 -> in_u16 partition -> zlen group <= 65535 -> in_u64 offset ->
  DecodeCommitOffsetRequest (offset_key topic partition group ++ be_put 8 offset) =
  Ok (topic, partition, group, offset).
Proof.
  intros Ht Hp Hg Ho. unfold DecodeCommitOffsetRequest. rewrite decode_offset_key by done. cbn [bind].
  assert (zlen (offset_key topic partition group) = 2 + zlen topic + 2 + 2 + zlen group) as Hk
    by (unfold offset_key; rewrite !zlen_app, !zlen_be_put; lia).
  rewrite zlen_app, zlen_be_put, Hk. change (Z.of_nat 8) with 8. rewrite Z.ltb_irrefl.
  rewrite slice_end by (rewrite ?zlen_be_put; lia). cbn [bind]. by rewrite be_get_put64.
Qed.

(** Fetch and commit requests survive the wire. *)
Theorem fetch_commit_roundtrip buf bufLen seq topic partition group offset maxBytes rest :
  zlen topic <= 65533 -> in_u16 partition -> zlen group <= 65535 -> in_u64 offset -> in_u32 maxBytes ->
  fits buf bufLen seq (fetch_payload topic partition offset maxBytes) ->
  fits buf bufLen seq (offset_key topic partition group ++ be_put 8 offset) ->
  (exists bytes body,
    EncodeFetchRequest buf seq topic partition offset maxBytes = Ok bytes /\
    ReadFrame (bytes ++ rest) bufLen = Ok (CmdFetch, seq, body, rest) /\
    DecodeFetchRequest body = Ok (topic, partition, offset, maxBytes)) /\
  (exists bytes body,
    EncodeCommitOffsetRequest buf seq topic partition group offset = Ok bytes /\
    ReadFrame (bytes ++ rest) bufLen = Ok (CmdCommitOffset, seq, body, rest) /\
    DecodeCommitOffsetRequest body = Ok (topic, partition, group, offset)).
Proof.
  intros Ht Hp Hg Ho Hm Hf1 Hf2. split.
  - destruct (encode_read buf bufLen CmdFetch seq _ rest Hf1) as (bytes & E & R); try done.
    eexists _, _. split; [exact E|]. split; [exact R|]. by apply decode_fetch.
  - destruct (encode_read buf bufLen CmdCommitOffset seq _ rest Hf2) as (bytes & E & R); try done.
    eexists _, _. split; [exact E|]. split; [exact R|]. apply decode_commit; try done. lia.
Qed.

(** ** Batches *)

Lemma Next_shorter remaining t p rest : Next remaining = Some (t, p, rest) ->
  Forall is_byte remaining -> (length rest < length remaining)%nat.
Proof.
  unfold Next. intros H Hb. destruct (_ <? 8) eqn:E8; [done|]. step_if H; [done|]. simplify_eq.
  rewrite length_drop. assert (0 <= le_get (sub remaining 4 8)).
  { apply le_get_bounds. unfold sub. by apply Forall_take, Forall_drop. }
  unfold zlen in *. lia.
Qed.

Lemma iterate_ends fuel : forall remaining,
  Forall is_byte remaining -> (length remaining < fuel)%nat -> is_Some (iterate fuel remaining).
Proof.
  induction fuel as [|fuel IH]; intros remaining Hb Hf; [lia|]. cbn [iterate].
  destruct (Next remaining) as [[[t p] rest]|] eqn:E; [|done].
  pose proof (Next_shorter _ _ _ _ E Hb) as Hl.
  assert (Forall is_byte rest) as Hr.
  { unfold Next in E. destruct (_ <? 8); [done|]. step_if E; [done|]. simplify_eq. by apply Forall_drop. }
  destruct (IH rest Hr ltac:(lia)) as [ms ->]. done.
Qed.

Record BatchMsg := mkBatchMsg { b_topic : Z; b_payload : list Z; b_pad : list Z }.

Definition batch_ok (m : BatchMsg) : Prop :=
  in_u16 (b_topic m) /\ in_u32 (zlen (b_payload m)) /\ length (b_pad m) = 2%nat.

Definition batch_bytes (m : BatchMsg) : list Z := AppendBatchMessage [] (b_topic m) (b_payload m) (b_pad m).

Definition append_all (ms : list BatchMsg) : list Z :=
  foldl (fun buf m => AppendBatchMessage buf (b_topic m) (b_payload m) (b_pad m)) [] ms.

Lemma append_all_app ms : append_all ms = concat (map batch_bytes ms).
Proof.
  unfold append_all. change (concat (map batch_bytes ms)) with ([] ++ concat (map batch_bytes ms)).
  generalize (@nil Z). induction ms as [|m ms IH]; intros buf; cbn [foldl map concat].
  - by rewrite app_nil_r.
  - rewrite IH. unfold batch_bytes, AppendBatchMessage. rewrite app_nil_l, <- !app_assoc. done.
Qed.

Lemma Next_batch m rest : batch_ok m -> Next (batch_bytes m ++ rest) = Some (b_topic m, b_payload m, rest).
Proof.
  intros (Ht & Hl & Hp). unfold batch_bytes, AppendBatchMessage. rewrite app_nil_l, <- !app_assoc.
  rewrite u32_id by done. set (w := _ ++ _). unfold Next.
  assert (zlen w = 8 + zlen (b_payload m) + zlen rest) as Hw.
  { unfold w. rewrite !zlen_app, !zlen_le_put. replace (zlen (b_pad m)) with 2 by (unfold zlen; lia). lia. }
  assert (le_get (sub w 4 8) = zlen (b_payload m)) as E4.
  { unfold w, sub. rewrite (app_assoc (le_put 2 _)).
    rewrite drop_app_length' by (rewrite length_app, length_le_put, Hp; done).
    rewrite take_app_length' by by rewrite length_le_put. by apply get_put32. }
  pose proof (zlen_nonneg (b_payload m)). pose proof (zlen_nonneg rest).
  replace (zlen w <? 8) with false by lia. rewrite E4.
  replace (zlen w <? 8 + zlen (b_payload m)) with false by lia.
  assert (Z.to_nat (8 + zlen (b_payload m)) = (8 + length (b_payload m))%nat) as En by (unfold zlen; lia).
  rewrite En. do 2 f_equal; [f_equal|].
  - unfold w. rewrite take_app_length' by by rewrite length_le_put. by apply get_put16.
  - unfold w, sub. rewrite !(app_assoc (le_put 2 _)), (app_assoc _ (le_put 4 _)).
    rewrite drop_app_length' by (rewrite !length_app, !length_le_put, Hp; done).
    rewrite take_app_length'; [done|lia].
  - unfold w. rewrite !(app_assoc (le_put 2 _)), (app_assoc _ (le_put 4 _)), (app_assoc _ (b_payload m)).
    apply drop_app_length'. rewrite !length_app, !length_le_put, Hp. lia.
Qed.

(** C37: a batch is read back message by message.  Whatever the padding bytes
    hold, the iterator yields the appended messages in order; and on any bytes
    at all its loop ends. *)
Theorem batch_roundtrip ms :
  (forall bytes, Forall is_byte bytes -> is_Some (iterate (S (length bytes)) bytes)) /\
  (Forall batch_ok ms -> forall fuel, (length ms < fuel)%nat ->
    iterate fuel (append_all ms) = Some (map (fun m => (b_topic m, b_payload m)) ms)).
Proof.
  split; [intros bytes Hb; by apply iterate_ends; [|lia]|].
  rewrite append_all_app. induction 1 as [|m ms Hm _ IH]; intros [|fuel] Hf; cbn [length] in Hf; try lia.
  - done.
  - cbn [iterate map concat]. rewrite Next_batch by done. by rewrite IH by lia.
Qed.

(** ** The fetch response *)

(** The fetch response is a well-formed frame although its checksum is
    computed in two steps, and its meta reads back. *)
Theorem fetch_response_roundtrip frameBuf bufLen seq status msgCount highWatermark data rest :
  is_byte status -> in_u32 msgCount -> in_u64 highWatermark ->
  fits frameBuf bufLen seq (fetch_meta status msgCount highWatermark ++ data) ->
  exists bytes body,
    EncodeFetchResponse frameBuf seq status msgCount highWatermark data = Ok bytes /\
    ReadFrame (bytes ++ rest) bufLen = Ok (CmdFetchResp, seq, body, rest) /\
    DecodeFetchResponseMeta body = Ok (status, msgCount, highWatermark) /\ drop 13 body = data.
Proof.
  intros Hs Hm Hh Hf. set (meta := fetch_meta status msgCount highWatermark) in *.
  assert (length meta = 13%nat) as Hl
    by (unfold meta, fetch_meta, be_put; rewrite !length_app, !length_rev, !length_le_put; done).
  assert (zlen (meta ++ data) = FetchRespMetaLen + zlen data) as Hz
    by (rewrite zlen_app; unfold zlen, FetchRespMetaLen; lia).
  destruct Hf as [F1 F2 F3 F4 F5].
  exists (frame CmdFetchResp seq (meta ++ data)), (meta ++ data). split_and!.
  - unfold EncodeFetchResponse, frame. rewrite Hz in F3 |- *.
    replace (zlen frameBuf <? 18 + (FetchRespMetaLen + zlen data)) with false by lia.
    fold meta. rewrite <- (app_assoc meta data).
    assert (match data with [] => ChecksumIEEE meta | _ => crc32_Update (ChecksumIEEE meta) data end =
      ChecksumIEEE (meta ++ data)) as ->; [|done].
    destruct data; [by rewrite app_nil_r|by rewrite checksum_app].
  - by apply ReadFrame_frame.
  - unfold DecodeFetchResponseMeta. rewrite Hz. pose proof (zlen_nonneg data).
    replace (FetchRespMetaLen + zlen data <? FetchRespMetaLen) with false by lia.
    replace (meta ++ data) with (status :: be_put 4 msgCount ++ be_put 8 highWatermark ++ data)
      by (unfold meta, fetch_meta; by rewrite <- !app_assoc).
    assert (forall n v, length (be_put n v) = n) as Hlen
      by (intros; unfold be_put; by rewrite length_rev, length_le_put).
    set (X := be_put 4 msgCount) in *. set (Y := be_put 8 highWatermark) in *.
    change (sub (status :: X ++ Y ++ data) 1 5) with (take 4 (X ++ Y ++ data)).
    change (sub (status :: X ++ Y ++ data) 5 13) with (take 8 (drop 4 (X ++ Y ++ data))).
    rewrite take_app_length' by (symmetry; apply Hlen). rewrite drop_app_length' by (symmetry; apply Hlen).
    rewrite take_app_length' by (symmetry; apply Hlen). unfold X, Y. by rewrite be_get_put32, be_get_put64.
  - apply drop_app_length'. done.
Qed.

(** Reading in chunks of any sizes is reading at once. *)
Lemma readFullConn_chunks reads : forall input want,
  Forall (fun r => (0 < r.1)%nat /\ r.2 = false) reads ->
  (want <= length reads)%nat -> (want <= length input)%nat ->
  readFullConn reads input want = Some (Ok (take want input, drop want input)).
Proof.
  induction reads as [|[n failed] reads IH]; intros input [|want] Hr Hl Hi; try done; [cbn in Hl; lia|].
  apply Forall_cons in Hr as [[Hn Hf] Hr]. cbn in Hn, Hf. subst failed. cbn [readFullConn].
  set (k := Nat.min n (S want)). assert (length (take k input) = k) as Ek by (rewrite length_take; lia).
  rewrite Ek. replace (k =? 0)%nat with false by (symmetry; apply Nat.eqb_neq; lia).
  cbn in Hl. rewrite IH by (try done; rewrite ?length_drop; lia). do 2 f_equal.
  rewrite drop_drop. replace (k + (S want - k))%nat with (S want) by lia. f_equal.
  rewrite <- (take_drop k (take (S want) input)) at 1. rewrite take_take, skipn_firstn_comm.
  by replace (Nat.min k (S want)) with k by lia.
Qed.

(** ** The hypotheses at concrete inputs *)

Definition demo_topic : list Z := [99; 108; 105; 99; 107].

Lemma demo_fits payload n :
  Forall is_byte payload -> 18 + zlen payload <= Z.of_nat n -> in_u32 (Z.of_nat n) ->
  fits (replicate n 0) (Z.of_nat n) 9 payload.
Proof.
  intros Hb Hl Hn. pose proof (zlen_nonneg payload).
  split; [done|done| |lia|unfold in_u32 in *; lia]. unfold zlen in *. rewrite length_replicate. lia.
Qed.

Lemma produce_roundtrip_witness :
  exists bytes body,
    EncodeProduceRequest (replicate 64 0) 9 demo_topic 3 [1; 2; 3] = Ok bytes /\
    ReadFrame (bytes ++ [7]) 64 = Ok (CmdProduce, 9, body, [7]) /\
    DecodeProduceRequest body = Ok (demo_topic, 3, [1; 2; 3]).
Proof.
  apply (produce_roundtrip (replicate 64 0) 64 9 demo_topic 3 [1; 2; 3] [7]);
    [vm_compute; discriminate|by vm_compute|].
  apply (demo_fits _ 64); [apply (bool_decide_unpack _); vm_compute; exact I|vm_compute; discriminate|by vm_compute].
Defined.

Lemma decode_produce_panics_iff_witness :
  DecodeProduceRequest [0; 1; 65; 0; 2; 9] = Panic <->
  65532 <= be_get [0; 1] /\ 4 + be_get [0; 1] <= 6.
Proof.
  apply (decode_produce_panics_iff [0; 1; 65; 0; 2; 9]).
  apply (bool_decide_unpack _); vm_compute; exact I.
Defined.

Lemma long_topic_bytes n topic : 
  topic = replicate n 97 -> Forall is_byte (produce_payload topic 3 []).
Proof.
  intros ->. unfold produce_payload, be_put. rewrite !Forall_app. split_and!.
  - apply Forall_rev, le_put_bytes.
  - apply Forall_replicate. unfold is_byte. lia.
  - apply Forall_rev, le_put_bytes.
  - constructor.
Qed.

Lemma long_topic_frame_panics_witness :
  exists topic bytes body, zlen topic = 65532 /\
    EncodeProduceRequest (replicate (Z.to_nat 66000) 0) 9 topic 3 [] = Ok bytes /\
    ReadFrame (bytes ++ []) 66000 = Ok (CmdProduce, 9, body, []) /\
    DecodeProduceRequest body = Panic.
Proof.
  assert (zlen (replicate (Z.to_nat 65532) 97) = 65532) as Hl
    by (unfold zlen; rewrite length_replicate; rewrite Z2Nat.id; lia).
  destruct (long_topic_frame_panics (replicate (Z.to_nat 66000) 0) 66000 9
    (replicate (Z.to_nat 65532) 97) 3 [] []) as (bytes & body & E & R & D).
  - rewrite Hl. lia.
  - unfold in_u16. lia.
  - replace 66000 with (Z.of_nat (Z.to_nat 66000)) at 2 by (rewrite Z2Nat.id; lia).
    apply demo_fits; [by apply (long_topic_bytes (Z.to_nat 65532))| |].
    + rewrite Z2Nat.id by lia. unfold produce_payload. rewrite !zlen_app, !zlen_be_put, Hl. change (zlen (@nil Z)) with 0. lia.
    + rewrite Z2Nat.id by lia. unfold in_u32. lia.
  - exists (replicate (Z.to_nat 65532) 97), bytes, body. split; [exact Hl|]. split; [exact E|]. by split.
Defined.

Lemma fetch_commit_roundtrip_witness :
  exists bytes body,
    EncodeFetchRequest (replicate 64 0) 9 demo_topic 3 1000 4096 = Ok bytes /\
    ReadFrame (bytes ++ [7]) 64 = Ok (CmdFetch, 9, body, [7]) /\
    DecodeFetchRequest body = Ok (demo_topic, 3, 1000, 4096).
Proof.
  apply (fetch_commit_roundtrip (replicate 64 0) 64 9 demo_topic 3 [103] 1000 4096 [7]);
    try (by vm_compute); try (vm_compute; discriminate);
    (apply (demo_fits _ 64); [apply (bool_decide_unpack _); vm_compute; exact I|vm_compute; discriminate|by vm_compute]).
Defined.

Lemma batch_roundtrip_witness :
  iterate 3 (append_all [mkBatchMsg 5 [1; 2] [0; 0]; mkBatchMsg 6 [] [9; 9]]) = Some [(5, [1; 2]); (6, [])].
Proof.
  apply (proj2 (batch_roundtrip [mkBatchMsg 5 [1; 2] [0; 0]; mkBatchMsg 6 [] [9; 9]])); [|cbn; lia].
  constructor; [|constructor; [|constructor]];
    (split; [unfold in_u16; cbn; lia|split; [by vm_compute|done]]).
Defined.

Lemma fetch_response_roundtrip_witness :
  exists bytes body,
    EncodeFetchResponse (replicate 64 0) 9 0 1 77 [4; 5; 6] = Ok bytes /\
    ReadFrame (bytes ++ [7]) 64 = Ok (CmdFetchResp, 9, body, [7]) /\
    DecodeFetchResponseMeta body = Ok (0, 1, 77) /\ drop 13 body = [4; 5; 6].
Proof.
  apply (fetch_response_roundtrip (replicate 64 0) 64 9 0 1 77 [4; 5; 6] [7]);
    [unfold is_byte; lia|by vm_compute|by vm_compute|].
  apply (demo_fits _ 64); [apply (bool_decide_unpack _); vm_compute; exact I|vm_compute; discriminate|by vm_compute].
Defined.

End BrokerWire.
