(* ===== verification/BrokerLog.v ===== *)
(** * The broker's partition log

    Models [pkg/broker/log/log.go]: memory-mapped segments of length-prefixed
    records with a sparse index, appended to by one writer, rolled when full,
    read by offset and recovered after a restart; and the fencing epoch.  A
    file is its bytes; a mapping is shared, so it is the file.  The disk gate,
    fsync and the delayed close of a rolled segment are not modelled: they do
    not change the bytes. *)

From S2P Require Import Prelude Wire RedisKeys BrokerWire.
Open Scope Z_scope.

Module BrokerLog.
Import Wire BrokerWire.

(** ** Segments *)

Record Segment := mkSegment {
  baseOffset : Z; logSize : Z; indexSize : Z;
  mmapData : list Z; mmapIndex : list Z;
  maxSegSize : Z; maxIdxSize : Z
}.

Definition bytes_at (data : list Z) (pos n : Z) : list Z :=
  take (Z.to_nat n) (drop (Z.to_nat pos) data).
Definition u32_at (data : list Z) (pos : Z) : Z := be_get (bytes_at data pos 4).
Definition u64_at (data : list Z) (pos : Z) : Z := be_get (bytes_at data pos 8).

(** A store through a pointer, inside the mapping. *)
Definition store_at (data : list Z) (pos : Z) (bytes : list Z) : list Z :=
  take (Z.to_nat pos) data ++ bytes ++ drop (Z.to_nat pos + length bytes) data.

(** [Truncate], which also extends with zeros. *)
Definition Truncate (file : list Z) (n : Z) : list Z :=
  take (Z.to_nat n) file ++ replicate (Z.to_nat n - length file) 0.

(** The loop of [findActualIndexSize], from entry [i] on. *)
Fixpoint count_entries (n : nat) (idxData : list Z) (base i : Z) (lastOffset : option Z) : Z :=
  match n with
  | O => 0
  | S n' =>
      let off := u64_at idxData (i * 16) in
      let pos := i64 (u64_at idxData (i * 16 + 8)) in
      if (off =? 0) && (pos =? 0) && (0 <? i) then 0
      else if off <? base then 0
      else if pos <? 0 then 0
      else if match lastOffset with Some l => off <=? l | None => false end then 0
      else 1 + count_entries n' idxData base (i + 1) (Some off)
  end.

Definition findActualIndexSize (idxData : list Z) (base : Z) : Z :=
  let numEntries := zlen idxData / 16 in
  count_entries (Z.to_nat numEntries) idxData base 0 None * 16.

Definition max_index_size (maxSeg indexInterval : Z) : Z :=
  let indexInterval := if indexInterval <=? 0 then 4096 else indexInterval in
  (maxSeg / indexInterval + 100) * 16.

(** [NewSegment] over the contents of its two files. *)
Definition NewSegment (logFile idxFile : list Z) (base maxSeg indexInterval : Z) (writeable : bool)
    : Segment :=
  let logSize := zlen logFile in
  let indexSize := if 0 <? zlen idxFile then findActualIndexSize idxFile base else zlen idxFile in
  let maxIdx := max_index_size maxSeg indexInterval in
  if writeable then
    let logFile := if logSize <? maxSeg then Truncate logFile maxSeg else logFile in
    let idxFile := if indexSize <? maxIdx then Truncate idxFile maxIdx else idxFile in
    mkSegment base logSize indexSize (take (Z.to_nat maxSeg) logFile)
      (take (Z.to_nat maxIdx) idxFile) maxSeg maxIdx
  else
    mkSegment base logSize indexSize logFile (take (Z.to_nat indexSize) idxFile) maxSeg maxIdx.

(** The on-disk record. *)
Definition record_bytes (offset : Z) (payload : list Z) : list Z :=
  be_put 4 (u32 (8 + zlen payload)) ++ be_put 8 offset ++ payload.

Definition entry_bytes (offset position : Z) : list Z := be_put 8 offset ++ be_put 8 (u64 position).

Definition with_log (s : Segment) (size : Z) (data : list Z) : Segment :=
  mkSegment (baseOffset s) size (indexSize s) data (mmapIndex s) (maxSegSize s) (maxIdxSize s).
Definition with_index (s : Segment) (size : Z) (idx : list Z) : Segment :=
  mkSegment (baseOffset s) (logSize s) size (mmapData s) idx (maxSegSize s) (maxIdxSize s).

(** [Write]: the position of the record; [None] is "segment space exhausted". *)
Definition Write (s : Segment) (offset : Z) (payload : list Z) : option (Z * Segment) :=
  let totalLen := 12 + zlen payload in
  let pos := logSize s in
  if maxSegSize s <? pos + totalLen then None
  else Some (pos, with_log s (pos + totalLen) (store_at (mmapData s) pos (record_bytes offset payload))).

Definition WriteIndexEntry (s : Segment) (offset position : Z) : option Segment :=
  if maxIdxSize s <? indexSize s + 16 then None
  else Some (with_index s (indexSize s + 16) (store_at (mmapIndex s) (indexSize s) (entry_bytes offset position))).

(** The binary search of [FindPosition]; [None] is fuel exhausted. *)
Fixpoint search (fuel : nat) (idx : list Z) (offset low high bestPos : Z) : option Z :=
  match fuel with
  | O => None
  | S fuel' =>
      if low <=? high then
        let mid := Z.quot (low + high) 2 in
        if u64_at idx (mid * 16) <=? offset
        then search fuel' idx offset (mid + 1) high (i64 (u64_at idx (mid * 16 + 8)))
        else search fuel' idx offset low (mid - 1) bestPos
      else Some bestPos
  end.

Definition FindPosition (s : Segment) (offset : Z) : option Z :=
  let n := Z.quot (indexSize s) 16 in
  if n =? 0 then Some 0 else search (Z.to_nat n + 1) (mmapIndex s) offset 0 (n - 1) 0.

(** The scan of [Recover]; [None] is fuel exhausted. *)
Fixpoint scan (fuel : nat) (data : list Z) (currentOffset currentPos : Z) : option (Z * Z) :=
  match fuel with
  | O => None
  | S fuel' =>
      if currentPos + 12 <=? zlen data then
        let length := u32_at data currentPos in
        let offset := u64_at data (currentPos + 4) in
        if (length =? 0) && (offset =? 0) then Some (currentOffset, currentPos)
        else
          let payloadLen := length - 8 in
          if (payloadLen <? 0) || (zlen data <? currentPos + 12 + payloadLen)
          then Some (currentOffset, currentPos)
          else scan fuel' data (offset +u64 1) (currentPos + (12 + payloadLen))
      else Some (currentOffset, currentPos)
  end.

(** [Recover]: the next offset, and the segment over the truncated files. *)
Definition Recover (s : Segment) : option (Z * Segment) :=
  let idxSize := if 0 <? zlen (mmapIndex s) then findActualIndexSize (mmapIndex s) (baseOffset s)
                 else zlen (mmapIndex s) in
  let '(lastIdxOffset, lastIdxPos) :=
    if 16 <=? idxSize then (u64_at (mmapIndex s) (idxSize - 16), i64 (u64_at (mmapIndex s) (idxSize - 8)))
    else (baseOffset s, 0) in
  match scan (length (mmapData s) + 1) (mmapData s) lastIdxOffset lastIdxPos with
  | None => None
  | Some (currentOffset, currentPos) =>
      let logFile := Truncate (mmapData s) currentPos in
      if zlen (mmapData s) =? maxSegSize s then
        Some (currentOffset, mkSegment (baseOffset s) currentPos idxSize
          (Truncate logFile (maxSegSize s)) (Truncate (mmapIndex s) (maxIdxSize s)) (maxSegSize s) (maxIdxSize s))
      else
        Some (currentOffset, mkSegment (baseOffset s) currentPos idxSize logFile
          (take (Z.to_nat idxSize) (mmapIndex s)) (maxSegSize s) (maxIdxSize s))
  end.

(** The loop of [LocateMessages]; [target] is the target position when found.
    The outer [None] is fuel exhausted. *)
Fixpoint locate (fuel : nat) (data : list Z) (logSize startOffset maxBytes currentPos : Z)
    (target : option Z) (msgCount total : Z) : option (option Z * Z * Z) :=
  match fuel with
  | O => None
  | S fuel' =>
      if currentPos + 12 <=? logSize then
        let length := u32_at data currentPos in
        let offset := u64_at data (currentPos + 4) in
        let payloadLen := length - 8 in
        if payloadLen <? 0 then Some (target, msgCount, total)
        else
          let recordLen := 12 + payloadLen in
          if logSize <? currentPos + recordLen then Some (target, msgCount, total)
          else if startOffset <=? offset then
            let target' := match target with None => Some currentPos | _ => target end in
            if (maxBytes <? total +u32 u32 recordLen) && (0 <? msgCount)
            then Some (target', msgCount, total)
            else
              let total' := total +u32 u32 recordLen in
              if maxBytes <=? total' then Some (target', msgCount +u32 1, total')
              else locate fuel' data logSize startOffset maxBytes (currentPos + recordLen)
                     target' (msgCount +u32 1) total'
          else
            match target with
            | Some _ => if maxBytes <=? total then Some (target, msgCount, total)
                        else locate fuel' data logSize startOffset maxBytes (currentPos + recordLen) target msgCount total
            | None => locate fuel' data logSize startOffset maxBytes (currentPos + recordLen) target msgCount total
            end
      else Some (target, msgCount, total)
  end.

Definition LocateMessages (s : Segment) (indexPos startOffset maxBytes : Z) : option (option Z * Z * Z) :=
  locate (Z.to_nat (logSize s) + 1) (mmapData s) (logSize s) startOffset maxBytes indexPos None 0 0.

(** ** Partition logs *)

Record PartitionLog := mkLog {
  segments : list Segment;    (* the snapshot; the last one is active *)
  nextOffset : Z; bytesSinceIdx : Z;
  indexInterval : Z; logMaxSegSize : Z;
  fencingEpoch : Z;           (* in memory *)
  epochFile : option Z        (* on disk *)
}.

Definition with_segments (p : PartitionLog) segs next since : PartitionLog :=
  mkLog segs next since (indexInterval p) (logMaxSegSize p) (fencingEpoch p) (epochFile p).
Definition with_epoch (p : PartitionLog) mem disk : PartitionLog :=
  mkLog (segments p) (nextOffset p) (bytesSinceIdx p) (indexInterval p) (logMaxSegSize p) mem disk.

(** [rollLockedInner]. *)
Definition roll (p : PartitionLog) : PartitionLog :=
  match last (segments p) with
  | None => p
  | Some active =>
      let logFile := Truncate (mmapData active) (logSize active) in
      let idxFile := Truncate (mmapIndex active) (indexSize active) in
      let readOnly := NewSegment logFile idxFile (baseOffset active) (logMaxSegSize p) (indexInterval p) false in
      let new := NewSegment [] [] (nextOffset p) (logMaxSegSize p) (indexInterval p) true in
      with_segments p (take (length (segments p) - 1) (segments p) ++ [readOnly; new]) (nextOffset p) 0
  end.

Inductive LogError := ErrSpaceExhausted | ErrIndexExhausted | ErrStaleFencingEpoch | ErrReplicationGap.

Definition replace_last (segs : list Segment) (s : Segment) : list Segment :=
  take (length segs - 1) segs ++ [s].

(** [appendPayloadLockedInner], after the epoch part. *)
Definition append_record (p : PartitionLog) (offset : Z) (payload : list Z) : PartitionLog * (LogError + Z) :=
  let totalLen := 12 + zlen payload in
  let rolled := match last (segments p) with
    | Some active => logMaxSegSize p <? logSize active + totalLen
    | None => false
    end in
  let p := if rolled then roll p else p in
  match last (segments p) with
  | None => (p, inl ErrSpaceExhausted)
  | Some active =>
      match Write active offset payload with
      | None => (p, inl ErrSpaceExhausted)
      | Some (pos, active1) =>
          let p1 := with_segments p (replace_last (segments p) active1) (offset +u64 1)
                      (bytesSinceIdx p + totalLen) in
          if indexInterval p <=? bytesSinceIdx p1 then
            match WriteIndexEntry active1 offset pos with
            | None => (p1, inl ErrIndexExhausted)
            | Some active2 =>
                (with_segments p1 (replace_last (segments p1) active2) (nextOffset p1) 0, inr offset)
            end
          else (p1, inr offset)
      end
  end.

Definition appendPayloadLockedInner (p : PartitionLog) (offset : Z) (payload : list Z)
    (trackEpoch : bool) (epoch : Z) : PartitionLog * (LogError + Z) :=
  let p := if trackEpoch && (fencingEpoch p <? epoch) then with_epoch p epoch (Some epoch) else p in
  append_record p offset payload.

Definition Append (p : PartitionLog) (payload : list Z) : PartitionLog * (LogError + Z) :=
  appendPayloadLockedInner p (nextOffset p) payload false 0.

Definition AppendReplicatedAt (p : PartitionLog) (expectedOffset : Z) (payload : list Z)
    : PartitionLog * (LogError + Z) :=
  if expectedOffset <? nextOffset p then (p, inr expectedOffset)
  else if nextOffset p <? expectedOffset then (p, inl ErrReplicationGap)
  else appendPayloadLockedInner p expectedOffset payload false 0.

(** The fence check of [AppendFenced], made before the lock is taken, and
    the append made under it. *)
Definition fence_passes (p : PartitionLog) (epoch : Z) : bool := negb (epoch <? fencingEpoch p).
Definition fenced_append (p : PartitionLog) (epoch : Z) (payload : list Z) : PartitionLog * (LogError + Z) :=
  appendPayloadLockedInner p (nextOffset p) payload true epoch.

Definition AppendFenced (p : PartitionLog) (epoch : Z) (payload : list Z) : PartitionLog * (LogError + Z) :=
  if epoch =? 0 then appendPayloadLockedInner p (nextOffset p) payload false 0
  else if fence_passes p epoch then fenced_append p epoch payload
  else (p, inl ErrStaleFencingEpoch).

(** [AdvanceFencingEpoch] is a compare-and-swap that may lose, then a write
    of the epoch file. *)
Definition advance_cas (p : PartitionLog) (epoch : Z) : PartitionLog * bool :=
  if epoch <=? fencingEpoch p then (p, false) else (with_epoch p epoch (epochFile p), true).
Definition persistFencingEpoch (p : PartitionLog) (epoch : Z) : PartitionLog :=
  with_epoch p (fencingEpoch p) (Some epoch).
Definition AdvanceFencingEpoch (p : PartitionLog) (epoch : Z) : PartitionLog :=
  let '(p', won) := advance_cas p epoch in if won then persistFencingEpoch p' epoch else p'.

(** [ReadRawMessages]: [None] is an exhausted fuel or a panic, the inner
    [None] is "segment not found" or end of file. *)
Definition ReadRawMessages (p : PartitionLog) (startOffset maxBytes : Z) : option (option (list Z)) :=
  match last (filter (fun s => baseOffset s <= startOffset) (segments p)) with
  | None => Some None
  | Some seg =>
      match FindPosition seg startOffset with
      | None => None
      | Some pos =>
          match LocateMessages seg pos startOffset maxBytes with
          | None => None
          | Some (None, _, _) => Some None
          | Some (Some targetPos, _, total) =>
              if total =? 0 then Some None else Some (Some (bytes_at (mmapData seg) targetPos total))
          end
      end
  end.

(** [loadSegments] over the files of the directory, in offset order. *)
Definition load_sealed (maxSeg interval : Z) (f : Z * list Z * list Z) : Segment :=
  let '(base, logFile, idxFile) := f in NewSegment logFile idxFile base maxSeg interval false.

Definition loadSegments (files : list (Z * list Z * list Z)) (maxSeg interval : Z) (epoch : option Z)
    : option PartitionLog :=
  let files := match files with [] => [(0, [], [])] | _ => files end in
  let sealed := map (load_sealed maxSeg interval) (take (length files - 1) files) in
  match last files with
  | None => None
  | Some (base, logFile, idxFile) =>
      match Recover (NewSegment logFile idxFile base maxSeg interval true) with
      | None => None
      | Some (next, active) =>
          Some (mkLog (sealed ++ [active]) next 0 interval maxSeg (default 0 epoch) epoch)
      end
  end.

(** What a restart finds on disk. *)
Definition files_of (p : PartitionLog) : list (Z * list Z * list Z) :=
  map (fun s => (baseOffset s, mmapData s, mmapIndex s)) (segments p).

Definition restart (p : PartitionLog) : option PartitionLog :=
  loadSegments (files_of p) (logMaxSegSize p) (indexInterval p) (epochFile p).

(** ** Reading back bytes *)

Lemma bytes_at_mid pre x post pos n :
  zlen pre = pos -> zlen x = n -> bytes_at (pre ++ x ++ post) pos n = x.
Proof.
  intros <- <-. unfold bytes_at, zlen. by rewrite !Nat2Z.id, drop_app_length, take_app_length.
Qed.

Lemma bytes_at_head x post n : zlen x = n -> bytes_at (x ++ post) 0 n = x.
Proof. apply (bytes_at_mid [] x post 0 n). done. Qed.

Lemma bytes_at_drop data pos i n : 0 <= pos -> 0 <= i ->
  bytes_at data (pos + i) n = bytes_at (drop (Z.to_nat pos) data) i n.
Proof. intros Hp Hi. unfold bytes_at. by rewrite drop_drop, Z2Nat.inj_add. Qed.

Lemma store_at_end pre old new post :
  length old = length new -> store_at (pre ++ old ++ post) (zlen pre) new = pre ++ new ++ post.
Proof.
  intros H. unfold store_at, zlen. rewrite Nat2Z.id, take_app_length. do 2 f_equal.
  rewrite app_assoc, drop_app_length'; [done|]. rewrite length_app. lia.
Qed.

Lemma be_get_zeros n : be_get (replicate n 0) = 0.
Proof.
  unfold be_get. replace (rev (replicate n 0)) with (replicate n 0).
  - induction n; simpl; lia.
  - induction n as [|n IH]; [done|]. simpl. rewrite <- IH, replicate_cons_app. done.
Qed.

Lemma bytes_at_zeros m pos n : 0 <= pos -> 0 <= n -> pos + n <= Z.of_nat m ->
  bytes_at (replicate m 0) pos n = replicate (Z.to_nat n) 0.
Proof.
  intros Hp Hn Hm. unfold bytes_at. rewrite drop_replicate, take_replicate. f_equal. lia.
Qed.

Lemma zlen_Truncate file n : 0 <= n -> zlen (Truncate file n) = n.
Proof. intros H. unfold Truncate, zlen. rewrite length_app, length_take, length_replicate. lia. Qed.

Lemma Truncate_app pre post n : zlen pre = n -> Truncate (pre ++ post) n = pre.
Proof.
  intros <-. unfold Truncate, zlen. rewrite Nat2Z.id, take_app_length, length_app.
  replace (length pre - (length pre + length post))%nat with 0%nat by lia. by rewrite app_nil_r.
Qed.

Lemma Truncate_same file n : zlen file = n -> Truncate file n = file.
Proof. intros H. rewrite <- (app_nil_r file) at 1. by apply Truncate_app. Qed.

Lemma Truncate_extend file n : zlen file <= n ->
  Truncate file n = file ++ replicate (Z.to_nat n - length file) 0.
Proof. intros H. unfold Truncate. rewrite take_ge; [done|unfold zlen in H; lia]. Qed.

(** ** Records *)

(** The bytes of consecutive records, the first at offset [base]. *)
Fixpoint layout (base : Z) (recs : list (list Z)) : list Z :=
  match recs with
  | [] => []
  | r :: rest => record_bytes base r ++ layout (base + 1) rest
  end.

Lemma layout_cons base r rest : layout base (r :: rest) = record_bytes base r ++ layout (base + 1) rest.
Proof. done. Qed.

Definition rec_len (r : list Z) : Z := 12 + zlen r.
Definition size (recs : list (list Z)) : Z := sumZ (map rec_len recs).

Lemma zlen_record base r : zlen (record_bytes base r) = rec_len r.
Proof. unfold record_bytes, rec_len. rewrite !zlen_app, !zlen_be_put. lia. Qed.

Lemma rec_len_pos r : 12 <= rec_len r.
Proof. unfold rec_len. pose proof (zlen_nonneg r). lia. Qed.

Lemma size_app a b : size (a ++ b) = size a + size b.
Proof. unfold size. by rewrite map_app, sumZ_app. Qed.

Lemma size_cons r b : size (r :: b) = rec_len r + size b.
Proof. done. Qed.

Lemma size_count recs : 12 * zlen recs <= size recs.
Proof.
  induction recs as [|r recs IH]; [done|]. rewrite size_cons. pose proof (rec_len_pos r).
  unfold zlen in *. simpl length. lia.
Qed.

Lemma size_split k recs : size recs = size (take k recs) + size (drop k recs).
Proof. rewrite <- size_app. by rewrite take_drop. Qed.

Lemma size_nonneg recs : 0 <= size recs.
Proof. pose proof (size_count recs). pose proof (zlen_nonneg recs). lia. Qed.

Lemma size_take k recs : 0 <= size (take k recs) <= size recs.
Proof. rewrite (size_split k recs). pose proof (size_nonneg (take k recs)). pose proof (size_nonneg (drop k recs)). lia. Qed.

Lemma size_take_S k recs r : recs !! k = Some r -> size (take (S k) recs) = size (take k recs) + rec_len r.
Proof. intros H. rewrite (take_S_r _ _ _ H), size_app, size_cons. unfold size at 2. simpl. lia. Qed.

Lemma zlen_layout recs : forall base, zlen (layout base recs) = size recs.
Proof.
  induction recs as [|r recs IH]; intros base; [done|].
  by rewrite layout_cons, zlen_app, zlen_record, IH.
Qed.

Lemma layout_app a : forall base b, layout base (a ++ b) = layout base a ++ layout (base + zlen a) b.
Proof.
  induction a as [|r a IH]; intros base b.
  - change (zlen (@nil (list Z))) with 0. by rewrite Z.add_0_r.
  - rewrite <- app_comm_cons, !layout_cons, IH, <- app_assoc. do 3 f_equal. unfold zlen. simpl length. lia.
Qed.

(** The mapping at the position of record [k]. *)
Lemma drop_layout base recs k tail : (k <= length recs)%nat ->
  drop (Z.to_nat (size (take k recs))) (layout base recs ++ tail)
  = layout (base + Z.of_nat k) (drop k recs) ++ tail.
Proof.
  intros Hk. rewrite <- (take_drop k recs) at 2. rewrite layout_app, <- app_assoc.
  rewrite <- (zlen_layout (take k recs) base) at 1. unfold zlen at 1.
  rewrite Nat2Z.id, drop_app_length. unfold zlen. by rewrite length_take, Nat.min_l.
Qed.

Lemma record_at base recs k r tail :
  recs !! k = Some r -> rec_len r < 2147483648 -> in_u64 (base + Z.of_nat k) ->
  let data := layout base recs ++ tail in
  let pos := size (take k recs) in
  u32_at data pos = 8 + zlen r /\ u64_at data (pos + 4) = base + Z.of_nat k
  /\ pos + rec_len r <= zlen data.
Proof.
  intros Hr Hlen Ho data pos. pose proof (lookup_lt_Some _ _ _ Hr) as Hk.
  pose proof (size_take k recs) as Hpos. pose proof (zlen_nonneg r) as Hr0. unfold rec_len in Hlen.
  assert (drop (Z.to_nat pos) data
          = be_put 4 (8 + zlen r) ++ be_put 8 (base + Z.of_nat k)
            ++ r ++ layout (base + Z.of_nat k + 1) (drop (S k) recs) ++ tail) as Hd.
  { unfold pos, data. rewrite drop_layout by lia. rewrite (drop_S _ _ _ Hr), layout_cons.
    unfold record_bytes. rewrite u32_id by go_lia. by rewrite <- !app_assoc. }
  unfold u32_at, u64_at. rewrite <- (Z.add_0_r pos) at 1. fold pos in Hpos.
  rewrite !bytes_at_drop, Hd by lia. split; [|split].
  - rewrite bytes_at_head by (rewrite ?zlen_be_put; done).
    apply be_get_put32. go_lia.
  - rewrite bytes_at_mid by (rewrite ?zlen_be_put; done). by apply be_get_put64.
  - unfold data. rewrite zlen_app, zlen_layout. pose proof (zlen_nonneg tail).
    pose proof (size_take (S k) recs). rewrite (size_take_S _ _ _ Hr) in *. fold pos in H0. lia.
Qed.

(** ** Index entries *)


Definition entries (slots : list (Z * Z)) : list Z :=
  mjoin (map (fun e => entry_bytes (fst e) (snd e)) slots).

Definition slot_range (e : Z * Z) : Prop := in_u64 (fst e) /\ 0 <= snd e <= max_i64.

Lemma length_entry o p : length (entry_bytes o p) = 16%nat.
Proof.
  unfold entry_bytes. rewrite length_app. unfold be_put. by rewrite !length_rev, !length_le_put.
Qed.

Lemma entries_app a b : entries (a ++ b) = entries a ++ entries b.
Proof. unfold entries. by rewrite map_app, join_app. Qed.

Lemma entries_cons e b : entries (e :: b) = entry_bytes (fst e) (snd e) ++ entries b.
Proof. done. Qed.

Lemma length_entries slots : length (entries slots) = (16 * length slots)%nat.
Proof.
  induction slots as [|e l IH]; [done|]. rewrite entries_cons, length_app, length_entry, IH.
  simpl length. lia.
Qed.

Lemma zlen_entries slots : zlen (entries slots) = 16 * zlen slots.
Proof. unfold zlen. rewrite length_entries. lia. Qed.

Lemma take_entries n slots : take (16 * n) (entries slots) = entries (take n slots).
Proof.
  destruct (decide (n <= length slots)%nat).
  - rewrite <- (take_drop n slots) at 1. rewrite entries_app. apply take_app_length'.
    rewrite length_entries, length_take. lia.
  - rewrite !take_ge by (rewrite ?length_entries; lia). done.
Qed.

Lemma entries_zeros n : entries (replicate n (0, 0)) = replicate (16 * n) 0.
Proof.
  induction n as [|n IH]; [done|]. change (replicate (S n) (0, 0)) with ((0, 0) :: replicate n (0, 0)).
  rewrite entries_cons, IH. replace (16 * S n)%nat with (16 + 16 * n)%nat by lia.
  rewrite replicate_add. by f_equal.
Qed.

Lemma entry_at slots i e : slots !! i = Some e -> slot_range e ->
  u64_at (entries slots) (Z.of_nat i * 16) = fst e
  /\ i64 (u64_at (entries slots) (Z.of_nat i * 16 + 8)) = snd e.
Proof.
  intros He [Ho Hp]. rewrite <- (take_drop_middle _ _ _ He), entries_app, entries_cons.
  assert (zlen (entries (take i slots)) = Z.of_nat i * 16) as Hl.
  { apply lookup_lt_Some in He. unfold zlen. rewrite length_entries, length_take. lia. }
  unfold entry_bytes, u64_at. rewrite <- !app_assoc. split.
  - rewrite bytes_at_mid by (rewrite ?zlen_be_put; done). by apply be_get_put64.
  - rewrite app_assoc.
    rewrite bytes_at_mid by (rewrite ?zlen_app, ?zlen_be_put; lia).
    rewrite be_get_put64 by apply u64_range. apply i64_u64. go_lia.
Qed.

(** The slot read by index [i]. *)
Lemma slot_at slots i : (i < length slots)%nat -> Forall slot_range slots ->
  u64_at (entries slots) (Z.of_nat i * 16) = fst (slots !!! i)
  /\ i64 (u64_at (entries slots) (Z.of_nat i * 16 + 8)) = snd (slots !!! i).
Proof.
  intros Hi Hr. destruct (lookup_lt_is_Some_2 _ _ Hi) as [e He].
  rewrite (list_lookup_total_correct _ _ _ He). apply entry_at; [done|].
  rewrite Forall_lookup in Hr. eauto.
Qed.

Lemma store_entry slots n o p : (n < length slots)%nat ->
  store_at (entries slots) (16 * Z.of_nat n) (entry_bytes o p) = entries (<[n := (o, p)]> slots).
Proof.
  intros Hn. destruct (lookup_lt_is_Some_2 _ _ Hn) as [e He].
  rewrite <- (take_drop_middle _ _ _ He) at 1. rewrite entries_app, entries_cons.
  replace (16 * Z.of_nat n) with (zlen (entries (take n slots)))
    by (unfold zlen; rewrite length_entries, length_take; lia).
  rewrite store_at_end by (by rewrite !length_entry).
  rewrite insert_take_drop by done. by rewrite entries_app, entries_cons.
Qed.

(** What [findActualIndexSize] accepts at entry [j]. *)
Definition accepts (base : Z) (slots : list (Z * Z)) (j : nat) : Prop :=
  let e := slots !!! j in
  ~ (fst e = 0 /\ snd e = 0 /\ (0 < j)%nat) /\ base <= fst e /\ 0 <= snd e
  /\ (forall i, j = S i -> fst (slots !!! i) < fst e).

Definition prev_offset (slots : list (Z * Z)) (i : nat) : option Z :=
  match i with O => None | S j => Some (fst (slots !!! j)) end.

Lemma count_spec base slots : Forall slot_range slots -> forall n i,
  (i + n = length slots)%nat ->
  exists c, count_entries n (entries slots) base (Z.of_nat i) (prev_offset slots i) = Z.of_nat c
    /\ (i + c <= length slots)%nat
    /\ (forall j, (i <= j < i + c)%nat -> accepts base slots j)
    /\ ((i + c < length slots)%nat -> ~ accepts base slots (i + c)).
Proof.
  intros Hr. induction n as [|n IH]; intros i Hi.
  { exists 0%nat. repeat split; try lia. }
  assert (i < length slots)%nat as Hlt by lia.
  destruct (slot_at slots i Hlt Hr) as [Ho Hp].
  assert (accepts base slots i \/ ~ accepts base slots i) as Hdec.
  { unfold accepts. destruct i as [|i'].
    - destruct (decide (base <= fst (slots !!! 0%nat) /\ 0 <= snd (slots !!! 0%nat))); [left|right]; intuition lia.
    - destruct (decide (~ (fst (slots !!! S i') = 0 /\ snd (slots !!! S i') = 0)
          /\ base <= fst (slots !!! S i') /\ 0 <= snd (slots !!! S i')
          /\ fst (slots !!! i') < fst (slots !!! S i'))) as [H|H]; [left|right].
      + repeat split; try tauto; try lia. intros j [= ->]. tauto.
      + intros (H1 & H2 & H3 & H4). apply H. repeat split; auto. intros [? ?]. apply H1. repeat split; auto. lia. }
  cbn [count_entries]. rewrite Ho, Hp.
  destruct Hdec as [Hacc|Hrej].
  - destruct (IH (S i)) as (c & Hc & Hle & Hall & Hrej); [lia|].
    exists (S c). rewrite <- Nat.add_succ_comm in *. split; [|split; [done|split]].
    + replace (Z.of_nat (S c)) with (1 + Z.of_nat c) by lia. rewrite <- Hc.
      destruct Hacc as (Hz & Hb & Hp0 & Hprev).
      replace ((fst (slots !!! i) =? 0) && (snd (slots !!! i) =? 0) && (0 <? Z.of_nat i)) with false
        by (symmetry; apply not_true_is_false; intros H; apply Hz; lia).
      replace (fst (slots !!! i) <? base) with false by lia.
      replace (snd (slots !!! i) <? 0) with false by lia.
      replace (Z.of_nat i + 1) with (Z.of_nat (S i)) by lia. cbn [prev_offset].
      destruct i as [|i']; [done|]. cbn [prev_offset].
      replace (fst (slots !!! S i') <=? fst (slots !!! i')) with false; [done|].
      specialize (Hprev i' eq_refl). lia.
    + intros j Hj. destruct (decide (j = i)) as [->|]; [done|]. apply Hall. lia.
    + done.
  - exists 0%nat. rewrite Nat.add_0_r. split; [|repeat split; try lia; auto].
    repeat (case_if; [done|]). exfalso. apply Hrej. split; [|split; [lia|split; [lia|]]].
    + intros (H1 & H2 & H3). rewrite H1, H2 in *. lia.
    + intros j ->. cbn [prev_offset] in *. lia.
Qed.

Lemma findActual_spec base slots : Forall slot_range slots ->
  exists c, findActualIndexSize (entries slots) base = 16 * Z.of_nat c /\ (c <= length slots)%nat
    /\ (forall j, (j < c)%nat -> accepts base slots j)
    /\ ((c < length slots)%nat -> ~ accepts base slots c).
Proof.
  intros Hr. destruct (count_spec base slots Hr (length slots) 0 eq_refl) as (c & Hc & Hle & Ha & Hn).
  exists c. split; [|split; [lia|split; [intros j Hj; apply Ha; lia|done]]].
  unfold findActualIndexSize. rewrite zlen_entries, (Z.mul_comm 16), Z.div_mul by lia.
  unfold zlen. rewrite Nat2Z.id. cbn [prev_offset] in Hc. change (Z.of_nat 0) with 0 in Hc. rewrite Hc. lia.
Qed.

(** ** The three loops *)

Definition sorted_upto (slots : list (Z * Z)) (n : nat) : Prop :=
  forall i j, (i <= j < n)%nat -> fst (slots !!! i) <= fst (slots !!! j).

(** The position [search] answers: that of the last of the first [n] entries
    at or below [offset], 0 when there is none. *)
Definition best_at (slots : list (Z * Z)) (offset : Z) (n : nat) (pos : Z) : Prop :=
  exists m, (m <= n)%nat
    /\ (forall j, (j < m)%nat -> fst (slots !!! j) <= offset)
    /\ (forall j, (m <= j < n)%nat -> offset < fst (slots !!! j))
    /\ pos = match m with O => 0 | S m' => snd (slots !!! m') end.

Lemma search_spec slots n offset : Forall slot_range slots -> (n <= length slots)%nat ->
  sorted_upto slots n -> forall fuel low high best,
  0 <= low -> low <= high + 1 -> high < Z.of_nat n -> high + 1 - low < Z.of_nat fuel ->
  (forall j, (j < Z.to_nat low)%nat -> fst (slots !!! j) <= offset) ->
  (forall j, (Z.to_nat (high + 1) <= j < n)%nat -> offset < fst (slots !!! j)) ->
  best = match Z.to_nat low with O => 0 | S m' => snd (slots !!! m') end ->
  exists pos, search fuel (entries slots) offset low high best = Some pos /\ best_at slots offset n pos.
Proof.
  intros Hr Hn Hs. induction fuel as [|fuel IH]; intros low high best Hl Hlh Hh Hf Hlo Hhi Hb; [lia|].
  cbn [search]. case_if.
  - set (mid := Z.quot (low + high) 2).
    assert (low <= mid <= high) as Hmid.
    { unfold mid. rewrite Z.quot_div_nonneg by lia. split; [apply Z.div_le_lower_bound|apply Z.div_le_upper_bound]; lia. }
    clearbody mid.
    assert (Z.to_nat mid < length slots)%nat as Hlt by lia.
    destruct (slot_at slots (Z.to_nat mid) Hlt Hr) as [Ho Hp]. rewrite Z2Nat.id in Ho, Hp by lia.
    rewrite Ho, Hp. case_if.
    + apply IH; try lia; auto.
      * intros j Hj. transitivity (fst (slots !!! Z.to_nat mid)); [|lia]. apply Hs. lia.
      * rewrite Z2Nat.inj_add by lia. change (Z.to_nat 1) with 1%nat. by rewrite Nat.add_1_r.
    + apply IH; try lia; auto. intros j Hj.
      pose proof (Hs (Z.to_nat mid) j). lia.
  - exists best. split; [done|]. exists (Z.to_nat low).
    split; [lia|split; [done|split; [|done]]]. intros j Hj. apply Hhi. lia.
Qed.

Lemma FindPosition_spec s slots n offset : Forall slot_range slots -> (n <= length slots)%nat ->
  sorted_upto slots n -> mmapIndex s = entries slots -> indexSize s = 16 * Z.of_nat n ->
  exists pos, FindPosition s offset = Some pos /\ best_at slots offset n pos.
Proof.
  intros Hr Hn Hs Hi Hsz. unfold FindPosition. rewrite Hi, Hsz, Z.mul_comm, Z.quot_mul by lia.
  case_if.
  - exists 0. split; [done|]. exists 0%nat. repeat split; try lia.
  - apply (search_spec slots n); auto; try lia.
Qed.

(** The scan reads the records from the one it starts at, and stops at the
    zeros after the last one. *)
Lemma scan_spec base recs pad : Forall (fun r => rec_len r < 2147483648) recs ->
  0 <= base -> base + zlen recs < 18446744073709551616 ->
  forall fuel k off, (k <= length recs)%nat -> (length recs - k < fuel)%nat ->
  scan fuel (layout base recs ++ replicate pad 0) off (size (take k recs))
  = Some (if decide (k = length recs) then off else base + zlen recs, size recs).
Proof.
  intros Hlen Hb Hmax. unfold zlen in Hmax.
  induction fuel as [|fuel IH]; intros k off Hk Hf; [lia|]. cbn [scan].
  destruct (decide (k = length recs)) as [->|Hne].
  - rewrite firstn_all, zlen_app, zlen_layout. unfold zlen at 1. rewrite length_replicate.
    case_if; [|done].
    assert (forall i n, 0 <= i -> 0 <= n -> i + n <= Z.of_nat pad ->
      be_get (bytes_at (layout base recs ++ replicate pad 0) (size recs + i) n) = 0) as Hz.
    { intros i n Hi Hn Hin. pose proof (size_nonneg recs).
      rewrite bytes_at_drop, <- (zlen_layout recs base) by lia. unfold zlen.
      rewrite Nat2Z.id, drop_app_length, bytes_at_zeros by lia. apply be_get_zeros. }
    unfold u32_at, u64_at. rewrite <- (Z.add_0_r (size recs)) at 1. rewrite !Hz by lia. done.
  - destruct (lookup_lt_is_Some_2 recs k) as [r Hr]; [lia|].
    rewrite Forall_lookup in Hlen. pose proof (Hlen _ _ Hr) as Hr'.
    destruct (record_at base recs k r (replicate pad 0) Hr Hr') as (H32 & H64 & Hend).
    { split; lia. }
    cbv zeta in *. rewrite H32, H64. pose proof (rec_len_pos r). pose proof (zlen_nonneg r).
    replace (size (take k recs) + 12 <=? zlen (layout base recs ++ replicate pad 0)) with true by lia.
    replace ((8 + zlen r =? 0) && (base + Z.of_nat k =? 0)) with false by lia.
    unfold rec_len in *.
    replace ((8 + zlen r - 8 <? 0) || (zlen (layout base recs ++ replicate pad 0)
      <? size (take k recs) + 12 + (8 + zlen r - 8))) with false by lia.
    replace (size (take k recs) + (12 + (8 + zlen r - 8))) with (size (take (S k) recs))
      by (rewrite (size_take_S _ _ _ Hr); unfold rec_len; lia).
    rewrite IH by lia. rewrite u64_id by (split; lia). do 2 f_equal.
    unfold zlen. case_decide; lia.
Qed.

(** The records a fetch of [maxBytes] takes after the first one. *)
Fixpoint fit (maxBytes : Z) (recs : list (list Z)) : nat :=
  match recs with
  | [] => O
  | r :: rest => if rec_len r <=? maxBytes then S (fit (maxBytes - rec_len r) rest) else O
  end.

Definition fetched (maxBytes : Z) (recs : list (list Z)) : list (list Z) :=
  take (Nat.max 1 (fit maxBytes recs)) recs.

Section Locate.
Context (base : Z) (recs : list (list Z)) (tail : list Z).
Context (Hlen : size recs < 2147483648) (Hb : 0 <= base)
  (Hmax : base + zlen recs < 18446744073709551616).
Context (start maxBytes : Z) (Hbytes : in_u32 maxBytes).

Lemma rec_bound k r : recs !! k = Some r -> rec_len r < 2147483648.
Proof.
  intros Hr. pose proof (size_take (S k) recs). pose proof (size_take k recs).
  rewrite (size_take_S _ _ _ Hr) in *. lia.
Qed.

Lemma locate_step fuel k r target cnt total : recs !! k = Some r ->
  locate (S fuel) (layout base recs ++ tail) (size recs) start maxBytes (size (take k recs)) target cnt total
  = (if start <=? base + Z.of_nat k then
       let target' := match target with None => Some (size (take k recs)) | _ => target end in
       if (maxBytes <? total +u32 rec_len r) && (0 <? cnt) then Some (target', cnt, total)
       else if maxBytes <=? total +u32 rec_len r then Some (target', cnt +u32 1, total +u32 rec_len r)
       else locate fuel (layout base recs ++ tail) (size recs) start maxBytes (size (take (S k) recs))
              target' (cnt +u32 1) (total +u32 rec_len r)
     else match target with
       | Some _ => if maxBytes <=? total then Some (target, cnt, total)
           else locate fuel (layout base recs ++ tail) (size recs) start maxBytes (size (take (S k) recs)) target cnt total
       | None => locate fuel (layout base recs ++ tail) (size recs) start maxBytes (size (take (S k) recs)) target cnt total
       end).
Proof using Hlen Hb Hmax.
  intros Hr. pose proof (lookup_lt_Some _ _ _ Hr) as Hk. unfold zlen in Hmax.
  pose proof (rec_bound _ _ Hr) as Hr'.
  destruct (record_at base recs k r tail Hr Hr') as (H32 & H64 & _); [split; lia|].
  cbv zeta in *. cbn [locate]. rewrite H32, H64. pose proof (zlen_nonneg r).
  pose proof (size_take (S k) recs) as Hs. rewrite (size_take_S _ _ _ Hr) in *.
  pose proof (size_take k recs). unfold rec_len in *.
  replace (size (take k recs) + 12 <=? size recs) with true by lia.
  replace (8 + zlen r - 8 <? 0) with false by lia.
  replace (size recs <? size (take k recs) + (12 + (8 + zlen r - 8))) with false by lia.
  replace (12 + (8 + zlen r - 8)) with (12 + zlen r) by lia. rewrite (u32_id (12 + zlen r)) by go_lia.
  done.
Qed.

Lemma locate_end fuel target cnt total :
  locate (S fuel) (layout base recs ++ tail) (size recs) start maxBytes (size recs) target cnt total
  = Some (target, cnt, total).
Proof. cbn [locate]. by replace (size recs + 12 <=? size recs) with false by lia. Qed.

(** Past the first record taken: [cnt] records and [total] bytes so far. *)
Lemma locate_more : forall rest fuel k P cnt total,
  drop k recs = rest -> (k <= length recs)%nat -> (length recs - k < fuel)%nat ->
  start <= base + Z.of_nat k -> 0 < cnt <= Z.of_nat k -> 0 <= total <= size (take k recs) -> total < maxBytes ->
  exists cnt', locate fuel (layout base recs ++ tail) (size recs) start maxBytes (size (take k recs)) (Some P) cnt total
    = Some (Some P, cnt', total + size (take (fit (maxBytes - total) rest) rest)).
Proof using Hlen Hb Hmax Hbytes.
  induction rest as [|r rest IH]; intros fuel k P cnt total Hd Hk Hf Hst Hc Ht Hm;
    (destruct fuel as [|fuel]; [lia|]).
  - assert (k = length recs) as ->.
    { apply (f_equal length) in Hd. rewrite length_drop in Hd. simpl in Hd. lia. }
    rewrite firstn_all, locate_end. exists cnt. cbn [fit take]. change (size []) with 0. by rewrite Z.add_0_r.
  - assert (recs !! k = Some r) as Hr.
    { rewrite <- (Nat.add_0_r k), <- lookup_drop, Hd. done. }
    assert (drop (S k) recs = rest) as Hd'.
    { rewrite <- Nat.add_1_r, <- drop_drop, Hd. done. }
    pose proof (lookup_lt_Some _ _ _ Hr) as Hk'.
    rewrite (locate_step _ _ _ _ _ _ Hr).
    pose proof (size_take (S k) recs) as Hs. rewrite (size_take_S _ _ _ Hr) in Hs.
    pose proof (rec_len_pos r). pose proof (size_count recs). unfold zlen in *.
    replace (start <=? base + Z.of_nat k) with true by lia. cbv zeta.
    rewrite (u32_id (total + rec_len r)), (u32_id (cnt + 1)) by go_lia.
    cbn [fit]. destruct (rec_len r <=? maxBytes - total) eqn:Hfit.
    + replace (maxBytes <? total + rec_len r) with false by lia. cbn [andb take]. rewrite size_cons.
      destruct (maxBytes <=? total + rec_len r) eqn:Hfull.
      * eexists. do 2 f_equal. replace (maxBytes - total - rec_len r) with 0 by lia.
        destruct rest as [|r2 rest]; cbn [fit take]; [change (size []) with 0; lia|].
        pose proof (rec_len_pos r2). replace (rec_len r2 <=? 0) with false by lia. cbn [take].
        change (size []) with 0. lia.
      * destruct (IH fuel (S k) P (cnt + 1) (total + rec_len r)) as [cnt' ->]; try lia; auto.
        { rewrite (size_take_S _ _ _ Hr). lia. }
        exists cnt'. do 2 f_equal. rewrite Z.sub_add_distr. lia.
    + replace ((maxBytes <? total + rec_len r) && (0 <? cnt)) with true by lia.
      exists cnt. cbn [take]. change (size []) with 0. by rewrite Z.add_0_r.
Qed.

(** From record [k], not past the target record [t]. *)
Lemma locate_spec t : start = base + Z.of_nat t -> (t < length recs)%nat ->
  forall fuel k, (k <= t)%nat -> (length recs - k < fuel)%nat ->
  exists cnt', locate fuel (layout base recs ++ tail) (size recs) start maxBytes (size (take k recs)) None 0 0
    = Some (Some (size (take t recs)), cnt', size (fetched maxBytes (drop t recs))).
Proof using Hlen Hb Hmax Hbytes.
  intros Hst Ht. induction fuel as [|fuel IH]; intros k Hk Hf; [lia|].
  destruct (lookup_lt_is_Some_2 recs k) as [r Hr]; [lia|].
  rewrite (locate_step _ _ _ _ _ _ Hr). case_if; [|apply IH; lia].
  assert (k = t) as -> by lia. cbv zeta. pose proof (rec_bound _ _ Hr). pose proof (rec_len_pos r).
  rewrite andb_false_r, (u32_id (0 + rec_len r)), Z.add_0_l by go_lia. rewrite (u32_id (0 + 1)) by go_lia.
  rewrite (drop_S _ _ _ Hr). unfold fetched. cbn [fit]. case_if.
  - eexists. do 2 f_equal. case_if; [|by cbn [Nat.max take]; rewrite size_cons; change (size []) with 0; rewrite Z.add_0_r].
    replace (maxBytes - rec_len r) with 0 by lia. destruct (drop (S t) recs) as [|r2 rest]; cbn [fit].
    + cbn [Nat.max take]. rewrite size_cons. change (size []) with 0. lia.
    + pose proof (rec_len_pos r2). replace (rec_len r2 <=? 0) with false by lia.
      cbn [Nat.max take]. rewrite size_cons. change (size []) with 0. lia.
  - destruct (locate_more (drop (S t) recs) fuel (S t) (size (take t recs)) 1 (rec_len r)) as [cnt' Hl];
      try done; try lia.
    { rewrite (size_take_S _ _ _ Hr). pose proof (size_take t recs). lia. }
    change (0 + 1) with 1. rewrite Hl. exists cnt'. do 2 f_equal.
    replace (rec_len r <=? maxBytes) with true by lia. by rewrite Nat.max_r by lia.
Qed.

(** Nothing at or past the start offset: end of file. *)
Lemma locate_none : base + zlen recs <= start ->
  forall fuel k, (k <= length recs)%nat -> (length recs - k < fuel)%nat ->
  locate fuel (layout base recs ++ tail) (size recs) start maxBytes (size (take k recs)) None 0 0
    = Some (None, 0, 0).
Proof using Hlen Hb Hmax Hbytes.
  intros Hst. induction fuel as [|fuel IH]; intros k Hk Hf; [lia|].
  destruct (decide (k = length recs)) as [->|]; [by rewrite firstn_all, locate_end|].
  destruct (lookup_lt_is_Some_2 recs k) as [r Hr]; [lia|].
  rewrite (locate_step _ _ _ _ _ _ Hr). unfold zlen in Hst.
  replace (start <=? base + Z.of_nat k) with false by lia. apply IH; lia.
Qed.
End Locate.

(** ** Recovery of any bytes *)

Lemma scan_ends data : forall fuel off pos, 0 <= pos -> Z.max 0 (zlen data - pos) < Z.of_nat fuel ->
  scan fuel data off pos <> None.
Proof.
  induction fuel as [|fuel IH]; intros off pos Hp Hf; [lia|]. cbn [scan].
  case_if; [|done]. cbv zeta. case_if; [done|].
  destruct (_ || _) eqn:E; [done|]. apply IH; lia.
Qed.

Lemma count_positions idx base : forall n i last j,
  i <= j < i + count_entries n idx base i last -> 0 <= i64 (u64_at idx (j * 16 + 8)).
Proof.
  induction n as [|n IH]; intros i last j Hj; cbn [count_entries] in Hj; [lia|]. cbv zeta in Hj.
  step_if Hj; [lia|]. step_if Hj; [lia|]. step_if Hj; [lia|].
  destruct (match last with Some l => _ | None => false end); [lia|].
  destruct (decide (j = i)) as [->|]; [lia|]. apply (IH (i + 1) (Some (u64_at idx (i * 16)))). lia.
Qed.

(** Recovery terminates on any file contents: the scan advances by at
    least a record header per iteration, and starts at a position the index
    check accepted, which is never negative. *)
Theorem recover_terminates s : Recover s <> None.
Proof.
  unfold Recover.
  set (idxSize := if 0 <? zlen (mmapIndex s) then _ else _).
  set (start := if 16 <=? idxSize then _ else _).
  assert (0 <= snd start) as Hs.
  { unfold start. case_if; [|done]. cbn [snd]. unfold idxSize, findActualIndexSize in *.
    destruct (0 <? zlen (mmapIndex s)) eqn:Hpos; [|lia].
    set (c := count_entries _ _ _ _ _) in *.
    replace (c * 16 - 8) with ((c - 1) * 16 + 8) by lia.
    apply (count_positions (mmapIndex s) (baseOffset s) (Z.to_nat (zlen (mmapIndex s) / 16)) 0 None).
    fold c. lia. }
  destruct start as [off pos]. cbn [snd] in Hs.
  pose proof (scan_ends (mmapData s) (length (mmapData s) + 1) off pos Hs) as Hend.
  destruct (scan _ _ _ _) as [[o q]|]; [by case_if|].
  exfalso. apply Hend; [|done]. unfold zlen. lia.
Qed.

End BrokerLog.
