(* ===== verification/BrokerStore.v ===== *)
(** * The partition log is a list of records

    The invariant of the segments of [BrokerLog] and the refinement of the
    partition log to its specification: an append-only list of payloads with
    a fencing epoch, which restarts keep and reads answer from. *)

From S2P Require Import Prelude Wire RedisKeys BrokerWire BrokerLog.
Open Scope Z_scope.

Module BrokerStore.
Import Wire BrokerWire BrokerLog.

(** ** The specification *)

Inductive Op :=
  | OpAppend (payload : list Z)
  | OpReplicate (expectedOffset : Z) (payload : list Z)
  | OpFenced (epoch : Z) (payload : list Z)
  | OpAdvance (epoch : Z)
  | OpRestart.

Record LogSpec := mkSpec { records : list (list Z); epoch_of : Z }.

Definition spec_append (a : LogSpec) (payload : list Z) (epoch : Z) : LogSpec * (LogError + Z) :=
  (mkSpec (records a ++ [payload]) epoch, inr (zlen (records a))).

Definition spec_step (a : LogSpec) (op : Op) : LogSpec * (LogError + Z) :=
  match op with
  | OpAppend payload => spec_append a payload (epoch_of a)
  | OpReplicate expectedOffset payload =>
      if expectedOffset <? zlen (records a) then (a, inr expectedOffset)
      else if zlen (records a) <? expectedOffset then (a, inl ErrReplicationGap)
      else spec_append a payload (epoch_of a)
  | OpFenced epoch payload =>
      if epoch =? 0 then spec_append a payload (epoch_of a)
      else if epoch <? epoch_of a then (a, inl ErrStaleFencingEpoch)
      else spec_append a payload epoch
  | OpAdvance epoch => (mkSpec (records a) (Z.max (epoch_of a) epoch), inr (zlen (records a)))
  | OpRestart => (a, inr (zlen (records a)))
  end.

Fixpoint spec_run (a : LogSpec) (ops : list Op) : LogSpec * list (LogError + Z) :=
  match ops with
  | [] => (a, [])
  | op :: rest =>
      let '(a1, r) := spec_step a op in
      let '(a2, rs) := spec_run a1 rest in (a2, r :: rs)
  end.

(** What a read may answer: whole records from the one asked for, at least
    one, more only while they fit; end of file past the last record. *)
Definition read_spec (recs : list (list Z)) (start maxBytes : Z) (answer : option (list Z)) : Prop :=
  if start <? zlen recs then
    exists taken rest, drop (Z.to_nat start) recs = taken ++ rest /\ taken <> []
      /\ (size taken <= maxBytes \/ length taken = 1%nat)
      /\ answer = Some (layout start taken)
  else answer = None.

(** ** The log's operations *)

Definition step (p : PartitionLog) (op : Op) : option (PartitionLog * (LogError + Z)) :=
  match op with
  | OpAppend payload => Some (Append p payload)
  | OpReplicate expectedOffset payload => Some (AppendReplicatedAt p expectedOffset payload)
  | OpFenced epoch payload => Some (AppendFenced p epoch payload)
  | OpAdvance epoch => Some (AdvanceFencingEpoch p epoch, inr (nextOffset p))
  | OpRestart =>
      match restart p with Some p' => Some (p', inr (nextOffset p')) | None => None end
  end.

Fixpoint run (p : PartitionLog) (ops : list Op) : option (PartitionLog * list (LogError + Z)) :=
  match ops with
  | [] => Some (p, [])
  | op :: rest =>
      match step p op with
      | None => None
      | Some (p1, r) =>
          match run p1 rest with
          | None => None
          | Some (p2, rs) => Some (p2, r :: rs)
          end
      end
  end.

Definition payload_of (op : Op) : list Z :=
  match op with
  | OpAppend payload | OpReplicate _ payload | OpFenced _ payload => payload
  | _ => []
  end.

(** ** The invariant *)

Section Log.
Context (maxSeg interval : Z).
Context (Hseg : 12 <= maxSeg < 2147483648) (Hint : 0 < interval).

Definition cap : nat := Z.to_nat (maxSeg / interval + 100).

Definition slot_valid (base : Z) (recs : list (list Z)) (e : Z * Z) : Prop :=
  e = (0, 0) \/ exists k, (k < length recs)%nat /\ e = (base + Z.of_nat k, size (take k recs)).

(** The first [n] entries are in use; what a restart would find after them
    is refused by [findActualIndexSize]. *)
Record IdxOk (w : bool) (base : Z) (recs : list (list Z)) (n : nat) (slots : list (Z * Z)) : Prop := {
  ix_valid : Forall (slot_valid base recs) slots;
  ix_len : (n <= length slots)%nat;
  ix_base : forall j, (j < n)%nat -> base <= fst (slots !!! j);
  ix_sorted : sorted_upto slots n;
  ix_cap : w = true -> length slots = cap;
  ix_fresh : w = true -> n = 0%nat -> slots = replicate cap (0, 0);
  ix_next : w = true -> (0 < n < cap)%nat -> ~ accepts base slots n
}.

Record SegOk (w : bool) (s : Segment) (recs : list (list Z)) (n : nat) (slots : list (Z * Z)) : Prop := {
  so_data : exists pad, mmapData s = layout (baseOffset s) recs ++ replicate pad 0
              /\ (w = true -> zlen (mmapData s) = maxSeg) /\ (w = false -> pad = 0%nat);
  so_size : logSize s = size recs;
  so_max : size recs <= maxSeg;
  so_base : 0 <= baseOffset s;
  so_index : mmapIndex s = entries slots;
  so_isize : indexSize s = 16 * Z.of_nat n;
  so_idx : IdxOk w (baseOffset s) recs n slots;
  so_maxSeg : maxSegSize s = maxSeg;
  so_maxIdx : maxIdxSize s = 16 * Z.of_nat cap
}.

Lemma max_index_cap : max_index_size maxSeg interval = 16 * Z.of_nat cap.
Proof using Hseg Hint.
  unfold max_index_size, cap. replace (interval <=? 0) with false by lia.
  pose proof (Z.div_pos maxSeg interval). lia.
Qed.

Lemma cap_pos : (100 <= cap)%nat.
Proof using Hseg Hint. unfold cap. pose proof (Z.div_pos maxSeg interval). lia. Qed.

Lemma valid_range base recs slots :
  0 <= base -> base + zlen recs < 18446744073709551616 -> size recs <= maxSeg ->
  Forall (slot_valid base recs) slots -> Forall slot_range slots.
Proof using Hseg.
  intros Hb Hm Hs Hv. apply (Forall_impl _ _ _ Hv). intros e [->|(k & Hk & ->)]; unfold slot_range; cbn [fst snd]; [go_lia|].
  pose proof (size_take k recs). unfold zlen in Hm. go_lia.
Qed.

(** The entries a count accepts are in order. *)
Lemma accepted_sorted base slots c :
  (forall j, (j < c)%nat -> accepts base slots j) -> sorted_upto slots c.
Proof using.
  intros Ha i j [Hij Hj]. induction Hij as [|j Hij IH]; [lia|].
  transitivity (fst (slots !!! j)); [apply IH; lia|].
  destruct (Ha (S j) Hj) as (_ & _ & _ & Hlt). specialize (Hlt j eq_refl). lia.
Qed.

Lemma valid_mono base recs r e : slot_valid base recs e -> slot_valid base (recs ++ [r]) e.
Proof using.
  intros [->|(k & Hk & ->)]; [by left|right]. exists k. rewrite length_app.
  split; [lia|]. by rewrite take_app_le by lia.
Qed.

Lemma valid_le base recs e : 0 <= base -> slot_valid base recs e -> fst e <= base + zlen recs.
Proof using. intros Hb [->|(k & Hk & ->)]; unfold zlen; simpl; lia. Qed.

Lemma valid_lookup base recs slots j : (j < length slots)%nat ->
  Forall (slot_valid base recs) slots -> slot_valid base recs (slots !!! j).
Proof using.
  intros Hj Hv. destruct (lookup_lt_is_Some_2 _ _ Hj) as [e He].
  rewrite (list_lookup_total_correct _ _ _ He). rewrite Forall_lookup in Hv. eauto.
Qed.

(** A record the index points at: position 0, or that of a record at or
    below the entry's offset. *)
Lemma slot_record base recs e : slot_valid base recs e -> base <= fst e -> 0 <= base ->
  exists k, (k <= length recs)%nat /\ fst e = base + Z.of_nat k /\ snd e = size (take k recs)
    /\ (k < length recs \/ k = 0)%nat.
Proof using.
  intros [->|(k & Hk & ->)] Hb H0; simpl in *.
  - exists 0%nat. repeat split; try lia.
  - exists k. repeat split; lia.
Qed.

(** [Recover] rebuilds a writable segment from its two files. *)
Lemma recover_ok s recs slots :
  (exists pad, mmapData s = layout (baseOffset s) recs ++ replicate pad 0) ->
  zlen (mmapData s) = maxSeg -> size recs <= maxSeg -> 0 <= baseOffset s ->
  baseOffset s + zlen recs < 18446744073709551616 ->
  mmapIndex s = entries slots -> length slots = cap ->
  Forall (slot_valid (baseOffset s) recs) slots ->
  maxSegSize s = maxSeg -> maxIdxSize s = 16 * Z.of_nat cap ->
  (slots = replicate cap (0, 0) \/ accepts (baseOffset s) slots 0) ->
  exists s' c, Recover s = Some (baseOffset s + zlen recs, s') /\ baseOffset s' = baseOffset s
    /\ SegOk true s' recs c slots
    /\ (forall j, (j < c)%nat -> accepts (baseOffset s) slots j).
Proof using Hseg Hint.
  intros [pad Hdata] Hlen Hmax Hb Hover Hidx Hcap Hv HmS HmI Hz.
  pose proof (valid_range _ _ _ Hb Hover Hmax Hv) as Hr.
  destruct (findActual_spec (baseOffset s) slots Hr) as (c & Hc & Hcle & Hacc & Hrej).
  pose proof cap_pos as Hcp.
  set (start := if 16 <=? 16 * Z.of_nat c
    then (u64_at (mmapIndex s) (16 * Z.of_nat c - 16), i64 (u64_at (mmapIndex s) (16 * Z.of_nat c - 8)))
    else (baseOffset s, 0)).
  assert (exists k, (k <= length recs)%nat /\ (k < length recs \/ k = 0)%nat
     /\ start = (baseOffset s + Z.of_nat k, size (take k recs))) as (k & Hk & Hk' & Hstart).
  { unfold start. destruct c as [|c'].
    - exists 0%nat. change (16 <=? 16 * Z.of_nat 0) with false. cbv iota.
      rewrite Z.add_0_r. repeat split; lia.
    - replace (16 <=? 16 * Z.of_nat (S c')) with true by (symmetry; apply Z.leb_le; lia). rewrite Hidx.
      replace (16 * Z.of_nat (S c') - 16) with (Z.of_nat c' * 16) by lia.
      replace (16 * Z.of_nat (S c') - 8) with (Z.of_nat c' * 16 + 8) by lia.
      destruct (slot_at slots c') as [-> ->]; [lia|done|].
      destruct (slot_record _ _ _ (valid_lookup _ _ slots c' ltac:(lia) Hv)) as (k & H1 & E1 & E2 & H2); [|done|].
      2:{ exists k. repeat split; [done|done|]. f_equal; [exact E1|exact E2]. }
      destruct (Hacc c') as (_ & H & _); [lia|done]. }
  unfold Recover. rewrite Hidx, zlen_entries.
  replace (zlen slots) with (Z.of_nat cap) by (unfold zlen; by rewrite Hcap).
  replace (0 <? 16 * Z.of_nat cap) with true by lia. rewrite Hc. rewrite <- Hidx. fold start. rewrite Hstart.
  assert (size recs < 2147483648) as Hsz by lia. rewrite Hdata.
  rewrite scan_spec; try done.
  2:{ apply Forall_lookup. intros i r Hi. by apply (rec_bound recs Hsz i). }
  2:{ rewrite <- Hdata. pose proof (size_count recs). unfold zlen in *. lia. }
  replace (if decide (k = length recs) then baseOffset s + Z.of_nat k else baseOffset s + zlen recs)
    with (baseOffset s + zlen recs) by (unfold zlen; case_decide; lia).
  rewrite <- Hdata, HmS, Hlen, Z.eqb_refl, Hdata. rewrite Truncate_app by apply zlen_layout.
  rewrite Hidx, (Truncate_same (entries slots)) by (rewrite zlen_entries; unfold zlen; lia).
  eexists _, c. split; [done|]. split; [done|]. split; [|done].
  split; cbn [mmapData mmapIndex baseOffset logSize indexSize maxSegSize maxIdxSize]; try done.
  - rewrite Truncate_extend by (rewrite zlen_layout; lia). eexists. split; [done|]. split; [|done].
    intros _. rewrite zlen_app, zlen_layout. unfold zlen. rewrite length_replicate.
    pose proof (zlen_layout recs (baseOffset s)) as Hzl. unfold zlen in Hzl. lia.
  - split; try done.
    + intros j Hj. destruct (Hacc j Hj) as (_ & H & _). done.
    + by apply (accepted_sorted (baseOffset s)).
    + intros _ ->. destruct Hz as [Hz|Hz]; [done|]. exfalso. apply Hrej; [lia|done].
    + intros _ [H1 H2]. apply Hrej. lia.
Qed.

(** The writable segment [NewSegment] makes out of nothing. *)
Lemma fresh_files base : let s := NewSegment [] [] base maxSeg interval true in
  mmapData s = replicate (Z.to_nat maxSeg) 0 /\ mmapIndex s = entries (replicate cap (0, 0))
  /\ logSize s = 0 /\ indexSize s = 0 /\ baseOffset s = base
  /\ maxSegSize s = maxSeg /\ maxIdxSize s = 16 * Z.of_nat cap.
Proof using Hseg Hint.
  pose proof cap_pos. unfold NewSegment. change (zlen (@nil Z)) with 0.
  rewrite max_index_cap. change (0 <? 0) with false. cbn iota.
  replace (0 <? maxSeg) with true by lia. replace (0 <? 16 * Z.of_nat cap) with true by lia.
  cbn [mmapData mmapIndex logSize indexSize baseOffset maxSegSize maxIdxSize].
  rewrite !Truncate_extend by (change (zlen (@nil Z)) with 0; lia).
  rewrite !app_nil_l, !take_ge by (rewrite length_replicate; simpl; lia).
  rewrite entries_zeros. repeat split; f_equal; simpl length; lia.
Qed.

Lemma fresh_idx w base n : n = 0%nat -> IdxOk w base [] n (replicate cap (0, 0)).
Proof using.
  intros ->. split; intros; rewrite ?length_replicate; try lia; try done.
  - apply Forall_replicate. by left.
  - intros i j. lia.
Qed.

Lemma zlen_zeros n : 0 <= n -> zlen (replicate (Z.to_nat n) 0) = n.
Proof using. intros H. unfold zlen. rewrite length_replicate. lia. Qed.

Lemma fresh_segment_ok base : 0 <= base ->
  SegOk true (NewSegment [] [] base maxSeg interval true) [] 0 (replicate cap (0, 0)).
Proof using Hseg Hint.
  intros Hb. destruct (fresh_files base) as (H1 & H2 & H3 & H4 & H5 & H6 & H7).
  split; rewrite ?H1, ?H2, ?H3, ?H4, ?H5, ?H6, ?H7; try done.
  - exists (Z.to_nat maxSeg). split; [done|]. split; [|done]. intros _. apply zlen_zeros. lia.
  - change (size []) with 0. lia.
  - by apply fresh_idx.
Qed.

(** [Write] appends a record. *)
Lemma write_ok s recs n slots r :
  SegOk true s recs n slots -> size recs + rec_len r <= maxSeg ->
  exists s', Write s (baseOffset s + zlen recs) r = Some (size recs, s')
    /\ baseOffset s' = baseOffset s /\ indexSize s' = indexSize s
    /\ (forall n' slots', IdxOk true (baseOffset s) (recs ++ [r]) n' slots' ->
          mmapIndex s' = entries slots' -> indexSize s' = 16 * Z.of_nat n' ->
          SegOk true s' (recs ++ [r]) n' slots')
    /\ mmapIndex s' = mmapIndex s /\ maxIdxSize s' = maxIdxSize s
    /\ forall n' slots' sz, IdxOk true (baseOffset s) (recs ++ [r]) n' slots' -> sz = 16 * Z.of_nat n' ->
          SegOk true (with_index s' sz (entries slots')) (recs ++ [r]) n' slots'.
Proof using Hseg Hint.
  intros H Hfit. destruct (so_data _ _ _ _ _ H) as (pad & Hd & Hl & _).
  specialize (Hl eq_refl). destruct H as [_ Hsz Hmax Hb Hi His Hix HmS HmI].
  unfold Write. rewrite HmS, Hsz. unfold rec_len in Hfit.
  replace (maxSeg <? size recs + (12 + zlen r)) with false by lia.
  pose proof (rec_len_pos r) as Hrl. pose proof (zlen_nonneg r).
  set (data := store_at (mmapData s) (size recs) (record_bytes (baseOffset s + zlen recs) r)).
  assert (exists pad', data = layout (baseOffset s) (recs ++ [r]) ++ replicate pad' 0 /\ zlen data = maxSeg)
    as (pad' & Hd' & Hl').
  { assert (Z.of_nat pad = maxSeg - size recs) as Hpad.
    { rewrite Hd, zlen_app, zlen_layout in Hl. unfold zlen in Hl at 1. rewrite length_replicate in Hl. lia. }
    set (pad' := (pad - Z.to_nat (rec_len r))%nat). exists pad'. unfold data. rewrite Hd.
    assert (pad = Z.to_nat (rec_len r) + pad')%nat as Hp by (unfold pad', rec_len in *; lia).
    clearbody pad'. subst pad. rewrite replicate_add, <- (zlen_layout recs (baseOffset s)), store_at_end.
    - rewrite layout_app, <- app_assoc, layout_cons. change (layout _ []) with (@nil Z).
      rewrite app_nil_r. split; [done|].
      rewrite !zlen_app, zlen_record, zlen_layout. unfold zlen. rewrite length_replicate. lia.
    - rewrite length_replicate. pose proof (zlen_record (baseOffset s + zlen recs) r) as Hz.
      unfold zlen in Hz at 1. lia. }
  assert (size (recs ++ [r]) = size recs + (12 + zlen r)) as Hsz'.
  { rewrite size_app, size_cons. change (size []) with 0. unfold rec_len. lia. }
  eexists. split; [reflexivity|]. fold data. split; [reflexivity|]. split; [reflexivity|].
  split; [|split; [done|split; [done|]]].
  - intros n' slots' Hix' Hi' His'. split; try done; cbn [mmapData logSize baseOffset with_log]; try lia.
    exists pad'. done.
  - intros n' slots' sz Hix' ->. split; try done;
      cbn [mmapData logSize baseOffset with_log with_index]; try lia. exists pad'. done.
Qed.

Lemma idx_mono w base recs r n slots : IdxOk w base recs n slots -> IdxOk w base (recs ++ [r]) n slots.
Proof using.
  intros [Hv Hl Hb Hs Hc Hf Hn]. split; try done.
  apply (Forall_impl _ _ _ Hv). intros e. apply valid_mono.
Qed.

(** [WriteIndexEntry] for the record just written. *)
Lemma idx_insert base recs r n slots : 0 <= base -> IdxOk true base recs n slots -> (n < cap)%nat ->
  IdxOk true base (recs ++ [r]) (S n) (<[n := (base + zlen recs, size recs)]> slots).
Proof using.
  intros Hb H Hn. pose proof (ix_cap _ _ _ _ _ H eq_refl) as Hcap.
  pose proof (ix_valid _ _ _ _ _ H) as Hv.
  assert (forall j, (j < length slots)%nat -> fst (slots !!! j) <= base + zlen recs) as Hle.
  { intros j Hj. apply valid_le; [done|]. by apply valid_lookup. }
  pose proof (idx_mono _ _ _ r _ _ H) as [Hv' _ Hbase Hsort _ _ _].
  assert (forall e : Z * Z, (<[n := e]> slots) !!! n = e) as Heq.
  { intros e. apply list_lookup_total_insert_eq. lia. }
  assert (forall (e : Z * Z) j, j <> n -> (<[n := e]> slots) !!! j = slots !!! j) as Hne.
  { intros e j Hj. apply list_lookup_total_insert_ne. lia. }
  split; rewrite ?length_insert; try lia.
  - apply Forall_insert; [done|]. right. exists (length recs). rewrite length_app. simpl length.
    split; [lia|]. rewrite take_app_length. done.
  - intros j Hj. destruct (decide (j = n)) as [->|]; [rewrite Heq; simpl; unfold zlen; lia|].
    rewrite Hne by done. apply Hbase. lia.
  - intros i j Hij. destruct (decide (j = n)) as [->|].
    + rewrite Heq. destruct (decide (i = n)) as [->|]; [by rewrite Heq|].
      rewrite Hne by done. apply Hle. lia.
    + rewrite !Hne by lia. apply Hsort. lia.
  - intros _ [_ Hn1] (_ & _ & _ & Hlt). specialize (Hlt n eq_refl). rewrite Heq, Hne in Hlt by lia.
    specialize (Hle (S n) ltac:(lia)). cbn [fst] in Hlt. lia.
Qed.

(** A sealed segment, made from a segment's files. *)
Lemma sealed_ok_of base recs slots :
  0 <= base -> base + zlen recs < 18446744073709551616 -> size recs <= maxSeg ->
  Forall (slot_valid base recs) slots ->
  exists n slots', SegOk false (NewSegment (layout base recs) (entries slots) base maxSeg interval false) recs n slots'.
Proof using Hseg Hint.
  intros Hb Hover Hmax Hv.
  pose proof (valid_range _ _ _ Hb Hover Hmax Hv) as Hr.
  destruct (findActual_spec base slots Hr) as (c & Hc & Hcle & Hacc & _).
  exists c, (take c slots). unfold NewSegment. rewrite max_index_cap.
  replace (if 0 <? zlen (entries slots) then findActualIndexSize (entries slots) base
           else zlen (entries slots)) with (16 * Z.of_nat c).
  2:{ rewrite zlen_entries. unfold zlen. destruct slots as [|e slots]; [|case_if; [done|]; apply Z.ltb_ge in Heqb; simpl length in *; lia].
    simpl length in Hcle. change (zlen (@nil (Z * Z))) with 0. simpl. lia. }
  assert (forall j, (j < c)%nat -> take c slots !!! j = slots !!! j) as Ht.
  { intros j Hj. rewrite !list_lookup_total_alt. by rewrite lookup_take_lt. }
  split; cbn [mmapData mmapIndex logSize indexSize baseOffset maxSegSize maxIdxSize]; try done.
  - exists 0%nat. rewrite app_nil_r. done.
  - apply zlen_layout.
  - replace (Z.to_nat (16 * Z.of_nat c)) with (16 * c)%nat by lia. apply take_entries.
  - split; try done.
    + by apply Forall_take.
    + rewrite length_take. lia.
    + intros j Hj. rewrite Ht by done. apply (Hacc j Hj).
    + intros i j Hij. rewrite !Ht by lia. apply (accepted_sorted base slots c Hacc). lia.
Qed.

(** Reading record [t] of a segment. *)
Lemma seg_read w s recs n slots t maxBytes : SegOk w s recs n slots ->
  baseOffset s + zlen recs < 18446744073709551616 -> in_u32 maxBytes -> 0 <= t ->
  exists pos, FindPosition s (baseOffset s + t) = Some pos /\
    if t <? zlen recs then
      exists cnt target, LocateMessages s pos (baseOffset s + t) maxBytes
          = Some (Some target, cnt, size (fetched maxBytes (drop (Z.to_nat t) recs)))
        /\ bytes_at (mmapData s) target (size (fetched maxBytes (drop (Z.to_nat t) recs)))
          = layout (baseOffset s + t) (fetched maxBytes (drop (Z.to_nat t) recs))
    else LocateMessages s pos (baseOffset s + t) maxBytes = Some (None, 0, 0).
Proof using Hseg Hint.
  intros H Hover Hu Ht. destruct (so_data _ _ _ _ _ H) as (pad & Hd & _).
  destruct H as [_ Hsz Hmax Hb Hi His [Hv Hle Hbase Hs _ _ _] _ _].
  pose proof (valid_range _ _ _ Hb Hover Hmax Hv) as Hr.
  destruct (FindPosition_spec s slots n (baseOffset s + t) Hr Hle Hs Hi His) as (pos & Hpos & m & Hm & Hlo & _ & ->).
  eexists. split; [exact Hpos|].
  assert (exists k, (k <= length recs)%nat /\ Z.of_nat k <= t
     /\ match m with O => 0 | S m' => snd (slots !!! m') end = size (take k recs)) as (k & Hk & Hkt & ->).
  { destruct m as [|m'].
    - exists 0%nat. repeat split; lia.
    - destruct (slot_record _ _ _ (valid_lookup _ _ slots m' ltac:(lia) Hv)) as (k & H1 & E1 & E2 & _);
        [by apply Hbase|done|].
      exists k. specialize (Hlo m' ltac:(lia)). rewrite E1 in Hlo. repeat split; [done|lia|exact E2]. }
  unfold LocateMessages. rewrite Hsz, Hd.
  pose proof (size_count recs) as Hcnt. unfold zlen in Hcnt.
  case_if.
  - set (ti := Z.to_nat t). assert (ti < length recs)%nat by (unfold zlen in *; lia).
    destruct (locate_spec (baseOffset s) recs (replicate pad 0) ltac:(lia) Hb Hover (baseOffset s + t) maxBytes Hu ti
      ltac:(lia) ltac:(lia) (Z.to_nat (size recs) + 1) k ltac:(lia) ltac:(lia)) as [cnt Hl].
    rewrite Hl. exists cnt, (size (take ti recs)). split; [done|].
    unfold fetched. set (rest := drop ti recs). set (m0 := Nat.max 1 _).
    rewrite <- (take_drop ti recs) at 1. fold rest. rewrite <- (take_drop m0 rest) at 1.
    rewrite !layout_app, <- !app_assoc. replace (zlen (take ti recs)) with t by (unfold zlen; rewrite length_take; lia).
    apply bytes_at_mid; apply zlen_layout.
  - pose proof (locate_none (baseOffset s) recs (replicate pad 0) ltac:(lia) Hb Hover (baseOffset s + t) maxBytes Hu) as Hl.
    rewrite Hl; [done|lia|done|lia].
Qed.

(** ** The log invariant *)

(** Sealed segments hold consecutive, non-empty runs of records from 0. *)
Inductive sealed_ok : list Segment -> list (list Z) -> Prop :=
  | sealed_nil : sealed_ok [] []
  | sealed_snoc segs r1 s r2 n slots :
      sealed_ok segs r1 -> baseOffset s = zlen r1 -> SegOk false s r2 n slots -> r2 <> [] ->
      sealed_ok (segs ++ [s]) (r1 ++ r2).

Record Shape (p : PartitionLog) (sealed : list Segment) (active : Segment)
    (r1 r2 : list (list Z)) (n : nat) (slots : list (Z * Z)) : Prop := {
  sh_segs : segments p = sealed ++ [active];
  sh_sealed : sealed_ok sealed r1;
  sh_base : baseOffset active = zlen r1;
  sh_active : SegOk true active r2 n slots;
  sh_next : nextOffset p = zlen (r1 ++ r2);
  sh_interval : indexInterval p = interval;
  sh_maxSeg : logMaxSegSize p = maxSeg;
  sh_since : 0 <= bytesSinceIdx p /\ (Z.of_nat n - 1) * interval + bytesSinceIdx p <= size r2
}.

Definition log_ok (p : PartitionLog) (recs : list (list Z)) : Prop :=
  exists sealed active r1 r2 n slots, Shape p sealed active r1 r2 n slots /\ recs = r1 ++ r2.

Lemma replace_last_snoc l x y : replace_last (l ++ [x]) y = l ++ [y].
Proof using.
  unfold replace_last. rewrite length_app. simpl length. rewrite Nat.add_sub. by rewrite take_app_length.
Qed.

(** [rollLockedInner] seals the active segment. *)
Lemma roll_ok p sealed active r1 r2 n slots :
  Shape p sealed active r1 r2 n slots -> r2 <> [] -> zlen (r1 ++ r2) < 18446744073709551616 ->
  exists sealed' active', Shape (roll p) sealed' active' (r1 ++ r2) [] 0 (replicate cap (0, 0))
    /\ fencingEpoch (roll p) = fencingEpoch p /\ epochFile (roll p) = epochFile p.
Proof using Hseg Hint.
  intros [Hsegs Hsealed Hbase Hact Hnext Hi HmS Hsince] Hne Hover.
  destruct (so_data _ _ _ _ _ Hact) as (pad & Hd & _).
  destruct Hact as [_ Hsz Hmax Hb Hidx His [Hv Hle Hbs Hs _ _ _] _ _].
  rewrite zlen_app in Hover.
  destruct (sealed_ok_of (baseOffset active) r2 (take n slots)) as (n' & slots' & Hro); try lia.
  { by apply Forall_take. }
  unfold roll. rewrite Hsegs, last_snoc, length_app, Nat.add_sub, take_app_length.
  rewrite Hd, Hsz, Truncate_app by apply zlen_layout.
  rewrite Hidx, His. replace (Truncate (entries slots) (16 * Z.of_nat n)) with (entries (take n slots)).
  2:{ rewrite <- (take_drop n slots) at 2. rewrite entries_app, Truncate_app; [done|].
      rewrite zlen_entries. unfold zlen. rewrite length_take. lia. }
  rewrite HmS, Hi.
  set (ro := NewSegment _ _ _ _ _ false) in *. set (new := NewSegment _ _ _ _ _ true).
  assert (baseOffset ro = baseOffset active) as Hrob by done. clearbody ro.
  exists (sealed ++ [ro]), new. split; [|done].
  pose proof (zlen_nonneg (r1 ++ r2)). 
  split; try done.
  - cbn [segments with_segments]. by rewrite <- app_assoc.
  - apply (sealed_snoc _ _ _ _ n' slots'); try done. by rewrite Hrob.
  - unfold new. rewrite Hnext. by apply fresh_segment_ok.
  - cbn [nextOffset with_segments]. by rewrite app_nil_r.
  - cbn [bytesSinceIdx with_segments]. change (size []) with 0. lia.
Qed.

(** Appending to an active segment with room. *)
Lemma append_active p sealed active r1 r2 n slots r :
  Shape p sealed active r1 r2 n slots -> size r2 + rec_len r <= maxSeg ->
  zlen (r1 ++ r2) + 1 < 18446744073709551616 ->
  exists p', append_record p (zlen (r1 ++ r2)) r = (p', inr (zlen (r1 ++ r2)))
    /\ log_ok p' ((r1 ++ r2) ++ [r])
    /\ fencingEpoch p' = fencingEpoch p /\ epochFile p' = epochFile p.
Proof using Hseg Hint.
  intros [Hsegs Hsealed Hbase Hact Hnext Hi HmS [Hs0 Hs1]] Hfit Hover.
  pose proof (zlen_nonneg (r1 ++ r2)). pose proof cap_pos as Hcp.
  assert (zlen (r1 ++ r2) = baseOffset active + zlen r2) as Hoff by (rewrite Hbase; apply zlen_app).
  destruct (write_ok _ _ _ _ r Hact Hfit) as (s1 & Hw & Hb1 & His1 & Hok1 & Hidx1 & HmI1 & Hok2).
  destruct Hact as [_ Hsz Hmax Hb Hidx His Hix _ HmI].
  assert (size (r2 ++ [r]) = size r2 + rec_len r) as Hsize.
  { rewrite size_app, size_cons. change (size []) with 0. lia. }
  unfold append_record. rewrite Hsegs, last_snoc, Hsz, HmS.
  replace (maxSeg <? size r2 + (12 + zlen r)) with false by (unfold rec_len in Hfit; lia).
  rewrite Hsegs, last_snoc, Hoff, Hw, replace_last_snoc. fold (rec_len r).
  cbn [bytesSinceIdx segments nextOffset with_segments].
  rewrite Hi. pose proof (rec_len_pos r) as Hr.
  rewrite u64_id by (split; lia). rewrite <- Hoff.
  destruct (interval <=? bytesSinceIdx p + rec_len r) eqn:Hdue.
  - assert (n < cap)%nat as Hn.
    { assert (Z.of_nat n <= maxSeg / interval) by (apply Z.div_le_lower_bound; lia). unfold cap. lia. }
    unfold WriteIndexEntry. rewrite HmI1, HmI, His1, His.
    replace (16 * Z.of_nat cap <? 16 * Z.of_nat n + 16) with false by lia.
    rewrite Hidx1, Hidx, store_entry by (by rewrite (ix_cap _ _ _ _ _ Hix eq_refl)).
    rewrite replace_last_snoc.
    eexists. split; [reflexivity|]. split; [|done].
    eexists sealed, _, r1, (r2 ++ [r]), (S n), _. split; [|by rewrite app_assoc].
    split; cbn [segments nextOffset bytesSinceIdx indexInterval logMaxSegSize with_segments with_index]; try done.
    + change (baseOffset s1 = zlen r1). by rewrite Hb1.
    + apply Hok2; [|lia]. rewrite Hoff. by apply idx_insert.
    + rewrite app_assoc, (zlen_app (r1 ++ r2)). change (zlen [r]) with 1. lia.
    + lia.
  - eexists. split; [reflexivity|]. split; [|done].
    eexists sealed, _, r1, (r2 ++ [r]), n, slots. split; [|by rewrite app_assoc].
    split; cbn [segments nextOffset bytesSinceIdx indexInterval logMaxSegSize with_segments]; try done.
    + by rewrite Hb1.
    + apply Hok1; [by apply idx_mono|by rewrite Hidx1|by rewrite His1].
    + rewrite app_assoc, (zlen_app (r1 ++ r2)). change (zlen [r]) with 1. lia.
    + lia.
Qed.

Lemma append_ok p recs r :
  log_ok p recs -> rec_len r <= maxSeg -> zlen recs + 1 < 18446744073709551616 ->
  exists p', append_record p (zlen recs) r = (p', inr (zlen recs))
    /\ log_ok p' (recs ++ [r])
    /\ fencingEpoch p' = fencingEpoch p /\ epochFile p' = epochFile p.
Proof using Hseg Hint.
  intros (sealed & active & r1 & r2 & n & slots & Hsh & ->) Hr Hover.
  destruct (decide (size r2 + rec_len r <= maxSeg)) as [Hfit|Hfull]; [by eapply append_active|].
  assert (r2 <> []) as Hne by (intros ->; change (size []) with 0 in Hfull; lia).
  destruct (roll_ok _ _ _ _ _ _ _ Hsh Hne) as (sealed' & active' & Hsh' & He & Hf); [lia|].
  assert (append_record p (zlen (r1 ++ r2)) r = append_record (roll p) (zlen (r1 ++ r2)) r) as ->.
  { unfold append_record at 1 2. rewrite (sh_segs _ _ _ _ _ _ _ Hsh), last_snoc.
    rewrite (so_size _ _ _ _ _ (sh_active _ _ _ _ _ _ _ Hsh)), (sh_maxSeg _ _ _ _ _ _ _ Hsh).
    replace (maxSeg <? size r2 + (12 + zlen r)) with true by (unfold rec_len in *; lia).
    rewrite (sh_segs _ _ _ _ _ _ _ Hsh'), last_snoc.
    rewrite (so_size _ _ _ _ _ (sh_active _ _ _ _ _ _ _ Hsh')), (sh_maxSeg _ _ _ _ _ _ _ Hsh').
    change (size []) with 0. replace (maxSeg <? 0 + (12 + zlen r)) with false by (unfold rec_len in *; lia). rewrite (sh_segs _ _ _ _ _ _ _ Hsh'), last_snoc. done. }
  destruct (append_active _ _ _ _ _ _ _ r Hsh') as (p' & Hp & Hok & He' & Hf').
  { change (size []) with 0. lia. }
  { by rewrite app_nil_r. }
  rewrite app_nil_r in *. exists p'. rewrite He', Hf'. done.
Qed.

(** ** Restart *)

Definition reload (s : Segment) : Segment :=
  load_sealed maxSeg interval (baseOffset s, mmapData s, mmapIndex s).

Lemma sealed_reload segs recs : zlen recs < 18446744073709551616 ->
  sealed_ok segs recs -> sealed_ok (map reload segs) recs.
Proof using Hseg Hint.
  intros Hover H. induction H as [|segs r1 s r2 n slots Hs IH Hb Hok Hne]; [constructor|].
  rewrite zlen_app in Hover. pose proof (zlen_nonneg r2).
  destruct (so_data _ _ _ _ _ Hok) as (pad & Hd & _ & Hpad). rewrite (Hpad eq_refl), app_nil_r in Hd.
  destruct Hok as [_ _ Hmax Hb0 Hidx _ [Hv _ _ _ _ _ _] _ _].
  destruct (sealed_ok_of (baseOffset s) r2 slots) as (n' & slots' & Hro); try lia; [done|].
  rewrite map_app. change (map reload [s]) with [reload s].
  apply (sealed_snoc _ _ _ _ n' slots'); [apply IH; lia|done| |done].
  unfold reload, load_sealed. by rewrite Hd, Hidx.
Qed.

Lemma reopen_active s recs n slots : SegOk true s recs n slots ->
  baseOffset s + zlen recs < 18446744073709551616 ->
  let s' := NewSegment (mmapData s) (mmapIndex s) (baseOffset s) maxSeg interval true in
  mmapData s' = mmapData s /\ mmapIndex s' = mmapIndex s /\ baseOffset s' = baseOffset s
  /\ maxSegSize s' = maxSeg /\ maxIdxSize s' = 16 * Z.of_nat cap.
Proof using Hseg Hint.
  intros H Hover. destruct (so_data _ _ _ _ _ H) as (pad & _ & Hl & _). specialize (Hl eq_refl).
  destruct H as [_ _ Hmax Hb Hidx _ [Hv _ _ _ Hcap _ _] _ _]. specialize (Hcap eq_refl).
  pose proof cap_pos. unfold NewSegment. rewrite Hidx, max_index_cap, zlen_entries, Hl.
  replace (zlen slots) with (Z.of_nat cap) by (unfold zlen; by rewrite Hcap).
  replace (0 <? 16 * Z.of_nat cap) with true by lia.
  replace (maxSeg <? maxSeg) with false by lia.
  cbn [mmapData mmapIndex baseOffset maxSegSize maxIdxSize].
  rewrite <- Hl at 1. rewrite take_zlen.
  replace (Truncate (entries slots) (16 * Z.of_nat cap)) with (entries slots)
    by (symmetry; apply Truncate_same; rewrite zlen_entries; unfold zlen; lia).
  replace (Z.to_nat (16 * Z.of_nat cap)) with (length (entries slots)) by (rewrite length_entries; lia).
  repeat split. case_if; apply firstn_all.
Qed.

(** What the count accepts is no more than the entries in use, the entry a
    restart sees at the start of an unindexed first segment apart. *)
Lemma accepted_le base recs n slots c : 0 <= base -> IdxOk true base recs n slots ->
  (forall j, (j < c)%nat -> accepts base slots j) -> (c <= length slots)%nat -> (c <= Nat.max 1 n)%nat.
Proof using Hseg Hint.
  intros Hb [Hv Hle Hbs Hs Hcap Hf Hn] Hacc Hc. specialize (Hcap eq_refl).
  destruct (Nat.le_gt_cases c (Nat.max 1 n)) as [|Hgt]; [done|exfalso].
  destruct n as [|n'].
  - specialize (Hf eq_refl eq_refl). subst slots.
    destruct (Hacc 1%nat) as (Hz & _); [lia|]. apply Hz.
    rewrite lookup_total_replicate_2 by lia. simpl. lia.
  - apply (Hn eq_refl); [lia|]. apply Hacc. lia.
Qed.

Lemma first_accepted base recs n slots : 0 <= base -> IdxOk true base recs n slots ->
  slots = replicate cap (0, 0) \/ accepts base slots 0.
Proof using Hseg Hint.
  intros Hb [Hv Hle Hbs Hs Hcap Hf Hn]. destruct n as [|n']; [left; by apply Hf|right].
  specialize (Hbs 0%nat ltac:(lia)).
  destruct (slot_record _ _ _ (valid_lookup _ _ slots 0 ltac:(lia) Hv) Hbs Hb) as (k & _ & _ & E2 & _).
  pose proof (size_nonneg (take k recs)). repeat split; try lia.
Qed.

Lemma log_restart_ok p recs : log_ok p recs -> zlen recs < 18446744073709551616 ->
  exists p', restart p = Some p' /\ log_ok p' recs
    /\ fencingEpoch p' = default 0 (epochFile p) /\ epochFile p' = epochFile p.
Proof using Hseg Hint.
  intros (sealed & active & r1 & r2 & n & slots & [Hsegs Hsealed Hbase Hact Hnext Hi HmS Hsince] & ->) Hover.
  rewrite zlen_app in Hover. pose proof (zlen_nonneg r1). pose proof (zlen_nonneg r2).
  assert (baseOffset active + zlen r2 < 18446744073709551616) as Hover2 by lia.
  destruct (reopen_active _ _ _ _ Hact Hover2) as (E1 & E2 & E3 & E4 & E5).
  set (s := NewSegment (mmapData active) (mmapIndex active) (baseOffset active) maxSeg interval true) in *.
  destruct (so_data _ _ _ _ _ Hact) as (pad & Hd & Hl & _). specialize (Hl eq_refl).
  pose proof (so_idx _ _ _ _ _ Hact) as Hix.
  destruct (recover_ok s r2 slots) as (s' & c & Hrec & Hb' & Hok & Hacc); rewrite ?E1, ?E2, ?E3; try done.
  { eauto. }
  { apply (so_max _ _ _ _ _ Hact). }
  { lia. }
  { apply (so_index _ _ _ _ _ Hact). }
  { by apply (ix_cap _ _ _ _ _ Hix). }
  { apply (ix_valid _ _ _ _ _ Hix). }
  { apply (first_accepted _ r2 n); [lia|done]. }
  rewrite E3 in *.
  assert (c <= Nat.max 1 n)%nat as Hc.
  { apply (accepted_le (baseOffset active) r2 n slots); [lia|done|done|].
    rewrite (ix_cap _ _ _ _ _ Hix eq_refl). pose proof (ix_len _ _ _ _ _ (so_idx _ _ _ _ _ Hok)) as Hlen.
    by rewrite (ix_cap _ _ _ _ _ (so_idx _ _ _ _ _ Hok) eq_refl) in Hlen. }
  unfold restart, loadSegments, files_of. rewrite Hsegs, map_app, HmS, Hi.
  set (file := fun s => (baseOffset s, mmapData s, mmapIndex s)). change (map file [active]) with [file active].
  assert (exists f fs, map file sealed ++ [file active] = f :: fs) as (f & fs & Hcons).
  { destruct (map file sealed); simpl; eauto. }
  rewrite Hcons, <- Hcons, last_snoc, length_app, Nat.add_sub, take_app_length. unfold file at 1.
  fold s. rewrite Hrec, map_map. eexists. split; [reflexivity|]. split; [|done].
  exists (map reload sealed), s', r1, r2, c, slots. split; [|done]. split; try done.
  - apply sealed_reload; [lia|done].
  - by rewrite Hb'.
  - cbn [nextOffset]. rewrite zlen_app. lia.
  - cbn [bytesSinceIdx]. pose proof (size_nonneg r2). nia.
Qed.

(** ** Reads *)

Lemma fetched_prefix maxBytes recs : recs <> [] -> exists rest,
  recs = fetched maxBytes recs ++ rest /\ fetched maxBytes recs <> []
  /\ (size (fetched maxBytes recs) <= maxBytes \/ length (fetched maxBytes recs) = 1%nat).
Proof using.
  intros Hne. exists (drop (Nat.max 1 (fit maxBytes recs)) recs).
  unfold fetched. split; [by rewrite take_drop|].
  destruct recs as [|r recs]; [done|]. split; [destruct (Nat.max 1 _) eqn:E; [lia|done]|].
  assert (forall l m, 0 <= m -> size (take (fit m l) l) <= m) as Hfit.
  { induction l as [|x l IH]; intros m Hm; cbn [fit].
    - done.
    - case_if; cbn [take]; [|done]. rewrite size_cons. specialize (IH (m - rec_len x)). lia. }
  destruct (fit maxBytes (r :: recs)) as [|k] eqn:E.
  - right. rewrite length_take. simpl. lia.
  - left. rewrite Nat.max_r by lia. rewrite <- E. apply Hfit. cbn [fit] in E.
    pose proof (rec_len_pos r). step_if E; [lia|done].
Qed.

(** The segment a read picks. *)
Lemma pick_segment p sealed active r1 r2 n slots start :
  Shape p sealed active r1 r2 n slots -> 0 <= start ->
  exists s w before mine after m slots',
    last (filter (fun s => baseOffset s <= start) (segments p)) = Some s
    /\ r1 ++ r2 = before ++ mine ++ after /\ baseOffset s = zlen before
    /\ SegOk w s mine m slots' /\ baseOffset s <= start
    /\ (after <> [] -> start < zlen (before ++ mine)).
Proof using.
  intros [Hsegs Hsealed Hbase Hact _ _ _ _] Hstart. rewrite Hsegs, filter_app, filter_cons, filter_nil.
  destruct (decide (baseOffset active <= start)) as [Hle|Hgt].
  { rewrite last_snoc. exists active, true, r1, r2, [], n, slots. by rewrite app_nil_r. }
  rewrite app_nil_r. rewrite Hbase in Hgt. clear Hsegs Hbase Hact.
  assert (exists s w before mine after m slots',
    last (filter (fun s => baseOffset s <= start) sealed) = Some s
    /\ r1 = before ++ mine ++ after /\ baseOffset s = zlen before
    /\ SegOk w s mine m slots' /\ baseOffset s <= start /\ start < zlen (before ++ mine))
    as (s & w & before & mine & after & m & slots' & H1 & -> & H2 & H3 & H4 & H5).
  2:{ exists s, w, before, mine, (after ++ r2), m, slots'. by rewrite <- !app_assoc. }
  induction Hsealed as [|segs r1' s r2' n' slots' Hs IH Hb Hok Hne].
  { unfold zlen in Hgt. simpl in Hgt. lia. }
  rewrite filter_app, filter_cons, filter_nil.
  destruct (decide (baseOffset s <= start)) as [Hle|Hlt].
  - rewrite last_snoc. exists s, false, r1', r2', [], n', slots'. rewrite app_nil_r.
    split; [done|]. split; [done|]. split; [done|]. split; [done|]. split; [done|]. lia.
  - rewrite app_nil_r. rewrite Hb in Hlt.
    destruct (IH Hlt) as (s0 & w & before & mine & after & m & slots0 & H1 & -> & H2 & H3 & H4 & H5).
    exists s0, w, before, mine, (after ++ r2'), m, slots0. by rewrite <- !app_assoc.
Qed.

Lemma read_ok p recs start maxBytes : log_ok p recs -> zlen recs < 18446744073709551616 ->
  0 <= start -> in_u32 maxBytes ->
  exists answer, ReadRawMessages p start maxBytes = Some answer /\ read_spec recs start maxBytes answer.
Proof using Hseg Hint.
  intros (sealed & active & r1 & r2 & n & slots & Hsh & ->) Hover Hstart Hu.
  destruct (pick_segment _ _ _ _ _ _ _ start Hsh Hstart)
    as (s & w & before & mine & after & m & slots' & Hlast & Hrecs & Hb & Hok & Hle & Hend).
  rewrite Hrecs, !zlen_app in Hover. pose proof (zlen_nonneg after).
  set (t := start - baseOffset s). assert (start = baseOffset s + t) as Et by lia.
  destruct (seg_read w s mine m slots' t maxBytes Hok) as (pos & Hpos & Hread); [lia|done|lia|].
  rewrite <- Et in *. unfold ReadRawMessages. rewrite Hlast, Hpos.
  unfold read_spec. rewrite Hrecs, !zlen_app.
  destruct (t <? zlen mine) eqn:Ht.
  - replace (start <? zlen before + (zlen mine + zlen after)) with true by lia.
    destruct Hread as (cnt & target & -> & Hbytes).
    set (mine' := drop (Z.to_nat t) mine) in *.
    assert (mine' <> []) as Hne.
    { unfold mine'. intros E. apply (f_equal length) in E. rewrite length_drop in E.
      unfold zlen in Ht. simpl in E. lia. }
    destruct (fetched_prefix maxBytes mine' Hne) as (rest & Hpre & Hne' & Hfit).
    replace (size (fetched maxBytes mine') =? 0) with false.
    2:{ destruct (fetched maxBytes mine') as [|x l]; [done|]. rewrite size_cons.
        pose proof (rec_len_pos x). pose proof (size_nonneg l). lia. }
    rewrite Hbytes. eexists. split; [reflexivity|].
    exists (fetched maxBytes mine'), (rest ++ after). split; [|done].
    replace (Z.to_nat start) with (length before + Z.to_nat t)%nat by (rewrite Et, Hb; unfold zlen; lia).
    rewrite drop_app_add, drop_app_le by (unfold zlen in Ht; lia). fold mine'.
    by rewrite app_assoc, <- Hpre.
  - rewrite Hread. eexists. split; [reflexivity|].
    destruct after as [|x after]; [|exfalso; rewrite zlen_app in Hend; specialize (Hend ltac:(done)); lia].
    change (zlen (@nil (list Z))) with 0. by replace (start <? zlen before + (zlen mine + 0)) with false by lia.
Qed.

(** ** Runs *)

Definition represents (p : PartitionLog) (a : LogSpec) : Prop :=
  log_ok p (records a) /\ fencingEpoch p = epoch_of a /\ default 0 (epochFile p) = epoch_of a.

Lemma log_next p recs : log_ok p recs -> nextOffset p = zlen recs.
Proof using. intros (sealed & active & r1 & r2 & n & slots & [] & ->). done. Qed.

Lemma init_ok : exists p, loadSegments [] maxSeg interval None = Some p /\ represents p (mkSpec [] 0).
Proof using Hseg Hint.
  destruct (fresh_files 0) as (H1 & H2 & H3 & H4 & H5 & H6 & H7).
  set (s := NewSegment [] [] 0 maxSeg interval true) in *.
  destruct (recover_ok s [] (replicate cap (0, 0))) as (s' & c & Hrec & Hb & Hok & Hacc);
    rewrite ?H1, ?H2, ?H5; try done.
  { exists (Z.to_nat maxSeg). done. }
  { apply zlen_zeros. lia. }
  { change (size []) with 0. lia. }
  { by rewrite length_replicate. }
  { apply Forall_replicate. by left. }
  { by left. }
  assert (c <= 1)%nat as Hc.
  { destruct (Nat.le_gt_cases c 1) as [|Hgt]; [done|exfalso].
    destruct (Hacc 1%nat Hgt) as (Hz & _). apply Hz. pose proof cap_pos.
    rewrite lookup_total_replicate_2 by lia. simpl. lia. }
  unfold loadSegments. change (last [(0, [], [])]) with (Some (0, @nil Z, @nil Z)). cbn iota beta.
  fold s. rewrite Hrec, H5. eexists. split; [reflexivity|]. split; [|done].
  exists [], s', [], [], c, (replicate cap (0, 0)). split; [|done].
  assert (SegOk true s' [] c (replicate cap (0, 0))) as Hok' by done.
  split; try done; [by apply sealed_nil|].
  cbn [bytesSinceIdx]. change (size []) with 0. nia.
Qed.

Lemma append_refines p a r : represents p a -> rec_len r <= maxSeg ->
  zlen (records a) + 1 < 18446744073709551616 -> forall track e,
  exists p', appendPayloadLockedInner p (nextOffset p) r track e = (p', inr (zlen (records a)))
    /\ represents p' (mkSpec (records a ++ [r]) (if track then Z.max (epoch_of a) e else epoch_of a)).
Proof using Hseg Hint.
  intros (Hok & Hm & Hf) Hr Hover track e. rewrite (log_next _ _ Hok).
  unfold appendPayloadLockedInner. rewrite Hm.
  assert (exists q, (if track && (epoch_of a <? e) then with_epoch p e (Some e) else p) = q
    /\ log_ok q (records a)
    /\ fencingEpoch q = (if track then Z.max (epoch_of a) e else epoch_of a)
    /\ default 0 (epochFile q) = (if track then Z.max (epoch_of a) e else epoch_of a))
    as (q & -> & Hq & Hqm & Hqf).
  { eexists. split; [reflexivity|]. destruct track; cbn [andb]; [|done].
    case_if; [|rewrite Z.max_l by lia; done]. cbn [fencingEpoch epochFile with_epoch default].
    rewrite Z.max_r by lia. split; [|done].
    destruct Hok as (sealed & active & r1 & r2 & n & slots & [] & E). by exists sealed, active, r1, r2, n, slots. }
  destruct (append_ok q (records a) r Hq Hr Hover) as (p' & Hp & Hok' & He & Hf').
  exists p'. split; [done|]. split; [done|]. by rewrite He, Hf'.
Qed.

Definition op_ok (op : Op) : Prop := rec_len (payload_of op) <= maxSeg.

Lemma step_refines p a op : represents p a -> op_ok op ->
  zlen (records a) + 1 < 18446744073709551616 ->
  exists p' result, step p op = Some (p', result)
    /\ exists a', spec_step a op = (a', result) /\ represents p' a'
    /\ zlen (records a') <= zlen (records a) + 1.
Proof using Hseg Hint.
  intros Hrep Hop Hover. pose proof (log_next _ _ (proj1 Hrep)) as Hnext.
  assert (forall r e, zlen (records (mkSpec (records a ++ [r]) e)) = zlen (records a) + 1) as Hlen.
  { intros r e. apply zlen_app. }
  destruct op as [r|at_ r|e r|e|]; unfold op_ok in Hop; cbn [payload_of step spec_step] in *.
  - destruct (append_refines p a r Hrep Hop Hover false 0) as (p' & Hp & Hr). unfold Append. rewrite Hp.
    eexists _, _. split; [done|]. eexists. split; [done|]. split; [done|]. rewrite Hlen. lia.
  - unfold AppendReplicatedAt. rewrite Hnext. case_if; [|case_if].
    + eexists _, _. split; [done|]. eexists. split; [done|]. split; [done|lia].
    + eexists _, _. split; [done|]. eexists. split; [done|]. split; [done|lia].
    + destruct (append_refines p a r Hrep Hop Hover false 0) as (p' & Hp & Hr).
      replace at_ with (nextOffset p) by lia. rewrite Hp.
      eexists _, _. split; [done|]. eexists. split; [done|]. split; [done|]. rewrite Hlen. lia.
  - unfold AppendFenced, fence_passes, fenced_append. destruct Hrep as (Hok & Hm & Hf).
    rewrite Hm. case_if; [|destruct (e <? epoch_of a) eqn:Hlt; cbn [negb]].
    + destruct (append_refines p a r ltac:(done) Hop Hover false 0) as (p' & Hp & Hr). rewrite Hp.
      eexists _, _. split; [done|]. eexists. split; [done|]. split; [done|]. rewrite Hlen. lia.
    + eexists _, _. split; [done|]. eexists. split; [done|]. split; [done|lia].
    + destruct (append_refines p a r ltac:(done) Hop Hover true e) as (p' & Hp & Hr). rewrite Hp.
      rewrite Z.max_r in Hr by lia.
      eexists _, _. split; [done|]. eexists. split; [done|]. split; [done|]. rewrite Hlen. lia.
  - eexists _, _. split; [done|]. eexists. rewrite Hnext. split; [done|]. split; [|simpl; lia].
    destruct Hrep as (Hok & Hm & Hf). unfold AdvanceFencingEpoch, advance_cas. rewrite Hm. case_if.
    + cbn. rewrite Z.max_l by lia. done.
    + cbn. rewrite Z.max_r by lia. split; [|done].
      destruct Hok as (sealed & active & r1 & r2 & n & slots & [] & E). by exists sealed, active, r1, r2, n, slots.
  - destruct Hrep as (Hok & Hm & Hf).
    destruct (log_restart_ok p (records a) Hok) as (p' & Hp & Hok' & He & Hf'); [lia|].
    rewrite Hp. rewrite (log_next _ _ Hok'). eexists _, _. split; [done|]. eexists. split; [done|].
    split; [|lia]. split; [done|]. rewrite He, Hf'. done.
Qed.

Lemma run_refines ops : forall p a, represents p a -> Forall op_ok ops ->
  zlen (records a) + zlen ops < 18446744073709551616 ->
  exists p' results, run p ops = Some (p', results)
    /\ exists a', spec_run a ops = (a', results) /\ represents p' a'
    /\ zlen (records a') <= zlen (records a) + zlen ops.
Proof using Hseg Hint.
  induction ops as [|op ops IH]; intros p a Hrep Hops Hover.
  { exists p, []. split; [done|]. exists a. split; [done|]. split; [done|]. pose proof (zlen_nonneg (@nil Op)). lia. }
  apply Forall_cons in Hops as [Hop Hops].
  assert (zlen (op :: ops) = 1 + zlen ops) as Hl by (unfold zlen; simpl length; lia).
  pose proof (zlen_nonneg ops).
  destruct (step_refines p a op Hrep Hop) as (p1 & r & Hs & a1 & Ha & Hrep1 & Hlen1); [lia|].
  destruct (IH p1 a1 Hrep1 Hops) as (p2 & rs & Hr & a2 & Ha2 & Hrep2 & Hlen2); [lia|].
  cbn [run spec_run]. rewrite Hs, Hr, Ha, Ha2. exists p2, (r :: rs).
  split; [done|]. exists a2. split; [done|]. split; [done|lia].
Qed.

End Log.

(** C13: The partition log implements an append-only list of payloads with a
    fencing epoch.  From an empty directory, every sequence of appends,
    replicated appends, fenced appends, epoch advances and restarts succeeds
    and answers what the list answers (consecutive offsets from 0, the stale
    epoch refused, the replica's duplicate acknowledged and its gap refused),
    across every segment roll and index entry; and afterwards every read
    answers whole records from the offset asked for, at least one and more
    only while they fit, and end of file past the last one.  Segments are
    below 2 GiB, and every record fits in one. *)
Theorem partition_log_refines maxSeg interval ops :
  12 <= maxSeg < 2147483648 -> 0 < interval ->
  Forall (op_ok maxSeg) ops -> zlen ops < 18446744073709551616 ->
  exists p0 p results a,
    loadSegments [] maxSeg interval None = Some p0
    /\ run p0 ops = Some (p, results) /\ spec_run (mkSpec [] 0) ops = (a, results)
    /\ nextOffset p = zlen (records a) /\ fencingEpoch p = epoch_of a
    /\ forall start maxBytes, 0 <= start -> in_u32 maxBytes ->
         exists answer, ReadRawMessages p start maxBytes = Some answer
           /\ read_spec (records a) start maxBytes answer.
Proof.
  intros Hseg Hint Hops Hlen.
  destruct (init_ok maxSeg interval Hseg Hint) as (p0 & Hp0 & Hrep0).
  destruct (run_refines maxSeg interval Hseg Hint ops p0 (mkSpec [] 0) Hrep0 Hops) as
    (p & rs & Hrun & a & Ha & Hrep & Hle); [change (zlen (records (mkSpec [] 0))) with 0; lia|].
  change (zlen (records (mkSpec [] 0))) with 0 in Hle.
  exists p0, p, rs, a. destruct Hrep as (Hok & Hm & _).
  split; [done|]. split; [done|]. split; [done|]. split; [by apply (log_next maxSeg interval)|].
  split; [done|]. intros start maxBytes Hs Hu. apply (read_ok maxSeg interval); auto. lia.
Qed.

(** ** The fencing epoch under concurrency *)

Lemma run_represents maxSeg interval ops p0 p results :
  12 <= maxSeg < 2147483648 -> 0 < interval ->
  Forall (op_ok maxSeg) ops -> zlen ops < 18446744073709551616 ->
  loadSegments [] maxSeg interval None = Some p0 -> run p0 ops = Some (p, results) ->
  represents maxSeg interval p (fst (spec_run (mkSpec [] 0) ops))
  /\ zlen (records (fst (spec_run (mkSpec [] 0) ops))) <= zlen ops.
Proof.
  intros Hseg Hint Hops Hlen Hp0 Hrun.
  destruct (init_ok maxSeg interval Hseg Hint) as (q0 & Hq0 & Hrep0).
  rewrite Hp0 in Hq0. injection Hq0 as <-.
  destruct (run_refines maxSeg interval Hseg Hint ops p0 (mkSpec [] 0) Hrep0 Hops) as
    (q & rs & Hrun' & a & Ha & Hrep & Hle); [change (zlen (records (mkSpec [] 0))) with 0; lia|].
  rewrite Hrun in Hrun'. injection Hrun' as <- <-. by rewrite Ha.
Qed.

(** [AppendFenced] compares the epoch before it takes the write lock,
    and not again under it.  A writer of epoch [e] that passes the check
    while another node advances the fence beyond [e] still appends: its
    record is accepted at the next offset of a log that is fenced against
    it. *)
Theorem stale_epoch_appended maxSeg interval ops p0 p results e e' payload :
  12 <= maxSeg < 2147483648 -> 0 < interval ->
  Forall (op_ok maxSeg) ops -> zlen ops + 1 < 18446744073709551616 ->
  loadSegments [] maxSeg interval None = Some p0 -> run p0 ops = Some (p, results) ->
  fence_passes p e = true -> e <> 0 -> e < e' -> rec_len payload <= maxSeg ->
  let fenced := AdvanceFencingEpoch p e' in
  AppendFenced fenced e payload = (fenced, inl ErrStaleFencingEpoch)
  /\ exists p', fenced_append fenced e payload = (p', inr (nextOffset p))
       /\ fencingEpoch p' = e' /\ nextOffset p' = nextOffset p + 1.
Proof.
  intros Hseg Hint Hops Hlen Hp0 Hrun Hpass Hne He Hr fenced.
  destruct (run_represents maxSeg interval ops p0 p results) as [Hrep Hle]; try done; [lia|].
  set (a := fst (spec_run (mkSpec [] 0) ops)) in *.
  destruct (step_refines maxSeg interval Hseg Hint p a (OpAdvance e') Hrep) as (p1 & r1 & Hs & a1 & Ha & Hrep1 & Hle1);
    [unfold op_ok; cbn; unfold rec_len; change (zlen (@nil Z)) with 0; lia|lia|].
  cbn [step spec_step] in Hs, Ha. injection Hs as Hp1 _. injection Ha as Ha1 _. rewrite <- Hp1 in Hrep1. fold fenced in Hrep1.
  destruct (append_refines maxSeg interval Hseg Hint fenced a1 payload Hrep1 Hr) with (track := true) (e := e)
    as (p' & Hp' & Hrep'); [rewrite <- Ha1; cbn [records]; lia|].
  unfold fence_passes in Hpass. destruct Hrep as (Hok & Hm & _).
  assert (records a1 = records a) as Hrec by (by rewrite <- Ha1).
  assert (epoch_of a1 = e') as Hep by (rewrite <- Ha1; cbn [epoch_of]; lia).
  split.
  { unfold AppendFenced, fence_passes. destruct Hrep1 as (_ & -> & _). rewrite Hep.
    replace (e =? 0) with false by lia. by replace (e <? e') with true by lia. }
  exists p'. unfold fenced_append. rewrite Hp', Hrec. split; [by rewrite (log_next _ _ _ _ Hok)|].
  destruct Hrep' as (Hok' & Hm' & _). rewrite Hm', Hep. cbn [epoch_of]. split; [lia|].
  rewrite (log_next _ _ _ _ Hok'), (log_next _ _ _ _ Hok), Hrec. cbn [records]. apply zlen_app.
Qed.

(** [AdvanceFencingEpoch] wins the compare-and-swap and then writes the
    epoch file, with no lock around the two.  Of two concurrent advances the
    smaller may write last: memory holds the larger epoch, the file the
    smaller, and after a restart the log accepts the epoch it had already
    fenced off. *)
Theorem epoch_file_regresses maxSeg interval ops p0 p results e1 e2 :
  12 <= maxSeg < 2147483648 -> 0 < interval ->
  Forall (op_ok maxSeg) ops -> zlen ops < 18446744073709551616 ->
  loadSegments [] maxSeg interval None = Some p0 -> run p0 ops = Some (p, results) ->
  fencingEpoch p < e1 -> e1 < e2 ->
  let '(p1, won1) := advance_cas p e1 in
  let '(p2, won2) := advance_cas p1 e2 in
  let p4 := persistFencingEpoch (persistFencingEpoch p2 e2) e1 in
  won1 = true /\ won2 = true /\ fencingEpoch p4 = e2 /\ fence_passes p4 e1 = false
  /\ exists p5, restart p4 = Some p5 /\ fencingEpoch p5 = e1 /\ fence_passes p5 e1 = true.
Proof.
  intros Hseg Hint Hops Hlen Hp0 Hrun He1 He2.
  destruct (run_represents maxSeg interval ops p0 p results) as [(Hok & Hm & Hf) Hle]; try done.
  unfold advance_cas at 1. replace (e1 <=? fencingEpoch p) with false by lia.
  unfold advance_cas. cbn [fencingEpoch with_epoch]. replace (e2 <=? e1) with false by lia.
  set (p4 := persistFencingEpoch _ e1). split; [done|]. split; [done|]. split; [done|].
  split; [unfold fence_passes, p4; cbn; lia|].
  destruct (log_restart_ok maxSeg interval Hseg Hint p4 (records (fst (spec_run (mkSpec [] 0) ops))))
    as (p5 & Hp5 & _ & He & _).
  - destruct Hok as (sealed & active & r1 & r2 & n & slots & [] & E). by exists sealed, active, r1, r2, n, slots.
  - lia.
  - exists p5. split; [done|]. rewrite He. split; [done|]. unfold fence_passes. rewrite He. cbn. lia.
Qed.

(** ** An oversized record *)

(** A record larger than a segment is refused, but only after a roll:
    each refusal leaves one more segment in the log, with its two files and
    its mapping, and when the active segment was empty the new one is a
    second handle on the same files. *)
Theorem oversized_append_adds_segment p sealed active payload :
  segments p = sealed ++ [active] -> 0 <= logSize active -> logMaxSegSize p < 12 + zlen payload ->
  exists p', Append p payload = (p', inl ErrSpaceExhausted)
    /\ length (segments p') = S (length (segments p)) /\ nextOffset p' = nextOffset p
    /\ exists ro new, segments p' = sealed ++ [ro; new] /\ baseOffset ro = baseOffset active
         /\ baseOffset new = nextOffset p.
Proof.
  intros Hsegs Hl Hbig. unfold Append, appendPayloadLockedInner. cbn [andb].
  unfold append_record. rewrite Hsegs, last_snoc.
  replace (logMaxSegSize p <? logSize active + (12 + zlen payload)) with true by lia.
  unfold roll. rewrite Hsegs, last_snoc, length_app, Nat.add_sub, take_app_length.
  set (ro := NewSegment _ _ _ _ _ false). set (new := NewSegment _ _ _ _ _ true).
  cbn [segments with_segments].
  replace (sealed ++ [ro; new]) with ((sealed ++ [ro]) ++ [new]) by (by rewrite <- app_assoc).
  rewrite last_snoc. unfold Write.
  replace (maxSegSize new) with (logMaxSegSize p) by done. replace (logSize new) with 0 by done.
  replace (logMaxSegSize p <? 0 + (12 + zlen payload)) with true by lia.
  eexists. split; [reflexivity|]. cbn [segments nextOffset with_segments].
  split; [rewrite !length_app; simpl; lia|]. split; [done|].
  exists ro, new. by rewrite <- app_assoc.
Qed.

(** ** A torn record *)

(** The first of the three stores of [Write]: the length, of a record whose
    offset is not stored yet. *)
Definition write_length (s : Segment) (payload : list Z) : Segment :=
  with_log s (logSize s) (store_at (mmapData s) (logSize s) (be_put 4 (u32 (8 + zlen payload)))).

Definition torn (p : PartitionLog) (payload : list Z) : PartitionLog :=
  match last (segments p) with
  | None => p
  | Some active =>
      with_segments p (replace_last (segments p) (write_length active payload)) (nextOffset p) (bytesSinceIdx p)
  end.

Definition demo_ops : list Op :=
  [OpAppend [1; 2; 3]; OpFenced 1 [4]; OpReplicate 2 [5; 6; 7; 8; 9]; OpReplicate 7 [0]; OpReplicate 0 [0];
   OpAppend []; OpRestart; OpAdvance 3; OpFenced 2 [1]; OpFenced 3 [10; 11]; OpAppend [12]].

Definition demo_log : option PartitionLog :=
  match loadSegments [] 64 20 None with
  | Some p0 => option_map fst (run p0 demo_ops)
  | None => None
  end.

(** A process killed between the stores of a record's length and of its
    offset leaves a record of offset 0.  [Recover] only stops at a header of
    zeros, so it takes the record, and sets the next offset to 1: on the log
    of the demo run, the append after the restart is acknowledged at offset 1, where
    a read finds another record. *)
Theorem torn_append_resets_offset :
  exists p p1 p2, demo_log = Some p /\ nextOffset p = 6
    /\ restart (torn p [21; 22]) = Some p1 /\ nextOffset p1 = 1
    /\ Append p1 [23] = (p2, inr 1)
    /\ ReadRawMessages p2 1 1 = Some (Some (record_bytes 1 [4])).
Proof.
  eexists _, _, _. split; [vm_compute; reflexivity|]. split; [reflexivity|].
  split; [vm_compute; reflexivity|]. split; [reflexivity|]. split; [vm_compute; reflexivity|].
  vm_compute. reflexivity.
Qed.

(** ** Witnesses *)

Lemma demo_ok : Forall (op_ok 64) demo_ops.
Proof. unfold demo_ops, op_ok. repeat constructor; vm_compute; discriminate. Qed.

Lemma partition_log_refines_witness :
  Forall (op_ok 64) demo_ops /\
  exists p0 p results a,
    loadSegments [] 64 20 None = Some p0
    /\ run p0 demo_ops = Some (p, results) /\ spec_run (mkSpec [] 0) demo_ops = (a, results)
    /\ nextOffset p = zlen (records a) /\ fencingEpoch p = epoch_of a
    /\ forall start maxBytes, 0 <= start -> in_u32 maxBytes ->
         exists answer, ReadRawMessages p start maxBytes = Some answer
           /\ read_spec (records a) start maxBytes answer.
Proof.
  split; [exact demo_ok|].
  apply (partition_log_refines 64 20 demo_ops); [lia|lia|exact demo_ok|vm_compute; reflexivity].
Defined.

Lemma stale_epoch_appended_witness : exists p0 p results,
  loadSegments [] 64 20 None = Some p0 /\ run p0 demo_ops = Some (p, results) /\
  fence_passes p 3 = true /\
  let fenced := AdvanceFencingEpoch p 4 in
  AppendFenced fenced 3 [1] = (fenced, inl ErrStaleFencingEpoch)
  /\ exists p', fenced_append fenced 3 [1] = (p', inr (nextOffset p))
       /\ fencingEpoch p' = 4 /\ nextOffset p' = nextOffset p + 1.
Proof.
  eexists _, _, _. split; [vm_compute; reflexivity|]. split; [vm_compute; reflexivity|].
  split; [reflexivity|].
  eapply (stale_epoch_appended 64 20 demo_ops); try lia; try (vm_compute; reflexivity); [exact demo_ok|].
  vm_compute. discriminate.
Defined.

Lemma epoch_file_regresses_witness : exists p0 p results,
  loadSegments [] 64 20 None = Some p0 /\ run p0 demo_ops = Some (p, results) /\
  let '(p1, won1) := advance_cas p 4 in
  let '(p2, won2) := advance_cas p1 5 in
  let p4 := persistFencingEpoch (persistFencingEpoch p2 5) 4 in
  won1 = true /\ won2 = true /\ fencingEpoch p4 = 5 /\ fence_passes p4 4 = false
  /\ exists p5, restart p4 = Some p5 /\ fencingEpoch p5 = 4 /\ fence_passes p5 4 = true.
Proof.
  eexists _, _, _. split; [vm_compute; reflexivity|]. split; [vm_compute; reflexivity|].
  eapply (epoch_file_regresses 64 20 demo_ops); try lia; try (vm_compute; reflexivity); exact demo_ok.
Defined.

Definition small_log : PartitionLog :=
  mkLog [NewSegment [] [] 0 64 20 true] 0 0 20 64 0 None.

Lemma oversized_append_adds_segment_witness : exists p', Append small_log (replicate 60 7) = (p', inl ErrSpaceExhausted)
  /\ length (segments p') = 2%nat /\ nextOffset p' = 0
  /\ exists ro new, segments p' = [] ++ [ro; new] /\ baseOffset ro = 0 /\ baseOffset new = 0.
Proof.
  apply (oversized_append_adds_segment small_log [] (NewSegment [] [] 0 64 20 true) (replicate 60 7));
    [reflexivity|vm_compute; discriminate|vm_compute; reflexivity].
Defined.

Example demo_answers :
  match loadSegments [] 64 20 None with
  | Some p0 => option_map snd (run p0 demo_ops) = Some (snd (spec_run (mkSpec [] 0) demo_ops))
  | None => False
  end.
Proof. vm_compute. reflexivity. Qed.

End BrokerStore.
