(* ===== verification/BrokerTopics.v ===== *)
(** * Topics, partitions and committed offsets

    Models [pkg/broker/protocol]'s topic registry ([protocol.go],
    [registry_store.go]) and partition names ([partition.go]), and
    [pkg/broker/consumer_offset.go].  Names are byte lists, valid UTF-8, so
    that the JSON of the registry file gives them back; a file that is
    written is read back. *)

From stdpp Require Import pretty.
From S2P Require Import Prelude Wire RedisKeys BrokerWire.
Open Scope Z_scope.

Module BrokerTopics.
Import Wire RedisKeys BrokerWire.

(** ** The topic registry *)

Record RegistrySnapshot := mkSnap { Topics : gmap (list Z) Z; NextID : Z }.

Record TopicRegistry := mkReg {
  topics : gmap Z (list Z);       (* the array of pointers; an absent id is nil *)
  byName : gmap (list Z) Z;
  nextID : Z;
  hasStore : bool;                (* [fileStore != nil] *)
  regFile : option RegistrySnapshot   (* registry.json *)
}.

Definition validateTopicName (name : list Z) : bool := negb (bool_decide (name = [])) && (zlen name <=? 255).
Definition validateTopicID (id : Z) : bool := negb (id =? 0).

Definition installLocked (r : TopicRegistry) (name : list Z) (id : Z) : option TopicRegistry :=
  if negb (validateTopicName name) then None
  else if negb (validateTopicID id) then None
  else Some (mkReg (<[id := name]> (topics r)) (<[name := id]> (byName r)) (nextID r) (hasStore r) (regFile r)).

Definition snapshotLocked (r : TopicRegistry) : RegistrySnapshot := mkSnap (byName r) (nextID r +u32 1).

Definition persistLocked (r : TopicRegistry) : TopicRegistry :=
  if hasStore r then mkReg (topics r) (byName r) (nextID r) (hasStore r) (Some (snapshotLocked r)) else r.

Definition with_next (r : TopicRegistry) (n : Z) : TopicRegistry :=
  mkReg (topics r) (byName r) n (hasStore r) (regFile r).

Definition maxID (ids : gmap (list Z) Z) : Z := map_fold (fun _ id m => Z.max id m) 0 ids.

Definition rebuildNextIDLocked (r : TopicRegistry) (snapshotNext : Z) : TopicRegistry :=
  let next := maxID (byName r) in
  with_next r (if next <? snapshotNext then snapshotNext else next).

(** The loop of [applySnapshotLocked], over the entries in the order the
    iteration takes them; an error leaves what was installed before it. *)
Fixpoint apply_entries (r : TopicRegistry) (entries : list (list Z * Z)) (clusterWins : bool)
    : TopicRegistry * bool :=
  match entries with
  | [] => (r, true)
  | (name, id) :: rest =>
      if negb (validateTopicName name) then apply_entries r rest clusterWins
      else if negb (validateTopicID id) then apply_entries r rest clusterWins
      else if match byName r !! name with Some existing => negb (existing =? id) | None => false end
              && negb clusterWins
      then (r, false)
      else match installLocked r name id with
           | None => (r, false)
           | Some r' => apply_entries r' rest clusterWins
           end
  end.

Definition applySnapshotLocked (r : TopicRegistry) (entries : list (list Z * Z)) (next : Z)
    (clusterWins : bool) : TopicRegistry * bool :=
  let '(r1, ok) := apply_entries r entries clusterWins in
  if ok then (persistLocked (rebuildNextIDLocked r1 next), true) else (r1, false).

(** [Load]; a missing file is an empty snapshot. *)
Definition Load (r : TopicRegistry) (entries : list (list Z * Z)) : TopicRegistry * bool :=
  if hasStore r then
    applySnapshotLocked r entries (match regFile r with Some s => NextID s | None => 0 end) false
  else (r, true).

Definition Merge (r : TopicRegistry) (entries : list (list Z * Z)) (next : Z) : TopicRegistry * bool :=
  applySnapshotLocked r entries next true.

Definition Lookup (r : TopicRegistry) (id : Z) : option (list Z) := topics r !! id.

Definition install_and_save (r : TopicRegistry) (name : list Z) (id : Z) : TopicRegistry * option Z :=
  match installLocked r name id with
  | None => (r, None)
  | Some r' => (persistLocked r', Some id)
  end.

(** [Register] without a cluster store. *)
Definition Register (r : TopicRegistry) (name : list Z) : TopicRegistry * option Z :=
  if negb (validateTopicName name) then (r, None)
  else match byName r !! name with
       | Some id => (r, Some id)
       | None =>
           let next := nextID r +u32 1 in
           let r := with_next r next in
           if 65535 <? next then (r, None) else install_and_save r name (u16 next)
       end.

(** With one, the lock is released for the call: [Register_redis] is the
    part after it, on the registry of that time. *)
Definition Register_redis (r : TopicRegistry) (name : list Z) (redisID : Z) : TopicRegistry * option Z :=
  match byName r !! name with
  | Some existing => (r, if existing =? redisID then Some existing else None)
  | None => install_and_save r name redisID
  end.

(** A process that starts: [NewTopicRegistry], [SetFileStore], [Load]. *)
Definition restart (r : TopicRegistry) (entries : list (list Z * Z)) : TopicRegistry * bool :=
  Load (mkReg ∅ ∅ 0 (hasStore r) (regFile r)) entries.

Definition file_entries (r : TopicRegistry) : list (list Z * Z) :=
  match regFile r with Some s => map_to_list (Topics s) | None => [] end.

(** ** Partition names *)

Definition TopicPartitionID (topic : list Z) (partition : Z) : list Z :=
  topic ++ [47] ++ decimal partition.

(** [strconv.ParseUint(s, 10, 16)]. *)
Fixpoint uint_digits (s : list Z) (acc : Z) : option Z :=
  match s with
  | [] => Some acc
  | c :: rest =>
      if (48 <=? c) && (c <=? 57) then
        let n := acc * 10 + (c - 48) in if 65535 <? n then None else uint_digits rest n
      else None
  end.
Definition ParseUint16 (s : list Z) : option Z :=
  match s with [] => None | _ => uint_digits s 0 end.

(** The bytes before and after the last slash. *)
Fixpoint split_last_slash (s : list Z) : option (list Z * list Z) :=
  match s with
  | [] => None
  | c :: rest =>
      match split_last_slash rest with
      | Some (a, b) => Some (c :: a, b)
      | None => if c =? 47 then Some ([], rest) else None
      end
  end.

Definition ParseTopicPartitionID (tpKey : list Z) : list Z * Z :=
  match split_last_slash tpKey with
  | None => (tpKey, 0)
  | Some (topic, rest) =>
      match ParseUint16 rest with
      | None => (tpKey, 0)
      | Some p => (topic, p)
      end
  end.

(** ** Committed offsets *)

Record ConsumerOffsetTracker := mkTracker {
  offsets : gmap (list Z) Z;
  offsetFiles : gmap (list Z) Z    (* file stem to its eight bytes *)
}.

Definition key (topic : list Z) (partition : Z) (group : list Z) : list Z :=
  topic ++ [58] ++ decimal partition ++ [58] ++ group.

Definition is_safe (c : Z) : bool :=
  ((97 <=? c) && (c <=? 122)) || ((65 <=? c) && (c <=? 90)) || ((48 <=? c) && (c <=? 57))
  || (c =? 45) || (c =? 95).
Definition sanitizeFilename (s : list Z) : list Z := map (fun c => if is_safe c then c else 95) s.

(** The stem of [filename]; the extension is added and removed. *)
Definition filename (topic : list Z) (partition : Z) (group : list Z) : list Z :=
  sanitizeFilename topic ++ [95] ++ decimal partition ++ [95] ++ sanitizeFilename group.

Definition CommitOffset (t : ConsumerOffsetTracker) topic partition group (offset : Z)
    : ConsumerOffsetTracker * bool :=
  if negb (ValidateConsumerGroup group) then (t, false)
  else
    let k := key topic partition group in
    match offsets t !! k with
    | Some cur =>
        if offset <=? cur then (t, true)
        else (mkTracker (<[k := offset]> (offsets t))
                (<[filename topic partition group := offset]> (offsetFiles t)), true)
    | None =>
        (mkTracker (<[k := offset]> (offsets t))
           (<[filename topic partition group := offset]> (offsetFiles t)), true)
    end.

Definition GetCommittedOffset (t : ConsumerOffsetTracker) topic partition group
    : ConsumerOffsetTracker * Z :=
  let k := key topic partition group in
  match offsets t !! k with
  | Some v => (t, v)
  | None =>
      match offsetFiles t !! filename topic partition group with
      | None => (t, 0)
      | Some off => (mkTracker (<[k := off]> (offsets t)) (offsetFiles t), off)
      end
  end.

(** [LoadAll]: the key is the stem of the file. *)
Definition LoadAll (t : ConsumerOffsetTracker) : ConsumerOffsetTracker :=
  mkTracker (offsetFiles t ∪ offsets t) (offsetFiles t).

Definition NewConsumerOffsetTracker (files : gmap (list Z) Z) : ConsumerOffsetTracker :=
  LoadAll (mkTracker ∅ files).

(** ** The registry invariant *)

Definition fresh_registry : TopicRegistry := mkReg ∅ ∅ 0 true None.

Record RegOk (r : TopicRegistry) : Prop := {
  rk_store : hasStore r = true;
  rk_ids : forall n i, byName r !! n = Some i ->
    1 <= i <= 65535 /\ i <= nextID r /\ topics r !! i = Some n /\ validateTopicName n = true;
  rk_next : 0 <= nextID r;
  rk_file : match regFile r with
            | Some s => Topics s = byName r /\ 0 <= NextID s <= nextID r + 1
            | None => byName r = ∅
            end
}.

Lemma registry_fresh_ok : RegOk fresh_registry.
Proof. split; done. Qed.

Lemma maxID_spec (m : gmap (list Z) Z) :
  0 <= maxID m /\ (forall n i, m !! n = Some i -> i <= maxID m)
  /\ (maxID m = 0 \/ exists n, m !! n = Some (maxID m)).
Proof.
  unfold maxID. apply (map_fold_weak_ind (fun r m => 0 <= r /\ (forall n i, m !! n = Some i -> i <= r)
    /\ (r = 0 \/ exists n, m !! n = Some r))).
  - split; [done|]. split; [|by left]. intros n i. by rewrite lookup_empty.
  - intros n i m' r Hn (H0 & Hle & Hex). split; [lia|]. split.
    + intros k j. rewrite lookup_insert_Some. intros [[<- <-]|[_ Hk]]; [lia|]. specialize (Hle _ _ Hk). lia.
    + destruct (decide (r <= i)) as [Hi|Hi].
      * right. exists n. rewrite lookup_insert_eq. f_equal. lia.
      * destruct Hex as [->|[k Hk]]; [lia|]. right. exists k. rewrite lookup_insert_ne; [rewrite Hk; f_equal; lia|].
        intros ->. by rewrite Hn in Hk.
Qed.

(** Installing the entries of an injective map rebuilds it, in any order. *)
Lemma apply_entries_ok entries : forall r,
  NoDup (map fst entries) -> NoDup (map snd entries) ->
  (forall n i, In (n, i) entries -> validateTopicName n = true /\ 1 <= i) ->
  (forall n i, In (n, i) entries -> byName r !! n = None /\ topics r !! i = None) ->
  exists r', apply_entries r entries false = (r', true)
    /\ byName r' = list_to_map entries ∪ byName r
    /\ (forall i n, topics r' !! i = Some n <-> In (n, i) entries \/ topics r !! i = Some n)
    /\ nextID r' = nextID r /\ hasStore r' = hasStore r /\ regFile r' = regFile r.
Proof.
  induction entries as [|[n i] rest IH]; intros r Hn Hi Hv Hnew; cbn [apply_entries map fst snd] in *.
  { exists r. split; [done|]. split; [by rewrite list_to_map_nil, (left_id_L ∅ (∪))|]. split; [|done]. intros. simpl. tauto. }
  apply NoDup_cons in Hn as [Hn Hnd]. apply NoDup_cons in Hi as [Hi Hid].
  destruct (Hv n i (or_introl eq_refl)) as [Hvn Hi1]. destruct (Hnew n i (or_introl eq_refl)) as [Hb Ht].
  rewrite Hvn. unfold validateTopicID. replace (i =? 0) with false by lia. cbn [negb].
  rewrite Hb. cbn [andb]. unfold installLocked. rewrite Hvn. unfold validateTopicID.
  replace (i =? 0) with false by lia. cbn [negb].
  destruct (IH (mkReg (<[i:=n]> (topics r)) (<[n:=i]> (byName r)) (nextID r) (hasStore r) (regFile r)))
    as (r' & Hr' & Hby & Htop & Hrest); try done.
  - intros m j Hin. apply Hv. by right.
  - intros m j Hin. cbn [byName topics]. destruct (Hnew m j (or_intror Hin)) as [H1 H2].
    rewrite !lookup_insert_ne; [done| |].
    + intros ->. apply Hi. apply list_elem_of_In, in_map_iff. by exists (m, j).
    + intros ->. apply Hn. apply list_elem_of_In, in_map_iff. by exists (m, j).
  - exists r'. split; [done|]. cbn [byName topics nextID hasStore regFile] in *. split.
    + rewrite Hby. cbn [list_to_map foldr]. rewrite <- insert_union_r by (by apply not_elem_of_list_to_map_1).
      by rewrite insert_union_l.
    + split; [|done]. intros j m. rewrite Htop, lookup_insert_Some. split.
      * intros [H|[[<- <-]|[_ H]]]; [by left; right|by left; left|by right].
      * intros [[[= <- <-]|H]|H]; [right; by left|by left|]. right. right. split; [|done].
        intros <-. by rewrite Ht in H.
Qed.

Lemma with_next_ok r n : RegOk r -> nextID r <= n -> RegOk (with_next r n).
Proof.
  intros [Hs Hids Hn Hf] Hle. split; cbn [hasStore byName topics nextID regFile with_next]; try done; try lia.
  - intros m i Hm. destruct (Hids _ _ Hm) as (H1 & H2 & H3 & H4). repeat split; try done; lia.
  - destruct (regFile r) as [s|]; [|done]. destruct Hf as [H1 H2]. split; [done|lia].
Qed.

Lemma register_ok r name : RegOk r -> nextID r < 4294967294 ->
  let '(r', result) := Register r name in
  RegOk r' /\ nextID r <= nextID r' <= nextID r + 1
  /\ byName r ⊆ byName r' /\ match result with Some i => byName r' !! name = Some i | None => byName r' = byName r end.
Proof.
  intros H Hb. unfold Register.
  destruct (validateTopicName name) eqn:Hv; cbn [negb]; [|split; [done|]; split; [lia|]; split; done].
  destruct (byName r !! name) as [id|] eqn:Hname; [split; [done|]; split; [lia|]; split; done|].
  pose proof (rk_next r H). rewrite u32_id by go_lia.
  pose proof (with_next_ok r (nextID r + 1) H ltac:(lia)) as Hw.
  destruct (65535 <? nextID r + 1) eqn:Hlim; [split; [done|]; cbn; split; [lia|]; split; done|].
  rewrite u16_id by go_lia. unfold install_and_save, installLocked. rewrite Hv. unfold validateTopicID.
  replace (nextID r + 1 =? 0) with false by lia. cbn [negb].
  unfold persistLocked. cbn [hasStore with_next]. rewrite (rk_store r H).
  cbn [topics byName nextID hasStore regFile with_next].
  split; [|split; [lia|split; [by apply insert_subseteq|by rewrite lookup_insert_eq]]].
  split; cbn [topics byName nextID hasStore regFile]; try done; try lia.
  - intros m i. rewrite lookup_insert_Some. intros [[<- <-]|[Hne Hm]].
    + repeat split; try done; try lia. by rewrite lookup_insert_eq.
    + destruct (rk_ids r H _ _ Hm) as (H1 & H2 & H3 & H4). repeat split; try done; try lia.
      rewrite lookup_insert_ne by lia. done.
  - unfold snapshotLocked. cbn [Topics NextID byName nextID]. rewrite u32_id by go_lia. split; [done|lia].
Qed.

Lemma file_entries_ok r entries : RegOk r -> Permutation entries (file_entries r) ->
  list_to_map entries = byName r /\ NoDup (map fst entries) /\ NoDup (map snd entries)
  /\ (forall n i, In (n, i) entries <-> byName r !! n = Some i).
Proof.
  intros H Hp.
  assert (Permutation entries (map_to_list (byName r))) as Hp'.
  { rewrite Hp. unfold file_entries. pose proof (rk_file r H) as Hf.
    destruct (regFile r) as [s|]; [by destruct Hf as [-> _]|]. by rewrite Hf, map_to_list_empty. }
  pose proof (NoDup_fst_map_to_list (byName r)) as Hnd.
  assert (NoDup (map fst entries)) as Hn.
  { change (map fst) with (fmap (M := list) (@fst (list Z) Z)). by rewrite Hp'. }
  assert (forall n i, In (n, i) entries <-> byName r !! n = Some i) as Hin.
  { intros n i. rewrite <- list_elem_of_In, Hp'. apply elem_of_map_to_list. }
  split; [|split; [done|split; [|done]]].
  - rewrite <- (list_to_map_to_list (byName r)). by apply list_to_map_proper.
  - change (map snd) with (fmap (M := list) (@snd (list Z) Z)).
    apply NoDup_fmap_2_strong; [|by apply (NoDup_fmap_1 fst)].
    intros [n i] [m j] H1%list_elem_of_In%Hin H2%list_elem_of_In%Hin [= ->].
    destruct (rk_ids r H _ _ H1) as (_ & _ & E1 & _). destruct (rk_ids r H _ _ H2) as (_ & _ & E2 & _).
    rewrite E1 in E2. by injection E2 as ->.
Qed.

Lemma registry_restart_ok r entries : RegOk r -> nextID r < 4294967294 ->
  Permutation entries (file_entries r) ->
  let '(r', ok) := restart r entries in
  ok = true /\ RegOk r' /\ byName r' = byName r /\ nextID r' <= nextID r + 1.
Proof.
  intros H Hb Hp. destruct (file_entries_ok r entries H Hp) as (Hmap & Hn & Hi & Hin).
  unfold restart, Load. cbn [hasStore regFile]. rewrite (rk_store r H). unfold applySnapshotLocked.
  destruct (apply_entries_ok entries (mkReg ∅ ∅ 0 true (regFile r)) Hn Hi) as
    (r' & -> & Hby & Htop & Hnext & Hstore & Hfile).
  { intros n i Hni%Hin. destruct (rk_ids r H _ _ Hni) as (H1 & _ & _ & H4). split; [done|lia]. }
  { intros n i _. cbn. by rewrite !lookup_empty. }
  cbn [byName topics nextID hasStore regFile] in *. rewrite Hmap, (right_id_L ∅ (∪)) in Hby.
  unfold persistLocked, rebuildNextIDLocked. cbn [hasStore with_next]. rewrite Hstore, Hby.
  destruct (maxID_spec (byName r)) as (Hm0 & Hmax & Hmaxin).
  pose proof (rk_next r H).
  assert (maxID (byName r) <= nextID r) as Hmle.
  { destruct Hmaxin as [->|[n Hmi]]; [done|]. destruct (rk_ids r H _ _ Hmi) as (_ & H2 & _). done. }
  set (next := match regFile r with Some s => NextID s | None => 0 end).
  assert (0 <= next <= nextID r + 1) as Hnx.
  { unfold next. pose proof (rk_file r H) as Hf. destruct (regFile r); [tauto|lia]. }
  split; [done|]. split; [|split; [done|cbn; case_if; lia]].
  split; cbn [topics byName nextID hasStore regFile with_next]; try done.
  - intros n i Hni. rewrite Hby in Hni. destruct (rk_ids r H _ _ Hni) as (H1 & H2 & H3 & H4).
    split; [done|]. split; [specialize (Hmax _ _ Hni); case_if; lia|]. split; [|done].
    apply Htop. left. by apply Hin.
  - case_if; lia.
  - unfold snapshotLocked. cbn [Topics NextID byName nextID]. split; [done|].
    cbn [nextID with_next]. rewrite u32_id; case_if; go_lia.
Qed.

(** One step of a broker without a cluster: a registration, or a restart
    that takes the entries of the file in some order. *)
Inductive step : TopicRegistry -> TopicRegistry -> Prop :=
  | step_register r name : step r (fst (Register r name))
  | step_restart r entries : Permutation entries (file_entries r) -> step r (fst (restart r entries)).

Inductive steps : nat -> TopicRegistry -> TopicRegistry -> Prop :=
  | steps_refl r : steps 0 r r
  | steps_next n r r' r'' : steps n r r' -> step r' r'' -> steps (S n) r r''.

Lemma steps_ok n r r' : steps n r r' -> RegOk r -> nextID r + Z.of_nat n < 4294967295 ->
  RegOk r' /\ nextID r' <= nextID r + Z.of_nat n /\ byName r ⊆ byName r'.
Proof.
  intros Hs Hr. induction Hs as [r|n r r' r'' Hs IH Hstep]; intros Hb; [split; [done|split; [lia|done]]|].
  destruct (IH Hr) as (Hok & Hn & Hsub); [lia|].
  destruct Hstep as [r1 name|r1 entries Hp].
  - pose proof (register_ok r1 name Hok ltac:(lia)) as H. destruct (Register r1 name) as [r2 res].
    destruct H as (H1 & H2 & H3 & _). split; [done|]. split; [cbn; lia|]. by transitivity (byName r1).
  - pose proof (registry_restart_ok r1 entries Hok ltac:(lia) Hp) as H. destruct (restart r1 entries) as [r2 ok].
    destruct H as (_ & H1 & H2 & H3). split; [done|]. split; [cbn; lia|]. cbn. by rewrite H2.
Qed.

(** Topic ids are unique and stable.  In any sequence of registrations
    and restarts of a broker without a cluster store, whatever order the
    snapshot is iterated in, every registered name has an id from 1 to
    65535, the id finds the name back, no two names share one, and a name
    keeps its id for ever. *)
Theorem topic_ids_unique_stable n m r r' : steps n fresh_registry r -> steps m r r' ->
  Z.of_nat n + Z.of_nat m < 4294967295 ->
  (forall a i, byName r !! a = Some i -> 1 <= i <= 65535 /\ Lookup r i = Some a /\ byName r' !! a = Some i)
  /\ (forall a b i, byName r !! a = Some i -> byName r !! b = Some i -> a = b).
Proof.
  intros Hs Hs' Hb.
  destruct (steps_ok _ _ _ Hs registry_fresh_ok) as (Hok & Hn & _); [cbn; lia|]. cbn in Hn.
  destruct (steps_ok _ _ _ Hs' Hok) as (Hok' & _ & Hsub); [lia|].
  split.
  - intros a i Ha. destruct (rk_ids r Hok _ _ Ha) as (H1 & _ & H3 & _).
    split; [done|]. split; [done|]. by eapply lookup_weaken.
  - intros a b i Ha Hb'. destruct (rk_ids r Hok _ _ Ha) as (_ & _ & E1 & _).
    destruct (rk_ids r Hok _ _ Hb') as (_ & _ & E2 & _). congruence.
Qed.

(** ** What breaks it *)

Definition reboot (r : TopicRegistry) : TopicRegistry := fst (restart r (file_entries r)).

Lemma reboots n : Z.of_nat n < 4294967294 ->
  Nat.iter (S n) reboot fresh_registry = mkReg ∅ ∅ (Z.of_nat n) true (Some (mkSnap ∅ (Z.of_nat n + 1))).
Proof.
  induction n as [|n IH]; intros Hn; [reflexivity|].
  change (Nat.iter (S (S n)) reboot fresh_registry) with (reboot (Nat.iter (S n) reboot fresh_registry)).
  rewrite IH by lia. unfold reboot, restart, Load, file_entries.
  cbn [hasStore regFile Topics NextID]. rewrite map_to_list_empty.
  unfold applySnapshotLocked, rebuildNextIDLocked, persistLocked, snapshotLocked, maxID.
  cbn [apply_entries byName]. rewrite map_fold_empty. replace (0 <? Z.of_nat n + 1) with true by lia.
  cbn [with_next hasStore topics byName nextID regFile fst]. rewrite u32_id by go_lia.
  by replace (Z.of_nat (S n)) with (Z.of_nat n + 1) by lia.
Qed.

(** The saved next id is one past the last id used, and a restart takes
    it for the last id used: every restart burns an id.  A broker restarted
    65,536 times refuses every new topic although it has none. *)
Theorem restarts_exhaust_topic_ids k name : 65536 <= k < 4294967294 -> validateTopicName name = true ->
  let r := Nat.iter (Z.to_nat k) reboot fresh_registry in
  byName r = ∅ /\ snd (Register r name) = None.
Proof.
  intros Hk Hv. replace (Z.to_nat k) with (S (Z.to_nat (k - 1))) by lia.
  cbv zeta. rewrite reboots by lia. split; [done|].
  unfold Register. rewrite Hv. cbn [byName negb nextID]. rewrite lookup_empty, Z2Nat.id, u32_id by go_lia.
  by replace (65535 <? k - 1 + 1) with true by lia.
Qed.

(** [Merge] installs the cluster's entry without looking at who holds
    its id here.  When another local topic does, both names answer the same
    id, and the id finds only the cluster's topic. *)
Theorem merge_shares_topic_id r a b i next :
  byName r !! a = Some i -> 1 <= i <= 65535 -> a <> b -> validateTopicName a = true -> validateTopicName b = true ->
  let '(r', ok) := Merge r [(b, i)] next in
  ok = true /\ byName r' !! a = Some i /\ byName r' !! b = Some i /\ Lookup r' i = Some b
  /\ snd (Register r' a) = Some i.
Proof.
  intros Ha Hi Hab Hva Hb. unfold Merge, applySnapshotLocked. cbn [apply_entries]. rewrite Hb.
  unfold validateTopicID. replace (i =? 0) with false by lia. cbn [negb]. rewrite andb_false_r.
  unfold installLocked. rewrite Hb. unfold validateTopicID. replace (i =? 0) with false by lia. cbn [negb].
  set (r1 := mkReg _ _ _ _ _). set (r2 := persistLocked _).
  assert (byName r2 = <[b:=i]> (byName r) /\ topics r2 = <[i:=b]> (topics r)) as [E1 E2].
  { unfold r2, persistLocked. case_if; done. }
  unfold Lookup, Register. rewrite E1, E2, Hva. cbn [negb].
  rewrite lookup_insert_ne, Ha, !lookup_insert_eq by done. done.
Qed.

(** ** Partition names *)

Lemma split_last_slash_app a : forall b, ~ In 47 b -> split_last_slash (a ++ [47] ++ b) = Some (a, b).
Proof.
  induction a as [|c a IH]; intros b Hb.
  - assert (split_last_slash b = None) as Hn.
    { clear - Hb. induction b as [|c b IH]; [done|]. cbn [split_last_slash].
      rewrite IH by (intros H; apply Hb; by right). case_if; [|done].
      exfalso. apply Hb. left. lia. }
    cbn. by rewrite Hn.
  - change ((c :: a) ++ [47] ++ b) with (c :: (a ++ [47] ++ b)). cbn [split_last_slash]. by rewrite IH.
Qed.

Definition is_digit (c : Z) : Prop := 48 <= c <= 57.

Lemma digit_char x : (x < 10)%N -> Z.of_nat (Ascii.nat_of_ascii (pretty_N_char x)) = 48 + Z.of_N x.
Proof.
  intros H. assert (x = 0 \/ x = 1 \/ x = 2 \/ x = 3 \/ x = 4 \/ x = 5 \/ x = 6 \/ x = 7 \/ x = 8 \/ x = 9)%N as Hx by lia.
  repeat (destruct Hx as [->|Hx]; [reflexivity|]). by subst.
Qed.

(** The digits of a number parse back to it, whatever follows them. *)
Lemma pretty_go_digits x : forall s, (x <= 65535)%N ->
  uint_digits (lit (pretty_N_go x s)) 0 = uint_digits (lit s) (Z.of_N x)
  /\ (Forall is_digit (lit s) -> Forall is_digit (lit (pretty_N_go x s))).
Proof.
  induction (N.lt_wf_0 x) as [x _ IH]. intros s Hx.
  destruct (decide (x = 0)%N) as [->|Hne]; [by rewrite pretty_N_go_0|].
  rewrite pretty_N_go_step by lia.
  pose proof (N.mod_lt x 10 ltac:(done)) as Hm. pose proof (N.div_lt x 10 ltac:(lia) ltac:(lia)) as Hd.
  destruct (IH (x `div` 10)%N Hd (String (pretty_N_char (x `mod` 10)) s) ltac:(lia)) as [E F].
  pose proof (N.div_mod x 10 ltac:(done)) as Hdm.
  assert (lit (String (pretty_N_char (x `mod` 10)) s) = (48 + Z.of_N (x `mod` 10)) :: lit s) as Hl.
  { unfold lit. cbn [String.list_ascii_of_string map]. by rewrite digit_char. }
  rewrite E, Hl. rewrite Hl in F. split.
  - cbn [uint_digits]. cbv zeta.
    assert (0 <= Z.of_N (x `mod` 10) < 10) as Hr
      by (split; [apply N2Z.is_nonneg|exact (proj1 (N2Z.inj_lt _ 10) Hm)]).
    assert (Z.of_N (x `div` 10) * 10 + Z.of_N (x `mod` 10) = Z.of_N x) as Hq.
    { rewrite Hdm at 3. rewrite N2Z.inj_add, N2Z.inj_mul. change (Z.of_N 10) with 10. lia. }
    clear E F IH Hd Hdm Hm Hl. set (r := Z.of_N (x `mod` 10)) in *. clearbody r.
    set (q := Z.of_N (x `div` 10)) in *. clearbody q.
    replace ((48 <=? 48 + r) && (48 + r <=? 57)) with true by lia.
    replace (q * 10 + (48 + r - 48)) with (Z.of_N x) by lia.
    by replace (65535 <? Z.of_N x) with false by lia.
  - intros Hs. apply F. constructor; [|done].
    pose proof (proj1 (N2Z.inj_lt _ 10) Hm). pose proof (N2Z.is_nonneg (x `mod` 10)). unfold is_digit. lia.
Qed.

Lemma partition_digits p : in_u16 p -> ParseUint16 (decimal p) = Some p /\ ~ In 47 (decimal p).
Proof.
  unfold in_u16, decimal. intros Hp. unfold pretty, pretty_N.
  destruct (decide (Z.to_N p = 0%N)) as [E|Hne].
  { replace p with 0 by lia. split; [done|]. intros [H|H]; [discriminate H|destruct H]. }
  destruct (pretty_go_digits (Z.to_N p) "" ltac:(lia)) as [E F]. rewrite Z2N.id in E by lia.
  change (lit "") with (@nil Z) in *. cbn [uint_digits] in E. specialize (F (Forall_nil_2 _)).
  destruct (lit _) as [|c rest] eqn:El; [cbn in E; simplify_eq; lia|]. split; [done|].
  intros Hin. rewrite Forall_forall in F. apply list_elem_of_In in Hin. specialize (F _ Hin). unfold is_digit in F. lia.
Qed.

(** A partition's name gives back its topic and its number, whatever
    bytes the topic has, slashes included. *)
Theorem topic_partition_roundtrip topic partition : in_u16 partition ->
  ParseTopicPartitionID (TopicPartitionID topic partition) = (topic, partition).
Proof.
  intros Hp. destruct (partition_digits partition Hp) as [H1 H2].
  unfold ParseTopicPartitionID, TopicPartitionID. rewrite split_last_slash_app by done. by rewrite H1.
Qed.

(** ** Committed offsets *)

Inductive offset_step : ConsumerOffsetTracker -> ConsumerOffsetTracker -> Prop :=
  | os_commit t topic partition group offset :
      offset_step t (fst (CommitOffset t topic partition group offset))
  | os_get t topic partition group : offset_step t (fst (GetCommittedOffset t topic partition group)).

Inductive offset_steps : ConsumerOffsetTracker -> ConsumerOffsetTracker -> Prop :=
  | oss_refl t : offset_steps t t
  | oss_next t t' t'' : offset_steps t t' -> offset_step t' t'' -> offset_steps t t''.

Lemma offset_step_mono t t' k v : offset_step t t' -> offsets t !! k = Some v ->
  exists v', offsets t' !! k = Some v' /\ v <= v'.
Proof.
  intros Hs Hk. destruct Hs as [t topic partition group offset|t topic partition group].
  - unfold CommitOffset. case_if; [by exists v|]. cbv zeta. case_if; [case_if; [by exists v|]|];
      cbn [fst offsets]; destruct (decide (k = key topic partition group)) as [->|Hne];
      rewrite ?lookup_insert_eq, ?lookup_insert_ne by done; eauto with lia.
    + exists offset. split; [done|]. rewrite Hk in *. simplify_eq. lia.
    + congruence.
  - unfold GetCommittedOffset. cbv zeta. case_if; [by exists v|]. case_if; [|by exists v].
    cbn [fst offsets]. exists v. rewrite lookup_insert_ne; [done|]. intros <-. congruence.
Qed.

(** While the process runs, a committed offset never goes back: after
    any commits and reads of any groups, the offset read for a group is at
    least the one committed. *)
Theorem committed_offset_monotone t t' topic partition group offset :
  ValidateConsumerGroup group = true ->
  offset_steps (fst (CommitOffset t topic partition group offset)) t' ->
  offset <= snd (GetCommittedOffset t' topic partition group).
Proof.
  intros Hg Hs.
  set (t0 := fst (CommitOffset t topic partition group offset)) in *.
  assert (exists v, offsets t0 !! key topic partition group = Some v /\ offset <= v) as (v0 & Hv0 & Hle0).
  { unfold t0, CommitOffset. rewrite Hg. cbn [negb]. cbv zeta. case_if; [case_if|];
      cbn [fst offsets]; rewrite ?lookup_insert_eq; eauto with lia. }
  assert (exists v, offsets t' !! key topic partition group = Some v /\ offset <= v) as (v & Hv & Hle).
  { induction Hs as [|t1 t' t'' Hs IH Hstep]; [by exists v0|].
    destruct (IH Hv0) as (v1 & Hv1 & Hle1).
    destruct (offset_step_mono _ _ _ _ Hstep Hv1) as (v2 & Hv2 & Hle2). exists v2. split; [done|lia]. }
  unfold GetCommittedOffset. cbv zeta. by rewrite Hv.
Qed.

(** The file of a group is named after a sanitised copy of its name.
    Two groups of a topic whose names differ only in characters outside
    letters, digits, dash and underscore share it: after a restart a group
    that never committed resumes at the other's offset, and skips every
    message before it. *)
Theorem sanitised_groups_share_offset t topic partition g1 g2 offset :
  ValidateConsumerGroup g1 = true -> sanitizeFilename g1 = sanitizeFilename g2 ->
  offsets t !! key topic partition g1 = None ->
  let t1 := fst (CommitOffset t topic partition g1 offset) in
  let t2 := NewConsumerOffsetTracker (offsetFiles t1) in
  offsetFiles t1 !! key topic partition g2 = None ->
  snd (GetCommittedOffset t2 topic partition g2) = offset.
Proof.
  intros Hg Hsan Hnone t1 t2 Hkey.
  assert (offsetFiles t1 !! filename topic partition g2 = Some offset) as Hfile.
  { unfold t1, CommitOffset. rewrite Hg. cbn [negb]. cbv zeta. rewrite Hnone. cbn [fst offsetFiles].
    unfold filename. rewrite Hsan. apply lookup_insert_eq. }
  unfold GetCommittedOffset, t2, NewConsumerOffsetTracker, LoadAll. cbv zeta. cbn [offsets offsetFiles].
  rewrite (right_id_L ∅ (∪)), Hkey, Hfile. done.
Qed.

(** A restart loads the offsets under the stems of their files, which
    are never the keys commits look up, so the first commit after a restart
    is not compared with the stored one and overwrites it, even with a lower
    offset. *)
Theorem commit_regresses_after_restart t topic partition group o1 o2 :
  ValidateConsumerGroup group = true -> offsets t !! key topic partition group = None ->
  let t1 := fst (CommitOffset t topic partition group o1) in
  let t2 := NewConsumerOffsetTracker (offsetFiles t1) in
  offsetFiles t1 !! key topic partition group = None ->
  let t3 := fst (CommitOffset t2 topic partition group o2) in
  snd (GetCommittedOffset t3 topic partition group) = o2
  /\ offsetFiles t1 !! filename topic partition group = Some o1
  /\ offsetFiles t3 !! filename topic partition group = Some o2.
Proof.
  intros Hg Hnone t1 t2 Hkey t3.
  assert (offsets t2 !! key topic partition group = None) as Hk2.
  { unfold t2, NewConsumerOffsetTracker, LoadAll. cbn [offsets offsetFiles].
    by rewrite (right_id_L ∅ (∪)). }
  unfold t3, CommitOffset at 1 2. rewrite Hg. cbn [negb]. cbv zeta. rewrite Hk2. cbn [fst offsetFiles].
  unfold GetCommittedOffset. cbv zeta. cbn [offsets]. rewrite !lookup_insert_eq. split; [done|]. split; [|done].
  unfold t1, CommitOffset. rewrite Hg. cbn [negb]. cbv zeta. rewrite Hnone. cbn [fst offsetFiles].
  by rewrite lookup_insert_eq.
Qed.

(** ** Witnesses *)

Definition clicks : list Z := lit "clicks".
Definition bids : list Z := lit "bids".
Definition empty_tracker : ConsumerOffsetTracker := mkTracker ∅ ∅.

Lemma topic_ids_unique_stable_witness : exists r r', steps 2 fresh_registry r /\ steps 2 r r' /\
  (forall a i, byName r !! a = Some i -> 1 <= i <= 65535 /\ Lookup r i = Some a /\ byName r' !! a = Some i)
  /\ byName r !! bids = Some 2.
Proof.
  set (r1 := fst (Register fresh_registry clicks)). set (r2 := fst (Register r1 bids)).
  set (r3 := reboot r2). set (r4 := fst (Register r3 (lit "wins"))).
  assert (steps 2 fresh_registry r2) as H1.
  { eapply steps_next; [eapply steps_next; [apply steps_refl|apply step_register]|apply step_register]. }
  assert (steps 2 r2 r4) as H2.
  { eapply steps_next; [eapply steps_next; [apply steps_refl|apply step_restart; reflexivity]|apply step_register]. }
  exists r2, r4. split; [exact H1|]. split; [exact H2|]. split; [|vm_compute; reflexivity].
  exact (proj1 (topic_ids_unique_stable 2 2 r2 r4 H1 H2 ltac:(lia))).
Defined.

Lemma restarts_exhaust_topic_ids_witness :
  let r := Nat.iter (Z.to_nat 65536) reboot fresh_registry in
  byName r = ∅ /\ snd (Register r clicks) = None.
Proof. apply (restarts_exhaust_topic_ids 65536 clicks); [lia|reflexivity]. Defined.

Lemma merge_shares_topic_id_witness :
  let '(r', ok) := Merge (fst (Register fresh_registry clicks)) [(bids, 1)] 2 in
  ok = true /\ byName r' !! clicks = Some 1 /\ byName r' !! bids = Some 1 /\ Lookup r' 1 = Some bids
  /\ snd (Register r' clicks) = Some 1.
Proof.
  apply (merge_shares_topic_id (fst (Register fresh_registry clicks)) clicks bids 1 2);
    [reflexivity|lia|discriminate|reflexivity|reflexivity].
Defined.

Lemma topic_partition_roundtrip_witness :
  ParseTopicPartitionID (TopicPartitionID (lit "a/7") 65535) = (lit "a/7", 65535).
Proof. apply (topic_partition_roundtrip (lit "a/7") 65535). unfold in_u16. lia. Defined.

Lemma committed_offset_monotone_witness : exists t',
  offset_steps (fst (CommitOffset empty_tracker clicks 0 bids 7)) t' /\ 7 <= snd (GetCommittedOffset t' clicks 0 bids).
Proof.
  exists (fst (CommitOffset (fst (CommitOffset empty_tracker clicks 0 bids 7)) clicks 0 bids 3)).
  split; [eapply oss_next; [apply oss_refl|apply os_commit]|].
  apply (committed_offset_monotone empty_tracker _ clicks 0 bids 7); [reflexivity|].
  eapply oss_next; [apply oss_refl|apply os_commit].
Defined.

Lemma sanitised_groups_share_offset_witness :
  snd (GetCommittedOffset (NewConsumerOffsetTracker (offsetFiles (fst (CommitOffset empty_tracker clicks 0 (lit "g.a") 900))))
    clicks 0 (lit "g:a")) = 900.
Proof.
  apply (sanitised_groups_share_offset empty_tracker clicks 0 (lit "g.a") (lit "g:a") 900); reflexivity.
Defined.

Lemma commit_regresses_after_restart_witness :
  let t1 := fst (CommitOffset empty_tracker clicks 0 bids 900) in
  let t3 := fst (CommitOffset (NewConsumerOffsetTracker (offsetFiles t1)) clicks 0 bids 5) in
  snd (GetCommittedOffset t3 clicks 0 bids) = 5
  /\ offsetFiles t1 !! filename clicks 0 bids = Some 900
  /\ offsetFiles t3 !! filename clicks 0 bids = Some 5.
Proof. apply (commit_regresses_after_restart empty_tracker clicks 0 bids 900 5); reflexivity. Defined.

End BrokerTopics.
