(* ===== verification/BrokerRetention.v ===== *)
(** * Retention of a partition log

    Models [pkg/broker/log/retention.go] over the segments of [BrokerLog].
    What [Stat] answers for a segment's files is a function [stat]; the
    removal of the files succeeds. *)

From S2P Require Import Prelude BrokerLog BrokerStore.
Open Scope Z_scope.

Module BrokerRetention.
Import BrokerLog.

(** Times and durations are nanoseconds. *)
Record RetentionPolicy := mkPolicy {
  MaxAge : Z; MaxBytes : Z; FloorOffset : Z; SafetyMessages : Z
}.

Definition Enabled (p : RetentionPolicy) : bool := (0 <? MaxAge p) || (0 <? MaxBytes p).

Record segmentMeta := mkMeta {
  m_baseOffset : Z; m_highOffset : Z; m_bytes : Z; m_modTime : Z
}.

Definition segmentHighOffset (baseOffset nextBaseOffset headOffset : Z) : Z :=
  if baseOffset <? nextBaseOffset then
    if nextBaseOffset =? 0 then baseOffset else nextBaseOffset -u64 1
  else if baseOffset <? headOffset then headOffset -u64 1
  else baseOffset.

Definition retentionSafeOffset (headOffset : Z) (policy : RetentionPolicy) : Z * bool :=
  let enforce := (0 <? SafetyMessages policy) || (0 <? FloorOffset policy) in
  let safe := if (0 <? SafetyMessages policy) && (SafetyMessages policy <? headOffset)
              then headOffset -u64 SafetyMessages policy else 0 in
  (if safe <? FloorOffset policy then FloorOffset policy else safe, enforce).

(** The two loops over the candidates for [MaxBytes]. *)
Fixpoint freed_by_age (candidates : list segmentMeta) (selected : gset Z) (remaining : Z) : Z :=
  match candidates with
  | [] => remaining
  | m :: rest =>
      freed_by_age rest selected
        (if bool_decide (m_baseOffset m ∈ selected) then remaining -64 m_bytes m else remaining)
  end.

Fixpoint select_by_bytes (candidates : list segmentMeta) (maxBytes : Z) (selected : gset Z) (remaining : Z)
    : gset Z :=
  match candidates with
  | [] => selected
  | m :: rest =>
      if remaining <=? maxBytes then selected
      else if bool_decide (m_baseOffset m ∈ selected) then select_by_bytes rest maxBytes selected remaining
      else select_by_bytes rest maxBytes ({[m_baseOffset m]} ∪ selected) (remaining -64 m_bytes m)
  end.

Definition is_candidate (safeOffset : Z) (enforceOffset : bool) (m : segmentMeta) : bool :=
  negb (enforceOffset && (safeOffset <=? m_highOffset m)).

Definition selectRetentionVictims (metas : list segmentMeta) (policy : RetentionPolicy) (safeOffset : Z)
    (enforceOffset : bool) (now totalBytes : Z) : list segmentMeta :=
  let candidates := filter (fun m => is_candidate safeOffset enforceOffset m = true) metas in
  let selected : gset Z :=
    if 0 <? MaxAge policy then
      list_to_set (map m_baseOffset (filter (fun m => m_modTime m < now - MaxAge policy) candidates))
    else ∅ in
  let selected :=
    if (0 <? MaxBytes policy) && (MaxBytes policy <? totalBytes) then
      select_by_bytes candidates (MaxBytes policy) selected (freed_by_age candidates selected totalBytes)
    else selected in
  filter (fun m => m_baseOffset m ∈ selected) candidates.

Section Retention.
(** [OnDiskBytes] and [ModTime] of a segment. *)
Context (stat : Segment -> Z * Z).

(** [buildSegmentMetas]: the sealed segments with the base of the next one. *)
Fixpoint buildSegmentMetas (segs : list Segment) (head : Z) : list segmentMeta :=
  match segs with
  | [] | [_] => []
  | s :: (s2 :: _) as rest =>
      mkMeta (baseOffset s) (segmentHighOffset (baseOffset s) (baseOffset s2) head) (fst (stat s)) (snd (stat s))
      :: buildSegmentMetas rest head
  end.

Fixpoint total_bytes (segs : list Segment) : Z :=
  match segs with
  | [] => 0
  | s :: rest => fst (stat s) +64 total_bytes rest
  end.

Definition victims (p : PartitionLog) (policy : RetentionPolicy) (now : Z) : list segmentMeta :=
  let '(safeOffset, enforceOffset) := retentionSafeOffset (nextOffset p) policy in
  selectRetentionVictims (buildSegmentMetas (segments p) (nextOffset p)) policy safeOffset enforceOffset now
    (total_bytes (segments p)).

(** [None] is "retention would remove all segments", after the files of all
    are removed. *)
Definition ApplyRetention (p : PartitionLog) (policy : RetentionPolicy) (now : Z) : option PartitionLog :=
  if negb (Enabled policy) then Some p
  else
    match victims p policy now with
    | [] => Some p
    | toDelete =>
        let deleteSet : gset Z := list_to_set (map m_baseOffset toDelete) in
        let newSegments := filter (fun s => baseOffset s ∉ deleteSet) (segments p) in
        match newSegments with
        | [] => None
        | _ => Some (with_segments p newSegments (nextOffset p) (bytesSinceIdx p))
        end
    end.

(** ** Lemmas *)

Lemma victims_candidates metas policy safe enforce now total m :
  m ∈ selectRetentionVictims metas policy safe enforce now total ->
  m ∈ metas /\ (enforce = true -> m_highOffset m < safe).
Proof.
  unfold selectRetentionVictims. rewrite list_elem_of_filter. intros [_ Hm].
  apply list_elem_of_filter in Hm as [Hc Hm]. split; [done|]. intros ->. unfold is_candidate in Hc.
  cbn [andb] in Hc. lia.
Qed.

(** A sealed segment's description: the next segment starts right after its
    high offset. *)
Lemma metas_spec segs head m : StronglySorted (fun a b => baseOffset a < baseOffset b) segs ->
  Forall (fun s => 0 <= baseOffset s < 18446744073709551616) segs ->
  m ∈ buildSegmentMetas segs head ->
  exists pre s s2 post, segs = pre ++ s :: s2 :: post /\ m_baseOffset m = baseOffset s
    /\ m_highOffset m = baseOffset s2 - 1.
Proof.
  intros Hs Hb. induction segs as [|s [|s2 rest] IH]; cbn [buildSegmentMetas]; try (by intros H%not_elem_of_nil).
  intros [->|Hm]%elem_of_cons.
  - exists [], s, s2, rest. split; [done|]. split; [done|]. cbn [m_highOffset].
    apply StronglySorted_inv in Hs as [_ Hs]. apply Forall_inv in Hs.
    apply Forall_cons in Hb as [Hb1 Hb]. apply Forall_inv in Hb.
    unfold segmentHighOffset. replace (baseOffset s <? baseOffset s2) with true by lia.
    replace (baseOffset s2 =? 0) with false by lia. rewrite u64_id by go_lia. done.
  - apply StronglySorted_inv in Hs as [Hs _]. apply Forall_cons in Hb as [_ Hb].
    destruct (IH Hs Hb Hm) as (pre & s' & s2' & post & E & H). rewrite E.
    by exists (s :: pre), s', s2', post.
Qed.

Lemma sorted_split (segs pre post : list Segment) s :
  StronglySorted (fun a b => baseOffset a < baseOffset b) segs -> segs = pre ++ s :: post ->
  Forall (fun a => baseOffset a < baseOffset s) pre /\ Forall (fun b => baseOffset s < baseOffset b) post.
Proof.
  intros Hs ->. induction pre as [|a pre IH]; cbn [app] in Hs.
  - apply StronglySorted_inv in Hs as [_ Hs]. by split.
  - apply StronglySorted_inv in Hs as [Hs Ha]. destruct (IH Hs) as [H1 H2]. split; [|done].
    constructor; [|done]. rewrite Forall_app in Ha. destruct Ha as [_ Ha]. by apply Forall_inv in Ha.
Qed.

(** The segment a read at [start] picks, and what comes after it. *)
Lemma pick_split segs start s : StronglySorted (fun a b => baseOffset a < baseOffset b) segs ->
  last (filter (fun s => baseOffset s <= start) segs) = Some s ->
  exists pre post, segs = pre ++ s :: post /\ baseOffset s <= start
    /\ Forall (fun b => start < baseOffset b) post.
Proof.
  induction segs as [|a segs IH]; intros Hs; [done|]. rewrite filter_cons.
  apply StronglySorted_inv in Hs as [Hs Ha]. case_decide as Hle.
  - destruct (last (filter (fun s => baseOffset s <= start) segs)) as [b|] eqn:Hl.
    + rewrite last_cons, Hl. intros [= ->]. destruct (IH Hs eq_refl) as (pre & post & -> & H).
      by exists (a :: pre), post.
    + rewrite last_cons, Hl. intros [= ->]. exists [], segs. split; [done|]. split; [done|].
      apply last_None in Hl. apply Forall_forall. intros b Hb.
      destruct (decide (baseOffset b <= start)) as [Hbs|]; [|lia].
      exfalso. apply (not_elem_of_nil b). rewrite <- Hl. by apply list_elem_of_filter.
  - intros Hl. destruct (IH Hs Hl) as (pre & post & -> & H). by exists (a :: pre), post.
Qed.

Lemma pick_filter segs start s (keep : Segment -> Prop) `{!forall x, Decision (keep x)} :
  StronglySorted (fun a b => baseOffset a < baseOffset b) segs ->
  last (filter (fun s => baseOffset s <= start) segs) = Some s -> keep s ->
  last (filter (fun s => baseOffset s <= start) (filter keep segs)) = Some s.
Proof.
  intros Hs Hl Hk. destruct (pick_split segs start s Hs Hl) as (pre & post & -> & Hle & Hpost).
  rewrite !filter_app, (filter_cons keep s), decide_True, filter_cons, decide_True by done.
  rewrite (filter_none _ (filter keep post)).
  - by rewrite last_snoc.
  - apply Forall_forall. intros b [_ Hb]%list_elem_of_filter. rewrite Forall_forall in Hpost.
    specialize (Hpost b Hb). lia.
Qed.

(** ** Theorems *)

(** C35: Retention only removes what is below the safe offset.  With an
    offset guard, on a log whose segments start at increasing offsets, a
    retention pass keeps the log, its head and every answer of a read at or
    past the safe offset. *)
Theorem retention_keeps_reads p policy now start maxBytes :
  StronglySorted (fun a b => baseOffset a < baseOffset b) (segments p) ->
  Forall (fun s => 0 <= baseOffset s < 18446744073709551616) (segments p) ->
  (exists s, s ∈ segments p /\ baseOffset s <= start) ->
  let '(safe, enforce) := retentionSafeOffset (nextOffset p) policy in
  enforce = true -> safe <= start ->
  exists p', ApplyRetention p policy now = Some p' /\ nextOffset p' = nextOffset p
    /\ ReadRawMessages p' start maxBytes = ReadRawMessages p start maxBytes.
Proof.
  intros Hs Hb (s0 & Hs0 & Hle0). destruct (retentionSafeOffset (nextOffset p) policy) as [safe enforce] eqn:Hsafe.
  intros -> Hstart. unfold ApplyRetention. case_if; [by exists p|].
  destruct (victims p policy now) as [|v vs] eqn:Hv; [by exists p|]. rewrite <- Hv.
  destruct (last (filter (fun s => baseOffset s <= start) (segments p))) as [s|] eqn:Hl.
  2:{ apply last_None in Hl. exfalso. apply (not_elem_of_nil s0). rewrite <- Hl. by apply list_elem_of_filter. }
  set (keep := fun x => baseOffset x ∉ (list_to_set (map m_baseOffset (victims p policy now)) : gset Z)).
  assert (keep s) as Hk.
  { unfold keep. rewrite elem_of_list_to_set. intros Hin. apply list_elem_of_fmap in Hin as (m & Em & Hm).
    unfold victims in Hm. rewrite Hsafe in Hm. apply victims_candidates in Hm as [Hm Hhigh].
    specialize (Hhigh eq_refl).
    destruct (metas_spec _ _ _ Hs Hb Hm) as (pre & s1 & s2 & post & E & Eb & Eh).
    destruct (pick_split _ _ _ Hs Hl) as (pre' & post' & E' & Hles & Hpost).
    rewrite Eb in Em.
    destruct (sorted_split _ _ _ _ Hs E) as [Hpre1 Hpost1].
    assert (s2 ∈ post') as Hs2.
    { assert (s2 ∈ segments p) as H2 by (rewrite E; set_solver).
      apply Forall_inv in Hpost1. destruct (sorted_split _ _ _ _ Hs E') as [Hpre2 _].
      rewrite E' in H2. apply elem_of_app in H2 as [H2|H2].
      - rewrite Forall_forall in Hpre2. specialize (Hpre2 _ H2). lia.
      - apply elem_of_cons in H2 as [->|H2]; [lia|done]. }
    rewrite Forall_forall in Hpost. specialize (Hpost _ Hs2). lia. }
  pose proof (pick_filter (segments p) start s keep Hs Hl Hk) as Hl'.
  fold keep. destruct (filter keep (segments p)) as [|x xs] eqn:Hf; [done|].
  eexists. split; [reflexivity|]. split; [done|].
  unfold ReadRawMessages. cbn [segments with_segments]. by rewrite Hl', Hl.
Qed.

End Retention.

(** The two guards are combined by the larger offset.  With a floor of
    unconsumed messages below the tail guard, a sealed segment old enough is
    removed although all of it is at or past the floor. *)
Theorem retention_ignores_floor p policy now stat pre s s2 post :
  segments p = pre ++ s :: s2 :: post ->
  StronglySorted (fun a b => baseOffset a < baseOffset b) (segments p) ->
  Forall (fun s => 0 <= baseOffset s < 18446744073709551616) (segments p) ->
  in_u64 (nextOffset p) -> 0 < MaxAge policy -> snd (stat s) < now - MaxAge policy ->
  0 < FloorOffset policy <= baseOffset s -> 0 < SafetyMessages policy ->
  baseOffset s2 <= nextOffset p - SafetyMessages policy ->
  exists m, m ∈ victims stat p policy now /\ m_baseOffset m = baseOffset s
    /\ FloorOffset policy <= m_baseOffset m.
Proof.
  intros E Hs Hb Hn Hage Hold Hfloor Hsafety Htail.
  set (m := mkMeta (baseOffset s) (segmentHighOffset (baseOffset s) (baseOffset s2) (nextOffset p))
              (fst (stat s)) (snd (stat s))).
  assert (m ∈ buildSegmentMetas stat (segments p) (nextOffset p)) as Hm.
  { rewrite E. clear. induction pre as [|a [|b pre] IH]; cbn [app buildSegmentMetas].
    - apply elem_of_cons. by left.
    - apply elem_of_cons. right. exact IH.
    - apply elem_of_cons. right. exact IH. }
  destruct (sorted_split _ _ _ _ Hs E) as [_ Hlt%Forall_inv].
  rewrite E in Hb. apply Forall_app in Hb as [_ Hb]. apply Forall_cons in Hb as [Hb1 Hb]. apply Forall_inv in Hb.
  exists m. split; [|split; [done|cbn; lia]].
  unfold victims, retentionSafeOffset.
  replace (0 <? SafetyMessages policy) with true by lia. cbn [andb orb].
  replace (SafetyMessages policy <? nextOffset p) with true by lia.
  rewrite u64_id by go_lia.
  replace (nextOffset p - SafetyMessages policy <? FloorOffset policy) with false by lia.
  set (safe := nextOffset p - SafetyMessages policy).
  assert (is_candidate safe true m = true) as Hc.
  { unfold is_candidate, m, safe, segmentHighOffset. cbn [m_highOffset].
    replace (baseOffset s <? baseOffset s2) with true by lia. replace (baseOffset s2 =? 0) with false by lia.
    rewrite u64_id by go_lia. cbn [andb]. lia. }
  unfold selectRetentionVictims. replace (0 <? MaxAge policy) with true by lia.
  set (cands := filter _ (buildSegmentMetas _ _ _)).
  assert (m ∈ cands) as Hmc by (by apply list_elem_of_filter).
  set (aged := list_to_set _).
  assert (m_baseOffset m ∈ aged) as Ha.
  { unfold aged. apply elem_of_list_to_set, list_elem_of_fmap. exists m. split; [done|].
    by apply list_elem_of_filter. }
  apply list_elem_of_filter. split; [|done].
  case_if; [|done].
  assert (forall l (sel : gset Z) r, m_baseOffset m ∈ sel ->
    m_baseOffset m ∈ select_by_bytes l (MaxBytes policy) sel r) as Hsel.
  { clear. induction l as [|x l IH]; intros sel r Hin; cbn [select_by_bytes]; [done|].
    case_if; [done|]. case_if; apply IH; set_solver. }
  by apply Hsel.
Qed.

(** ** Witnesses *)

(** The log of [BrokerStore.demo_ops]: segments from 0 and from 4. *)
Definition demo_partition : PartitionLog :=
  default (mkLog [] 0 0 1 1 0 None) BrokerStore.demo_log.

Definition old_files (s : Segment) : Z * Z := (100, 0).

Lemma demo_sorted : StronglySorted (fun a b => baseOffset a < baseOffset b) (segments demo_partition).
Proof. vm_compute. repeat (constructor; try reflexivity). Qed.

Lemma demo_bases : Forall (fun s => 0 <= baseOffset s < 18446744073709551616) (segments demo_partition).
Proof. apply (bool_decide_unpack _). vm_compute. exact I. Qed.

Example demo_retention_deletes :
  map m_baseOffset (victims old_files demo_partition (mkPolicy 10 0 0 2) 50) = [0].
Proof. vm_compute. reflexivity. Qed.

Lemma retention_keeps_reads_witness : exists p',
  ApplyRetention old_files demo_partition (mkPolicy 10 0 0 2) 50 = Some p'
  /\ nextOffset p' = nextOffset demo_partition
  /\ ReadRawMessages p' 5 64 = ReadRawMessages demo_partition 5 64.
Proof.
  apply (retention_keeps_reads old_files demo_partition (mkPolicy 10 0 0 2) 50 5 64 demo_sorted demo_bases);
    [|vm_compute; reflexivity|vm_compute; discriminate].
  exists (default (NewSegment [] [] 0 64 20 true) (head (segments demo_partition))).
  split; [|vm_compute; discriminate]. apply list_elem_of_lookup. exists 0%nat. vm_compute. reflexivity.
Defined.

Definition sealed_at (base : Z) : Segment := mkSegment base 0 0 [] [] 64 160.

(** Head 100, a tail of 20 messages to keep, a consumer at 40: the segment
    from 40 to 79 is removed. *)
Definition floor_log : PartitionLog :=
  mkLog [sealed_at 0; sealed_at 40; sealed_at 80] 100 0 20 64 0 None.

Lemma retention_ignores_floor_witness : exists m,
  m ∈ victims old_files floor_log (mkPolicy 10 0 40 20) 50 /\ m_baseOffset m = 40 /\ 40 <= m_baseOffset m.
Proof.
  apply (retention_ignores_floor floor_log (mkPolicy 10 0 40 20) 50 old_files [sealed_at 0] (sealed_at 40) (sealed_at 80) []);
    try reflexivity; try (cbn; lia).
  - repeat constructor.
  - apply (bool_decide_unpack _). vm_compute. exact I.
  - unfold in_u64. cbn. lia.
Defined.

End BrokerRetention.
