(* ===== verification/LocalFcap.v ===== *)
(** * Local frequency cap of the tracker

    Models [internal/stream/local_fcap.go] and the filter's use of it in
    [internal/filter/unified/unified_fcap.go]: a table of 4096 cells probed
    over eight positions, whose cells are claimed by the first user that
    hashes there and counted per time window.  The operations run alone come
    first; the workers share the table, so the cap is proved of the atomic
    steps of [TryAcquire], [WouldExceed] and [Rollback] on a claimed cell,
    interleaved, and those steps run alone are the operations.  Clocks are
    inputs. *)

From S2P Require Import Prelude RtbFcap.
Open Scope Z_scope.

Module LocalFcap.

Import RtbFcap.

Definition localFcapSlotCount : Z := 4096.
Definition localFcapSlotMask : Z := 4095.
Definition localFcapMaxProbe : Z := 8.

Record LocalFcapCell := mkCell { lookupKey : Z; count : Z; windowEnd : Z }.

Definition zero_cell : LocalFcapCell := mkCell 0 0 0.

Definition NewLocalFcapLedger : list LocalFcapCell := replicate 4096 zero_cell.

Definition cell_at (l : list LocalFcapCell) (i : Z) : LocalFcapCell :=
  default zero_cell (l !! Z.to_nat i).
Definition put_cell (l : list LocalFcapCell) (i : Z) (c : LocalFcapCell) : list LocalFcapCell :=
  <[Z.to_nat i := c]> l.

(** The positions the probe loop visits. *)
Definition probes (lookup : Z) : list Z :=
  map (fun p => Z.land (u64 (Z.land lookup localFcapSlotMask + p)) localFcapSlotMask)
    (seqZ 0 localFcapMaxProbe).

Definition usable (l : list LocalFcapCell) (lookup i : Z) : bool :=
  (lookupKey (cell_at l i) =? lookup) || (lookupKey (cell_at l i) =? 0).

(** The index of the cell [cellFor] returns a pointer to. *)
Definition cellFor (l : list LocalFcapCell) (lookup : Z) : Z :=
  if lookup =? 0 then 0
  else default (Z.land lookup localFcapSlotMask) (List.find (usable l lookup) (probes lookup)).

Definition normalizeWindow (windowSec nowSec : Z) (c : LocalFcapCell) : LocalFcapCell :=
  let w := if windowSec <=? 0 then 3600 else windowSec in
  if (windowEnd c =? 0) || (windowEnd c <=? nowSec)
  then mkCell (lookupKey c) 0 (u32 (nowSec + u32 w)) else c.

Definition WouldExceed (l : list LocalFcapCell) (lookup limit windowSec nowSec : Z)
    : bool * list LocalFcapCell :=
  if (lookup =? 0) || (limit =? 0) then (false, l)
  else
    let i := cellFor l lookup in
    let c := cell_at l i in
    if negb (lookupKey c =? 0) && negb (lookupKey c =? lookup) then (false, l)
    else
      let c := normalizeWindow windowSec nowSec c in
      (FreqCapExceeded limit (count c), put_cell l i c).

Definition TryAcquire (l : list LocalFcapCell) (lookup limit windowSec nowSec : Z)
    : bool * list LocalFcapCell :=
  if (lookup =? 0) || (limit =? 0) then (true, l)
  else
    let i := cellFor l lookup in
    let c := cell_at l i in
    if negb (lookupKey c =? 0) && negb (lookupKey c =? lookup) then (false, l)
    else
      let c := normalizeWindow windowSec nowSec (mkCell lookup (count c) (windowEnd c)) in
      if FreqCapExceeded limit (count c) then (false, put_cell l i c)
      else (true, put_cell l i (mkCell (lookupKey c) (u32 (count c + 1)) (windowEnd c))).

Definition Rollback (l : list LocalFcapCell) (lookup : Z) : list LocalFcapCell :=
  if lookup =? 0 then l
  else
    let i := cellFor l lookup in
    let c := cell_at l i in
    if negb (lookupKey c =? lookup) then l
    else if count c =? 0 then l
    else put_cell l i (mkCell (lookupKey c) (u32 (count c - 1)) (windowEnd c)).

(** [internal/domain/fnv64.go] *)
Definition FNV64Bytes (b : list Z) : Z :=
  foldl (fun h x => u64 (Z.lxor h x * 1099511628211)) 14695981039346656037 b.
Definition FNV64String (s : list Z) : Z :=
  match s with [] => 0 | _ => FNV64Bytes s end.

(** [fcapPrefixHash] memoises into the campaign; the hash is the same. *)
Definition fcapPrefixHash (stored : Z) (fcapKeyPrefix : list Z) : Z :=
  if stored =? 0 then FNV64String fcapKeyPrefix else stored.

Definition fcapLookupKey (freqLimit : Z) (prefixHash : Z) (userID : list Z) : Z :=
  if (freqLimit <=? 0) || bool_decide (userID = []) then 0
  else FcapLookupKey prefixHash (FNV64String userID).

Example fcap_example :
  let l := NewLocalFcapLedger in
  let '(a, l) := TryAcquire l 77 2 60 1000 in
  let '(b, l) := TryAcquire l 77 2 60 1010 in
  let '(c, l) := TryAcquire l 77 2 60 1020 in
  let l := Rollback l 77 in
  let '(d, l) := TryAcquire l 77 2 60 1059 in
  let '(e, l) := TryAcquire l 77 2 60 1060 in
  ((a, b), (c, d), (e, cell_at l 77)) =
  ((true, true), (false, true), (true, mkCell 77 1 1120)).
Proof. vm_compute. reflexivity. Qed.

(** ** Runs *)

Inductive fcap_op :=
  | Acquire (lookup limit windowSec nowSec : Z)
  | Undo (lookup : Z).

Definition fcap_step (l : list LocalFcapCell) (o : fcap_op) : bool * list LocalFcapCell :=
  match o with
  | Acquire k lim w t => TryAcquire l k lim w t
  | Undo k => (false, Rollback l k)
  end.

Fixpoint fcap_run (l : list LocalFcapCell) (ops : list fcap_op) : list LocalFcapCell :=
  match ops with
  | [] => l
  | o :: rest => fcap_run (snd (fcap_step l o)) rest
  end.

(** The accepts of a user in a run, and the rollbacks asked for it. *)
Fixpoint accepts (k : Z) (l : list LocalFcapCell) (ops : list fcap_op) : Z :=
  match ops with
  | [] => 0
  | o :: rest =>
      (match o with
       | Acquire k' _ _ _ => if (k' =? k) && fst (fcap_step l o) then 1 else 0
       | Undo _ => 0
       end) + accepts k (snd (fcap_step l o)) rest
  end.

Fixpoint undos (k : Z) (ops : list fcap_op) : Z :=
  match ops with
  | [] => 0
  | Undo k' :: rest => (if k' =? k then 1 else 0) + undos k rest
  | _ :: rest => undos k rest
  end.

(** ** Shape of a step *)

Definition op_key (o : fcap_op) : Z :=
  match o with Acquire k _ _ _ => k | Undo k => k end.

Definition table_ok (l : list LocalFcapCell) : Prop :=
  length l = 4096%nat /\ forall i, 0 <= i < 4096 -> lookupKey (cell_at l i) = 0 -> cell_at l i = zero_cell.

Lemma slot_mask_range z : 0 <= Z.land z localFcapSlotMask < 4096.
Proof.
  unfold localFcapSlotMask. change 4095 with (Z.ones 12). rewrite Z.land_ones by lia.
  change 4096 with (2 ^ 12). apply Z.mod_pos_bound. lia.
Qed.

Lemma probes_range k i : In i (probes k) -> 0 <= i < 4096.
Proof. unfold probes. intros (p & <- & _)%in_map_iff. apply slot_mask_range. Qed.

Lemma home_probed k : In (Z.land k localFcapSlotMask) (probes k).
Proof.
  unfold probes. apply in_map_iff. exists 0. split.
  - rewrite Z.add_0_r. pose proof (slot_mask_range k). rewrite u64_id by go_lia.
    by rewrite <- Z.land_assoc, Z.land_diag.
  - left. reflexivity.
Qed.

Lemma cellFor_range l k : 0 <= cellFor l k < 4096.
Proof.
  unfold cellFor. case_if; [lia|].
  destruct (List.find _ _) as [i|] eqn:E; cbn.
  - apply List.find_some in E as [Hin _]. eapply probes_range; eauto.
  - apply slot_mask_range.
Qed.

Lemma cell_at_put l i j c :
  length l = 4096%nat -> 0 <= i < 4096 -> 0 <= j < 4096 ->
  cell_at (put_cell l i c) j = if i =? j then c else cell_at l j.
Proof.
  intros Hl Hi Hj. unfold cell_at, put_cell. destruct (Z.eqb_spec i j) as [->|Hne].
  - rewrite list_lookup_insert_eq; [done|lia].
  - rewrite list_lookup_insert_ne; [done|lia].
Qed.

Lemma normalize_key w t c : lookupKey (normalizeWindow w t c) = lookupKey c.
Proof. unfold normalizeWindow. by case_if. Qed.

Lemma step_shape l o :
  snd (fcap_step l o) = l \/
  exists c, snd (fcap_step l o) = put_cell l (cellFor l (op_key o)) c /\ op_key o <> 0 /\
    lookupKey c = op_key o /\
    (lookupKey (cell_at l (cellFor l (op_key o))) = 0 \/
     lookupKey (cell_at l (cellFor l (op_key o))) = op_key o).
Proof.
  destruct o as [k lim w t|k]; cbn.
  - unfold TryAcquire. destruct (Z.eqb_spec k 0); cbn; [by left|].
    destruct (lim =? 0); cbn; [by left|].
    destruct (Z.eqb_spec (lookupKey (cell_at l (cellFor l k))) 0) as [H0|H0];
      destruct (Z.eqb_spec (lookupKey (cell_at l (cellFor l k))) k) as [Hk|Hk]; cbn;
      try (by left); right; case_if; cbn;
      eexists; (split; [reflexivity|]); rewrite ?normalize_key; auto.
  - unfold Rollback. destruct (Z.eqb_spec k 0); cbn; [by left|].
    destruct (Z.eqb_spec (lookupKey (cell_at l (cellFor l k))) k) as [Hk|Hk]; cbn; [|by left].
    case_if; [by left|]. right. eexists; split; [reflexivity|]. auto.
Qed.

Lemma step_length l o : length l = 4096%nat -> length (snd (fcap_step l o)) = 4096%nat.
Proof.
  intros Hl. destruct (step_shape l o) as [->|(c & -> & _)]; [done|].
  unfold put_cell. by rewrite length_insert.
Qed.

(** A claimed cell keeps its user. *)
Lemma key_persists l o i :
  length l = 4096%nat -> 0 <= i < 4096 -> lookupKey (cell_at l i) <> 0 ->
  lookupKey (cell_at (snd (fcap_step l o)) i) = lookupKey (cell_at l i).
Proof.
  intros Hl Hi Hne. destruct (step_shape l o) as [->|(c & -> & Hk & Hc & Hold)]; [done|].
  rewrite cell_at_put by (auto using cellFor_range).
  destruct (Z.eqb_spec (cellFor l (op_key o)) i) as [<-|]; [|done]. destruct Hold; congruence.
Qed.

Lemma table_ok_step l o : table_ok l -> table_ok (snd (fcap_step l o)).
Proof.
  intros [Hl Hz]. split; [by apply step_length|]. intros i Hi H0.
  destruct (step_shape l o) as [E|(c & E & Hk & Hc & Hold)]; rewrite E in *; [by apply Hz|].
  rewrite cell_at_put in * by (auto using cellFor_range).
  destruct (Z.eqb_spec (cellFor l (op_key o)) i); [congruence|]. by apply Hz.
Qed.

Lemma find_mono {A} (f g : A -> bool) (xs : list A) x :
  List.find f xs = Some x -> g x = true ->
  (forall y, In y xs -> f y = false -> g y = false) -> List.find g xs = Some x.
Proof.
  induction xs as [|y xs IH]; cbn; [done|]. intros Hf Hg Hm.
  destruct (f y) eqn:Ey; [injection Hf as ->; by rewrite Hg|].
  rewrite (Hm y) by auto. apply IH; auto.
Qed.

(** The cell of a user that has one never moves. *)
Lemma cellFor_stable l o k :
  length l = 4096%nat -> k <> 0 -> lookupKey (cell_at l (cellFor l k)) = k ->
  cellFor (snd (fcap_step l o)) k = cellFor l k.
Proof.
  intros Hl Hk Hc. pose proof (key_persists l o (cellFor l k) Hl (cellFor_range l k)) as Hp.
  rewrite Hc in Hp. specialize (Hp Hk). revert Hc Hp. unfold cellFor.
  destruct (Z.eqb_spec k 0); [done|].
  destruct (List.find (usable l k) (probes k)) as [i|] eqn:E; cbn [from_option id]; intros Hc Hp.
  - erewrite find_mono; [reflexivity|exact E| |].
    + unfold usable. rewrite Hp, Z.eqb_refl. done.
    + intros y Hy. unfold usable. intros [Hn H0]%orb_false_iff.
      apply Z.eqb_neq in Hn, H0.
      rewrite (key_persists l o y Hl (probes_range _ _ Hy) H0).
      apply orb_false_iff. split; by apply Z.eqb_neq.
  - pose proof (List.find_none _ _ E _ (home_probed k)) as Hn. unfold usable in Hn.
    rewrite Hc, Z.eqb_refl in Hn. done.
Qed.

(** ** The cap *)

(** An operation on another user leaves a user's cell alone. *)
Lemma other_cell l o k :
  length l = 4096%nat -> k <> 0 -> op_key o <> k -> lookupKey (cell_at l (cellFor l k)) = k ->
  cell_at (snd (fcap_step l o)) (cellFor l k) = cell_at l (cellFor l k).
Proof.
  intros Hl Hk Hne Hc. destruct (step_shape l o) as [->|(c & -> & H0 & Hc' & Hold)]; [done|].
  rewrite cell_at_put by (auto using cellFor_range).
  destruct (Z.eqb_spec (cellFor l (op_key o)) (cellFor l k)) as [E|]; [|done].
  rewrite E in Hold. destruct Hold; congruence.
Qed.

Section Cap.
Context (k lim w t0 : Z).
Context (Hk : k <> 0) (Hlim : 0 < lim < 4294967296) (Hw : 0 < w)
        (Ht0 : 0 <= t0) (Hwide : t0 + w + w < 4294967296).

(** Every request of the user carries the same cap and window and falls in
    the window that starts at [t0]; other users are free. *)
Definition in_window (o : fcap_op) : Prop :=
  match o with
  | Acquire k' lim' w' t => k' = k -> lim' = lim /\ w' = w /\ t0 <= t < t0 + w
  | Undo _ => True
  end.

Definition counting (l : list LocalFcapCell) : Prop :=
  length l = 4096%nat /\ lookupKey (cell_at l (cellFor l k)) = k /\
  t0 + w <= windowEnd (cell_at l (cellFor l k)) /\
  0 <= count (cell_at l (cellFor l k)) <= lim.

Definition room (l : list LocalFcapCell) : Z := lim - count (cell_at l (cellFor l k)).

(** Claiming the cell the probe found keeps the probe there. *)
Lemma cellFor_claimed l c :
  length l = 4096%nat -> lookupKey c = k ->
  lookupKey (cell_at l (cellFor l k)) = k \/ lookupKey (cell_at l (cellFor l k)) = 0 ->
  cellFor (put_cell l (cellFor l k) c) k = cellFor l k.
Proof.
  intros Hl Hc Hold. pose proof (cellFor_range l k) as Hr. revert Hold Hr. unfold cellFor.
  destruct (Z.eqb_spec k 0); [done|].
  destruct (List.find (usable l k) (probes k)) as [i|] eqn:E; cbn [from_option id]; intros Hold Hr.
  - erewrite find_mono; [reflexivity|exact E| |].
    + unfold usable. rewrite cell_at_put, Z.eqb_refl by auto. by rewrite Hc, Z.eqb_refl.
    + intros y Hy Hn. pose proof (probes_range _ _ Hy). unfold usable in *.
      rewrite cell_at_put by auto. destruct (Z.eqb_spec i y) as [<-|]; [|done].
      apply List.find_some in E as [_ E]. unfold usable in E. congruence.
  - pose proof (List.find_none _ _ E _ (home_probed k)) as Hn. unfold usable in Hn.
    destruct Hold as [Ho|Ho]; rewrite Ho in Hn; rewrite ?Z.eqb_refl, ?orb_true_r in Hn; done.
Qed.
Lemma counting_put l c :
  length l = 4096%nat -> lookupKey c = k -> t0 + w <= windowEnd c -> 0 <= count c <= lim ->
  lookupKey (cell_at l (cellFor l k)) = k \/ lookupKey (cell_at l (cellFor l k)) = 0 ->
  counting (put_cell l (cellFor l k) c) /\ room (put_cell l (cellFor l k) c) = lim - count c.
Proof.
  intros Hl Hkey He Hcnt Hold. unfold counting, room. rewrite cellFor_claimed by done.
  rewrite cell_at_put, Z.eqb_refl by (auto using cellFor_range).
  unfold put_cell. rewrite length_insert. done.
Qed.

(** One step of a counted user: an accept uses a unit of room, a rollback
    gives at most one back. *)
Lemma counting_step l o :
  counting l -> in_window o ->
  counting (snd (fcap_step l o)) /\
  (match o with
   | Acquire k' _ _ _ => if (k' =? k) && fst (fcap_step l o) then 1 else 0
   | Undo _ => 0
   end) + room (snd (fcap_step l o)) <= room l + undos k [o].
Proof.
  intros (Hl & Hc & He & Hn) Hw'. destruct (decide (op_key o = k)) as [Ho|Ho].
  - destruct o as [k' lim' w' t|k']; cbn in Ho; subst k'; cbn [fcap_step].
    + destruct (Hw' eq_refl) as (-> & -> & Ht). unfold TryAcquire. cbv zeta.
      rewrite (proj2 (Z.eqb_neq k 0)), (proj2 (Z.eqb_neq lim 0)) by lia. cbn [orb].
      rewrite Hc, Z.eqb_refl. cbn [negb]. rewrite andb_false_r.
      unfold normalizeWindow; cbn [windowEnd].
      replace ((windowEnd (cell_at l (cellFor l k)) =? 0) ||
               (windowEnd (cell_at l (cellFor l k)) <=? t)) with false
        by (symmetry; apply orb_false_iff; split; [apply Z.eqb_neq|apply Z.leb_gt]; lia).
      unfold FreqCapExceeded; cbn [count]. rewrite (proj2 (Z.ltb_lt 0 lim)) by lia. cbn [andb].
      destruct (Z.leb_spec lim (count (cell_at l (cellFor l k)))); cbn [fst snd lookupKey count windowEnd].
      * destruct (counting_put l (mkCell k (count (cell_at l (cellFor l k)))
          (windowEnd (cell_at l (cellFor l k))))) as [Hcp ->]; auto.
        split; [done|]. unfold room. cbn. lia.
      * rewrite (u32_id (count _ + 1)) by go_lia.
        destruct (counting_put l (mkCell k (count (cell_at l (cellFor l k)) + 1)
          (windowEnd (cell_at l (cellFor l k))))) as [Hcp ->]; auto; [cbn; lia|].
        split; [done|]. unfold room. cbn. lia.
    + unfold Rollback. cbv zeta. rewrite (proj2 (Z.eqb_neq k 0)) by lia. rewrite Hc, Z.eqb_refl. cbn [negb].
      destruct (Z.eqb_spec (count (cell_at l (cellFor l k))) 0) as [H0|H0]; cbn [fst snd undos].
      * rewrite Z.eqb_refl. split; [done|]. lia.
      * rewrite (u32_id (count _ - 1)) by go_lia.
        destruct (counting_put l (mkCell k (count (cell_at l (cellFor l k)) - 1)
          (windowEnd (cell_at l (cellFor l k))))) as [Hcp ->]; auto; [cbn; lia|].
        split; [done|]. unfold room. rewrite Z.eqb_refl. cbn [count]. lia.
  - assert (Hother := other_cell l o k Hl Hk Ho Hc).
    assert (Hst := cellFor_stable l o k Hl Hk Hc).
    unfold counting, room. rewrite Hst, Hother. split.
    + split; [by apply step_length|]. auto.
    + destruct o as [k' ? ? ?|k']; cbn in Ho |- *; rewrite (proj2 (Z.eqb_neq k' k) Ho); cbn; lia.
Qed.

Lemma counted_accepts l ops :
  counting l -> Forall in_window ops -> accepts k l ops <= room l + undos k ops.
Proof.
  intros Hc Hops. revert l Hc. induction Hops as [|o ops Ho Hops IH]; intros l Hc.
  - cbn. destruct Hc as (_ & _ & _ & Hn). unfold room. lia.
  - destruct (counting_step l o Hc Ho) as [Hc' Hstep]. specialize (IH _ Hc').
    replace (undos k (o :: ops)) with (undos k [o] + undos k ops)
      by (destruct o as [|k']; cbn; [lia|destruct (k' =? k); lia]).
    cbn [accepts]. lia.
Qed.

(** Before the user's first request of the window. *)
Definition stale (l : list LocalFcapCell) : Prop :=
  table_ok l /\
  forall i, 0 <= i < 4096 -> lookupKey (cell_at l i) = k -> windowEnd (cell_at l i) <= t0.

(** The cell the user's request would count in has an expired or no window. *)
Lemma stale_expired l t :
  stale l -> t0 <= t ->
  lookupKey (cell_at l (cellFor l k)) = 0 \/ lookupKey (cell_at l (cellFor l k)) = k ->
  (windowEnd (cell_at l (cellFor l k)) =? 0) || (windowEnd (cell_at l (cellFor l k)) <=? t) = true.
Proof.
  intros [[Hl Hz] Hs] Ht [H0|H0]; apply orb_true_iff.
  - left. rewrite (Hz _ (cellFor_range l k) H0). done.
  - right. apply Z.leb_le. specialize (Hs _ (cellFor_range l k) H0). lia.
Qed.

Lemma stale_step l o :
  stale l -> in_window o ->
  (stale (snd (fcap_step l o)) /\
   match o with Acquire k' _ _ _ => (k' =? k) && fst (fcap_step l o) = false | Undo _ => True end)
  \/ (counting (snd (fcap_step l o)) /\ room (snd (fcap_step l o)) = lim - 1 /\
      exists k' a b c, o = Acquire k' a b c).
Proof.
  intros Hst Hw'. pose proof Hst as [Htab Hs]. pose proof Htab as [Hl Hz].
  destruct (decide (op_key o = k)) as [Ho|Ho].
  - destruct o as [k' lim' w' t|k']; cbn in Ho; subst k'; cbn [fcap_step].
    + destruct (Hw' eq_refl) as (-> & -> & Ht). unfold TryAcquire. cbv zeta.
      rewrite (proj2 (Z.eqb_neq k 0)), (proj2 (Z.eqb_neq lim 0)) by lia. cbn [orb].
      destruct (negb _ && negb _) eqn:Ef; cbn [fst snd].
      { left. split; [done|]. apply andb_false_r. }
      right. assert (Hold : lookupKey (cell_at l (cellFor l k)) = 0 \/
        lookupKey (cell_at l (cellFor l k)) = k).
      { apply andb_false_iff in Ef as [E|E]; apply negb_false_iff, Z.eqb_eq in E; auto. }
      unfold normalizeWindow; cbn [windowEnd]. rewrite (stale_expired l t Hst) by (auto; lia).
      rewrite (proj2 (Z.leb_gt w 0)) by lia. unfold FreqCapExceeded; cbn [count lookupKey windowEnd].
      rewrite (proj2 (Z.ltb_lt 0 lim)), (proj2 (Z.leb_gt lim 0)) by lia. cbn [andb fst snd].
      rewrite (u32_id w), (u32_id (t + w)), (u32_id (0 + 1)) by go_lia.
      destruct (counting_put l (mkCell k (0 + 1) (t + w))) as [Hcp ->]; cbn; auto; try lia; try tauto.
      split; [done|]. split; [done|]. eauto.
    + left. split; [|done]. split; [by apply (table_ok_step l (Undo k))|].
      intros i Hi. unfold Rollback. cbv zeta. rewrite (proj2 (Z.eqb_neq k 0)) by lia.
      destruct (Z.eqb_spec (lookupKey (cell_at l (cellFor l k))) k) as [Hc|]; cbn [negb]; [|by apply Hs].
      destruct (count _ =? 0); [by apply Hs|]. cbn [snd]. rewrite !cell_at_put by (auto using cellFor_range).
      destruct (Z.eqb_spec (cellFor l k) i); [|by apply Hs]. cbn. intros _.
      by apply Hs; [apply cellFor_range|].
  - left. split; [|destruct o; [|done]; cbn in Ho; by rewrite (proj2 (Z.eqb_neq _ k) Ho)].
    split; [by apply table_ok_step|]. intros i Hi Hki.
    destruct (step_shape l o) as [E|(c & E & H0 & Hc & Hold)]; rewrite E in *; [by apply Hs|].
    rewrite cell_at_put in * by (auto using cellFor_range).
    destruct (Z.eqb_spec (cellFor l (op_key o)) i); [congruence|]. by apply Hs.
Qed.

Lemma stale_accepts l ops :
  stale l -> Forall in_window ops -> accepts k l ops <= lim + undos k ops.
Proof.
  intros Hc Hops. revert l Hc. induction Hops as [|o ops Ho Hops IH]; intros l Hc; [cbn; lia|].
  assert (Hu : undos k ops <= undos k (o :: ops)) by (destruct o as [|k']; cbn; [lia|case_if; lia]).
  cbn [accepts]. destruct (stale_step l o Hc Ho) as [[Hs Ha]|(Hc' & Hr & k' & a & b & c & ->)].
  - specialize (IH _ Hs). destruct o as [k' ? ? ?|k']; [rewrite Ha|]; lia.
  - pose proof (counted_accepts _ _ Hc' Hops). case_if; lia.
Qed.
End Cap.

(** The whole table, one call at a time: whatever other users do, a user whose
    requests carry one cap [lim] and window [w] and fall in one window is
    accepted at most [lim] times, plus one per rollback asked for it. *)
Theorem sequential_cap k lim w t0 l ops :
  k <> 0 -> 0 < lim < 4294967296 -> 0 < w -> 0 <= t0 -> t0 + w + w < 4294967296 ->
  stale k t0 l -> Forall (in_window k lim w t0) ops ->
  accepts k l ops <= lim + undos k ops.
Proof. intros. by apply (stale_accepts k lim w t0). Qed.

Definition fcap_demo : list fcap_op :=
  [Acquire 77 2 60 1000; Acquire 4173 9 5 1001; Acquire 77 2 60 1010; Undo 4173;
   Acquire 77 2 60 1020; Undo 77; Acquire 77 2 60 1059].

Lemma fresh_stale k t0 : 0 <= t0 -> stale k t0 NewLocalFcapLedger.
Proof.
  intros Ht. assert (Hz : forall i, 0 <= i < 4096 -> cell_at NewLocalFcapLedger i = zero_cell).
  { intros i Hi. unfold cell_at, NewLocalFcapLedger.
    assert (E : replicate 4096 zero_cell !! Z.to_nat i = Some zero_cell)
      by (apply lookup_replicate; split; [done|lia]). by rewrite E. }
  split; [split; [done|]|]; intros i Hi; rewrite Hz by done; [done|]. intros _. cbn. lia.
Qed.

Lemma sequential_cap_witness :
  accepts 77 NewLocalFcapLedger fcap_demo = 3 /\ undos 77 fcap_demo = 1 /\
  accepts 77 NewLocalFcapLedger fcap_demo <= 2 + undos 77 fcap_demo.
Proof.
  split; [vm_compute; reflexivity|]. split; [reflexivity|].
  apply (sequential_cap 77 2 60 1000); try lia; [by apply fresh_stale|].
  unfold fcap_demo. repeat constructor; cbn; lia.
Defined.

(** ** A full probe window *)

(** Cells are never given up: once the eight positions of a user belong to
    others, the user is refused under every cap and at every time, whatever
    happens in between, although it was never counted once. *)
Theorem full_probe_refuses_forever l ops k lim w t :
  length l = 4096%nat -> k <> 0 -> lim <> 0 ->
  (forall i, In i (probes k) -> lookupKey (cell_at l i) <> 0 /\ lookupKey (cell_at l i) <> k) ->
  TryAcquire (fcap_run l ops) k lim w t = (false, fcap_run l ops).
Proof.
  intros Hl Hk Hlim Hfull.
  assert (Hrun : length (fcap_run l ops) = 4096%nat /\ forall i, In i (probes k) ->
    lookupKey (cell_at (fcap_run l ops) i) <> 0 /\ lookupKey (cell_at (fcap_run l ops) i) <> k).
  { revert l Hl Hfull. induction ops as [|o ops IH]; intros l Hl Hfull; [done|].
    cbn. apply IH; [by apply step_length|]. intros i Hi. destruct (Hfull i Hi) as [H0 H1].
    rewrite key_persists by (eauto using probes_range). done. }
  destruct Hrun as [_ Hrun]. unfold TryAcquire. cbv zeta.
  rewrite (proj2 (Z.eqb_neq k 0) Hk), (proj2 (Z.eqb_neq lim 0) Hlim). cbn [orb].
  assert (Hin : In (cellFor (fcap_run l ops) k) (probes k)).
  { unfold cellFor. rewrite (proj2 (Z.eqb_neq k 0) Hk).
    destruct (List.find _ _) eqn:E; cbn [from_option id];
      [by apply List.find_some in E as [? _]|apply home_probed]. }
  destruct (Hrun _ Hin) as [H0 H1].
  by rewrite (proj2 (Z.eqb_neq _ 0) H0), (proj2 (Z.eqb_neq _ k) H1).
Qed.

(** Eight other users of the same home position. *)
Definition crowd : list fcap_op :=
  map (fun j => Acquire (77 + 4096 * j) 5 60 1000) (seqZ 1 8).

Lemma full_probe_refuses_forever_witness :
  TryAcquire (fcap_run (fcap_run NewLocalFcapLedger crowd) [Undo 4173; Acquire 8269 5 60 999999])
    77 1 60 2000000 =
  (false, fcap_run (fcap_run NewLocalFcapLedger crowd) [Undo 4173; Acquire 8269 5 60 999999]).
Proof.
  apply full_probe_refuses_forever; [vm_compute; reflexivity|lia|lia|].
  assert (Hall : Forall (fun i => lookupKey (cell_at (fcap_run NewLocalFcapLedger crowd) i) <> 0 /\
    lookupKey (cell_at (fcap_run NewLocalFcapLedger crowd) i) <> 77) (probes 77))
    by (apply (bool_decide_unpack _); vm_compute; exact I).
  rewrite Forall_forall in Hall. intros i Hi. apply Hall, list_elem_of_In, Hi.
Defined.

(** ** The workers race on a cell

    The atomic steps of [TryAcquire], [WouldExceed] and [Rollback] on a cell
    the user has claimed: the load of [windowEnd] and the two stores of
    [normalizeWindow], then the load and the compare-and-swap of the counter
    loops. *)

Section Race.
Context (limit windowSec : Z).

Inductive pc :=
  | PStart (nowSec : Z)      (* [end := cell.windowEnd.Load()] *)
  | PReset (nowSec : Z)      (* [cell.count.Store(0)] *)
  | PSetEnd (nowSec : Z)     (* [cell.windowEnd.Store(nowSec + windowSec)] *)
  | PLoad                    (* [cnt := cell.count.Load()] *)
  | PCas (cnt : Z)           (* [cell.count.CompareAndSwap(cnt, cnt+1)] *)
  | PDone (ok : bool)
  | WStart (nowSec : Z) | WReset (nowSec : Z) | WSetEnd (nowSec : Z) | WLoad | WDone (exceeded : bool)
  | RLoad                    (* [cnt := cell.count.Load()] *)
  | RCas (cnt : Z)           (* [cell.count.CompareAndSwap(cnt, cnt-1)] *)
  | RDone (undone : bool).

Record race := mkRace { r_count : Z; r_end : Z; r_pcs : list pc }.

Definition set_pc (s : race) (i : nat) (p : pc) : race :=
  mkRace (r_count s) (r_end s) (<[i := p]> (r_pcs s)).

Definition ended (s : race) (now : Z) : bool := (r_end s =? 0) || (r_end s <=? now).
Definition zero_count (s : race) : race := mkRace 0 (r_end s) (r_pcs s).
Definition open_window (s : race) (now : Z) : race :=
  mkRace (r_count s) (u32 (now + u32 (if windowSec <=? 0 then 3600 else windowSec))) (r_pcs s).

Definition pc_step (s : race) (i : nat) (p : pc) : race :=
  match p with
  | PStart now => set_pc s i (if ended s now then PReset now else PLoad)
  | PReset now => set_pc (zero_count s) i (PSetEnd now)
  | PSetEnd now => set_pc (open_window s now) i PLoad
  | PLoad =>
      set_pc s i (if FreqCapExceeded limit (r_count s) then PDone false else PCas (r_count s))
  | PCas cnt =>
      if r_count s =? cnt
      then set_pc (mkRace (u32 (cnt + 1)) (r_end s) (r_pcs s)) i (PDone true)
      else set_pc s i PLoad
  | WStart now => set_pc s i (if ended s now then WReset now else WLoad)
  | WReset now => set_pc (zero_count s) i (WSetEnd now)
  | WSetEnd now => set_pc (open_window s now) i WLoad
  | WLoad => set_pc s i (WDone (FreqCapExceeded limit (r_count s)))
  | RLoad => set_pc s i (if r_count s =? 0 then RDone false else RCas (r_count s))
  | RCas cnt =>
      if r_count s =? cnt
      then set_pc (mkRace (u32 (cnt - 1)) (r_end s) (r_pcs s)) i (RDone true)
      else set_pc s i RLoad
  | PDone _ | WDone _ | RDone _ => s
  end.
Definition race_step (s : race) (i : nat) : race :=
  match r_pcs s !! i with Some p => pc_step s i p | None => s end.

Definition race_run (s : race) (sched : list nat) : race := foldl race_step s sched.

Definition accepted (ps : list pc) : Z :=
  sumZ (map (fun p => match p with PDone true => 1 | _ => 0 end) ps).

Definition undone (ps : list pc) : Z :=
  sumZ (map (fun p => match p with RDone true => 1 | _ => 0 end) ps).

(** How often a run resets the counter. *)
Fixpoint resets (s : race) (sched : list nat) : Z :=
  match sched with
  | [] => 0
  | i :: rest =>
      match r_pcs s !! i with Some (PReset _) | Some (WReset _) => 1 | _ => 0 end + resets (race_step s i) rest
  end.

(** A call that has not begun, and one whose clock is in the window up to [e]. *)
Definition begins (p : pc) : Prop :=
  match p with PStart _ | WStart _ | RLoad => True | _ => False end.
Definition within (e : Z) (p : pc) : Prop :=
  match p with
  | PStart now | WStart now => now < e
  | PReset _ | PSetEnd _ | WReset _ | WSetEnd _ => False
  | _ => True
  end.

(** What a worker's compare-and-swap relies on. *)
Definition pc_ok (p : pc) : Prop :=
  match p with PCas cnt => cnt < limit | RCas cnt => 0 < cnt | _ => True end.

Lemma sum_insert (f : pc -> Z) ps i p q :
  ps !! i = Some p -> sumZ (map f (<[i := q]> ps)) = sumZ (map f ps) - f p + f q.
Proof.
  intros H. change (map f) with (fmap (M := list) f).
  rewrite list_fmap_insert, (sumZ_insert _ _ (f p)); [lia|]. by rewrite list_lookup_fmap, H.
Qed.

(** One step: an accept takes a unit of the room below the cap, a rollback
    gives one back, a reset gives back at most the whole cap. *)
Lemma race_step_bounds s i :
  0 < limit < 4294967296 -> 0 <= r_count s <= limit -> Forall pc_ok (r_pcs s) ->
  let s' := race_step s i in
  0 <= r_count s' <= limit /\ Forall pc_ok (r_pcs s') /\
  (resets s [i] = 0 -> accepted (r_pcs s') - r_count s' - undone (r_pcs s') =
                       accepted (r_pcs s) - r_count s - undone (r_pcs s)) /\
  accepted (r_pcs s') - r_count s' - undone (r_pcs s') <=
    accepted (r_pcs s) - r_count s - undone (r_pcs s) + limit * resets s [i].
Proof.
  intros Hlim Hc Hall. cbv zeta. cbn [resets]. unfold race_step.
  destruct (r_pcs s !! i) as [p|] eqn:Ep; [|split_and!; auto; lia].
  pose proof (Forall_lookup_1 _ _ _ _ Hall Ep) as Hp.
  assert (forall q, accepted (<[i := q]> (r_pcs s)) = accepted (r_pcs s) - accepted [p] + accepted [q] /\
    undone (<[i := q]> (r_pcs s)) = undone (r_pcs s) - undone [p] + undone [q]) as Hins.
  { intros q. unfold accepted, undone. rewrite !(sum_insert _ _ _ p) by done. cbn [map sumZ]. lia. }
  assert (forall q, pc_ok q -> Forall pc_ok (<[i := q]> (r_pcs s))) as Hok by (intros q Hq; by apply Forall_insert).
  destruct p as [now|now|now| |cnt|ok|now|now|now| |ok| |cnt|ok]; cbn [pc_ok] in Hp; unfold pc_step; cbn iota beta;
    try (split_and!; auto; lia).
  all: repeat match goal with
    | |- context [if ended ?x ?n then _ else _] => destruct (ended x n)
    | |- context [FreqCapExceeded ?m ?c] => destruct (FreqCapExceeded m c) eqn:?
    | |- context [r_count ?x =? ?c] => destruct (Z.eqb_spec (r_count x) c); subst
    end; cbn [set_pc zero_count open_window r_count r_pcs].
  all: rewrite ?u32_id by go_lia.
  all: match goal with |- context [<[_ := ?q]> _] => destruct (Hins q) as [-> ->] end; unfold accepted, undone in *; cbn [map sumZ].
  all: split_and!; try lia; try (apply Hok; cbn; done || lia).
  apply Hok. cbn. unfold FreqCapExceeded in *. rewrite (proj2 (Z.ltb_lt 0 limit)) in * by lia. cbn [andb] in *. lia.
Qed.

Lemma race_bounds s sched :
  0 < limit < 4294967296 -> 0 <= r_count s <= limit -> Forall pc_ok (r_pcs s) ->
  let s' := race_run s sched in
  0 <= r_count s' <= limit /\ 0 <= resets s sched /\
  (resets s sched = 0 -> accepted (r_pcs s') - r_count s' - undone (r_pcs s') =
                         accepted (r_pcs s) - r_count s - undone (r_pcs s)) /\
  accepted (r_pcs s') - r_count s' - undone (r_pcs s') <=
    accepted (r_pcs s) - r_count s - undone (r_pcs s) + limit * resets s sched.
Proof.
  intros Hlim. cbv zeta. revert s. induction sched as [|i sched IH]; intros s Hc Hall; [cbn; split_and!; auto; lia|].
  destruct (race_step_bounds s i Hlim Hc Hall) as (H1 & H2 & H3 & H4).
  destruct (IH (race_step s i) H1 H2) as (I1 & I2 & I3 & I4).
  change (race_run s (i :: sched)) with (race_run (race_step s i) sched).
  change (resets s (i :: sched)) with
    (match r_pcs s !! i with Some (PReset _) | Some (WReset _) => 1 | _ => 0 end + resets (race_step s i) sched).
  change (resets s [i]) with (match r_pcs s !! i with Some (PReset _) | Some (WReset _) => 1 | _ => 0 end + 0) in *.
  set (n := match r_pcs s !! i with Some (PReset _) | Some (WReset _) => 1 | _ => 0 end) in *.
  assert (0 <= n) by (unfold n; destruct (r_pcs s !! i) as [[]|]; lia).
  split_and!; lia.
Qed.

Lemma within_no_reset e s sched :
  e <> 0 -> r_end s = e -> Forall (within e) (r_pcs s) -> resets s sched = 0.
Proof.
  intros He. revert s. induction sched as [|i sched IH]; intros s Hend Hall; [done|]. cbn [resets].
  destruct (r_pcs s !! i) as [p|] eqn:Ep.
  2:{ unfold race_step. rewrite Ep. by rewrite IH. }
  pose proof (Forall_lookup_1 _ _ _ _ Hall Ep) as Hp.
  assert (r_end (race_step s i) = e /\ Forall (within e) (r_pcs (race_step s i))) as [H1 H2].
  { unfold race_step. rewrite Ep. unfold pc_step. destruct p as [now|now|now| |cnt|ok|now|now|now| |ok| |cnt|ok]; cbn in Hp; try done.
    all: unfold ended; rewrite ?Hend, ?(proj2 (Z.eqb_neq e 0) He), ?(proj2 (Z.leb_gt e _) Hp); cbn [orb].
    all: repeat case_match; (split; [done|cbn; by apply Forall_insert]). }
  rewrite IH by done. by destruct p.
Qed.
End Race.

(** C34: the cap holds for workers that share the cell of a user.  Take any
    number of [TryAcquire], [WouldExceed] and [Rollback] calls with one cap
    on a cell the user has claimed, with any clocks, and any interleaving of
    their loads, stores and compare-and-swaps.  The counter stays within the
    cap, and the accepts are at most the room there was, plus one per
    rollback done, plus the cap once more for every reset of the counter by
    a worker that found the window ended.  Calls that fall in a window that
    is open reset nothing: for them the counter is exact and the cap is a
    cap. *)
Theorem fcap_bounds_accepts limit windowSec c0 e calls sched :
  0 < limit < 4294967296 -> 0 <= c0 <= limit -> Forall begins calls ->
  let s := mkRace c0 e calls in
  let s' := race_run limit windowSec s sched in
  0 <= r_count s' <= limit /\
  accepted (r_pcs s') <= limit - c0 + undone (r_pcs s') + limit * resets limit windowSec s sched /\
  (e <> 0 -> Forall (within e) calls ->
   r_count s' = c0 + accepted (r_pcs s') - undone (r_pcs s') /\
   accepted (r_pcs s') <= limit - c0 + undone (r_pcs s')).
Proof.
  intros Hlim Hc Hb s s'.
  assert (Forall (pc_ok limit) calls) as Hok by (eapply Forall_impl; [exact Hb|]; by intros []).
  assert (accepted calls = 0 /\ undone calls = 0) as [Ha Hu].
  { clear -Hb. induction Hb as [|p l Hp _ [IH1 IH2]]; [done|]. unfold accepted, undone in *. by destruct p. }
  destruct (race_bounds limit windowSec s sched Hlim Hc Hok) as (H1 & H2 & H3 & H4).
  unfold s in H3, H4. cbn [r_pcs r_count] in H3, H4. rewrite Ha, Hu in H3, H4. fold s in H3, H4. fold s' in H1, H3, H4.
  split; [exact H1|]. split; [lia|]. intros He Hw.
  rewrite (within_no_reset limit windowSec e s sched He eq_refl Hw) in *. specialize (H3 eq_refl). lia.
Qed.

Lemma fcap_bounds_accepts_witness :
  let calls := [PStart 400; RLoad; PStart 410; WStart 415; PStart 420] in
  let s' := race_run 2 60 (mkRace 1 500 calls) [0; 1; 2; 1; 3; 0; 2; 4; 2; 0; 3; 1; 0; 4; 1; 0; 4]%nat in
  accepted (r_pcs s') = 2 /\ undone (r_pcs s') = 1 /\
  r_count s' = 1 + accepted (r_pcs s') - undone (r_pcs s') /\ accepted (r_pcs s') <= 2 - 1 + undone (r_pcs s').
Proof.
  cbv zeta. split; [vm_compute; reflexivity|]. split; [vm_compute; reflexivity|].
  refine (proj2 (proj2 (fcap_bounds_accepts 2 60 1 500 [PStart 400; RLoad; PStart 410; WStart 415; PStart 420]
    [0; 1; 2; 1; 3; 0; 2; 4; 2; 0; 3; 1; 0; 4; 1; 0; 4]%nat _ _ _)) _ _);
    [lia|lia|repeat constructor|lia|repeat constructor].
Defined.

(** The steps of a worker that runs alone. *)
Section Alone.
Context (limit w c e : Z).
Lemma alone_start now : race_step limit w (mkRace c e [PStart now]) 0 =
  mkRace c e [if (e =? 0) || (e <=? now) then PReset now else PLoad].
Proof. done. Qed.
Lemma alone_reset now : race_step limit w (mkRace c e [PReset now]) 0 = mkRace 0 e [PSetEnd now].
Proof. done. Qed.
Lemma alone_set_end now : race_step limit w (mkRace c e [PSetEnd now]) 0 =
  mkRace c (u32 (now + u32 (if w <=? 0 then 3600 else w))) [PLoad].
Proof. done. Qed.
Lemma alone_load : race_step limit w (mkRace c e [PLoad]) 0 =
  mkRace c e [if FreqCapExceeded limit c then PDone false else PCas c].
Proof. done. Qed.
Lemma alone_cas cnt : race_step limit w (mkRace c e [PCas cnt]) 0 =
  if c =? cnt then mkRace (u32 (cnt + 1)) e [PDone true] else mkRace c e [PLoad].
Proof. done. Qed.
Lemma alone_done ok : race_step limit w (mkRace c e [PDone ok]) 0 = mkRace c e [PDone ok].
Proof. done. Qed.
End Alone.

(** A worker that runs alone does what the call does on the table. *)
Lemma race_alone_acquires l k limit w now :
  k <> 0 -> 0 < limit -> lookupKey (cell_at l (cellFor l k)) = k ->
  let c := cell_at l (cellFor l k) in
  let s := race_run limit w (mkRace (count c) (windowEnd c) [PStart now]) (replicate 5 0%nat) in
  exists ok, r_pcs s = [PDone ok] /\
    TryAcquire l k limit w now = (ok, put_cell l (cellFor l k) (mkCell k (r_count s) (r_end s))).
Proof.
  intros Hk Hlim. cbv zeta. unfold TryAcquire. rewrite (proj2 (Z.eqb_neq k 0)), (proj2 (Z.eqb_neq limit 0)) by lia.
  cbn [orb]. generalize dependent (cellFor l k). intros i. destruct (cell_at l i) as [key cnt e]. cbn [lookupKey count windowEnd].
  intros ->. rewrite Z.eqb_refl, andb_false_r. generalize (put_cell l i). intros put. unfold normalizeWindow. cbn [windowEnd count lookupKey].
  unfold race_run. cbn [replicate foldl]. rewrite alone_start.
  assert ((0 <? limit) = true) as E0 by lia. assert ((limit <=? 0) = false) as E1 by lia.
  unfold FreqCapExceeded. destruct ((e =? 0) || (e <=? now)); cbn [count lookupKey windowEnd].
  - rewrite alone_reset, alone_set_end, alone_load. unfold FreqCapExceeded. rewrite E0, E1. cbn [andb].
    rewrite alone_cas, Z.eqb_refl. by exists true.
  - rewrite alone_load. unfold FreqCapExceeded. rewrite E0. cbn [andb]. destruct (limit <=? cnt).
    + rewrite !alone_done. by exists false.
    + rewrite alone_cas, Z.eqb_refl, !alone_done. by exists true.
Qed.

Lemma race_alone_rolls_back l k limit w :
  k <> 0 -> lookupKey (cell_at l (cellFor l k)) = k ->
  let c := cell_at l (cellFor l k) in
  let s := race_run limit w (mkRace (count c) (windowEnd c) [RLoad]) (replicate 2 0%nat) in
  exists ok, r_pcs s = [RDone ok] /\
    Rollback l k = if ok then put_cell l (cellFor l k) (mkCell k (r_count s) (r_end s)) else l.
Proof.
  intros Hk. cbv zeta. unfold Rollback. rewrite (proj2 (Z.eqb_neq k 0)) by lia.
  generalize dependent (cellFor l k). intros i. destruct (cell_at l i) as [key cnt e]. cbn [lookupKey count windowEnd].
  intros ->. rewrite Z.eqb_refl. cbn [negb]. generalize (put_cell l i). intros put.
  unfold race_run, race_step, set_pc. cbn -[u32 Z.sub]. destruct (cnt =? 0); cbn -[u32 Z.sub].
  - by exists false.
  - rewrite Z.eqb_refl. cbn -[u32 Z.sub]. by exists true.
Qed.

(** A worker that runs alone in an open window below the cap is accepted. *)
Lemma solo_accept limit w c e ps qs now :
  now < e -> e <> 0 -> 0 <= c < limit -> limit < 4294967296 ->
  race_run limit w (mkRace c e (ps ++ PStart now :: qs)) (replicate 3 (length ps)) =
  mkRace (c + 1) e (ps ++ PDone true :: qs).
Proof.
  intros Hnow He Hc Hlim. unfold race_run. cbn [replicate foldl].
  unfold race_step at 3. cbn [r_pcs r_end r_count]. rewrite list_lookup_middle by done.
  unfold pc_step at 1, ended. cbn [r_end]. rewrite (proj2 (Z.eqb_neq e 0) He), (proj2 (Z.leb_gt e now)) by lia. cbn [orb].
  unfold set_pc at 1. cbn [r_count r_end r_pcs]. rewrite insert_app_r_alt, Nat.sub_diag by lia.
  unfold race_step at 2. cbn [r_pcs r_end r_count insert list_insert]. rewrite list_lookup_middle by done.
  unfold pc_step at 1, FreqCapExceeded. cbn [r_count]. rewrite (proj2 (Z.leb_gt limit c)) by lia. rewrite andb_false_r.
  unfold set_pc at 1. cbn [r_count r_end r_pcs]. rewrite insert_app_r_alt, Nat.sub_diag by lia.
  unfold race_step. cbn [r_pcs r_end r_count insert list_insert]. rewrite list_lookup_middle by done.
  unfold pc_step. cbn [r_count]. rewrite Z.eqb_refl. unfold set_pc. cbn [r_count r_end r_pcs].
  rewrite insert_app_r_alt, Nat.sub_diag by lia. cbn. by rewrite u32_id by go_lia.
Qed.

Lemma race_run_app limit w s a b :
  race_run limit w s (a ++ b) = race_run limit w (race_run limit w s a) b.
Proof. apply foldl_app. Qed.

(** The next step of a run from a known state. *)
Ltac race_do :=
  match goal with
  | |- context [race_step ?l ?w (mkRace ?c ?e ?ps) ?i] =>
      let p := eval cbn [lookup list_lookup] in (ps !! i) in
      match p with
      | Some ?q => change (race_step l w (mkRace c e ps) i) with (pc_step l w (mkRace c e ps) i q)
      end
  end;
  unfold pc_step, ended, set_pc, zero_count, open_window;
  cbn [r_count r_end r_pcs insert list_insert orb Z.eqb].

(** The rest of a crowd, each worker alone, the first one stalled before its
    store of the counter. *)
Fixpoint crowd_sched (done_ left_ : nat) : list nat :=
  match left_ with
  | O => []
  | S m => replicate 3 (S done_) ++ crowd_sched (S done_) m
  end.

Lemma crowd_accepts limit w e now j m :
  now < e -> e <> 0 -> limit < 4294967296 -> Z.of_nat (j + m) <= limit ->
  race_run limit w
    (mkRace (Z.of_nat j) e (PReset now :: replicate j (PDone true) ++ replicate m (PStart now)))
    (crowd_sched j m) =
  mkRace (Z.of_nat (j + m)) e (PReset now :: replicate (j + m) (PDone true)).
Proof.
  intros Hnow He Hlim. revert j. induction m as [|m IH]; intros j Hjm.
  - cbn [crowd_sched replicate]. rewrite app_nil_r, Nat.add_0_r. done.
  - change (crowd_sched j (S m)) with (replicate 3 (S j) ++ crowd_sched (S j) m).
    change (replicate (S m) (PStart now)) with (PStart now :: replicate m (PStart now)).
    rewrite race_run_app. pose proof (solo_accept limit w (Z.of_nat j) e (PReset now :: replicate j (PDone true))
      (replicate m (PStart now)) now Hnow He) as Hs.
    cbn [length app] in Hs. rewrite length_replicate in Hs.
    rewrite Hs by lia.
    replace (Z.of_nat j + 1) with (Z.of_nat (S j)) by lia.
    replace (PReset now :: replicate j (PDone true) ++ PDone true :: replicate m (PStart now))
      with (PReset now :: replicate (S j) (PDone true) ++ replicate m (PStart now))
      by (rewrite (replicate_S_end j), <- app_assoc; done).
    rewrite IH by lia. by rewrite <- Nat.add_succ_comm.
Qed.

Lemma accepted_replicate n : accepted (replicate n (PDone true)) = Z.of_nat n.
Proof. induction n as [|n IH]; [done|]. unfold accepted in *. cbn [replicate map sumZ]. lia. Qed.

(** When the window has expired the cap does not hold: a worker that saw the
    expiry and stalls before its stores erases the count of a whole window's
    accepts, and one more than the cap is let through. *)
Theorem expired_window_overshoots n w c now :
  (0 < n)%nat -> Z.of_nat n < 4294967296 -> 0 < w -> 0 <= now -> now + w < 4294967296 ->
  let workers := replicate (S n) (PStart now) in
  exists sched,
    let s := race_run (Z.of_nat n) w (mkRace c 0 workers) sched in
    accepted (r_pcs s) = Z.of_nat n + 1 /\ r_count s = 1.
Proof.
  intros Hn Hn' Hw Hnow Hwide. destruct n as [|n]; [lia|]. cbv zeta.
  exists ([0; 1; 1; 1; 1; 1] ++ crowd_sched 1 n ++ [0; 0; 0; 0])%nat.
  rewrite !race_run_app.
  assert (E : race_run (Z.of_nat (S n)) w (mkRace c 0 (replicate (S (S n)) (PStart now)))
    [0; 1; 1; 1; 1; 1]%nat =
    mkRace (Z.of_nat 1) (now + w) (PReset now :: replicate 1 (PDone true) ++ replicate n (PStart now))).
  { unfold race_run. cbn [foldl replicate]. do 4 race_do. rewrite (proj2 (Z.leb_gt w 0)), (u32_id w), (u32_id (now + w)) by go_lia.
    race_do. unfold FreqCapExceeded. rewrite (proj2 (Z.ltb_lt 0 (Z.of_nat (S n)))), (proj2 (Z.leb_gt (Z.of_nat (S n)) 0)) by lia.
    cbn [andb]. by race_do. }
  rewrite E, crowd_accepts by lia. cbn [Nat.add]. generalize (replicate (S n) (PDone true)) (accepted_replicate (S n)).
  intros ps Hps. unfold race_run. cbn [foldl]. do 3 race_do.
  unfold FreqCapExceeded. rewrite (proj2 (Z.ltb_lt 0 (Z.of_nat (S n)))), (proj2 (Z.leb_gt (Z.of_nat (S n)) 0)) by lia.
  cbn [andb]. race_do. split; [|done]. unfold accepted in *. cbn [map sumZ]. lia.
Qed.

Lemma expired_window_overshoots_witness :
  exists sched,
    let s := race_run (Z.of_nat 3) 60 (mkRace 3 0 (replicate 4 (PStart 1000))) sched in
    accepted (r_pcs s) = Z.of_nat 3 + 1 /\ r_count s = 1.
Proof. apply (expired_window_overshoots 3 60 3 1000); lia. Defined.

End LocalFcap.
