(* ===== verification/DebitScripts.v ===== *)
(** * The debit scripts of the unified filter

    Models the Lua scripts the trackers run on a Redis shard:
    [internal/filter/unified/unified-filter.lua], [budget-fast.lua],
    [budget-rollback.lua] and the legacy [budgetLuaScript] of
    [unified_local.go].  A shard is a store of values, sets and streams; a
    script is a function of the store that returns the new store and the
    reply, [None] for an error reply, after which the writes already made
    stay.  A value is the decimal text of an integer ([RInt]) or any other
    text ([RStr]); [tonumber] of the latter is nil.  Lua numbers are doubles:
    the integers below stand for them up to 2^53, and [INCRBY] fails outside
    64 bits.  Expiry is not a step of a script: a key that expires is a key a
    later run does not find. *)

From stdpp Require Import pretty.
From S2P Require Import Prelude RedisKeys.
Open Scope Z_scope.

Module DebitScripts.

Import RedisKeys.

Inductive RVal := RInt (n : Z) | RStr (s : list Z).

#[export] Instance RVal_eq_dec : EqDecision RVal.
Proof. solve_decision. Defined.

Record Store := mkStore {
  kv : gmap (list Z) RVal;
  sets : gmap (list Z) (gset (list Z));
  streams : list (list Z * list RVal)
}.

Definition empty_store : Store := mkStore ∅ ∅ [].

(** ** Commands *)

Definition Script (A : Type) : Type := Store -> Store * option A.

Definition sret {A} (a : A) : Script A := fun s => (s, Some a).
Definition sbind {A B} (m : Script A) (f : A -> Script B) : Script B :=
  fun s => match m s with
           | (s', Some a) => f a s'
           | (s', None) => (s', None)
           end.

Notation "x <~ m ; k" := (sbind m (fun x => k))
  (at level 100, m at next level, right associativity) : go_scope.
Notation "m ;~ k" := (sbind m (fun _ => k)) (at level 100, right associativity) : go_scope.

Definition with_kv (s : Store) (m : gmap (list Z) RVal) : Store := mkStore m (sets s) (streams s).

Definition GET (k : list Z) : Script (option RVal) := fun s => (s, Some (kv s !! k)).
(** [SET k v EX ttl] and [SET k v NX EX ttl]: a time to live that is not a
    positive integer is an error. *)
Definition ttl_ok (ttl : option Z) : bool := match ttl with Some t => 0 <? t | None => false end.
Definition SETEX (k : list Z) (v : RVal) (ttl : option Z) : Script unit :=
  fun s => if ttl_ok ttl then (with_kv s (<[k := v]> (kv s)), Some tt) else (s, None).
Definition SETNX (k : list Z) (v : RVal) (ttl : option Z) : Script bool :=
  fun s => if negb (ttl_ok ttl) then (s, None)
           else match kv s !! k with
                | Some _ => (s, Some false)
                | None => (with_kv s (<[k := v]> (kv s)), Some true)
                end.
Definition INCRBY (k : list Z) (d : Z) : Script Z :=
  fun s => match default (RInt 0) (kv s !! k) with
           | RStr _ => (s, None)
           | RInt n =>
               if bool_decide (in_i64 (n + d))
               then (with_kv s (<[k := RInt (n + d)]> (kv s)), Some (n + d))
               else (s, None)
           end.
Definition DEL (k : list Z) : Script unit := fun s => (with_kv s (delete k (kv s)), Some tt).
(** [EXPIRE k ttl]: a time to live that is not positive deletes the key. *)
Definition EXPIRE (k : list Z) (ttl : option Z) : Script unit :=
  fun s => match ttl with
           | None => (s, None)
           | Some t => if 0 <? t then (s, Some tt) else (with_kv s (delete k (kv s)), Some tt)
           end.
Definition SADD (k m : list Z) : Script unit :=
  fun s => (mkStore (kv s) (<[k := {[m]} ∪ default ∅ (sets s !! k)]> (sets s)) (streams s), Some tt).
Definition SREM (k m : list Z) : Script unit :=
  fun s => (mkStore (kv s) (<[k := default ∅ (sets s !! k) ∖ {[m]}]> (sets s)) (streams s), Some tt).
Definition XADD (k : list Z) (fields : list RVal) : Script unit :=
  fun s => (mkStore (kv s) (sets s) (streams s ++ [(k, fields)]), Some tt).

(** ** Lua *)

Definition tonumber (v : option RVal) : option Z :=
  match v with Some (RInt n) => Some n | _ => None end.
Definition num (v : option RVal) (d : Z) : Z := default d (tonumber v).
Definition present (v : option RVal) : bool := match v with Some _ => true | None => false end.
Definition is_lit (v : option RVal) (s : list Z) : bool := bool_decide (v = Some (RStr s)).
Definition is_one (v : option RVal) : bool := bool_decide (v = Some (RInt 1)).

(** The text of an argument used as a set member or stream field. *)
Definition text (v : option RVal) : list Z :=
  match v with Some (RStr s) => s | Some (RInt n) => lit (pretty n) | None => [] end.

Definition key (keys : list (list Z)) (i : nat) : list Z := default [] (keys !! pred i).
Definition arg (argv : list RVal) (i : nat) : option RVal := argv !! pred i.

Definition dual_write_flag : list Z := lit "slot_migration:dual_write".
Definition dual_write_stream : list Z := lit "slot_migration:delta".
Definition fcap_ignored : list Z := lit "fcap:ignored".

(** The debit of the spend key and of the two sync counters, which the two
    debit scripts share: spend key, counters, dirty sets, ids, amount. *)
Definition debit_counters (spend_key csync custsync dirty_c dirty_cust : list Z)
    (campaign customer : option RVal) (amount : Z) (amount_arg : option RVal) : Script unit :=
  INCRBY spend_key (- amount) ;~
  c_sync <~ INCRBY csync amount ;
  (if c_sync =? amount then SADD dirty_c (text campaign) else sret tt) ;~
  cust_sync <~ INCRBY custsync amount ;
  (if cust_sync =? amount then SADD dirty_cust (text customer) else sret tt) ;~
  dw <~ GET dual_write_flag ;
  (if present dw
   then XADD dual_write_stream
          [RStr (lit "campaign_id"); RStr (text campaign); RStr (lit "amount"); RStr (text amount_arg);
           RStr (lit "spend_key"); RStr spend_key]
   else sret tt).

(** The event record appended to the stream unless the key is the sentinel. *)
Definition stream_event (stream click campaign user evt_type payload ip ua : list Z) : Script unit :=
  if bool_decide (stream = fcap_ignored) || bool_decide (stream = []) then sret tt
  else XADD stream
         [RStr (lit "click_id"); RStr click; RStr (lit "campaign_id"); RStr campaign;
          RStr (lit "user_id"); RStr user; RStr (lit "type"); RStr evt_type;
          RStr (lit "payload"); RStr payload; RStr (lit "ip"); RStr ip; RStr (lit "ua"); RStr ua].

Definition budget_fast (keys : list (list Z)) (argv : list RVal) : Script Z :=
  let K := key keys in let A := arg argv in
  spend <~ GET (K 1%nat) ;
  idem <~ GET (K 2%nat) ;
  fence <~ GET (K 8%nat) ;
  frozen <~ GET (K 9%nat) ;
  if negb (present spend) then sret (-1)
  else if present idem then sret 0
  else
    let redis_epoch := num fence 0 in
    let routing_epoch := num (A 13%nat) 0 in
    if ((0 <? redis_epoch) && negb (redis_epoch =? routing_epoch)) || present frozen then sret 11
    else
      let amount := num (A 1%nat) 0 in
      let skip_budget := is_one (A 12%nat) in
      let finish :=
        SETEX (K 2%nat) (RInt 1) (tonumber (A 2%nat)) ;~
        stream_event (K 7%nat) (text (A 6%nat)) (text (A 3%nat)) (text (A 11%nat)) (text (A 7%nat))
          (text (A 8%nat)) (text (A 9%nat)) (text (A 10%nat)) ;~
        sret 0 in
      if skip_budget then finish
      else if num spend 0 <? amount then sret 3
      else
        debit_counters (K 1%nat) (K 3%nat) (K 4%nat) (K 5%nat) (K 6%nat) (A 3%nat) (A 4%nat)
          amount (A 1%nat) ;~
        finish.

Definition budget_rollback (keys : list (list Z)) (argv : list RVal) : Script Z :=
  let K := key keys in let A := arg argv in
  let amount := num (A 1%nat) 0 in
  if amount <=? 0 then sret 0
  else
    guard_ok <~ SETNX (K 7%nat) (RInt 1) (Some (num (A 4%nat) 3600)) ;
    if negb guard_ok then sret 2
    else
      INCRBY (K 1%nat) amount ;~
      c_sync <~ INCRBY (K 3%nat) (- amount) ;
      (if c_sync <=? 0 then DEL (K 3%nat) ;~ SREM (K 5%nat) (text (A 2%nat)) else sret tt) ;~
      cust_sync <~ INCRBY (K 4%nat) (- amount) ;
      (if cust_sync <=? 0 then DEL (K 4%nat) ;~ SREM (K 6%nat) (text (A 3%nat)) else sret tt) ;~
      DEL (K 2%nat) ;~
      sret 1.

(** The click time-to-click check of the full script: an early return, or
    whether the click passes without an impression time. *)
Definition ttc_check (K : nat -> list Z) (A : nat -> option RVal) (degraded : bool)
    : Script (Z + bool) :=
  let ttc_min_ms := num (A 20%nat) 0 in
  let now_ms := num (A 21%nat) 0 in
  let ttc_fail_closed := is_one (A 23%nat) in
  let ttc_in_go := is_one (A 34%nat) in
  if negb degraded && negb ttc_in_go && is_lit (A 10%nat) (lit "click") && (0 <? ttc_min_ms) then
    imp_ts_raw <~ GET (K 12%nat) ;
    match imp_ts_raw with
    | Some _ =>
        match tonumber imp_ts_raw with
        | Some imp_ts => if now_ms - imp_ts <? ttc_min_ms then sret (inl 6) else sret (inr false)
        | None => sret (inr false)
        end
    | None => if ttc_fail_closed then sret (inl 7) else sret (inr true)
    end
  else sret (inr false).

Definition degraded_of (A : nat -> option RVal) : bool :=
  let deadline_ns := num (A 29%nat) 0 in
  let now_mono_ns := num (A 30%nat) 0 in
  let degrade_ns := num (A 31%nat) 2000000 in
  (0 <? deadline_ns) && (0 <? now_mono_ns) && (deadline_ns - now_mono_ns <? degrade_ns).

(** The gates after the time-to-click check, on the values of the first
    [MGET]: a return code, or none. *)
Definition budget_gates (A : nat -> option RVal) (degraded : bool) (budget amount : Z)
    (daily_spent_raw fcap_raw : option RVal) : option Z :=
  let skip_budget := is_one (A 24%nat) in
  let freq_limit := num (A 18%nat) 0 in
  let user_id := text (A 17%nat) in
  let cumulative_limit := (num (A 15%nat) 0 * num (A 16%nat) 24) / 24 in
  if negb skip_budget && (budget <? amount) then Some 3
  else if negb skip_budget && negb degraded && is_one (A 14%nat) &&
          (cumulative_limit <? num daily_spent_raw 0 + amount) then Some 4
  else if negb degraded && (0 <? freq_limit) && negb (bool_decide (user_id = [])) &&
          (freq_limit <=? num fcap_raw 0) then Some 5
  else None.

(** The writes of an accepted event after the debit. *)
Definition accept_writes (K : nat -> list Z) (A : nat -> option RVal) (degraded : bool)
    (amount : Z) : Script unit :=
  let skip_budget := is_one (A 24%nat) in
  let freq_limit := num (A 18%nat) 0 in
  let user_id := text (A 17%nat) in
  SETEX (K 4%nat) (RInt 1) (tonumber (A 5%nat)) ;~
  (if negb skip_budget && negb degraded && is_one (A 14%nat)
   then
     ds <~ INCRBY (K 10%nat) amount ;
     if ds =? amount then EXPIRE (K 10%nat) (Some 172800) else sret tt
   else sret tt) ;~
  (if negb degraded && (0 <? freq_limit) && negb (bool_decide (user_id = []))
   then
     new_fcap <~ INCRBY (K 11%nat) 1 ;
     if new_fcap =? 1 then EXPIRE (K 11%nat) (tonumber (A 19%nat)) else sret tt
   else sret tt) ;~
  (if negb degraded && is_lit (A 10%nat) (lit "impression")
   then SETEX (K 12%nat) (RInt (num (A 21%nat) 0)) (Some (num (A 22%nat) 600)) else sret tt) ;~
  let campaign_id := text (A 6%nat) in
  let click_id := text (A 9%nat) in
  tg_meta <~ GET ([123] ++ campaign_id ++ lit "}tg:click:" ++ click_id) ;
  let payload :=
    if negb (bool_decide (campaign_id = [])) && negb (bool_decide (click_id = [])) && present tg_meta
    then text tg_meta else text (A 11%nat) in
  stream_event (K 9%nat) click_id campaign_id user_id (text (A 10%nat)) payload
    (text (A 12%nat)) (text (A 13%nat)).

(** The refill request of a quota key that runs low. *)
Definition refill_request (K : nat -> list Z) (A : nat -> option RVal) (degraded : bool)
    (spend_key : list Z) (budget amount : Z) : Script unit :=
  let quota_enabled := is_one (A 25%nat) in
  let chunk_size := num (A 26%nat) 0 in
  let refill_threshold_pct := num (A 27%nat) 20 in
  if negb degraded && quota_enabled && (0 <? chunk_size) && bool_decide (spend_key = K 13%nat) &&
     negb (is_one (A 24%nat)) && (budget - amount <? chunk_size * refill_threshold_pct / 100) then
    locked <~ SETNX (K 14%nat) (RInt 1) (Some 10) ;
    if locked then SADD (K 15%nat) (text (A 6%nat)) else sret tt
  else sret tt.

Definition unified_filter (keys : list (list Z)) (argv : list RVal) : Script Z :=
  let K := key keys in let A := arg argv in
  let degraded := degraded_of A in
  let spend_key := if is_one (A 25%nat) then K 13%nat else K 3%nat in
  b <~ GET spend_key ;
  idem_exists <~ GET (K 4%nat) ;
  daily_spent_raw <~ GET (K 10%nat) ;
  fcap_raw <~ GET (K 11%nat) ;
  if negb (present b) then sret (-1)
  else if present idem_exists then sret 0
  else
    fence <~ GET (K 16%nat) ;
    frozen <~ GET (K 17%nat) ;
    let redis_epoch := num fence 0 in
    let routing_epoch := num (A 28%nat) 0 in
    if ((0 <? redis_epoch) && negb (redis_epoch =? routing_epoch)) || present frozen then sret 11
    else
      ttc <~ ttc_check K A degraded ;
      match ttc with
      | inl code => sret code
      | inr ttc_bypass =>
          let budget := num b 0 in
          let amount := num (A 4%nat) 0 in
          match budget_gates A degraded budget amount daily_spent_raw fcap_raw with
          | Some code => sret code
          | None =>
              (* [SET KEYS[2] "NX" "EX" ttl] stores the text NX and always replies OK. *)
              SETEX (K 2%nat) (RStr (lit "NX")) (tonumber (A 3%nat)) ;~
              (if is_one (A 24%nat) then sret tt
               else debit_counters spend_key (K 5%nat) (K 6%nat) (K 7%nat) (K 8%nat)
                      (A 6%nat) (A 7%nat) amount (A 4%nat)) ;~
              accept_writes K A degraded amount ;~
              refill_request K A degraded spend_key budget amount ;~
              (if ttc_bypass then sret 10 else if degraded then sret 20 else sret 0)
          end
      end.

(** The script of [RedisBudgetManager.CheckAndSpend]. *)
Definition budgetLuaScript (keys : list (list Z)) (argv : list RVal) : Script Z :=
  let K := key keys in let A := arg argv in
  idem <~ GET (K 2%nat) ;
  if present idem then sret 1
  else
    b <~ GET (K 1%nat) ;
    if negb (present b) then sret (-1)
    else
      match tonumber b, tonumber (A 1%nat) with
      | Some budget, Some amount =>
          if budget <? amount then sret 0
          else
            INCRBY (K 1%nat) (- amount) ;~
            INCRBY (lit "budget:sync:campaign:" ++ text (A 3%nat)) amount ;~
            INCRBY (lit "budget:sync:customer:" ++ text (A 4%nat)) amount ;~
            SADD (lit "budget:dirty_campaigns") (text (A 3%nat)) ;~
            SADD (lit "budget:dirty_customers") (text (A 4%nat)) ;~
            SETEX (K 2%nat) (RInt 1) (tonumber (A 2%nat)) ;~
            sret 1
      | _, _ => fun s => (s, None)   (* arithmetic on nil *)
      end.

(** ** Effects of the commands *)

Lemma sbind_ok {A B} (m : Script A) (f : A -> Script B) s s' a :
  m s = (s', Some a) -> sbind m f s = f a s'.
Proof. unfold sbind. by intros ->. Qed.

(** Commands that leave the values alone. *)
Definition neutral (m : Script unit) : Prop :=
  forall s, exists s', m s = (s', Some tt) /\ kv s' = kv s.

Lemma neutral_ret : neutral (sret tt).
Proof. intros s. by exists s. Qed.

Lemma neutral_if (b : bool) m n : neutral m -> neutral n -> neutral (if b then m else n).
Proof. by destruct b. Qed.

Lemma neutral_sadd k m : neutral (SADD k m).
Proof. intros s. eexists. by split. Qed.

Lemma neutral_srem k m : neutral (SREM k m).
Proof. intros s. eexists. by split. Qed.

Lemma neutral_xadd k m : neutral (XADD k m).
Proof. intros s. eexists. by split. Qed.

Lemma neutral_stream a b c d e f g h : neutral (stream_event a b c d e f g h).
Proof. apply neutral_if; [apply neutral_ret|apply neutral_xadd]. Qed.

#[local] Hint Resolve neutral_ret neutral_if neutral_sadd neutral_srem neutral_xadd neutral_stream : go.

(** The counter under a key: an absent one is zero, other text is none. *)
Definition counter (m : gmap (list Z) RVal) (k : list Z) : option Z :=
  tonumber (Some (default (RInt 0) (m !! k))).

Lemma incr_ok k d s n :
  counter (kv s) k = Some n -> in_i64 (n + d) ->
  INCRBY k d s = (with_kv s (<[k := RInt (n + d)]> (kv s)), Some (n + d)).
Proof.
  unfold counter, INCRBY. destruct (default _ _) as [m|]; [|done]. intros [= ->] Hr.
  by rewrite bool_decide_true.
Qed.

Lemma counter_insert m k n : counter (<[k := RInt n]> m) k = Some n.
Proof. unfold counter. by rewrite lookup_insert_eq. Qed.

Lemma counter_insert_ne m k k' v : k <> k' -> counter (<[k := v]> m) k' = counter m k'.
Proof. intros H. unfold counter. by rewrite lookup_insert_ne. Qed.

Lemma counter_delete m k : counter (delete k m) k = Some 0.
Proof. unfold counter. by rewrite lookup_delete_eq. Qed.

Lemma counter_delete_ne m k k' : k <> k' -> counter (delete k m) k' = counter m k'.
Proof. intros H. unfold counter. by rewrite lookup_delete_ne. Qed.

Lemma setex_ok k v t s : 0 < t -> SETEX k v (Some t) s = (with_kv s (<[k := v]> (kv s)), Some tt).
Proof. intros H. unfold SETEX, ttl_ok. by rewrite (proj2 (Z.ltb_lt 0 t) H). Qed.

Lemma neutral_bind {B} (m : Script unit) (f : unit -> Script B) s :
  neutral m -> exists s', kv s' = kv s /\ sbind m f s = f tt s'.
Proof. intros Hm. destruct (Hm s) as (s' & E & Hkv). exists s'. split; [done|]. by apply sbind_ok. Qed.

(** Runs a neutral command at the head of the goal. *)
Ltac run_neutral :=
  match goal with
  | |- context [sbind ?m ?f ?s] =>
      let s' := fresh "s'" in let Hkv := fresh "Hkv" in let E := fresh "E" in
      destruct (neutral_bind m f s) as (s' & Hkv & E); [auto with go|rewrite E; clear E]
  end.

(** The debit moves the amount from the budget to both counters. *)
Lemma debit_counters_ok sk ck uk dc du campaign customer a arg_a s bal p q :
  sk <> ck -> sk <> uk -> ck <> uk ->
  counter (kv s) sk = Some bal -> counter (kv s) ck = Some p -> counter (kv s) uk = Some q ->
  in_i64 (bal - a) -> in_i64 (p + a) -> in_i64 (q + a) ->
  exists s', debit_counters sk ck uk dc du campaign customer a arg_a s = (s', Some tt) /\
    kv s' = <[uk := RInt (q + a)]> (<[ck := RInt (p + a)]> (<[sk := RInt (bal - a)]> (kv s))).
Proof.
  intros H1 H2 H3 Hb Hp Hq Rb Rp Rq. unfold debit_counters.
  rewrite (sbind_ok _ _ _ _ _ (incr_ok sk (- a) s bal Hb Rb)).
  set (s1 := with_kv s _).
  assert (Hp1 : counter (kv s1) ck = Some p) by (unfold s1; cbn [kv with_kv]; by rewrite counter_insert_ne).
  rewrite (sbind_ok _ _ _ _ _ (incr_ok ck a s1 p Hp1 Rp)).
  set (s2 := with_kv s1 _). run_neutral.
  assert (Hq1 : counter (kv s') uk = Some q).
  { rewrite Hkv. unfold s2, s1. cbn [kv with_kv]. by rewrite !counter_insert_ne. }
  rewrite (sbind_ok _ _ _ _ _ (incr_ok uk a s' q Hq1 Rq)).
  set (s3 := with_kv s' _). run_neutral.
  unfold sbind, GET. case_if.
  - eexists. split; [reflexivity|]. cbn. rewrite Hkv0. unfold s3. cbn. rewrite Hkv. done.
  - eexists. split; [reflexivity|]. rewrite Hkv0. unfold s3. cbn. rewrite Hkv. done.
Qed.

(** ** Effects of the scripts *)

Definition barred (m : gmap (list Z) RVal) (fence frozen : list Z) (routing : Z) : bool :=
  ((0 <? num (m !! fence) 0) && negb (num (m !! fence) 0 =? routing)) || present (m !! frozen).

(** The gates of the fast script that leave the store alone. *)
Lemma budget_fast_refuses keys argv s code :
  (if negb (present (kv s !! key keys 1)) then Some (-1)
   else if present (kv s !! key keys 2) then Some 0
   else if barred (kv s) (key keys 8) (key keys 9) (num (arg argv 13) 0) then Some 11
   else if negb (is_one (arg argv 12)) && (num (kv s !! key keys 1) 0 <? num (arg argv 1) 0) then Some 3
   else None) = Some code ->
  budget_fast keys argv s = (s, Some code).
Proof.
  unfold budget_fast, sbind, GET, barred, sret. cbv zeta beta.
  destruct (present (kv s !! key keys 1)); cbn [negb]; [|congruence].
  destruct (present (kv s !! key keys 2)); [congruence|].
  destruct (_ || _); [congruence|].
  destruct (is_one (arg argv 12)); cbn [negb andb]; [congruence|].
  destruct (_ <? _); congruence.
Qed.

Section Accept.
Context (keys : list (list Z)) (argv : list RVal) (s : Store) (ttl : Z).
Context (Hspend : present (kv s !! key keys 1) = true) (Hfresh : kv s !! key keys 2 = None)
        (Hopen : barred (kv s) (key keys 8) (key keys 9) (num (arg argv 13) 0) = false)
        (Httl : tonumber (arg argv 2) = Some ttl) (Hpos : 0 < ttl).

(** A check that skips the budget leaves the click's marker only. *)
Lemma budget_fast_shadow :
  is_one (arg argv 12) = true ->
  exists s', budget_fast keys argv s = (s', Some 0) /\
    kv s' = <[key keys 2 := RInt 1]> (kv s).
Proof.
  intros Hskip. unfold budget_fast. cbv zeta. unfold barred in Hopen.
  do 4 (erewrite sbind_ok by reflexivity). rewrite Hspend, Hfresh, Hopen, Hskip. cbn [negb present].
  rewrite Httl, (sbind_ok _ _ _ _ _ (setex_ok _ _ _ s Hpos)).
  run_neutral. eexists. split; [reflexivity|]. by rewrite Hkv.
Qed.

Lemma budget_fast_debit bal p q a :
  is_one (arg argv 12) = false -> num (arg argv 1) 0 = a -> a <= bal ->
  kv s !! key keys 1 = Some (RInt bal) ->
  counter (kv s) (key keys 3) = Some p -> counter (kv s) (key keys 4) = Some q ->
  key keys 1 <> key keys 3 -> key keys 1 <> key keys 4 -> key keys 3 <> key keys 4 ->
  in_i64 (bal - a) -> in_i64 (p + a) -> in_i64 (q + a) ->
  exists s', budget_fast keys argv s = (s', Some 0) /\
    kv s' = <[key keys 2 := RInt 1]> (<[key keys 4 := RInt (q + a)]> (<[key keys 3 := RInt (p + a)]>
              (<[key keys 1 := RInt (bal - a)]> (kv s)))).
Proof.
  intros Hskip Ha Hle Hb Hp Hq H1 H2 H3 Rb Rp Rq. unfold budget_fast. cbv zeta. unfold barred in Hopen.
  do 4 (erewrite sbind_ok by reflexivity). rewrite Hspend, Hfresh, Hopen, Hskip, Ha, Hb. cbn [negb present].
  change (num (Some (RInt bal)) 0) with bal. rewrite (proj2 (Z.ltb_ge bal a) Hle).
  destruct (debit_counters_ok (key keys 1) (key keys 3) (key keys 4) (key keys 5) (key keys 6)
    (arg argv 3) (arg argv 4) a (arg argv 1) s bal p q) as (s1 & E1 & Hkv1); auto.
  { unfold counter. by rewrite Hb. }
  rewrite (sbind_ok _ _ _ _ _ E1), Httl, (sbind_ok _ _ _ _ _ (setex_ok _ _ _ s1 Hpos)).
  run_neutral. eexists. split; [reflexivity|]. rewrite Hkv. cbn. by rewrite Hkv1.
Qed.
End Accept.

(** [INCRBY] by a refund, and the deletion of a counter that falls to zero. *)
Definition settle (m : gmap (list Z) RVal) (k : list Z) (n : Z) : gmap (list Z) RVal :=
  if n <=? 0 then delete k m else <[k := RInt n]> m.

Lemma settle_counter m k n : counter (settle m k n) k = Some (Z.max 0 n).
Proof.
  unfold settle. destruct (Z.leb_spec n 0).
  - rewrite counter_delete. f_equal. lia.
  - rewrite counter_insert. f_equal. lia.
Qed.

Lemma settle_ne m k n k' : k <> k' -> settle m k n !! k' = m !! k'.
Proof.
  intros H. unfold settle. destruct (n <=? 0); [by rewrite lookup_delete_ne|by rewrite lookup_insert_ne].
Qed.

Lemma settle_counter_ne m k n k' : k <> k' -> counter (settle m k n) k' = counter m k'.
Proof. intros H. unfold counter. by rewrite settle_ne. Qed.

Lemma settle_step {B} k dirty m a n s (f : Script B) :
  counter (kv s) k = Some n -> in_i64 (n + - a) ->
  exists s', kv s' = settle (kv s) k (n - a) /\
    (c <~ INCRBY k (- a) ; (if c <=? 0 then DEL k ;~ SREM dirty m else sret tt) ;~ f) s = f s'.
Proof.
  intros Hn Hr. rewrite (sbind_ok _ _ _ _ _ (incr_ok k (- a) s n Hn Hr)). unfold settle.
  replace (n - a) with (n + - a) by lia. destruct (n + - a <=? 0).
  - eexists. split; [|reflexivity]. cbn. by rewrite delete_insert_eq.
  - eexists. split; [|reflexivity]. done.
Qed.

Lemma budget_rollback_invalid keys argv s :
  num (arg argv 1) 0 <= 0 -> budget_rollback keys argv s = (s, Some 0).
Proof. intros H. unfold budget_rollback. cbv zeta. by rewrite (proj2 (Z.leb_le _ 0) H). Qed.

Lemma budget_rollback_again keys argv s :
  0 < num (arg argv 1) 0 -> 0 < num (arg argv 4) 3600 -> present (kv s !! key keys 7) = true ->
  budget_rollback keys argv s = (s, Some 2).
Proof.
  intros H Ht Hg. unfold budget_rollback. cbv zeta. rewrite (proj2 (Z.leb_gt _ 0) H).
  unfold sbind, SETNX, ttl_ok. rewrite (proj2 (Z.ltb_lt 0 _) Ht). cbn [negb].
  by destruct (kv s !! key keys 7).
Qed.

Lemma budget_rollback_ok keys argv s a bal p q :
  num (arg argv 1) 0 = a -> 0 < a -> 0 < num (arg argv 4) 3600 -> kv s !! key keys 7 = None ->
  key keys 7 <> key keys 1 -> key keys 7 <> key keys 3 -> key keys 7 <> key keys 4 ->
  key keys 1 <> key keys 3 -> key keys 1 <> key keys 4 -> key keys 3 <> key keys 4 ->
  counter (kv s) (key keys 1) = Some bal -> counter (kv s) (key keys 3) = Some p ->
  counter (kv s) (key keys 4) = Some q ->
  in_i64 (bal + a) -> in_i64 (p - a) -> in_i64 (q - a) ->
  exists s', budget_rollback keys argv s = (s', Some 1) /\
    kv s' = delete (key keys 2) (settle (settle (<[key keys 1 := RInt (bal + a)]>
              (<[key keys 7 := RInt 1]> (kv s))) (key keys 3) (p - a)) (key keys 4) (q - a)).
Proof.
  intros Ha Hpos Httl Hg N1 N2 N3 N4 N5 N6 Hb Hp Hq Rb Rp Rq. unfold budget_rollback. cbv zeta.
  rewrite Ha, (proj2 (Z.leb_gt a 0) Hpos).
  set (s1 := with_kv s (<[key keys 7 := RInt 1]> (kv s))).
  assert (E1 : SETNX (key keys 7) (RInt 1) (Some (num (arg argv 4) 3600)) s = (s1, Some true)).
  { unfold SETNX, ttl_ok. rewrite (proj2 (Z.ltb_lt 0 _) Httl), Hg. done. }
  rewrite (sbind_ok _ _ _ _ _ E1). cbn [negb].
  assert (Hb1 : counter (kv s1) (key keys 1) = Some bal) by (unfold s1; cbn [kv with_kv]; by rewrite counter_insert_ne).
  rewrite (sbind_ok _ _ _ _ _ (incr_ok _ a s1 bal Hb1 Rb)).
  set (s2 := with_kv s1 _).
  destruct (settle_step (key keys 3) (key keys 5) (text (arg argv 2)) a p s2
    (cust_sync <~ INCRBY (key keys 4) (- a) ;
      (if cust_sync <=? 0 then DEL (key keys 4) ;~ SREM (key keys 6) (text (arg argv 3)) else sret tt) ;~
      DEL (key keys 2) ;~ sret 1)) as (s3 & Hkv3 & ->); [|done|].
  { unfold s2, s1. cbn [kv with_kv]. by rewrite !counter_insert_ne. }
  destruct (settle_step (key keys 4) (key keys 6) (text (arg argv 3)) a q s3
    (DEL (key keys 2) ;~ sret 1)) as (s4 & Hkv4 & ->); [|done|].
  { rewrite Hkv3, settle_counter_ne by done. unfold s2, s1. cbn [kv with_kv]. by rewrite !counter_insert_ne. }
  eexists. split; [reflexivity|]. cbn. by rewrite Hkv4, Hkv3.
Qed.

(** ** Keys a script leaves alone *)

Definition frames {A} (k : list Z) (m : Script A) : Prop :=
  forall s, kv (fst (m s)) !! k = kv s !! k.

Lemma frames_ret {A} k (a : A) : frames k (sret a).
Proof. done. Qed.

Lemma frames_bind {A B} k (m : Script A) (g : A -> Script B) :
  frames k m -> (forall a, frames k (g a)) -> frames k (sbind m g).
Proof.
  intros Hm Hg s. unfold sbind. specialize (Hm s). destruct (m s) as [s' [a|]]; cbn in *; [|done].
  by rewrite Hg.
Qed.

Lemma frames_if {A} k (b : bool) (m n : Script A) : frames k m -> frames k n -> frames k (if b then m else n).
Proof. by destruct b. Qed.

Lemma frames_incr k k' d : k <> k' -> frames k (INCRBY k' d).
Proof.
  intros Hne s. unfold INCRBY. case_if; [|done]. case_if; [|done]. cbn. by rewrite lookup_insert_ne.
Qed.

Lemma frames_del k k' : k <> k' -> frames k (DEL k').
Proof. intros Hne s. cbn. by rewrite lookup_delete_ne. Qed.

Lemma frames_setnx k k' v t : k <> k' -> frames k (SETNX k' v t).
Proof. intros Hne s. unfold SETNX. repeat case_if; try done. cbn. by rewrite lookup_insert_ne. Qed.

Lemma frames_srem k k' m : frames k (SREM k' m).
Proof. done. Qed.

Lemma frames_setex k k' v t : k <> k' -> frames k (SETEX k' v t).
Proof. intros Hne s. unfold SETEX. case_if; [|done]. cbn. by rewrite lookup_insert_ne. Qed.

Lemma frames_neutral k m : neutral m -> frames k m.
Proof. intros Hm s. destruct (Hm s) as (s' & -> & Hkv). cbn. by rewrite Hkv. Qed.

Lemma frames_get k k' : frames k (GET k').
Proof. done. Qed.

Create HintDb frames discriminated.
#[local] Hint Resolve frames_ret frames_bind frames_if frames_incr frames_del frames_setnx frames_setex
  frames_srem frames_get : frames.
#[local] Hint Extern 2 (frames _ (SADD _ _)) => apply frames_neutral, neutral_sadd : frames.
#[local] Hint Extern 2 (frames _ (XADD _ _)) => apply frames_neutral, neutral_xadd : frames.
#[local] Hint Extern 2 (frames _ (stream_event _ _ _ _ _ _ _ _)) => apply frames_neutral, neutral_stream : frames.

Lemma debit_counters_frame k sk ck uk dc du a b n arg_n :
  k <> sk -> k <> ck -> k <> uk -> frames k (debit_counters sk ck uk dc du a b n arg_n).
Proof. intros. unfold debit_counters. auto 12 with frames. Qed.

(** The fast script only writes its spend key, marker and counters. *)
Lemma budget_fast_frame keys argv k :
  k <> key keys 1 -> k <> key keys 2 -> k <> key keys 3 -> k <> key keys 4 ->
  frames k (budget_fast keys argv).
Proof.
  intros. unfold budget_fast. cbv zeta. pose proof debit_counters_frame.
  auto 20 with frames.
Qed.

(** A rollback only writes its own keys. *)
Lemma budget_rollback_frame keys argv k :
  k <> key keys 1 -> k <> key keys 2 -> k <> key keys 3 -> k <> key keys 4 -> k <> key keys 7 ->
  frames k (budget_rollback keys argv).
Proof. intros. unfold budget_rollback. cbv zeta. auto 12 with frames. Qed.

Lemma frames_expire k k' t : k <> k' -> frames k (EXPIRE k' t).
Proof. intros Hne s. unfold EXPIRE. destruct t as [t|]; [|done]. case_if; [done|]. cbn. by rewrite lookup_delete_ne. Qed.

#[local] Hint Resolve frames_expire : frames.

Ltac frames_step :=
  first [apply frames_ret | apply frames_get | apply debit_counters_frame | apply frames_if
        | apply frames_bind; [|intros ?]
        | match goal with |- frames _ (match ?x with _ => _ end) => destruct x end | solve [auto 3 with frames]].

(** The unified filter only writes keys it was given. *)
Lemma unified_filter_frame keys argv k :
  (forall i, k <> key keys i) -> frames k (unified_filter keys argv).
Proof.
  intros H. unfold unified_filter, ttc_check, accept_writes, refill_request. cbv zeta.
  repeat frames_step; first [apply H | destruct (is_one _); apply H].
Qed.

End DebitScripts.
