(* ===== verification/UnifiedFilter.v ===== *)
(** * The unified filter: budget debit on the Redis path

    Models the Go side of the debit, [internal/filter/unified/unified.go],
    [unified_budget.go], [unified_local.go], [unified_fcap.go] and
    [internal/filter/budget_warmer.go], [engine.go]: the shard a click is
    debited on, the keys and arguments of the scripts of [DebitScripts], the
    two-attempt loop with its recovery of a missing budget key, the meaning
    of the reply codes, and the rollback of a debit whose event could not be
    published.  The clock, the breakers, the campaign registry and Postgres
    are inputs; a key's expiry shows as its absence. *)

From stdpp Require Import pretty.
From S2P Require Import Prelude SlotMap RedisKeys RtbFcap LocalFcap DebitScripts.
Open Scope Z_scope.

Module UnifiedFilter.

Import RedisKeys LocalFcap DebitScripts.

Inductive FilterErr :=
  | ErrRateLimitExceeded | ErrDuplicateEvent | ErrBudgetExhausted | ErrPacingExhausted
  | ErrFreqLimitExceeded | ErrMigrationFenced | ErrDailyQuotaExceeded | ErrPlacementBlocked
  | ErrFilterTimeout | ErrShardUnavailable | ErrRedis | ErrRepo.

Inductive FraudReason :=
  | FraudReasonLowTTC | FraudReasonMissingImpTS | FraudReasonL3Blocklist.

(** [domain.Campaign], the fields the debit reads. *)
Record FCampaign := mkFCampaign {
  base : Campaign;
  BudgetCampaignKey : list Z; CampaignSyncKey : list Z; CustomerSyncKey : list Z;
  DailySpendKeyPrefix : list Z; FcapKeyPrefix : list Z;
  IDStr : list Z; CustomerIDStr : list Z;
  PacingEven : bool; DailyBudgetMicro : Z;
  RoutingEpoch : Z; MigrationGen : Z;
  HasTriplet : bool; PrimaryAShard : Z; PrimaryBShard : Z; ReserveShard : Z;
  StatusActive : bool; BudgetLimit : Z; CurrentSpend : Z
}.

Definition LuaRoutingEpoch (c : FCampaign) : Z :=
  if MigrationGen c <? RoutingEpoch c then RoutingEpoch c else MigrationGen c.

Definition BehaviorRoughPacing : Z := 128.
Definition RoughPacingEnabled (c : FCampaign) : bool :=
  negb (Z.land (BehaviorFlags (base c)) BehaviorRoughPacing =? 0).

(** [domain.Event] *)
Record Event := mkEvent {
  CampaignID : list Z; UserID : list Z; ClickID : list Z; Type_ : list Z; Payload : list Z;
  IP : list Z; UA : list Z; FilterDeadlineMono : Z; LocalFcapLookup : Z;
  signals : list FraudReason
}.

Definition with_lookup (e : Event) (k : Z) : Event :=
  mkEvent (CampaignID e) (UserID e) (ClickID e) (Type_ e) (Payload e) (IP e) (UA e)
    (FilterDeadlineMono e) k (signals e).
Definition AddFraudSignal (e : Event) (r : FraudReason) : Event :=
  mkEvent (CampaignID e) (UserID e) (ClickID e) (Type_ e) (Payload e) (IP e) (UA e)
    (FilterDeadlineMono e) (LocalFcapLookup e) (signals e ++ [r]).

(** The configuration of [UnifiedFilter] and its shared switches. *)
Record Filter := mkFilter {
  quotaEnabled : bool; quotaLive : bool; quotaChunkSize : Z; quotaRefillThresholdPct : Z;
  streamKey : list Z; maxStreamLen : Z; dupTTL : Z; idempotencyTTL : Z;
  clickAmountMicro : Z; impressionAmountMicro : Z;
  ttcMinMs : Z; ttcFailClosed : bool; impTSTTL : Z; localTTC : bool; roughPacing : bool;
  localQuantaRefill : bool; fastPathEnabled : bool; slaPenaltyActive : bool;
  skipBudgetDebit : bool; postgresFallbackAllowed : bool
}.

(** The clock of a check: local hour and date, wall and monotonic time. *)
Record Clock := mkClock { hour : Z; date : list Z; now_ms : Z; now_mono : Z; now_sec : Z }.

Inductive RepoAnswer := RepoTimeout | RepoFailed | RepoRow (c : FCampaign).

(** What the recovery of a missing key finds. *)
Record RecoverEnv := mkRecoverEnv {
  registry : option FCampaign; deadline_exceeded : bool; no_time_left : bool;
  repo : option RepoAnswer; set_fails : bool
}.

(** The shards, the local frequency table and the local budget block. *)
Record World := mkWorld { shards : list Store; fcap : list LocalFcapCell; quota_blocked : bool }.

Definition set_shard (w : World) (i : Z) (s : Store) : World :=
  mkWorld (set_z (shards w) i s) (fcap w) (quota_blocked w).

Definition debit_amount (f : Filter) (evt_type : list Z) : Z :=
  let full := if bool_decide (evt_type = lit "impression")
              then impressionAmountMicro f else clickAmountMicro f in
  if slaPenaltyActive f then Z.quot full 2 else full.

(** ** Shard of a debit *)

Definition resolveDebitShard (GetShard : list Z -> Z) (breakerOpen : Z -> bool) (nshards : Z)
    (campaignID userID clickID : list Z) (camp : FCampaign) : option (Z * Z) :=
  let subs := DebitSubShardCount (Some (base camp)) in
  let '(shard, subSlot) :=
    if 0 <? subs then
      let sub := debitSubSlot (base camp) userID clickID in
      (spreadHighVolumeShard nshards campaignID sub, sub)
    else if HasTriplet camp then
      let pct := computeCompositeHashUUID campaignID userID mod 100 in
      (if pct <? 40 then PrimaryAShard camp
       else if pct <? 80 then PrimaryBShard camp else ReserveShard camp, 0)
    else (GetShard campaignID, 0) in
  if negb (breakerOpen shard) then Some (shard, subSlot)
  else if HasTriplet camp && (subs =? 0) then
    match List.find (fun alt => negb (alt =? shard) && negb (breakerOpen alt))
            [ReserveShard camp; PrimaryAShard camp; PrimaryBShard camp] with
    | Some alt => Some (alt, subSlot)
    | None => None
    end
  else None.

(** ** Keys and arguments *)

Definition fence_prefix : list Z := lit "budget:migration_fence:".
Definition frozen_prefix : list Z := lit "budget:frozen:".
Definition dirty_campaigns : list Z := lit "budget:dirty_campaigns".
Definition dirty_customers : list Z := lit "budget:dirty_customers".
Definition refill_needed : list Z := lit "budget:refill_needed".

Definition appendBudgetQuotaKey (id : list Z) (subSlot : Z) : list Z :=
  (if subSlot <=? 0 then campaignHashTag id else AppendCampaignSubHashTag [] id subSlot) ++
  lit "budget:quota:" ++ AppendUUID [] id.

Definition click_idempotency (click : list Z) : list Z := lit "idempotency:click:" ++ click.
Definition tagged_idempotency (id click : list Z) : list Z :=
  campaignHashTag id ++ lit "idempotency:click:" ++ click.
Definition appendClickRollbackGuardKey (id click : list Z) : list Z :=
  campaignHashTag id ++ lit "rollback:click:" ++ click.

Definition budgetSourceKey (f : Filter) (e : Event) (c : FCampaign) : list Z :=
  if quotaEnabled f
  then appendBudgetQuotaKey (CampaignID e) (debitSubSlot (base c) (UserID e) (ClickID e))
  else BudgetCampaignKey c.

Definition fast_keys (f : Filter) (e : Event) (c : FCampaign) : list (list Z) :=
  [budgetSourceKey f e c; click_idempotency (ClickID e); CampaignSyncKey c; CustomerSyncKey c;
   dirty_campaigns; dirty_customers; streamKey f;
   fence_prefix ++ AppendUUID [] (CampaignID e); frozen_prefix ++ AppendUUID [] (CampaignID e);
   fcap_ignored; fcap_ignored; fcap_ignored].

Definition flag (b : bool) : RVal := RInt (if b then 1 else 0).

Definition fast_args (f : Filter) (e : Event) (c : FCampaign) (amount : Z) : list RVal :=
  [RInt amount; RInt (idempotencyTTL f); RStr (IDStr c); RStr (CustomerIDStr c);
   RInt (maxStreamLen f); RStr (ClickID e); RStr (Type_ e); RStr (Payload e); RStr (IP e);
   RStr (UA e); RStr (UserID e); flag (skipBudgetDebit f); RInt (LuaRoutingEpoch c);
   RInt 0; RInt 0].

Definition full_keys (f : Filter) (clk : Clock) (e : Event) (c : FCampaign) : list (list Z) :=
  let id := CampaignID e in let tag := campaignHashTag id in
  [fcap_ignored;
   tag ++ lit "dup:" ++ Type_ e ++ lit ":" ++ ClickID e;
   BudgetCampaignKey c;
   tagged_idempotency id (ClickID e);
   CampaignSyncKey c; CustomerSyncKey c; dirty_campaigns; dirty_customers; streamKey f;
   DailySpendKeyPrefix c ++ date clk;
   (if bool_decide (UserID e = []) then fcap_ignored
    else fcapKeyPrefixForDebit (AppendUUID []) (Some (base c)) (UserID e) (ClickID e) ++ UserID e);
   tag ++ lit "imp_ts:" ++ UserID e ++ lit ":" ++ AppendUUID [] id;
   appendBudgetQuotaKey id (debitSubSlot (base c) (UserID e) (ClickID e));
   tag ++ lit "budget:refill_lock:" ++ AppendUUID [] id;
   refill_needed; fence_prefix ++ AppendUUID [] id; frozen_prefix ++ AppendUUID [] id;
   fcap_ignored; fcap_ignored].

Definition full_args (f : Filter) (clk : Clock) (e : Event) (c : FCampaign) (amount : Z) : list RVal :=
  let hr := let h := hour clk + 1 in if h <? 1 then 1 else if 24 <? h then 24 else h in
  let timed := 0 <? FilterDeadlineMono e in
  [RInt 0; RInt 0; RInt (dupTTL f); RInt amount; RInt (idempotencyTTL f); RStr (IDStr c);
   RStr (CustomerIDStr c); RInt (maxStreamLen f); RStr (ClickID e); RStr (Type_ e);
   RStr (Payload e); RStr (IP e); RStr (UA e); flag (PacingEven c); RInt (DailyBudgetMicro c);
   RInt hr; RStr (UserID e); RInt (FreqLimit (base c)); RInt (FreqWindow (base c));
   RInt (ttcMinMs f); RInt (now_ms clk); RInt (impTSTTL f); flag (ttcFailClosed f);
   flag (skipBudgetDebit f); flag (quotaEnabled f); RInt (quotaChunkSize f);
   RInt (quotaRefillThresholdPct f); RInt (LuaRoutingEpoch c);
   RInt (if timed then FilterDeadlineMono e else 0); RInt (if timed then now_mono clk else 0);
   RInt 2000000; RStr []; RInt 0; flag (localTTC f)].

(** ** Recovery of a missing budget key *)

Definition RemainingBudgetMicro (c : FCampaign) : Z :=
  let rem := i64 (BudgetLimit c - CurrentSpend c) in
  if rem <? 0 then 0 else rem.

(** [recoverBudgetKeySet]: an unconditional [SET]. *)
Definition TryRecoverBudgetFromRegistry (env : RecoverEnv) (k : list Z) (s : Store)
    : Store * (bool + FilterErr) :=
  match registry env with
  | None => (s, inl false)
  | Some c =>
      if negb (StatusActive c) then (s, inl false)
      else if (BudgetLimit c =? 0) && (CurrentSpend c =? 0) then (s, inl false)
      else if set_fails env then (s, inr ErrRedis)
      else (with_kv s (<[k := RInt (RemainingBudgetMicro c)]> (kv s)), inl true)
  end.

Definition WarmBudgetKeyNX (k : list Z) (remaining : Z) (s : Store) : Store :=
  match kv s !! k with
  | Some _ => s
  | None => with_kv s (<[k := RInt remaining]> (kv s))
  end.

Definition recoverBudgetAfterMiss (f : Filter) (env : RecoverEnv) (k : list Z) (attempt : nat)
    (s : Store) : Store * (bool + FilterErr) :=
  if (0 <? attempt)%nat then (s, inr ErrBudgetExhausted)
  else if deadline_exceeded env then (s, inr ErrFilterTimeout)
  else
    match TryRecoverBudgetFromRegistry env k s with
    | (s, inr err) => (s, inr err)
    | (s, inl true) => (s, inl true)
    | (s, inl false) =>
        if negb (postgresFallbackAllowed f) then (s, inr ErrBudgetExhausted)
        else if no_time_left env then (s, inr ErrFilterTimeout)
        else
          match repo env with
          | None => (s, inr ErrBudgetExhausted)
          | Some RepoTimeout => (s, inr ErrFilterTimeout)
          | Some RepoFailed => (s, inr ErrRepo)
          | Some (RepoRow c) =>
              if negb (StatusActive c) then (s, inr ErrBudgetExhausted)
              else if set_fails env then (s, inr ErrRedis)
              else (WarmBudgetKeyNX k (RemainingBudgetMicro c) s, inl true)
          end
    end.

(** ** Local frequency cap of an event *)

Definition rollbackLocalFcapForEvent (w : World) (e : Event) : World * Event :=
  if LocalFcapLookup e =? 0 then (w, e)
  else (mkWorld (shards w) (Rollback (fcap w) (LocalFcapLookup e)) (quota_blocked w), with_lookup e 0).

Definition tryAcquireLocalFcap (now_sec : Z) (w : World) (e : Event) (c : FCampaign)
    : World * Event * option FilterErr :=
  let lookup := fcapLookupKey (FreqLimit (base c)) (FNV64String (FcapKeyPrefix c)) (UserID e) in
  if lookup =? 0 then (w, e, None)
  else
    let '(ok, l) := TryAcquire (fcap w) lookup (u32 (FreqLimit (base c))) (FreqWindow (base c)) now_sec in
    let w := mkWorld (shards w) l (quota_blocked w) in
    if ok then (w, with_lookup e lookup, None) else (w, e, Some ErrFreqLimitExceeded).

Section Filter.
Context (GetShard : list Z -> Z).

(** ** Rollback *)

Definition rollback_keys (f : Filter) (e : Event) (c : FCampaign) : list (list Z) :=
  [budgetSourceKey f e c; click_idempotency (ClickID e); CampaignSyncKey c; CustomerSyncKey c;
   dirty_campaigns; dirty_customers; appendClickRollbackGuardKey (CampaignID e) (ClickID e)].

Definition rollback_args (f : Filter) (c : FCampaign) (amount : Z) : list RVal :=
  [RInt amount; RStr (IDStr c); RStr (CustomerIDStr c); RInt (idempotencyTTL f)].

Definition RollbackRedisDebit (breakerOpen : Z -> bool) (f : Filter) (w : World) (e : Event)
    (c : FCampaign) (amount : Z) : World * option FilterErr :=
  match resolveDebitShard GetShard breakerOpen (zlen (shards w)) (CampaignID e) (UserID e) (ClickID e) c with
  | None => (w, Some ErrShardUnavailable)
  | Some (shard, _) =>
      let i := Z.rem shard (zlen (shards w)) in
      match at_z (shards w) i with
      | None => (w, Some ErrRedis)
      | Some s =>
          let '(s', code) := budget_rollback (rollback_keys f e c) (rollback_args f c amount) s in
          (set_shard w i s',
           match code with Some 1 | Some 2 => None | _ => Some ErrRedis end)
      end
  end.

(** [RollbackDebit] on an event without a pending local-quota debit. *)
Definition RollbackDebit (breakerOpen : Z -> bool) (f : Filter) (w : World) (e : Event)
    (c : FCampaign) (amount : Z) : World * Event :=
  let '(w, e) := rollbackLocalFcapForEvent w e in
  (fst (RollbackRedisDebit breakerOpen f w e c amount), e).

(** [FilterEngine.RollbackDebit] on the unified filter. *)
Definition engine_RollbackDebit (breakerOpen : Z -> bool) (f : Filter) (w : World) (e : Event)
    (c : FCampaign) : World * Event :=
  let debitAmount := if bool_decide (Type_ e = lit "impression")
                     then impressionAmountMicro f else clickAmountMicro f in
  RollbackDebit breakerOpen f w e c debitAmount.

(** ** Reply codes *)

Definition ttcEnabled (f : Filter) : bool := 0 <? ttcMinMs f.

Definition reject (w : World) (e : Event) (err : FilterErr) : option (World * Event * option FilterErr) :=
  Some (w, e, Some err).

Definition undo_and_time_out (breakerOpen : Z -> bool) (f : Filter) (w : World) (e : Event)
    (c : FCampaign) (amount : Z) : World * Event * option FilterErr :=
  let '(w, e) := if 0 <? amount then RollbackDebit breakerOpen f w e c amount else (w, e) in
  (w, e, Some ErrFilterTimeout).

(** [None] is [handled = false]. *)
Definition handleLuaResult (breakerOpen : Z -> bool) (f : Filter) (w : World) (e : Event)
    (c : FCampaign) (amount res : Z) : option (World * Event * option FilterErr) :=
  if res =? -1 then None
  else if res =? 1 then reject w e ErrRateLimitExceeded
  else if res =? 2 then reject w e ErrDuplicateEvent
  else if res =? 3 then
    reject (mkWorld (shards w) (fcap w) (quota_blocked w || quotaLive f)) e ErrBudgetExhausted
  else if res =? 4 then reject w e ErrPacingExhausted
  else if res =? 5 then reject w e ErrFreqLimitExceeded
  else if res =? 6 then Some (w, AddFraudSignal e FraudReasonLowTTC, None)
  else if res =? 7 then Some (w, AddFraudSignal e FraudReasonMissingImpTS, None)
  else if res =? 10 then
    let e := AddFraudSignal e FraudReasonMissingImpTS in
    if ttcEnabled f then Some (undo_and_time_out breakerOpen f w e c amount) else Some (w, e, None)
  else if res =? 11 then reject w e ErrMigrationFenced
  else if res =? 12 then reject w e ErrDailyQuotaExceeded
  else if res =? 21 then Some (w, AddFraudSignal e FraudReasonL3Blocklist, None)
  else if res =? 14 then reject w e ErrPlacementBlocked
  else if res =? 20 then Some (undo_and_time_out breakerOpen f w e c amount)
  else Some (w, e, None).

(** ** The two-attempt loop of a check *)

Fixpoint lua_loop (script : Script Z) (recover : nat -> Store -> Store * (bool + FilterErr))
    (handle : World -> Z -> option (World * Event * option FilterErr)) (i : Z) (e : Event)
    (attempts : list nat) (w : World) : World * Event * option FilterErr :=
  match attempts with
  | [] => (w, e, None)
  | n :: rest =>
      match at_z (shards w) i with
      | None => (w, e, Some ErrRedis)
      | Some s =>
          let '(s1, res) := script s in
          let w1 := set_shard w i s1 in
          match res with
          | None => (w1, e, Some ErrRedis)
          | Some res =>
              if res =? -1 then
                let '(s2, r) := recover n s1 in
                let w2 := set_shard w1 i s2 in
                match r with
                | inr err => (w2, e, Some err)
                | inl true => lua_loop script recover handle i e rest w2
                | inl false => (w2, e, Some ErrBudgetExhausted)
                end
              else
                match handle w1 res with
                | Some out => out
                | None => lua_loop script recover handle i e rest w1
                end
          end
      end
  end.

Definition runBudgetFastLua (breakerOpen : Z -> bool) (f : Filter) (env : RecoverEnv) (i : Z)
    (w : World) (e : Event) (c : FCampaign) (amount : Z) : World * Event * option FilterErr :=
  lua_loop (budget_fast (fast_keys f e c) (fast_args f e c amount))
    (recoverBudgetAfterMiss f env (budgetSourceKey f e c))
    (fun w res => handleLuaResult breakerOpen f w e c amount res) i e [0; 1]%nat w.

(** The recovery fills the campaign key, also when the quota key is missing. *)
Definition runUnifiedLua (breakerOpen : Z -> bool) (f : Filter) (clk : Clock) (env : RecoverEnv)
    (i : Z) (w : World) (e : Event) (c : FCampaign) (amount : Z) : World * Event * option FilterErr :=
  lua_loop (unified_filter (full_keys f clk e c) (full_args f clk e c amount))
    (recoverBudgetAfterMiss f env (BudgetCampaignKey c))
    (fun w res => handleLuaResult breakerOpen f w e c amount res) i e [0; 1]%nat w.

Definition needsFullLuaPath (f : Filter) (e : Event) (c : FCampaign) : bool :=
  if negb (bool_decide (Type_ e = lit "impression")) && negb (bool_decide (Type_ e = lit "click")) then true
  else if negb (fastPathEnabled f) then true
  else if PacingEven c && (negb (roughPacing f) || negb (RoughPacingEnabled c)) then true
  else if ttcEnabled f && negb (localTTC f) then true
  else if quotaEnabled f && (default 0 (CampaignID e !! 0%nat) mod 100 =? 0) && negb (localQuantaRefill f)
  then true
  else false.

(** [checkPassRedisLua] with the ingress quota checked elsewhere, as the
    tracker configures it.  The asynchronous frequency bump follows the
    check and is in [SharedFilter]. *)
Definition checkPassRedisLua (breakerOpen : Z -> bool) (f : Filter) (clk : Clock) (env : RecoverEnv)
    (w : World) (e : Event) (c : FCampaign) (amount : Z) : World * Event * option FilterErr :=
  match resolveDebitShard GetShard breakerOpen (zlen (shards w)) (CampaignID e) (UserID e) (ClickID e) c with
  | None => (w, e, Some ErrShardUnavailable)
  | Some (shard, _) =>
      let i := Z.rem shard (zlen (shards w)) in
      if fastPathEnabled f && negb (needsFullLuaPath f e c) then
        match tryAcquireLocalFcap (now_sec clk) w e c with
        | (w, e, Some err) => (w, e, Some err)
        | (w, e, None) =>
            match runBudgetFastLua breakerOpen f env i w e c amount with
            | (w, e, Some err) => let '(w, e) := rollbackLocalFcapForEvent w e in (w, e, Some err)
            | (w, e, None) => (w, e, None)
            end
        end
      else runUnifiedLua breakerOpen f clk env i w e c amount
  end.

(** [TrackPublishDeps.PublishAcceptedOrRollback] on the Redis path, after an
    accepting check: the producer takes the event or the debit is undone. *)
Definition PublishAcceptedOrRollback (breakerOpen : Z -> bool) (f : Filter) (published : bool)
    (w : World) (e : Event) (c : FCampaign) : World * Event * bool :=
  if published then (w, e, true)
  else let '(w, e) := engine_RollbackDebit breakerOpen f w e c in (w, e, false).

(** [RedisBudgetManager.CheckAndSpend] *)
Fixpoint check_and_spend_loop (keys : list (list Z)) (args : list RVal) (row : option FCampaign)
    (attempts : list nat) (s : Store) : Store * (bool + FilterErr) :=
  match attempts with
  | [] => (s, inr ErrBudgetExhausted)
  | i :: rest =>
      match budgetLuaScript keys args s with
      | (s1, None) => (s1, inr ErrRedis)
      | (s1, Some res) =>
          if res =? -1 then
            if (0 <? i)%nat then (s1, inr ErrBudgetExhausted)
            else
              match row with
              | None => (s1, inr ErrRepo)
              | Some c =>
                  check_and_spend_loop keys args row rest
                    (WarmBudgetKeyNX (key keys 1) (RemainingBudgetMicro c) s1)
              end
          else (s1, inl (res =? 1))
      end
  end.

Definition CheckAndSpend (ttl : Z) (customerID campaignID click : list Z) (amount : Z)
    (row : option FCampaign) (s : Store) : Store * (bool + FilterErr) :=
  check_and_spend_loop
    [lit "budget:campaign:" ++ AppendUUID [] campaignID; click_idempotency click]
    [RInt amount; RInt ttl; RStr (AppendUUID [] campaignID); RStr (AppendUUID [] customerID)]
    row [0; 1]%nat s.

End Filter.
End UnifiedFilter.
