(* ===== verification/DebitLedger.v ===== *)
(** * The fast debit path as a ledger

    What [budget-fast.lua] and [budget-rollback.lua] promise together: a
    campaign's budget key, its two sync counters, its click markers and its
    rollback guards implement an abstract ledger with a balance, the amounts
    not yet settled, and the sets of charged and undone clicks.  The
    refinement covers every run of debits, unbudgeted accepts and rollbacks
    of one campaign on one shard; the properties of the ledger then hold of
    the keys in Redis. *)

From S2P Require Import Prelude RedisKeys DebitScripts UnifiedFilter.
Open Scope Z_scope.

Module DebitLedger.

Import RedisKeys DebitScripts UnifiedFilter.

(** ** The specification *)

Record Ledger := mkLedger {
  bal : Z; pend_c : Z; pend_u : Z;
  charged : gset (list Z); undone : gset (list Z)
}.

Inductive lop :=
  | Debit (e : Event) (amount : Z)    (* an accepting check *)
  | Shadow (e : Event) (amount : Z)   (* a check that skips the budget *)
  | Undo (e : Event) (amount : Z).    (* a rollback *)

Definition op_event (o : lop) : Event := match o with Debit e _ | Shadow e _ | Undo e _ => e end.
Definition op_amount (o : lop) : Z := match o with Debit _ a | Shadow _ a | Undo _ a => a end.

(** The reply and the next ledger. *)
Definition lstep (l : Ledger) (o : lop) : Ledger * Z :=
  let c := ClickID (op_event o) in
  match o with
  | Debit _ a =>
      if bool_decide (c ∈ charged l) then (l, 0)
      else if bal l <? a then (l, 3)
      else (mkLedger (bal l - a) (pend_c l + a) (pend_u l + a) ({[c]} ∪ charged l) (undone l), 0)
  | Shadow _ a =>
      if bool_decide (c ∈ charged l) then (l, 0)
      else (mkLedger (bal l) (pend_c l) (pend_u l) ({[c]} ∪ charged l) (undone l), 0)
  | Undo _ a =>
      if a <=? 0 then (l, 0)
      else if bool_decide (c ∈ undone l) then (l, 2)
      else (mkLedger (bal l + a) (Z.max 0 (pend_c l - a)) (Z.max 0 (pend_u l - a))
              (charged l ∖ {[c]}) ({[c]} ∪ undone l), 1)
  end.

Fixpoint lrun (l : Ledger) (ops : list lop) : Ledger * list Z :=
  match ops with
  | [] => (l, [])
  | o :: rest =>
      let '(l', r) := lstep l o in
      let '(l'', rs) := lrun l' rest in (l'', r :: rs)
  end.

(** ** The implementation *)

Definition with_skip (f : Filter) (b : bool) : Filter :=
  mkFilter (quotaEnabled f) (quotaLive f) (quotaChunkSize f) (quotaRefillThresholdPct f)
    (streamKey f) (maxStreamLen f) (dupTTL f) (idempotencyTTL f) (clickAmountMicro f)
    (impressionAmountMicro f) (ttcMinMs f) (ttcFailClosed f) (impTSTTL f) (localTTC f)
    (roughPacing f) (localQuantaRefill f) (fastPathEnabled f) (slaPenaltyActive f) b
    (postgresFallbackAllowed f).

Definition sstep (f : Filter) (camp : FCampaign) (o : lop) : Script Z :=
  match o with
  | Debit e a => budget_fast (fast_keys f e camp) (fast_args (with_skip f false) e camp a)
  | Shadow e a => budget_fast (fast_keys f e camp) (fast_args (with_skip f true) e camp a)
  | Undo e a => budget_rollback (rollback_keys f e camp) (rollback_args f camp a)
  end.

Fixpoint srun (f : Filter) (camp : FCampaign) (s : Store) (ops : list lop) : Store * option (list Z) :=
  match ops with
  | [] => (s, Some [])
  | o :: rest =>
      match sstep f camp o s with
      | (s', None) => (s', None)
      | (s', Some r) =>
          match srun f camp s' rest with
          | (s'', Some rs) => (s'', Some (r :: rs))
          | (s'', None) => (s'', None)
          end
      end
  end.

(** ** Keys of a campaign *)

Definition fence_of (id : list Z) : list Z := fence_prefix ++ AppendUUID [] id.
Definition frozen_of (id : list Z) : list Z := frozen_prefix ++ AppendUUID [] id.

(** The campaign's keys are built as the store builds them. *)
Record keys_built (uuid_String : list Z -> list Z) (customer : list Z) (camp : FCampaign) : Prop := mkBuilt {
  kb_budget : BudgetCampaignKey camp = budgetCampaignKey uuid_String (ID (base camp));
  kb_camp : CampaignSyncKey camp = campaignSyncKey uuid_String (ID (base camp));
  kb_cust : CustomerSyncKey camp = customerSyncKey uuid_String (ID (base camp)) customer
}.

Lemma tag_head id x : campaignHashTag id ++ x = 123 :: (AppendUUID [] id ++ [125]) ++ x.
Proof. unfold campaignHashTag. rewrite AppendUUID_app. by rewrite <- !app_assoc. Qed.

(** Two keys under one tag differ when what follows the tag does. *)
Ltac tag_ne :=
  let H := fresh "H" in intros H; apply app_inv_head in H; vm_compute in H; discriminate H.

(** A tagged key differs from a key that starts with another character. *)
Ltac head_ne :=
  let H := fresh "H" in intros H; rewrite ?tag_head in H; vm_compute in H; discriminate H.

Lemma sub_tag_head id sub x :
  0 < sub -> exists y,
  AppendCampaignSubHashTag [] id sub ++ x = 123 :: AppendUUID [] id ++ 58 :: y.
Proof.
  intros Hs. unfold AppendCampaignSubHashTag. rewrite AppendUUID_app, (proj2 (Z.ltb_lt 0 sub)) by done.
  rewrite <- !app_assoc. change (lit ":slot_") with (58 :: lit "slot_"). cbn [app].
  eexists. reflexivity.
Qed.

Section Keys.
Context (uuid_String : list Z -> list Z) (customer : list Z) (f : Filter) (camp : FCampaign).
Context (Hbuilt : keys_built uuid_String customer camp).

Lemma source_shape e :
  CampaignID e = ID (base camp) ->
  (exists x, budgetSourceKey f e camp = campaignHashTag (ID (base camp)) ++ lit "budget:campaign:" ++ x) \/
  (exists x, budgetSourceKey f e camp = campaignHashTag (ID (base camp)) ++ lit "budget:quota:" ++ x) \/
  (exists y, budgetSourceKey f e camp = 123 :: AppendUUID [] (ID (base camp)) ++ 58 :: y).
Proof.
  intros He. unfold budgetSourceKey. destruct (quotaEnabled f).
  - unfold appendBudgetQuotaKey. rewrite He. destruct (Z.leb_spec (debitSubSlot (base camp) (UserID e) (ClickID e)) 0).
    + right. left. eauto.
    + right. right. by apply sub_tag_head.
  - left. rewrite (kb_budget _ _ _ Hbuilt). eauto.
Qed.

(** The budget key is none of the campaign's other tagged keys. *)
Lemma source_ne e x :
  CampaignID e = ID (base camp) ->
  (forall y, lit "budget:campaign:" ++ y <> x) -> (forall y, lit "budget:quota:" ++ y <> x) ->
  budgetSourceKey f e camp <> campaignHashTag (ID (base camp)) ++ x.
Proof.
  intros He Hc Hq. destruct (source_shape e He) as [[y ->]|[[y ->]|[y ->]]]; intros H.
  - apply app_inv_head in H. by apply (Hc y).
  - apply app_inv_head in H. by apply (Hq y).
  - rewrite tag_head in H. injection H as H. rewrite <- app_assoc in H. apply app_inv_head in H.
    discriminate H.
Qed.

End Keys.

(** ** Refinement *)

Section Refine.
Context (uuid_String : list Z -> list Z) (customer : list Z) (f : Filter) (camp : FCampaign) (e0 : Event).
Context (Hbuilt : keys_built uuid_String customer camp) (He0 : CampaignID e0 = ID (base camp)).

#[local] Abbreviation sk := (budgetSourceKey f e0 camp).
#[local] Abbreviation ck := (CampaignSyncKey camp).
#[local] Abbreviation uk := (CustomerSyncKey camp).
#[local] Abbreviation guard c := (appendClickRollbackGuardKey (ID (base camp)) c).
#[local] Abbreviation fence := (fence_of (ID (base camp))).
#[local] Abbreviation frozen := (frozen_of (ID (base camp))).

(** The events of the campaign on one debit sub-slot. *)
Definition ours (o : lop) : Prop :=
  CampaignID (op_event o) = ID (base camp) /\
  budgetSourceKey f (op_event o) camp = budgetSourceKey f e0 camp.

Record implements (l : Ledger) (s : Store) : Prop := mkImplements {
  im_bal : kv s !! budgetSourceKey f e0 camp = Some (RInt (bal l));
  im_camp : counter (kv s) (CampaignSyncKey camp) = Some (pend_c l);
  im_cust : counter (kv s) (CustomerSyncKey camp) = Some (pend_u l);
  im_charged : forall c, present (kv s !! click_idempotency c) = bool_decide (c ∈ charged l);
  im_undone : forall c, present (kv s !! appendClickRollbackGuardKey (ID (base camp)) c) =
                        bool_decide (c ∈ undone l);
  im_open : barred (kv s) (fence_of (ID (base camp))) (frozen_of (ID (base camp)))
              (LuaRoutingEpoch camp) = false
}.

Lemma ck_shape : ck = campaignHashTag (ID (base camp)) ++ lit "budget:sync:campaign:" ++ uuid_String (ID (base camp)).
Proof. apply (kb_camp _ _ _ Hbuilt). Qed.

Lemma uk_shape : uk = campaignHashTag (ID (base camp)) ++ lit "budget:sync:customer:" ++ uuid_String customer.
Proof. apply (kb_cust _ _ _ Hbuilt). Qed.

Lemma sk_head : hd 0 sk = 123.
Proof.
  destruct (source_shape _ _ f _ Hbuilt e0 He0) as [[y E]|[[y E]|[y E]]]; rewrite E;
    rewrite ?tag_head; done.
Qed.

Lemma ck_head : hd 0 ck = 123.
Proof. by rewrite ck_shape, tag_head. Qed.

Lemma uk_head : hd 0 uk = 123.
Proof. by rewrite uk_shape, tag_head. Qed.

Lemma guard_head c : hd 0 (guard c) = 123.
Proof. unfold appendClickRollbackGuardKey. by rewrite tag_head. Qed.

Lemma by_head {A} `{Inhabited A} (d : A) (x y : list A) : hd d x <> hd d y -> x <> y.
Proof. by intros Hd ->. Qed.

Lemma sk_ck : sk <> ck.
Proof. rewrite ck_shape. apply (source_ne _ _ f _ Hbuilt e0); [done|..]; intros y H; vm_compute in H; discriminate. Qed.
Lemma sk_uk : sk <> uk.
Proof. rewrite uk_shape. apply (source_ne _ _ f _ Hbuilt e0); [done|..]; intros y H; vm_compute in H; discriminate. Qed.
Lemma sk_guard c : sk <> guard c.
Proof. apply (source_ne _ _ f _ Hbuilt e0); [done|..]; intros y H; vm_compute in H; discriminate. Qed.
Lemma ck_uk : ck <> uk.
Proof. rewrite ck_shape, uk_shape. tag_ne. Qed.
Lemma ck_guard c : ck <> guard c.
Proof. rewrite ck_shape. tag_ne. Qed.
Lemma uk_guard c : uk <> guard c.
Proof. rewrite uk_shape. tag_ne. Qed.
Lemma guard_inj c c' : guard c = guard c' -> c = c'.
Proof. intros H. apply app_inv_head in H. by apply app_inv_head in H. Qed.
Lemma idem_inj c c' : click_idempotency c = click_idempotency c' -> c = c'.
Proof. intros H. by apply app_inv_head in H. Qed.

Lemma idem_head c : hd 0 (click_idempotency c) = 105.
Proof. reflexivity. Qed.
Lemma fence_head : hd 0 fence = 98.
Proof. reflexivity. Qed.
Lemma frozen_head : hd 0 frozen = 98.
Proof. reflexivity. Qed.

(** Closes [a <> b] for two keys of the campaign. *)
Ltac ne_keys :=
  first
  [ assumption
  | first [apply sk_ck | apply sk_uk | apply sk_guard | apply ck_uk | apply ck_guard | apply uk_guard]
  | apply not_eq_sym;
    first [apply sk_ck | apply sk_uk | apply sk_guard | apply ck_uk | apply ck_guard | apply uk_guard]
  | apply (by_head 0); rewrite ?sk_head, ?ck_head, ?uk_head, ?guard_head, ?idem_head, ?fence_head, ?frozen_head;
    discriminate ].


Lemma barred_ext (m m' : gmap (list Z) RVal) k1 k2 r :
  m' !! k1 = m !! k1 -> m' !! k2 = m !! k2 -> barred m' k1 k2 r = barred m k1 k2 r.
Proof. intros H1 H2. unfold barred. by rewrite H1, H2. Qed.

Lemma mark_present (g : list Z -> list Z) (m : gmap (list Z) RVal) (S : gset (list Z)) c c' v :
  (forall x y, g x = g y -> x = y) ->
  (forall x, present (m !! g x) = bool_decide (x ∈ S)) ->
  present (<[g c := v]> m !! g c') = bool_decide (c' ∈ ({[c]} : gset (list Z)) ∪ S).
Proof.
  intros Hinj Hm. destruct (decide (c = c')) as [->|Hne].
  - rewrite lookup_insert_eq. symmetry. apply bool_decide_true. set_solver.
  - rewrite lookup_insert_ne by (intros E; by apply Hne, Hinj). rewrite Hm.
    apply bool_decide_ext. set_solver.
Qed.

Lemma unmark_present (g : list Z -> list Z) (m : gmap (list Z) RVal) (S : gset (list Z)) c c' :
  (forall x y, g x = g y -> x = y) ->
  (forall x, present (m !! g x) = bool_decide (x ∈ S)) ->
  present (delete (g c) m !! g c') = bool_decide (c' ∈ S ∖ ({[c]} : gset (list Z))).
Proof.
  intros Hinj Hm. destruct (decide (c = c')) as [->|Hne].
  - rewrite lookup_delete_eq. symmetry. apply bool_decide_false. set_solver.
  - rewrite lookup_delete_ne by (intros E; by apply Hne, Hinj). rewrite Hm.
    apply bool_decide_ext. set_solver.
Qed.

Definition sized (l : Ledger) (b : Z) : Prop :=
  0 <= bal l <= b /\ 0 <= pend_c l <= b /\ 0 <= pend_u l <= b.

Lemma fast_key1 e : key (fast_keys f e camp) 1 = budgetSourceKey f e camp.
Proof. reflexivity. Qed.
Lemma fast_key2 e : key (fast_keys f e camp) 2 = click_idempotency (ClickID e).
Proof. reflexivity. Qed.
Lemma fast_key3 e : key (fast_keys f e camp) 3 = ck.
Proof. reflexivity. Qed.
Lemma fast_key4 e : key (fast_keys f e camp) 4 = uk.
Proof. reflexivity. Qed.

(** The values a debiting or shadowed check finds. *)
Lemma check_gates l s o :
  implements l s -> ours o ->
  let keys := fast_keys f (op_event o) camp in
  kv s !! key keys 1 = Some (RInt (bal l)) /\
  present (kv s !! key keys 2) = bool_decide (ClickID (op_event o) ∈ charged l) /\
  barred (kv s) (key keys 8) (key keys 9) (LuaRoutingEpoch camp) = false.
Proof.
  intros [Hb _ _ Hch _ Hop] [Hid Hsrc]. cbn. rewrite Hsrc, Hid. split; [done|]. split; [apply Hch|apply Hop].
Qed.

Lemma num_some n d : num (Some (RInt n)) d = n.
Proof. done. Qed.

Lemma debit_refines l s e a b :
  0 < idempotencyTTL f -> implements l s -> ours (Debit e a) -> sized l b -> 0 <= a -> b + a <= max_i64 ->
  exists s', sstep f camp (Debit e a) s = (s', Some (snd (lstep l (Debit e a)))) /\
    implements (fst (lstep l (Debit e a))) s' /\ sized (fst (lstep l (Debit e a))) (b + a).
Proof.
  intros Httl Him Hours (Sb & Sc & Su) Ha Hmax.
  destruct (check_gates l s _ Him Hours) as (Hb & Hi & Hopen). destruct Hours as [Hid Hsrc].
  cbn [op_event] in *. unfold sstep. cbn [lstep op_event].
  destruct (bool_decide (ClickID e ∈ charged l)) eqn:Ech; cbn [fst snd].
  { exists s. split; [|split; [done|unfold sized; lia]]. apply budget_fast_refuses. rewrite Hb, Hi. done. }
  destruct (Z.ltb_spec (bal l) a) as [Hpoor|Hrich]; cbn [fst snd].
  { exists s. split; [|split; [done|unfold sized; lia]]. apply budget_fast_refuses.
    rewrite Hb, Hi, num_some.
    change (num (arg (fast_args (with_skip f false) e camp a) 13) 0) with (LuaRoutingEpoch camp).
    rewrite Hopen. change (num (arg (fast_args (with_skip f false) e camp a) 1) 0) with a.
    rewrite (proj2 (Z.ltb_lt _ _) Hpoor). done. }
  assert (Hfresh : kv s !! key (fast_keys f e camp) 2 = None)
    by (destruct (kv s !! key (fast_keys f e camp) 2); [done|done]).
  destruct Him as [Im1 Im2 Im3 Im4 Im5 Im6].
  destruct (budget_fast_debit (fast_keys f e camp) (fast_args (with_skip f false) e camp a) s
    (idempotencyTTL f) ltac:(by rewrite Hb) Hfresh Hopen eq_refl Httl (bal l) (pend_c l) (pend_u l) a)
    as (s' & E & Hkv); try done; try (rewrite ?fast_key1, ?fast_key3, ?fast_key4, ?Hsrc; ne_keys); try go_lia.
  exists s'. split; [done|]. rewrite fast_key1, fast_key2, fast_key3, fast_key4, Hsrc in Hkv.
  split; [|unfold sized; cbn; lia]. constructor; cbn [bal pend_c pend_u charged undone]; rewrite Hkv.
  - rewrite !lookup_insert_ne by ne_keys. by rewrite lookup_insert_eq.
  - rewrite !counter_insert_ne by ne_keys. by rewrite counter_insert.
  - rewrite counter_insert_ne by ne_keys. by rewrite counter_insert.
  - intros c. apply mark_present; [apply idem_inj|]. intros x.
    rewrite !lookup_insert_ne by ne_keys. apply Im4.
  - intros c. rewrite !lookup_insert_ne by ne_keys. apply Im5.
  - erewrite barred_ext; [exact Im6|..]; rewrite !lookup_insert_ne by ne_keys; done.
Qed.

Lemma shadow_refines l s e a b :
  0 < idempotencyTTL f -> implements l s -> ours (Shadow e a) -> sized l b -> 0 <= a ->
  exists s', sstep f camp (Shadow e a) s = (s', Some (snd (lstep l (Shadow e a)))) /\
    implements (fst (lstep l (Shadow e a))) s' /\ sized (fst (lstep l (Shadow e a))) (b + a).
Proof.
  intros Httl Him Hours (Sb & Sc & Su) Ha.
  destruct (check_gates l s _ Him Hours) as (Hb & Hi & Hopen). destruct Hours as [Hid Hsrc].
  cbn [op_event] in *. unfold sstep. cbn [lstep op_event].
  destruct (bool_decide (ClickID e ∈ charged l)) eqn:Ech; cbn [fst snd].
  { exists s. split; [|split; [done|unfold sized; lia]]. apply budget_fast_refuses. rewrite Hb, Hi. done. }
  assert (Hfresh : kv s !! key (fast_keys f e camp) 2 = None)
    by (destruct (kv s !! key (fast_keys f e camp) 2); [done|done]).
  destruct Him as [Im1 Im2 Im3 Im4 Im5 Im6].
  destruct (budget_fast_shadow (fast_keys f e camp) (fast_args (with_skip f true) e camp a) s
    (idempotencyTTL f) ltac:(by rewrite Hb) Hfresh Hopen eq_refl Httl eq_refl) as (s' & E & Hkv).
  exists s'. split; [done|]. rewrite fast_key2 in Hkv.
  split; [|unfold sized; cbn; lia]. constructor; cbn [bal pend_c pend_u charged undone]; rewrite Hkv.
  - by rewrite lookup_insert_ne by ne_keys.
  - by rewrite counter_insert_ne by ne_keys.
  - by rewrite counter_insert_ne by ne_keys.
  - intros c. by apply mark_present; [apply idem_inj|].
  - intros c. rewrite lookup_insert_ne by ne_keys. apply Im5.
  - erewrite barred_ext; [exact Im6|..]; rewrite lookup_insert_ne by ne_keys; done.
Qed.

Lemma undo_refines l s e a b :
  0 < idempotencyTTL f -> implements l s -> ours (Undo e a) -> sized l b -> 0 <= a -> b + a <= max_i64 ->
  exists s', sstep f camp (Undo e a) s = (s', Some (snd (lstep l (Undo e a)))) /\
    implements (fst (lstep l (Undo e a))) s' /\ sized (fst (lstep l (Undo e a))) (b + a).
Proof.
  intros Httl Him [Hid Hsrc] (Sb & Sc & Su) Ha Hmax. cbn [op_event] in *. unfold sstep.
  cbn [lstep op_event]. set (keys := rollback_keys f e camp). set (argv := rollback_args f camp a).
  assert (K1 : key keys 1 = sk) by (by rewrite <- Hsrc).
  assert (K7 : key keys 7 = guard (ClickID e)) by (by rewrite <- Hid).
  destruct (Z.leb_spec a 0) as [H0|Hpos]; cbn [fst snd].
  { exists s. split; [|split; [done|unfold sized; lia]]. by apply budget_rollback_invalid. }
  destruct Him as [Im1 Im2 Im3 Im4 Im5 Im6]. pose proof (Im5 (ClickID e)) as Hg.
  destruct (bool_decide (ClickID e ∈ undone l)) eqn:Eu; cbn [fst snd].
  { exists s. split; [|split; [done|unfold sized; lia]].
    apply budget_rollback_again; [done|done|]. by rewrite K7. }
  destruct (budget_rollback_ok keys argv s a (bal l) (pend_c l) (pend_u l)) as (s' & E & Hkv); try done; try go_lia.
  { rewrite K7. by destruct (kv s !! guard (ClickID e)). }
  { rewrite K1, K7. ne_keys. }
  { rewrite K7. change (key keys 3) with ck. ne_keys. }
  { rewrite K7. change (key keys 4) with uk. ne_keys. }
  { rewrite K1. change (key keys 3) with ck. ne_keys. }
  { rewrite K1. change (key keys 4) with uk. ne_keys. }
  { change (key keys 3) with ck. change (key keys 4) with uk. ne_keys. }
  { rewrite K1. unfold counter. by rewrite Im1. }
  exists s'. split; [done|]. change (key keys 2) with (click_idempotency (ClickID e)) in Hkv.
  change (key keys 3) with ck in Hkv. change (key keys 4) with uk in Hkv. rewrite K1, K7 in Hkv.
  split; [|unfold sized; cbn; lia].
  constructor; cbn [bal pend_c pend_u charged undone]; rewrite Hkv.
  - rewrite lookup_delete_ne, !settle_ne by ne_keys. by rewrite lookup_insert_eq.
  - rewrite counter_delete_ne, settle_counter_ne by ne_keys. apply settle_counter.
  - rewrite counter_delete_ne by ne_keys. apply settle_counter.
  - intros c. apply unmark_present; [apply idem_inj|]. intros x.
    rewrite !settle_ne, !lookup_insert_ne by ne_keys. apply Im4.
  - intros c. rewrite lookup_delete_ne, !settle_ne, lookup_insert_ne by ne_keys.
    by apply (mark_present (fun c => guard c)); [apply guard_inj|].
  - erewrite barred_ext; [exact Im6|..];
      rewrite lookup_delete_ne, !settle_ne, !lookup_insert_ne by ne_keys; done.
Qed.

Lemma lstep_refines l s o b :
  0 < idempotencyTTL f -> implements l s -> ours o -> sized l b -> 0 <= op_amount o ->
  b + op_amount o <= max_i64 ->
  exists s', sstep f camp o s = (s', Some (snd (lstep l o))) /\
    implements (fst (lstep l o)) s' /\ sized (fst (lstep l o)) (b + op_amount o).
Proof.
  intros. destruct o; cbn [op_amount] in *; eauto using debit_refines, shadow_refines, undo_refines.
Qed.

Lemma lrun_refines l s ops b :
  0 < idempotencyTTL f -> implements l s -> Forall ours ops -> sized l b ->
  Forall (fun o => 0 <= op_amount o) ops -> b + sumZ (map op_amount ops) <= max_i64 ->
  exists s', srun f camp s ops = (s', Some (snd (lrun l ops))) /\ implements (fst (lrun l ops)) s' /\
    sized (fst (lrun l ops)) (b + sumZ (map op_amount ops)).
Proof.
  intros Httl Him Hours Hsz Hpos. revert l s b Him Hsz.
  induction ops as [|o ops IH]; intros l s b Him Hsz Hmax.
  - exists s. cbn. by rewrite Z.add_0_r.
  - apply Forall_cons in Hours as [Ho Hours]. apply Forall_cons in Hpos as [Hp Hpos].
    assert (Hnn : 0 <= sumZ (map op_amount ops)).
    { clear -Hpos. induction Hpos; cbn; lia. }
    cbn [map sumZ] in Hmax.
    destruct (lstep_refines l s o b) as (s1 & E1 & Him1 & Hsz1); auto; [lia|].
    destruct (IH Hours Hpos _ s1 (b + op_amount o) Him1 Hsz1) as (s2 & E2 & Him2 & Hsz2); [lia|].
    exists s2. cbn [srun lrun map sumZ]. rewrite E1, E2.
    destruct (lstep l o) as [l1 r]. cbn [fst snd] in *. destruct (lrun l1 ops) as [l2 rs]. cbn [fst snd] in *.
    by rewrite Z.add_assoc.
Qed.

(** A shard that holds only the campaign's budget. *)
Definition funded (b : Z) : Store := mkStore {[budgetSourceKey f e0 camp := RInt b]} ∅ [].

Lemma funded_implements b : implements (mkLedger b 0 0 ∅ ∅) (funded b).
Proof.
  constructor; unfold funded; cbn [kv bal pend_c pend_u charged undone].
  - apply lookup_singleton_eq.
  - unfold counter. by rewrite lookup_singleton_ne by ne_keys.
  - unfold counter. by rewrite lookup_singleton_ne by ne_keys.
  - intros c. by rewrite lookup_singleton_ne by ne_keys.
  - intros c. by rewrite lookup_singleton_ne by ne_keys.
  - unfold barred. by rewrite !lookup_singleton_ne by ne_keys.
Qed.
End Refine.

(** ** The ledger's accounts *)

(** Does the step take money for the click, does it give money back? *)
Definition takes (l : Ledger) (o : lop) : bool :=
  match o with
  | Debit e a => negb (bool_decide (ClickID e ∈ charged l)) && negb (bal l <? a)
  | _ => false
  end.
Definition gives (l : Ledger) (o : lop) : bool :=
  match o with
  | Undo e a => negb (a <=? 0) && negb (bool_decide (ClickID e ∈ undone l))
  | _ => false
  end.

(** Summed over a run: a weight of the steps that satisfy a test. *)
Fixpoint tally (test : Ledger -> lop -> bool) (weight : Ledger -> lop -> Z) (l : Ledger) (ops : list lop) : Z :=
  match ops with
  | [] => 0
  | o :: rest => (if test l o then weight l o else 0) + tally test weight (fst (lstep l o)) rest
  end.

Definition amount_of (l : Ledger) (o : lop) : Z := op_amount o.
Definition is_click (c : list Z) (l : Ledger) (o : lop) : Z :=
  if bool_decide (ClickID (op_event o) = c) then 1 else 0.
(** What a refund gives back of money the counter no longer holds. *)
Definition overdraw (l : Ledger) (o : lop) : Z := Z.max 0 (op_amount o - pend_c l).

Definition charges (c : list Z) := tally takes (is_click c).
Definition refunds (c : list Z) := tally gives (is_click c).

Lemma lrun_cons l o ops : fst (lrun l (o :: ops)) = fst (lrun (fst (lstep l o)) ops).
Proof. cbn. destruct (lstep l o) as [l' r]. cbn. by destruct (lrun l' ops). Qed.

Lemma lstep_effect l o :
  bal (fst (lstep l o)) =
    bal l - (if takes l o then op_amount o else 0) + (if gives l o then op_amount o else 0) /\
  pend_c (fst (lstep l o)) =
    pend_c l + (if takes l o then op_amount o else 0) - (if gives l o then op_amount o - overdraw l o else 0).
Proof.
  unfold takes, gives, overdraw. destruct o as [e a|e a|e a]; cbn [lstep op_event op_amount].
  - destruct (bool_decide _); cbn; [lia|]. destruct (bal l <? a); cbn; lia.
  - destruct (bool_decide _); cbn; lia.
  - destruct (a <=? 0); cbn; [lia|]. destruct (bool_decide _); cbn; lia.
Qed.

Lemma ledger_accounts l ops :
  bal (fst (lrun l ops)) = bal l - tally takes amount_of l ops + tally gives amount_of l ops /\
  bal (fst (lrun l ops)) + pend_c (fst (lrun l ops)) = bal l + pend_c l + tally gives overdraw l ops.
Proof.
  revert l. induction ops as [|o ops IH]; intros l; [cbn; lia|].
  rewrite lrun_cons. destruct (IH (fst (lstep l o))) as [IH1 IH2].
  destruct (lstep_effect l o) as [E1 E2]. cbn [tally]. unfold amount_of at 1 3.
  destruct (takes l o), (gives l o); lia.
Qed.

Lemma charges_bound c l ops :
  charges c l ops <= (if bool_decide (c ∈ charged l) then 0 else 1) + refunds c l ops.
Proof.
  unfold charges, refunds. revert l. induction ops as [|o ops IH]; intros l; cbn [tally].
  { destruct (bool_decide _); lia. }
  specialize (IH (fst (lstep l o))). unfold is_click at 1 3.
  destruct (decide (ClickID (op_event o) = c)) as [Hc|Hc].
  - rewrite (bool_decide_true _ Hc). revert IH. unfold takes, gives.
    destruct o as [e a|e a|e a]; cbn [lstep op_event fst] in *; subst c.
    + destruct (bool_decide (ClickID e ∈ charged l)) eqn:Ec; cbn [negb andb fst]; [rewrite Ec; lia|].
      destruct (bal l <? a); cbn [negb fst charged]; [rewrite Ec; lia|].
      rewrite bool_decide_true by set_solver. lia.
    + destruct (bool_decide (ClickID e ∈ charged l)) eqn:Ec; cbn [fst charged]; [rewrite Ec; lia|].
      rewrite bool_decide_true by set_solver. lia.
    + destruct (a <=? 0); cbn [negb andb fst]; [lia|].
      destruct (bool_decide (ClickID e ∈ undone l)); cbn [negb fst charged]; [lia|].
      destruct (bool_decide (ClickID e ∈ charged l)); case_if; lia.
  - rewrite (bool_decide_false _ Hc).
    assert (Hsame : bool_decide (c ∈ charged (fst (lstep l o))) = bool_decide (c ∈ charged l)).
    { apply bool_decide_ext. destruct o as [e a|e a|e a]; cbn [lstep op_event] in *;
        repeat case_if; cbn; set_solver. }
    rewrite Hsame in IH. destruct (takes l o), (gives l o); lia.
Qed.

Lemma refunds_bound c l ops :
  refunds c l ops <= if bool_decide (c ∈ undone l) then 0 else 1.
Proof.
  unfold refunds. revert l. induction ops as [|o ops IH]; intros l; cbn [tally].
  { destruct (bool_decide _); lia. }
  specialize (IH (fst (lstep l o))). unfold is_click at 1.
  destruct (decide (ClickID (op_event o) = c)) as [Hc|Hc].
  - rewrite (bool_decide_true _ Hc). revert IH. unfold gives.
    destruct o as [e a|e a|e a]; cbn [lstep op_event fst] in *; subst c.
    + destruct (bool_decide (ClickID e ∈ charged l)); [|destruct (bal l <? a)]; cbn; lia.
    + destruct (bool_decide (ClickID e ∈ charged l)); cbn; lia.
    + destruct (a <=? 0); cbn [negb andb fst]; [lia|].
      destruct (bool_decide (ClickID e ∈ undone l)) eqn:Eu; cbn [negb fst undone]; [rewrite Eu; lia|].
      rewrite bool_decide_true by set_solver. lia.
  - rewrite (bool_decide_false _ Hc).
    assert (Hsame : bool_decide (c ∈ undone (fst (lstep l o))) = bool_decide (c ∈ undone l)).
    { apply bool_decide_ext. destruct o as [e a|e a|e a]; cbn [lstep op_event] in *;
        repeat case_if; cbn; set_solver. }
    rewrite Hsame in IH. destruct (gives l o); lia.
Qed.

(** ** What the keys in Redis promise *)

(** C17: The fast script and the rollback script implement the ledger: over every
    run of checks, unbudgeted checks and rollbacks of a campaign they give
    the ledger's replies, never an error reply, and the keys stay the
    ledger's. *)
Theorem debit_scripts_refine_ledger uuid_String customer f camp e0 l s ops b :
  keys_built uuid_String customer camp -> CampaignID e0 = ID (base camp) ->
  0 < idempotencyTTL f -> implements f camp e0 l s -> Forall (ours f camp e0) ops -> sized l b ->
  Forall (fun o => 0 <= op_amount o) ops -> b + sumZ (map op_amount ops) <= max_i64 ->
  exists s', srun f camp s ops = (s', Some (snd (lrun l ops))) /\
    implements f camp e0 (fst (lrun l ops)) s'.
Proof.
  intros Hb He Ht Him Ho Hs Hp Hm.
  destruct (lrun_refines uuid_String customer f camp e0 Hb He l s ops b) as (s' & E & Him' & _); eauto.
Qed.

(** C9: A click costs the budget once.  After any run on a funded campaign the
    budget key holds what was there less the charges plus the refunds, is not
    negative, and each click was charged at most once, or twice if it was
    refunded, and refunded at most once; budget and unsettled counter together
    only grow by refunds of money the counter no longer held. *)
Theorem click_charged_once uuid_String customer f camp e0 b ops :
  keys_built uuid_String customer camp -> CampaignID e0 = ID (base camp) ->
  0 < idempotencyTTL f -> Forall (ours f camp e0) ops -> 0 <= b ->
  Forall (fun o => 0 <= op_amount o) ops -> b + sumZ (map op_amount ops) <= max_i64 ->
  let l := mkLedger b 0 0 ∅ ∅ in
  exists s' bal' pend',
    fst (srun f camp (funded f camp e0 b) ops) = s' /\
    kv s' !! budgetSourceKey f e0 camp = Some (RInt bal') /\ 0 <= bal' /\
    counter (kv s') (CampaignSyncKey camp) = Some pend' /\
    bal' = b - tally takes amount_of l ops + tally gives amount_of l ops /\
    bal' + pend' = b + tally gives overdraw l ops /\
    forall c, charges c l ops <= 1 + refunds c l ops /\ refunds c l ops <= 1.
Proof.
  intros Hb He Ht Ho Hb0 Hp Hm l.
  destruct (lrun_refines uuid_String customer f camp e0 Hb He l (funded f camp e0 b) ops b)
    as (s' & E & Him' & Hsz); auto.
  { by apply (funded_implements uuid_String customer). }
  { unfold sized. cbn. lia. }
  destruct (ledger_accounts l ops) as [A1 A2].
  exists s', (bal (fst (lrun l ops))), (pend_c (fst (lrun l ops))).
  rewrite E. split; [done|]. split; [apply Him'|]. split; [apply Hsz|]. split; [apply Him'|].
  split; [done|].
  change (bal l) with b in A2. change (pend_c l) with 0 in A2. split; [lia|]. intros c. split.
  - pose proof (charges_bound c l ops) as Hc. rewrite bool_decide_false in Hc by (cbn; set_solver). lia.
  - apply (refunds_bound c l ops).
Qed.

(** A rollback is refused the second time: when a refunded click is retried,
    accepted and fails to publish again, the retry stays charged. *)
Theorem second_rollback_refused uuid_String customer f camp e b a :
  keys_built uuid_String customer camp -> CampaignID e = ID (base camp) ->
  0 < idempotencyTTL f -> 0 < a <= b -> b + 4 * a <= max_i64 ->
  exists s', srun f camp (funded f camp e b) [Debit e a; Undo e a; Debit e a; Undo e a] =
               (s', Some [0; 1; 0; 2]) /\
    kv s' !! budgetSourceKey f e camp = Some (RInt (b - a)).
Proof.
  intros Hb He Ht Ha Hm. set (ops := [Debit e a; Undo e a; Debit e a; Undo e a]).
  destruct (lrun_refines uuid_String customer f camp e Hb He (mkLedger b 0 0 ∅ ∅)
    (funded f camp e b) ops b) as (s' & E & Him' & _); auto.
  { by apply (funded_implements uuid_String customer). }
  { repeat constructor; done. }
  { unfold sized. cbn. lia. }
  { repeat constructor; cbn; lia. }
  { cbn. lia. }
  assert (Hrun : exists ch un, lrun (mkLedger b 0 0 ∅ ∅) ops =
    (mkLedger (b - a + a - a) (Z.max 0 (0 + a - a) + a) (Z.max 0 (0 + a - a) + a) ch un, [0; 1; 0; 2])).
  { eexists _, _. unfold ops. cbn [lrun lstep op_event bal pend_c pend_u charged undone].
    rewrite bool_decide_false by set_solver. rewrite (proj2 (Z.ltb_ge b a)) by lia.
    cbn [lstep op_event bal pend_c pend_u charged undone].
    rewrite (proj2 (Z.leb_gt a 0)) by lia. rewrite bool_decide_false by set_solver.
    cbn [lstep op_event bal pend_c pend_u charged undone].
    rewrite bool_decide_false by set_solver. rewrite (proj2 (Z.ltb_ge (b - a + a) a)) by lia.
    cbn [lstep op_event bal pend_c pend_u charged undone].
    rewrite bool_decide_true by set_solver. reflexivity. }
  destruct Hrun as (ch & un & Hrun). rewrite Hrun in E, Him'. exists s'. split; [done|].
  destruct Him' as [Im _ _ _ _ _]. cbn in Im. rewrite Im. do 2 f_equal. lia.
Qed.

(** ** Witnesses *)

Definition demo_id : list Z := replicate 15 17 ++ [1].
Definition demo_camp : FCampaign :=
  let b := mkCampaign demo_id (replicate 16 34) 0 [] 0 0 in
  mkFCampaign b (budgetCampaignKey (AppendUUID []) demo_id) (campaignSyncKey (AppendUUID []) demo_id)
    (customerSyncKey (AppendUUID []) demo_id (replicate 16 34))
    (dailySpendKeyPrefix (AppendUUID []) demo_id) (fcapKeyPrefix (AppendUUID []) demo_id [])
    (AppendUUID [] demo_id) (AppendUUID [] (replicate 16 34)) false 0 0 0 false 0 0 0 true 1000 0.
Definition demo_filter : Filter :=
  mkFilter false false 0 20 (lit "events") 100000 60 86400 10 4 0 false 600 false true false true
    false false true.
Definition demo_event (click : list Z) : Event :=
  mkEvent demo_id (lit "u1") click (lit "click") (lit "{}") (lit "10.0.0.1") (lit "ua") 0 0 [].
Definition demo_ops : list lop :=
  [Debit (demo_event (lit "a")) 10; Debit (demo_event (lit "b")) 10; Debit (demo_event (lit "a")) 10;
   Undo (demo_event (lit "b")) 10; Shadow (demo_event (lit "c")) 10; Undo (demo_event (lit "b")) 10;
   Debit (demo_event (lit "b")) 95; Debit (demo_event (lit "b")) 10].

Lemma demo_built : keys_built (AppendUUID []) (replicate 16 34) demo_camp.
Proof. by constructor. Qed.

Lemma demo_ours ops :
  Forall (fun o => CampaignID (op_event o) = demo_id) ops ->
  Forall (ours demo_filter demo_camp (demo_event [])) ops.
Proof. intros H. eapply Forall_impl; [exact H|]. intros o Ho. by split. Qed.

Lemma debit_scripts_refine_ledger_witness :
  snd (lrun (mkLedger 100 0 0 ∅ ∅) demo_ops) = [0; 0; 0; 1; 0; 2; 3; 0] /\
  exists s', srun demo_filter demo_camp (funded demo_filter demo_camp (demo_event []) 100) demo_ops =
      (s', Some (snd (lrun (mkLedger 100 0 0 ∅ ∅) demo_ops))) /\
    implements demo_filter demo_camp (demo_event []) (fst (lrun (mkLedger 100 0 0 ∅ ∅) demo_ops)) s'.
Proof.
  split; [vm_compute; reflexivity|].
  apply (debit_scripts_refine_ledger (AppendUUID []) (replicate 16 34) _ _ _ _ _ _ 100);
    [apply demo_built|done|done|apply (funded_implements (AppendUUID []) (replicate 16 34)); [apply demo_built|done]| | | |].
  - apply demo_ours. unfold demo_ops. by repeat constructor.
  - unfold sized. cbn. lia.
  - unfold demo_ops. by repeat constructor.
  - vm_compute. discriminate.
Defined.

Lemma click_charged_once_witness :
  let l := mkLedger 100 0 0 ∅ ∅ in
  exists s' bal' pend',
    fst (srun demo_filter demo_camp (funded demo_filter demo_camp (demo_event []) 100) demo_ops) = s' /\
    kv s' !! budgetSourceKey demo_filter (demo_event []) demo_camp = Some (RInt bal') /\ 0 <= bal' /\
    counter (kv s') (CampaignSyncKey demo_camp) = Some pend' /\
    bal' = 100 - tally takes amount_of l demo_ops + tally gives amount_of l demo_ops /\
    bal' + pend' = 100 + tally gives overdraw l demo_ops /\
    forall c, charges c l demo_ops <= 1 + refunds c l demo_ops /\ refunds c l demo_ops <= 1.
Proof.
  apply (click_charged_once (AppendUUID []) (replicate 16 34)); [apply demo_built|done|done| |lia| |].
  - apply demo_ours. unfold demo_ops. by repeat constructor.
  - unfold demo_ops. by repeat constructor.
  - vm_compute. discriminate.
Defined.

Lemma second_rollback_refused_witness :
  exists s', srun demo_filter demo_camp (funded demo_filter demo_camp (demo_event (lit "a")) 100)
      [Debit (demo_event (lit "a")) 10; Undo (demo_event (lit "a")) 10;
       Debit (demo_event (lit "a")) 10; Undo (demo_event (lit "a")) 10] = (s', Some [0; 1; 0; 2]) /\
    kv s' !! budgetSourceKey demo_filter (demo_event (lit "a")) demo_camp = Some (RInt (100 - 10)).
Proof.
  apply (second_rollback_refused (AppendUUID []) (replicate 16 34));
    [apply demo_built|done|done|lia|unfold max_i64; lia].
Defined.
End DebitLedger.
