(* ===== verification/FilterPaths.v ===== *)
(** * Checks, publication and rollback end to end

    The operations of [UnifiedFilter] put together: what a check followed by
    a failed publication leaves in the budget, and the places where the two
    debit paths, the recovery of a missing budget key and the rollback do not
    fit each other. *)

From S2P Require Import Prelude RedisKeys LocalFcap DebitScripts UnifiedFilter DebitLedger.
Open Scope Z_scope.

Module FilterPaths.

Import RedisKeys LocalFcap DebitScripts UnifiedFilter DebitLedger.

Lemma with_skip_self f : with_skip f (skipBudgetDebit f) = f.
Proof. by destruct f. Qed.

Lemma set_shard_at w i s s0 : at_z (shards w) i = Some s0 -> at_z (shards (set_shard w i s)) i = Some s.
Proof. intros H. apply at_z_range in H. by apply at_z_set_eq. Qed.

Lemma set_shard_len w i s : zlen (shards (set_shard w i s)) = zlen (shards w).
Proof. apply zlen_set. Qed.

(** An attempt whose script replies with an accepted code is the check. *)
Lemma lua_loop_accept script recover handle i e n rest w s s' res out :
  at_z (shards w) i = Some s -> script s = (s', Some res) -> res <> -1 ->
  handle (set_shard w i s') res = Some out ->
  lua_loop script recover handle i e (n :: rest) w = out.
Proof.
  intros Hs Hr Hne Hh. cbn [lua_loop]. rewrite Hs, Hr.
  rewrite (proj2 (Z.eqb_neq res (-1)) Hne), Hh. done.
Qed.

Lemma handle_zero br gs f w e c amount : handleLuaResult gs br f w e c amount 0 = Some (w, e, None).
Proof. done. Qed.

(** Only the lookup of the event and the local table change. *)
Lemma acquire_effect t w e c w1 e1 :
  tryAcquireLocalFcap t w e c = (w1, e1, None) ->
  shards w1 = shards w /\ exists k, e1 = with_lookup e k.
Proof.
  unfold tryAcquireLocalFcap. case_if.
  - intros [= <- <-]. split; [done|]. exists (LocalFcapLookup e). by destruct e.
  - destruct (TryAcquire _ _ _ _ _) as [ok l] eqn:E. destruct ok; [|done].
    intros [= <- <-]. split; [done|]. eauto.
Qed.

Lemma undo_lookup_effect w e w1 e1 :
  rollbackLocalFcapForEvent w e = (w1, e1) -> shards w1 = shards w /\ exists k, e1 = with_lookup e k.
Proof.
  unfold rollbackLocalFcapForEvent. case_if; intros [= <- <-]; split; try done.
  - exists (LocalFcapLookup e). by destruct e.
  - eauto.
Qed.

(** The amount a rollback of the engine gives back. *)
Definition full_amount (f : Filter) (evt_type : list Z) : Z :=
  if bool_decide (evt_type = lit "impression") then impressionAmountMicro f else clickAmountMicro f.

(** The amount a check takes from the budget. *)
Definition taken_amount (f : Filter) (evt_type : list Z) : Z :=
  if skipBudgetDebit f then 0 else debit_amount f evt_type.

Section Publish.
Context (uuid_String : list Z -> list Z) (customer : list Z) (GetShard : list Z -> Z).
Context (f : Filter) (c : FCampaign) (e : Event) (clk : Clock) (env : RecoverEnv).
Context (br br' : Z -> bool) (w : World) (shard sub : Z) (s : Store) (l : Ledger).
Context (Hbuilt : keys_built uuid_String customer c) (Hid : CampaignID e = ID (base c))
        (Httl : 0 < idempotencyTTL f)
        (Hfast : fastPathEnabled f = true) (Hpath : needsFullLuaPath f e c = false)
        (Hres : resolveDebitShard GetShard br (zlen (shards w)) (CampaignID e) (UserID e) (ClickID e) c =
                Some (shard, sub))
        (Hres' : resolveDebitShard GetShard br' (zlen (shards w)) (CampaignID e) (UserID e) (ClickID e) c =
                 Some (shard, sub))
        (Hat : at_z (shards w) (Z.rem shard (zlen (shards w))) = Some s)
        (Him : implements f c e l s)
        (Hfree : ClickID e ∉ charged l) (Hund : ClickID e ∉ undone l)
        (Hrich : debit_amount f (Type_ e) <= bal l) (Hamt : 0 <= debit_amount f (Type_ e))
        (Hfull : 0 < full_amount f (Type_ e)).

Let i := Z.rem shard (zlen (shards w)).
Let amount := debit_amount f (Type_ e).

Lemma check_accepts b w1 e1 :
  sized l b -> b + amount <= max_i64 ->
  tryAcquireLocalFcap (now_sec clk) w e c = (w1, e1, None) ->
  exists s' l',
    checkPassRedisLua GetShard br f clk env w e c amount = (set_shard w1 i s', e1, None) /\
    implements f c e l' s' /\ sized l' (b + amount) /\
    bal l' = bal l - taken_amount f (Type_ e) /\ undone l' = undone l.
Proof.
  intros Hsz Hmax Hacq. assert (Hr : amount <= bal l) by exact Hrich. destruct (acquire_effect _ _ _ _ _ _ Hacq) as [Hsh [k ->]].
  set (o := if skipBudgetDebit f then Shadow e amount else Debit e amount).
  assert (Hoe : op_event o = e) by (unfold o; by destruct (skipBudgetDebit f)).
  destruct (lstep_refines uuid_String customer f c e Hbuilt Hid l s o b) as (s' & E & Him' & Hsz'); auto.
  { unfold ours. by rewrite Hoe. }
  { unfold o. by destruct (skipBudgetDebit f). }
  { unfold o. by destruct (skipBudgetDebit f). }
  exists s', (fst (lstep l o)).
  assert (Hscript : budget_fast (fast_keys f (with_lookup e k) c) (fast_args f (with_lookup e k) c amount) s =
    (s', Some 0)).
  { change (budget_fast (fast_keys f e c) (fast_args f e c amount) s = (s', Some 0)).
    rewrite <- (with_skip_self f) at 2. unfold o in E. destruct (skipBudgetDebit f);
      cbn [sstep] in E; rewrite E; do 2 f_equal; cbn; rewrite bool_decide_false by done; [done|].
    by rewrite (proj2 (Z.ltb_ge _ _) Hr). }
  split; [|split; [done|]].
  - unfold checkPassRedisLua. rewrite Hres, Hfast, Hpath. cbn [andb negb]. rewrite Hacq.
    unfold runBudgetFastLua. rewrite (lua_loop_accept _ _ _ _ _ _ _ _ s s' 0 (set_shard w1 i s', with_lookup e k, None));
      [done|by rewrite Hsh|exact Hscript|done|done].
  - split; [unfold o in Hsz'; by destruct (skipBudgetDebit f)|].
    unfold taken_amount, o. destruct (skipBudgetDebit f); cbn; rewrite bool_decide_false by done; cbn;
      [split; [lia|done]|]. rewrite (proj2 (Z.ltb_ge _ _) Hr). cbn. done.
Qed.

(** The rollback of the engine on a shard that implements a ledger. *)
Lemma engine_undoes b w1 k s' l' :
  shards w1 = shards (set_shard w i s') -> implements f c e l' s' -> sized l' b ->
  b + full_amount f (Type_ e) <= max_i64 -> ClickID e ∉ undone l' ->
  exists w2 k2 s2 l2,
    PublishAcceptedOrRollback GetShard br' f false w1 (with_lookup e k) c = (w2, with_lookup e k2, false) /\
    at_z (shards w2) i = Some s2 /\ implements f c e l2 s2 /\
    bal l2 = bal l' + full_amount f (Type_ e) /\ ClickID e ∉ charged l2.
Proof.
  intros Hsh Him' Hsz Hmax Hu.
  destruct (lstep_refines uuid_String customer f c e Hbuilt Hid l' s' (Undo e (full_amount f (Type_ e))) b)
    as (s2 & E & Him2 & _); auto; [by split|cbn; lia|].
  cbn [sstep lstep op_event] in E. rewrite (proj2 (Z.leb_gt _ 0) Hfull) in E.
  cbn [lstep op_event] in Him2. rewrite (proj2 (Z.leb_gt _ 0) Hfull) in Him2.
  rewrite bool_decide_false in E, Him2 by done. cbn [fst snd] in E, Him2.
  assert (Hlen : zlen (shards w1) = zlen (shards w)) by (by rewrite Hsh, set_shard_len).
  unfold PublishAcceptedOrRollback, engine_RollbackDebit, RollbackDebit.
  destruct (rollbackLocalFcapForEvent w1 (with_lookup e k)) as [w1' e1'] eqn:Er.
  destruct (undo_lookup_effect _ _ _ _ Er) as [Hsh' [k2 ->]].
  assert (Hroll : RollbackRedisDebit GetShard br' f w1' (with_lookup (with_lookup e k) k2) c
    (full_amount f (Type_ e)) = (set_shard w1' i s2, None)).
  { unfold RollbackRedisDebit. rewrite Hsh', Hlen.
    change (CampaignID (with_lookup (with_lookup e k) k2)) with (CampaignID e).
    change (UserID (with_lookup (with_lookup e k) k2)) with (UserID e).
    change (ClickID (with_lookup (with_lookup e k) k2)) with (ClickID e).
    rewrite Hres'. fold i. rewrite Hsh, (set_shard_at w i s' s Hat).
    change (rollback_keys f (with_lookup (with_lookup e k) k2) c) with (rollback_keys f e c).
    by rewrite E. }
  exists (set_shard w1' i s2), k2, s2, (mkLedger (bal l' + full_amount f (Type_ e))
    (Z.max 0 (pend_c l' - full_amount f (Type_ e))) (Z.max 0 (pend_u l' - full_amount f (Type_ e)))
    (charged l' ∖ {[ClickID e]}) ({[ClickID e]} ∪ undone l')).
  split; [|split; [|split; [done|split; [done|]]]].
  - change (Type_ (with_lookup e k)) with (Type_ e). fold (full_amount f (Type_ e)). rewrite Hroll. done.
  - apply (set_shard_at w1' i s2 s'). rewrite Hsh', Hsh. by apply set_shard_at with s.
  - cbn. apply not_elem_of_difference. right. by apply elem_of_singleton.
Qed.

End Publish.

(** An accepted check whose event cannot be published: the check takes
    [taken_amount], the rollback of the engine gives back [full_amount], and
    the click may be tried again.  The budget is what it was exactly when the
    check took the full price. *)
Theorem failed_publish_balance uuid_String customer GetShard f c e clk env br br' w shard sub s l b w1 e1 :
  keys_built uuid_String customer c -> CampaignID e = ID (base c) -> 0 < idempotencyTTL f ->
  fastPathEnabled f = true -> needsFullLuaPath f e c = false ->
  resolveDebitShard GetShard br (zlen (shards w)) (CampaignID e) (UserID e) (ClickID e) c = Some (shard, sub) ->
  resolveDebitShard GetShard br' (zlen (shards w)) (CampaignID e) (UserID e) (ClickID e) c = Some (shard, sub) ->
  at_z (shards w) (Z.rem shard (zlen (shards w))) = Some s ->
  implements f c e l s -> sized l b -> ClickID e ∉ charged l -> ClickID e ∉ undone l ->
  0 <= debit_amount f (Type_ e) <= bal l -> 0 < full_amount f (Type_ e) ->
  b + debit_amount f (Type_ e) + full_amount f (Type_ e) <= max_i64 ->
  tryAcquireLocalFcap (now_sec clk) w e c = (w1, e1, None) ->
  exists w' e' w'' e'' s'' l'',
    checkPassRedisLua GetShard br f clk env w e c (debit_amount f (Type_ e)) = (w', e', None) /\
    PublishAcceptedOrRollback GetShard br' f false w' e' c = (w'', e'', false) /\
    at_z (shards w'') (Z.rem shard (zlen (shards w))) = Some s'' /\ implements f c e l'' s'' /\
    bal l'' = bal l - taken_amount f (Type_ e) + full_amount f (Type_ e) /\ ClickID e ∉ charged l''.
Proof.
  intros Hb Hid Httl Hfast Hpath Hres Hres' Hat Him Hsz Hfree Hund [Hamt Hrich] Hfull Hmax Hacq.
  destruct (check_accepts uuid_String customer GetShard f c e clk env br w shard sub s l Hb Hid Httl
    Hfast Hpath Hres Hat Him Hfree Hrich Hamt b w1 e1) as (s' & l' & Hchk & Him' & Hsz' & Hbal & Hu);
    [done|lia|done|].
  destruct (acquire_effect _ _ _ _ _ _ Hacq) as [Hsh [k ->]].
  destruct (engine_undoes uuid_String customer GetShard f c e br' w shard sub s Hb Hid Httl Hres' Hat Hfull
    (b + debit_amount f (Type_ e)) (set_shard w1 (Z.rem shard (zlen (shards w))) s') k s' l')
    as (w2 & k2 & s2 & l2 & Hp & Hat2 & Him2 & Hbal2 & Hfree2); auto.
  { cbn [shards set_shard]. by rewrite Hsh. }
  { by rewrite Hu. }
  do 6 eexists. split; [exact Hchk|]. split; [exact Hp|]. split; [exact Hat2|]. split; [exact Him2|].
  split; [lia|done].
Qed.

(** A click accepted without a debit, as for the shadow layer of the fraud
    decision, whose event cannot be published. *)
Definition shadow_filter : Filter := with_skip demo_filter true.
Definition demo_clock : Clock := mkClock 11 (lit "2026-01-01") 1767268800000 5000000000 1767268800.
Definition no_recovery : RecoverEnv := mkRecoverEnv None false false None false.
Definition demo_world : World :=
  mkWorld [funded shadow_filter demo_camp (demo_event (lit "a")) 100] NewLocalFcapLedger false.
Definition closed_breaker (_ : Z) : bool := false.

Lemma failed_publish_balance_witness :
  taken_amount shadow_filter (lit "click") = 0 /\ full_amount shadow_filter (lit "click") = 10 /\
  exists w' e' w'' e'' s'' l'',
    checkPassRedisLua (fun _ => 0) closed_breaker shadow_filter demo_clock no_recovery demo_world
      (demo_event (lit "a")) demo_camp 10 = (w', e', None) /\
    PublishAcceptedOrRollback (fun _ => 0) closed_breaker shadow_filter false w' e' demo_camp =
      (w'', e'', false) /\
    at_z (shards w'') 0 = Some s'' /\ implements shadow_filter demo_camp (demo_event (lit "a")) l'' s'' /\
    bal l'' = 100 - 0 + 10 /\ lit "a" ∉ charged l''.
Proof.
  split; [reflexivity|]. split; [reflexivity|].
  apply (failed_publish_balance (AppendUUID []) (replicate 16 34) (fun _ => 0) shadow_filter demo_camp
    (demo_event (lit "a")) demo_clock no_recovery closed_breaker closed_breaker demo_world 0 0
    (funded shadow_filter demo_camp (demo_event (lit "a")) 100) (mkLedger 100 0 0 ∅ ∅) 100 demo_world
    (demo_event (lit "a"))); try reflexivity; try (vm_compute; done); try set_solver.
  apply (funded_implements (AppendUUID []) (replicate 16 34)); [apply demo_built|done].
Defined.

(** ** The two idempotency keys

    The full script marks an accepted click under a key with the campaign's
    hash tag, the fast script and the rollback use one without. *)

(** The spend key of the full script is the one of the fast script. *)
Lemma full_spend_key f clk e c amount :
  (if is_one (arg (full_args f clk e c amount) 25) then key (full_keys f clk e c) 13
   else key (full_keys f clk e c) 3) = budgetSourceKey f e c.
Proof. cbn. unfold budgetSourceKey, is_one, flag. by destruct (quotaEnabled f). Qed.

Lemma unified_filter_accepted f clk e c amount s :
  present (kv s !! budgetSourceKey f e c) = true ->
  present (kv s !! tagged_idempotency (CampaignID e) (ClickID e)) = true ->
  unified_filter (full_keys f clk e c) (full_args f clk e c amount) s = (s, Some 0).
Proof.
  intros Hs Hi. unfold unified_filter. cbv zeta. rewrite full_spend_key.
  do 4 (erewrite sbind_ok by reflexivity). rewrite Hs.
  change (key (full_keys f clk e c) 4) with (tagged_idempotency (CampaignID e) (ClickID e)). by rewrite Hi.
Qed.

Lemma rollback_keeps_tagged uuid_String customer f c e a s :
  keys_built uuid_String customer c -> CampaignID e = ID (base c) ->
  kv (fst (budget_rollback (rollback_keys f e c) (rollback_args f c a) s)) !!
    tagged_idempotency (CampaignID e) (ClickID e) =
  kv s !! tagged_idempotency (CampaignID e) (ClickID e).
Proof.
  intros Hb Hid. rewrite Hid. apply budget_rollback_frame.
  - apply not_eq_sym, (source_ne uuid_String customer f c Hb e); [done|..]; intros y H; vm_compute in H; discriminate.
  - apply (by_head 0). unfold tagged_idempotency. by rewrite tag_head.
  - change (key (rollback_keys f e c) 3) with (CampaignSyncKey c). rewrite (ck_shape uuid_String customer c Hb). tag_ne.
  - change (key (rollback_keys f e c) 4) with (CustomerSyncKey c). rewrite (uk_shape uuid_String customer c Hb). tag_ne.
  - change (key (rollback_keys f e c) 7) with (appendClickRollbackGuardKey (CampaignID e) (ClickID e)).
    rewrite Hid. tag_ne.
Qed.

(** A click charged by the full path and rolled back: the money returns, the
    marker under the tagged key stays, and every retry on the full path is
    accepted and published without a debit. *)
Theorem rolled_back_click_is_free uuid_String customer GetShard br f w e c shard sub s bal p q a :
  keys_built uuid_String customer c -> CampaignID e = ID (base c) ->
  resolveDebitShard GetShard br (zlen (shards w)) (CampaignID e) (UserID e) (ClickID e) c = Some (shard, sub) ->
  at_z (shards w) (Z.rem shard (zlen (shards w))) = Some s ->
  present (kv s !! tagged_idempotency (CampaignID e) (ClickID e)) = true ->
  kv s !! appendClickRollbackGuardKey (CampaignID e) (ClickID e) = None ->
  kv s !! budgetSourceKey f e c = Some (RInt bal) ->
  counter (kv s) (CampaignSyncKey c) = Some p -> counter (kv s) (CustomerSyncKey c) = Some q ->
  0 < a -> 0 < idempotencyTTL f -> in_i64 (bal + a) -> in_i64 (p - a) -> in_i64 (q - a) ->
  exists w' s',
    RollbackRedisDebit GetShard br f w e c a = (w', None) /\
    at_z (shards w') (Z.rem shard (zlen (shards w))) = Some s' /\
    kv s' !! budgetSourceKey f e c = Some (RInt (bal + a)) /\
    forall br' clk env amount,
      exists w'', runUnifiedLua GetShard br' f clk env (Z.rem shard (zlen (shards w))) w' e c amount =
                    (w'', e, None) /\
                  at_z (shards w'') (Z.rem shard (zlen (shards w))) = Some s'.
Proof.
  intros Hb Hid Hres Hat Htag Hguard Hbal Hp Hq Ha Httl R1 R2 R3.
  assert (He0 : CampaignID e = ID (base c)) by done.
  set (keys := rollback_keys f e c).
  assert (K7 : key keys 7 = appendClickRollbackGuardKey (ID (base c)) (ClickID e)) by (by rewrite <- Hid).
  destruct (budget_rollback_ok keys (rollback_args f c a) s a bal p q) as (s' & E & Hkv); try done.
  { rewrite K7. apply not_eq_sym, (sk_guard uuid_String customer f c e Hb He0). }
  { rewrite K7. apply not_eq_sym, (ck_guard uuid_String customer c Hb). }
  { rewrite K7. apply not_eq_sym, (uk_guard uuid_String customer c Hb). }
  { apply (sk_ck uuid_String customer f c e Hb He0). }
  { apply (sk_uk uuid_String customer f c e Hb He0). }
  { apply (ck_uk uuid_String customer c Hb). }
  { unfold counter. change (key keys 1) with (budgetSourceKey f e c). by rewrite Hbal. }
  assert (Hs' : kv s' !! budgetSourceKey f e c = Some (RInt (bal + a))).
  { rewrite Hkv. change (key keys 1) with (budgetSourceKey f e c).
    rewrite lookup_delete_ne, !settle_ne; [by rewrite lookup_insert_eq|..].
    - apply not_eq_sym, (sk_ck uuid_String customer f c e Hb He0).
    - apply not_eq_sym, (sk_uk uuid_String customer f c e Hb He0).
    - change (key keys 2) with (click_idempotency (ClickID e)). apply (by_head 0).
      by rewrite idem_head, (sk_head uuid_String customer f c e Hb He0). }
  assert (Htag' : present (kv s' !! tagged_idempotency (CampaignID e) (ClickID e)) = true).
  { rewrite <- Htag, <- (rollback_keeps_tagged uuid_String customer f c e a s Hb Hid). fold keys. by rewrite E. }
  exists (set_shard w (Z.rem shard (zlen (shards w))) s'), s'.
  assert (Hat' : at_z (shards (set_shard w (Z.rem shard (zlen (shards w))) s'))
    (Z.rem shard (zlen (shards w))) = Some s') by (by apply set_shard_at with s).
  split; [|split; [done|split; [done|]]].
  - unfold RollbackRedisDebit. rewrite Hres, Hat. fold keys. by rewrite E.
  - intros br' clk env amount. eexists. split.
    + unfold runUnifiedLua. eapply (lua_loop_accept _ _ _ _ _ _ _ _ s' s' 0); [exact Hat'| |discriminate|reflexivity].
      apply unified_filter_accepted; [by rewrite Hs'|done].
    + by apply set_shard_at with s'.
Qed.
(** The shard after the full path has accepted click [a]. *)
Definition full_accepted : Store * option Z :=
  unified_filter (full_keys demo_filter demo_clock (demo_event (lit "a")) demo_camp)
    (full_args demo_filter demo_clock (demo_event (lit "a")) demo_camp 10)
    (funded demo_filter demo_camp (demo_event (lit "a")) 100).

Lemma rolled_back_click_is_free_witness :
  snd full_accepted = Some 0 /\
  exists w' s',
    RollbackRedisDebit (fun _ => 0) closed_breaker demo_filter (mkWorld [fst full_accepted] [] false)
      (demo_event (lit "a")) demo_camp 10 = (w', None) /\
    at_z (shards w') (Z.rem 0 1) = Some s' /\
    kv s' !! budgetSourceKey demo_filter (demo_event (lit "a")) demo_camp = Some (RInt (90 + 10)) /\
    forall br' clk env amount,
      exists w'', runUnifiedLua (fun _ => 0) br' demo_filter clk env (Z.rem 0 1) w' (demo_event (lit "a"))
                    demo_camp amount = (w'', demo_event (lit "a"), None) /\
                  at_z (shards w'') (Z.rem 0 1) = Some s'.
Proof.
  split; [vm_compute; reflexivity|].
  apply (rolled_back_click_is_free (AppendUUID []) (replicate 16 34) (fun _ => 0) closed_breaker demo_filter
    (mkWorld [fst full_accepted] [] false) (demo_event (lit "a")) demo_camp 0 0 (fst full_accepted) 90 10 10 10);
    try reflexivity; try (vm_compute; reflexivity); try lia; try (unfold in_i64, min_i64, max_i64; lia).
  apply demo_built.
Defined.

(** ** Two recoveries of a missing budget key *)

(** Two workers find the key missing; each writes what the registry says is
    left and debits, and the second write comes after the first debit. *)
Definition miss_race (f : Filter) (env : RecoverEnv) (c : FCampaign) (e1 e2 : Event) (a1 a2 : Z)
    (s : Store) : Store * list (option Z) :=
  let check e a := budget_fast (fast_keys f e c) (fast_args (with_skip f false) e c a) in
  let recover e := recoverBudgetAfterMiss f env (budgetSourceKey f e c) 0 in
  let '(s, r1) := check e1 a1 s in
  let '(s, r2) := check e2 a2 s in
  let '(s, _) := recover e1 s in
  let '(s, r3) := check e1 a1 s in
  let '(s, _) := recover e2 s in
  let '(s, r4) := check e2 a2 s in
  (s, [r1; r2; r3; r4]).

Lemma recover_sets f env c k s :
  registry env = Some c -> StatusActive c = true -> 0 < BudgetLimit c -> deadline_exceeded env = false ->
  set_fails env = false ->
  recoverBudgetAfterMiss f env k 0 s =
    (with_kv s (<[k := RInt (RemainingBudgetMicro c)]> (kv s)), inl true).
Proof.
  intros Hr Hact Hlim Hd Hs. unfold recoverBudgetAfterMiss, TryRecoverBudgetFromRegistry. cbn [Nat.ltb Nat.leb].
  rewrite Hd, Hr, Hact, Hs. cbn [negb]. rewrite (proj2 (Z.eqb_neq (BudgetLimit c) 0)) by lia. done.
Qed.

Lemma implements_set uuid_String customer f camp e0 l s v :
  keys_built uuid_String customer camp -> CampaignID e0 = ID (base camp) ->
  implements f camp e0 l s ->
  implements f camp e0 (mkLedger v (pend_c l) (pend_u l) (charged l) (undone l))
    (with_kv s (<[budgetSourceKey f e0 camp := RInt v]> (kv s))).
Proof.
  intros Hb He [I1 I2 I3 I4 I5 I6].
  pose proof (sk_ck uuid_String customer f camp e0 Hb He). pose proof (sk_uk uuid_String customer f camp e0 Hb He).
  pose proof (sk_head uuid_String customer f camp e0 Hb He) as Hh.
  constructor; cbn [kv with_kv bal pend_c pend_u charged undone].
  - by rewrite lookup_insert_eq.
  - by rewrite counter_insert_ne.
  - by rewrite counter_insert_ne.
  - intros k. rewrite lookup_insert_ne; [apply I4|]. apply (by_head 0). rewrite Hh, idem_head. discriminate.
  - intros k. rewrite lookup_insert_ne; [apply I5|]. apply (sk_guard uuid_String customer f camp e0 Hb He).
  - erewrite barred_ext; [exact I6|..]; rewrite lookup_insert_ne; try done; apply (by_head 0); rewrite Hh;
      discriminate.
Qed.

Lemma fast_missing f c e a s :
  kv s !! budgetSourceKey f e c = None ->
  budget_fast (fast_keys f e c) (fast_args (with_skip f false) e c a) s = (s, Some (-1)).
Proof.
  intros H. apply budget_fast_refuses.
  change (key (fast_keys f e c) 1) with (budgetSourceKey f e c). by rewrite H.
Qed.

(** The second recovery erases the first debit: both clicks are accepted and
    both amounts will be settled, but the budget has lost only the second. *)
Theorem recovery_erases_debit uuid_String customer f env c e1 e2 a1 a2 s l r b :
  keys_built uuid_String customer c -> CampaignID e1 = ID (base c) -> CampaignID e2 = ID (base c) ->
  budgetSourceKey f e2 c = budgetSourceKey f e1 c -> 0 < idempotencyTTL f ->
  registry env = Some c -> StatusActive c = true -> 0 < BudgetLimit c ->
  deadline_exceeded env = false -> set_fails env = false ->
  r = RemainingBudgetMicro c -> kv s !! budgetSourceKey f e1 c = None ->
  implements f c e1 l (with_kv s (<[budgetSourceKey f e1 c := RInt r]> (kv s))) -> bal l = r ->
  sized l b -> ClickID e1 ∉ charged l -> ClickID e2 ∉ charged l -> ClickID e1 <> ClickID e2 ->
  0 <= a1 <= r -> 0 <= a2 <= r -> b + a1 + a2 <= max_i64 ->
  exists s', miss_race f env c e1 e2 a1 a2 s = (s', [Some (-1); Some (-1); Some 0; Some 0]) /\
    kv s' !! budgetSourceKey f e1 c = Some (RInt (r - a2)) /\
    counter (kv s') (CampaignSyncKey c) = Some (pend_c l + a1 + a2).
Proof.
  intros Hb H1 H2 Hk Httl Hreg Hact Hlim Hd Hs -> Hmiss Him Hbal Hsz F1 F2 Hne A1 A2 Hmax.
  set (r := RemainingBudgetMicro c) in *.
  destruct (lstep_refines uuid_String customer f c e1 Hb H1 l _ (Debit e1 a1) b Httl Him) as (s1 & E1 & Him1 & Hsz1);
    [done|done|cbn; lia|cbn; lia|].
  cbn [sstep lstep op_event] in E1, Him1, Hsz1. rewrite bool_decide_false in E1, Him1, Hsz1 by done.
  rewrite Hbal, (proj2 (Z.ltb_ge r a1)) in E1, Him1, Hsz1 by lia. cbn [fst snd] in E1, Him1, Hsz1.
  pose proof (implements_set _ _ _ _ _ _ _ r Hb H1 Him1) as Him2. cbn [pend_c pend_u charged undone] in Him2.
  set (l2 := mkLedger r _ _ _ _) in Him2.
  assert (Hsz2 : sized l2 (b + a1)) by (unfold sized in *; cbn in *; lia).
  destruct (lstep_refines uuid_String customer f c e1 Hb H1 l2 _ (Debit e2 a2) (b + a1) Httl Him2)
    as (s2 & E2 & Him3 & _); [by split|done|cbn; lia|cbn; lia|].
  cbn [sstep lstep op_event] in E2, Him3.
  assert (F2' : ClickID e2 ∉ charged l2) by (clear -F2 Hne; cbn; set_solver).
  rewrite bool_decide_false in E2, Him3 by exact F2'.
  change (bal l2) with r in E2, Him3. rewrite (proj2 (Z.ltb_ge r a2)) in E2, Him3 by lia.
  cbn [fst snd] in E2, Him3.
  exists s2. unfold miss_race. cbv zeta. rewrite fast_missing by done. rewrite fast_missing by (by rewrite Hk).
  rewrite (recover_sets f env c) by done. fold r. rewrite E1, Hk, (recover_sets f env c) by done. fold r.
  rewrite E2. split; [done|]. destruct Him3 as [B1 B2 _ _ _ _]. split; [exact B1|exact B2].
Qed.

Definition recover_registry : RecoverEnv := mkRecoverEnv (Some demo_camp) false false None false.

Lemma recovery_erases_debit_witness :
  exists s', miss_race demo_filter recover_registry demo_camp (demo_event (lit "a")) (demo_event (lit "b")) 700 900
      empty_store = (s', [Some (-1); Some (-1); Some 0; Some 0]) /\
    kv s' !! budgetSourceKey demo_filter (demo_event (lit "a")) demo_camp = Some (RInt (1000 - 900)) /\
    counter (kv s') (CampaignSyncKey demo_camp) = Some (0 + 700 + 900).
Proof.
  apply (recovery_erases_debit (AppendUUID []) (replicate 16 34) demo_filter recover_registry demo_camp
    (demo_event (lit "a")) (demo_event (lit "b")) 700 900 empty_store (mkLedger 1000 0 0 ∅ ∅) 1000 1000);
    try reflexivity; try lia; try set_solver; try (unfold sized; cbn; lia); try (unfold max_i64; lia);
    try apply demo_built; try discriminate.
  apply (funded_implements (AppendUUID []) (replicate 16 34)); [apply demo_built|done].
Defined.

(** ** A missing quota key on the full path *)

(** The full path recovers the campaign's key even when it debits the quota
    key: a missing quota key stays missing and every event is rejected as if
    the budget were exhausted, whatever the campaign has left. *)
Theorem missing_quota_key_rejects uuid_String customer GetShard br f clk env i w e c amount s reg :
  keys_built uuid_String customer c -> CampaignID e = ID (base c) -> quotaEnabled f = true ->
  at_z (shards w) i = Some s -> kv s !! budgetSourceKey f e c = None ->
  registry env = Some reg -> StatusActive reg = true -> 0 < BudgetLimit reg ->
  deadline_exceeded env = false -> set_fails env = false ->
  exists w' s',
    runUnifiedLua GetShard br f clk env i w e c amount = (w', e, Some ErrBudgetExhausted) /\
    at_z (shards w') i = Some s' /\ kv s' !! budgetSourceKey f e c = None /\
    kv s' !! BudgetCampaignKey c = Some (RInt (RemainingBudgetMicro reg)).
Proof.
  intros Hb Hid Hq Hat Hmiss Hreg Hact Hlim Hd Hs.
  assert (Hscript : forall st, kv st !! budgetSourceKey f e c = None ->
    unified_filter (full_keys f clk e c) (full_args f clk e c amount) st = (st, Some (-1))).
  { intros st Hst. unfold unified_filter. cbv zeta. rewrite full_spend_key.
    do 4 (erewrite sbind_ok by reflexivity). by rewrite Hst. }
  assert (Hne : budgetSourceKey f e c <> BudgetCampaignKey c).
  { rewrite (kb_budget _ _ _ Hb). unfold budgetSourceKey. rewrite Hq. unfold appendBudgetQuotaKey, budgetCampaignKey.
    rewrite Hid. destruct (Z.leb_spec (debitSubSlot (base c) (UserID e) (ClickID e)) 0); [tag_ne|].
    destruct (sub_tag_head (ID (base c)) (debitSubSlot (base c) (UserID e) (ClickID e))
      (lit "budget:quota:" ++ AppendUUID [] (ID (base c)))) as [y ->]; [done|].
    rewrite tag_head. intros H'. injection H' as H'. rewrite <- app_assoc in H'. apply app_inv_head in H'.
    discriminate H'. }
  set (s' := with_kv s (<[BudgetCampaignKey c := RInt (RemainingBudgetMicro reg)]> (kv s))).
  assert (Hmiss' : kv s' !! budgetSourceKey f e c = None)
    by (unfold s'; cbn [kv with_kv]; by rewrite lookup_insert_ne by (by apply not_eq_sym)).
  do 2 eexists. split; [|split; [|split; [exact Hmiss'|unfold s'; cbn [kv with_kv]; apply lookup_insert_eq]]].
  - unfold runUnifiedLua. cbn [lua_loop]. rewrite Hat, Hscript by done. rewrite Z.eqb_refl.
    rewrite (recover_sets f env reg) by done. fold s'.
    erewrite set_shard_at by (apply set_shard_at with s; exact Hat). rewrite Hscript by done. rewrite Z.eqb_refl.
    reflexivity.
  - eapply set_shard_at, set_shard_at, set_shard_at, set_shard_at. exact Hat.
Qed.

Definition quota_filter : Filter :=
  mkFilter true true 5000 20 (lit "events") 100000 60 86400 10 4 0 false 600 false true false false
    false false true.

Lemma missing_quota_key_rejects_witness :
  exists w' s',
    runUnifiedLua (fun _ => 0) closed_breaker quota_filter demo_clock recover_registry 0
      (mkWorld [empty_store] [] false) (demo_event (lit "a")) demo_camp 10 =
      (w', demo_event (lit "a"), Some ErrBudgetExhausted) /\
    at_z (shards w') 0 = Some s' /\
    kv s' !! budgetSourceKey quota_filter (demo_event (lit "a")) demo_camp = None /\
    kv s' !! BudgetCampaignKey demo_camp = Some (RInt 1000).
Proof.
  apply (missing_quota_key_rejects (AppendUUID []) (replicate 16 34) (fun _ => 0) closed_breaker quota_filter
    demo_clock recover_registry 0 (mkWorld [empty_store] [] false) (demo_event (lit "a")) demo_camp 10
    empty_store demo_camp); try reflexivity; [apply demo_built].
Defined.

End FilterPaths.
