(* ===== verification/SharedFilter.v ===== *)
(** * What the workers share in the unified filter

    The tracker builds one [UnifiedFilter] ([cmd/tracker/wire.go]) and every
    worker of its pool checks events through it without a lock.  The filter
    keeps per-check state in its own fields: the switches
    [skipBudgetDebitAny] and [streamKeyVal] that a check sets and restores
    ([Check], [checkLocalQuanta], [FilterEngine.checkInner]), the key and
    argument scratch of the fast script ([runBudgetFastLua]), and the buffer
    behind the keys of the asynchronous frequency bumps
    ([scheduleFcapBumpForEvent], [fcapWorkerLoop]).  Here these are shared
    state and the workers' accesses are interleaved steps. *)

From S2P Require Import Prelude Wire RedisKeys DebitScripts UnifiedFilter DebitLedger.
Open Scope Z_scope.

Module SharedFilter.

(** ** The switches *)

Module Switches.

(** The kinds of check: an ordinary one, a smoke event, a check under the
    shadow layer, and the partial local-quota check. *)
Inductive kind := Ordinary | Smoke | ShadowLayer | PartialQuota.

#[global] Instance kind_eq_dec : EqDecision kind.
Proof. solve_decision. Defined.

Inductive pc :=
  | Begin
  | SmokeLoadStream (prevSkip : bool)
  | SmokeSetSkip (prevSkip prevIgnored : bool)
  | SmokeSetStream (prevSkip prevIgnored : bool)
  | SmokeRun (prevSkip prevIgnored : bool)
  | SmokeRestoreSkip (prevSkip prevIgnored : bool)
  | SmokeRestoreStream (prevIgnored : bool)
  | ShadowRun | ShadowClear
  | QuotaSet (prevSkip : bool) | QuotaRun (prevSkip : bool) | QuotaRestore (prevSkip : bool)
  | Finished.

(** The two fields ([ignored]: the stream key is the sentinel), the workers,
    and what each run of the debit script saw of the fields. *)
Record shared := mkShared {
  skip : bool; ignored : bool; workers : list (kind * pc); seen : list (kind * bool * bool)
}.

(** One access of a worker: its next point, the fields, and what the script
    saw if it ran (with the fields as they are when its arguments are built). *)
Definition access (k : kind) (p : pc) (sk ig : bool) : pc * (bool * bool) * list (kind * bool * bool) :=
  match p with
  | Begin =>
      match k with
      | Ordinary => (Finished, (sk, ig), [(k, sk, ig)])
      | Smoke => (SmokeLoadStream sk, (sk, ig), [])
      | ShadowLayer => (ShadowRun, (true, ig), [])
      | PartialQuota => (QuotaSet sk, (sk, ig), [])
      end
  | SmokeLoadStream a => (SmokeSetSkip a ig, (sk, ig), [])
  | SmokeSetSkip a b => (SmokeSetStream a b, (true, ig), [])
  | SmokeSetStream a b => (SmokeRun a b, (sk, true), [])
  | SmokeRun a b => (SmokeRestoreSkip a b, (sk, ig), [(k, sk, ig)])
  | SmokeRestoreSkip a b => (SmokeRestoreStream b, (a, ig), [])
  | SmokeRestoreStream b => (Finished, (sk, b), [])
  | ShadowRun => (ShadowClear, (sk, ig), [(k, sk, ig)])
  | ShadowClear => (Finished, (false, ig), [])
  | QuotaSet a => (QuotaRun a, (true, ig), [])
  | QuotaRun a => (QuotaRestore a, (sk, ig), [(k, sk, ig)])
  | QuotaRestore a => (Finished, (a, ig), [])
  | Finished => (Finished, (sk, ig), [])
  end.

Definition switch_step (s : shared) (i : nat) : shared :=
  match workers s !! i with
  | None => s
  | Some (k, p) =>
      let '(p', (sk, ig), log) := access k p (skip s) (ignored s) in
      mkShared sk ig (<[i := (k, p')]> (workers s)) (seen s ++ log)
  end.

Definition run (s : shared) (sched : list nat) : shared := foldl switch_step s sched.

Definition idle (sk ig : bool) (ks : list kind) : shared :=
  mkShared sk ig (map (fun k => (k, Begin)) ks) [].

(** Worker [i] runs its whole check. *)
Definition alone (i : nat) : list nat := replicate 7 i.

(** What an ordinary check must see: budget debited, event in the stream. *)
Definition honest (x : kind * bool * bool) : Prop :=
  match x with (Ordinary, sk, ig) => sk = false /\ ig = false | _ => True end.

Definition finished (s : shared) : Prop := Forall (fun w => snd w = Finished) (workers s).

(** What a check that runs alone sees. *)
Definition sees (sk ig : bool) (k : kind) : kind * bool * bool :=
  match k with
  | Ordinary => (k, sk, ig)
  | Smoke => (k, true, true)
  | _ => (k, true, ig)
  end.

(** Every worker in turn, each alone. *)
Fixpoint in_turn (first : nat) (ks : list kind) : list nat :=
  match ks with
  | [] => []
  | _ :: rest => alone first ++ in_turn (S first) rest
  end.

Lemma step_middle sk ig pre k p post log :
  switch_step (mkShared sk ig (pre ++ (k, p) :: post) log) (length pre) =
  let '(p', (sk', ig'), l) := access k p sk ig in
  mkShared sk' ig' (pre ++ (k, p') :: post) (log ++ l).
Proof.
  unfold switch_step. cbn [workers skip ignored seen]. rewrite list_lookup_middle by done.
  destruct (access k p sk ig) as [[p' [sk' ig']] l].
  rewrite insert_app_r_alt, Nat.sub_diag by lia. done.
Qed.

Lemma run_app s a b : run s (a ++ b) = run (run s a) b.
Proof. apply foldl_app. Qed.

(** A check that runs alone leaves the fields as it found them, the shadow
    layer's if the budget switch was off. *)
Lemma run_alone sk ig pre k post log :
  (k = ShadowLayer -> sk = false) ->
  run (mkShared sk ig (pre ++ (k, Begin) :: post) log) (alone (length pre)) =
  mkShared sk ig (pre ++ (k, Finished) :: post) (log ++ [sees sk ig k]).
Proof.
  intros Hk. unfold run, alone. cbn [replicate foldl].
  destruct k; repeat (rewrite step_middle; cbn [access]); rewrite ?app_nil_r; try done.
  by rewrite Hk.
Qed.

Lemma run_in_turn sk ig pre ks log :
  (ShadowLayer ∈ ks -> sk = false) ->
  run (mkShared sk ig (pre ++ map (fun k => (k, Begin)) ks) log) (in_turn (length pre) ks) =
  mkShared sk ig (pre ++ map (fun k => (k, Finished)) ks) (log ++ map (sees sk ig) ks).
Proof.
  revert pre log. induction ks as [|k ks IH]; intros pre log Hk; cbn [in_turn map].
  { cbn. by rewrite !app_nil_r. }
  rewrite run_app, run_alone by (intros ->; apply Hk; set_solver).
  replace (pre ++ (k, Finished) :: map (fun k => (k, Begin)) ks)
    with ((pre ++ [(k, Finished)]) ++ map (fun k => (k, Begin)) ks) by (by rewrite <- app_assoc).
  replace (S (length pre)) with (length (pre ++ [(k, Finished)])) by (rewrite length_app; cbn; lia).
  rewrite IH by (intros H; apply Hk; set_solver). by rewrite <- !app_assoc.
Qed.

Lemma map_finished ks : Forall (fun w : kind * pc => snd w = Finished) (map (fun k => (k, Finished)) ks).
Proof. apply Forall_map. by apply Forall_true. Qed.

End Switches.

(** ** The scratch of the fast script *)

Module Scratch.
Import DebitScripts UnifiedFilter.

(** Keys and arguments of the fast script live in fields of the filter: a
    worker fills them, then the command is written to the wire from them. *)
Record scratch_state := mkState {
  store : Store; keys : list (list Z); args : list RVal; replies : list (nat * option Z)
}.

Inductive access := Fill (i : nat) (e : Event) (c : FCampaign) (amount : Z) | Send (i : nat).

Definition scratch_step (f : Filter) (s : scratch_state) (a : access) : scratch_state :=
  match a with
  | Fill _ e c amount => mkState (store s) (fast_keys f e c) (fast_args f e c amount) (replies s)
  | Send i =>
      let '(st, r) := budget_fast (keys s) (args s) (store s) in
      mkState st (keys s) (args s) (replies s ++ [(i, r)])
  end.

Definition run (f : Filter) (s : scratch_state) (l : list access) : scratch_state := foldl (scratch_step f) s l.
End Scratch.

(** ** The frequency bumps *)

Module Bumps.

Definition buffer_cap : Z := 128.
Definition queue_cap : Z := 512.

(** A Go string: bytes of its own, or the first [n] bytes of the buffer. *)
Inductive gostring := Own (b : list Z) | Alias (n : nat).

Record bump_state := mkState {
  buffer : list Z;            (* the 128 bytes behind [wFcapBump.Buf] *)
  fcapKeyVal : gostring;
  queue : list gostring       (* the keys of the jobs, oldest first *)
}.

Definition bytes (s : bump_state) (g : gostring) : list Z :=
  match g with Own b => b | Alias n => take n (buffer s) end.

(** [assignBufKey]: [buf] is the slice just built. *)
Definition assignBufKey (s : bump_state) (buf : gostring) : gostring :=
  if (zlen (bytes s (fcapKeyVal s)) =? zlen (bytes s buf)) &&
     bool_decide (bytes s (fcapKeyVal s) = bytes s buf)
  then fcapKeyVal s else buf.

(** [scheduleFcapBumpForEvent] of an event with a cap: appends the key to the
    empty slice of the buffer, which reallocates past its capacity, and sends
    the job unless the queue is full. *)
Definition schedule (s : bump_state) (prefix user : list Z) (window : Z) : bump_state :=
  let k := prefix ++ user in
  let written := if zlen k <=? buffer_cap then k else if zlen prefix <=? buffer_cap then prefix else [] in
  let s1 := mkState (written ++ drop (length written) (buffer s)) (fcapKeyVal s) (queue s) in
  let buf := if zlen k <=? buffer_cap then Alias (length k) else Own k in
  let v := assignBufKey s1 buf in
  let s2 := mkState (buffer s1) v (queue s1) in
  if bool_decide (bytes s2 v = []) || (window <=? 0) then s2
  else if zlen (queue s2) <? queue_cap then mkState (buffer s2) v (queue s2 ++ [v]) else s2.

(** One job of [fcapWorkerLoop]: the key it increments. *)
Definition work (s : bump_state) : bump_state * option (list Z) :=
  match queue s with
  | [] => (s, None)
  | g :: rest => (mkState (buffer s) (fcapKeyVal s) rest, Some (bytes s g))
  end.

Inductive op := Schedule (prefix user : list Z) (window : Z) | Work.

Fixpoint run (s : bump_state) (ops : list op) : bump_state * list (list Z) :=
  match ops with
  | [] => (s, [])
  | Schedule p u w :: rest => run (schedule s p u w) rest
  | Work :: rest =>
      let '(s', k) := work s in
      let '(s'', ks) := run s' rest in
      (s'', match k with Some k => k :: ks | None => ks end)
  end.

Definition fresh : bump_state := mkState (replicate 128 0) (Own []) [].

End Bumps.

(** ** Checks that do not overlap *)

(** Checks that run one after another, of any kinds: all end, every ordinary
    check debits the budget and publishes, and the switches are off again. *)
Theorem serial_checks_keep_switches ks :
  let s := Switches.run (Switches.idle false false ks) (Switches.in_turn 0 ks) in
  Switches.finished s /\ Switches.skip s = false /\ Switches.ignored s = false /\
  length (Switches.seen s) = length ks /\ Forall Switches.honest (Switches.seen s).
Proof.
  cbv zeta. pose proof (Switches.run_in_turn false false [] ks [] (fun _ => eq_refl)) as E. cbn [app length] in E.
  unfold Switches.idle. rewrite E. split; [apply Switches.map_finished|]. split; [done|]. split; [done|].
  split; [cbn; apply length_map|]. apply Forall_map, Forall_forall. by intros [] _.
Qed.

(** ** Checks that overlap *)

Definition overlap (k : Switches.kind) : list nat :=
  let n := match k with Switches.Smoke => 4%nat | _ => 2%nat end in
  replicate n 0%nat ++ replicate n 1%nat ++ Switches.alone 0 ++ Switches.alone 1.

(** Two overlapping smoke or partial-quota checks: the second runs with the
    switches off, so a smoke event is charged and a local-quota event is
    charged twice; and the budget switch stays on for good.  Until the fraud layer happens to clear it, every later ordinary
    check, run alone, is accepted without a debit; after two smoke checks its
    event is not written to the stream either. *)
Theorem overlapping_checks_stick k rest :
  k = Switches.Smoke \/ k = Switches.PartialQuota -> Switches.ShadowLayer ∉ rest ->
  exists sched,
    let s := Switches.run (Switches.idle false false (k :: k :: rest)) sched in
    let ig := bool_decide (k = Switches.Smoke) in
    Switches.finished s /\ Switches.skip s = true /\ Switches.ignored s = ig /\
    Switches.seen s = (k, true, ig) :: (k, false, false) :: map (Switches.sees true ig) rest.
Proof.
  intros Hk Hrest. exists (overlap k ++ Switches.in_turn 2 rest). cbv zeta.
  rewrite Switches.run_app. unfold Switches.idle. cbn [map].
  set (ig := bool_decide (k = Switches.Smoke)).
  assert (E : forall b, Switches.run (Switches.mkShared false false
      ((k, Switches.Begin) :: (k, Switches.Begin) :: b) []) (overlap k) =
    Switches.mkShared true ig ([(k, Switches.Finished); (k, Switches.Finished)] ++ b)
      [(k, true, ig); (k, false, false)]).
  { intros b. unfold ig. destruct Hk as [-> | ->]; vm_compute; reflexivity. }
  rewrite E. set (first := [(k, true, ig); (k, false, false)]).
  pose proof (Switches.run_in_turn true ig
    [(k, Switches.Finished); (k, Switches.Finished)] rest first) as E2. cbn [length] in E2.
  rewrite E2 by done. split; [|split; [done|split; [done|]]].
  - unfold Switches.finished. cbn. repeat constructor; try done. apply Switches.map_finished.
  - done.
Qed.

Lemma overlapping_checks_stick_witness :
  exists sched,
    let s := Switches.run (Switches.idle false false
      [Switches.Smoke; Switches.Smoke; Switches.Ordinary; Switches.Ordinary]) sched in
    let ig := bool_decide (Switches.Smoke = Switches.Smoke) in
    Switches.finished s /\ Switches.skip s = true /\ Switches.ignored s = ig /\
    Switches.seen s = (Switches.Smoke, true, ig) :: (Switches.Smoke, false, false) ::
      map (Switches.sees true ig) [Switches.Ordinary; Switches.Ordinary].
Proof. apply (overlapping_checks_stick Switches.Smoke); [by left|set_solver]. Defined.


(** ** Overlapping fills of the scratch *)

Import Wire RedisKeys DebitScripts UnifiedFilter DebitLedger.

(** The budget key of every campaign starts with its own id. *)
Lemma source_prefix uuid_String customer f c e :
  keys_built uuid_String customer c -> CampaignID e = ID (base c) ->
  exists y, budgetSourceKey f e c = 123 :: AppendUUID [] (ID (base c)) ++ y.
Proof.
  intros Hb He. destruct (source_shape uuid_String customer f c Hb e He) as [[y E]|[[y E]|[y E]]]; rewrite E;
    rewrite ?tag_head; rewrite <- ?app_assoc; eauto.
Qed.

Lemma tag_prefix id x : exists y, campaignHashTag id ++ x = 123 :: AppendUUID [] id ++ y.
Proof. rewrite tag_head, <- app_assoc. eauto. Qed.

Lemma uuid_len id : length id = 16%nat -> length (AppendUUID [] id) = 36%nat.
Proof.
  intros H. do 17 (destruct id as [|? id]; try discriminate H). reflexivity.
Qed.

Definition is_id (id : list Z) : Prop := length id = 16%nat /\ Forall is_byte id.

Lemma prefix_ne id id' x y :
  is_id id -> is_id id' -> id <> id' ->
  123 :: AppendUUID [] id ++ x <> 123 :: AppendUUID [] id' ++ y.
Proof.
  intros [Hl Hb] [Hl' Hb'] Hne [= H]. apply app_inj_1 in H as [H _]; [|by rewrite !uuid_len].
  by apply Hne, uuid_text_inj.
Qed.

(** Two workers check clicks of two campaigns and the second fills the
    scratch before the first has sent its command.  Both checks are accepted;
    the first campaign is not charged and its click not marked, the second is
    charged once. *)
Theorem overlapping_fills_lose_debit u1 cu1 u2 cu2 f c1 c2 e1 e2 a1 a2 s l b v :
  keys_built u1 cu1 c1 -> keys_built u2 cu2 c2 ->
  CampaignID e1 = ID (base c1) -> CampaignID e2 = ID (base c2) ->
  is_id (ID (base c1)) -> is_id (ID (base c2)) -> ID (base c1) <> ID (base c2) ->
  skipBudgetDebit f = false -> 0 < idempotencyTTL f ->
  implements f c2 e2 l s -> sized l b -> b + a2 <= max_i64 -> 0 <= a2 <= bal l ->
  ClickID e2 ∉ charged l -> ClickID e1 <> ClickID e2 ->
  kv s !! budgetSourceKey f e1 c1 = Some v -> kv s !! click_idempotency (ClickID e1) = None ->
  let st := Scratch.run f (Scratch.mkState s [] [] [])
              [Scratch.Fill 0 e1 c1 a1; Scratch.Fill 1 e2 c2 a2; Scratch.Send 0; Scratch.Send 1] in
  Scratch.replies st = [(0%nat, Some 0); (1%nat, Some 0)] /\
  kv (Scratch.store st) !! budgetSourceKey f e2 c2 = Some (RInt (bal l - a2)) /\
  kv (Scratch.store st) !! budgetSourceKey f e1 c1 = Some v /\
  kv (Scratch.store st) !! click_idempotency (ClickID e1) = None.
Proof.
  intros B1 B2 I1 I2 L1 L2 Hne Hskip Httl Him Hsz Hmax Ha Hfree Hcl Hv Hm.
  destruct (lstep_refines u2 cu2 f c2 e2 B2 I2 l s (Debit e2 a2) b) as (s' & E & Him' & _);
    [done|done|by split|done|cbn; lia|cbn; lia|].
  assert (Hf : with_skip f false = f) by (rewrite <- Hskip; by destruct f).
  cbn [sstep lstep op_event] in E, Him'. rewrite Hf in E.
  rewrite bool_decide_false in E, Him' by done. rewrite (proj2 (Z.ltb_ge (bal l) a2)) in E, Him' by lia.
  cbn [fst snd] in E, Him'.
  assert (E' : budget_fast (fast_keys f e2 c2) (fast_args f e2 c2 a2) s' = (s', Some 0)).
  { apply budget_fast_refuses. destruct Him' as [J1 _ _ J4 _ _].
    change (key (fast_keys f e2 c2) 1) with (budgetSourceKey f e2 c2).
    change (key (fast_keys f e2 c2) 2) with (click_idempotency (ClickID e2)).
    rewrite J1, J4. cbn [charged]. rewrite bool_decide_true; [done|]. apply elem_of_union_l. by apply elem_of_singleton. }
  cbn [Scratch.run foldl Scratch.scratch_step Scratch.store Scratch.keys Scratch.args Scratch.replies].
  rewrite E. cbn [Scratch.store Scratch.keys Scratch.args Scratch.replies app]. rewrite E'.
  cbn [Scratch.store Scratch.replies app]. split; [done|]. split; [apply Him'|].
  pose proof (fun k H1 H2 H3 H4 => budget_fast_frame (fast_keys f e2 c2) (fast_args f e2 c2 a2) k H1 H2 H3 H4 s) as Hfr.
  rewrite E in Hfr. cbn [fst] in Hfr.
  destruct (source_prefix u1 cu1 f c1 e1 B1 I1) as [y1 K1]. destruct (source_prefix u2 cu2 f c2 e2 B2 I2) as [y2 K2].
  destruct (tag_prefix (ID (base c2)) (lit "budget:sync:campaign:" ++ u2 (ID (base c2)))) as [y3 K3].

  destruct (tag_prefix (ID (base c2)) (lit "budget:sync:customer:" ++ u2 cu2)) as [y4 K4].
  rewrite <- (ck_shape u2 cu2 c2 B2) in K3. rewrite <- (uk_shape u2 cu2 c2 B2) in K4.
  split; (rewrite Hfr; [done| | | |]);
    change (key (fast_keys f e2 c2) 1) with (budgetSourceKey f e2 c2);
    change (key (fast_keys f e2 c2) 2) with (click_idempotency (ClickID e2));
    change (key (fast_keys f e2 c2) 3) with (CampaignSyncKey c2);
    change (key (fast_keys f e2 c2) 4) with (CustomerSyncKey c2);
    rewrite ?K1, ?K2, ?K3, ?K4; try (by apply prefix_ne); try (intros H; by apply (by_head 0) in H);
    try (apply (by_head 0); discriminate).
  intros H. apply Hcl. by apply (idem_inj).
Qed.

(** Another campaign's key does not matter to a campaign's ledger. *)
Lemma implements_foreign u cu f c e l s id y v :
  keys_built u cu c -> CampaignID e = ID (base c) -> is_id id -> is_id (ID (base c)) -> id <> ID (base c) ->
  implements f c e l s ->
  implements f c e l (with_kv s (<[123 :: AppendUUID [] id ++ y := v]> (kv s))).
Proof.
  intros B He L L' Hne [I1 I2 I3 I4 I5 I6].
  destruct (source_prefix u cu f c e B He) as [y1 K1].
  assert (K : forall x, 123 :: AppendUUID [] id ++ y <> campaignHashTag (ID (base c)) ++ x).
  { intros x. destruct (tag_prefix (ID (base c)) x) as [z ->]. by apply prefix_ne. }
  constructor; cbn [kv with_kv].
  - rewrite lookup_insert_ne; [done|]. rewrite K1. by apply prefix_ne.
  - rewrite counter_insert_ne; [done|]. rewrite (ck_shape u cu c B). apply K.
  - rewrite counter_insert_ne; [done|]. rewrite (uk_shape u cu c B). apply K.
  - intros k. rewrite lookup_insert_ne; [apply I4|]. apply (by_head 0). rewrite idem_head. discriminate.
  - intros k. rewrite lookup_insert_ne; [apply I5|]. apply K.
  - erewrite barred_ext; [exact I6|..]; (rewrite lookup_insert_ne; [done|]; apply (by_head 0); discriminate).
Qed.

Definition other_id : list Z := replicate 15 17 ++ [2].
Definition other_camp : FCampaign :=
  let b := mkCampaign other_id (replicate 16 34) 0 [] 0 0 in
  mkFCampaign b (budgetCampaignKey (AppendUUID []) other_id) (campaignSyncKey (AppendUUID []) other_id)
    (customerSyncKey (AppendUUID []) other_id (replicate 16 34)) [] [] [] [] false 0 0 0 false 0 0 0 true 1000 0.
Definition other_event (click : list Z) : Event :=
  mkEvent other_id (lit "u2") click (lit "click") [] [] [] 0 0 [].
Definition two_funded : Store :=
  with_kv (funded demo_filter demo_camp (demo_event (lit "b")) 100)
    (<[budgetSourceKey demo_filter (other_event (lit "a")) other_camp := RInt 70]>
       (kv (funded demo_filter demo_camp (demo_event (lit "b")) 100))).

Lemma overlapping_fills_lose_debit_witness :
  let st := Scratch.run demo_filter (Scratch.mkState two_funded [] [] [])
              [Scratch.Fill 0 (other_event (lit "a")) other_camp 10;
               Scratch.Fill 1 (demo_event (lit "b")) demo_camp 10; Scratch.Send 0; Scratch.Send 1] in
  Scratch.replies st = [(0%nat, Some 0); (1%nat, Some 0)] /\
  kv (Scratch.store st) !! budgetSourceKey demo_filter (demo_event (lit "b")) demo_camp = Some (RInt (100 - 10)) /\
  kv (Scratch.store st) !! budgetSourceKey demo_filter (other_event (lit "a")) other_camp = Some (RInt 70) /\
  kv (Scratch.store st) !! click_idempotency (ClickID (other_event (lit "a"))) = None.
Proof.
  assert (Hid : forall n, 0 <= n < 256 -> is_id (replicate 15 17 ++ [n])).
  { intros n Hn. split; [done|]. unfold is_byte. repeat constructor; lia. }
  apply (overlapping_fills_lose_debit (AppendUUID []) (replicate 16 34) (AppendUUID []) (replicate 16 34)
    demo_filter other_camp demo_camp (other_event (lit "a")) (demo_event (lit "b")) 10 10 two_funded
    (mkLedger 100 0 0 ∅ ∅) 100 (RInt 70)); try reflexivity; try lia; try discriminate;
    try apply demo_built; try (apply Hid; lia); try set_solver; try (unfold sized; cbn; lia);
    try (unfold max_i64; lia); try (by constructor).
  destruct (source_prefix (AppendUUID []) (replicate 16 34) demo_filter other_camp (other_event (lit "a")))
    as [y K]; [by constructor|done|].
  unfold two_funded. rewrite K. apply (implements_foreign (AppendUUID []) (replicate 16 34));
    [apply demo_built|done|apply Hid; lia|apply Hid; lia|discriminate|].
  apply (funded_implements (AppendUUID []) (replicate 16 34)); [apply demo_built|done].
Defined.

(** ** Overlapping frequency bumps *)

(** A key that fits the buffer is queued as a reference to the buffer. *)
Lemma schedule_alias s p u w :
  0 < zlen (p ++ u) <= Bumps.buffer_cap -> 0 < w -> zlen (Bumps.queue s) < Bumps.queue_cap ->
  Bumps.fcapKeyVal s = Bumps.Own [] \/ Bumps.fcapKeyVal s = Bumps.Alias (length (p ++ u)) ->
  Bumps.schedule s p u w =
    Bumps.mkState ((p ++ u) ++ drop (length (p ++ u)) (Bumps.buffer s)) (Bumps.Alias (length (p ++ u)))
      (Bumps.queue s ++ [Bumps.Alias (length (p ++ u))]).
Proof.
  intros Hk Hw Hq Hv. unfold Bumps.schedule. cbv zeta. generalize dependent (p ++ u). intros k Hk Hv.
  rewrite (proj2 (Z.leb_le _ Bumps.buffer_cap)) by lia.
  assert (Ha : Bumps.assignBufKey (Bumps.mkState (k ++ drop (length k) (Bumps.buffer s)) (Bumps.fcapKeyVal s)
    (Bumps.queue s)) (Bumps.Alias (length k)) = Bumps.Alias (length k)).
  { unfold Bumps.assignBufKey. cbn [Bumps.fcapKeyVal]. destruct Hv as [-> | ->]; [|by case_if].
    cbn [Bumps.bytes Bumps.buffer]. rewrite take_app_length.
    change (zlen (@nil Z)) with 0. by rewrite (proj2 (Z.eqb_neq 0 (zlen k))) by lia. }
  rewrite Ha. cbn [Bumps.bytes Bumps.buffer Bumps.queue]. rewrite take_app_length.
  rewrite bool_decide_false by (intros ->; unfold zlen in Hk; cbn in Hk; lia).
  rewrite (proj2 (Z.leb_gt w 0)), (proj2 (Z.ltb_lt _ _) Hq) by lia. done.
Qed.

Lemma schedule_many n jobs s :
  (0 < n <= 128)%nat ->
  Forall (fun j : list Z * list Z => length (fst j ++ snd j) = n) jobs ->
  zlen (Bumps.queue s) + zlen jobs <= Bumps.queue_cap ->
  Bumps.fcapKeyVal s = Bumps.Own [] \/ Bumps.fcapKeyVal s = Bumps.Alias n ->
  exists v tail,
    fst (Bumps.run s (map (fun j => Bumps.Schedule (fst j) (snd j) 60) jobs)) =
    Bumps.mkState (default (take n (Bumps.buffer s)) (last (map (fun j => fst j ++ snd j) jobs)) ++ tail) v
      (Bumps.queue s ++ replicate (length jobs) (Bumps.Alias n)).
Proof.
  intros Hn Hjobs. revert s. induction Hjobs as [|[p u] jobs Hj Hjobs IH]; intros s Hq Hv.
  - exists (Bumps.fcapKeyVal s), (drop n (Bumps.buffer s)). cbn. rewrite take_drop, app_nil_r. by destruct s.
  - cbn [fst snd] in Hj. cbn [map Bumps.run fst snd].
    assert (Hz : zlen ((p, u) :: jobs) = 1 + zlen jobs) by (unfold zlen; cbn [length]; lia).
    assert (Hz' : 0 <= zlen jobs) by apply zlen_nonneg.
    rewrite schedule_alias; [|unfold zlen, Bumps.buffer_cap in *; lia|lia|lia|by rewrite Hj].
    rewrite Hj. set (s1 := Bumps.mkState _ _ (_ ++ [Bumps.Alias n])).
    destruct (IH s1) as (v & tail & E); [|by right|].
    { unfold s1. cbn [Bumps.queue]. rewrite zlen_app. change (zlen [Bumps.Alias n]) with 1. lia. }
    exists v, tail. rewrite E. unfold s1. cbn [Bumps.buffer Bumps.queue]. f_equal.
    + f_equal. cbn [map fst snd]. rewrite last_cons.
      destruct (last (map (fun j => fst j ++ snd j) jobs)); [done|]. cbn.
      rewrite take_app_le by lia. rewrite <- Hj. by rewrite take_ge.
    + rewrite <- app_assoc. done.
Qed.

Lemma work_many b v n m :
  (n <= length b)%nat ->
  snd (Bumps.run (Bumps.mkState b v (replicate m (Bumps.Alias n))) (replicate m Bumps.Work)) =
  replicate m (take n b).
Proof.
  intros Hn. induction m as [|m IH]; [done|]. cbn [replicate Bumps.run Bumps.work Bumps.queue].
  destruct (Bumps.run _ _) as [s ks] eqn:E. cbn in *. by rewrite IH.
Qed.

Lemma bumps_run_app s a b :
  Bumps.run s (a ++ b) =
  (fst (Bumps.run (fst (Bumps.run s a)) b), snd (Bumps.run s a) ++ snd (Bumps.run (fst (Bumps.run s a)) b)).
Proof.
  revert s. induction a as [|o a IH]; intros s; cbn [app Bumps.run]; [cbn; by destruct (Bumps.run s b)|].
  destruct o as [p u w|]; [apply IH|]. destruct (Bumps.work s) as [s1 k]. rewrite IH.
  destruct (Bumps.run s1 a) as [s2 ks]. cbn [fst snd]. destruct k; by rewrite ?app_comm_cons.
Qed.

Lemma schedules_return_nothing jobs s :
  snd (Bumps.run s (map (fun j : list Z * list Z => Bumps.Schedule (fst j) (snd j) 60) jobs)) = [].
Proof. revert s. induction jobs as [|j jobs IH]; intros s; [done|]. cbn. apply IH. Qed.

(** The bumps that wait in the queue share one buffer: when the worker runs
    after several accepts of users whose keys have one length, it increments
    the counter of the last user once per accept, and no other counter. *)
Theorem queued_bumps_hit_last_user n jobs p u :
  (0 < n <= 128)%nat -> Forall (fun j : list Z * list Z => length (fst j ++ snd j) = n) jobs ->
  last jobs = Some (p, u) -> zlen jobs <= Bumps.queue_cap ->
  snd (Bumps.run Bumps.fresh (map (fun j => Bumps.Schedule (fst j) (snd j) 60) jobs ++
                              replicate (length jobs) Bumps.Work)) =
  replicate (length jobs) (p ++ u).
Proof.
  intros Hn Hjobs Hlast Hq. rewrite bumps_run_app. cbn [snd].
  destruct (schedule_many n jobs Bumps.fresh Hn Hjobs) as (v & tail & E); [change (zlen (Bumps.queue Bumps.fresh)) with 0; lia|by left|].
  rewrite schedules_return_nothing, E. cbn [app Bumps.queue Bumps.fresh].
  change (map (fun j : list Z * list Z => fst j ++ snd j) jobs) with ((fun j : list Z * list Z => fst j ++ snd j) <$> jobs).
  rewrite fmap_last, Hlast. cbn [fmap option_fmap option_map from_option id fst snd].
  assert (Hl : length (p ++ u) = n).
  { rewrite Forall_forall in Hjobs. apply (Hjobs (p, u)). apply last_Some_elem_of. exact Hlast. }
  rewrite work_many by (rewrite length_app; lia). by rewrite take_app_le, <- Hl, take_ge by lia.
Qed.

(** Bumps done one at a time count the right user. *)
Theorem prompt_bumps_exact jobs n :
  (0 < n <= 128)%nat -> Forall (fun j : list Z * list Z => length (fst j ++ snd j) = n) jobs ->
  snd (Bumps.run Bumps.fresh (mjoin (map (fun j => [Bumps.Schedule (fst j) (snd j) 60; Bumps.Work]) jobs))) =
  map (fun j => fst j ++ snd j) jobs.
Proof.
  intros Hn Hjobs.
  assert (Hgen : forall s, Bumps.queue s = [] ->
    Bumps.fcapKeyVal s = Bumps.Own [] \/ Bumps.fcapKeyVal s = Bumps.Alias n ->
    snd (Bumps.run s (mjoin (map (fun j => [Bumps.Schedule (fst j) (snd j) 60; Bumps.Work]) jobs))) =
    map (fun j => fst j ++ snd j) jobs).
  { induction Hjobs as [|[p u] jobs Hj Hjobs IH]; intros s Hq Hv; [done|]. cbn [fst snd] in Hj.
    cbn [map mjoin list_join app Bumps.run fst snd].
    rewrite schedule_alias; [|unfold zlen, Bumps.buffer_cap; lia|lia|by rewrite Hq|by rewrite Hj].
    rewrite Hq. cbn [app Bumps.work Bumps.queue].
    set (s1 := Bumps.mkState _ _ []). specialize (IH s1 eq_refl).
    cbn [mjoin] in IH. destruct (Bumps.run s1 _) as [s2 ks] eqn:E2. cbn [snd] in *. rewrite IH by (right; by rewrite <- Hj).
    f_equal. cbn. by rewrite take_app_length. }
  by apply Hgen; [|left].
Qed.

Definition demo_jobs : list (list Z * list Z) :=
  [(lit "fcap:c:1:u:", lit "alice"); (lit "fcap:c:2:u:", lit "bobby"); (lit "fcap:c:1:u:", lit "carol")].

Lemma queued_bumps_hit_last_user_witness :
  snd (Bumps.run Bumps.fresh (map (fun j => Bumps.Schedule (fst j) (snd j) 60) demo_jobs ++
                              replicate (length demo_jobs) Bumps.Work)) =
  replicate (length demo_jobs) (lit "fcap:c:1:u:" ++ lit "carol").
Proof.
  apply (queued_bumps_hit_last_user 16 demo_jobs); [lia|by repeat constructor|reflexivity|].
  vm_compute. discriminate.
Defined.

Lemma prompt_bumps_exact_witness :
  snd (Bumps.run Bumps.fresh (mjoin (map (fun j => [Bumps.Schedule (fst j) (snd j) 60; Bumps.Work]) demo_jobs))) =
  map (fun j => fst j ++ snd j) demo_jobs.
Proof. apply (prompt_bumps_exact demo_jobs 16); [lia|by repeat constructor]. Defined.

End SharedFilter.
