(* ===== verification/SqlTx.v ===== *)
(** * Database transactions

    The monad in which the services that keep their state in Postgres are
    written: a transaction is a function of the database that returns an
    error or a result with the database it leaves.  [BeginFunc] is pgx's:
    the transaction commits when the function returns nil and is rolled back
    otherwise.  [tx_inv] takes a successful run apart. *)

From S2P Require Import Prelude.
Open Scope Z_scope.

Module SqlTx.

Section tx.
Context {S E : Type}.

Definition M (A : Type) : Type := S -> E + (A * S).

Definition ret {A} (a : A) : M A := fun s => inr (a, s).
Definition raise {A} (e : E) : M A := fun _ => inl e.
Definition bind {A B} (m : M A) (f : A -> M B) : M B :=
  fun s => match m s with inl e => inl e | inr (a, s') => f a s' end.
Definition read {A} (q : S -> A) : M A := fun s => inr (q s, s).
Definition modify (f : S -> S) : M unit := fun s => inr (tt, f s).
Definition guard (b : bool) (e : E) : M unit := if b then ret tt else raise e.
Definition lift {A} (o : option A) (e : E) : M A :=
  match o with Some a => ret a | None => raise e end.

(** Commit on success, roll back on error. *)
Definition BeginFunc {A} (m : M A) (s : S) : (E + A) * S :=
  match m s with inl e => (inl e, s) | inr (a, s') => (inr a, s') end.

(** What every successful run of [m] from a state of [P] guarantees. *)
Definition triple {A} (P : S -> Prop) (m : M A) (Q : A -> S -> Prop) : Prop :=
  forall s a s', P s -> m s = inr (a, s') -> Q a s'.

Definition preserves {A} (I : S -> Prop) (m : M A) : Prop := triple I m (fun _ => I).

Lemma bind_inr {A B} (m : M A) (f : A -> M B) s r :
  bind m f s = inr r <-> exists a s', m s = inr (a, s') /\ f a s' = inr r.
Proof.
  unfold bind. destruct (m s) as [e|[a s']]; split.
  - done.
  - by intros (? & ? & ? & ?).
  - eauto.
  - by intros (? & ? & [= <- <-] & ?).
Qed.

Lemma guard_inr b e s (r : unit * S) : guard b e s = inr r <-> b = true /\ r = (tt, s).
Proof. unfold guard, ret, raise. destruct b; naive_solver. Qed.

Lemma lift_inr {A} (o : option A) e s r : lift o e s = inr r <-> exists a, o = Some a /\ r = (a, s).
Proof. unfold lift, ret, raise. destruct o; naive_solver. Qed.

Lemma preserves_bind {A B} I (m : M A) (f : A -> M B) :
  preserves I m -> (forall a, preserves I (f a)) -> preserves I (bind m f).
Proof.
  intros Hm Hf s b s' HI (a & s1 & H1 & H2)%bind_inr. eapply Hf; [|exact H2]. eapply Hm; eauto.
Qed.

Lemma preserves_read {A} I (q : S -> A) : preserves I (read q).
Proof. by intros s a s' HI [= <- <-]. Qed.

Lemma preserves_ret {A} I (a : A) : preserves I (ret a).
Proof. by intros s a' s' HI [= <- <-]. Qed.

Lemma preserves_raise {A} I (e : E) : preserves I (raise (A := A) e).
Proof. done. Qed.

Lemma BeginFunc_preserves {A} I (m : M A) s :
  preserves I m -> I s -> I (snd (BeginFunc m s)).
Proof.
  intros Hm HI. unfold BeginFunc. destruct (m s) as [e|[a s']] eqn:H; [done|]. eapply Hm; eauto.
Qed.

(** A failed transaction leaves the database as it was. *)
Lemma BeginFunc_error {A} (m : M A) s e s' : BeginFunc m s = (inl e, s') -> s' = s.
Proof. unfold BeginFunc. destruct (m s) as [e'|[a s'']]; congruence. Qed.

Lemma BeginFunc_ok {A} (m : M A) s a s' : BeginFunc m s = (inr a, s') <-> m s = inr (a, s').
Proof. unfold BeginFunc. destruct (m s) as [e'|[a' s'']]; split; congruence. Qed.

End tx.

Arguments M : clear implicits.

Create HintDb tx discriminated.
#[export] Hint Resolve preserves_read preserves_ret preserves_raise preserves_bind : tx.

Notation "'let!' x := m 'in' k" := (bind m (fun x => k))
  (at level 10, x name, m at level 100, k at level 200) : go_scope.
Notation "m ;; k" := (bind m (fun _ => k))
  (at level 100, k at level 200, right associativity) : go_scope.

(** [tx_inv H] splits [H : m s = inr r] along the binds of [m]. *)
Ltac tx_inv H :=
  lazymatch type of H with
  | bind _ _ _ = inr _ =>
      let a := fresh "a" in let s := fresh "s" in
      let H1 := fresh "Htx" in let H2 := fresh "Htx" in
      apply bind_inr in H; destruct H as (a & s & H1 & H2); tx_inv H1; tx_inv H2
  | guard _ _ _ = inr _ =>
      apply guard_inr in H;
      let E := fresh "Heq" in destruct H as [H E]; first [discriminate E | injection E as ? ?]; subst;
      first [apply bool_decide_eq_true in H | apply negb_true_iff in H
            | apply Z.leb_le in H | apply Z.ltb_lt in H | idtac]
  | lift _ _ _ = inr _ =>
      apply lift_inr in H;
      let a := fresh "a" in let E := fresh "Heq" in destruct H as (a & H & E); injection E as ? ?; subst
  | read _ _ = inr _ => unfold read in H; injection H as ? ?; subst
  | ret _ _ = inr _ => unfold ret in H; injection H as ? ?; subst
  | modify _ _ = inr _ => unfold modify in H; injection H as ? ?; subst
  | raise _ _ = inr _ => discriminate H
  | (match ?x with _ => _ end) _ = inr _ =>
      let E := fresh "Hm" in destruct x eqn:E; tx_inv H
  | _ => idtac
  end.

End SqlTx.
