(* ===== verification/PaymentLedger.v ===== *)
(** * The balance ledger and its payment movements

    Models [internal/billingadmin/ledger_mutations.go], the queries it runs
    ([internal/ingest/queries/management.sql]) with the constraints of their
    tables ([internal/ingest/migrations]), and the drift check of
    [internal/ledger/ledger_invariant_assert.go].  Tables are maps and lists
    of rows; an id is its canonical text; a [BIGINT] that leaves its width
    and a violated constraint are errors that roll the transaction back.
    The value drawn from the id sequence is an input of each call. *)

From S2P Require Import Prelude SqlTx.
Open Scope Z_scope.

Module PaymentLedger.

Import SqlTx.

#[local] Abbreviation UUID := string (only parsing).

Inductive LedgerType :=
  | TOPUP | FREEZE | RELEASE | FEE | REFUND | RECONCILIATION_ADJUST | CTV_GTAX
  | PAYMENT_TOPUP | PAYMENT_REFUND | PAYMENT_CHARGEBACK | PAYMENT_CHARGEBACK_REVERSAL
  | rtb_cost | operator_margin | publisher_payout.

#[export] Instance LedgerType_eq_dec : EqDecision LedgerType.
Proof. solve_decision. Defined.

Inductive CampaignStatus := ACTIVE | PAUSED | EXHAUSTED | DRAINING | DELETED | ARCHIVED.

#[export] Instance CampaignStatus_eq_dec : EqDecision CampaignStatus.
Proof. solve_decision. Defined.

Record Entry := mkEntry {
  e_id : Z; customer_id : UUID; campaign_id : option UUID; amount : Z; type : LedgerType;
  idempotency_hash : option string; payment_intent_id : option UUID }.

Record Customer := mkCustomer { balance : Z; allowed_overdraft : Z }.

Record Campaign := mkCampaign { status : CampaignStatus; budget_limit : Z; current_spend : Z }.

(** The tables; [outbox] holds the campaigns of the PAUSE_CAMPAIGN events. *)
Record DB := mkDB {
  customers : gmap UUID Customer; campaigns : gmap UUID Campaign; balance_ledger : list Entry;
  status_history : list UUID; outbox : list UUID }.

Inductive Err :=
  | ErrFencing | ErrValidation | ErrCustomerNotFound | ErrPaymentTopupNotFound
  | ErrRefundExceedsTopup | ErrChargebackExceedsTopup | ErrChargebackReversalExceedsWithdrawn
  | ErrNoRows | ErrUnique | ErrDB.

#[export] Instance Err_eq_dec : EqDecision Err.
Proof. solve_decision. Defined.

#[local] Abbreviation M := (SqlTx.M DB Err).

(** ** Queries *)

Definition with_customers (m : gmap UUID Customer) (d : DB) : DB :=
  mkDB m (campaigns d) (balance_ledger d) (status_history d) (outbox d).
Definition with_ledger (l : list Entry) (d : DB) : DB :=
  mkDB (customers d) (campaigns d) l (status_history d) (outbox d).

Definition has_hash (h : string) (e : Entry) : bool := bool_decide (idempotency_hash e = Some h).
Definition of_intent (t : LedgerType) (i : UUID) (e : Entry) : bool :=
  bool_decide (type e = t) && bool_decide (payment_intent_id e = Some i).

Definition GetLedgerByHashForUpdate (h : string) (d : DB) : option Entry :=
  List.find (has_hash h) (balance_ledger d).
Definition GetLedgerByPaymentIntentForUpdate (i : UUID) (d : DB) : option Entry :=
  List.find (of_intent PAYMENT_TOPUP i) (balance_ledger d).

(** The sum of a column over the rows of a type and intent. *)
Definition sum_intent (t : LedgerType) (f : Z -> Z) (i : UUID) (l : list Entry) : Z :=
  sumZ (map (fun e => if of_intent t i e then f (amount e) else 0) l).

(** [SUM(...)::bigint]. *)
Definition bigint (z : Z) : M Z := guard (bool_decide (in_i64 z)) ErrDB ;; ret z.

Definition SumPaymentRefundAmountForIntent (i : UUID) : M Z :=
  let! d := read id in bigint (sum_intent PAYMENT_REFUND Z.abs i (balance_ledger d)).
Definition SumPaymentChargebackAmountForIntent (i : UUID) : M Z :=
  let! d := read id in bigint (sum_intent PAYMENT_CHARGEBACK Z.abs i (balance_ledger d)).
Definition SumPaymentChargebackReversalAmountForIntent (i : UUID) : M Z :=
  let! d := read id in bigint (sum_intent PAYMENT_CHARGEBACK_REVERSAL (fun z => z) i (balance_ledger d)).

(** [chk_allowed_balance]. *)
Definition customer_ok (c : Customer) : Prop :=
  in_i64 (balance c) /\ in_i64 (balance c + allowed_overdraft c) /\ 0 <= balance c + allowed_overdraft c.

#[export] Instance customer_ok_dec c : Decision (customer_ok c).
Proof. unfold customer_ok, in_i64. apply _. Defined.

Definition put_customer (id : UUID) (c : Customer) : M unit :=
  guard (bool_decide (customer_ok c)) ErrDB ;;
  modify (fun d => with_customers (<[id := c]> (customers d)) d).

Definition UpdateCustomerBalanceManagement (id : UUID) (delta : Z) (missing : Err) : M unit :=
  let! d := read (fun d => d) in
  let! c := lift (customers d !! id) missing in
  put_customer id (mkCustomer (balance c + delta) (allowed_overdraft c)).

Definition UpdateCustomerOverdraft (id : UUID) (ov : Z) : M unit :=
  let! d := read (fun d => d) in
  let! c := lift (customers d !! id) ErrNoRows in
  put_customer id (mkCustomer (balance c) ov).

(** The unique columns: [idempotency_hash], and [payment_intent_id] among the
    top-ups. *)
Definition topup_intent (e : Entry) : option UUID :=
  if bool_decide (type e = PAYMENT_TOPUP) then payment_intent_id e else None.
Definition clashes (e e' : Entry) : bool :=
  (bool_decide (idempotency_hash e <> None) && bool_decide (idempotency_hash e = idempotency_hash e'))
  || (bool_decide (topup_intent e <> None) && bool_decide (topup_intent e = topup_intent e')).

Definition CreateLedgerEntry (e : Entry) : M Z :=
  let! d := read (fun d => d) in
  guard (bool_decide (is_Some (customers d !! customer_id e))) ErrDB ;;
  guard (negb (existsb (clashes e) (balance_ledger d))) ErrUnique ;;
  modify (fun d => with_ledger (balance_ledger d ++ [e]) d) ;;
  ret (e_id e).

(** ** Movements

    Every movement changes a balance and appends the entry that explains it.
    After [ErrUnique] the transaction is aborted and the lookups of the
    source's fallback fail, so the error is returned. *)
Definition post (missing : Err) (e : Entry) : M Z :=
  UpdateCustomerBalanceManagement (customer_id e) (amount e) missing ;; CreateLedgerEntry e.

Definition found (o : option Entry) (k : M (bool * Z)) : M (bool * Z) :=
  match o with Some e => ret (false, e_id e) | None => k end.
Definition applied (m : M Z) : M (bool * Z) := let! id := m in ret (true, id).

Definition topup_write (seq : Z) (cust : UUID) (amt : Z) (key : string) : M Z :=
  post ErrDB (mkEntry seq cust None amt TOPUP (Some key) None).

Definition TopUpBalance (fenced : bool) (seq : Z) (cust : UUID) (amt : Z) (key : string) : M (bool * Z) :=
  guard (negb fenced) ErrFencing ;;
  let! existing := read (GetLedgerByHashForUpdate key) in
  found existing (applied (topup_write seq cust amt key)).

Definition credit_write (seq : Z) (cust : UUID) (amt : Z) (key : string) (intent : UUID) : M Z :=
  post ErrCustomerNotFound (mkEntry seq cust None amt PAYMENT_TOPUP (Some key) (Some intent)).

Definition ApplyPaymentCredit (fenced : bool) (seq : Z) (cust : UUID) (amt : Z) (key : string)
    (intent : UUID) : M (bool * Z) :=
  guard (negb fenced) ErrFencing ;;
  let! existingPI := read (GetLedgerByPaymentIntentForUpdate intent) in
  found existingPI (
    let! existing := read (GetLedgerByHashForUpdate key) in
    found existing (applied (credit_write seq cust amt key intent))).

Definition refund_write (seq : Z) (cust : UUID) (amt : Z) (key : string) (intent : UUID) : M Z :=
  let! t := read (GetLedgerByPaymentIntentForUpdate intent) in
  let! topup := lift t ErrPaymentTopupNotFound in
  let! refundedSoFar := SumPaymentRefundAmountForIntent intent in
  guard (refundedSoFar +64 amt <=? amount topup) ErrRefundExceedsTopup ;;
  post ErrCustomerNotFound (mkEntry seq cust None (i64 (- amt)) PAYMENT_REFUND (Some key) (Some intent)).

Definition ApplyPaymentRefund (fenced : bool) (seq : Z) (cust : UUID) (amt : Z) (key : string)
    (intent : UUID) : M (bool * Z) :=
  guard (negb fenced) ErrFencing ;;
  guard (0 <? amt) ErrValidation ;;
  let! existing := read (GetLedgerByHashForUpdate key) in
  found existing (applied (refund_write seq cust amt key intent)).

Definition chargeback_type (isDebit : bool) : LedgerType :=
  if isDebit then PAYMENT_CHARGEBACK else PAYMENT_CHARGEBACK_REVERSAL.

Definition chargeback_write (seq : Z) (cust : UUID) (amt : Z) (key : string) (intent : UUID)
    (isDebit : bool) : M Z :=
  let! t := read (GetLedgerByPaymentIntentForUpdate intent) in
  let! topup := lift t ErrPaymentTopupNotFound in
  let! refundedSoFar := SumPaymentRefundAmountForIntent intent in
  let! chargebackSoFar := SumPaymentChargebackAmountForIntent intent in
  let! reversalSoFar := SumPaymentChargebackReversalAmountForIntent intent in
  let netChargeback := chargebackSoFar -64 reversalSoFar in
  (if isDebit
   then guard (refundedSoFar +64 netChargeback +64 amt <=? amount topup) ErrChargebackExceedsTopup
   else guard (amt <=? netChargeback) ErrChargebackReversalExceedsWithdrawn) ;;
  post ErrCustomerNotFound
    (mkEntry seq cust None (if isDebit then i64 (- amt) else amt) (chargeback_type isDebit)
       (Some key) (Some intent)).

Definition applyPaymentChargebackMovement (fenced : bool) (seq : Z) (cust : UUID) (amt : Z)
    (key : string) (intent : UUID) (isDebit : bool) : M (bool * Z) :=
  guard (negb fenced) ErrFencing ;;
  guard (0 <? amt) ErrValidation ;;
  let! existing := read (GetLedgerByHashForUpdate key) in
  found existing (applied (chargeback_write seq cust amt key intent isDebit)).

Definition ApplyPaymentChargeback fenced seq cust amt key intent :=
  applyPaymentChargebackMovement fenced seq cust amt key intent true.
Definition ApplyPaymentChargebackReversal fenced seq cust amt key intent :=
  applyPaymentChargebackMovement fenced seq cust amt key intent false.

(** ** Overdraft *)

Definition pause_campaign (id : UUID) (c : Campaign) : M unit :=
  modify (fun d => mkDB (customers d) (<[id := mkCampaign PAUSED (budget_limit c) (current_spend c)]> (campaigns d))
                        (balance_ledger d) (status_history d ++ [id]) (outbox d)).
Definition emit_pause (id : UUID) : M unit :=
  modify (fun d => mkDB (customers d) (campaigns d) (balance_ledger d) (status_history d) (outbox d ++ [id])).

Definition remaining_budget (c : Campaign) : Z := Z.max 0 (budget_limit c -64 current_spend c).

Definition release (seq : Z) (cust camp : UUID) (amt : Z) : M Z :=
  post ErrDB (mkEntry seq cust (Some camp) amt RELEASE None None).

(** The loop over the rows [ListCampaigns] returned, each with the value the
    id sequence has for its entry. *)
Fixpoint suspend (cust : UUID) (camps : list (UUID * Z)) (availableLimit : Z) : M Z :=
  match camps with
  | [] => ret availableLimit
  | (id, seq) :: rest =>
      if 0 <=? availableLimit then ret availableLimit
      else
        let! d := read (fun d => d) in
        let! locked := lift (campaigns d !! id) ErrNoRows in
        if bool_decide (status locked <> ACTIVE) then suspend cust rest availableLimit
        else
          pause_campaign id locked ;;
          let remaining := remaining_budget locked in
          (if 0 <? remaining then release seq cust id remaining ;; ret tt else ret tt) ;;
          emit_pause id ;;
          suspend cust rest (if 0 <? remaining then availableLimit +64 remaining else availableLimit)
  end.

Definition UpdateOverdraft (cust : UUID) (newOverdraft : Z) (camps : list (UUID * Z)) : M unit :=
  let! d := read (fun d => d) in
  let! c := lift (customers d !! cust) ErrNoRows in
  let prevOverdraft := allowed_overdraft c in
  if newOverdraft =? prevOverdraft then ret tt
  else
    let availableLimit := balance c +64 newOverdraft in
    (if (newOverdraft <? prevOverdraft) && (availableLimit <? 0)
     then suspend cust (take (Z.to_nat 10000) camps) availableLimit ;; ret tt else ret tt) ;;
    UpdateCustomerOverdraft cust newOverdraft.

(** ** Reading the ledger *)

Definition GetLedgerEntry (i : UUID) : M (option Entry * Z * Z * Z) :=
  let! entry := read (GetLedgerByPaymentIntentForUpdate i) in
  let! refundTotal := SumPaymentRefundAmountForIntent i in
  let! chargebackTotal := SumPaymentChargebackAmountForIntent i in
  let! reversalTotal := SumPaymentChargebackReversalAmountForIntent i in
  ret (entry, refundTotal, chargebackTotal, reversalTotal).

(** The entries the drift check adds up: all but the margin legs. *)
Definition counted (c : UUID) (e : Entry) : bool :=
  bool_decide (customer_id e = c) &&
  negb (bool_decide (type e = rtb_cost) || bool_decide (type e = operator_margin)
        || bool_decide (type e = publisher_payout)).
Definition ledger_sum (c : UUID) (d : DB) : Z :=
  sumZ (map (fun e => if counted c e then amount e else 0) (balance_ledger d)).

Definition ReadLedgerInvariant (c : UUID) (d : DB) : option (Z * Z) :=
  r ← customers d !! c; Some (balance r, ledger_sum c d).

Definition ledgerInvariantToleranceMicro : Z := 1.

Definition CheckLedgerBalanceInvariant (c : UUID) (d : DB) : bool :=
  match ReadLedgerInvariant c d with
  | None => false
  | Some (b, s) =>
      let diff := b -64 s in
      negb ((diff <? - ledgerInvariantToleranceMicro) || (ledgerInvariantToleranceMicro <? diff))
  end.

(** ** Concurrent requests

    A request first looks its keys up and, finding none, later writes.  The
    writes of a movement run as one step: the row lock of the top-up orders
    those of an intent, the lock of the customer row those of a customer.
    Between lookup and write any other request may commit. *)
Inductive Req :=
  | RTopUp (cust : UUID) (amt : Z) (key : string)
  | RCredit (cust : UUID) (amt : Z) (key : string) (intent : UUID)
  | RRefund (cust : UUID) (amt : Z) (key : string) (intent : UUID)
  | RChargeback (cust : UUID) (amt : Z) (key : string) (intent : UUID) (isDebit : bool).

Definition req_amount (r : Req) : Z :=
  match r with
  | RTopUp _ a _ | RCredit _ a _ _ | RRefund _ a _ _ | RChargeback _ a _ _ _ => a
  end.
Definition req_key (r : Req) : string :=
  match r with
  | RTopUp _ _ k | RCredit _ _ k _ | RRefund _ _ k _ | RChargeback _ _ k _ _ => k
  end.

Definition lookup_req (r : Req) (d : DB) : option Entry :=
  match r with
  | RCredit _ _ key intent =>
      match GetLedgerByPaymentIntentForUpdate intent d with
      | Some e => Some e
      | None => GetLedgerByHashForUpdate key d
      end
  | _ => GetLedgerByHashForUpdate (req_key r) d
  end.

Definition write_req (seq : Z) (r : Req) : M Z :=
  match r with
  | RTopUp c a k => topup_write seq c a k
  | RCredit c a k i => credit_write seq c a k i
  | RRefund c a k i => refund_write seq c a k i
  | RChargeback c a k i b => chargeback_write seq c a k i b
  end.

(** A request as the service runs it when nothing interferes. *)
Definition run_req (fenced : bool) (seq : Z) (r : Req) : M (bool * Z) :=
  match r with
  | RTopUp c a k => TopUpBalance fenced seq c a k
  | RCredit c a k i => ApplyPaymentCredit fenced seq c a k i
  | RRefund c a k i => ApplyPaymentRefund fenced seq c a k i
  | RChargeback c a k i b => applyPaymentChargebackMovement fenced seq c a k i b
  end.

(** Amounts a provider can send: positive and below 2^61 micro-units.  A
    top-up by an administrator may be of either sign. *)
Definition req_ok (r : Req) : Prop :=
  match r with
  | RTopUp _ a _ => in_i64 a
  | _ => 0 < req_amount r < 2305843009213693952
  end.

Record Sys := mkSys { db : DB; waiting : list Req }.

Inductive sstep : Sys -> Sys -> Prop :=
  | ss_lookup s r :
      req_ok r -> lookup_req r (db s) = None -> sstep s (mkSys (db s) (r :: waiting s))
  | ss_write s l1 r l2 seq :
      waiting s = l1 ++ r :: l2 ->
      sstep s (mkSys (snd (BeginFunc (write_req seq r) (db s))) (l1 ++ l2))
  | ss_abort s l1 r l2 :
      waiting s = l1 ++ r :: l2 -> sstep s (mkSys (db s) (l1 ++ l2))
  | ss_overdraft s c ov camps :
      sstep s (mkSys (snd (BeginFunc (UpdateOverdraft c ov camps) (db s))) (waiting s)).

Definition sreach : Sys -> Sys -> Prop := rtc sstep.

(** ** What a movement does *)

Definition posted (e : Entry) (c : Customer) (d : DB) : DB :=
  mkDB (<[customer_id e := mkCustomer (balance c + amount e) (allowed_overdraft c)]> (customers d))
    (campaigns d) (balance_ledger d ++ [e]) (status_history d) (outbox d).

Definition post_ok (e : Entry) (c : Customer) (d : DB) : Prop :=
  customers d !! customer_id e = Some c /\
  customer_ok (mkCustomer (balance c + amount e) (allowed_overdraft c)) /\
  existsb (clashes e) (balance_ledger d) = false.

Lemma post_effect missing e d id d' :
  post missing e d = inr (id, d') <-> exists c, post_ok e c d /\ id = e_id e /\ d' = posted e c d.
Proof.
  split.
  - intros H. unfold post, UpdateCustomerBalanceManagement, put_customer, CreateLedgerEntry in H. tx_inv H.
    eexists. split; [split_and!; eassumption|done].
  - intros (c & (Hc & Hok & Hcl) & -> & ->).
    unfold post, UpdateCustomerBalanceManagement, put_customer, CreateLedgerEntry, bind, read, lift,
      guard, modify, ret. rewrite Hc. simpl. rewrite bool_decide_eq_true_2 by done. simpl.
    rewrite lookup_insert_eq. rewrite bool_decide_eq_true_2 by eauto. rewrite Hcl. done.
Qed.

(** The entry a request appends. *)
Definition entry_of (seq : Z) (r : Req) : Entry :=
  match r with
  | RTopUp c a k => mkEntry seq c None a TOPUP (Some k) None
  | RCredit c a k i => mkEntry seq c None a PAYMENT_TOPUP (Some k) (Some i)
  | RRefund c a k i => mkEntry seq c None (i64 (- a)) PAYMENT_REFUND (Some k) (Some i)
  | RChargeback c a k i b =>
      mkEntry seq c None (if b then i64 (- a) else a) (chargeback_type b) (Some k) (Some i)
  end.

Abbreviation refunds i l := (sum_intent PAYMENT_REFUND Z.abs i l).
Abbreviation chargebacks i l := (sum_intent PAYMENT_CHARGEBACK Z.abs i l).
Abbreviation reversals i l := (sum_intent PAYMENT_CHARGEBACK_REVERSAL (fun z => z) i l).

(** The guards of a write on the sums of its intent. *)
Definition req_guard (r : Req) (d : DB) : Prop :=
  match r with
  | RTopUp _ _ _ | RCredit _ _ _ _ => True
  | RRefund _ a _ i =>
      exists t, GetLedgerByPaymentIntentForUpdate i d = Some t /\
                in_i64 (refunds i (balance_ledger d)) /\
                refunds i (balance_ledger d) +64 a <= amount t
  | RChargeback _ a _ i b =>
      exists t, GetLedgerByPaymentIntentForUpdate i d = Some t /\
        in_i64 (refunds i (balance_ledger d)) /\
        in_i64 (chargebacks i (balance_ledger d)) /\ in_i64 (reversals i (balance_ledger d)) /\
        let net := chargebacks i (balance_ledger d) -64 reversals i (balance_ledger d) in
        if b then refunds i (balance_ledger d) +64 net +64 a <= amount t else a <= net
  end.

Ltac sums H :=
  unfold SumPaymentRefundAmountForIntent, SumPaymentChargebackAmountForIntent,
    SumPaymentChargebackReversalAmountForIntent, bigint in H.

Lemma write_effect seq r d id d' :
  write_req seq r d = inr (id, d') ->
  req_guard r d /\ id = seq /\ exists c, post_ok (entry_of seq r) c d /\ d' = posted (entry_of seq r) c d.
Proof.
  assert (forall miss e, post miss e d = inr (id, d') -> e_id e = seq ->
    id = seq /\ exists c, post_ok e c d /\ d' = posted e c d) as Hpost.
  { intros miss e (c & Hok & -> & ->)%post_effect <-. eauto. }
  destruct r; simpl; intros H.
  - split; [done|]. eapply Hpost; [exact H|done].
  - split; [done|]. eapply Hpost; [exact H|done].
  - unfold refund_write in H. sums H. tx_inv H. split; [|by eapply Hpost].
    eexists. split_and!; done.
  - unfold chargeback_write in H. sums H. destruct isDebit; tx_inv H; (split; [|by eapply Hpost]);
      eexists; split_and!; done.
Qed.

(** ** The invariants *)

Definition gap (c : UUID) (d : DB) : option Z :=
  r ← customers d !! c; Some (balance r - ledger_sum c d).

Definition margin_leg (t : LedgerType) : bool :=
  bool_decide (t = rtb_cost) || bool_decide (t = operator_margin) || bool_decide (t = publisher_payout).

Lemma ledger_sum_posted c e r d :
  ledger_sum c (posted e r d) = ledger_sum c d + (if counted c e then amount e else 0).
Proof. unfold ledger_sum, posted. simpl. rewrite map_app, sumZ_app. simpl. lia. Qed.

Lemma gap_posted c e r d :
  margin_leg (type e) = false -> customers d !! customer_id e = Some r ->
  gap c (posted e r d) = gap c d.
Proof.
  intros Hm Hr. unfold gap. rewrite ledger_sum_posted. unfold counted. fold (margin_leg (type e)).
  rewrite Hm. simpl. rewrite andb_true_r. destruct (decide (customer_id e = c)) as [<-|Hne].
  - rewrite lookup_insert_eq, Hr, bool_decide_eq_true_2 by done. simpl. f_equal. lia.
  - rewrite lookup_insert_ne, bool_decide_eq_false_2 by done. destruct (_ !! c); simpl; [|done]. f_equal. lia.
Qed.

Lemma entry_of_leg seq r : margin_leg (type (entry_of seq r)) = false.
Proof. destruct r as [| | |? ? ? ? []]; reflexivity. Qed.

Lemma gap_write c g seq r : preserves (fun d => gap c d = g) (write_req seq r).
Proof.
  intros d id d' <- (_ & _ & r' & (Hc & _) & ->)%write_effect. apply gap_posted; [apply entry_of_leg|done].
Qed.

(** What an invariant needs to survive a change of the overdraft. *)
Section overdraft.
Context (I : DB -> Prop).
Context (I_frame : forall d cs h o, I d -> I (mkDB (customers d) cs (balance_ledger d) h o)).
Context (I_release : forall seq cust camp amt c d,
  let e := mkEntry seq cust (Some camp) amt RELEASE None None in I d -> post_ok e c d -> I (posted e c d)).
Context (I_limit : forall cust c ov d, I d -> customers d !! cust = Some c ->
  customer_ok (mkCustomer (balance c) ov) ->
  I (with_customers (<[cust := mkCustomer (balance c) ov]> (customers d)) d)).

Lemma preserves_lift {A} (o : option A) (e : Err) : preserves I (lift o e).
Proof. destruct o; simpl; auto with tx. Qed.

Lemma preserves_suspend cust camps lim : preserves I (suspend cust camps lim).
Proof.
  revert lim. induction camps as [|[id seq] camps IH]; intros lim; simpl; [auto with tx|].
  case_if; [auto with tx|]. apply preserves_bind; [auto with tx|]. intros d0.
  apply preserves_bind; [apply preserves_lift|]. intros l. case_if; [done|].
  apply preserves_bind; [intros d a d' HI [= <- <-]; by apply I_frame|]. intros _.
  apply preserves_bind.
  - case_if; [|auto with tx]. apply preserves_bind; [|auto with tx].
    intros d a d' HI (r & Hok & -> & ->)%post_effect. by apply I_release.
  - intros _. apply preserves_bind; [|done]. intros d a d' HI [= <- <-]. by apply I_frame.
Qed.

Lemma preserves_overdraft cust ov camps : preserves I (UpdateOverdraft cust ov camps).
Proof.
  unfold UpdateOverdraft. apply preserves_bind; [auto with tx|]. intros d0.
  apply preserves_bind; [apply preserves_lift|]. intros r. case_if; [auto with tx|].
  apply preserves_bind; [case_if; [|auto with tx]; apply preserves_bind;
                         [apply preserves_suspend|auto with tx]|].
  intros _ d a d' HI H. unfold UpdateCustomerOverdraft, put_customer in H. tx_inv H. by apply I_limit.
Qed.

End overdraft.

Lemma gap_overdraft c g cust ov camps : preserves (fun d => gap c d = g) (UpdateOverdraft cust ov camps).
Proof.
  apply preserves_overdraft.
  - by intros [] ? ? ?.
  - intros seq cu camp amt r d e <- [Hr _]. by apply gap_posted.
  - intros cu r ov' d <- Hr _. unfold gap, ledger_sum. simpl. destruct (decide (cu = c)) as [<-|].
    + by rewrite lookup_insert_eq, Hr.
    + by rewrite lookup_insert_ne.
Qed.

Abbreviation topups i l := (sum_intent PAYMENT_TOPUP (fun z => z) i l).

Definition caps (i : UUID) (l : list Entry) : Prop :=
  0 <= refunds i l <= topups i l /\ 0 <= reversals i l <= chargebacks i l /\
  chargebacks i l - reversals i l <= topups i l.

Definition entry_ok (e : Entry) : Prop :=
  match type e with
  | PAYMENT_TOPUP => 0 < amount e < 2305843009213693952
  | PAYMENT_REFUND | PAYMENT_CHARGEBACK => - 2305843009213693952 < amount e < 0
  | PAYMENT_CHARGEBACK_REVERSAL => 0 < amount e
  | _ => True
  end.

Record WF (d : DB) : Prop := mkWF {
  wf_hash : NoDup (omap idempotency_hash (balance_ledger d));
  wf_topup : NoDup (omap topup_intent (balance_ledger d));
  wf_customers : map_Forall (fun _ c => customer_ok c) (customers d);
  wf_entries : Forall entry_ok (balance_ledger d);
  wf_caps : forall i, caps i (balance_ledger d) }.

Lemma of_topup i e : of_intent PAYMENT_TOPUP i e = true <-> topup_intent e = Some i.
Proof.
  unfold of_intent, topup_intent. case_bool_decide; simpl; [|naive_solver].
  by rewrite bool_decide_eq_true.
Qed.

Lemma sum_intent_app t f i l1 l2 : sum_intent t f i (l1 ++ l2) = sum_intent t f i l1 + sum_intent t f i l2.
Proof. unfold sum_intent. by rewrite map_app, sumZ_app. Qed.

Lemma sum_intent_one t f i e : sum_intent t f i [e] = if of_intent t i e then f (amount e) else 0.
Proof. unfold sum_intent. simpl. lia. Qed.

Lemma topups_absent i l : i ∉ omap topup_intent l -> topups i l = 0.
Proof.
  induction l as [|e l IH]; intros H; [done|]. unfold sum_intent in *. simpl in *.
  destruct (of_intent PAYMENT_TOPUP i e) eqn:E.
  - apply of_topup in E. rewrite E in H. set_solver.
  - destruct (topup_intent e); [apply IH; set_solver|by apply IH].
Qed.

(** The sum over an intent's top-ups is the amount of the one there is. *)
Lemma topups_find i l :
  NoDup (omap topup_intent l) ->
  topups i l = match List.find (of_intent PAYMENT_TOPUP i) l with Some t => amount t | None => 0 end.
Proof.
  induction l as [|e l IH]; intros Hn; [done|]. cbn [List.find].
  change (e :: l) with ([e] ++ l). rewrite sum_intent_app, sum_intent_one. simpl in Hn.
  destruct (of_intent PAYMENT_TOPUP i e) eqn:E.
  - apply of_topup in E. rewrite E in Hn. apply NoDup_cons in Hn as [Hi _].
    rewrite topups_absent by done. lia.
  - rewrite IH; [done|]. destruct (topup_intent e); [by apply NoDup_cons in Hn as [_ ?]|done].
Qed.

Lemma find_topup d i t :
  WF d -> GetLedgerByPaymentIntentForUpdate i d = Some t ->
  topups i (balance_ledger d) = amount t /\ 0 < amount t < 2305843009213693952.
Proof.
  intros H Ht. rewrite topups_find by apply H. unfold GetLedgerByPaymentIntentForUpdate in Ht. rewrite Ht.
  split; [done|]. apply find_some in Ht as [Hin Hof].
  pose proof (wf_entries _ H) as He. rewrite Forall_forall in He.
  specialize (He t (proj2 (list_elem_of_In _ _) Hin)). unfold entry_ok in He.
  unfold of_intent in Hof. apply andb_prop in Hof as [Hty%bool_decide_eq_true _]. by rewrite Hty in He.
Qed.

Lemma no_clash e l :
  existsb (clashes e) l = false ->
  (forall h, idempotency_hash e = Some h -> h ∉ omap idempotency_hash l) /\
  (forall i, topup_intent e = Some i -> i ∉ omap topup_intent l).
Proof.
  intros H. assert (forall e', e' ∈ l -> clashes e e' = false) as Hc.
  { intros e' Hin. destruct (clashes e e') eqn:E; [|done].
    assert (existsb (clashes e) l = true) as Hx; [|congruence].
    apply existsb_exists. exists e'. split; [by apply list_elem_of_In|done]. }
  unfold clashes in Hc.
  split; intros x Hx Hin; apply list_elem_of_omap in Hin as (e' & Hin & He'); specialize (Hc e' Hin);
    apply orb_false_iff in Hc as [H1 H2].
  - rewrite Hx, He', !bool_decide_eq_true_2 in H1 by done. done.
  - rewrite Hx, He', !bool_decide_eq_true_2 in H2 by done. done.
Qed.

Lemma NoDup_omap_snoc {A B} (f : A -> option B) l e :
  NoDup (omap f l) -> (forall b, f e = Some b -> b ∉ omap f l) -> NoDup (omap f (l ++ [e])).
Proof.
  intros Hn He. rewrite omap_app. simpl. destruct (f e) as [b|]; [|by rewrite app_nil_r].
  apply NoDup_app. split; [done|]. split; [|apply NoDup_singleton].
  intros x Hx ->%list_elem_of_singleton. by apply (He b).
Qed.

Lemma WF_posted e c d :
  WF d -> post_ok e c d -> entry_ok e -> (forall i, caps i (balance_ledger d ++ [e])) -> WF (posted e c d).
Proof.
  intros H (Hc & Hok & [Hh Ht]%no_clash) He Hcaps. constructor; simpl.
  - apply NoDup_omap_snoc; [apply H|done].
  - apply NoDup_omap_snoc; [apply H|done].
  - apply map_Forall_insert_2; [done|apply H].
  - apply Forall_app. split; [apply H|by constructor].
  - done.
Qed.

(** An entry that is no payment movement leaves the sums of all intents. *)
Lemma caps_other e l i :
  caps i l -> payment_intent_id e = None -> caps i (l ++ [e]).
Proof.
  intros H Hn. unfold caps. rewrite !sum_intent_app, !sum_intent_one. unfold of_intent. rewrite Hn.
  rewrite (bool_decide_eq_false_2 (None = Some i)) by done. rewrite !andb_false_r.
  unfold caps in H. lia.
Qed.

Lemma caps_entry e l i j :
  caps i l -> payment_intent_id e = Some j ->
  (i = j -> caps j (l ++ [e])) -> caps i (l ++ [e]).
Proof.
  intros H Hj Hi. destruct (decide (i = j)) as [->|Hne]; [auto|].
  unfold caps. rewrite !sum_intent_app, !sum_intent_one. unfold of_intent. rewrite Hj.
  rewrite (bool_decide_eq_false_2 (Some j = Some i)) by congruence. rewrite !andb_false_r.
  unfold caps in H. lia.
Qed.

Ltac caps_at_entry :=
  unfold caps; rewrite !sum_intent_app, !sum_intent_one; unfold of_intent; simpl;
  rewrite !bool_decide_eq_true_2 by done;
  repeat rewrite bool_decide_eq_false_2 by done; simpl.

Lemma WF_write seq r : req_ok r -> preserves WF (write_req seq r).
Proof.
  intros Hr d id d' HWF (Hg & _ & c & Hok & ->)%write_effect.
  pose proof (wf_caps d HWF) as Hcaps. destruct r; simpl in Hr.
  - apply WF_posted; [done..|]. intros i. by apply caps_other.
  - apply WF_posted; [done..|]. intros i. eapply caps_entry; [done|done|]. intros _.
    specialize (Hcaps intent). caps_at_entry. unfold caps in Hcaps. lia.
  - destruct Hg as (t & Ht & Hin & Hle). apply (find_topup _ _ _ HWF) in Ht as [Ht Hb].
    specialize (Hcaps intent) as Hi. unfold caps in Hi. nowrap_in Hle.
    apply WF_posted; [done|done| |].
    + unfold entry_ok. simpl. nowrap. lia.
    + intros i. eapply caps_entry; [apply Hcaps|done|]. intros _. caps_at_entry. nowrap. lia.
  - destruct Hg as (t & Ht & Hin1 & Hin2 & Hin3 & Hle). cbv zeta in Hle. apply (find_topup _ _ _ HWF) in Ht as [Ht Hb].
    specialize (Hcaps intent) as Hi. unfold caps in Hi. destruct isDebit; nowrap_in Hle.
    + apply WF_posted; [done|done| |].
      * unfold entry_ok. simpl. nowrap. lia.
      * intros i. eapply caps_entry; [apply Hcaps|done|]. intros _. caps_at_entry. nowrap. lia.
    + apply WF_posted; [done|done| |].
      * unfold entry_ok. simpl. lia.
      * intros i. eapply caps_entry; [apply Hcaps|done|]. intros _. caps_at_entry. lia.
Qed.

Lemma WF_overdraft cust ov camps : preserves WF (UpdateOverdraft cust ov camps).
Proof.
  apply preserves_overdraft.
  - by intros d cs h o [].
  - intros seq cu camp amt r d e HWF Hok. apply WF_posted; [done..|].
    intros i. apply caps_other; [apply HWF|done].
  - intros cu r ov' d [] Hr Hok. constructor; simpl; [done..| |done|done]. by apply map_Forall_insert_2.
Qed.

(** ** The ledger only grows *)

Definition grows (l : list Entry) (d : DB) : Prop := l `prefix_of` balance_ledger d.

Lemma grows_write l seq r : preserves (grows l) (write_req seq r).
Proof. intros d id d' Hl (_ & _ & c & _ & ->)%write_effect. by apply prefix_app_r. Qed.

Lemma grows_overdraft l cust ov camps : preserves (grows l) (UpdateOverdraft cust ov camps).
Proof. apply preserves_overdraft; [done| |done]. intros. by apply prefix_app_r. Qed.

(** An invariant of the database that writes and overdraft changes preserve
    holds after any interleaving of requests. *)
Lemma sreach_preserves (I : DB -> Prop) s s' :
  (forall seq r, req_ok r -> preserves I (write_req seq r)) ->
  (forall c ov camps, preserves I (UpdateOverdraft c ov camps)) ->
  sreach s s' -> Forall req_ok (waiting s) -> I (db s) -> I (db s') /\ Forall req_ok (waiting s').
Proof.
  intros Hw Ho. induction 1 as [s|s1 s2 s3 Hstep _ IH]; intros Hq HI; [done|].
  destruct Hstep as [s r Hr _|s l1 r l2 seq E|s l1 r l2 E|s c ov camps]; simpl in *.
  - apply IH; [by constructor|done].
  - rewrite E in Hq. apply Forall_app in Hq as [H1 [Hr H2]%Forall_cons].
    apply IH; [by apply Forall_app|]. apply BeginFunc_preserves; auto.
  - rewrite E in Hq. apply Forall_app in Hq as [H1 [Hr H2]%Forall_cons].
    apply IH; [by apply Forall_app|done].
  - apply IH; [done|]. apply BeginFunc_preserves; auto.
Qed.

(** ** Theorems *)

(** Whatever requests and overdraft changes interleave, and whichever of
    them fail, the difference between a customer's balance and the sum of the
    ledger does not change, so the drift check of an invoice answers as
    before. *)
Theorem drift_unchanged s s' c :
  sreach s s' -> Forall req_ok (waiting s) ->
  gap c (db s') = gap c (db s) /\
  CheckLedgerBalanceInvariant c (db s') = CheckLedgerBalanceInvariant c (db s).
Proof.
  intros Hr Hq. assert (gap c (db s') = gap c (db s)) as Hg.
  { refine (proj1 (sreach_preserves (fun d => gap c d = gap c (db s)) s s' _ _ Hr Hq eq_refl)).
    - intros; apply gap_write.
    - intros; apply gap_overdraft. }
  split; [done|]. unfold gap in Hg. unfold CheckLedgerBalanceInvariant, ReadLedgerInvariant.
  destruct (customers (db s') !! c), (customers (db s) !! c); simpl in *; try done.
  injection Hg as ->. done.
Qed.

(** C10: Under any interleaving of requests, each payment has at most one
    top-up, its refunds never exceed the top-up, its chargebacks net of
    reversals neither exceed the top-up nor go negative, no idempotency key
    is used twice and no balance passes its overdraft. *)
Theorem payment_caps_hold s s' :
  WF (db s) -> Forall req_ok (waiting s) -> sreach s s' ->
  (forall i, caps i (balance_ledger (db s'))) /\
  NoDup (omap idempotency_hash (balance_ledger (db s'))) /\
  NoDup (omap topup_intent (balance_ledger (db s'))) /\
  map_Forall (fun _ c => customer_ok c) (customers (db s')).
Proof.
  intros HWF Hq Hr.
  assert (WF (db s')) as [] by (eapply (sreach_preserves WF); eauto using WF_write, WF_overdraft). done.
Qed.

(** ** Replays *)

Lemma find_app {A} (f : A -> bool) l1 l2 :
  List.find f (l1 ++ l2) = match List.find f l1 with Some x => Some x | None => List.find f l2 end.
Proof. induction l1; simpl; [done|]. by case_if. Qed.

Lemma lookup_prefix r d l e :
  grows l d ->
  (forall d0, balance_ledger d0 = l -> lookup_req r d0 = Some e) -> 
  (match r with RCredit _ _ _ i => forall d0, balance_ledger d0 = l -> is_Some (GetLedgerByPaymentIntentForUpdate i d0)
   | _ => True end) ->
  lookup_req r d = Some e.
Proof.
  intros [ext Hl] H Hc. specialize (H (with_ledger l d) eq_refl).
  unfold lookup_req, GetLedgerByHashForUpdate, GetLedgerByPaymentIntentForUpdate in *. simpl in *.
  destruct r; rewrite ?Hl, ?find_app, ?H; try done.
  specialize (Hc (with_ledger l d) eq_refl) as [x Hx]. simpl in Hx. by rewrite Hx in *.
Qed.

Lemma run_req_write fenced seq r d id d' :
  run_req fenced seq r d = inr ((true, id), d') ->
  lookup_req r d = None /\ write_req seq r d = inr (id, d').
Proof.
  intros H. destruct r; simpl in *; unfold TopUpBalance, ApplyPaymentCredit, ApplyPaymentRefund,
    applyPaymentChargebackMovement, found, applied in H; tx_inv H; try discriminate; done.
Qed.

Lemma run_req_found seq r d e :
  req_ok r -> lookup_req r d = Some e -> run_req false seq r d = inr ((false, e_id e), d).
Proof.
  intros Hok H. unfold run_req, TopUpBalance, ApplyPaymentCredit, ApplyPaymentRefund,
    applyPaymentChargebackMovement, bind, guard, read, found, ret. simpl in *.
  destruct r; simpl in *; rewrite ?(proj2 (Z.ltb_lt 0 _)) by lia; simpl; rewrite ?H; try done.
  destruct (GetLedgerByPaymentIntentForUpdate intent d); [by injection H as ->|]. by rewrite H.
Qed.

(** After the write, the lookup finds the entry. *)
Lemma lookup_written seq r d c d0 :
  lookup_req r d = None -> balance_ledger d0 = balance_ledger (posted (entry_of seq r) c d) ->
  lookup_req r d0 = Some (entry_of seq r).
Proof.
  intros Hn Hl. unfold lookup_req, GetLedgerByHashForUpdate, GetLedgerByPaymentIntentForUpdate in *.
  rewrite Hl. simpl. destruct r; simpl in *; rewrite !find_app.
  2:{ destruct (List.find (of_intent _ _) (balance_ledger d)); [done|]. simpl.
      unfold of_intent. simpl. by rewrite !bool_decide_eq_true_2. }
  all: rewrite Hn; simpl; unfold has_hash; simpl; by rewrite bool_decide_eq_true_2.
Qed.

(** A request that was applied and is sent again, however much later and
    whatever ran in between, finds its entry: it answers the entry's id, not
    applied, and changes nothing. *)
Theorem replay_changes_nothing seq seq' r d id d' w s' :
  req_ok r -> Forall req_ok w ->
  run_req false seq r d = inr ((true, id), d') -> sreach (mkSys d' w) s' ->
  run_req false seq' r (db s') = inr ((false, id), db s').
Proof.
  intros Hok Hw [Hn Hwr]%run_req_write Hr.
  apply write_effect in Hwr as (_ & -> & c & _ & ->).
  assert (grows (balance_ledger (posted (entry_of seq r) c d)) (db s')) as Hg.
  { eapply (sreach_preserves (grows _) _ _ (fun _ _ _ => grows_write _ _ _) (grows_overdraft _) Hr); [done|].
    simpl. unfold grows. done. }
  replace seq with (e_id (entry_of seq r)) by (by destruct r).
  apply run_req_found; [done|]. eapply lookup_prefix; [exact Hg| |].
  - intros d0 Hd0. by eapply lookup_written.
  - destruct r; [done| |done|done]. intros d0 Hd0. unfold GetLedgerByPaymentIntentForUpdate.
    rewrite Hd0. simpl. rewrite find_app. destruct (List.find _ _); [eauto|]. simpl.
    unfold of_intent. simpl. rewrite !bool_decide_eq_true_2 by done. eauto.
Qed.

(** ** Completeness of the guards *)

Lemma bigint_ok z d : in_i64 z -> bigint z d = inr (z, d).
Proof. intros H. unfold bigint, bind, guard. by rewrite bool_decide_eq_true_2. Qed.

Lemma write_complete seq r d c :
  req_guard r d -> post_ok (entry_of seq r) c d ->
  write_req seq r d = inr (seq, posted (entry_of seq r) c d).
Proof.
  intros Hg Hp. assert (forall m, post m (entry_of seq r) d = inr (seq, posted (entry_of seq r) c d)) as H.
  { intros m. apply post_effect. exists c. by destruct r. }
  destruct r; simpl in *; [by apply H|by apply H| |].
  - destruct Hg as (t & Ht & Hin & Hle). unfold refund_write, SumPaymentRefundAmountForIntent, bind, read.
    rewrite Ht. simpl. rewrite bigint_ok by done. unfold guard.
    rewrite (proj2 (Z.leb_le _ _)) by done. simpl. apply H.
  - destruct Hg as (t & Ht & H1 & H2 & H3 & Hle). unfold chargeback_write,
      SumPaymentRefundAmountForIntent, SumPaymentChargebackAmountForIntent,
      SumPaymentChargebackReversalAmountForIntent, bind, read.
    rewrite Ht. simpl. rewrite !bigint_ok by done. unfold guard.
    destruct isDebit; cbv zeta in Hle; rewrite (proj2 (Z.leb_le _ _)) by done; simpl; apply H.
Qed.

Lemma fresh_hash e k d :
  GetLedgerByHashForUpdate k d = None -> idempotency_hash e = Some k -> topup_intent e = None ->
  existsb (clashes e) (balance_ledger d) = false.
Proof.
  unfold GetLedgerByHashForUpdate. intros Hf Hk Ht. induction (balance_ledger d) as [|e' l IH]; [done|].
  simpl in *. unfold has_hash in Hf at 1. case_bool_decide; [done|]. rewrite IH by done.
  unfold clashes. rewrite Hk, Ht. rewrite (bool_decide_eq_false_2 (Some k = _)) by congruence.
  by rewrite andb_false_r.
Qed.

Lemma run_req_fresh seq r d c :
  req_ok r -> lookup_req r d = None -> req_guard r d -> post_ok (entry_of seq r) c d ->
  run_req false seq r d = inr ((true, seq), posted (entry_of seq r) c d).
Proof.
  intros Hok Hn Hg Hp. pose proof (write_complete seq r d c Hg Hp) as Hw.
  unfold run_req, TopUpBalance, ApplyPaymentCredit, ApplyPaymentRefund,
    applyPaymentChargebackMovement, guard, read, found. simpl in *.
  assert (forall m, m d = inr (seq, posted (entry_of seq r) c d) ->
            applied m d = inr ((true, seq), posted (entry_of seq r) c d)) as Ha.
  { intros m Hm. unfold applied, bind. by rewrite Hm. }
  destruct r; simpl in *; rewrite ?(proj2 (Z.ltb_lt 0 _)) by lia; unfold bind at 1; simpl.
  - unfold bind at 1. rewrite Hn. by apply Ha.
  - unfold bind at 1. destruct (GetLedgerByPaymentIntentForUpdate intent d); [done|].
    unfold bind at 1. rewrite Hn. by apply Ha.
  - unfold bind at 1. simpl. unfold bind at 1. rewrite Hn. by apply Ha.
  - unfold bind at 1. simpl. unfold bind at 1. rewrite Hn. by apply Ha.
Qed.

(** A refund is checked against the refunds only: a payment that was
    charged back in full can still be refunded in full, and the customer is
    debited twice the amount that was credited. *)
Theorem refund_after_chargeback_debits_twice d i t c b ov k1 k2 s1 s2 :
  WF d -> GetLedgerByPaymentIntentForUpdate i d = Some t ->
  refunds i (balance_ledger d) = 0 -> chargebacks i (balance_ledger d) = 0 ->
  customers d !! c = Some (mkCustomer b ov) -> 2 * amount t <= b + ov -> in_i64 (b - 2 * amount t) ->
  k1 <> k2 -> GetLedgerByHashForUpdate k1 d = None -> GetLedgerByHashForUpdate k2 d = None ->
  exists d1 d2,
    ApplyPaymentChargeback false s1 c (amount t) k1 i d = inr ((true, s1), d1) /\
    ApplyPaymentRefund false s2 c (amount t) k2 i d1 = inr ((true, s2), d2) /\
    customers d2 !! c = Some (mkCustomer (b - 2 * amount t) ov).
Proof.
  intros HWF Ht Hr Hcb Hc Hb Hin Hk H1 H2.
  destruct (find_topup _ _ _ HWF Ht) as [Htop Hbnd].
  pose proof (wf_caps _ HWF i) as Hcaps. unfold caps in Hcaps.
  pose proof (wf_customers _ HWF c _ Hc) as (Hok1 & Hok2 & Hok3). simpl in *.
  set (r1 := RChargeback c (amount t) k1 i true). set (r2 := RRefund c (amount t) k2 i).
  set (d1 := posted (entry_of s1 r1) (mkCustomer b ov) d).
  set (c1 := mkCustomer (b + i64 (- amount t)) ov).
  exists d1, (posted (entry_of s2 r2) c1 d1). split_and!.
  - apply (run_req_fresh s1 r1); [done|done| |].
    + exists t. split_and!; [done|go_lia..|]. cbv zeta. nowrap. lia.
    + split_and!; [done| |by apply (fresh_hash _ k1)].
      unfold customer_ok. simpl. nowrap. split_and!; go_lia.
  - apply (run_req_fresh s2 r2); [done| | |].
    + unfold lookup_req, GetLedgerByHashForUpdate in *. subst d1. simpl. rewrite find_app, H2. simpl.
      unfold has_hash. simpl. by rewrite bool_decide_eq_false_2 by congruence.
    + unfold req_guard, r2. subst d1. simpl. unfold GetLedgerByPaymentIntentForUpdate in *. simpl.
      rewrite find_app, Ht. exists t. rewrite sum_intent_app, sum_intent_one. unfold of_intent. simpl.
      rewrite Hr. nowrap. split_and!; [done|go_lia|lia].
    + split_and!.
      * subst d1. unfold posted. simpl. apply lookup_insert_eq.
      * unfold customer_ok, c1. simpl. nowrap. split_and!; go_lia.
      * apply (fresh_hash _ k2); [|done|done]. unfold GetLedgerByHashForUpdate in *. subst d1. simpl.
        rewrite find_app, H2. simpl. unfold has_hash. simpl. by rewrite bool_decide_eq_false_2 by congruence.
  - simpl. rewrite lookup_insert_eq. unfold c1. simpl. nowrap. f_equal. f_equal. lia.
Qed.

(** ** Instances *)

Open Scope string_scope.

Definition demo_db : DB :=
  mkDB {["acme" := mkCustomer 300 0]} ∅
    [mkEntry 1 "acme" None 100 PAYMENT_TOPUP (Some "payment:p1") (Some "p1")] [] [].

Lemma demo_db_wf : WF demo_db.
Proof.
  constructor.
  - simpl. apply NoDup_singleton.
  - simpl. apply NoDup_singleton.
  - intros c x H. unfold demo_db in H. cbn [customers] in H. apply lookup_singleton_Some in H as [_ <-]. unfold customer_ok. simpl. split_and!; go_lia.
  - repeat constructor.
  - intros i. unfold caps. simpl. unfold sum_intent, of_intent. simpl. case_bool_decide; simpl; lia.
Qed.

Definition demo_refund : Req := RRefund "acme" 30 "refund:r1" "p1".
Definition demo_refunded : DB := snd (BeginFunc (write_req 2 demo_refund) demo_db).

Lemma demo_run : sreach (mkSys demo_db []) (mkSys demo_refunded []).
Proof.
  apply (rtc_l _ _ (mkSys demo_db [demo_refund])).
  - apply (ss_lookup (mkSys demo_db []) demo_refund); [unfold req_ok; simpl; lia|reflexivity].
  - apply rtc_once. exact (ss_write (mkSys demo_db [demo_refund]) [] demo_refund [] 2 eq_refl).
Qed.

Lemma drift_unchanged_witness :
  gap "acme" demo_refunded = Some 200 /\ gap "acme" demo_refunded = gap "acme" demo_db.
Proof.
  split; [vm_compute; reflexivity|].
  exact (proj1 (drift_unchanged (mkSys demo_db []) (mkSys demo_refunded []) "acme" demo_run
                  (List.Forall_nil _))).
Defined.

Lemma payment_caps_hold_witness : caps "p1" (balance_ledger demo_refunded).
Proof.
  exact (proj1 (payment_caps_hold (mkSys demo_db []) (mkSys demo_refunded []) demo_db_wf
                  (List.Forall_nil _) demo_run) "p1").
Defined.

Lemma replay_changes_nothing_witness :
  run_req false 9 demo_refund demo_refunded = inr ((false, 2), demo_refunded).
Proof.
  refine (replay_changes_nothing 2 9 demo_refund demo_db 2 demo_refunded [] (mkSys demo_refunded [])
            _ (List.Forall_nil _) _ (rtc_refl _ _)).
  - unfold req_ok. simpl. lia.
  - vm_compute. reflexivity.
Defined.

Lemma refund_after_chargeback_debits_twice_witness :
  exists d1 d2,
    ApplyPaymentChargeback false 2 "acme" 100 "k1" "p1" demo_db = inr ((true, 2), d1) /\
    ApplyPaymentRefund false 3 "acme" 100 "k2" "p1" d1 = inr ((true, 3), d2) /\
    customers d2 !! "acme" = Some (mkCustomer 100 0).
Proof.
  refine (refund_after_chargeback_debits_twice demo_db "p1"
            (mkEntry 1 "acme" None 100 PAYMENT_TOPUP (Some "payment:p1") (Some "p1")) "acme" 300 0
            "k1" "k2" 2 3 demo_db_wf eq_refl eq_refl eq_refl eq_refl _ _ _ eq_refl eq_refl).
  - simpl. lia.
  - simpl. go_lia.
  - discriminate.
Defined.

Close Scope string_scope.

End PaymentLedger.
