(* ===== verification/PaymentWebhook.v ===== *)
(** * Payment intents and provider webhooks

    Models [internal/payment/checkout] (service.go, amount.go,
    license_activation.go), [internal/payment/webhook] (service.go,
    service_dispute.go, service_replay.go, webhook_status.go) and the crypto
    hold worker and outbox payloads of [internal/payment/settlement], with
    the queries of [internal/payment/queries/payment.sql].  A webhook is one
    transaction: the row of the event and the lock of the intent order those
    that touch the same payment.  The JSON of an outbox payload is the record
    it encodes; clocks, fresh ids and the provider's checkout answer are
    inputs.  The entitlements text of a licence is not modelled.  [PI], [KI]
    and [DI] are the invariants of the tables: payments with their events,
    crypto payments with their holds, disputes with their chargebacks. *)

From S2P Require Import Prelude SqlTx.
Open Scope string_scope.
Open Scope Z_scope.

Module PaymentWebhook.

Import SqlTx.

#[local] Abbreviation UUID := string (only parsing).

Inductive IntentStatus :=
  | CREATED | PENDING_PROVIDER | PROCESSING | SUCCEEDED | FAILED | CANCELLED | REFUNDED | DISPUTED
  | SETTLEMENT_FAILED.
#[export] Instance IntentStatus_eq_dec : EqDecision IntentStatus.
Proof. solve_decision. Defined.

Inductive EventStatus := RECEIVED | PROCESSED | IGNORED.
#[export] Instance EventStatus_eq_dec : EqDecision EventStatus.
Proof. solve_decision. Defined.

Inductive RefundStatus := RefundSucceeded | RefundFailed.
#[export] Instance RefundStatus_eq_dec : EqDecision RefundStatus.
Proof. solve_decision. Defined.

Inductive DisputeStatus := OPEN | FUNDS_WITHDRAWN | FUNDS_REINSTATED | WON | LOST.
#[export] Instance DisputeStatus_eq_dec : EqDecision DisputeStatus.
Proof. solve_decision. Defined.

Inductive HoldStatus := HELD | RELEASED | FRAUD_BLOCKED.
#[export] Instance HoldStatus_eq_dec : EqDecision HoldStatus.
Proof. solve_decision. Defined.

Inductive OutboxStatus := OutPending | OutProcessing | OutProcessed | OutDead.
#[export] Instance OutboxStatus_eq_dec : EqDecision OutboxStatus.
Proof. solve_decision. Defined.

Inductive OutboxType := SETTLE_BALANCE | REVERSE_BALANCE | APPLY_CHARGEBACK | REVERSE_CHARGEBACK.
#[export] Instance OutboxType_eq_dec : EqDecision OutboxType.
Proof. solve_decision. Defined.

Record Intent := mkIntent {
  i_id : UUID; i_customer : UUID; i_amount : Z; i_currency : string; i_status : IntentStatus;
  i_provider : string; i_ref : option string; i_key : string; i_meta : gmap string string;
  i_refunded : Z }.

Record Event := mkEvent { ev_type : string; ev_status : EventStatus }.

Record RefundRow := mkRefund { r_intent : UUID; r_amount : Z; r_status : RefundStatus }.

Record Dispute := mkDispute {
  d_intent : UUID; d_amount : Z; d_status : DisputeStatus; d_withdrawn : Z; d_reinstated : Z }.

Record Hold := mkHold {
  h_id : UUID; h_intent : UUID; h_customer : UUID; h_amount : Z; h_status : HoldStatus; h_release_at : Z }.

Record Payload := mkPayload {
  p_customer : UUID; p_amount : Z; p_key : string; p_intent : UUID; p_provider : string; p_ref : string }.

Record OutboxRow := mkOutbox {
  o_id : Z; o_type : OutboxType; o_payload : Payload; o_status : OutboxStatus; o_lease : option Z;
  o_attempts : Z }.

Record License := mkLicense { l_license : UUID; l_plan : string; l_valid_until : Z }.

(** Refunds and disputes are Stripe's: their tables are keyed by its ids. *)
Record PayDB := mkPay {
  intents : list Intent; events : gmap (string * string) Event; refund_rows : gmap string RefundRow;
  disputes : gmap string Dispute; holds : list Hold; outbox : list OutboxRow;
  licenses : gmap UUID License }.

Inductive PErr := PErrNoRows | PErrDB | PErrUnique | PErrLicense | PErrIdempotencyConflict | PErrBadRequest.
#[export] Instance PErr_eq_dec : EqDecision PErr.
Proof. solve_decision. Defined.

#[local] Abbreviation M := (SqlTx.M PayDB PErr).

(** ** Queries *)

Definition set_intents l p := mkPay l (events p) (refund_rows p) (disputes p) (holds p) (outbox p) (licenses p).
Definition set_events m p := mkPay (intents p) m (refund_rows p) (disputes p) (holds p) (outbox p) (licenses p).
Definition set_refunds m p := mkPay (intents p) (events p) m (disputes p) (holds p) (outbox p) (licenses p).
Definition set_disputes m p := mkPay (intents p) (events p) (refund_rows p) m (holds p) (outbox p) (licenses p).
Definition set_holds l p := mkPay (intents p) (events p) (refund_rows p) (disputes p) l (outbox p) (licenses p).
Definition set_outbox l p := mkPay (intents p) (events p) (refund_rows p) (disputes p) (holds p) l (licenses p).
Definition set_licenses m p := mkPay (intents p) (events p) (refund_rows p) (disputes p) (holds p) (outbox p) m.

Definition with_status (st : IntentStatus) (r : option string) (i : Intent) : Intent :=
  mkIntent (i_id i) (i_customer i) (i_amount i) (i_currency i) st (i_provider i)
    (match r with Some s => Some s | None => i_ref i end) (i_key i) (i_meta i) (i_refunded i).

Definition update_intent (id : UUID) (f : Intent -> Intent) : M unit :=
  modify (fun p => set_intents (map (fun i => if bool_decide (i_id i = id) then f i else i) (intents p)) p).

Definition UpdatePaymentIntentStatus (id : UUID) (st : IntentStatus) (r : option string) : M unit :=
  update_intent id (with_status st r).

Definition find_intent (provider ref : string) (p : PayDB) : option Intent :=
  List.find (fun i => bool_decide (i_provider i = provider) && bool_decide (i_ref i = Some ref)) (intents p).

Definition updateWebhookStatus (provider eventID : string) (st : EventStatus) : M unit :=
  modify (fun p => set_events (alter (fun e => mkEvent (ev_type e) st) (provider, eventID) (events p)) p).

Definition CreateOutboxEvent (t : OutboxType) (pl : Payload) : M unit :=
  modify (fun p => set_outbox (outbox p ++ [mkOutbox (zlen (outbox p)) t pl OutPending None 0]) p).

(** ** Outbox payloads *)

Definition LedgerIdempotencyKey (intent : UUID) : string := "payment:" +:+ intent.
Definition refundLedgerIdempotencyKey (refundID : string) : string := "refund:" +:+ refundID.
Definition chargebackWithdrawnLedgerKey (disputeID : string) : string := "chargeback:withdrawn:" +:+ disputeID.
Definition chargebackReinstatedLedgerKey (disputeID : string) : string := "chargeback:reinstated:" +:+ disputeID.

Definition settleBalancePayload (cust : UUID) (amt : Z) (intent : UUID) (provider ref : string) : Payload :=
  mkPayload cust amt (LedgerIdempotencyKey intent) intent provider ref.
Definition reverseBalancePayload (intent cust : UUID) (amt : Z) (refundID : string) : Payload :=
  mkPayload cust amt (refundLedgerIdempotencyKey refundID) intent "stripe" refundID.
Definition applyChargebackPayload (intent cust : UUID) (amt : Z) (disputeID : string) : Payload :=
  mkPayload cust amt (chargebackWithdrawnLedgerKey disputeID) intent "stripe" disputeID.
Definition reverseChargebackPayload (intent cust : UUID) (amt : Z) (disputeID : string) : Payload :=
  mkPayload cust amt (chargebackReinstatedLedgerKey disputeID) intent "stripe" disputeID.

(** ** Amounts *)

Definition stripeCentsPerMicro : Z := 10000.
Definition StripeAmountToMicro (stripeAmount : Z) : Z := stripeAmount *64 stripeCentsPerMicro.
Definition MicroToStripeAmount (amountMicro : Z) : option Z :=
  if negb (Z.rem amountMicro stripeCentsPerMicro =? 0) then None
  else Some (amountMicro /64 stripeCentsPerMicro).

(** ** Checkout *)

(** [claimPaymentIntent]: the intent of the idempotency key, and whether this
    call created it. *)
Definition claimPaymentIntent (newID cust : UUID) (amt : Z) (currency key : string)
    (meta : gmap string string) (provider : string) : M (Intent * bool) :=
  let! p := read (fun p => p) in
  match List.find (fun i => bool_decide (i_key i = key)) (intents p) with
  | Some existing => ret (existing, false)
  | None =>
      guard (0 <? amt) PErrDB ;;
      guard (negb (existsb (fun i => bool_decide (i_id i = newID)) (intents p))) PErrUnique ;;
      let i := mkIntent newID cust amt currency CREATED provider None key meta 0 in
      modify (set_intents (intents p ++ [i])) ;; ret (i, true)
  end.

Definition finalizePaymentIntent (id : UUID) (provRef : string) (meta : gmap string string) : M unit :=
  let st := if bool_decide (provRef = "") then CREATED else PENDING_PROVIDER in
  update_intent id (fun i =>
    mkIntent (i_id i) (i_customer i) (i_amount i) (i_currency i) st (i_provider i)
      (if bool_decide (provRef = "") then i_ref i else Some provRef) (i_key i) meta (i_refunded i)).

Definition markIntentFailed (id : UUID) : M unit := UpdatePaymentIntentStatus id FAILED None.

Definition reconcileIdempotentIntent (existing : Intent) (cust : UUID) (amt : Z) (currency : string)
    : PErr + Intent :=
  if bool_decide (i_customer existing <> cust) || negb (i_amount existing =? amt)
     || bool_decide (i_currency existing <> currency)
  then inl PErrIdempotencyConflict else inr existing.

(** ** Webhooks *)

(** The prologue of every webhook: an event already stored ends the
    transaction, a new one is stored as received. *)
Definition claim_event (provider eventID eventType : string) (k : M unit) : M unit :=
  let! p := read (fun p => p) in
  match events p !! (provider, eventID) with
  | Some _ => ret tt
  | None => modify (set_events (<[(provider, eventID) := mkEvent eventType RECEIVED]> (events p))) ;; k
  end.

Definition isValidTransition (oldStatus newStatus : IntentStatus) : bool :=
  if bool_decide (oldStatus = newStatus) then true
  else match oldStatus with
  | CREATED => true
  | PENDING_PROVIDER => bool_decide (newStatus <> CREATED)
  | PROCESSING => bool_decide (newStatus <> CREATED) && bool_decide (newStatus <> PENDING_PROVIDER)
  | SUCCEEDED => bool_decide (newStatus = REFUNDED) || bool_decide (newStatus = DISPUTED)
  | REFUNDED => bool_decide (newStatus = DISPUTED)
  | DISPUTED => bool_decide (newStatus = SUCCEEDED)
  | FAILED | CANCELLED | SETTLEMENT_FAILED => false
  end.

Definition stripe_target (eventType : string) : option IntentStatus :=
  if bool_decide (eventType = "payment_intent.succeeded") then Some SUCCEEDED
  else if bool_decide (eventType = "payment_intent.payment_failed") then Some FAILED
  else if bool_decide (eventType = "payment_intent.canceled") then Some CANCELLED
  else None.

Definition ProcessStripeWebhook (eventID eventType providerRef : string) (amountMicro : Z) : M unit :=
  let finish := updateWebhookStatus "stripe" eventID in
  claim_event "stripe" eventID eventType (
    let! p := read (fun p => p) in
    match find_intent "stripe" providerRef p with
    | None => finish IGNORED
    | Some intent =>
        match stripe_target eventType with
        | None => finish PROCESSED
        | Some target =>
            if bool_decide (target = SUCCEEDED) && (amountMicro <=? 0) then finish IGNORED
            else if negb (amountMicro =? i_amount intent) then finish IGNORED
            else if negb (isValidTransition (i_status intent) target) then finish IGNORED
            else
              let alreadySettled := bool_decide (i_status intent = SUCCEEDED) in
              UpdatePaymentIntentStatus (i_id intent) target (Some providerRef) ;;
              (if bool_decide (target = SUCCEEDED) && negb alreadySettled
               then CreateOutboxEvent SETTLE_BALANCE
                      (settleBalancePayload (i_customer intent) (i_amount intent) (i_id intent) "stripe" providerRef)
               else ret tt) ;;
              finish PROCESSED
        end
    end).

(** [ApplyIntentRefundAmount]; [chk_refunded_not_exceed_amount]. *)
Definition ApplyIntentRefundAmount (intent : Intent) (amt : Z) : M unit :=
  guard (bool_decide (0 <= i_refunded intent + amt <= i_amount intent)) PErrDB ;;
  update_intent (i_id intent) (fun i =>
    mkIntent (i_id i) (i_customer i) (i_amount i) (i_currency i)
      (if i_amount i <=? i_refunded i + amt then REFUNDED else i_status i)
      (i_provider i) (i_ref i) (i_key i) (i_meta i) (i_refunded i + amt)).

Definition ProcessStripeRefundWebhook (eventID eventType refundID intentRef : string) (amt : Z)
    (refundStatus : string) : M unit :=
  let finish := updateWebhookStatus "stripe" eventID in
  claim_event "stripe" eventID eventType (
    let! p := read (fun p => p) in
    if bool_decide (refundStatus = "failed") then
      match refund_rows p !! refundID with
      | Some r => modify (fun p => set_refunds (<[refundID := mkRefund (r_intent r) (r_amount r) RefundFailed]> (refund_rows p)) p)
      | None => finish PROCESSED
      end
    else if negb (bool_decide (refundStatus = "succeeded")) then finish PROCESSED
    else if amt <=? 0 then finish IGNORED
    else match find_intent "stripe" intentRef p with
    | None => finish IGNORED
    | Some intent =>
        if negb (bool_decide (i_status intent = SUCCEEDED) || bool_decide (i_status intent = REFUNDED))
        then finish IGNORED
        else if i_amount intent <? i_refunded intent +64 amt then finish IGNORED
        else match refund_rows p !! refundID with
        | Some r => finish (if bool_decide (r_status r = RefundSucceeded) then PROCESSED else IGNORED)
        | None =>
            modify (fun p => set_refunds (<[refundID := mkRefund (i_id intent) amt RefundSucceeded]> (refund_rows p)) p) ;;
            ApplyIntentRefundAmount intent amt ;;
            CreateOutboxEvent REVERSE_BALANCE
              (reverseBalancePayload (i_id intent) (i_customer intent) amt refundID) ;;
            finish PROCESSED
        end
    end).

(** ** Disputes *)

Definition disputeClosedStatus (stripeStatus : string) : option DisputeStatus :=
  if bool_decide (stripeStatus = "won") then Some WON
  else if bool_decide (stripeStatus = "lost") || bool_decide (stripeStatus = "charge_refunded") then Some LOST
  else None.

Definition intentStatusAllowsDispute (s : IntentStatus) : bool :=
  bool_decide (s = SUCCEEDED) || bool_decide (s = REFUNDED) || bool_decide (s = DISPUTED).

Definition dispute_amount (amt : Z) (intent : Intent) : Z := if amt <=? 0 then i_amount intent else amt.

Definition put_dispute (id : string) (x : Dispute) : M unit :=
  modify (fun p => set_disputes (<[id := x]> (disputes p)) p).
Definition set_dispute_status (id : string) (st : DisputeStatus) : M unit :=
  modify (fun p => set_disputes
    (alter (fun x => mkDispute (d_intent x) (d_amount x) st (d_withdrawn x) (d_reinstated x)) id (disputes p)) p).

Definition mark_disputed (intent : Intent) : M unit :=
  if bool_decide (i_status intent = DISPUTED) then ret tt
  else UpdatePaymentIntentStatus (i_id intent) DISPUTED None.

Definition new_dispute (intent : Intent) (amt : Z) : Dispute :=
  mkDispute (i_id intent) (dispute_amount amt intent) OPEN 0 0.

Definition ensureDisputeRow (intent : Intent) (disputeID : string) (amt : Z) : M Dispute :=
  put_dispute disputeID (new_dispute intent amt) ;; mark_disputed intent ;; ret (new_dispute intent amt).

(** The case of [charge.dispute.funds_withdrawn]. *)
Definition funds_withdrawn (finish : EventStatus -> M unit) (intent : Intent) (disputeID : string)
    (amt : Z) (dispute : option Dispute) : M unit :=
  let! x := match dispute with Some x => ret x | None => ensureDisputeRow intent disputeID amt end in
  if amt <=? d_withdrawn x then finish PROCESSED
  else
    let delta := amt -64 d_withdrawn x in
    if i_amount intent <? d_withdrawn x +64 delta then finish IGNORED
    else
      put_dispute disputeID
        (mkDispute (d_intent x) (d_amount x) FUNDS_WITHDRAWN (d_withdrawn x + delta) (d_reinstated x)) ;;
      mark_disputed intent ;;
      CreateOutboxEvent APPLY_CHARGEBACK
        (applyChargebackPayload (i_id intent) (i_customer intent) delta disputeID) ;;
      finish PROCESSED.

Definition funds_reinstated (finish : EventStatus -> M unit) (intent : Intent) (disputeID : string)
    (amt : Z) (dispute : option Dispute) : M unit :=
  match dispute with
  | None => finish IGNORED
  | Some x =>
      if amt <=? d_reinstated x then finish PROCESSED
      else
        let delta := amt -64 d_reinstated x in
        if d_withdrawn x <? d_reinstated x +64 delta then finish IGNORED
        else
          put_dispute disputeID
            (mkDispute (d_intent x) (d_amount x) FUNDS_REINSTATED (d_withdrawn x) (d_reinstated x + delta)) ;;
          CreateOutboxEvent REVERSE_CHARGEBACK
            (reverseChargebackPayload (i_id intent) (i_customer intent) delta disputeID) ;;
          finish PROCESSED
  end.

Definition dispute_created (finish : EventStatus -> M unit) (intent : Intent) (disputeID : string)
    (amt : Z) (dispute : option Dispute) : M unit :=
  match dispute with
  | Some _ => finish PROCESSED
  | None =>
      put_dispute disputeID (new_dispute intent amt) ;;
      (if bool_decide (i_status intent = DISPUTED) then finish PROCESSED
       else if negb (isValidTransition (i_status intent) DISPUTED) then finish IGNORED
       else UpdatePaymentIntentStatus (i_id intent) DISPUTED None ;; finish PROCESSED)
  end.

Definition dispute_closed (finish : EventStatus -> M unit) (eventType : string) (intent : Intent)
    (disputeID stripeStatus : string) (dispute : option Dispute) : M unit :=
  match disputeClosedStatus stripeStatus with
  | Some closed =>
      set_dispute_status disputeID closed ;;
      (if bool_decide (closed = WON) && bool_decide (i_status intent = DISPUTED)
       then UpdatePaymentIntentStatus (i_id intent) SUCCEEDED None else ret tt) ;;
      finish PROCESSED
  | None =>
      (match dispute with
       | Some _ => if bool_decide (eventType = "charge.dispute.updated")
                   then set_dispute_status disputeID OPEN else ret tt
       | None => ret tt
       end) ;;
      finish PROCESSED
  end.

Definition is_closing (eventType : string) : bool :=
  bool_decide (eventType = "charge.dispute.closed") || bool_decide (eventType = "charge.dispute.updated").

Definition ProcessStripeDisputeWebhook (eventID eventType disputeID intentRef : string) (amt : Z)
    (stripeStatus : string) : M unit :=
  let finish := updateWebhookStatus "stripe" eventID in
  claim_event "stripe" eventID eventType (
    let! p := read (fun p => p) in
    if bool_decide (intentRef = "") then finish IGNORED
    else if (amt <=? 0) && negb (is_closing eventType) then finish IGNORED
    else match find_intent "stripe" intentRef p with
    | None => finish IGNORED
    | Some intent =>
        if negb (intentStatusAllowsDispute (i_status intent)) then finish IGNORED
        else
          let dispute := disputes p !! disputeID in
          if bool_decide (eventType = "charge.dispute.created")
          then dispute_created finish intent disputeID amt dispute
          else if bool_decide (eventType = "charge.dispute.funds_withdrawn")
          then funds_withdrawn finish intent disputeID amt dispute
          else if bool_decide (eventType = "charge.dispute.funds_reinstated")
          then funds_reinstated finish intent disputeID amt dispute
          else if is_closing eventType
          then dispute_closed finish eventType intent disputeID stripeStatus dispute
          else finish PROCESSED
    end).

(** ** Crypto payments *)

Record CryptoCfg := mkCryptoCfg { CryptoMinPaymentMicro : Z; CryptoConfirmationDepth : Z }.

Definition hour : Z := 3600000000000.

Section license.
(** [uuid.Parse] of google/uuid, as the id's canonical text. *)
Context (uuid_Parse : string -> option UUID).

Definition meta_or (m : gmap string string) (k d : string) : string :=
  match m !! k with Some s => if bool_decide (s = "") then d else s | None => d end.

(** [newDep] and [newLic] are the fresh ids drawn when the metadata has none. *)
Definition MaybeActivateLicenseFromIntent (now : Z) (newDep newLic : UUID) (intent : Intent) : M unit :=
  let m := i_meta intent in
  if negb (bool_decide (m !! "purpose" = Some "license_activation")) then ret tt
  else
    let! dep := lift (uuid_Parse (meta_or m "deployment_id" newDep)) PErrLicense in
    let! lic := lift (uuid_Parse (meta_or m "license_id" newLic)) PErrLicense in
    modify (fun p => set_licenses
      (<[dep := mkLicense lic (meta_or m "plan_code" "crypto_topup") (now + 365 * 24 * hour)]> (licenses p)) p).

Definition ProcessCryptoWebhook (cfg : CryptoCfg) (now : Z) (holdID newDep newLic : UUID)
    (eventID eventType providerRef : string) (amountMicro confirmations : Z) : M unit :=
  let finish := updateWebhookStatus "crypto" eventID in
  claim_event "crypto" eventID eventType (
    let! p := read (fun p => p) in
    match find_intent "crypto" providerRef p with
    | None => finish IGNORED
    | Some intent =>
        let to st := UpdatePaymentIntentStatus (i_id intent) st (Some providerRef) in
        if amountMicro <=? 0 then finish IGNORED
        else if amountMicro <? i_amount intent then to FAILED ;; finish IGNORED
        else if amountMicro <? CryptoMinPaymentMicro cfg then to FAILED ;; finish IGNORED
        else if confirmations <? CryptoConfirmationDepth cfg then to PROCESSING ;; finish PROCESSED
        else if negb (isValidTransition (i_status intent) SUCCEEDED) then finish IGNORED
        else
          let alreadySettled := bool_decide (i_status intent = SUCCEEDED) in
          to SUCCEEDED ;;
          (if alreadySettled then ret tt
           else modify (fun p => set_holds
                  (holds p ++ [mkHold holdID (i_id intent) (i_customer intent) amountMicro HELD
                                 (now + 14 * 24 * hour)]) p)) ;;
          MaybeActivateLicenseFromIntent now newDep newLic intent ;;
          finish PROCESSED
    end).

End license.

(** ** Crypto holds *)

Definition due (now : Z) (h : Hold) : bool := bool_decide (h_status h = HELD) && (h_release_at h <=? now).

(** [ORDER BY release_at ASC LIMIT 1]: the first of the earliest. *)
Fixpoint earliest (l : list Hold) : option Hold :=
  match l with
  | [] => None
  | h :: r => match earliest r with
              | Some h' => if h_release_at h' <? h_release_at h then Some h' else Some h
              | None => Some h
              end
  end.

Definition claim_hold (now : Z) (p : PayDB) : option Hold := earliest (List.filter (due now) (holds p)).

Definition has_open_dispute (cust : UUID) (p : PayDB) : bool :=
  existsb (fun i => bool_decide (i_customer i = cust) &&
             existsb (fun '(_, x) => bool_decide (d_intent x = i_id i) && bool_decide (d_status x = OPEN))
               (map_to_list (disputes p)))
    (intents p).
Definition isFraudulent (cust : UUID) (p : PayDB) : bool :=
  has_open_dispute cust p ||
  existsb (fun i => bool_decide (i_customer i = cust) &&
             (bool_decide (i_status i = FAILED) || bool_decide (i_status i = DISPUTED))) (intents p).

Definition set_hold_status (id : UUID) (st : HoldStatus) : M unit :=
  modify (fun p => set_holds
    (map (fun h => if bool_decide (h_id h = id)
                   then mkHold (h_id h) (h_intent h) (h_customer h) (h_amount h) st (h_release_at h) else h)
       (holds p)) p).

(** One transaction of the loop: whether it claimed a hold. *)
Definition process_hold (now : Z) : M bool :=
  let! p := read (fun p => p) in
  match claim_hold now p with
  | None => ret false
  | Some h =>
      (if isFraudulent (h_customer h) p then set_hold_status (h_id h) FRAUD_BLOCKED
       else
         set_hold_status (h_id h) RELEASED ;;
         CreateOutboxEvent SETTLE_BALANCE
           (settleBalancePayload (h_customer h) (h_amount h) (h_intent h) "crypto"
              ("tx_crypto_" +:+ h_intent h))) ;;
      ret true
  end.

Fixpoint ProcessHolds (fuel : nat) (now : Z) (p : PayDB) : option PayDB :=
  match fuel with
  | O => None
  | S n => match BeginFunc (process_hold now) p with
           | (inl _, p') => Some p'
           | (inr false, p') => Some p'
           | (inr true, p') => ProcessHolds n now p'
           end
  end.

(** ** Dispatch and replay *)

(** A decoded Stripe event. *)
Record StripeEvent := mkStripeEvent {
  se_id : string; se_type : string; se_object : string; se_amount : Z; se_payment_intent : string;
  se_status : string }.

Definition is_refund_type (t : string) : bool :=
  bool_decide (t = "refund.created") || bool_decide (t = "refund.updated") || bool_decide (t = "refund.failed").
Definition is_dispute_type (t : string) : bool :=
  bool_decide (t = "charge.dispute.created") || bool_decide (t = "charge.dispute.updated")
  || bool_decide (t = "charge.dispute.closed") || bool_decide (t = "charge.dispute.funds_withdrawn")
  || bool_decide (t = "charge.dispute.funds_reinstated").

Definition dispatchStripeWebhook (e : StripeEvent) : M unit :=
  let amt := StripeAmountToMicro (se_amount e) in
  if is_refund_type (se_type e) then
    ProcessStripeRefundWebhook (se_id e) (se_type e) (se_object e) (se_payment_intent e) amt
      (if bool_decide (se_type e = "refund.failed") then "failed" else se_status e)
  else if is_dispute_type (se_type e) then
    ProcessStripeDisputeWebhook (se_id e) (se_type e) (se_object e) (se_payment_intent e) amt (se_status e)
  else if bool_decide (se_object e = "") then raise PErrBadRequest
  else ProcessStripeWebhook (se_id e) (se_type e) (se_object e) amt.

(** [ReplayWebhook] of a stored event whose payload decodes to [body]; the
    payload has the event's id or none. *)
Inductive ReplayAnswer := AlreadyProcessed | ReplayProcessed | ReplayError (e : PErr).

Definition ReplayWebhook (provider eventID : string) (body : StripeEvent) (p : PayDB)
    : ReplayAnswer * PayDB :=
  if negb (bool_decide (provider = "stripe")) || bool_decide (eventID = "") then (ReplayError PErrBadRequest, p)
  else match events p !! (provider, eventID) with
  | None => (ReplayError PErrNoRows, p)
  | Some ev =>
      if bool_decide (ev_status ev = PROCESSED) || bool_decide (ev_status ev = IGNORED)
      then (AlreadyProcessed, p)
      else
        let e := mkStripeEvent (if bool_decide (se_id body = "") then eventID else se_id body)
                   (if bool_decide (se_type body = "") then ev_type ev else se_type body)
                   (se_object body) (se_amount body) (se_payment_intent body) (se_status body) in
        match BeginFunc (dispatchStripeWebhook e) p with
        | (inl err, p') => (ReplayError err, p')
        | (inr _, p') => (ReplayProcessed, p')
        end
  end.

(** ** Everything that changes the payment tables, but the outbox worker *)

Inductive Input :=
  | InClaim (newID cust : UUID) (amt : Z) (currency key : string) (meta : gmap string string) (provider : string)
  | InFinalize (id : UUID) (provRef : string) (meta : gmap string string)
  | InMarkFailed (id : UUID)
  | InStripe (eventID eventType ref : string) (amt : Z)
  | InRefund (eventID eventType refundID ref : string) (amt : Z) (st : string)
  | InDispute (eventID eventType disputeID ref : string) (amt : Z) (st : string)
  | InCrypto (cfg : CryptoCfg) (now : Z) (holdID newDep newLic : UUID) (eventID eventType ref : string) (amt conf : Z)
  | InHold (now : Z).

Definition run_input (uuid_Parse : string -> option UUID) (x : Input) : M unit :=
  match x with
  | InClaim id c a cur k m pr => claimPaymentIntent id c a cur k m pr ;; ret tt
  | InFinalize id r m => finalizePaymentIntent id r m
  | InMarkFailed id => markIntentFailed id
  | InStripe e t r a => ProcessStripeWebhook e t r a
  | InRefund e t i r a s => ProcessStripeRefundWebhook e t i r a s
  | InDispute e t i r a s => ProcessStripeDisputeWebhook e t i r a s
  | InCrypto cfg now h dep lic e t r a c => ProcessCryptoWebhook uuid_Parse cfg now h dep lic e t r a c
  | InHold now => process_hold now ;; ret tt
  end.

Definition input_ok (x : Input) : Prop :=
  match x with InClaim _ _ a _ _ _ _ => in_i64 a | _ => True end.

(** ** Invariants of the tables *)

Definition is_type (t : OutboxType) (id : UUID) (r : OutboxRow) : bool :=
  bool_decide (o_type r = t) && bool_decide (p_intent (o_payload r) = id).

Definition refund_sum (id : UUID) (l : list OutboxRow) : Z :=
  sumZ (map (fun r => if is_type REVERSE_BALANCE id r then p_amount (o_payload r) else 0) l).

Definition settled (s : IntentStatus) : bool :=
  match s with SUCCEEDED | REFUNDED | DISPUTED => true | _ => false end.

Definition refund_id (r : OutboxRow) : option string :=
  if bool_decide (o_type r = REVERSE_BALANCE) then Some (p_ref (o_payload r)) else None.

(** What a row of the outbox says of the intent it belongs to. *)
Definition payload_of (i : Intent) (r : OutboxRow) : Prop :=
  let pl := o_payload r in
  p_intent pl = i_id i /\ p_customer pl = i_customer i /\
  match o_type r with
  | SETTLE_BALANCE =>
      p_key pl = LedgerIdempotencyKey (i_id i) /\ (i_provider i = "stripe" -> p_amount pl = i_amount i)
  | REVERSE_BALANCE =>
      i_provider i = "stripe" /\ p_key pl = refundLedgerIdempotencyKey (p_ref pl) /\
      0 < p_amount pl <= i_amount i
  | APPLY_CHARGEBACK => p_key pl = chargebackWithdrawnLedgerKey (p_ref pl)
  | REVERSE_CHARGEBACK => p_key pl = chargebackReinstatedLedgerKey (p_ref pl)
  end.

Record PI (p : PayDB) : Prop := mkPI {
  pi_ids : NoDup (map i_id (intents p));
  pi_amounts : Forall (fun i => 0 < i_amount i /\ in_i64 (i_amount i) /\ 0 <= i_refunded i <= i_amount i) (intents p);
  pi_rows : forall k r, outbox p !! k = Some r -> o_id r = Z.of_nat k;
  pi_payloads : Forall (fun r => exists i, i ∈ intents p /\ payload_of i r) (outbox p);
  pi_holds : Forall (fun h => exists i, i ∈ intents p /\ i_id i = h_intent h /\ i_customer i = h_customer h
                                        /\ i_provider i = "crypto") (holds p);
  pi_settle : Forall (fun i => i_provider i = "stripe" -> settled (i_status i) = true ->
                Exists (fun r => is_type SETTLE_BALANCE (i_id i) r = true) (outbox p)) (intents p);
  pi_refund_ids : NoDup (omap refund_id (outbox p));
  pi_refund_rows : Forall (fun r => forall x, refund_id r = Some x -> is_Some (refund_rows p !! x)) (outbox p);
  pi_refunded : Forall (fun i => i_refunded i = refund_sum (i_id i) (outbox p)) (intents p) }.

(** Fields no operation changes after the intent is created. *)
Definition same_intent (i i' : Intent) : Prop :=
  i_id i' = i_id i /\ i_customer i' = i_customer i /\ i_amount i' = i_amount i /\ i_provider i' = i_provider i.

Lemma payload_same i i' r : same_intent i i' -> payload_of i r -> payload_of i' r.
Proof. intros (E1 & E2 & E3 & E4). unfold payload_of. by rewrite E1, E2, E3, E4. Qed.

Lemma find_intent_spec provider ref p i :
  find_intent provider ref p = Some i -> i ∈ intents p /\ i_provider i = provider.
Proof.
  intros [Hin H]%find_some. apply andb_prop in H as [H1%bool_decide_eq_true H2%bool_decide_eq_true].
  split; [by apply list_elem_of_In|done].
Qed.

Lemma intent_unique p i j : PI p -> i ∈ intents p -> j ∈ intents p -> i_id i = i_id j -> i = j.
Proof.
  intros H. pose proof (pi_ids _ H) as Hn. revert Hn. generalize (intents p) as l.
  induction l as [|x l IH]; [set_solver|]. simpl. intros [Hx Hn]%NoDup_cons.
  intros [->|Hi]%elem_of_cons [->|Hj]%elem_of_cons E; [done| | |by apply IH].
  - destruct Hx. rewrite E. apply list_elem_of_fmap. eauto.
  - destruct Hx. rewrite <- E. apply list_elem_of_fmap. eauto.
Qed.

Lemma refund_sum_app id l r :
  refund_sum id (l ++ [r]) = refund_sum id l + (if is_type REVERSE_BALANCE id r then p_amount (o_payload r) else 0).
Proof. unfold refund_sum. rewrite map_app, sumZ_app. simpl. lia. Qed.

(** ** How the tables may change *)

Lemma PI_frame p p' :
  PI p -> intents p' = intents p -> refund_rows p' = refund_rows p -> holds p' = holds p ->
  outbox p' = outbox p -> PI p'.
Proof. intros [] E1 E2 E3 E4. constructor; rewrite ?E1, ?E2, ?E3, ?E4; done. Qed.

(** An update of the mutable fields of one intent. *)
Lemma elem_of_update id f l i :
  (forall j, j ∈ l -> same_intent j (f j)) -> i ∈ map (fun j => if bool_decide (i_id j = id) then f j else j) l ->
  exists j, j ∈ l /\ same_intent j i /\ i = (if bool_decide (i_id j = id) then f j else j).
Proof.
  intros Hf [j [-> Hj]]%list_elem_of_fmap. exists j. split; [done|]. split; [|done].
  case_bool_decide; [by apply Hf|done].
Qed.

Lemma update_elem id f l j :
  j ∈ l -> (if bool_decide (i_id j = id) then f j else j) ∈ map (fun j => if bool_decide (i_id j = id) then f j else j) l.
Proof. intros Hj. apply list_elem_of_fmap. eauto. Qed.

Lemma update_same id f l j :
  (forall j, j ∈ l -> same_intent j (f j)) -> j ∈ l ->
  exists i, i ∈ map (fun j => if bool_decide (i_id j = id) then f j else j) l /\ same_intent j i.
Proof.
  intros Hf Hj. eexists. split; [by apply update_elem|]. case_bool_decide; [by apply Hf|done].
Qed.

Lemma PI_update p id f :
  PI p ->
  (forall i, i ∈ intents p -> same_intent i (f i) /\ i_refunded (f i) = i_refunded i) ->
  (forall i, i ∈ intents p -> i_id i = id -> i_provider i = "stripe" -> settled (i_status (f i)) = true ->
     Exists (fun r => is_type SETTLE_BALANCE id r = true) (outbox p)) ->
  PI (set_intents (map (fun i => if bool_decide (i_id i = id) then f i else i) (intents p)) p).
Proof.
  intros H Hf Hs. assert (forall i, i ∈ intents p -> same_intent i (f i)) as Hsame by (intros; by apply Hf).
  destruct H. constructor; simpl; try done.
  - rewrite map_map.
    rewrite (map_ext_in _ i_id); [done|]. intros i Hi%list_elem_of_In. case_bool_decide; [|done].
    by destruct (Hsame i Hi).
  - apply Forall_forall. intros i (j & Hj & (E1 & E2 & E3 & E4) & Ei)%elem_of_update; [|done].
    rewrite Forall_forall in pi_amounts0. specialize (pi_amounts0 j Hj). rewrite E3.
    assert (i_refunded i = i_refunded j) as ->; [|done]. rewrite Ei. case_bool_decide; [by apply Hf|done].
  - eapply Forall_impl; [exact pi_payloads0|]. intros r (i & Hi & Hp).
    destruct (update_same id f _ i Hsame Hi) as (i' & Hi' & Hs'). exists i'. split; [done|].
    by eapply payload_same.
  - eapply Forall_impl; [exact pi_holds0|]. intros h (i & Hi & E1 & E2 & E3).
    destruct (update_same id f _ i Hsame Hi) as (i' & Hi' & F1 & F2 & F3 & F4). exists i'. by rewrite F1, F2, F4.
  - apply Forall_forall. intros i (j & Hj & (E1 & E2 & E3 & E4) & Ei)%elem_of_update; [|done].
    rewrite E1, E4. intros Hp Hst. rewrite Ei in Hst. case_bool_decide as Eid.
    + rewrite Eid. by eapply Hs.
    + rewrite Forall_forall in pi_settle0. by apply pi_settle0.
  - apply Forall_forall. intros i (j & Hj & (E1 & E2 & E3 & E4) & Ei)%elem_of_update; [|done].
    rewrite Forall_forall in pi_refunded0. specialize (pi_refunded0 j Hj). rewrite E1.
    assert (i_refunded i = i_refunded j) as ->; [|done]. rewrite Ei. case_bool_decide; [by apply Hf|done].
Qed.

Lemma PI_status p id st r :
  PI p ->
  (forall i, i ∈ intents p -> i_id i = id -> i_provider i = "stripe" -> settled st = true ->
     Exists (fun r => is_type SETTLE_BALANCE id r = true) (outbox p)) ->
  PI (set_intents (map (fun i => if bool_decide (i_id i = id) then with_status st r i else i) (intents p)) p).
Proof. intros H Hs. apply PI_update; [done|done|]. intros i Hi E Hp Hst. by eapply Hs. Qed.

(** A new row that is not a refund. *)
Lemma PI_add_row p t pl i :
  PI p -> t <> REVERSE_BALANCE -> i ∈ intents p ->
  payload_of i (mkOutbox (zlen (outbox p)) t pl OutPending None 0) ->
  PI (set_outbox (outbox p ++ [mkOutbox (zlen (outbox p)) t pl OutPending None 0]) p).
Proof.
  intros H Ht Hi Hpl. set (r := mkOutbox _ _ _ _ _ _) in *.
  assert (refund_id r = None) as Hr by (unfold refund_id; simpl; by rewrite bool_decide_eq_false_2).
  destruct H. constructor; simpl; try done.
  - intros k x [[_ Hk]|[-> Hx]]%lookup_snoc_Some; [by apply pi_rows0|]. by subst x.
  - apply Forall_app. split; [done|]. constructor; [|done]. by exists i.
  - eapply Forall_impl; [exact pi_settle0|]. intros j Hj Hp Hst. apply Exists_app. left. by apply Hj.
  - rewrite omap_app. simpl. by rewrite Hr, app_nil_r.
  - apply Forall_app. split; [done|]. constructor; [|done]. by rewrite Hr.
  - eapply Forall_impl; [exact pi_refunded0|]. intros j ->. rewrite refund_sum_app.
    unfold is_type. simpl. rewrite bool_decide_eq_false_2 by done. simpl. lia.
Qed.

(** Rows whose id, type and payload stay: the worker's leases and marks. *)
Lemma PI_map_rows p g :
  PI p -> (forall r, o_id (g r) = o_id r /\ o_type (g r) = o_type r /\ o_payload (g r) = o_payload r) ->
  PI (set_outbox (map g (outbox p)) p).
Proof.
  intros H Hg.
  assert (forall r, refund_id (g r) = refund_id r) as Hgr.
  { intros r. unfold refund_id. by destruct (Hg r) as (_ & -> & ->). }
  assert (forall t id r, is_type t id (g r) = is_type t id r) as Hgt.
  { intros t id r. unfold is_type. by destruct (Hg r) as (_ & -> & ->). }
  destruct H. constructor; simpl; try done.
  - intros k r. rewrite list_lookup_fmap. intros (x & Hx & ->)%fmap_Some. destruct (Hg x) as (-> & _).
    by apply pi_rows0.
  - apply Forall_map. eapply Forall_impl; [exact pi_payloads0|]. intros r (i & Hi & Hp). exists i.
    split; [done|]. unfold payload_of in *. simpl. by destruct (Hg r) as (_ & -> & ->).
  - eapply Forall_impl; [exact pi_settle0|]. intros i Hi Hp Hs. apply Exists_exists.
    apply Exists_exists in Hi as (r & Hr & Hty); [|done|done]. exists (g r).
    split; [by apply list_elem_of_fmap_2|]. by rewrite Hgt.
  - assert (omap refund_id (map g (outbox p)) = omap refund_id (outbox p)) as ->; [|done].
    clear -Hgr. induction (outbox p) as [|a l IHl]; simpl; [done|]. rewrite Hgr. destruct (refund_id a); [f_equal|]; exact IHl.
  - apply Forall_map. eapply Forall_impl; [exact pi_refund_rows0|]. intros r Hr. simpl. by rewrite Hgr.
  - eapply Forall_impl; [exact pi_refunded0|]. intros i ->. unfold refund_sum. rewrite map_map.
    f_equal. apply map_ext. intros r. rewrite Hgt. by destruct (Hg r) as (_ & _ & ->).
Qed.

Lemma PI_refund_row p id r :
  PI p -> PI (set_refunds (<[id := r]> (refund_rows p)) p).
Proof.
  intros []. constructor; simpl; try done.
  eapply Forall_impl; [exact pi_refund_rows0|]. intros x Hx y Hy. destruct (decide (id = y)) as [->|Hne].
  - rewrite lookup_insert_eq. eauto.
  - rewrite lookup_insert_ne by done. by apply Hx.
Qed.

(** ** The operations keep the invariants *)

Lemma same_trans i j k : same_intent i j -> same_intent j k -> same_intent i k.
Proof. unfold same_intent. intros (-> & -> & -> & ->) (-> & -> & -> & ->). done. Qed.

Lemma pres_finish pr id st : preserves PI (updateWebhookStatus pr id st).
Proof. intros p a p' H [= <- <-]. by eapply PI_frame. Qed.

Lemma pres_claim_event pr id ty k : preserves PI k -> preserves PI (claim_event pr id ty k).
Proof.
  intros Hk. unfold claim_event. apply preserves_bind; [auto with tx|]. intros p0. case_match; [auto with tx|].
  apply preserves_bind; [|done]. intros p a p1 HP [= <- <-]. by eapply PI_frame.
Qed.

Hint Resolve pres_finish : tx.

Lemma pres_put_dispute id x : preserves PI (put_dispute id x).
Proof. intros p a p' H [= <- <-]. by eapply PI_frame. Qed.

Lemma pres_dispute_status id st : preserves PI (set_dispute_status id st).
Proof. intros p a p' H [= <- <-]. by eapply PI_frame. Qed.

Hint Resolve pres_put_dispute pres_dispute_status : tx.

(** The intent a webhook found, with the invariant of the tables. *)
Definition PIi (i : Intent) (p : PayDB) : Prop :=
  PI p /\ (exists i', i' ∈ intents p /\ same_intent i i') /\
  (i_provider i = "stripe" -> settled (i_status i) = true ->
   Exists (fun r => is_type SETTLE_BALANCE (i_id i) r = true) (outbox p)).

Lemma PIi_found pr ref p i : PI p -> find_intent pr ref p = Some i -> PIi i p /\ i_provider i = pr /\ i ∈ intents p.
Proof.
  intros H [Hi Hp]%find_intent_spec. split; [|done]. split; [done|]. split; [by exists i|].
  pose proof (pi_settle _ H) as Hs. rewrite Forall_forall in Hs. intros. by apply Hs.
Qed.

Lemma PIi_PI i p : PIi i p -> PI p.
Proof. by intros []. Qed.

Lemma PIi_id i p j : PIi i p -> j ∈ intents p -> i_id j = i_id i -> same_intent i j.
Proof.
  intros (H & (i' & Hi' & Hs) & _) Hj E. assert (j = i') as ->; [|done].
  eapply intent_unique; [done..|]. destruct Hs as (-> & _). done.
Qed.

(** A status that needs no settlement row, or whose row is there. *)
Lemma PIi_set_status i st r :
  (i_provider i = "stripe" -> settled st = true -> settled (i_status i) = true) ->
  preserves (PIi i) (UpdatePaymentIntentStatus (i_id i) st r).
Proof.
  intros Hst p a p' H [= <- <-]. destruct H as (H & (i' & Hi' & Hs) & Hrow).
  assert (PIi i p) as HPIi by (split; [done|]; split; [by exists i'|done]). split; [|split; [|done]].
  - apply PI_status; [done|]. intros j Hj E Hp Hset. pose proof (PIi_id _ _ _ HPIi Hj E) as (_ & _ & _ & E4).
    apply Hrow; [congruence|]. apply Hst; [congruence|done].
  - destruct (update_same (i_id i) (with_status st r) (intents p) i') as (j & Hj & Hs'); [done|done|].
    exists j. split; [done|]. by eapply same_trans.
Qed.

Lemma PIi_weaken {A} i (m : M A) : preserves (PIi i) m -> triple (PIi i) m (fun _ => PI).
Proof. intros H p a p' Hp E. eapply PIi_PI, H; eauto. Qed.

Lemma PIi_finish i pr id st : preserves (PIi i) (updateWebhookStatus pr id st).
Proof. intros p a p' (H & Hi & Hr) [= <- <-]. split; [by eapply PI_frame|]. done. Qed.

Lemma PIi_put_dispute i id x : preserves (PIi i) (put_dispute id x).
Proof. intros p a p' (H & Hi & Hr) [= <- <-]. split; [by eapply PI_frame|]. done. Qed.

Lemma PIi_dispute_status i id st : preserves (PIi i) (set_dispute_status id st).
Proof. intros p a p' (H & Hi & Hr) [= <- <-]. split; [by eapply PI_frame|]. done. Qed.

Lemma PIi_add_row i t pl :
  t <> REVERSE_BALANCE -> (forall p, payload_of i (mkOutbox (zlen (outbox p)) t pl OutPending None 0)) ->
  preserves (PIi i) (CreateOutboxEvent t pl).
Proof.
  intros Ht Hpl p a p' (H & (i' & Hi' & Hs) & Hr) [= <- <-]. split; [|split; [by exists i'|]].
  - eapply PI_add_row; [done|done|exact Hi'|]. eapply payload_same; [done|]. apply Hpl.
  - intros. apply Exists_app. left. by apply Hr.
Qed.

Hint Resolve PIi_finish PIi_put_dispute PIi_dispute_status : tx.

Lemma triple_read {A B} (P : PayDB -> Prop) (q : PayDB -> A) (k : A -> M B) Q :
  (forall p, P p -> triple (fun s => s = p) (k (q p)) Q) -> triple P (bind (read q) k) Q.
Proof. intros H p b p' HP Hk. eapply (H p HP p); [done|exact Hk]. Qed.

Lemma triple_at {A} (P : PayDB -> Prop) p (m : M A) Q : P p -> triple P m Q -> triple (fun s => s = p) m Q.
Proof. intros HP H s a s' -> Hm. by eapply H. Qed.

Lemma triple_if {A} (b : bool) (m1 m2 : M A) P Q :
  triple P m1 Q -> triple P m2 Q -> triple P (if b then m1 else m2) Q.
Proof. by destruct b. Qed.

(** A settlement row written with the status that makes it due. *)
Lemma PIi_settles i r pr :
  preserves (PIi i) (UpdatePaymentIntentStatus (i_id i) SUCCEEDED r ;;
    CreateOutboxEvent SETTLE_BALANCE (settleBalancePayload (i_customer i) (i_amount i) (i_id i) pr (default "" r))).
Proof.
  intros p a p' H Hm. unfold UpdatePaymentIntentStatus, update_intent, CreateOutboxEvent in Hm. tx_inv Hm.
  set (row := mkOutbox _ _ _ _ _ _). cbn [outbox set_intents] in *.
  assert (PIi i (set_outbox (outbox p ++ [row]) p)) as Hrow.
  { refine (PIi_add_row i SETTLE_BALANCE (settleBalancePayload (i_customer i) (i_amount i) (i_id i) pr (default "" r))
              _ _ p tt _ H eq_refl); [done|]. intros q. by unfold payload_of. }
  assert (Exists (fun x => is_type SETTLE_BALANCE (i_id i) x = true) (outbox p ++ [row])) as Hex.
  { apply Exists_app. right. constructor. unfold is_type. simpl. by rewrite !bool_decide_eq_true_2. }
  destruct Hrow as (HPI & (i' & Hi' & Hs) & _).
  split; [|split; [|done]].
  - refine (PI_status _ (i_id i) SUCCEEDED r HPI _). done.
  - destruct (update_same (i_id i) (with_status SUCCEEDED r) (intents p) i') as (j & Hj & Hs'); [done|done|].
    exists j. split; [done|]. by eapply same_trans.
Qed.

Lemma pres_stripe id ty ref amt : preserves PI (ProcessStripeWebhook id ty ref amt).
Proof.
  apply pres_claim_event. apply triple_read. intros p HPI.
  destruct (find_intent "stripe" ref p) as [i|] eqn:Hf; [|eapply triple_at; [exact HPI|apply pres_finish]].
  apply (PIi_found _ _ _ _ HPI) in Hf as (HPIi & Hpr & _). eapply triple_at; [exact HPIi|].
  apply PIi_weaken. destruct (stripe_target ty) as [target|] eqn:Ht; [|auto with tx].
  repeat (apply triple_if; [apply PIi_finish|]).
  destruct (decide (target = SUCCEEDED)) as [->|Hne].
  - rewrite (bool_decide_eq_true_2 (SUCCEEDED = SUCCEEDED)) by done. case_bool_decide as Hst; simpl.
    + apply preserves_bind; [apply PIi_set_status; by rewrite Hst|intros _]. auto with tx.
    + intros q a q' Hq Hm. eapply (PIi_finish i "stripe" id PROCESSED); [|exact Hm].
      eapply (PIi_settles i (Some ref) "stripe"); [exact Hq|]. reflexivity.
  - rewrite (bool_decide_eq_false_2 (target = SUCCEEDED)) by done. simpl.
    apply preserves_bind; [|intros _; apply preserves_bind; [apply preserves_ret|intros _; apply PIi_finish]].
    apply PIi_set_status. unfold stripe_target in Ht. intros _ Hs.
    repeat case_bool_decide; simplify_eq; done.
Qed.

(** ** Refunds *)

(** The final state of an accepted refund. *)
Lemma PI_refund p i refundID amt :
  PI p -> i ∈ intents p -> i_provider i = "stripe" -> settled (i_status i) = true -> 0 < amt ->
  i_refunded i + amt <= i_amount i -> refund_rows p !! refundID = None ->
  let row := mkOutbox (zlen (outbox p)) REVERSE_BALANCE
               (reverseBalancePayload (i_id i) (i_customer i) amt refundID) OutPending None 0 in
  let upd := fun j => mkIntent (i_id j) (i_customer j) (i_amount j) (i_currency j)
      (if i_amount j <=? i_refunded j + amt then REFUNDED else i_status j)
      (i_provider j) (i_ref j) (i_key j) (i_meta j) (i_refunded j + amt) in
  PI (mkPay (map (fun j => if bool_decide (i_id j = i_id i) then upd j else j) (intents p)) (events p)
        (<[refundID := mkRefund (i_id i) amt RefundSucceeded]> (refund_rows p)) (disputes p) (holds p)
        (outbox p ++ [row]) (licenses p)).
Proof.
  intros H Hi Hp Hset Hamt Hle Hnew row upd.
  assert (forall j, j ∈ intents p -> same_intent j (upd j)) as Hsame by (intros; done).
  assert (forall j, j ∈ intents p -> i_id j = i_id i -> j = i) as Huniq by (intros; by eapply intent_unique).
  pose proof (pi_amounts _ H) as Ham. rewrite Forall_forall in Ham. specialize (Ham i Hi) as (Ha1 & Ha2 & Ha3).
  pose proof (pi_settle _ H) as Hst. rewrite Forall_forall in Hst. specialize (Hst i Hi Hp Hset).
  assert (refund_id row = Some refundID) as Hrid by (unfold refund_id; by rewrite bool_decide_eq_true_2).
  assert (refundID ∉ omap refund_id (outbox p)) as Hfresh.
  { intros (r & Hr & Hid)%list_elem_of_omap. pose proof (pi_refund_rows _ H) as Hrr.
    rewrite Forall_forall in Hrr. destruct (Hrr r Hr _ Hid) as [x Hx]. congruence. }
  destruct H. constructor; simpl.
  - rewrite map_map. rewrite (map_ext_in _ i_id); [done|]. intros j _. by case_bool_decide.
  - apply Forall_forall. intros j (k & Hk & (E1 & E2 & E3 & E4) & Ej)%elem_of_update; [|done].
    rewrite Forall_forall in pi_amounts0. destruct (pi_amounts0 k Hk) as (B1 & B2 & B3). rewrite E3.
    split; [done|]. split; [done|]. rewrite Ej. case_bool_decide as Eid; [|done].
    rewrite (Huniq k Hk Eid). simpl. lia.
  - intros k x [[_ Hk]|[-> Hx]]%lookup_snoc_Some; [by apply pi_rows0|]. by subst x.
  - apply Forall_app. split.
    + eapply Forall_impl; [exact pi_payloads0|]. intros r (j & Hj & Hpl).
      destruct (update_same (i_id i) upd _ j Hsame Hj) as (j' & Hj' & Hs'). exists j'. split; [done|].
      by eapply payload_same.
    + constructor; [|done]. destruct (update_same (i_id i) upd _ i Hsame Hi) as (j' & Hj' & Hs').
      exists j'. split; [done|]. eapply payload_same; [exact Hs'|]. unfold payload_of. simpl.
      split_and!; try done; lia.
  - eapply Forall_impl; [exact pi_holds0|]. intros h (j & Hj & F1 & F2 & F3).
    destruct (update_same (i_id i) upd _ j Hsame Hj) as (j' & Hj' & G1 & G2 & G3 & G4). exists j'.
    by rewrite G1, G2, G4.
  - apply Forall_forall. intros j (k & Hk & (E1 & E2 & E3 & E4) & Ej)%elem_of_update; [|done].
    rewrite E1, E4. intros Hpk Hsj. apply Exists_app. left.
    destruct (decide (i_id k = i_id i)) as [Eid|Eid]; [by rewrite Eid|].
    rewrite Forall_forall in pi_settle0. apply pi_settle0; [done..|]. rewrite Ej in Hsj.
    by rewrite bool_decide_eq_false_2 in Hsj.
  - rewrite omap_app. cbn [omap list_omap]. rewrite Hrid. apply NoDup_app. split; [done|].
    split; [|apply NoDup_singleton]. intros x Hx ->%list_elem_of_singleton. done.
  - apply Forall_app. split.
    + eapply Forall_impl; [exact pi_refund_rows0|]. intros r Hr x Hx. destruct (decide (refundID = x)) as [->|].
      * rewrite lookup_insert_eq. eauto.
      * rewrite lookup_insert_ne by done. by apply Hr.
    + constructor; [|done]. intros x Hx. rewrite Hrid in Hx. injection Hx as <-. rewrite lookup_insert_eq. eauto.
  - apply Forall_forall. intros j (k & Hk & (E1 & E2 & E3 & E4) & Ej)%elem_of_update; [|done].
    rewrite Forall_forall in pi_refunded0. rewrite E1, refund_sum_app, <- (pi_refunded0 k Hk).
    unfold is_type. simpl. rewrite Ej. case_bool_decide as Eid.
    + rewrite (bool_decide_eq_true_2 (i_id i = i_id k)) by done. simpl. lia.
    + rewrite (bool_decide_eq_false_2 (i_id i = i_id k)) by congruence. simpl. lia.
Qed.

Lemma pres_refund id ty refundID ref amt st :
  preserves PI (ProcessStripeRefundWebhook id ty refundID ref amt st).
Proof.
  apply pres_claim_event. apply triple_read. intros p HPI.
  case_bool_decide.
  { eapply triple_at; [exact HPI|]. case_match; [|apply pres_finish].
    intros q a q' Hq [= <- <-]. by apply PI_refund_row. }
  case_match; [eapply triple_at; [exact HPI|apply pres_finish]|].
  destruct (amt <=? 0) eqn:Hamt; [eapply triple_at; [exact HPI|apply pres_finish]|].
  destruct (find_intent "stripe" ref p) as [i|] eqn:Hf; [|eapply triple_at; [exact HPI|apply pres_finish]].
  apply find_intent_spec in Hf as [Hi Hp].
  case_match eqn:Hst; [eapply triple_at; [exact HPI|apply pres_finish]|].
  case_match eqn:Hle; [eapply triple_at; [exact HPI|apply pres_finish]|].
  destruct (refund_rows p !! refundID) as [r|] eqn:Hr; [eapply triple_at; [exact HPI|apply pres_finish]|].
  intros q a q' -> Hm. unfold ApplyIntentRefundAmount, update_intent, CreateOutboxEvent in Hm.
  unfold updateWebhookStatus in Hm. tx_inv Hm.
  assert (settled (i_status i) = true) as Hset by (by destruct (i_status i)).
  refine (PI_frame _ _ (PI_refund p i refundID amt HPI Hi Hp Hset _ _ Hr) _ _ _ _); try reflexivity; lia.
Qed.

(** ** Disputes, crypto payments and holds *)

Ltac pres_step :=
  first [apply PIi_finish | apply PIi_put_dispute | apply PIi_dispute_status | apply preserves_ret
        | apply pres_finish | apply preserves_read | auto with tx].

Lemma pres_mark_disputed i :
  intentStatusAllowsDispute (i_status i) = true -> preserves (PIi i) (mark_disputed i).
Proof.
  intros H. unfold mark_disputed. case_bool_decide; [apply preserves_ret|]. apply PIi_set_status.
  intros _ _. by destruct (i_status i).
Qed.

Lemma pres_ensure i id amt :
  intentStatusAllowsDispute (i_status i) = true -> preserves (PIi i) (ensureDisputeRow i id amt).
Proof.
  intros H. apply preserves_bind; [pres_step|intros _]. apply preserves_bind; [by apply pres_mark_disputed|].
  pres_step.
Qed.

Lemma pres_dispute id ty disputeID ref amt st :
  preserves PI (ProcessStripeDisputeWebhook id ty disputeID ref amt st).
Proof.
  apply pres_claim_event. apply triple_read. intros p HPI.
  repeat (apply triple_if; [eapply triple_at; [exact HPI|apply pres_finish]|]).
  destruct (find_intent "stripe" ref p) as [i|] eqn:Hf; [|eapply triple_at; [exact HPI|apply pres_finish]].
  apply (PIi_found _ _ _ _ HPI) in Hf as (HPIi & _ & _). eapply triple_at; [exact HPIi|].
  apply PIi_weaken. destruct (intentStatusAllowsDispute (i_status i)) eqn:Hal; simpl; [|pres_step].
  repeat apply triple_if.
  - unfold dispute_created. case_match; [pres_step|]. apply preserves_bind; [pres_step|intros _].
    apply triple_if; [pres_step|]. apply triple_if; [pres_step|].
    apply preserves_bind; [|pres_step]. apply PIi_set_status. intros _ _. by destruct (i_status i).
  - unfold funds_withdrawn. apply preserves_bind.
    { case_match; [pres_step|by apply pres_ensure]. }
    intros x. repeat (apply triple_if; [pres_step|]). apply preserves_bind; [pres_step|intros _].
    apply preserves_bind; [by apply pres_mark_disputed|intros _].
    apply preserves_bind; [|pres_step]. by apply PIi_add_row.
  - unfold funds_reinstated. case_match; [|pres_step]. repeat (apply triple_if; [pres_step|]).
    apply preserves_bind; [pres_step|intros _]. apply preserves_bind; [|pres_step]. by apply PIi_add_row.
  - unfold dispute_closed. case_match.
    + apply preserves_bind; [pres_step|intros _]. apply preserves_bind; [|pres_step].
      destruct (bool_decide (_ = WON)); simpl; [|pres_step]. case_bool_decide as Hd; [|pres_step].
      apply PIi_set_status. by rewrite Hd.
    + apply preserves_bind; [|pres_step]. case_match; [|pres_step]. apply triple_if; pres_step.
  - pres_step.
Qed.

Lemma pres_license up now dep lic i j : preserves (PIi j) (MaybeActivateLicenseFromIntent up now dep lic i).
Proof.
  intros p a p' (H & Hi & Hr) Hm. unfold MaybeActivateLicenseFromIntent in Hm. tx_inv Hm; [done|].
  split; [by eapply PI_frame|]. done.
Qed.

Lemma pres_hold_add i h :
  i_provider i = "crypto" -> h_intent h = i_id i -> h_customer h = i_customer i ->
  preserves (E := PErr) (PIi i) (modify (fun p => set_holds (holds p ++ [h]) p)).
Proof.
  intros Hp E1 E2 p a p' (H & (i' & Hi' & Hs) & Hr) [= <- <-]. split; [|split; [by exists i'|done]].
  destruct H. constructor; simpl; try done. apply Forall_app. split; [done|]. constructor; [|done].
  exists i'. destruct Hs as (-> & -> & _ & ->). by rewrite E1, E2.
Qed.

Lemma pres_crypto up cfg now h dep lic id ty ref amt conf :
  preserves PI (ProcessCryptoWebhook up cfg now h dep lic id ty ref amt conf).
Proof.
  apply pres_claim_event. apply triple_read. intros p HPI.
  destruct (find_intent "crypto" ref p) as [i|] eqn:Hf; [|eapply triple_at; [exact HPI|apply pres_finish]].
  apply (PIi_found _ _ _ _ HPI) in Hf as (HPIi & Hpr & _). eapply triple_at; [exact HPIi|]. apply PIi_weaken.
  assert (forall st, preserves (PIi i) (UpdatePaymentIntentStatus (i_id i) st (Some ref))) as Hup.
  { intros st. apply PIi_set_status. rewrite Hpr. done. }
  apply triple_if; [pres_step|].
  do 3 (apply triple_if; [apply preserves_bind; [apply Hup|intros _; pres_step]|]).
  apply triple_if; [pres_step|]. apply preserves_bind; [apply Hup|intros _].
  apply preserves_bind; [|intros _; apply preserves_bind; [apply pres_license|intros _; pres_step]].
  apply triple_if; [pres_step|]. by apply pres_hold_add.
Qed.

Lemma earliest_in l h : earliest l = Some h -> h ∈ l.
Proof.
  revert h. induction l as [|x l IH]; intros h H; [done|]. simpl in H.
  destruct (earliest l) as [y|]; [case_match|]; simplify_eq; set_solver.
Qed.

Lemma claim_hold_in now p h : claim_hold now p = Some h -> h ∈ holds p /\ due now h = true.
Proof.
  intros [Hin Hd]%earliest_in%list_elem_of_In%filter_In. split; [by apply list_elem_of_In|done].
Qed.

Lemma pres_hold_status id st : preserves PI (set_hold_status id st).
Proof.
  intros p a p' [] [= <- <-]. constructor; simpl; try done. apply Forall_map.
  eapply Forall_impl; [exact pi_holds0|]. intros h Hh. simpl. by case_bool_decide.
Qed.

Lemma pres_hold now : preserves PI (process_hold now).
Proof.
  apply triple_read. intros p HPI. destruct (claim_hold now p) as [h|] eqn:Hc.
  2:{ eapply triple_at; [exact HPI|apply preserves_ret]. }
  apply claim_hold_in in Hc as [Hin _].
  assert (exists i, i ∈ intents p /\ i_id i = h_intent h /\ i_customer i = h_customer h /\ i_provider i = "crypto")
    as (i & Hi & E1 & E2 & E3).
  { pose proof (pi_holds _ HPI) as Hh. rewrite Forall_forall in Hh. by apply Hh. }
  intros q a q' -> Hm. apply bind_inr in Hm as ([] & q1 & Hm & Hret). injection Hret as <- <-.
  case_match.
  - by eapply pres_hold_status.
  - apply bind_inr in Hm as ([] & q2 & H1 & H2). assert (PI q2) as H' by (by eapply pres_hold_status).
    injection H2 as <-. eapply PI_add_row; [done|done| |].
    + injection H1 as <-. exact Hi.
    + unfold payload_of. simpl. rewrite E1, E2, E3. split_and!; done.
Qed.

Lemma pres_finalize id r m : preserves PI (finalizePaymentIntent id r m).
Proof.
  intros p a p' H [= <- <-]. apply PI_update; [done|done|]. intros i _ _ _. simpl. by case_bool_decide.
Qed.

Lemma pres_failed id : preserves PI (markIntentFailed id).
Proof. intros p a p' H [= <- <-]. by apply PI_status. Qed.

Lemma refund_sum_absent id p :
  PI p -> (forall i, i ∈ intents p -> i_id i <> id) -> refund_sum id (outbox p) = 0.
Proof.
  intros H Hn. pose proof (pi_payloads _ H) as Hp. unfold refund_sum.
  induction (outbox p) as [|r l IH]; [done|]. apply Forall_cons in Hp as [(i & Hi & E & _) Hp].
  simpl. rewrite IH by done. unfold is_type. rewrite E.
  rewrite (bool_decide_eq_false_2 (i_id i = id)) by auto. by rewrite andb_false_r.
Qed.

Lemma pres_claim id c a cur k m pr : in_i64 a -> preserves PI (claimPaymentIntent id c a cur k m pr).
Proof.
  intros Ha. apply triple_read. intros p H. case_match; [eapply triple_at; [exact H|apply preserves_ret]|].
  intros q r q' -> Hm. cbv zeta in Hm. tx_inv Hm.
  assert (forall i, i ∈ intents p -> i_id i <> id) as Hnew.
  { intros i Hi E. match goal with Hx : existsb _ _ = false |- _ => rename Hx into Hex end.
    assert (existsb (fun i => bool_decide (i_id i = id)) (intents p) = true); [|congruence].
    apply existsb_exists. exists i. split; [by apply list_elem_of_In|]. by apply bool_decide_eq_true_2. }
  pose proof (refund_sum_absent id p H Hnew) as Hzero.
  destruct H. constructor; simpl; try done.
  - rewrite map_app. apply NoDup_app. split; [done|]. split; [|apply NoDup_singleton].
    intros x Hx ->%list_elem_of_singleton. apply list_elem_of_fmap in Hx as (i & E & Hi). by apply (Hnew i).
  - apply Forall_app. split; [done|]. constructor; [|done]. simpl. split_and!; [done|done|lia|lia].
  - eapply Forall_impl; [exact pi_payloads0|]. intros r (i & Hi & Hp). exists i. set_solver.
  - eapply Forall_impl; [exact pi_holds0|]. intros h (i & Hi & Hp). exists i. set_solver.
  - apply Forall_app. split; [done|]. by constructor.
  - apply Forall_app. split; [done|]. constructor; [|done]. simpl. done.
Qed.

(** Every input keeps the tables in order. *)
Lemma pres_input up x : input_ok x -> preserves PI (run_input up x).
Proof.
  intros Hx. destruct x; simpl.
  - apply preserves_bind; [by apply pres_claim|intros; apply preserves_ret].
  - apply pres_finalize.
  - apply pres_failed.
  - apply pres_stripe.
  - apply pres_refund.
  - apply pres_dispute.
  - apply pres_crypto.
  - apply preserves_bind; [apply pres_hold|intros; apply preserves_ret].
Qed.

Definition empty_pay : PayDB := mkPay [] ∅ ∅ ∅ [] [] ∅.

Lemma PI_empty : PI empty_pay.
Proof. constructor; simpl; try done; constructor. Qed.

(** ** Holds and disputes *)

(** What the events of a dispute, of one type, sum to. *)
Definition chargeback_sum (t : OutboxType) (dispute : string) (l : list OutboxRow) : Z :=
  sumZ (map (fun r => if bool_decide (o_type r = t) && bool_decide (p_ref (o_payload r) = dispute)
                      then p_amount (o_payload r) else 0) l).

Definition withdrawn (dispute : string) (p : PayDB) : Z := from_option d_withdrawn 0 (disputes p !! dispute).
Definition reinstated (dispute : string) (p : PayDB) : Z := from_option d_reinstated 0 (disputes p !! dispute).

(** The holds and settlements of crypto payments: never less than the payment. *)
Record KI (p : PayDB) : Prop := mkKI {
  ki_held : Forall (fun i => i_provider i = "crypto" -> settled (i_status i) = true ->
              Exists (fun h => h_intent h = i_id i) (holds p)) (intents p);
  ki_holds : Forall (fun h => Forall (fun i => i_id i = h_intent h -> i_amount i <= h_amount h) (intents p)) (holds p);
  ki_rows : Forall (fun r => o_type r = SETTLE_BALANCE ->
              Forall (fun i => i_id i = p_intent (o_payload r) -> i_amount i <= p_amount (o_payload r))
                (intents p)) (outbox p) }.

(** The money of the disputes. *)
Definition DI (p : PayDB) : Prop := forall d,
  chargeback_sum APPLY_CHARGEBACK d (outbox p) = withdrawn d p /\
  chargeback_sum REVERSE_CHARGEBACK d (outbox p) = reinstated d p /\
  0 <= reinstated d p <= withdrawn d p /\ in_i64 (withdrawn d p).

Lemma KI_frame p p' :
  KI p -> intents p' = intents p -> holds p' = holds p -> outbox p' = outbox p -> KI p'.
Proof. intros [] E1 E2 E3. constructor; rewrite ?E1, ?E2, ?E3; done. Qed.

Lemma KI_update p id f :
  KI p -> (forall i, i ∈ intents p -> same_intent i (f i)) ->
  (forall i, i ∈ intents p -> i_id i = id -> i_provider i = "crypto" -> settled (i_status (f i)) = true ->
     Exists (fun h => h_intent h = id) (holds p)) ->
  KI (set_intents (map (fun i => if bool_decide (i_id i = id) then f i else i) (intents p)) p).
Proof.
  intros [K1 K2 K3] Hsame Hs. rewrite Forall_forall in K1.
  assert (forall x n, Forall (fun i => i_id i = x -> i_amount i <= n) (intents p) ->
    Forall (fun i => i_id i = x -> i_amount i <= n)
      (map (fun i => if bool_decide (i_id i = id) then f i else i) (intents p))) as Hm.
  { intros x n Hx. apply Forall_forall. rewrite Forall_forall in Hx.
    intros i (j & Hj & (E1 & E2 & E3 & E4) & _)%elem_of_update; [|done]. rewrite E1, E3. by apply Hx. }
  constructor; simpl.
  - apply Forall_forall. intros i (j & Hj & (E1 & E2 & E3 & E4) & Ei)%elem_of_update; [|done].
    rewrite E1, E4. intros Hp Hst. rewrite Ei in Hst. case_bool_decide as Eid; [|by apply K1].
    rewrite Eid. by eapply Hs.
  - eapply Forall_impl; [exact K2|]. intros h. apply Hm.
  - eapply Forall_impl; [exact K3|]. intros r Hr Ht. by apply Hm, Hr.
Qed.

Lemma KI_add_row p t pl :
  KI p -> (t = SETTLE_BALANCE -> Forall (fun i => i_id i = p_intent pl -> i_amount i <= p_amount pl) (intents p)) ->
  KI (set_outbox (outbox p ++ [mkOutbox (zlen (outbox p)) t pl OutPending None 0]) p).
Proof.
  intros [K1 K2 K3] Hpl. constructor; simpl; [done|done|]. apply Forall_app. split; [done|].
  by constructor.
Qed.

(** The tables, with the intent a webhook found. *)
Definition KIi (i : Intent) (p : PayDB) : Prop :=
  KI p /\ Forall (fun j => i_id j = i_id i -> i_provider j = i_provider i /\ i_amount j = i_amount i) (intents p) /\
  (i_provider i = "crypto" -> settled (i_status i) = true -> Exists (fun h => h_intent h = i_id i) (holds p)).

Lemma KIi_found pr ref p i : PI p -> KI p -> find_intent pr ref p = Some i -> KIi i p /\ i_provider i = pr.
Proof.
  intros H K [Hi Hp]%find_intent_spec. split; [|done]. split; [done|]. split.
  - apply Forall_forall. intros j Hj E. by rewrite (intent_unique p j i).
  - pose proof (ki_held _ K) as Hk. rewrite Forall_forall in Hk. by apply Hk.
Qed.

Lemma KIi_frame i p p' :
  KIi i p -> intents p' = intents p -> holds p' = holds p -> outbox p' = outbox p -> KIi i p'.
Proof.
  intros (K & Hi & Hh) E1 E2 E3. split; [by eapply KI_frame|]. by rewrite E1, E2.
Qed.

Lemma KIi_set i (f : Intent -> Intent) p :
  (forall j, same_intent j (f j)) ->
  (i_provider i = "crypto" -> forall j, i_id j = i_id i -> settled (i_status (f j)) = true ->
     Exists (fun h => h_intent h = i_id i) (holds p)) ->
  KIi i p ->
  KIi i (set_intents (map (fun j => if bool_decide (i_id j = i_id i) then f j else j) (intents p)) p).
Proof.
  intros Hf Hs (K & Hi & Hh). split; [|split; [|done]].
  - apply KI_update; [done|by intros|]. intros j Hj E Hp Hst. rewrite Forall_forall in Hi.
    destruct (Hi j Hj E) as [Ep _]. eapply Hs; [congruence|exact E|exact Hst].
  - apply Forall_forall. intros j (k & Hk & (E1 & E2 & E3 & E4) & _)%elem_of_update; [|by intros].
    rewrite E1, E3, E4. rewrite Forall_forall in Hi. by apply Hi.
Qed.

Lemma KIi_status i st r :
  (i_provider i = "crypto" -> settled st = true -> settled (i_status i) = true) ->
  preserves (KIi i) (UpdatePaymentIntentStatus (i_id i) st r).
Proof.
  intros Hst p a p' H [= <- <-]. apply KIi_set; [done| |done]. intros Hp j _ Hs. destruct H as (_ & _ & Hh).
  apply Hh; [done|]. by apply Hst.
Qed.

Lemma KIi_add_row i t pl :
  (t = SETTLE_BALANCE -> p_intent pl = i_id i /\ i_amount i <= p_amount pl) ->
  preserves (KIi i) (CreateOutboxEvent t pl).
Proof.
  intros Hpl p a p' (K & Hi & Hh) [= <- <-]. split; [|done]. apply KI_add_row; [done|]. intros Ht.
  destruct (Hpl Ht) as [-> Ha]. eapply Forall_impl; [exact Hi|]. intros j Hj E. destruct (Hj E) as [_ ->]. done.
Qed.

Lemma KIi_refund i amt :
  i_provider i = "stripe" -> preserves (KIi i) (ApplyIntentRefundAmount i amt).
Proof.
  intros Hp p a p' H Hm. unfold ApplyIntentRefundAmount, update_intent in Hm. tx_inv Hm.
  apply KIi_set; [done| |done]. congruence.
Qed.

(** A crypto payment succeeds with its hold. *)
Lemma KIi_pays i r h :
  h_intent h = i_id i -> i_amount i <= h_amount h ->
  preserves (KIi i) (UpdatePaymentIntentStatus (i_id i) SUCCEEDED r ;;
    (if bool_decide (i_status i = SUCCEEDED) then ret tt else modify (fun p => set_holds (holds p ++ [h]) p))).
Proof.
  intros Eh Ha. case_bool_decide as Hst.
  - apply preserves_bind; [|intros; apply preserves_ret]. apply KIi_status. by rewrite Hst.
  - intros p a p' H Hm. unfold UpdatePaymentIntentStatus, update_intent in Hm. tx_inv Hm.
    assert (KIi i (set_holds (holds p ++ [h]) p)) as Hh.
    { destruct H as ([K1 K2 K3] & Hi & Hh). split; [constructor; simpl; [|apply Forall_app; split; [done|]|done]|split; [done|]].
      - eapply Forall_impl; [exact K1|]. intros j Hj Hp Hs. apply Exists_app. left. by apply Hj.
      - constructor; [|done]. rewrite Eh. eapply Forall_impl; [exact Hi|]. intros j Hj E.
        destruct (Hj E) as [_ ->]. done.
      - intros _ _. apply Exists_app. right. by constructor. }
    change (KIi i (set_intents (map (fun j => if bool_decide (i_id j = i_id i) then with_status SUCCEEDED r j else j)
                     (intents (set_holds (holds p ++ [h]) p))) (set_holds (holds p ++ [h]) p))).
    apply KIi_set; [done| |done]. intros _ _ _ _. apply Exists_app. right. by constructor.
Qed.

Ltac ki_frame := let p := fresh in let H := fresh in
  intros p ? ? H [= <- <-]; first [by apply (KIi_frame _ p) | by apply (KI_frame p)].

Lemma KIi_event i pr id st : preserves (KIi i) (updateWebhookStatus pr id st).
Proof. ki_frame. Qed.

Lemma KI_event pr id st : preserves KI (updateWebhookStatus pr id st).
Proof. ki_frame. Qed.

Lemma KIi_put i id x : preserves (KIi i) (put_dispute id x).
Proof. ki_frame. Qed.

Lemma KIi_dispute i id st : preserves (KIi i) (set_dispute_status id st).
Proof. ki_frame. Qed.

Lemma KIi_license up now dep lic i j : preserves (KIi j) (MaybeActivateLicenseFromIntent up now dep lic i).
Proof.
  intros p a p' H Hm. unfold MaybeActivateLicenseFromIntent in Hm. tx_inv Hm; [done|]. by eapply KIi_frame.
Qed.

Lemma KIi_mark i : i_provider i = "stripe" -> preserves (KIi i) (mark_disputed i).
Proof.
  intros Hp. unfold mark_disputed. case_bool_decide; [apply preserves_ret|]. apply KIi_status. congruence.
Qed.

(** ** The inputs, holds and disputes *)

Definition PK (p : PayDB) : Prop := PI p /\ KI p.

Lemma KI_claim_event pr id ty k :
  triple PK k (fun _ => KI) -> triple PK (claim_event pr id ty k) (fun _ => KI).
Proof.
  intros Hk. apply triple_read. intros p [H K]. case_match.
  - intros q a q' -> [= <- <-]. done.
  - intros q b q' -> Hm. apply bind_inr in Hm as ([] & s & [= <-] & Hm). eapply Hk; [|exact Hm].
    split; [by eapply PI_frame|by eapply KI_frame].
Qed.

(** A webhook that looks for its payment first. *)
Lemma KI_found pr ref (none : M unit) (some : Intent -> M unit) p :
  PK p -> preserves KI none -> (forall i, i_provider i = pr -> preserves (KIi i) (some i)) ->
  triple (fun s => s = p) (match find_intent pr ref p with None => none | Some i => some i end) (fun _ => KI).
Proof.
  intros [H K] Hn Hs. destruct (find_intent pr ref p) as [i|] eqn:Hf.
  - apply (KIi_found _ _ _ _ H K) in Hf as [Hi Hp]. intros s a s' -> Hm. by eapply (Hs i Hp).
  - by eapply triple_at.
Qed.

Ltac ki_step :=
  first [apply KIi_event | apply KIi_put | apply KIi_dispute | apply KIi_license | by apply KIi_mark
        | by apply KIi_refund | by apply KIi_add_row | apply preserves_ret | apply triple_if
        | apply preserves_bind; [|intros ?] | progress case_match].

Lemma KI_stripe id ty ref amt : triple PK (ProcessStripeWebhook id ty ref amt) (fun _ => KI).
Proof.
  apply KI_claim_event, triple_read. intros p H. apply KI_found; [done|apply KI_event|]. intros i Hi.
  cbv zeta. repeat first [apply KIi_status; congruence | apply KIi_add_row; simpl; lia || done | ki_step].
Qed.

Lemma KI_refund_webhook id ty refundID ref amt st :
  triple PK (ProcessStripeRefundWebhook id ty refundID ref amt st) (fun _ => KI).
Proof.
  apply KI_claim_event, triple_read. intros p H.
  case_bool_decide; [eapply triple_at; [exact (proj2 H)|]; case_match; [ki_frame|apply KI_event]|].
  repeat (apply triple_if; [eapply triple_at; [exact (proj2 H)|apply KI_event]|]).
  apply KI_found; [done|apply KI_event|]. intros i Hi. repeat first [ki_frame | ki_step].
Qed.

Lemma KI_dispute id ty disputeID ref amt st :
  triple PK (ProcessStripeDisputeWebhook id ty disputeID ref amt st) (fun _ => KI).
Proof.
  apply KI_claim_event, triple_read. intros p H.
  repeat (apply triple_if; [eapply triple_at; [exact (proj2 H)|apply KI_event]|]).
  apply KI_found; [done|apply KI_event|]. intros i Hi. cbv zeta.
  unfold dispute_created, funds_withdrawn, funds_reinstated, dispute_closed, ensureDisputeRow.
  repeat first [apply KIi_status; congruence | ki_step].
Qed.

Lemma KI_crypto up cfg now h dep lic id ty ref amt conf :
  triple PK (ProcessCryptoWebhook up cfg now h dep lic id ty ref amt conf) (fun _ => KI).
Proof.
  apply KI_claim_event, triple_read. intros p H. apply KI_found; [done|apply KI_event|]. intros i Hi. cbv zeta.
  apply triple_if; [ki_step|].
  destruct (amt <? i_amount i) eqn:Ha; [apply preserves_bind; [by apply KIi_status|intros; ki_step]|].
  do 2 (apply triple_if; [apply preserves_bind; [by apply KIi_status|intros; ki_step]|]).
  apply triple_if; [ki_step|]. intros q a q' Hq Hm.
  apply bind_inr in Hm as ([] & q1 & H1 & Hm). apply bind_inr in Hm as ([] & q2 & H2 & Hm).
  set (hd := mkHold _ _ _ _ _ _) in *.
  assert (KIi i q2) as Hq2.
  { eapply (KIi_pays i (Some ref) hd); [done|simpl; lia|exact Hq|]. apply bind_inr. exists tt, q1. split; [exact H1|exact H2]. }
  clearbody hd. revert Hm. apply (preserves_bind (KIi i)); [apply KIi_license|intros; ki_step|exact Hq2].
Qed.

Lemma KI_claim id c a cur k m pr : triple PK (claimPaymentIntent id c a cur k m pr) (fun _ => KI).
Proof.
  apply triple_read. intros p [H K]. case_match; [intros q b q' -> [= <- <-]; exact K|].
  intros q r q' -> Hm. cbv zeta in Hm. tx_inv Hm.
  assert (forall i, i ∈ intents p -> i_id i <> id) as Hnew.
  { intros i Hi E. match goal with Hx : existsb _ _ = false |- _ => rename Hx into Hex end.
    assert (existsb (fun i => bool_decide (i_id i = id)) (intents p) = true); [|congruence].
    apply existsb_exists. exists i. split; [by apply list_elem_of_In|]. by apply bool_decide_eq_true_2. }
  pose proof (pi_holds _ H) as Hh. pose proof (pi_payloads _ H) as Hp. rewrite Forall_forall in Hh. rewrite Forall_forall in Hp.
  destruct K as [K1 K2 K3]. constructor; simpl.
  - apply Forall_app. split; [done|]. by constructor.
  - apply Forall_forall. intros h Hin. rewrite Forall_forall in K2. apply Forall_app. split; [by apply K2|].
    constructor; [|done]. simpl. intros ->. destruct (Hh h Hin) as (i & Hi & E & _). by destruct (Hnew i Hi).
  - apply Forall_forall. intros r Hr Ht. rewrite Forall_forall in K3. apply Forall_app. split; [by apply K3|].
    constructor; [|done]. simpl. intros ->. destruct (Hp r Hr) as (i & Hi & E & _). by destruct (Hnew i Hi).
Qed.

Lemma KI_hold now : triple PK (process_hold now) (fun _ => KI).
Proof.
  apply triple_read. intros p [H K]. destruct (claim_hold now p) as [h|] eqn:Hc; [|by intros q a q' -> [= <- <-]].
  apply claim_hold_in in Hc as [Hin _].
  assert (forall st q q', KI q -> set_hold_status (h_id h) st q = inr (tt, q') -> KI q' /\ intents q' = intents q) as Hset.
  { intros st q q' [K1 K2 K3] [= <-]. split; [|done]. constructor; simpl; [|apply Forall_map|done].
    - eapply Forall_impl; [exact K1|]. intros i Hi Hp Hs. apply Exists_exists in Hi as (x & Hx & E); [|done..].
      apply Exists_exists. eexists. split; [by apply list_elem_of_fmap_2|]. by case_bool_decide.
    - eapply Forall_impl; [exact K2|]. intros x Hx. simpl. by case_bool_decide. }
  pose proof (ki_holds _ K) as Hh. rewrite Forall_forall in Hh. specialize (Hh h Hin).
  intros q a q' -> Hm. apply bind_inr in Hm as ([] & q1 & Hm & [= <- <-]). case_match.
  - by eapply Hset.
  - apply bind_inr in Hm as ([] & q2 & H1 & [= <-]). apply Hset in H1 as [K' E]; [|done].
    apply KI_add_row; [done|]. intros _. simpl. by rewrite E.
Qed.

Lemma KI_input up x : triple PK (run_input up x) (fun _ => KI).
Proof.
  destruct x; simpl; try (intros p a p' Hp Hm; apply bind_inr in Hm as (b & q & Hm & [= <- <-])).
  - eapply KI_claim; eauto.
  - intros p a p' [H K] [= <- <-]. apply KI_update; [done|by intros|]. intros i _ _ _. simpl. by case_bool_decide.
  - intros p a p' [H K] [= <- <-]. by apply KI_update.
  - apply KI_stripe.
  - apply KI_refund_webhook.
  - apply KI_dispute.
  - apply KI_crypto.
  - eapply KI_hold; eauto.
Qed.

Lemma pres_PK up x : input_ok x -> preserves PK (run_input up x).
Proof. intros Hx p a p' [H K] Hm. split; [by eapply pres_input|by eapply KI_input]. Qed.

(** *** Disputes *)

Lemma chargeback_sum_app t d l r :
  chargeback_sum t d (l ++ [r]) = chargeback_sum t d l +
    (if bool_decide (o_type r = t) && bool_decide (p_ref (o_payload r) = d) then p_amount (o_payload r) else 0).
Proof. unfold chargeback_sum. rewrite map_app, sumZ_app. simpl. lia. Qed.

Lemma DI_same p p' :
  DI p -> (outbox p' = outbox p \/ exists n t pl, outbox p' = (outbox p ++ [mkOutbox n t pl OutPending None 0])%list /\
             t <> APPLY_CHARGEBACK /\ t <> REVERSE_CHARGEBACK) ->
  (forall d, withdrawn d p' = withdrawn d p /\ reinstated d p' = reinstated d p) -> DI p'.
Proof.
  intros D Ho Hd d. destruct (Hd d) as [-> ->]. destruct (D d) as (E1 & E2 & E3).
  destruct Ho as [->|(n & t & pl & -> & N1 & N2)]; [done|].
  rewrite !chargeback_sum_app. simpl.
  rewrite (bool_decide_eq_false_2 (t = APPLY_CHARGEBACK)), (bool_decide_eq_false_2 (t = REVERSE_CHARGEBACK)) by done.
  simpl. rewrite !Z.add_0_r. done.
Qed.

(** A chargeback, or a reversal, with the figures of its dispute. *)
Lemma DI_moves p p' n t pl x :
  DI p -> outbox p' = (outbox p ++ [mkOutbox n t pl OutPending None 0])%list ->
  (forall d, d <> p_ref pl -> disputes p' !! d = disputes p !! d) -> disputes p' !! p_ref pl = Some x ->
  d_withdrawn x = withdrawn (p_ref pl) p + (if bool_decide (t = APPLY_CHARGEBACK) then p_amount pl else 0) ->
  d_reinstated x = reinstated (p_ref pl) p + (if bool_decide (t = REVERSE_CHARGEBACK) then p_amount pl else 0) ->
  0 <= d_reinstated x <= d_withdrawn x -> in_i64 (d_withdrawn x) -> DI p'.
Proof.
  intros D Ho Hne Hx Ew Er Hb Hi d. destruct (D d) as (E1 & E2 & E3). rewrite Ho, !chargeback_sum_app. simpl.
  unfold withdrawn, reinstated in *. destruct (decide (d = p_ref pl)) as [->|Hd].
  - rewrite Hx. simpl. rewrite !(bool_decide_eq_true_2 (p_ref pl = p_ref pl)), !andb_true_r by done.
    rewrite E1, E2, Ew, Er. split_and!; try done; rewrite <- ?Ew, <- ?Er; lia || done.
  - rewrite Hne by done. rewrite !(bool_decide_eq_false_2 (p_ref pl = d)), !andb_false_r, !Z.add_0_r by done. done.
Qed.

Lemma DI_event pr id st : preserves DI (updateWebhookStatus pr id st).
Proof. intros p a p' D [= <- <-]. by apply (DI_same p); [|left|]. Qed.

Lemma DI_intent id f : preserves DI (update_intent id f).
Proof. intros p a p' D [= <- <-]. by apply (DI_same p); [|left|]. Qed.

Lemma DI_intents l p : DI p -> DI (set_intents l p).
Proof. intros D. by apply (DI_same p); [|left|]. Qed.

Lemma DI_claim_event pr id ty k : preserves DI k -> preserves DI (claim_event pr id ty k).
Proof.
  intros Hk. apply triple_read. intros p D. eapply triple_at; [exact D|]. case_match; [apply preserves_ret|].
  apply preserves_bind; [|done]. intros q a q' Hq [= <- <-]. by apply (DI_same q); [|left|].
Qed.

Lemma DI_status id st : preserves DI (set_dispute_status id st).
Proof.
  intros p a p' D [= <- <-]. apply (DI_same p); [done|by left|]. intros d. unfold withdrawn, reinstated. simpl.
  destruct (decide (id = d)) as [->|Hd]; [|by rewrite lookup_alter_ne].
  rewrite lookup_alter_eq. by destruct (disputes p !! d).
Qed.

Lemma DI_new p d i amt :
  DI p -> disputes p !! d = None -> DI (set_disputes (<[d := new_dispute i amt]> (disputes p)) p).
Proof.
  intros D Hn. apply (DI_same p); [done|by left|]. intros d'. unfold withdrawn, reinstated. simpl.
  destruct (decide (d = d')) as [<-|Hd]; [|by rewrite lookup_insert_ne]. by rewrite lookup_insert_eq, Hn.
Qed.

Lemma DI_row t pl : t <> APPLY_CHARGEBACK -> t <> REVERSE_CHARGEBACK -> preserves DI (CreateOutboxEvent t pl).
Proof.
  intros N1 N2 p a p' D [= <- <-]. apply (DI_same p); [done| |done]. right. eexists _, t, pl. by split.
Qed.

Lemma sub64_exact a b : in_i64 a -> 0 <= b -> b < a -> a -64 b = a - b.
Proof. intros. apply i64_id. go_lia. Qed.

(** The intent updates and status marks after a dispute's figures were
    written: they touch neither the disputes nor the outbox. *)
Definition money_same (p p' : PayDB) : Prop := disputes p' = disputes p /\ outbox p' = outbox p.

Lemma mark_disputed_same i p p' : mark_disputed i p = inr (tt, p') -> money_same p p'.
Proof. unfold mark_disputed. case_bool_decide; by intros [= <-]. Qed.

Lemma DI_moves_then (fin : M unit) pre pre' d x t pl a p' :
  DI pre -> money_same (set_disputes (<[d := x]> (disputes pre)) pre) pre' ->
  p_ref pl = d -> (t = APPLY_CHARGEBACK \/ t = REVERSE_CHARGEBACK) ->
  d_withdrawn x = withdrawn d pre + (if bool_decide (t = APPLY_CHARGEBACK) then p_amount pl else 0) ->
  d_reinstated x = reinstated d pre + (if bool_decide (t = REVERSE_CHARGEBACK) then p_amount pl else 0) ->
  0 <= d_reinstated x <= d_withdrawn x -> in_i64 (d_withdrawn x) ->
  preserves DI fin -> (CreateOutboxEvent t pl ;; fin) pre' = inr (a, p') -> DI p'.
Proof.
  intros D [E1 E2] <- Ht Ew Er Hb Hi Hfin Hm. apply bind_inr in Hm as ([] & q & [= <-] & Hm).
  eapply Hfin; [|exact Hm].
  eapply (DI_moves pre _ (zlen (outbox pre')) t pl x); simpl; try done; simpl in *.
  - by rewrite E2.
  - intros d Hd. by rewrite E1, lookup_insert_ne.
  - by rewrite E1, lookup_insert_eq.
Qed.

Lemma DI_withdraw fin i d amt o p a p' :
  (forall st, preserves DI (fin st)) -> in_i64 amt -> 0 < amt -> DI p -> disputes p !! d = o ->
  funds_withdrawn fin i d amt o p = inr (a, p') -> DI p'.
Proof.
  intros Hfin Hamt Hpos D Ho Hm. unfold funds_withdrawn in Hm. apply bind_inr in Hm as (x & q & Hx & Hm).
  assert (DI q /\ disputes q !! d = Some x) as [Dq Hq].
  { destruct o as [y|].
    - injection Hx as <- <-. done.
    - unfold ensureDisputeRow in Hx. apply bind_inr in Hx as ([] & q1 & [= <-] & Hx).
      apply bind_inr in Hx as ([] & q2 & H2 & [= <- <-]). apply mark_disputed_same in H2 as [E1 E2]. simpl in E1, E2.
      split; [|by rewrite E1, lookup_insert_eq].
      apply (DI_same _ _ (DI_new p d i amt D Ho)); [by left|]. intros d'. unfold withdrawn, reinstated. simpl.
      by rewrite E1. }
  destruct (Dq d) as (_ & _ & B1 & B2).
  assert (withdrawn d q = d_withdrawn x /\ reinstated d q = d_reinstated x) as [Ew Er]
    by (unfold withdrawn, reinstated; by rewrite Hq).
  destruct (amt <=? d_withdrawn x) eqn:Hle; [by eapply Hfin|].
  rewrite sub64_exact in Hm by (done || lia). destruct (i_amount i <? _); [by eapply Hfin|].
  apply bind_inr in Hm as ([] & q1 & [= <-] & Hm). apply bind_inr in Hm as ([] & q2 & H2 & Hm).
  refine (DI_moves_then _ q q2 d _ _ _ a p' Dq (mark_disputed_same _ _ _ H2) _ _ _ _ _ _ (Hfin _) Hm);
    simpl; try done; try (by left); rewrite ?Ew, ?Er; simpl; try lia.
  unfold in_i64 in *. lia.
Qed.

Lemma DI_reinstate fin i d amt o p a p' :
  (forall st, preserves DI (fin st)) -> in_i64 amt -> 0 < amt -> DI p -> disputes p !! d = o ->
  funds_reinstated fin i d amt o p = inr (a, p') -> DI p'.
Proof.
  intros Hfin Hamt Hpos D Ho Hm. unfold funds_reinstated in Hm. destruct o as [x|]; [|by eapply Hfin].
  destruct (D d) as (_ & _ & B1 & B2).
  assert (withdrawn d p = d_withdrawn x /\ reinstated d p = d_reinstated x) as [Ew Er]
    by (unfold withdrawn, reinstated; by rewrite Ho).
  destruct (amt <=? d_reinstated x) eqn:Hle; [by eapply Hfin|].
  rewrite sub64_exact in Hm by (done || lia).
  replace (d_reinstated x + (amt - d_reinstated x)) with amt in Hm by lia. rewrite i64_id in Hm by done.
  destruct (d_withdrawn x <? amt) eqn:Hlt; [by eapply Hfin|].
  apply bind_inr in Hm as ([] & q1 & [= <-] & Hm).
  refine (DI_moves_then _ p _ d _ _ _ a p' D (conj eq_refl eq_refl) _ _ _ _ _ _ (Hfin _) Hm);
    simpl; try done; try (by right); rewrite ?Ew, ?Er; simpl; try lia.
  rewrite Ew in B2. done.
Qed.

Lemma DI_dispute id ty disputeID ref amt st :
  in_i64 amt -> preserves DI (ProcessStripeDisputeWebhook id ty disputeID ref amt st).
Proof.
  intros Hi. apply DI_claim_event, triple_read. intros p D. cbv zeta.
  case_bool_decide; [eapply triple_at; [exact D|apply DI_event]|].
  destruct ((amt <=? 0) && negb (is_closing ty)) eqn:Hpos; [eapply triple_at; [exact D|apply DI_event]|].
  destruct (find_intent "stripe" ref p) as [i|]; [|eapply triple_at; [exact D|apply DI_event]].
  case_match; [eapply triple_at; [exact D|apply DI_event]|]. intros q a q' -> Hm.
  assert (is_closing ty = false -> 0 < amt) as Hamt.
  { intros Ht. rewrite Ht, andb_true_r in Hpos. lia. }
  case_bool_decide; [|case_bool_decide; [|case_bool_decide; [|destruct (is_closing ty)]]].
  - unfold dispute_created in Hm. destruct (disputes p !! disputeID) eqn:Ho; [by eapply DI_event|].
    apply bind_inr in Hm as ([] & q1 & [= <-] & Hm). pose proof (DI_new p disputeID i amt D Ho) as D'.
    revert Hm. apply (triple_if _ _ _ DI (fun _ => DI)); [apply DI_event| |exact D'].
    apply triple_if; [apply DI_event|]. apply preserves_bind; [apply DI_intent|intros; apply DI_event].
  - eapply DI_withdraw; [|exact Hi| |exact D|reflexivity|exact Hm]; [intros; apply DI_event|].
    apply Hamt. by subst ty.
  - eapply DI_reinstate; [|exact Hi| |exact D|reflexivity|exact Hm]; [intros; apply DI_event|].
    apply Hamt. by subst ty.
  - revert Hm. unfold dispute_closed. destruct (disputeClosedStatus st) as [closed|]; revert D.
    + apply (preserves_bind DI); [apply DI_status|intros _]. apply preserves_bind; [|intros; apply DI_event].
      apply triple_if; [apply DI_intent|apply preserves_ret].
    + apply (preserves_bind DI); [|intros; apply DI_event].
      case_match; [apply triple_if; [apply DI_status|]|]; apply preserves_ret.
  - by eapply DI_event.
Qed.

Ltac di_frame := let p := fresh in let H := fresh in
  intros p ? ? H [= <- <-]; by apply (DI_same p); [|left|].

Ltac di_step :=
  first [apply DI_event | apply DI_intent | by apply DI_row | apply preserves_ret | apply preserves_raise
        | apply triple_if | apply preserves_bind; [|intros ?] | progress case_match | di_frame].

Lemma DI_found pr ref (none : M unit) (some : Intent -> M unit) p :
  DI p -> preserves DI none -> (forall i, preserves DI (some i)) ->
  triple (fun s => s = p) (match find_intent pr ref p with None => none | Some i => some i end) (fun _ => DI).
Proof. intros D Hn Hs. case_match; eapply (triple_at DI); [done|apply Hs|done|exact Hn]. Qed.

(** The operations of the other inputs. *)
Ltac di_other :=
  apply DI_claim_event, triple_read; intros ? ?; cbv zeta;
  repeat (apply triple_if; [eapply triple_at; [eassumption|]; repeat di_step|]);
  apply DI_found; [done|apply DI_event|]; intros ?; repeat di_step.

Lemma DI_license up now dep lic i : preserves DI (MaybeActivateLicenseFromIntent up now dep lic i).
Proof.
  intros p a p' H Hm. unfold MaybeActivateLicenseFromIntent in Hm. tx_inv Hm; [done|].
  by apply (DI_same p); [|left|].
Qed.

Lemma DI_hold now : preserves DI (process_hold now).
Proof.
  apply triple_read. intros p D. case_match; [|by eapply triple_at; [exact D|apply preserves_ret]].
  eapply triple_at; [exact D|]. repeat di_step.
Qed.

Lemma DI_refund id ty refundID ref amt st : preserves DI (ProcessStripeRefundWebhook id ty refundID ref amt st).
Proof. unfold ProcessStripeRefundWebhook, ApplyIntentRefundAmount, guard. di_other. Qed.

Lemma DI_stripe id ty ref amt : preserves DI (ProcessStripeWebhook id ty ref amt).
Proof. di_other. Qed.

Lemma DI_crypto up cfg now h dep lic id ty ref amt conf :
  preserves DI (ProcessCryptoWebhook up cfg now h dep lic id ty ref amt conf).
Proof.
  apply DI_claim_event, triple_read. intros p D. cbv zeta. apply DI_found; [done|apply DI_event|].
  intros i. repeat first [apply DI_license | di_step].
Qed.

Definition dispute_i64 (x : Input) : Prop :=
  match x with InDispute _ _ _ _ a _ => in_i64 a | _ => True end.

Lemma DI_input up x : dispute_i64 x -> preserves DI (run_input up x).
Proof.
  destruct x; simpl; intros Hx.
  - unfold claimPaymentIntent, guard. repeat first [apply preserves_read | di_step].
  - apply DI_intent.
  - apply DI_intent.
  - apply DI_stripe.
  - apply DI_refund.
  - by apply DI_dispute.
  - apply DI_crypto.
  - apply preserves_bind; [apply DI_hold|intros; apply preserves_ret].
Qed.

Lemma KI_empty : KI empty_pay.
Proof. constructor; constructor. Qed.

Lemma DI_empty : DI empty_pay.
Proof. intros d. unfold withdrawn, reinstated. simpl. rewrite lookup_empty. done. Qed.

(** ** Events are stored for good *)

Definition stored (k : string * string) (p : PayDB) : Prop := is_Some (events p !! k).

Lemma stored_modify k (f : PayDB -> PayDB) :
  (forall p, stored k p -> stored k (f p)) -> preserves (E := PErr) (stored k) (modify f).
Proof. intros H p a p' Hp [= <- <-]. by apply H. Qed.

Lemma stored_finish k pr id st : preserves (stored k) (updateWebhookStatus pr id st).
Proof.
  apply stored_modify. intros p [x Hx]. unfold stored. simpl.
  destruct (decide ((pr, id) = k)) as [<-|Hne].
  - rewrite lookup_alter_eq, Hx. simpl. eauto.
  - rewrite lookup_alter_ne by done. eauto.
Qed.

Ltac stored_step :=
  first [apply stored_finish | apply stored_modify; done | apply preserves_ret | apply preserves_raise
        | apply preserves_read | apply preserves_bind; [|intros ?] | apply triple_if
        | match goal with |- triple _ (match ?x with _ => _ end) _ => destruct x end
        | match goal with |- preserves _ (match ?x with _ => _ end) => destruct x end].

Lemma stored_event k pr id ty m :
  preserves (stored k) m -> preserves (stored k) (claim_event pr id ty m).
Proof.
  intros Hm. apply triple_read. intros p Hp. eapply triple_at; [exact Hp|]. case_match; [apply preserves_ret|].
  apply preserves_bind; [|done]. intros q a q' Hq [= <- <-]. unfold stored in *. simpl.
  destruct (decide ((pr, id) = k)) as [<-|Hne]; [rewrite lookup_insert_eq; eauto|].
  by rewrite lookup_insert_ne.
Qed.

Lemma stored_input k up x : preserves (stored k) (run_input up x).
Proof.
  destruct x; simpl; unfold claimPaymentIntent, finalizePaymentIntent, markIntentFailed,
    ProcessStripeWebhook, ProcessStripeRefundWebhook, ProcessStripeDisputeWebhook, ProcessCryptoWebhook,
    process_hold, UpdatePaymentIntentStatus, update_intent, ApplyIntentRefundAmount, CreateOutboxEvent,
    dispute_created, funds_withdrawn, funds_reinstated, dispute_closed, ensureDisputeRow, mark_disputed,
    UpdatePaymentIntentStatus, update_intent, put_dispute, set_dispute_status, set_hold_status,
    MaybeActivateLicenseFromIntent, guard, lift, CreateOutboxEvent;
    try apply stored_event; cbv zeta; repeat stored_step.
Qed.

(** The event an input delivers. *)
Definition event_of (x : Input) : option (string * string) :=
  match x with
  | InStripe e _ _ _ | InRefund e _ _ _ _ _ | InDispute e _ _ _ _ _ => Some ("stripe", e)
  | InCrypto _ _ _ _ _ e _ _ _ _ => Some ("crypto", e)
  | _ => None
  end.

Lemma stored_again up x k p :
  event_of x = Some k -> stored k p -> run_input up x p = inr (tt, p).
Proof.
  intros He [ev Hev]. destruct x; simplify_eq/=; unfold ProcessStripeWebhook, ProcessStripeRefundWebhook,
    ProcessStripeDisputeWebhook, ProcessCryptoWebhook, claim_event, bind, read; by rewrite Hev.
Qed.

Lemma claim_stores pr id ty k p p' :
  preserves (stored (pr, id)) k -> claim_event pr id ty k p = inr (tt, p') -> stored (pr, id) p'.
Proof.
  intros Hk H. apply bind_inr in H as (q & s & [= <- <-] & H). case_match eqn:E.
  - unfold ret in H. injection H as <-. unfold stored. rewrite E. eauto.
  - apply bind_inr in H as ([] & s & H1 & H2). eapply Hk; [|exact H2]. unfold modify in H1. injection H1 as <-.
    unfold stored. simpl. rewrite lookup_insert_eq. eauto.
Qed.

(** Runs of the service: every input is one transaction, kept or rolled back. *)
Definition run_inputs (up : string -> option UUID) (p : PayDB) (xs : list Input) : PayDB :=
  fold_left (fun p x => snd (BeginFunc (run_input up x) p)) xs p.

Lemma run_inputs_preserves up (I : PayDB -> Prop) p xs :
  (forall x, x ∈ xs -> preserves I (run_input up x)) -> I p -> I (run_inputs up p xs).
Proof.
  revert p. induction xs as [|x xs IH]; intros p Hx HI; [done|]. simpl. apply IH; [set_solver|].
  apply BeginFunc_preserves; [apply Hx; set_solver|done].
Qed.

(** ** Theorems *)

(** C6: From an empty database, whatever the webhooks, checkouts and hold
    releases and whichever of them fail: a settled Stripe payment has its
    settlement event and a settled crypto payment its hold; every event
    carries the id, the customer and the ledger key of its payment; a
    settlement is for the payment's amount (of a crypto payment, at least
    that), a refund for at most it; the refunded amount of a payment is the
    sum of its refund events, within the payment; and the chargeback events of
    a dispute sum to the amount withdrawn, its reversals to the amount
    reinstated, which is never more. *)
Theorem payment_tables_consistent up xs :
  Forall input_ok xs -> Forall dispute_i64 xs ->
  let p := run_inputs up empty_pay xs in
  Forall (fun i => 0 <= i_refunded i <= i_amount i /\ i_refunded i = refund_sum (i_id i) (outbox p)) (intents p) /\
  Forall (fun i => settled (i_status i) = true ->
            (i_provider i = "stripe" -> Exists (fun r => is_type SETTLE_BALANCE (i_id i) r = true) (outbox p)) /\
            (i_provider i = "crypto" -> Exists (fun h => h_intent h = i_id i /\ i_amount i <= h_amount h) (holds p)))
    (intents p) /\
  Forall (fun r => exists i, i ∈ intents p /\ payload_of i r /\
            (o_type r = SETTLE_BALANCE -> i_amount i <= p_amount (o_payload r))) (outbox p) /\
  NoDup (omap refund_id (outbox p)) /\
  (forall d, chargeback_sum APPLY_CHARGEBACK d (outbox p) = withdrawn d p /\
             chargeback_sum REVERSE_CHARGEBACK d (outbox p) = reinstated d p /\
             0 <= reinstated d p <= withdrawn d p).
Proof.
  intros Hok Hi64 p. rewrite Forall_forall in Hok. rewrite Forall_forall in Hi64.
  assert (PK p) as [[] [K1 K2 K3]].
  { apply run_inputs_preserves; [|split; [apply PI_empty|apply KI_empty]]. intros x Hx. by apply pres_PK, Hok. }
  assert (DI p) as HD.
  { apply run_inputs_preserves; [|apply DI_empty]. intros x Hx. by apply DI_input, Hi64. }
  rewrite Forall_forall in pi_amounts0. rewrite Forall_forall in pi_refunded0. rewrite Forall_forall in pi_settle0.
  rewrite Forall_forall in pi_payloads0. rewrite Forall_forall in K1. rewrite Forall_forall in K2.
  rewrite Forall_forall in K3. split_and!; [| | |done|].
  - apply Forall_forall. intros i Hi. split; [by apply pi_amounts0|by apply pi_refunded0].
  - apply Forall_forall. intros i Hi Hs. split; intros Hp; [by apply pi_settle0|].
    pose proof (K1 i Hi Hp Hs) as (h & Hh & E)%Exists_exists. apply Exists_exists. exists h.
    split; [done|]. split; [done|]. specialize (K2 h Hh). rewrite Forall_forall in K2. by apply K2.
  - apply Forall_forall. intros r Hr. destruct (pi_payloads0 r Hr) as (i & Hi & Hpl). exists i.
    split; [done|]. split; [done|]. intros Ht. specialize (K3 r Hr Ht). rewrite Forall_forall in K3.
    apply K3; [done|]. symmetry. apply Hpl.
  - intros d. destruct (HD d) as (E1 & E2 & E3 & _). done.
Qed.

(** An event is handled once: after its transaction has committed, the
    same event id delivered again, with any content and after anything else,
    changes nothing.  So an event that came too early and was ignored is
    ignored for good. *)
Theorem event_handled_once up x y k p p1 xs :
  event_of x = Some k -> event_of y = Some k -> run_input up x p = inr (tt, p1) ->
  run_input up y (run_inputs up p1 xs) = inr (tt, run_inputs up p1 xs).
Proof.
  intros Hx Hy Hrun. eapply stored_again; [exact Hy|].
  apply run_inputs_preserves; [intros; apply stored_input|].
  destruct x; simplify_eq/=; unfold ProcessStripeWebhook, ProcessStripeRefundWebhook,
    ProcessStripeDisputeWebhook, ProcessCryptoWebhook in Hrun;
    (eapply claim_stores; [|exact Hrun]); cbv zeta;
    unfold dispute_created, funds_withdrawn, funds_reinstated, dispute_closed, ensureDisputeRow,
      mark_disputed, UpdatePaymentIntentStatus, update_intent, put_dispute, set_dispute_status,
      ApplyIntentRefundAmount, CreateOutboxEvent, MaybeActivateLicenseFromIntent, update_intent, guard, lift;
    repeat stored_step.
Qed.

(** Replaying a stored webhook never repeats its work: the dispatched
    handler finds the stored event and returns, whatever its status. *)
Theorem replay_does_nothing pr id body p :
  se_id body = "" \/ se_id body = id -> snd (ReplayWebhook pr id body p) = p.
Proof.
  intros Hid. unfold ReplayWebhook. case_match eqn:E1; [done|].
  apply orb_false_iff in E1 as [Hpr%negb_false_iff%bool_decide_eq_true _]. subst pr.
  destruct (events p !! ("stripe", id)) as [ev|] eqn:Hev; [|done]. case_match; [done|].
  assert ((if bool_decide (se_id body = "") then id else se_id body) = id) as ->.
  { destruct Hid as [Hid|Hid]; rewrite Hid; [done|]. by destruct (bool_decide (id = EmptyString)). }
  set (e := mkStripeEvent _ _ _ _ _ _).
  assert (BeginFunc (dispatchStripeWebhook e) p = (inr tt, p) \/
          BeginFunc (dispatchStripeWebhook e) p = (inl PErrBadRequest, p)) as [-> | ->]; [|done..].
  unfold BeginFunc, dispatchStripeWebhook. subst e. cbn [se_id se_type se_object se_amount se_payment_intent se_status].
  assert (forall ty k, claim_event "stripe" id ty k p = inr (tt, p)) as Hc.
  { intros. unfold claim_event, bind, read. by rewrite Hev. }
  unfold ProcessStripeWebhook, ProcessStripeRefundWebhook, ProcessStripeDisputeWebhook.
  destruct (is_refund_type _); [rewrite Hc; by left|]. destruct (is_dispute_type _); [rewrite Hc; by left|].
  destruct (bool_decide (se_object body = "")); [by right|]. rewrite Hc. by left.
Qed.

Definition held (p : PayDB) : nat := length (List.filter (fun h => bool_decide (h_status h = HELD)) (holds p)).

Lemma held_decreases l id st h :
  st <> HELD -> h ∈ l -> h_id h = id -> h_status h = HELD ->
  let f := fun h => if bool_decide (h_id h = id)
                    then mkHold (h_id h) (h_intent h) (h_customer h) (h_amount h) st (h_release_at h) else h in
  (length (List.filter (fun h => bool_decide (h_status h = HELD)) (map f l)) <
   length (List.filter (fun h => bool_decide (h_status h = HELD)) l))%nat.
Proof.
  intros Hst Hin Hid Hh f.
  assert (forall x, h_status (f x) = if bool_decide (h_id x = id) then st else h_status x) as Hf.
  { intros x. unfold f. by destruct (bool_decide (h_id x = id)). }
  assert (forall l, (length (List.filter (fun h => bool_decide (h_status h = HELD)) (map f l)) <=
                     length (List.filter (fun h => bool_decide (h_status h = HELD)) l))%nat) as Hle.
  { clear -Hst Hf. clearbody f. intros l. induction l as [|x l IH]; [done|]. simpl. specialize (Hf x).
    destruct (bool_decide (h_id x = id)); repeat case_bool_decide; simpl; try lia; congruence. }
  clearbody f. induction l as [|x l IH]; [set_solver|]. simpl. specialize (Hle l) as Hl. pose proof (Hf x) as Hx.
  apply elem_of_cons in Hin as [<-|Hin].
  - rewrite (bool_decide_eq_true_2 (h_id h = id)) in Hx by done.
    repeat case_bool_decide; simpl; try lia; congruence.
  - specialize (IH Hin). destruct (bool_decide (h_id x = id)); repeat case_bool_decide; simpl; try lia; congruence.
Qed.

(** The hold worker's round ends, after at most as many transactions as
    there are holds plus one, and leaves no hold that is due. *)
Theorem hold_round_ends p now :
  exists p', ProcessHolds (S (held p)) now p = Some p' /\ claim_hold now p' = None.
Proof.
  remember (held p) as n eqn:Hn. assert (held p <= n)%nat as Hle by lia. clear Hn.
  revert p Hle. induction n as [|n IH]; intros p Hle; cbn [ProcessHolds].
  all: destruct (claim_hold now p) as [h|] eqn:Hc;
    [|exists p; split; [|done]; unfold BeginFunc, process_hold, bind, read; rewrite Hc; done].
  all: destruct (claim_hold_in _ _ _ Hc) as [Hin Hd]; unfold due in Hd;
    apply andb_prop in Hd as [Hh%bool_decide_eq_true _].
  - exfalso. unfold held in Hle.
    assert (h ∈ List.filter (fun h => bool_decide (h_status h = HELD)) (holds p)) as Hx.
    { apply list_elem_of_In, filter_In. split; [by apply list_elem_of_In|by apply bool_decide_eq_true_2]. }
    destruct (List.filter _ _); [set_solver|simpl in Hle; lia].
  - assert (exists p1, BeginFunc (process_hold now) p = (inr true, p1) /\ (held p1 < held p)%nat)
      as (p1 & -> & Hlt).
    { unfold BeginFunc, process_hold, bind, read. rewrite Hc. destruct (isFraudulent _ _).
      - eexists. split; [reflexivity|]. unfold held. simpl. by apply (held_decreases _ _ _ h).
      - eexists. split; [reflexivity|]. unfold held. simpl. by apply (held_decreases _ _ _ h). }
    apply IH. lia.
Qed.

(** A crypto payment is taken back by a late notification: confirmed and
    succeeded, it is processing again after an event that reports fewer
    confirmations than required, and failed after one with a smaller amount;
    no transition is checked. *)
Theorem late_confirmation_unsettles up cfg now h dep lic id ty ref i amt conf p :
  events p !! ("crypto", id) = None -> find_intent "crypto" ref p = Some i -> i_status i = SUCCEEDED ->
  0 < amt -> conf < CryptoConfirmationDepth cfg ->
  exists p' i', ProcessCryptoWebhook up cfg now h dep lic id ty ref amt conf p = inr (tt, p') /\
    i' ∈ intents p' /\ i_id i' = i_id i /\
    i_status i' = (if (amt <? i_amount i) || (amt <? CryptoMinPaymentMicro cfg) then FAILED else PROCESSING).
Proof.
  intros Hev Hf Hst Hamt Hconf. pose proof (find_intent_spec _ _ _ _ Hf) as [Hin _].
  unfold ProcessCryptoWebhook, claim_event, bind at 1, read at 1. rewrite Hev.
  unfold bind at 1, modify at 1, bind at 1, read at 1.
  assert (find_intent "crypto" ref (set_events (<[("crypto", id) := mkEvent ty RECEIVED]> (events p)) p) = Some i)
    as -> by exact Hf.
  rewrite (proj2 (Z.leb_gt amt 0)) by done. cbv zeta.
  set (p0 := set_events _ p).
  assert (forall st, exists i', i' ∈ map (fun j => if bool_decide (i_id j = i_id i) then with_status st (Some ref) j else j) (intents p)
            /\ i_id i' = i_id i /\ i_status i' = st) as Hup.
  { intros st. exists (with_status st (Some ref) i). split; [|done].
    apply list_elem_of_fmap. exists i. split; [|done]. by rewrite bool_decide_eq_true_2. }
  destruct (amt <? i_amount i); [|destruct (amt <? CryptoMinPaymentMicro cfg);
    [|rewrite (proj2 (Z.ltb_lt conf _)) by done]]; simpl.
  - destruct (Hup FAILED) as (i' & Hi'). eexists _, i'. split; [reflexivity|exact Hi'].
  - destruct (Hup FAILED) as (i' & Hi'). eexists _, i'. split; [reflexivity|exact Hi'].
  - destruct (Hup PROCESSING) as (i' & Hi'). eexists _, i'. split; [reflexivity|exact Hi'].
Qed.

(** ** Concrete runs *)

(** A checkout of 5 units by Stripe, paid, part refunded, disputed; and one
    of 4 by crypto, paid with 5, whose hold is released. *)
Definition demo_run : list Input :=
  [InClaim "i1" "c1" 5000000 "USD" "k1" ∅ "stripe"; InFinalize "i1" "pi_1" ∅;
   InStripe "e1" "payment_intent.succeeded" "pi_1" 5000000;
   InRefund "e2" "refund.created" "re_1" "pi_1" 2000000 "succeeded";
   InDispute "e3" "charge.dispute.funds_withdrawn" "dp_1" "pi_1" 3000000 "needs_response";
   InClaim "i2" "c2" 4000000 "USD" "k2" ∅ "crypto"; InFinalize "i2" "tx_1" ∅;
   InCrypto (mkCryptoCfg 1000000 6) 0 "h1" "d1" "l1" "e4" "confirmed" "tx_1" 5000000 6;
   InHold (15 * 24 * hour)].

Definition no_uuid (s : string) : option UUID := None.

Lemma payment_tables_consistent_witness :
  let p := run_inputs no_uuid empty_pay demo_run in
  Forall (fun i => 0 <= i_refunded i <= i_amount i /\ i_refunded i = refund_sum (i_id i) (outbox p)) (intents p) /\
  length (outbox p) = 4%nat /\ length (holds p) = 1%nat.
Proof.
  split; [|by vm_compute].
  apply (payment_tables_consistent no_uuid demo_run); unfold demo_run;
  repeat (apply Forall_cons; split; [unfold input_ok, dispute_i64, in_i64; done || lia|]); apply Forall_nil; done.
Defined.

End PaymentWebhook.
