(* ===== verification/PaymentSettlement.v ===== *)
(** * Settlement of payments

    Models [internal/payment/settlement]: the outbox worker
    (worker_outbox.go, outbox_settlement.go) that carries the rows written by
    the webhooks to the balance ledger, the batch call (settlement.go) and the
    financial reconciliation (recon_service.go, recon_severity.go).  A world
    is the payment database, the ledger database and the workers; they share
    no transaction, so a step is one transaction of one of the databases, or
    a worker's crash.  The claims are about what the customer is credited. *)

From S2P Require Import Prelude SqlTx PaymentLedger PaymentWebhook.
Open Scope string_scope.
Open Scope Z_scope.

Module PaymentSettlement.

Import SqlTx PaymentLedger PaymentWebhook.

#[local] Abbreviation UUID := string (only parsing).

(** ** Handling a row *)

(** The call [handleOutboxEvent] makes for a row: one per event type. *)
Definition req_of (r : OutboxRow) : Req :=
  let p := o_payload r in
  match o_type r with
  | SETTLE_BALANCE => RCredit (p_customer p) (p_amount p) (p_key p) (p_intent p)
  | REVERSE_BALANCE => RRefund (p_customer p) (p_amount p) (p_key p) (p_intent p)
  | APPLY_CHARGEBACK => RChargeback (p_customer p) (p_amount p) (p_key p) (p_intent p) true
  | REVERSE_CHARGEBACK => RChargeback (p_customer p) (p_amount p) (p_key p) (p_intent p) false
  end.

(** Errors as [mapSettlementDomainError] names them. *)
Inductive SettlementErr := ErrSettlementCustomerNotFound | ErrSettlementTopupNotFound | ErrOther.
#[export] Instance SettlementErr_eq_dec : EqDecision SettlementErr.
Proof. solve_decision. Defined.

Definition mapSettlementDomainError (e : Err) : SettlementErr :=
  match e with
  | ErrCustomerNotFound => ErrSettlementCustomerNotFound
  | ErrPaymentTopupNotFound => ErrSettlementTopupNotFound
  | _ => ErrOther
  end.

Definition IsSettlementNotFound (e : SettlementErr) : bool :=
  match e with ErrSettlementCustomerNotFound | ErrSettlementTopupNotFound => true | ErrOther => false end.

(** The outcome of a row and the ledger after it. *)
Definition handleOutboxEvent (fenced : bool) (seq : Z) (r : OutboxRow) (d : DB) : option SettlementErr * DB :=
  match BeginFunc (run_req fenced seq (req_of r)) d with
  | (inl e, d') => (Some (mapSettlementDomainError e), d')
  | (inr _, d') => (None, d')
  end.

(** ** Rows of the outbox *)

Definition claimable (now : Z) (r : OutboxRow) : bool :=
  bool_decide (o_status r = OutPending)
  || (bool_decide (o_status r = OutProcessing)
      && match o_lease r with Some l => l <? now | None => false end).

(** [locked]: the rows another transaction holds, which are skipped. *)
Definition GetPendingOutboxEventsForUpdate (now : Z) (limit : nat) (locked : Z -> bool) (p : PayDB)
    : list OutboxRow :=
  take limit (List.filter (fun r => claimable now r && negb (locked (o_id r))) (outbox p)).

Definition update_rows (f : OutboxRow -> OutboxRow) (p : PayDB) : PayDB := set_outbox (map f (outbox p)) p.

Definition set_row (r : OutboxRow) (st : OutboxStatus) (lease : option Z) (attempts : Z) : OutboxRow :=
  mkOutbox (o_id r) (o_type r) (o_payload r) st lease attempts.

Definition LeaseOutboxEvents (ids : list Z) (leaseUntil : Z) : PayDB -> PayDB :=
  update_rows (fun r => if bool_decide (o_id r ∈ ids)
                        then set_row r OutProcessing (Some leaseUntil) (o_attempts r + 1) else r).

Definition MarkOutboxEventProcessed (id : Z) : PayDB -> PayDB :=
  update_rows (fun r => if bool_decide (o_id r = id)
                        then set_row r OutProcessed (o_lease r) (o_attempts r) else r).

Definition MarkOutboxEventFailed (id attempts : Z) : PayDB -> PayDB :=
  update_rows (fun r => if bool_decide (o_id r = id)
                        then set_row r (if attempts <=? o_attempts r then OutDead else OutPending) None (o_attempts r)
                        else r).

Definition reclaimStaleProcessing (now : Z) : PayDB -> PayDB :=
  update_rows (fun r => if bool_decide (o_status r = OutProcessing)
                           && match o_lease r with Some l => l <? now | None => false end
                        then set_row r OutPending None (o_attempts r) else r).

Definition leaseDuration : Z := 30 * 1000000000.

(** The first transaction of [ProcessOutbox]. *)
Definition claim_batch (now : Z) (limit : nat) (locked : Z -> bool) (p : PayDB) : list OutboxRow * PayDB :=
  let rows := GetPendingOutboxEventsForUpdate now limit locked p in
  (rows, match rows with [] => p | _ => LeaseOutboxEvents (map o_id rows) (now + leaseDuration) p end).

Definition max_attempts (cfgMaxRetries : Z) : Z := if cfgMaxRetries <=? 0 then 5 else cfgMaxRetries.

Definition markOutboxEventRetryable (cfgMaxRetries : Z) (r : OutboxRow) (cause : SettlementErr) (p : PayDB) : PayDB :=
  if IsSettlementNotFound cause then
    let p1 := MarkOutboxEventFailed (o_id r) 0 p in
    if bool_decide (o_type r = SETTLE_BALANCE)
    then snd (BeginFunc (UpdatePaymentIntentStatus (p_intent (o_payload r)) SETTLEMENT_FAILED
                           (Some (p_ref (o_payload r)))) p1)
    else p1
  else MarkOutboxEventFailed (o_id r) (max_attempts cfgMaxRetries) p.

(** [markOutboxProcessedWithRetry] with the answers of its tries: an update
    whose reply was lost may have been made. *)
Inductive Reply := Ok | LostBefore | LostAfter.

Fixpoint mark_tries (tries : nat) (answers : list Reply) (id : Z) (p : PayDB) : bool * PayDB :=
  match tries, answers with
  | O, _ | S _, [] => (false, p)
  | S _, Ok :: _ => (true, MarkOutboxEventProcessed id p)
  | S n, LostBefore :: rest => mark_tries n rest id p
  | S n, LostAfter :: rest => mark_tries n rest id (MarkOutboxEventProcessed id p)
  end.
Definition markOutboxProcessedWithRetry (answers : list Reply) (id : Z) (p : PayDB) : bool * PayDB :=
  mark_tries 3 answers id p.

(** ** A round of the worker

    What happens to the calls made for one row: the settlement call, the
    updates that mark the row processed, and the transaction that marks it
    failed.  A call that is lost may have been carried out. *)
Record RowEnv := mkEnv { env_call : Reply; env_marks : list Reply; env_failed : Reply }.
Definition calm : RowEnv := mkEnv Ok [Ok] Ok.

Definition call_row (env : RowEnv) (fenced : bool) (seq : Z) (r : OutboxRow) (d : DB) : option SettlementErr * DB :=
  match env_call env with
  | Ok => handleOutboxEvent fenced seq r d
  | LostBefore => (Some ErrOther, d)
  | LostAfter => (Some ErrOther, snd (handleOutboxEvent fenced seq r d))
  end.

Definition process_row (cfgMaxRetries : Z) (fenced : bool) (seq : Z) (env : RowEnv) (r : OutboxRow) (s : PayDB * DB)
    : bool * (PayDB * DB) :=
  let '(p, d) := s in
  match call_row env fenced seq r d with
  | (Some e, d') =>
      (false, (match env_failed env with LostBefore => p | _ => markOutboxEventRetryable cfgMaxRetries r e p end, d'))
  | (None, d') => let '(ok, p') := markOutboxProcessedWithRetry (env_marks env) (o_id r) p in (ok, (p', d'))
  end.

(** The loop over the claimed rows; entries take ids from [seq] on. *)
Fixpoint process_rows (cfgMaxRetries : Z) (fenced : bool) (seq : Z) (env : Z -> RowEnv) (rows : list OutboxRow) (s : PayDB * DB)
    : nat * (PayDB * DB) :=
  match rows with
  | [] => (O, s)
  | r :: rest =>
      let '(ok, s1) := process_row cfgMaxRetries fenced seq (env (o_id r)) r s in
      let '(n, s2) := process_rows cfgMaxRetries fenced (seq + 1) env rest s1 in
      ((if ok then S n else n), s2)
  end.

(** [claim] is the fate of the first transaction. *)
Definition ProcessOutbox (cfgMaxRetries : Z) (fenced : bool) (seq now : Z) (claim : Reply) (env : Z -> RowEnv) (limit : nat)
    (s : PayDB * DB) : nat * (PayDB * DB) :=
  let '(rows, p') := claim_batch now limit (fun _ => false) (fst s) in
  match claim with
  | Ok => process_rows cfgMaxRetries fenced seq env rows (p', snd s)
  | LostBefore => (O, s)
  | LostAfter => (O, (p', snd s))
  end.

(** The batch of [Start]. *)
Definition poll_limit : nat := 100.

(** [BatchApplySettlement]: the four lists in this order. *)
Fixpoint apply_all (fenced : bool) (seq : Z) (rs : list Req) (d : DB) : list (Err + (bool * Z)) * DB :=
  match rs with
  | [] => ([], d)
  | r :: rest =>
      let '(x, d1) := BeginFunc (run_req fenced seq r) d in
      let '(xs, d2) := apply_all fenced (seq + 1) rest d1 in (x :: xs, d2)
  end.

Record SettlementParams := mkParams { sp_customer : UUID; sp_amount : Z; sp_key : string; sp_intent : UUID }.

Definition BatchApplySettlement (fenced : bool) (seq : Z)
    (credits refunds chargebacks chargebackReversals : list SettlementParams) (d : DB)
    : list (Err + (bool * Z)) * DB :=
  apply_all fenced seq
    (map (fun x => RCredit (sp_customer x) (sp_amount x) (sp_key x) (sp_intent x)) credits ++
     map (fun x => RRefund (sp_customer x) (sp_amount x) (sp_key x) (sp_intent x)) refunds ++
     map (fun x => RChargeback (sp_customer x) (sp_amount x) (sp_key x) (sp_intent x) true) chargebacks ++
     map (fun x => RChargeback (sp_customer x) (sp_amount x) (sp_key x) (sp_intent x) false) chargebackReversals) d.

(** ** Reconciliation *)

Inductive FindingKind :=
  | MISSING_LEDGER_TOPUP | TOPUP_AMOUNT_MISMATCH | ORPHAN_LEDGER_TOPUP | REFUND_LEDGER_DRIFT
  | CHARGEBACK_LEDGER_DRIFT | CHARGEBACK_REVERSAL_DRIFT | DEAD_OUTBOX | SETTLEMENT_FAILED_INTENT.
#[export] Instance FindingKind_eq_dec : EqDecision FindingKind.
Proof. solve_decision. Defined.

Record Finding := mkFinding { f_kind : FindingKind; f_intent : option UUID; f_payment : Z; f_ledger : Z; f_delta : Z }.

Inductive Severity := SeverityWarn | SeverityCritical.
Definition financialFindingSeverity (k : FindingKind) : Severity :=
  match k with
  | MISSING_LEDGER_TOPUP | TOPUP_AMOUNT_MISMATCH | SETTLEMENT_FAILED_INTENT => SeverityCritical
  | ORPHAN_LEDGER_TOPUP | REFUND_LEDGER_DRIFT | CHARGEBACK_LEDGER_DRIFT | CHARGEBACK_REVERSAL_DRIFT
  | DEAD_OUTBOX => SeverityWarn
  end.

Definition recon_status (s : IntentStatus) : bool :=
  match s with SUCCEEDED | REFUNDED | DISPUTED | SETTLEMENT_FAILED => true | _ => false end.
Definition ListIntentsForFinancialRecon (p : PayDB) : list Intent :=
  List.filter (fun i => recon_status (i_status i)) (intents p).

Definition SumRefundsByIntentForRecon (id : UUID) (p : PayDB) : Z :=
  sumZ (map (fun '(_, r) => if bool_decide (r_intent r = id) && bool_decide (r_status r = RefundSucceeded)
                            then r_amount r else 0) (map_to_list (refund_rows p))).
Definition sum_disputes (f : Dispute -> Z) (id : UUID) (p : PayDB) : Z :=
  sumZ (map (fun '(_, x) => if bool_decide (d_intent x = id) then f x else 0) (map_to_list (disputes p))).

(** [SumPaymentLedgerTotalsByIntentIDs]: the top-ups, if any. *)
Definition ledger_topup (id : UUID) (d : DB) : option Z :=
  if existsb (of_intent PAYMENT_TOPUP id) (balance_ledger d)
  then Some (topups id (balance_ledger d)) else None.

Definition drift (k : FindingKind) (id : UUID) (mine ledger : Z) : list Finding :=
  if (0 <? mine) && negb (ledger =? mine) then [mkFinding k (Some id) mine ledger (mine -64 ledger)] else [].

(** The findings of one intent. *)
Definition intent_findings (p : PayDB) (d : DB) (i : Intent) : list Finding :=
  let id := i_id i in
  if bool_decide (i_status i = SETTLEMENT_FAILED)
  then [mkFinding SETTLEMENT_FAILED_INTENT (Some id) (i_amount i) 0 0]
  else
    let topupMicro := default 0 (ledger_topup id d) in
    let l := balance_ledger d in
    (if topupMicro =? 0 then [mkFinding MISSING_LEDGER_TOPUP (Some id) (i_amount i) topupMicro (i_amount i -64 topupMicro)]
     else if negb (topupMicro =? i_amount i)
     then [mkFinding TOPUP_AMOUNT_MISMATCH (Some id) (i_amount i) topupMicro (i_amount i -64 topupMicro)]
     else [])
    ++ drift REFUND_LEDGER_DRIFT id (SumRefundsByIntentForRecon id p) (refunds id l)
    ++ drift CHARGEBACK_LEDGER_DRIFT id (sum_disputes d_withdrawn id p) (chargebacks id l)
    ++ drift CHARGEBACK_REVERSAL_DRIFT id (sum_disputes d_reinstated id p) (reversals id l).

(** The top-ups the loop collects: those of the listed intents. *)
Definition collected_topups (p : PayDB) (d : DB) : list (UUID * Z) :=
  omap (fun i => t ← ledger_topup (i_id i) d; Some (i_id i, t)) (ListIntentsForFinancialRecon p).

Definition orphan_findings (p : PayDB) (d : DB) : list Finding :=
  omap (fun '(id, t) =>
          if negb (existsb (fun i => bool_decide (i_id i = id)) (ListIntentsForFinancialRecon p)) && negb (t =? 0)
          then Some (mkFinding ORPHAN_LEDGER_TOPUP (Some id) 0 t t) else None) (collected_topups p d).

Definition dead_findings (p : PayDB) : list Finding :=
  map (fun _ => mkFinding DEAD_OUTBOX None 0 0 0)
    (take (Z.to_nat 500) (rev (List.filter (fun r => bool_decide (o_status r = OutDead)) (outbox p)))).

Definition collectFindings (p : PayDB) (d : DB) : list Finding * Z :=
  (concat (map (intent_findings p d) (ListIntentsForFinancialRecon p)) ++ orphan_findings p d ++ dead_findings p,
   zlen (ListIntentsForFinancialRecon p)).

(** ** The world *)

Record Worker := mkWorker { batch : list OutboxRow; outcome : option (option SettlementErr) }.

Record World := mkWorld { pay : PayDB; led : DB; workers : list Worker }.

(** Keys that belong to payments. *)
Definition reserved (k : string) : bool :=
  String.prefix "payment:" k || String.prefix "refund:" k || String.prefix "chargeback:" k.

(** An entry of any other writer of the ledger. *)
Definition other_entry (e : Entry) : Prop :=
  payment_intent_id e = None /\ forall k, idempotency_hash e = Some k -> reserved k = false.

Section world.
Context (uuid_Parse : string -> option UUID) (cfgMaxRetries : Z).

Inductive wstep : World -> World -> Prop :=
  | w_input w x :
      input_ok x ->
      wstep w (mkWorld (snd (BeginFunc (run_input uuid_Parse x) (pay w))) (led w) (workers w))
  | w_claim w now limit locked rows p' :
      claim_batch now limit locked (pay w) = (rows, p') ->
      wstep w (mkWorld p' (led w) (mkWorker rows None :: workers w))
  | w_reclaim w now :
      wstep w (mkWorld (reclaimStaleProcessing now (pay w)) (led w) (workers w))
  | w_handle w ws1 ws2 r rest seq fenced res d' :
      workers w = ws1 ++ mkWorker (r :: rest) None :: ws2 ->
      handleOutboxEvent fenced seq r (led w) = (res, d') ->
      wstep w (mkWorld (pay w) d' (ws1 ++ mkWorker (r :: rest) (Some res) :: ws2))
  (** the lookup of the call was answered before another call committed *)
  | w_handle_stale w ws1 ws2 r rest seq id d' :
      workers w = ws1 ++ mkWorker (r :: rest) None :: ws2 ->
      write_req seq (req_of r) (led w) = inr (id, d') ->
      wstep w (mkWorld (pay w) d' (ws1 ++ mkWorker (r :: rest) (Some None) :: ws2))
  (** the call fails, or its reply is lost after it committed *)
  | w_handle_lost w ws1 ws2 r rest :
      workers w = ws1 ++ mkWorker (r :: rest) None :: ws2 ->
      wstep w (mkWorld (pay w) (led w) (ws1 ++ mkWorker (r :: rest) (Some (Some ErrOther)) :: ws2))
  | w_reply_lost w ws1 ws2 r rest res :
      workers w = ws1 ++ mkWorker (r :: rest) (Some res) :: ws2 ->
      wstep w (mkWorld (pay w) (led w) (ws1 ++ mkWorker (r :: rest) (Some (Some ErrOther)) :: ws2))
  | w_mark w ws1 ws2 r rest answers ok p' :
      workers w = ws1 ++ mkWorker (r :: rest) (Some None) :: ws2 ->
      markOutboxProcessedWithRetry answers (o_id r) (pay w) = (ok, p') ->
      wstep w (mkWorld p' (led w) (ws1 ++ mkWorker rest None :: ws2))
  | w_mark_failed w ws1 ws2 r rest e :
      workers w = ws1 ++ mkWorker (r :: rest) (Some (Some e)) :: ws2 ->
      wstep w (mkWorld (markOutboxEventRetryable cfgMaxRetries r e (pay w)) (led w)
                 (ws1 ++ mkWorker rest None :: ws2))
  (** the update of a failed row itself fails *)
  | w_mark_skipped w ws1 ws2 r rest e :
      workers w = ws1 ++ mkWorker (r :: rest) (Some (Some e)) :: ws2 ->
      wstep w (mkWorld (pay w) (led w) (ws1 ++ mkWorker rest None :: ws2))
  | w_crash w ws1 ws2 b o :
      workers w = ws1 ++ mkWorker b o :: ws2 ->
      wstep w (mkWorld (pay w) (led w) (ws1 ++ ws2))
  | w_other w missing e :
      other_entry e ->
      wstep w (mkWorld (pay w) (snd (BeginFunc (post missing e) (led w))) (workers w))
  | w_overdraft w c ov camps :
      wstep w (mkWorld (pay w) (snd (BeginFunc (UpdateOverdraft c ov camps) (led w))) (workers w)).

Definition wreach : World -> World -> Prop := rtc wstep.

End world.


(** ** What never changes *)

Definition core (r : OutboxRow) : Z * OutboxType * Payload := (o_id r, o_type r, o_payload r).

Definition known (l : list OutboxRow) (r : OutboxRow) : Prop := exists r', r' ∈ l /\ core r' = core r.

Definition in_ledger (r : OutboxRow) (d : DB) : Prop := is_Some (lookup_req (req_of r) d).

Lemma req_of_core r r' : core r = core r' -> req_of r = req_of r'.
Proof. unfold core, req_of. by intros [= _ -> ->]. Qed.

Lemma in_ledger_core r r' d : core r = core r' -> in_ledger r d -> in_ledger r' d.
Proof. intros E. unfold in_ledger. by rewrite (req_of_core _ _ E). Qed.

Lemma lookup_req_grows r d d' :
  balance_ledger d `prefix_of` balance_ledger d' -> is_Some (lookup_req r d) -> is_Some (lookup_req r d').
Proof.
  intros [ext Hl]. unfold lookup_req, GetLedgerByHashForUpdate, GetLedgerByPaymentIntentForUpdate.
  rewrite Hl. destruct r; rewrite !find_app; intros [x Hx].
  2: destruct (List.find (of_intent PAYMENT_TOPUP intent) (balance_ledger d)); [by eauto|];
     destruct (List.find (of_intent PAYMENT_TOPUP intent) ext); [by eauto|].
  all: rewrite Hx; by eauto.
Qed.

Lemma in_ledger_grows r d d' :
  balance_ledger d `prefix_of` balance_ledger d' -> in_ledger r d -> in_ledger r d'.
Proof. apply lookup_req_grows. Qed.

(** The inputs only append pending rows. *)
Definition extends (l : list OutboxRow) (p : PayDB) : Prop :=
  exists k, outbox p = l ++ k /\ Forall (fun r => o_status r = OutPending /\ o_attempts r = 0) k.

Lemma extends_same l (f : PayDB -> PayDB) :
  (forall p, outbox (f p) = outbox p) -> preserves (E := PErr) (extends l) (modify f).
Proof. intros Hf p a p' (k & Hk & Hp) [= <- <-]. exists k. by rewrite Hf. Qed.

Lemma extends_event l t pl : preserves (extends l) (CreateOutboxEvent t pl).
Proof.
  intros p a p' (k & Hk & Hp) [= <- <-]. exists (k ++ [mkOutbox (zlen (outbox p)) t pl OutPending None 0]).
  split; [simpl; by rewrite Hk, app_assoc|]. apply Forall_app. split; [done|by constructor].
Qed.

Ltac extends_step :=
  first [apply extends_event | apply extends_same; done | apply preserves_ret | apply preserves_raise
        | apply preserves_read | apply preserves_bind; [|intros ?] | apply triple_if
        | match goal with |- triple _ (match ?x with _ => _ end) _ => destruct x end
        | match goal with |- preserves _ (match ?x with _ => _ end) => destruct x end].

Lemma extends_input l up x : preserves (extends l) (run_input up x).
Proof.
  destruct x; simpl; unfold claimPaymentIntent, finalizePaymentIntent, markIntentFailed,
    ProcessStripeWebhook, ProcessStripeRefundWebhook, ProcessStripeDisputeWebhook, ProcessCryptoWebhook,
    claim_event, process_hold, ApplyIntentRefundAmount,
    dispute_created, funds_withdrawn, funds_reinstated, dispute_closed, ensureDisputeRow, mark_disputed,
    UpdatePaymentIntentStatus, update_intent, put_dispute, set_dispute_status, set_hold_status,
    MaybeActivateLicenseFromIntent, guard, lift, updateWebhookStatus;
    cbv zeta; repeat extends_step.
Qed.

Lemma input_extends up x p : extends (outbox p) (snd (BeginFunc (run_input up x) p)).
Proof.
  apply BeginFunc_preserves; [apply extends_input|]. exists []. by rewrite app_nil_r.
Qed.

(** The worker's updates keep the cores of the rows. *)
Definition keeps_core (f : OutboxRow -> OutboxRow) : Prop := forall r, core (f r) = core r.

Lemma PI_rows f p : keeps_core f -> PI p -> PI (update_rows f p).
Proof. intros Hf H. apply PI_map_rows; [done|]. intros r. specialize (Hf r). by injection Hf. Qed.

Lemma known_mono l l' r : (forall x, x ∈ l -> known l' x) -> known l r -> known l' r.
Proof. intros H (x & Hx & E). destruct (H x Hx) as (y & Hy & E'). exists y. split; [done|congruence]. Qed.

Lemma known_in l r : r ∈ l -> known l r.
Proof. by exists r. Qed.

Lemma known_rows f p r : keeps_core f -> r ∈ outbox p -> known (outbox (update_rows f p)) r.
Proof. intros Hf Hr. exists (f r). split; [by apply list_elem_of_fmap_2|apply Hf]. Qed.

Lemma known_extends l p r : extends l p -> r ∈ l -> known (outbox p) r.
Proof. intros (k & -> & _) Hr. apply known_in. set_solver. Qed.

(** A row's id is its place, so it determines the row. *)
Lemma row_unique p r r' : PI p -> r ∈ outbox p -> r' ∈ outbox p -> o_id r = o_id r' -> r = r'.
Proof.
  intros H [k Hk]%list_elem_of_lookup [k' Hk']%list_elem_of_lookup E.
  pose proof (pi_rows _ H _ _ Hk). pose proof (pi_rows _ H _ _ Hk'). assert (k = k') as -> by lia. congruence.
Qed.

Lemma known_id p r r' : PI p -> known (outbox p) r -> r' ∈ outbox p -> o_id r' = o_id r -> core r' = core r.
Proof.
  intros H (x & Hx & E) Hr' Hid. assert (r' = x) as ->; [|done].
  eapply row_unique; [done..|]. unfold core in E. injection E as -> _ _. done.
Qed.

(** ** The invariant of the world *)

Definition origin (l : list OutboxRow) (e : Entry) : Prop :=
  match payment_intent_id e with
  | None => forall k, idempotency_hash e = Some k -> reserved k = false
  | Some _ => exists r, r ∈ l /\ e = entry_of (e_id e) (req_of r)
  end.

Record WI (w : World) : Prop := mkWI {
  wi_pay : PI (pay w);
  wi_hash : NoDup (omap idempotency_hash (balance_ledger (led w)));
  wi_topup : NoDup (omap topup_intent (balance_ledger (led w)));
  wi_origin : Forall (origin (outbox (pay w))) (balance_ledger (led w));
  wi_batch : Forall (fun wk => Forall (known (outbox (pay w))) (batch wk) /\
               match batch wk, outcome wk with
               | r :: _, Some None => in_ledger r (led w)
               | _, _ => True
               end) (workers w);
  wi_done : Forall (fun r => 0 <= o_attempts r /\ (o_status r = OutProcessed -> in_ledger r (led w)))
              (outbox (pay w)) }.

Lemma origin_mono l l' e : (forall x, x ∈ l -> known l' x) -> origin l e -> origin l' e.
Proof.
  intros H. unfold origin. destruct (payment_intent_id e); [|done]. intros (r & Hr & He).
  destruct (H r Hr) as (r' & Hr' & E). exists r'. split; [done|]. by rewrite (req_of_core _ _ E).
Qed.

(** A change of the payment tables. *)
Lemma WI_pay w p' :
  WI w -> PI p' -> (forall r, r ∈ outbox (pay w) -> known (outbox p') r) ->
  (forall r, r ∈ outbox p' -> 0 <= o_attempts r /\ (o_status r = OutProcessed -> in_ledger r (led w))) ->
  WI (mkWorld p' (led w) (workers w)).
Proof.
  intros [] Hp Hk Hd. constructor; simpl; try done.
  - eapply Forall_impl; [exact wi_origin0|]. intros e. by apply origin_mono.
  - eapply Forall_impl; [exact wi_batch0|]. intros wk [H1 H2]. split; [|done].
    eapply Forall_impl; [exact H1|]. intros r. by apply known_mono.
  - by apply Forall_forall.
Qed.

(** A change of the ledger by an entry. *)
Lemma WI_posted w e c :
  WI w -> post_ok e c (led w) -> origin (outbox (pay w)) e ->
  WI (mkWorld (pay w) (posted e c (led w)) (workers w)).
Proof.
  intros [] (_ & _ & [Hh Ht]%no_clash) Ho.
  assert (balance_ledger (led w) `prefix_of` balance_ledger (posted e c (led w))) as Hg by by apply prefix_app_r.
  constructor; simpl; try done.
  - by apply NoDup_omap_snoc.
  - by apply NoDup_omap_snoc.
  - apply Forall_app. split; [done|by constructor].
  - eapply Forall_impl; [exact wi_batch0|]. intros wk [H1 H2]. split; [done|].
    repeat case_match; try done. by eapply in_ledger_grows.
  - eapply Forall_impl; [exact wi_done0|]. intros r [Ha Hr]. split; [done|]. intros Hs.
    eapply in_ledger_grows; [exact Hg|by apply Hr].
Qed.

(** A change of the workers. *)
Lemma WI_workers w ws :
  WI w -> Forall (fun wk => Forall (known (outbox (pay w))) (batch wk) /\
               match batch wk, outcome wk with
               | r :: _, Some None => in_ledger r (led w)
               | _, _ => True
               end) ws -> WI (mkWorld (pay w) (led w) ws).
Proof. intros [] Hw. by constructor. Qed.

(** ** Every step keeps it *)

Lemma origin_entry l seq r : known l r -> origin l (entry_of seq (req_of r)).
Proof.
  intros (r' & Hr' & E). unfold origin. rewrite <- (req_of_core _ _ E).
  assert (exists i, payment_intent_id (entry_of seq (req_of r')) = Some i) as [i ->].
  { unfold req_of. destruct (o_type r'); by eexists. }
  exists r'. split; [done|]. unfold req_of. by destruct (o_type r').
Qed.

Lemma WI_write w seq r id d' :
  WI w -> known (outbox (pay w)) r -> write_req seq (req_of r) (led w) = inr (id, d') ->
  WI (mkWorld (pay w) d' (workers w)) /\ in_ledger r d'.
Proof.
  intros H Hr (_ & -> & c & Hok & ->)%write_effect. split.
  - apply WI_posted; [done|done|]. by apply origin_entry.
  - unfold in_ledger. destruct (lookup_req (req_of r) (led w)) as [e|] eqn:El.
    + eapply lookup_req_grows; [|by rewrite El]. by apply prefix_app_r.
    + erewrite lookup_written; [eauto|exact El|reflexivity].
Qed.

Lemma run_req_ok fenced seq r d b id d' :
  run_req fenced seq r d = inr ((b, id), d') ->
  (d' = d /\ is_Some (lookup_req r d)) \/ write_req seq r d = inr (id, d').
Proof.
  destruct b; [intros [_ H]%run_req_write; by right|]. intros H. left.
  destruct r; simpl in *; unfold TopUpBalance, ApplyPaymentCredit, ApplyPaymentRefund,
    applyPaymentChargebackMovement, found, applied in H; tx_inv H; try discriminate;
    (split; [done|]); eauto.
Qed.

Lemma handle_ok w fenced seq r res d' :
  WI w -> known (outbox (pay w)) r -> handleOutboxEvent fenced seq r (led w) = (res, d') ->
  WI (mkWorld (pay w) d' (workers w)) /\ (res = None -> in_ledger r d').
Proof.
  intros H Hr. unfold handleOutboxEvent, BeginFunc. destruct w as [p l ws].
  destruct (run_req fenced seq (req_of r) (led (mkWorld p l ws))) as [e|[[b id] d1]] eqn:E; intros [= <- <-].
  - split; [done|discriminate].
  - apply run_req_ok in E as [[-> Hf]|Hw]; [by split|].
    destruct (WI_write _ _ _ _ _ H Hr Hw). by split.
Qed.

Lemma WI_other w missing e :
  WI w -> other_entry e -> WI (mkWorld (pay w) (snd (BeginFunc (post missing e) (led w))) (workers w)).
Proof.
  intros H [Hn Hk]. unfold BeginFunc. destruct (post missing e (led w)) as [x|[id d']] eqn:E.
  - by destruct w.
  - apply post_effect in E as (c & Hok & _ & ->). apply WI_posted; [done|done|].
    unfold origin. by rewrite Hn.
Qed.

Lemma WI_frame w d : WI w -> balance_ledger d = balance_ledger (led w) -> WI (mkWorld (pay w) d (workers w)).
Proof.
  intros [] E. assert (forall r, in_ledger r (led w) -> in_ledger r d) as Hi.
  { intros r. apply in_ledger_grows. by rewrite E. }
  constructor; simpl; rewrite ?E; try done.
  - eapply Forall_impl; [exact wi_batch0|]. intros wk [H1 H2]. split; [done|]. repeat case_match; auto.
  - eapply Forall_impl; [exact wi_done0|]. intros r [Ha Hr]. auto.
Qed.

Lemma WI_overdraft w c ov camps :
  WI w -> WI (mkWorld (pay w) (snd (BeginFunc (UpdateOverdraft c ov camps) (led w))) (workers w)).
Proof.
  intros H. apply (BeginFunc_preserves (fun d => WI (mkWorld (pay w) d (workers w)))); [|by destruct w].
  apply preserves_overdraft.
  - intros d cs h o Hd. by apply (WI_frame _ _ Hd).
  - intros seq cu camp amt r d e Hd Hok. apply (WI_posted _ e r Hd Hok). unfold origin, e. simpl. discriminate.
  - intros cu r ov' d Hd _ _. by apply (WI_frame _ _ Hd).
Qed.

(** Marks of the rows. *)
Lemma keeps_if (b : OutboxRow -> bool) st lease att :
  keeps_core (fun r => if b r then set_row r (st r) (lease r) (att r) else r).
Proof. intros r. by destruct (b r). Qed.

Lemma done_row w r : WI w -> r ∈ outbox (pay w) -> o_status r = OutProcessed -> in_ledger r (led w).
Proof. intros H Hr. pose proof (wi_done _ H) as Hd. rewrite Forall_forall in Hd. by apply Hd. Qed.

Lemma attempts_row w r : WI w -> r ∈ outbox (pay w) -> 0 <= o_attempts r.
Proof. intros H Hr. pose proof (wi_done _ H) as Hd. rewrite Forall_forall in Hd. by apply Hd. Qed.

Lemma WI_rows w f :
  WI w -> keeps_core f ->
  (forall r, r ∈ outbox (pay w) -> 0 <= o_attempts r ->
     0 <= o_attempts (f r) /\ (o_status (f r) = OutProcessed -> in_ledger r (led w))) ->
  WI (mkWorld (update_rows f (pay w)) (led w) (workers w)).
Proof.
  intros H Hf Hd. apply WI_pay; [done|by apply PI_rows, H|intros r; by apply known_rows|].
  intros r (r0 & -> & Hr)%list_elem_of_fmap. destruct (Hd r0 Hr) as [Ha Hs]; [by apply (attempts_row w)|].
  split; [done|]. intros Hp. eapply in_ledger_core; [symmetry; apply Hf|]. by apply Hs.
Qed.

Lemma WI_lease w ids until : WI w -> WI (mkWorld (LeaseOutboxEvents ids until (pay w)) (led w) (workers w)).
Proof.
  intros H. apply WI_rows; [done|apply keeps_if|]. intros r Hr Ha. case_bool_decide; simpl.
  - split; [lia|done].
  - split; [done|]. by apply done_row.
Qed.

Lemma WI_failed w id att : WI w -> WI (mkWorld (MarkOutboxEventFailed id att (pay w)) (led w) (workers w)).
Proof.
  intros H. apply WI_rows; [done|apply keeps_if|]. intros r Hr Ha. case_bool_decide; simpl.
  - split; [done|]. by case_match.
  - split; [done|]. by apply done_row.
Qed.

Lemma WI_reclaim w now : WI w -> WI (mkWorld (reclaimStaleProcessing now (pay w)) (led w) (workers w)).
Proof.
  intros H. apply WI_rows; [done|apply keeps_if|]. intros r Hr Ha.
  destruct (bool_decide (o_status r = OutProcessing) && _); simpl; split; try done. by apply done_row.
Qed.

Lemma WI_processed w r :
  WI w -> known (outbox (pay w)) r -> in_ledger r (led w) ->
  WI (mkWorld (MarkOutboxEventProcessed (o_id r) (pay w)) (led w) (workers w)).
Proof.
  intros H Hk Hl. apply WI_rows; [done|apply keeps_if|]. intros r' Hr' Ha. split; [by case_bool_decide|].
  case_bool_decide as E; simpl.
  - intros _. eapply in_ledger_core; [|exact Hl]. symmetry. by eapply known_id; [apply H|..].
  - by apply done_row.
Qed.

Lemma WI_tries n answers r w ok p' :
  WI w -> known (outbox (pay w)) r -> in_ledger r (led w) ->
  mark_tries n answers (o_id r) (pay w) = (ok, p') ->
  WI (mkWorld p' (led w) (workers w)).
Proof.
  revert answers w. induction n as [|n IH]; intros answers w H Hk Hl Hm.
  - destruct answers; injection Hm as <- <-; by destruct w.
  - destruct answers as [|[] rest]; simpl in Hm.
    + injection Hm as <- <-. by destruct w.
    + injection Hm as <- <-. by apply WI_processed.
    + by apply (IH rest).
    + apply (IH rest (mkWorld (MarkOutboxEventProcessed (o_id r) (pay w)) (led w) (workers w)));
        [by apply WI_processed| |done|done].
      destruct Hk as (x & Hx & E).
      destruct (known_rows (fun r' => if bool_decide (o_id r' = o_id r)
        then set_row r' OutProcessed (o_lease r') (o_attempts r') else r') (pay w) x) as (y & Hy & Ey);
        [apply (keeps_if (fun r' => bool_decide (o_id r' = o_id r)) (fun _ => OutProcessed))|done|].
      exists y. split; [done|congruence].
Qed.

Lemma WI_retryable w cfg r e :
  WI w -> WI (mkWorld (markOutboxEventRetryable cfg r e (pay w)) (led w) (workers w)).
Proof.
  intros H. unfold markOutboxEventRetryable. destruct (IsSettlementNotFound e); [|by apply WI_failed].
  destruct (bool_decide (o_type r = SETTLE_BALANCE)); [|by apply WI_failed].
  pose proof (WI_failed w (o_id r) 0 H) as H1.
  refine (WI_pay _ _ H1 _ _ _).
  - apply PI_status; [apply H1|]. done.
  - intros x. by apply known_in.
  - intros x Hx. split; [apply (attempts_row _ _ H1 Hx)|apply (done_row _ _ H1 Hx)].
Qed.

Definition worker_ok (p : PayDB) (d : DB) (wk : Worker) : Prop :=
  Forall (known (outbox p)) (batch wk) /\
  match batch wk, outcome wk with r :: _, Some None => in_ledger r d | _, _ => True end.

Lemma workers_ok w : WI w -> Forall (worker_ok (pay w) (led w)) (workers w).
Proof. by intros []. Qed.

(** One worker's state is replaced. *)
Lemma WI_worker w ws1 ws2 wk wk' :
  WI w -> workers w = ws1 ++ wk :: ws2 -> (worker_ok (pay w) (led w) wk -> worker_ok (pay w) (led w) wk') ->
  WI (mkWorld (pay w) (led w) (ws1 ++ wk' :: ws2)).
Proof.
  intros H E Hwk. apply WI_workers; [done|]. pose proof (workers_ok w H) as Hw. rewrite E in Hw.
  apply Forall_app in Hw as [H1 [H2 H3]%Forall_cons]. apply Forall_app. split; [done|].
  constructor; [by apply Hwk|done].
Qed.

Lemma worker_at w ws1 ws2 wk : WI w -> workers w = ws1 ++ wk :: ws2 -> worker_ok (pay w) (led w) wk.
Proof.
  intros H E. pose proof (workers_ok w H) as Hw. rewrite E in Hw. by apply Forall_app in Hw as [_ [? _]%Forall_cons].
Qed.

Lemma worker_head w ws1 ws2 r rest o :
  WI w -> workers w = ws1 ++ mkWorker (r :: rest) o :: ws2 -> known (outbox (pay w)) r.
Proof. intros H E. pose proof (worker_at _ _ _ _ H E) as [Hb _]. by apply Forall_cons in Hb as [? _]. Qed.

Lemma worker_next p d r rest o : worker_ok p d (mkWorker (r :: rest) o) -> worker_ok p d (mkWorker rest None).
Proof. intros [Hb _]. apply Forall_cons in Hb as [_ Hb]. split; [done|]. simpl. by destruct rest. Qed.

Lemma claimed_known now limit locked p rows p' :
  claim_batch now limit locked p = (rows, p') ->
  Forall (fun r => r ∈ outbox p /\ claimable now r = true) rows /\
  p' = match rows with [] => p | _ => LeaseOutboxEvents (map o_id rows) (now + leaseDuration) p end.
Proof.
  intros [= <- <-]. split; [|done]. apply Forall_take, Forall_forall.
  intros r [Hr Hc]%list_elem_of_In%filter_In. apply andb_prop in Hc as [Hc _].
  split; [by apply list_elem_of_In|done].
Qed.

Lemma WI_step up cfg w w' : wstep up cfg w w' -> WI w -> WI w'.
Proof.
  intros Hs H. destruct Hs as [w x Hx|w now limit locked rows p' Hc|w now|w ws1 ws2 r rest seq fenced res d' E Hh
    |w ws1 ws2 r rest seq id d' E Hw|w ws1 ws2 r rest E|w ws1 ws2 r rest res E|w ws1 ws2 r rest answers ok p' E Hm
    |w ws1 ws2 r rest e E|w ws1 ws2 r rest e E|w ws1 ws2 b o E|w missing e Ho|w c ov camps].
  - pose proof (input_extends up x (pay w)) as Hext. apply WI_pay; [done| | |].
    + apply BeginFunc_preserves; [by apply pres_input|apply H].
    + intros r. by apply known_extends.
    + destruct Hext as (k & -> & Hk). intros r [Hr|Hr]%elem_of_app.
      * split; [by apply (attempts_row w)|by apply (done_row w)].
      * rewrite Forall_forall in Hk. destruct (Hk r Hr) as [-> ->]. done.
  - apply claimed_known in Hc as [Hc ->].
    assert (forall p' d', (forall r, r ∈ outbox (pay w) -> known (outbox p') r) -> worker_ok p' d' (mkWorker rows None)) as Hok.
    { intros p' d' Hk. split; [|simpl; by destruct rows]. simpl. eapply Forall_impl; [exact Hc|].
      intros r [Hr _]. by apply Hk. }
    destruct rows as [|r0 rows].
    + apply WI_workers; [done|]. constructor; [by apply Hok, known_in|by apply workers_ok].
    + pose proof (WI_lease w (map o_id (r0 :: rows)) (now + leaseDuration) H) as H1.
      apply (WI_workers _ _ H1). constructor; [|apply (workers_ok _ H1)]. apply Hok. intros r Hr.
      apply known_rows; [apply (keeps_if (fun r' => bool_decide (o_id r' ∈ map o_id (r0 :: rows))) (fun _ => OutProcessing))|done].
  - by apply WI_reclaim.
  - pose proof (worker_head _ _ _ _ _ _ H E) as Hk. destruct (handle_ok _ _ _ _ _ _ H Hk Hh) as [H1 Hi].
    eapply (WI_worker _ ws1 ws2 _ _ H1 E). intros [Hb _]. split; [done|]. simpl. destruct res; [done|]. by apply Hi.
  - pose proof (worker_head _ _ _ _ _ _ H E) as Hk. destruct (WI_write _ _ _ _ _ H Hk Hw) as [H1 Hi].
    eapply (WI_worker _ ws1 ws2 _ _ H1 E). intros [Hb _]. by split.
  - eapply (WI_worker _ ws1 ws2 _ _ H E). intros [Hb _]. by split.
  - eapply (WI_worker _ ws1 ws2 _ _ H E). intros [Hb _]. by split.
  - pose proof (worker_at _ _ _ _ H E) as [_ Hi]. pose proof (worker_head _ _ _ _ _ _ H E) as Hk.
    pose proof (WI_tries _ _ _ _ _ _ H Hk Hi Hm) as H1.
    eapply (WI_worker _ ws1 ws2 _ _ H1 E). apply worker_next.
  - eapply (WI_worker _ ws1 ws2 _ _ (WI_retryable w cfg r e H) E). apply worker_next.
  - eapply (WI_worker _ ws1 ws2 _ _ H E). apply worker_next.
  - apply WI_workers; [done|]. pose proof (workers_ok w H) as Hw. rewrite E in Hw.
    apply Forall_app in Hw as [H1 [H2 H3]%Forall_cons]. by apply Forall_app.
  - by apply WI_other.
  - by apply WI_overdraft.
Qed.

Lemma WI_reach up cfg w w' : wreach up cfg w w' -> WI w -> WI w'.
Proof. induction 1; eauto using WI_step. Qed.

(** A ledger without payments, before any is made. *)
Definition no_payments (d : DB) : Prop :=
  NoDup (omap idempotency_hash (balance_ledger d)) /\ Forall other_entry (balance_ledger d).

Lemma no_payments_topups l : Forall other_entry l -> omap topup_intent l = [].
Proof.
  induction 1 as [|e l [He _] _ IH]; [done|]. simpl. unfold topup_intent at 1. rewrite He.
  by destruct (bool_decide _).
Qed.

Lemma WI_start d : no_payments d -> WI (mkWorld empty_pay d []).
Proof.
  intros [Hn Ho]. constructor; simpl.
  - apply PI_empty.
  - done.
  - rewrite no_payments_topups by done. constructor.
  - eapply Forall_impl; [exact Ho|]. intros e [He Hk]. unfold origin. by rewrite He.
  - constructor.
  - constructor.
Qed.

(** ** Sums over the ledger and over the outbox *)

Lemma NoDup_omap_refine {A B C} (f : A -> option B) (g : A -> option C) (h : C -> B) l :
  (forall a c, g a = Some c -> f a = Some (h c)) -> NoDup (omap f l) -> NoDup (omap g l).
Proof.
  intros Hg. induction l as [|a l IH]; simpl; [constructor|]. destruct (g a) as [c|] eqn:Ec.
  - rewrite (Hg a c Ec). intros [Hn Hl]%NoDup_cons. apply NoDup_cons. split; [|by apply IH].
    intros (a' & Ha' & Ec')%list_elem_of_omap. apply Hn, list_elem_of_omap. exists a'. split; [done|by apply Hg].
  - destruct (f a); [intros [_ Hl]%NoDup_cons|intros Hl]; by apply IH.
Qed.

Lemma NoDup_omap_inj {A B} (f : A -> option B) l x y b :
  NoDup (omap f l) -> x ∈ l -> y ∈ l -> f x = Some b -> f y = Some b -> x = y.
Proof.
  induction l as [|a l IH]; [set_solver|]. simpl.
  intros Hn [->|Hx]%elem_of_cons [->|Hy]%elem_of_cons Ex Ey; [done| | |].
  - rewrite Ex in Hn. apply NoDup_cons in Hn as [Hn _]. destruct Hn. apply list_elem_of_omap. eauto.
  - rewrite Ey in Hn. apply NoDup_cons in Hn as [Hn _]. destruct Hn. apply list_elem_of_omap. eauto.
  - apply IH; try done. destruct (f a); [by apply NoDup_cons in Hn as [_ ?]|done].
Qed.

Definition refund_entry (id : UUID) (e : Entry) : option (string * Z) :=
  if of_intent PAYMENT_REFUND id e then k ← idempotency_hash e; Some (k, Z.abs (amount e)) else None.
Definition refund_row (id : UUID) (r : OutboxRow) : option (string * Z) :=
  if is_type REVERSE_BALANCE id r then Some (p_ref (o_payload r), p_amount (o_payload r)) else None.
Definition keyed (x : string * Z) : string * Z := (refundLedgerIdempotencyKey (fst x), snd x).

Lemma refundKey_inj x y : refundLedgerIdempotencyKey x = refundLedgerIdempotencyKey y -> x = y.
Proof. unfold refundLedgerIdempotencyKey. cbn. intros E. by simplify_eq. Qed.

Lemma paymentKey_inj x y : LedgerIdempotencyKey x = LedgerIdempotencyKey y -> x = y.
Proof. unfold LedgerIdempotencyKey. cbn. intros E. by simplify_eq. Qed.

Lemma reserved_refund x : reserved (refundLedgerIdempotencyKey x) = true.
Proof. by destruct x. Qed.

Lemma reserved_payment x : reserved (LedgerIdempotencyKey x) = true.
Proof. by destruct x. Qed.

Lemma refunds_pairs id l :
  Forall (fun e => of_intent PAYMENT_REFUND id e = true -> is_Some (idempotency_hash e)) l ->
  refunds id l = sumZ (map snd (omap (refund_entry id) l)).
Proof.
  induction 1 as [|e l He _ IH]; [done|]. change (e :: l) with ([e] ++ l).
  rewrite sum_intent_app, sum_intent_one, IH. simpl. unfold refund_entry at 2.
  destruct (of_intent PAYMENT_REFUND id e); [|done]. destruct He as [k ->]; [done|]. done.
Qed.

Lemma refund_sum_pairs id l : refund_sum id l = sumZ (map snd (map keyed (omap (refund_row id) l))).
Proof.
  unfold refund_sum. induction l as [|r l IH]; [done|]. simpl. rewrite IH. unfold refund_row at 2.
  destruct (is_type REVERSE_BALANCE id r); [|done]. done.
Qed.

Section sums.
Context (w : World) (H : WI w).

Lemma origin_of e : e ∈ balance_ledger (led w) -> origin (outbox (pay w)) e.
Proof. pose proof (wi_origin _ H) as Ho. rewrite Forall_forall in Ho. apply Ho. Qed.

Lemma payload_at r : r ∈ outbox (pay w) -> exists j, j ∈ intents (pay w) /\ payload_of j r.
Proof. pose proof (pi_payloads _ (wi_pay _ H)) as Ho. rewrite Forall_forall in Ho. apply Ho. Qed.

Lemma amount_at i : i ∈ intents (pay w) -> 0 < i_amount i /\ in_i64 (i_amount i) /\ 0 <= i_refunded i <= i_amount i.
Proof. pose proof (pi_amounts _ (wi_pay _ H)) as Ho. rewrite Forall_forall in Ho. apply Ho. Qed.

(** The entry found by a reserved key is that of a row with the key. *)
Lemma found_by_key k e :
  GetLedgerByHashForUpdate k (led w) = Some e -> reserved k = true ->
  e ∈ balance_ledger (led w) /\ exists r, r ∈ outbox (pay w) /\ e = entry_of (e_id e) (req_of r) /\ p_key (o_payload r) = k.
Proof.
  intros [Hin%list_elem_of_In Hh%bool_decide_eq_true]%find_some Hk. split; [done|].
  pose proof (origin_of e Hin) as Ho. unfold origin in Ho. destruct (payment_intent_id e).
  - destruct Ho as (r & Hr & He). exists r. split; [done|]. split; [done|]. rewrite He in Hh.
    unfold req_of in Hh. destruct (o_type r); simpl in Hh; congruence.
  - rewrite (Ho k Hh) in Hk. done.
Qed.

Lemma refund_of_row e id :
  e ∈ balance_ledger (led w) -> of_intent PAYMENT_REFUND id e = true ->
  exists r, r ∈ outbox (pay w) /\ is_type REVERSE_BALANCE id r = true /\ e = entry_of (e_id e) (req_of r).
Proof.
  intros Hin [Ht%bool_decide_eq_true Hi%bool_decide_eq_true]%andb_prop.
  pose proof (origin_of e Hin) as Ho. unfold origin in Ho. rewrite Hi in Ho. destruct Ho as (r & Hr & He).
  exists r. split; [done|]. split; [|done]. rewrite He in Ht, Hi. unfold req_of in Ht, Hi. unfold is_type.
  destruct (o_type r); simpl in *; try discriminate. injection Hi as ->. by rewrite bool_decide_eq_true_2.
Qed.

Lemma reverse_row r id :
  r ∈ outbox (pay w) -> is_type REVERSE_BALANCE id r = true ->
  refund_entry id (entry_of 0 (req_of r)) = Some (keyed (p_ref (o_payload r), p_amount (o_payload r))) /\
  0 < p_amount (o_payload r).
Proof.
  intros Hr [Ht%bool_decide_eq_true Hi%bool_decide_eq_true]%andb_prop.
  destruct (payload_at r Hr) as (j & Hj & _ & _ & Hp). rewrite Ht in Hp. destruct Hp as (_ & Hk & Hb).
  destruct (amount_at j Hj) as (_ & Ha & _). unfold refund_entry, req_of. rewrite Ht. simpl.
  unfold of_intent. simpl. rewrite Hi, !bool_decide_eq_true_2 by done. simpl. split; [|lia].
  unfold keyed. simpl. rewrite Hk. f_equal. f_equal. unfold in_i64 in Ha. nowrap. lia.
Qed.

Lemma refund_entry_seq id seq r : refund_entry id (entry_of seq r) = refund_entry id (entry_of 0 r).
Proof. by destruct r. Qed.

Lemma ledger_refunds id :
  refunds id (balance_ledger (led w)) = sumZ (map snd (omap (refund_entry id) (balance_ledger (led w)))).
Proof.
  apply refunds_pairs, Forall_forall. intros e He Hof. destruct (refund_of_row e id He Hof) as (r & _ & _ & ->).
  unfold req_of. destruct (o_type r); simpl; eauto.
Qed.

Lemma ledger_pairs_nodup id : NoDup (omap (refund_entry id) (balance_ledger (led w))).
Proof.
  eapply (NoDup_omap_refine _ _ fst); [|apply (wi_hash _ H)]. intros e [k a]. unfold refund_entry.
  destruct (of_intent PAYMENT_REFUND id e); [|done]. destruct (idempotency_hash e); simpl; by intros [= -> _].
Qed.

Lemma outbox_pairs_nodup id : NoDup (map keyed (omap (refund_row id) (outbox (pay w)))).
Proof.
  apply NoDup_fmap_2_strong.
  - intros [x1 a1] [x2 a2] _ _ E. unfold keyed in E. apply pair_equal_spec in E as [E1 E2].
    apply refundKey_inj in E1. simpl in *. by subst.
  - eapply (NoDup_omap_refine _ _ fst); [|apply (pi_refund_ids _ (wi_pay _ H))]. intros r [x a].
    unfold refund_row, is_type, refund_id. destruct (bool_decide (o_type r = REVERSE_BALANCE)); simpl; [|done].
    case_match; [|done]. by intros [= <- _].
Qed.

Lemma pairs_subset id x :
  x ∈ omap (refund_entry id) (balance_ledger (led w)) -> x ∈ map keyed (omap (refund_row id) (outbox (pay w))).
Proof.
  intros (e & He & Hx)%list_elem_of_omap. assert (of_intent PAYMENT_REFUND id e = true) as Hof.
  { unfold refund_entry in Hx. by destruct (of_intent PAYMENT_REFUND id e). }
  destruct (refund_of_row e id He Hof) as (r & Hr & Ht & E). rewrite E, refund_entry_seq in Hx.
  destruct (reverse_row r id Hr Ht) as [Er _]. rewrite Er in Hx. injection Hx as <-.
  apply list_elem_of_fmap_2, list_elem_of_omap. exists r. split; [done|]. unfold refund_row. by rewrite Ht.
Qed.

(** The keys of the four kinds of rows are apart. *)
Lemma key_of_refund r x :
  r ∈ outbox (pay w) -> p_key (o_payload r) = refundLedgerIdempotencyKey x -> refund_id r = Some x.
Proof.
  intros Hr Hk. destruct (payload_at r Hr) as (j & _ & _ & _ & Hp). unfold refund_id.
  destruct (o_type r); simpl in Hp.
  - destruct Hp as [Hp _]. rewrite Hp in Hk. discriminate.
  - destruct Hp as (_ & Hp & _). rewrite Hp in Hk. apply refundKey_inj in Hk as ->. done.
  - rewrite Hp in Hk. discriminate.
  - rewrite Hp in Hk. discriminate.
Qed.

Lemma key_of_settle r id :
  r ∈ outbox (pay w) -> p_key (o_payload r) = LedgerIdempotencyKey id ->
  o_type r = SETTLE_BALANCE /\ p_intent (o_payload r) = id.
Proof.
  intros Hr Hk. destruct (payload_at r Hr) as (j & _ & Hi & _ & Hp).
  destruct (o_type r); simpl in Hp.
  - destruct Hp as [Hp _]. rewrite Hp in Hk. apply paymentKey_inj in Hk. split; [done|]. congruence.
  - destruct Hp as (_ & Hp & _). rewrite Hp in Hk. discriminate.
  - rewrite Hp in Hk. discriminate.
  - rewrite Hp in Hk. discriminate.
Qed.

Lemma pairs_superset id x :
  (forall r, r ∈ outbox (pay w) -> is_type REVERSE_BALANCE id r = true -> in_ledger r (led w)) ->
  x ∈ map keyed (omap (refund_row id) (outbox (pay w))) -> x ∈ omap (refund_entry id) (balance_ledger (led w)).
Proof.
  intros Hall (y & -> & Hy)%list_elem_of_fmap. apply list_elem_of_omap in Hy as (r & Hr & Hy).
  unfold refund_row in Hy. destruct (is_type REVERSE_BALANCE id r) eqn:Ht; [|done]. injection Hy as <-.
  destruct (Hall r Hr Ht) as [e He]. destruct (reverse_row r id Hr Ht) as [Er _].
  pose proof Ht as [Hty%bool_decide_eq_true _]%andb_prop.
  destruct (payload_at r Hr) as (j & _ & _ & _ & Hp). rewrite Hty in Hp. destruct Hp as (_ & Hk & _).
  unfold req_of in He. rewrite Hty in He. simpl in He. rewrite Hk in He.
  apply found_by_key in He as (Hin & r' & Hr' & E & Hk'); [|apply reserved_refund].
  assert (r' = r) as ->.
  { eapply (NoDup_omap_inj refund_id); [apply (pi_refund_ids _ (wi_pay _ H))|done|done| |].
    - by apply key_of_refund.
    - by apply key_of_refund. }
  apply list_elem_of_omap. exists e. split; [done|]. by rewrite E, refund_entry_seq.
Qed.

Lemma refunds_bounded id : 0 <= refunds id (balance_ledger (led w)) <= refund_sum id (outbox (pay w)).
Proof.
  rewrite ledger_refunds, refund_sum_pairs.
  assert (omap (refund_entry id) (balance_ledger (led w)) ⊆+ map keyed (omap (refund_row id) (outbox (pay w)))) as Hs.
  { apply NoDup_submseteq; [apply ledger_pairs_nodup|]. intros x. apply pairs_subset. }
  assert (Forall (fun x => 0 <= snd x) (map keyed (omap (refund_row id) (outbox (pay w))))) as Hpos.
  { apply Forall_map, Forall_forall. intros y (r & Hr & Hy)%list_elem_of_omap. unfold refund_row in Hy.
    destruct (is_type REVERSE_BALANCE id r) eqn:Ht; [|done]. injection Hy as <-.
    destruct (reverse_row r id Hr Ht) as [_ Hp]. simpl. lia. }
  apply submseteq_Permutation in Hs as [k Hk]. rewrite Hk in Hpos. apply Forall_app in Hpos as [H1 H2].
  assert (forall l, Forall (fun x : string * Z => 0 <= snd x) l -> 0 <= sumZ (map snd l)) as Hn.
  { intros l. induction 1; simpl; lia. }
  assert (forall l1 l2, l1 ≡ₚ l2 -> sumZ (map (@snd string Z) l1) = sumZ (map snd l2)) as Hperm.
  { induction 1; simpl; lia. }
  rewrite (Hperm _ _ Hk), map_app, sumZ_app. pose proof (Hn _ H1). pose proof (Hn _ H2). lia.
Qed.

Lemma refunds_complete id :
  (forall r, r ∈ outbox (pay w) -> is_type REVERSE_BALANCE id r = true -> in_ledger r (led w)) ->
  refunds id (balance_ledger (led w)) = refund_sum id (outbox (pay w)).
Proof.
  intros Hall. rewrite ledger_refunds, refund_sum_pairs.
  assert (omap (refund_entry id) (balance_ledger (led w)) ≡ₚ map keyed (omap (refund_row id) (outbox (pay w)))) as Hp.
  { apply NoDup_Permutation; [apply ledger_pairs_nodup|apply outbox_pairs_nodup|]. intros x. split.
    - apply pairs_subset.
    - by apply pairs_superset. }
  induction Hp; simpl; lia.
Qed.

(** The top-up of a payment by Stripe. *)
Lemma topup_entry e i :
  i ∈ intents (pay w) -> i_provider i = "stripe" -> e ∈ balance_ledger (led w) ->
  of_intent PAYMENT_TOPUP (i_id i) e = true -> amount e = i_amount i.
Proof.
  intros Hi Hp Hin [Ht%bool_decide_eq_true Hid%bool_decide_eq_true]%andb_prop.
  pose proof (origin_of e Hin) as Ho. unfold origin in Ho. rewrite Hid in Ho. destruct Ho as (r & Hr & He).
  rewrite He in Ht, Hid |- *. destruct (payload_at r Hr) as (j & Hj & E1 & _ & Hpl).
  unfold req_of in *. destruct (o_type r); simpl in *; try discriminate. injection Hid as Hid.
  assert (j = i) as -> by (eapply intent_unique; [apply (wi_pay _ H)|done|done|congruence]).
  by apply Hpl.
Qed.

Lemma topup_once i :
  i ∈ intents (pay w) -> i_provider i = "stripe" ->
  topups (i_id i) (balance_ledger (led w)) = 0 \/ topups (i_id i) (balance_ledger (led w)) = i_amount i.
Proof.
  intros Hi Hp. rewrite topups_find by apply (wi_topup _ H). destruct (List.find _ _) as [e|] eqn:Hf; [|by left].
  apply find_some in Hf as [Hin%list_elem_of_In Hof]. right. by apply topup_entry.
Qed.

Lemma topup_complete i r :
  i ∈ intents (pay w) -> i_provider i = "stripe" -> r ∈ outbox (pay w) ->
  is_type SETTLE_BALANCE (i_id i) r = true -> in_ledger r (led w) ->
  topups (i_id i) (balance_ledger (led w)) = i_amount i.
Proof.
  intros Hi Hp Hr [Ht%bool_decide_eq_true Hid%bool_decide_eq_true]%andb_prop [e He].
  assert (exists e, GetLedgerByPaymentIntentForUpdate (i_id i) (led w) = Some e) as [e' He'].
  { unfold req_of in He. rewrite Ht in He. simpl in He. rewrite Hid in He.
    destruct (GetLedgerByPaymentIntentForUpdate (i_id i) (led w)) as [e'|] eqn:Ei; [by eauto|]. exfalso.
    destruct (payload_at r Hr) as (j & _ & E1 & _ & Hpl). rewrite Ht in Hpl. destruct Hpl as [Hk _].
    rewrite Hk in He. rewrite <- E1, Hid in He.
    apply found_by_key in He as (Hin & r' & Hr' & E & Hk'); [|apply reserved_payment].
    apply key_of_settle in Hk' as [Ht' Hid']; [|done].
    pose proof (find_none _ _ Ei e (proj1 (list_elem_of_In _ _) Hin)) as Hnone. rewrite E in Hnone.
    unfold req_of in Hnone. rewrite Ht', Hid' in Hnone. unfold of_intent in Hnone. simpl in Hnone.
    rewrite !bool_decide_eq_true_2 in Hnone by done. done. }
  rewrite topups_find by apply (wi_topup _ H). unfold GetLedgerByPaymentIntentForUpdate in He'. rewrite He'.
  apply find_some in He' as [Hin%list_elem_of_In Hof]. by apply topup_entry.
Qed.

End sums.

(** ** Theorems *)

(** C1: Whatever webhooks, workers, crashes, lost replies, lease expiries and
    other writers of the ledger interleave, a Stripe payment is credited at
    most once, with its own amount, and never refunded beyond what the
    provider reported.  Once its settlement and refund rows are processed,
    the credit is there and the refunds are exactly those reported. *)
Theorem settlement_exact up cfg d w i :
  no_payments d -> wreach up cfg (mkWorld empty_pay d []) w ->
  i ∈ intents (pay w) -> i_provider i = "stripe" ->
  let l := balance_ledger (led w) in
  (topups (i_id i) l = 0 \/ topups (i_id i) l = i_amount i) /\
  0 <= refunds (i_id i) l <= i_refunded i /\
  (settled (i_status i) = true ->
   Forall (fun r => p_intent (o_payload r) = i_id i -> o_type r = SETTLE_BALANCE \/ o_type r = REVERSE_BALANCE ->
             o_status r = OutProcessed) (outbox (pay w)) ->
   topups (i_id i) l = i_amount i /\ refunds (i_id i) l = i_refunded i).
Proof.
  intros Hd Hr Hi Hp l. assert (WI w) as H by (eapply WI_reach; [exact Hr|by apply WI_start]).
  assert (i_refunded i = refund_sum (i_id i) (outbox (pay w))) as ->.
  { pose proof (pi_refunded _ (wi_pay _ H)) as Hf. rewrite Forall_forall in Hf. by apply Hf. }
  split; [by apply topup_once|]. split; [by apply refunds_bounded|]. intros Hs Hall.
  assert (forall t r, r ∈ outbox (pay w) -> t = SETTLE_BALANCE \/ t = REVERSE_BALANCE ->
            is_type t (i_id i) r = true -> in_ledger r (led w)) as Hin.
  { intros t r Hin Ht [Hty%bool_decide_eq_true Hid%bool_decide_eq_true]%andb_prop. rewrite Forall_forall in Hall.
    apply done_row; [done|done|]. apply Hall; [done|done|]. by rewrite Hty. }
  split.
  - pose proof (pi_settle _ (wi_pay _ H)) as Hset. rewrite Forall_forall in Hset.
    specialize (Hset i Hi Hp Hs). apply Exists_exists in Hset as (r & Hr' & Ht).
    eapply topup_complete; [done..|]. eapply Hin; [done|by left|done].
  - apply refunds_complete; [done|]. intros r Hr' Ht. eapply Hin; [done|by right|done].
Qed.

(** ** Rounds of the worker *)

Section rounds.
Context (up : string -> option UUID) (cfg : Z).

(** The loop over a batch is a path of steps of one worker. *)
Lemma call_row_path env fenced seq r rest p d ws res d1 :
  call_row env fenced seq r d = (res, d1) ->
  wreach up cfg (mkWorld p d (mkWorker (r :: rest) None :: ws)) (mkWorld p d1 (mkWorker (r :: rest) (Some res) :: ws)).
Proof.
  set (w := mkWorld p d (mkWorker (r :: rest) None :: ws)). unfold call_row. destruct (env_call env).
  - intros Hh. apply rtc_once. exact (w_handle up cfg w [] ws r rest seq fenced res d1 eq_refl Hh).
  - intros [= <- <-]. apply rtc_once. exact (w_handle_lost up cfg w [] ws r rest eq_refl).
  - destruct (handleOutboxEvent fenced seq r d) as [res' d'] eqn:Hh. intros [= <- <-].
    eapply rtc_l; [exact (w_handle up cfg w [] ws r rest seq fenced res' d' eq_refl Hh)|].
    apply rtc_once. exact (w_reply_lost up cfg (mkWorld p d' (mkWorker (r :: rest) (Some res') :: ws)) [] ws r rest res' eq_refl).
Qed.

Lemma process_rows_path fenced env seq rows p d ws n p' d' :
  process_rows cfg fenced seq env rows (p, d) = (n, (p', d')) ->
  wreach up cfg (mkWorld p d (mkWorker rows None :: ws)) (mkWorld p' d' (mkWorker [] None :: ws)).
Proof.
  revert seq p d n. induction rows as [|r rest IH]; intros seq p d n Hp; cbn [process_rows] in Hp.
  { injection Hp as _ <- <-. apply rtc_refl. }
  unfold process_row in Hp. destruct (call_row (env (o_id r)) fenced seq r d) as [res d1] eqn:Hh.
  etransitivity; [exact (call_row_path _ _ _ _ rest p d ws _ _ Hh)|].
  set (w1 := mkWorld p d1 (mkWorker (r :: rest) (Some res) :: ws)). destruct res as [e|].
  - destruct (process_rows cfg fenced (seq + 1) env rest _) as [m [p2 d2]] eqn:Hrec.
    injection Hp as _ <- <-. destruct (env_failed (env (o_id r))).
    + eapply rtc_l; [exact (w_mark_failed up cfg w1 [] ws r rest e eq_refl)|]. by eapply IH.
    + eapply rtc_l; [exact (w_mark_skipped up cfg w1 [] ws r rest e eq_refl)|]. by eapply IH.
    + eapply rtc_l; [exact (w_mark_failed up cfg w1 [] ws r rest e eq_refl)|]. by eapply IH.
  - destruct (markOutboxProcessedWithRetry _ (o_id r) p) as [ok p1] eqn:Hm.
    destruct (process_rows cfg fenced (seq + 1) env rest (p1, d1)) as [m [p2 d2]] eqn:Hrec.
    injection Hp as _ <- <-. eapply rtc_l; [exact (w_mark up cfg w1 [] ws r rest _ ok p1 eq_refl Hm)|].
    by eapply IH.
Qed.

Lemma ProcessOutbox_path fenced seq now claim env limit p d ws n p' d' :
  ProcessOutbox cfg fenced seq now claim env limit (p, d) = (n, (p', d')) ->
  wreach up cfg (mkWorld p d ws) (mkWorld p' d' ws).
Proof.
  unfold ProcessOutbox. destruct (claim_batch _ _ _ _) as [rows p1] eqn:Hc. cbn [fst] in Hc.
  pose proof (w_claim up cfg (mkWorld p d ws) now limit _ rows p1 Hc) as H1. destruct claim; intros Hp.
  - eapply rtc_l; [exact H1|]. eapply rtc_r; [by eapply process_rows_path|].
    exact (w_crash up cfg (mkWorld p' d' (mkWorker [] None :: ws)) [] ws [] None eq_refl).
  - injection Hp as _ <- <-. apply rtc_refl.
  - injection Hp as _ <- <-. eapply rtc_l; [exact H1|]. apply rtc_once.
    exact (w_crash up cfg (mkWorld p1 d (mkWorker rows None :: ws)) [] ws rows None eq_refl).
Qed.

Lemma inputs_path xs p d ws :
  Forall input_ok xs -> wreach up cfg (mkWorld p d ws) (mkWorld (run_inputs up p xs) d ws).
Proof.
  intros Hx. revert p. induction Hx as [|x xs Hx _ IH]; intros p; [apply rtc_refl|].
  eapply rtc_l; [exact (w_input up cfg (mkWorld p d ws) x Hx)|]. apply IH.
Qed.

End rounds.

(** A round at a time, with fresh entry ids, and what its calls meet. *)
Record Round := mkRound { rd_fenced : bool; rd_seq : Z; rd_now : Z; rd_claim : Reply; rd_env : Z -> RowEnv }.
Definition run_round (cfg : Z) (x : Round) (s : PayDB * DB) : PayDB * DB :=
  snd (ProcessOutbox cfg (rd_fenced x) (rd_seq x) (rd_now x) (rd_claim x) (rd_env x) poll_limit s).
Definition rounds (cfg : Z) (rs : list Round) (s : PayDB * DB) : PayDB * DB := foldl (fun s x => run_round cfg x s) s rs.

Definition open_row (r : OutboxRow) : bool :=
  match o_status r with OutPending | OutProcessing => true | OutProcessed | OutDead => false end.

(** The marks of a row take effect: one of the three tries of the one, and
    the transaction of the other. *)
Definition answered (env : RowEnv) : bool :=
  existsb (fun a => match a with Ok => true | _ => false end) (take 3 (env_marks env)) &&
  match env_failed env with LostBefore => false | _ => true end.

(** A round whose own updates of the outbox take effect, started when no
    lease is running.  The settlement calls may fail as they like. *)
Definition effective (x : Round) (p : PayDB) : bool :=
  match rd_claim x with Ok => true | _ => false end &&
  forallb (fun r => implb (open_row r)
    (claimable (rd_now x) r &&
     answered (rd_env x (o_id r)))) (outbox p).

Fixpoint effective_rounds (cfg : Z) (rs : list Round) (s : PayDB * DB) : Z :=
  match rs with
  | [] => 0
  | x :: rest => (if effective x (fst s) then 1 else 0) + effective_rounds cfg rest (run_round cfg x s)
  end.

(** The attempts an open row has left, one at least. *)
Definition weight (m : Z) (r : OutboxRow) : Z := if open_row r then Z.max 1 (m - o_attempts r) else 0.
Definition backlog (p : PayDB) : Z := zlen (List.filter open_row (outbox p)).

Lemma weight_open m r : open_row r = true -> 1 <= weight m r.
Proof. unfold weight. intros ->. lia. Qed.
Lemma weight_closed m r : open_row r = false -> weight m r = 0.
Proof. unfold weight. by intros ->. Qed.
Lemma weight_pos m r : 0 <= weight m r.
Proof. unfold weight. case_match; lia. Qed.

(** A row during the round that claimed [all], of which [ids] are still to be
    handled, against the row before the round; [good] says that the marks of
    a row are answered. *)
Definition moved (m : Z) (good : Z -> bool) (all ids : list Z) (r0 r : OutboxRow) : Prop :=
  o_id r = o_id r0 /\
  if bool_decide (o_id r0 ∈ all)
  then open_row r0 = true /\
       (if bool_decide (o_id r0 ∈ ids) then open_row r = true /\ o_attempts r = o_attempts r0 + 1
        else weight m r <= weight m r0 - (if good (o_id r0) then 1 else 0))
  else r = r0.

Lemma Forall2_map_r' {A B} (R R' : A -> B -> Prop) (f : B -> B) l l' :
  (forall x y, R x y -> R' x (f y)) -> Forall2 R l l' -> Forall2 R' l (map f l').
Proof. intros H. induction 1; cbn; constructor; auto. Qed.

Lemma Forall2_impl_in {A B} (R R' : A -> B -> Prop) l l' :
  Forall2 R l l' -> (forall x y, x ∈ l -> R x y -> R' x y) -> Forall2 R' l l'.
Proof. induction 1 as [|x y l l' H _ IH]; intros HR; constructor; [by apply HR; [left|]|]. apply IH. intros ? ? ?. apply HR. by right. Qed.

(** The row at hand is left to its lease, closed, or put back with an attempt
    less. *)
Lemma moved_mark m good all id ids p0 p f :
  NoDup (id :: ids) -> id ∈ all -> Forall2 (moved m good all (id :: ids)) p0 (outbox p) ->
  (forall r0 r, open_row r = true -> o_attempts r = o_attempts r0 + 1 -> open_row r0 = true ->
     o_id (f r) = o_id r /\ weight m (f r) <= weight m r0 - (if good id then 1 else 0)) ->
  Forall2 (moved m good all ids) p0 (outbox (update_rows (fun r => if bool_decide (o_id r = id) then f r else r) p)).
Proof.
  intros [Hid _]%NoDup_cons Hall H Hf. eapply Forall2_map_r'; [|exact H]. intros r0 r [E Hm]. unfold moved.
  destruct (decide (o_id r0 = id)) as [Hi|Hi].
  - rewrite (bool_decide_eq_true_2 (o_id r = id)) by congruence. rewrite Hi in Hm |- *.
    rewrite (bool_decide_eq_true_2 (id ∈ all)) in * by done. rewrite (bool_decide_eq_true_2 (id ∈ id :: ids)) in Hm by by left.
    rewrite (bool_decide_eq_false_2 (id ∈ ids)) by done. destruct Hm as (H0 & H1 & H2).
    destruct (Hf r0 r H1 H2 H0) as [F1 F2]. split; [congruence|done].
  - rewrite (bool_decide_eq_false_2 (o_id r = id)) by congruence. split; [done|].
    by rewrite (bool_decide_ext (o_id r0 ∈ id :: ids) (o_id r0 ∈ ids)) in Hm by (rewrite elem_of_cons; tauto).
Qed.

Lemma update_rows_id id p : update_rows (fun r => if bool_decide (o_id r = id) then r else r) p = p.
Proof.
  unfold update_rows. rewrite (map_ext _ (fun r => r)) by (intros r; by case_match). rewrite map_id. by destruct p.
Qed.

Lemma mark_twice id p : MarkOutboxEventProcessed id (MarkOutboxEventProcessed id p) = MarkOutboxEventProcessed id p.
Proof.
  unfold MarkOutboxEventProcessed, update_rows, set_outbox. cbn [outbox]. f_equal. rewrite map_map. apply map_ext. intros r.
  destruct (bool_decide (o_id r = id)) eqn:E; cbn [o_id set_row]; by rewrite E.
Qed.

Lemma mark_tries_effect n answers id p ok p' :
  mark_tries n answers id p = (ok, p') ->
  (p' = p \/ p' = MarkOutboxEventProcessed id p) /\
  ok = existsb (fun a => match a with Ok => true | _ => false end) (take n answers) /\
  (ok = true -> p' = MarkOutboxEventProcessed id p).
Proof.
  revert answers p. induction n as [|n IH]; intros [|[] rest] p H; cbn in H; try (injection H as <- <-; by split_and!; auto).
  - destruct (IH _ _ H) as (H1 & H2 & H3). auto.
  - destruct (IH _ _ H) as (H1 & H2 & H3). rewrite mark_twice in H1, H3. split; [naive_solver|]. auto.
Qed.

Lemma weight_step m r0 r : open_row r = true -> o_attempts r = o_attempts r0 + 1 -> open_row r0 = true -> weight m r <= weight m r0.
Proof. unfold weight. intros -> -> ->. lia. Qed.

Lemma moved_skip m good all id ids p0 p :
  NoDup (id :: ids) -> id ∈ all -> good id = false ->
  Forall2 (moved m good all (id :: ids)) p0 (outbox p) -> Forall2 (moved m good all ids) p0 (outbox p).
Proof.
  intros Hn Hid Hg H. rewrite <- (update_rows_id id p). apply (moved_mark m good all id ids p0 p (fun r => r) Hn Hid H).
  intros r0 r H1 H2 H3. split; [done|]. rewrite Hg, Z.sub_0_r. by apply weight_step.
Qed.

Lemma moved_processed m good all id ids p0 p :
  NoDup (id :: ids) -> id ∈ all -> Forall2 (moved m good all (id :: ids)) p0 (outbox p) ->
  Forall2 (moved m good all ids) p0 (outbox (MarkOutboxEventProcessed id p)).
Proof.
  intros Hn Hid H. apply (moved_mark m good all id ids p0 p _ Hn Hid H). intros r0 r H1 H2 H3. split; [done|].
  rewrite (weight_closed m (set_row _ _ _ _)) by done. pose proof (weight_open m r0 H3). case_match; lia.
Qed.

Lemma moved_failed m good all id ids att p0 p :
  att <= m -> NoDup (id :: ids) -> id ∈ all -> Forall2 (moved m good all (id :: ids)) p0 (outbox p) ->
  Forall2 (moved m good all ids) p0 (outbox (MarkOutboxEventFailed id att p)).
Proof.
  intros Hm Hn Hid H. apply (moved_mark m good all id ids p0 p _ Hn Hid H). intros r0 r H1 H2 H3. split; [done|].
  pose proof (weight_open m r0 H3) as Hw. destruct (att <=? o_attempts r) eqn:E.
  - rewrite (weight_closed m (set_row _ _ _ _)) by done. case_match; lia.
  - apply Z.leb_gt in E. unfold weight in *. cbn [open_row o_status set_row o_attempts]. rewrite H3 in *. case_match; lia.
Qed.

Lemma moved_row cfg fenced seq env r all ids p0 p d ok p' d' :
  NoDup (o_id r :: ids) -> o_id r ∈ all ->
  Forall2 (moved (max_attempts cfg) (fun i => answered (env i)) all (o_id r :: ids)) p0 (outbox p) ->
  process_row cfg fenced seq (env (o_id r)) r (p, d) = (ok, (p', d')) ->
  Forall2 (moved (max_attempts cfg) (fun i => answered (env i)) all ids) p0 (outbox p').
Proof.
  intros Hn Hid H. unfold process_row. destruct (call_row _ _ _ _ _) as [[e|] d1].
  - assert (forall att, att <= max_attempts cfg -> Forall2 (moved (max_attempts cfg) (fun i => answered (env i)) all ids) p0
              (outbox (MarkOutboxEventFailed (o_id r) att p))) as Hf by (intros; by apply moved_failed).
    assert (0 <= max_attempts cfg) as H0 by (unfold max_attempts; case_match; lia).
    intros [= _ <- _]. destruct (env_failed (env (o_id r))) eqn:E.
    2:{ apply (moved_skip _ _ _ (o_id r)); [done|done| |done]. unfold answered. rewrite E. apply andb_false_r. }
    all: unfold markOutboxEventRetryable; destruct (IsSettlementNotFound e); [|by apply Hf];
      specialize (Hf 0 H0); by destruct (bool_decide (o_type r = SETTLE_BALANCE)).
  - destruct (markOutboxProcessedWithRetry _ _ _) as [ok1 p1] eqn:Hm. intros [= _ <- _].
    destruct (mark_tries_effect _ _ _ _ _ _ Hm) as ([->| ->] & Hok & Himp); [|by apply moved_processed].
    destruct ok1; [rewrite (Himp eq_refl); by apply moved_processed|].
    apply (moved_skip _ _ _ (o_id r)); [done|done| |done]. unfold answered. by rewrite <- Hok.
Qed.

Lemma moved_rows cfg fenced env all p0 rows : forall seq p d k p' d',
  NoDup (map o_id rows) -> Forall (fun r => o_id r ∈ all) rows ->
  Forall2 (moved (max_attempts cfg) (fun i => answered (env i)) all (map o_id rows)) p0 (outbox p) ->
  process_rows cfg fenced seq env rows (p, d) = (k, (p', d')) ->
  Forall2 (moved (max_attempts cfg) (fun i => answered (env i)) all []) p0 (outbox p').
Proof.
  induction rows as [|r rest IH]; intros seq p d k p' d' Hn Hall H Hp; cbn [process_rows] in Hp.
  - by injection Hp as _ <- _.
  - destruct (process_row cfg fenced seq _ r (p, d)) as [ok [p1 d1]] eqn:H1.
    destruct (process_rows cfg fenced (seq + 1) env rest (p1, d1)) as [j [p2 d2]] eqn:H2.
    injection Hp as _ <- <-. apply Forall_cons in Hall as [Hr Hall].
    eapply IH; [by apply NoDup_cons in Hn as [_ Hn]|done| |exact H2]. by eapply moved_row.
Qed.

(** *** A whole round *)

Lemma outbox_ids_nodup p : PI p -> NoDup (map o_id (outbox p)).
Proof.
  intros H. apply NoDup_alt. intros i j x Hi Hj. rewrite list_lookup_fmap in Hi, Hj.
  destruct (outbox p !! i) as [r|] eqn:Ei; [|done]. destruct (outbox p !! j) as [r'|] eqn:Ej; [|done].
  injection Hi as <-. injection Hj as E. pose proof (pi_rows _ H _ _ Ei). pose proof (pi_rows _ H _ _ Ej). lia.
Qed.

Lemma NoDup_map_filter {A B} (f : A -> B) P l : NoDup (map f l) -> NoDup (map f (List.filter P l)).
Proof.
  induction l as [|x l IH]; [done|]. cbn. intros [Hx Hn]%NoDup_cons. destruct (P x); [|by apply IH]. cbn.
  apply NoDup_cons. split; [|by apply IH]. intros (y & E & Hy%list_elem_of_In%filter_In)%list_elem_of_fmap.
  apply Hx. rewrite E. apply list_elem_of_fmap_2, list_elem_of_In, Hy.
Qed.

Lemma claim_moved m good now limit p rows p' :
  PI p -> claim_batch now limit (fun _ => false) p = (rows, p') ->
  NoDup (map o_id rows) /\ Forall2 (moved m good (map o_id rows) (map o_id rows)) (outbox p) (outbox p').
Proof.
  intros HPI Hc. pose proof (claimed_known _ _ _ _ _ _ Hc) as [Hin ->]. split.
  { injection Hc as <- _. unfold GetPendingOutboxEventsForUpdate. rewrite <- firstn_map.
    eapply sublist_NoDup; [|apply sublist_take]. by apply NoDup_map_filter, outbox_ids_nodup. }
  assert (forall r, r ∈ outbox p -> o_id r ∈ map o_id rows -> open_row r = true) as Hop.
  { intros r Hr (x & E & Hx)%list_elem_of_fmap. rewrite Forall_forall in Hin. destruct (Hin x Hx) as [Hxp Hxc].
    rewrite (row_unique p r x HPI Hr Hxp E). unfold claimable in Hxc. unfold open_row. by destruct (o_status x). }
  assert (forall l f, (forall r, r ∈ l -> moved m good (map o_id rows) (map o_id rows) r (f r)) ->
            Forall2 (moved m good (map o_id rows) (map o_id rows)) l (map f l)) as Hmap.
  { clear. intros l f Hf. induction l as [|r l IH]; constructor; [apply Hf; by left|]. apply IH. intros x Hx. apply Hf. by right. }
  assert (outbox match rows with [] => p | _ => LeaseOutboxEvents (map o_id rows) (now + leaseDuration) p end =
    map (fun r => if bool_decide (o_id r ∈ map o_id rows)
                  then set_row r OutProcessing (Some (now + leaseDuration)) (o_attempts r + 1) else r) (outbox p)) as ->.
  { destruct rows as [|x rows]; [|done]. cbn [map]. rewrite (map_ext _ (fun r => r)); [by rewrite map_id|].
    intros r. by rewrite bool_decide_eq_false_2 by set_solver. }
  apply Hmap. intros r Hr. unfold moved. destruct (bool_decide (o_id r ∈ map o_id rows)) eqn:E.
  - rewrite bool_decide_eq_true in E. split; [done|]. split; [by apply Hop|done].
  - by split.
Qed.

(** No round adds to a row's weight; an effective one takes from every row it
    claims. *)
Lemma round_weights cfg x p d :
  PI p -> exists all,
  Forall2 (fun r0 r => weight (max_attempts cfg) r <= weight (max_attempts cfg) r0 -
             (if effective x p && bool_decide (o_id r0 ∈ all) then 1 else 0)) (outbox p) (outbox (fst (run_round cfg x (p, d)))) /\
  (effective x p = true -> all = map o_id (take poll_limit (List.filter open_row (outbox p)))).
Proof.
  intros HPI. unfold run_round, ProcessOutbox. cbn [fst snd].
  destruct (claim_batch (rd_now x) poll_limit (fun _ => false) p) as [rows p1] eqn:Hc.
  destruct (claim_moved (max_attempts cfg) (fun i => answered (rd_env x i)) _ _ _ _ _ HPI Hc) as [Hn Hm].
  exists (map o_id rows). split.
  - destruct (rd_claim x) eqn:Ecl; cbn [snd fst].
    + destruct (process_rows _ _ _ _ rows (p1, d)) as [k [p' d']] eqn:Hp. cbn [snd fst].
      assert (Forall (fun r => o_id r ∈ map o_id rows) rows) as Hall by (apply Forall_forall; intros r Hr; by apply list_elem_of_fmap_2).
      pose proof (moved_rows cfg (rd_fenced x) (rd_env x) (map o_id rows) (outbox p) rows _ _ _ _ _ _ Hn Hall Hm Hp) as H.
      destruct (effective x p) eqn:E.
      * unfold effective in E. rewrite Ecl in E. cbn [andb] in E. rewrite forallb_forall in E.
        eapply Forall2_impl_in; [exact H|]. intros r0 r Hr0 [_ Hr]. cbn [andb].
        destruct (bool_decide (o_id r0 ∈ map o_id rows)); [|subst; lia].
        rewrite (bool_decide_eq_false_2 (_ ∈ [])) in Hr by set_solver. destruct Hr as [Ho Hr].
        specialize (E r0 (proj1 (list_elem_of_In _ _) Hr0)). rewrite Ho in E. cbn [implb] in E. apply andb_true_iff in E as [_ E].
        by rewrite E in Hr.
      * eapply Forall2_impl; [exact H|]. intros r0 r [_ Hr]. cbn [andb]. rewrite Z.sub_0_r.
        destruct (bool_decide (o_id r0 ∈ map o_id rows)); [|by subst].
        rewrite (bool_decide_eq_false_2 (_ ∈ [])) in Hr by set_solver. destruct Hr as [_ Hr]. case_match; lia.
    + replace (effective x p) with false by (unfold effective; by rewrite Ecl). clear. cbn [andb].
      induction (outbox p); constructor; [lia|done].
    + replace (effective x p) with false by (unfold effective; by rewrite Ecl).
      eapply Forall2_impl; [exact Hm|]. intros r0 r [_ Hr]. cbn [andb]. rewrite Z.sub_0_r.
      destruct (bool_decide (o_id r0 ∈ map o_id rows)); [|by subst]. destruct Hr as (H1 & H2 & H3). by apply weight_step.
  - intros E. injection Hc as <- _. unfold GetPendingOutboxEventsForUpdate. do 2 f_equal. apply filter_ext_in. intros r Hr.
    unfold effective in E. apply andb_true_iff in E as [_ E]. rewrite forallb_forall in E. specialize (E r Hr).
    cbn [negb]. rewrite andb_true_r. unfold open_row, claimable in *. destruct (o_status r); cbn in *; try done.
    by destruct (match o_lease r with Some _ => _ | None => _ end).
Qed.

(** *** The backlog *)

Definition total (m : Z) (p : PayDB) : Z := sumZ (map (weight m) (outbox p)).

Lemma sum_weights m (c : OutboxRow -> Z) l l' :
  Forall2 (fun r0 r => weight m r <= weight m r0 - c r0) l l' -> sumZ (map (weight m) l') <= sumZ (map (weight m) l) - sumZ (map c l).
Proof. induction 1 as [|r0 r l l' H _ IH]; cbn [map sumZ]; lia. Qed.

(** At least the first [n] of the open rows are claimed. *)
Lemma count_claimed n l :
  Z.min (Z.of_nat n) (zlen (List.filter open_row l)) <=
  sumZ (map (fun r => if bool_decide (o_id r ∈ map o_id (take n (List.filter open_row l))) then 1 else 0) l).
Proof.
  assert (forall k (l : list OutboxRow) (all : list Z), (forall r, r ∈ take k (List.filter open_row l) -> o_id r ∈ all) ->
    Z.min (Z.of_nat k) (zlen (List.filter open_row l)) <= sumZ (map (fun r => if bool_decide (o_id r ∈ all) then 1 else 0) l)) as H.
  { clear. intros k l all. revert k. induction l as [|r l IH]; intros k H; cbn [List.filter map sumZ] in *.
    { change (zlen (@nil OutboxRow)) with 0. lia. }
    destruct (open_row r).
    - destruct k as [|k].
      { assert (0 <= sumZ (map (fun r => if bool_decide (o_id r ∈ all) then 1 else 0) l)) as H0
          by (clear; induction l; cbn [map sumZ]; [lia|case_match; lia]). case_match; lia. }
      rewrite bool_decide_eq_true_2 by (apply H; left). specialize (IH k (fun x Hx => H x (list_elem_of_further _ _ _ Hx))).
      unfold zlen in *. cbn [length]. lia.
    - specialize (IH k H). case_match; lia. }
  apply H. intros r Hr. by apply list_elem_of_fmap_2.
Qed.

Lemma effective_nonneg cfg rs s : 0 <= effective_rounds cfg rs s.
Proof. revert s. induction rs as [|x rs IH]; intros s; cbn [effective_rounds]; [lia|]. specialize (IH (run_round cfg x s)). case_match; lia. Qed.

Lemma weights_bounded m L l l' :
  Forall2 (fun r0 r => weight m r <= weight m r0 - 0) l l' -> Forall (fun r => weight m r <= L) l -> Forall (fun r => weight m r <= L) l'.
Proof. induction 1 as [|r0 r l l' H _ IH]; intros Hf; constructor; apply Forall_cons in Hf as [? Hf]; [lia|by apply IH]. Qed.

Lemma round_WI (up : string -> option UUID) cfg x p d : WI (mkWorld p d []) -> WI (mkWorld (fst (run_round cfg x (p, d))) (snd (run_round cfg x (p, d))) []).
Proof.
  intros H. eapply WI_reach; [|exact H]. unfold run_round.
  destruct (ProcessOutbox _ _ _ _ _ _ _ (p, d)) as [n [p' d']] eqn:E. by eapply (ProcessOutbox_path up).
Qed.

Lemma rounds_drain (up : string -> option UUID) cfg rs : forall p d L,
  WI (mkWorld p d []) -> 0 <= L -> Forall (fun r => weight (max_attempts cfg) r <= L) (outbox p) ->
  total (max_attempts cfg) p / 100 + L <= effective_rounds cfg rs (p, d) ->
  Forall (fun r => open_row r = false) (outbox (fst (rounds cfg rs (p, d)))).
Proof.
  set (m := max_attempts cfg). induction rs as [|x rs IH]; intros p d L H HL Hw Hn.
  { cbn [effective_rounds rounds foldl fst] in *. assert (0 <= total m p) as Ht.
    { unfold total. clear. induction (outbox p) as [|r l IHl]; cbn [map sumZ]; [lia|]. pose proof (weight_pos m r). lia. }
    pose proof (Z.div_pos (total m p) 100 Ht). eapply Forall_impl; [exact Hw|]. intros r Hr. cbn beta in Hr.
    destruct (open_row r) eqn:E; [|done]. pose proof (weight_open m r E). lia. }
  cbn [effective_rounds fst] in Hn. change (rounds cfg (x :: rs) (p, d)) with (rounds cfg rs (run_round cfg x (p, d))).
  destruct (round_weights cfg x p d (wi_pay _ H)) as (all & Hall & Hcl). fold m in Hall.
  pose proof (round_WI up cfg x p d H) as H'. destruct (run_round cfg x (p, d)) as [p' d'] eqn:Er. cbn [fst snd] in Hall, H'.
  assert (Forall2 (fun r0 r => weight m r <= weight m r0 - 0) (outbox p) (outbox p')) as Hle.
  { eapply Forall2_impl; [exact Hall|]. intros r0 r Hr. cbn beta in Hr |- *. case_match; lia. }
  destruct (effective x p) eqn:E.
  2:{ apply (IH p' d' L H' HL); [by eapply weights_bounded|]. assert (total m p' <= total m p) as Hs
        by (unfold total; clear -Hle; induction Hle; cbn [map sumZ]; lia).
      pose proof (Z.div_le_mono _ _ 100 ltac:(lia) Hs). lia. }
  specialize (Hcl eq_refl). pose proof (sum_weights m (fun r0 => if bool_decide (o_id r0 ∈ all) then 1 else 0) _ _ Hall) as Hs.
  pose proof (count_claimed poll_limit (outbox p)) as Hcnt. rewrite <- Hcl in Hcnt. fold (total m p) (total m p') in Hs.
  change (Z.of_nat poll_limit) with 100 in Hcnt. fold (backlog p) in Hcnt.
  destruct (Z.le_gt_cases 100 (backlog p)) as [Hb|Hb].
  - apply (IH p' d' L H' HL); [by eapply weights_bounded|].
    pose proof (Z.div_le_mono (total m p') (total m p + (-1) * 100) 100 ltac:(lia) ltac:(lia)) as Hd.
    rewrite Z.div_add in Hd by lia. lia.
  - assert (Forall (fun r => weight m r <= Z.max 0 (L - 1)) (outbox p')) as Hw'.
    { assert (forall r, r ∈ outbox p -> open_row r = true -> o_id r ∈ all) as Hin.
      { intros r Hr Ho. rewrite Hcl. apply list_elem_of_fmap_2. rewrite take_ge.
        - by apply list_elem_of_In, filter_In; split; [apply list_elem_of_In|].
        - unfold backlog, zlen in Hb. unfold poll_limit. lia. }
      clear -Hall Hw Hin. induction Hall as [|r0 r l l' Hr _ IHl]; [constructor|]. apply Forall_cons in Hw as [Hw0 Hw].
      constructor; [|apply IHl; [done|]; intros ? ?; apply Hin; by right]. destruct (open_row r0) eqn:Eo.
      - rewrite bool_decide_eq_true_2 in Hr by (apply Hin; [left|done]). cbn [andb] in Hr. lia.
      - rewrite (weight_closed m r0 Eo) in *. destruct (_ && _) in Hr; lia. }
    apply (IH p' d' (Z.max 0 (L - 1)) H' ltac:(lia) Hw').
    pose proof (zlen_nonneg (List.filter open_row (outbox p))) as Hz. fold (backlog p) in Hz.
    pose proof (Z.div_le_mono (total m p') (total m p) 100 ltac:(lia) ltac:(lia)) as Hd.
    pose proof (effective_nonneg cfg rs (p', d')) as Hn0. destruct (Z.eq_dec L 0) as [->|]; [|lia].
    assert (total m p <= 0) as Ht.
    { unfold total. clear -Hw. induction Hw; cbn [map sumZ]; lia. }
    pose proof (Z.div_le_mono (total m p) 0 100 ltac:(lia) Ht) as H0. change (0 / 100) with 0 in H0. lia.
Qed.

(** C29: the outbox drains.  Once nothing new comes in, let one worker run
    round after round.  Count the rounds whose own updates of the outbox
    take effect and that start when no lease is running; a round whose
    claim or marks are lost does not count, it only delays.  With 100 rows a
    round and [n] rows open, every row is PROCESSED or DEAD once [a * n / 100
    + a] rounds counted, [a] being the configured attempts, whatever the
    settlement calls answer, fail or lose in any round. *)
Theorem outbox_drains up cfg d0 w rs :
  no_payments d0 -> wreach up cfg (mkWorld empty_pay d0 []) w ->
  max_attempts cfg * backlog (pay w) / 100 + max_attempts cfg <= effective_rounds cfg rs (pay w, led w) ->
  Forall (fun r => o_status r = OutProcessed \/ o_status r = OutDead)
    (outbox (fst (rounds cfg rs (pay w, led w)))).
Proof.
  intros Hd Hreach Hn. assert (WI w) as H by (eapply WI_reach; [exact Hreach|by apply WI_start]).
  assert (0 < max_attempts cfg) as Hpos by (unfold max_attempts; case_match; lia).
  assert (Forall (fun r => weight (max_attempts cfg) r <= if open_row r then max_attempts cfg else 0) (outbox (pay w))) as Hw.
  { apply Forall_forall. intros r Hr. pose proof (attempts_row w r H Hr). unfold weight. case_match; lia. }
  assert (total (max_attempts cfg) (pay w) <= max_attempts cfg * backlog (pay w)) as Ht.
  { unfold total, backlog. clear -Hw. induction Hw as [|r l Hr _ IH]; cbn [map sumZ List.filter]; [unfold zlen; cbn; lia|].
    destruct (open_row r); unfold zlen in *; cbn [length]; lia. }
  eapply Forall_impl; [apply (rounds_drain up cfg rs (pay w) (led w) (max_attempts cfg))|].
  - by apply WI_workers.
  - lia.
  - eapply Forall_impl; [exact Hw|]. intros r Hr. cbn beta in Hr. case_match; lia.
  - pose proof (Z.div_le_mono _ _ 100 ltac:(lia) Ht). lia.
  - intros r Hr. unfold open_row in Hr. destruct (o_status r); try done; auto.
Qed.

(** ** Rows that are lost *)

(** The chargebacks of a dispute share one ledger key.  Once one of its
    withdrawals is processed, any later one is answered from its entry: the
    row is marked processed and nothing is taken from the customer. *)
Theorem later_withdrawal_lost up cfg d0 w r1 r2 seq :
  no_payments d0 -> wreach up cfg (mkWorld empty_pay d0 []) w ->
  r1 ∈ outbox (pay w) -> r2 ∈ outbox (pay w) ->
  o_type r1 = APPLY_CHARGEBACK -> o_type r2 = APPLY_CHARGEBACK ->
  p_ref (o_payload r1) = p_ref (o_payload r2) -> o_status r1 = OutProcessed ->
  0 < p_amount (o_payload r2) < 2305843009213693952 ->
  process_row cfg false seq calm r2 (pay w, led w) =
    (true, (MarkOutboxEventProcessed (o_id r2) (pay w), led w)).
Proof.
  intros Hd Hr H1 H2 T1 T2 E Hs Ha. assert (WI w) as H by (eapply WI_reach; [exact Hr|by apply WI_start]).
  destruct (payload_at w H r1 H1) as (j1 & _ & _ & _ & K1). destruct (payload_at w H r2 H2) as (j2 & _ & _ & _ & K2).
  rewrite T1 in K1. rewrite T2 in K2. destruct (done_row _ _ H H1 Hs) as [e He].
  assert (lookup_req (req_of r2) (led w) = Some e) as He2.
  { unfold req_of in *. rewrite T1 in He. rewrite T2. simpl in *. rewrite K2, <- E, <- K1. exact He. }
  unfold process_row, call_row, handleOutboxEvent, BeginFunc. cbn [env_call calm].
  rewrite (run_req_found seq _ _ e); [done| |done]. unfold req_of. by rewrite T2.
Qed.

Definition dead_in (id : Z) (p : PayDB) : Prop :=
  exists r, r ∈ outbox p /\ o_id r = id /\ o_status r = OutDead.

Lemma dead_rows id f p :
  (forall r, r ∈ outbox p -> o_id r = id -> o_status r = OutDead -> o_id (f r) = id /\ o_status (f r) = OutDead) ->
  dead_in id p -> dead_in id (update_rows f p).
Proof.
  intros Hf (r & Hr & E & Hs). exists (f r). split; [by apply list_elem_of_fmap_2|]. by apply Hf.
Qed.

Lemma dead_mark id id' p (g : OutboxRow -> OutboxRow) :
  id' <> id -> dead_in id p -> dead_in id (update_rows (fun r => if bool_decide (o_id r = id') then g r else r) p).
Proof. intros Hne. apply dead_rows. intros r _ E Hs. rewrite bool_decide_eq_false_2 by congruence. done. Qed.

Lemma dead_tries id id' n answers p ok p' :
  id' <> id -> mark_tries n answers id' p = (ok, p') -> dead_in id p -> dead_in id p'.
Proof.
  intros Hne. revert answers p. induction n as [|n IH]; intros [|[] rest] p Hm Hp; simpl in Hm; try (by injection Hm as _ <-).
  - injection Hm as _ <-. by apply dead_mark.
  - by eapply IH.
  - eapply IH; [exact Hm|]. by apply dead_mark.
Qed.

Lemma dead_retryable id cfg r e p :
  o_id r <> id -> dead_in id p -> dead_in id (markOutboxEventRetryable cfg r e p).
Proof.
  intros Hne Hp. unfold markOutboxEventRetryable.
  assert (forall att, dead_in id (MarkOutboxEventFailed (o_id r) att p)) as Hf by (intros; by apply dead_mark).
  destruct (IsSettlementNotFound e); [|done]. destruct (bool_decide (o_type r = SETTLE_BALANCE)); [|done].
  destruct (Hf 0) as (x & Hx). by exists x.
Qed.

Lemma dead_input id up x p : dead_in id p -> dead_in id (snd (BeginFunc (run_input up x) p)).
Proof.
  intros (r & Hr & E & Hs). destruct (input_extends up x p) as (k & Ek & _). exists r.
  rewrite Ek. split; [apply elem_of_app; by left|done].
Qed.

Definition unheld (id : Z) (ws : list Worker) : Prop := Forall (fun wk => id ∉ map o_id (batch wk)) ws.

Lemma unheld_at id ws1 wk ws2 : unheld id (ws1 ++ wk :: ws2) -> (id ∉ map o_id (batch wk)) /\ unheld id (ws1 ++ ws2).
Proof. intros [H1 [H2 H3]%Forall_cons]%Forall_app. split; [done|]. by apply Forall_app. Qed.

Lemma unheld_set id ws1 wk ws2 : unheld id (ws1 ++ ws2) -> id ∉ map o_id (batch wk) -> unheld id (ws1 ++ wk :: ws2).
Proof. intros [H1 H2]%Forall_app H. apply Forall_app. split; [done|by constructor]. Qed.

Definition lost (id : Z) (w : World) : Prop := WI w /\ dead_in id (pay w) /\ unheld id (workers w).

Lemma lost_step up cfg id w w' : wstep up cfg w w' -> lost id w -> lost id w'.
Proof.
  intros Hs (H & Hd & Hu). split; [by eapply WI_step|].
  destruct Hs as [w x Hx|w now limit locked rows p' Hc|w now|w ws1 ws2 r rest seq fenced res d' E Hh
    |w ws1 ws2 r rest seq i d' E Hw|w ws1 ws2 r rest E|w ws1 ws2 r rest res E|w ws1 ws2 r rest answers ok p' E Hm
    |w ws1 ws2 r rest e E|w ws1 ws2 r rest e E|w ws1 ws2 b o E|w missing e Ho|w c ov camps]; simpl;
    try (rewrite E in Hu; apply unheld_at in Hu as [Hb Hu]; cbn [batch map] in Hb; pose proof (proj1 (not_elem_of_cons _ _ _) Hb) as [Hb1 Hb2]).
  - split; [by apply dead_input|done].
  - apply claimed_known in Hc as [Hc ->]. destruct Hd as (r & Hr & E & Hs).
    assert (id ∉ map o_id rows) as Hn.
    { intros (y & Ey & Hy)%list_elem_of_fmap. rewrite Forall_forall in Hc. destruct (Hc y Hy) as [Hyp Hcl].
      assert (y = r) as -> by (eapply row_unique; [apply (wi_pay _ H)|done|done|congruence]).
      unfold claimable in Hcl. by rewrite Hs in Hcl. }
    split; [|by constructor]. destruct rows as [|r0 rows]; [by exists r|].
    apply dead_rows; [|by exists r]. intros r' _ E' Hs'. rewrite bool_decide_eq_false_2 by congruence. done.
  - split; [|done]. apply dead_rows; [|done]. intros r _ E Hs. rewrite Hs. simpl. done.
  - split; [done|]. by apply unheld_set.
  - split; [done|]. by apply unheld_set.
  - split; [done|]. by apply unheld_set.
  - split; [done|]. by apply unheld_set.
  - split; [|by apply unheld_set]. eapply dead_tries; [|exact Hm|done]. intros Heq. by apply Hb1.
  - split; [|by apply unheld_set]. apply dead_retryable; [|done]. intros Heq. by apply Hb1.
  - split; [done|]. by apply unheld_set.
  - rewrite E in Hu. by apply unheld_at in Hu as [_ Hu].
  - by split.
  - by split.
Qed.

(** A refund, chargeback or reversal handled before its payment has been
    credited is lost for good: its row is DEAD after the first attempt, and
    nothing that runs afterwards, the credit included, brings it back. *)
Theorem row_before_credit_lost up cfg d0 p d r seq w' :
  no_payments d0 -> wreach up cfg (mkWorld empty_pay d0 []) (mkWorld p d []) ->
  r ∈ outbox p -> o_type r <> SETTLE_BALANCE -> 0 < p_amount (o_payload r) ->
  GetLedgerByPaymentIntentForUpdate (p_intent (o_payload r)) d = None ->
  GetLedgerByHashForUpdate (p_key (o_payload r)) d = None ->
  exists p1, process_row cfg false seq calm r (p, d) = (false, (p1, d)) /\
    (wreach up cfg (mkWorld p1 d []) w' -> dead_in (o_id r) (pay w')).
Proof.
  intros Hd Hr Hin Ht Ha Hn Hk. assert (WI (mkWorld p d [])) as H by (eapply WI_reach; [exact Hr|by apply WI_start]).
  assert (handleOutboxEvent false seq r d = (Some ErrSettlementTopupNotFound, d)) as Hh.
  { unfold handleOutboxEvent, BeginFunc, req_of. destruct (o_type r); [done|..];
      unfold run_req, ApplyPaymentRefund, applyPaymentChargebackMovement, refund_write, chargeback_write,
        found, applied, bind, guard, read, lift, raise, ret; simpl;
      by rewrite (proj2 (Z.ltb_lt 0 _)), Hk, Hn by done. }
  exists (MarkOutboxEventFailed (o_id r) 0 p). split.
  - unfold process_row, call_row. cbn [env_call calm]. rewrite Hh. unfold markOutboxEventRetryable. simpl.
    by rewrite (bool_decide_eq_false_2 (o_type r = SETTLE_BALANCE)).
  - assert (0 <= o_attempts r) as Hatt.
    { by apply (attempts_row (mkWorld p d []) r H). }
    intros Hr'. assert (lost (o_id r) w') as (_ & Hl & _); [|exact Hl].
    assert (lost (o_id r) (mkWorld (MarkOutboxEventFailed (o_id r) 0 p) d [])) as Hl.
    { split; [exact (WI_failed _ (o_id r) 0 H)|]. split; [|constructor].
      eexists. split; [by apply list_elem_of_fmap_2|]. rewrite bool_decide_eq_true_2 by done. split; [done|].
      simpl. by rewrite (proj2 (Z.leb_le 0 _)). }
    revert Hl. induction Hr'; eauto using lost_step.
Qed.

(** ** What the reconciliation reports *)

Lemma ledger_topup_default id d : default 0 (ledger_topup id d) = topups id (balance_ledger d).
Proof.
  unfold ledger_topup. destruct (existsb _ _) eqn:E; [done|]. simpl. unfold sum_intent.
  induction (balance_ledger d) as [|e l IH]; [done|]. simpl in *. apply orb_false_iff in E as [-> E].
  by rewrite <- IH.
Qed.

Lemma drift_kind k id a b f : f ∈ drift k id a b -> f_kind f = k.
Proof. unfold drift. destruct (_ && _); [by intros ->%list_elem_of_singleton|set_solver]. Qed.

(** The findings of an intent that is settled: its top-up, then the drifts. *)
Lemma intent_findings_kind p d i f :
  f ∈ intent_findings p d i -> i_status i <> SETTLEMENT_FAILED ->
  f_kind f = REFUND_LEDGER_DRIFT \/ f_kind f = CHARGEBACK_LEDGER_DRIFT \/ f_kind f = CHARGEBACK_REVERSAL_DRIFT \/
  (f_kind f = MISSING_LEDGER_TOPUP /\ topups (i_id i) (balance_ledger d) = 0) \/
  (f_kind f = TOPUP_AMOUNT_MISMATCH /\ topups (i_id i) (balance_ledger d) <> 0 /\
   topups (i_id i) (balance_ledger d) <> i_amount i).
Proof.
  intros Hf Hs. unfold intent_findings in Hf. rewrite bool_decide_eq_false_2 in Hf by done.
  rewrite ledger_topup_default in Hf. cbv zeta in Hf.
  apply elem_of_app in Hf as [Hf|[Hf%drift_kind|[Hf%drift_kind|Hf%drift_kind]%elem_of_app]%elem_of_app]; [|by auto..].
  destruct (topups _ _ =? 0) eqn:E0.
  - apply list_elem_of_singleton in Hf as ->. apply Z.eqb_eq in E0. auto 6.
  - destruct (negb (topups (i_id i) (balance_ledger d) =? i_amount i)) eqn:E1; [|by apply elem_of_nil in Hf].
    apply list_elem_of_singleton in Hf as ->. apply negb_true_iff, Z.eqb_neq in E1. apply Z.eqb_neq in E0. auto 7.
Qed.

Lemma failed_findings_kind p d i f :
  f ∈ intent_findings p d i -> i_status i = SETTLEMENT_FAILED -> f_kind f = SETTLEMENT_FAILED_INTENT.
Proof.
  intros Hf Hs. unfold intent_findings in Hf. rewrite bool_decide_eq_true_2 in Hf by done.
  by apply list_elem_of_singleton in Hf as ->.
Qed.

(** The reconciliation can never report an orphan top-up: it only reads
    the ledger of the intents it lists. *)
Theorem recon_never_reports_orphans p d f :
  f ∈ fst (collectFindings p d) -> f_kind f <> ORPHAN_LEDGER_TOPUP.
Proof.
  assert (orphan_findings p d = []) as Hnone.
  { unfold orphan_findings. destruct (omap _ (collected_topups p d)) as [|x l] eqn:E; [done|]. exfalso.
    assert (x ∈ x :: l) as Hx by set_solver. rewrite <- E in Hx.
    apply list_elem_of_omap in Hx as ([id t] & Hin & Hf). unfold collected_topups in Hin.
    apply list_elem_of_omap in Hin as (i & Hi & Ht). destruct (ledger_topup (i_id i) d); [|done].
    injection Ht as <- <-. assert (existsb (fun j => bool_decide (i_id j = i_id i)) (ListIntentsForFinancialRecon p) = true) as Hex.
    { apply existsb_exists. exists i. split; [by apply list_elem_of_In|by apply bool_decide_eq_true_2]. }
    rewrite Hex in Hf. discriminate. }
  unfold collectFindings. cbn [fst]. rewrite Hnone. intros [Hf|Hf]%elem_of_app.
  - apply list_elem_of_In, in_concat in Hf as (l & Hl & Hf). apply in_map_iff in Hl as (i & <- & _).
    apply list_elem_of_In in Hf. destruct (decide (i_status i = SETTLEMENT_FAILED)) as [Hs|Hs].
    + by rewrite (failed_findings_kind _ _ _ _ Hf Hs).
    + destruct (intent_findings_kind _ _ _ _ Hf Hs) as [->|[->|[->|[[-> _]|[-> _]]]]]; done.
  - apply elem_of_app in Hf as [Hf|Hf]; [set_solver|]. by apply list_elem_of_fmap in Hf as (r & -> & _).
Qed.

Lemma finding_of p d f i :
  PI p -> i ∈ ListIntentsForFinancialRecon p -> f ∈ fst (collectFindings p d) -> f_intent f = Some (i_id i) ->
  f_kind f <> ORPHAN_LEDGER_TOPUP -> f ∈ intent_findings p d i.
Proof.
  intros HPI Hi Hf E Hk. unfold collectFindings in Hf. cbn [fst] in Hf.
  apply elem_of_app in Hf as [Hf|[Hf|Hf]%elem_of_app].
  - apply list_elem_of_In, in_concat in Hf as (l & Hl & Hf). apply in_map_iff in Hl as (j & <- & Hj).
    apply list_elem_of_In in Hf. assert (i_id j = i_id i) as Ej.
    { assert (Forall (fun f => f_intent f = Some (i_id j)) (intent_findings p d j)) as Hall.
      { unfold intent_findings, drift. repeat case_match; repeat constructor. }
      rewrite Forall_forall in Hall. rewrite (Hall f Hf) in E. congruence. }
    apply filter_In in Hj as [Hj _]. apply list_elem_of_In, filter_In in Hi as [Hi _].
    assert (j = i) as <-; [|done].
    eapply intent_unique; [done| | |done]; by apply list_elem_of_In.
  - exfalso. unfold orphan_findings in Hf. apply list_elem_of_omap in Hf as ([id t] & _ & Hf).
    by case_match; simplify_eq.
  - apply list_elem_of_fmap in Hf as (r & -> & _). discriminate.
Qed.

(** For a Stripe payment the reconciliation reads the ledger right: it
    reports the credit as missing exactly when none has been made, and never
    an amount that differs. *)
Theorem recon_topup_verdict up cfg d0 w i :
  no_payments d0 -> wreach up cfg (mkWorld empty_pay d0 []) w ->
  i ∈ ListIntentsForFinancialRecon (pay w) -> i_provider i = "stripe" -> i_status i <> SETTLEMENT_FAILED ->
  let fs := fst (collectFindings (pay w) (led w)) in
  (forall f, f ∈ fs -> f_intent f = Some (i_id i) -> f_kind f <> TOPUP_AMOUNT_MISMATCH) /\
  ((exists f, f ∈ fs /\ f_intent f = Some (i_id i) /\ f_kind f = MISSING_LEDGER_TOPUP) <->
   topups (i_id i) (balance_ledger (led w)) = 0).
Proof.
  intros Hd Hr Hi Hp Hs fs. assert (WI w) as H by (eapply WI_reach; [exact Hr|by apply WI_start]).
  assert (i ∈ intents (pay w)) as Hin by (by apply list_elem_of_In, filter_In in Hi as [Hi%list_elem_of_In _]).
  pose proof (topup_once w H i Hin Hp) as Honce. destruct (amount_at w H i Hin) as [Hpos _].
  assert (forall f, f ∈ fs -> f_intent f = Some (i_id i) -> f_kind f <> ORPHAN_LEDGER_TOPUP ->
            f ∈ intent_findings (pay w) (led w) i) as Hof by (intros; apply finding_of; [apply (wi_pay _ H)|done..]).
  split.
  - intros f Hf E Hk. specialize (Hof f Hf E). rewrite Hk in Hof. specialize (Hof ltac:(done)).
    apply intent_findings_kind in Hof; [|done]. rewrite Hk in Hof.
    destruct Hof as [?|[?|[?|[[? _]|(_ & ? & ?)]]]]; [done..|]. by destruct Honce.
  - split.
    + intros (f & Hf & E & Hk). specialize (Hof f Hf E). rewrite Hk in Hof. specialize (Hof ltac:(done)).
      apply intent_findings_kind in Hof; [|done]. rewrite Hk in Hof.
      destruct Hof as [?|[?|[?|[[_ ?]|(? & _)]]]]; done.
    + intros Hz. exists (mkFinding MISSING_LEDGER_TOPUP (Some (i_id i)) (i_amount i) 0 (i_amount i -64 0)).
      split; [|done]. unfold fs, collectFindings. cbn [fst]. apply elem_of_app. left.
      apply list_elem_of_In, in_concat. exists (intent_findings (pay w) (led w) i). split.
      * apply in_map. by apply list_elem_of_In.
      * apply list_elem_of_In. unfold intent_findings. rewrite bool_decide_eq_false_2 by done.
        rewrite ledger_topup_default, Hz. simpl. set_solver.
Qed.

(** ** Concrete runs *)

Definition demo_ledger : DB := mkDB {["c1" := mkCustomer 0 0]} ∅ [] [] [].

(** A payment, a round, a refund, a round. *)
Definition demo_inputs : list Input :=
  [InClaim "i1" "c1" 5000000 "USD" "k1" ∅ "stripe"; InFinalize "i1" "pi_1" ∅;
   InStripe "e1" "payment_intent.succeeded" "pi_1" 5000000].
Definition demo_refund_input : list Input := [InRefund "e2" "refund.created" "re_1" "pi_1" 2000000 "succeeded"].

Definition round1 (seq now : Z) (w : World) : World :=
  let '(p, d) := snd (ProcessOutbox 5 false seq now Ok (fun _ => calm) poll_limit (pay w, led w)) in mkWorld p d [].
Definition feed (xs : list Input) (w : World) : World := mkWorld (run_inputs no_uuid (pay w) xs) (led w) [].

Definition start_world : World := mkWorld empty_pay demo_ledger [].
Definition demo_world : World := round1 2 0 (feed demo_refund_input (round1 1 0 (feed demo_inputs start_world))).

Lemma round1_path w0 seq now w : wreach no_uuid 5 w0 w -> workers w = [] -> wreach no_uuid 5 w0 (round1 seq now w).
Proof.
  intros Hr Hw. etransitivity; [exact Hr|]. unfold round1.
  destruct (ProcessOutbox 5 false seq now Ok (fun _ => calm) poll_limit (pay w, led w)) as [n [p d]] eqn:E. simpl.
  replace w with (mkWorld (pay w) (led w) []) by (destruct w; simpl in *; congruence).
  by eapply ProcessOutbox_path.
Qed.

Lemma feed_path w0 xs w :
  wreach no_uuid 5 w0 w -> workers w = [] -> Forall input_ok xs -> wreach no_uuid 5 w0 (feed xs w).
Proof.
  intros Hr Hw Hx. etransitivity; [exact Hr|]. unfold feed.
  replace w with (mkWorld (pay w) (led w) []) at 1 by (destruct w; simpl in *; congruence).
  by apply inputs_path.
Qed.

Ltac inputs_ok := repeat (apply Forall_cons; split; [unfold input_ok, in_i64; done || lia|]); by apply Forall_nil.

Lemma demo_start : no_payments demo_ledger.
Proof. split; constructor. Qed.

Lemma paid_path : wreach no_uuid 5 start_world (round1 1 0 (feed demo_inputs start_world)).
Proof.
  apply round1_path; [|done]. apply feed_path; [apply rtc_refl|done|]. inputs_ok.
Qed.

Lemma demo_path : wreach no_uuid 5 start_world demo_world.
Proof.
  apply round1_path; [|done]. apply feed_path; [apply paid_path| |inputs_ok].
  unfold round1. by destruct (snd _).
Qed.

Definition demo_intent : Intent :=
  mkIntent "i1" "c1" 5000000 "USD" SUCCEEDED "stripe" (Some "pi_1") "k1" ∅ 2000000.

Lemma settlement_exact_witness :
  topups "i1" (balance_ledger (led demo_world)) = 5000000 /\
  refunds "i1" (balance_ledger (led demo_world)) = 2000000.
Proof.
  apply (settlement_exact no_uuid 5 demo_ledger demo_world demo_intent demo_start demo_path).
  - apply list_elem_of_In. vm_compute. by left.
  - done.
  - done.
  - vm_compute. repeat constructor.
Defined.

(** The payment and its refund, both still to be settled. *)
Definition pending_world : World := feed (demo_inputs ++ demo_refund_input) start_world.

Lemma pending_path : wreach no_uuid 5 start_world pending_world.
Proof. apply feed_path; [apply rtc_refl|done|]. inputs_ok. Qed.

(** The settlement call fails at first, then the marks of a round are lost
    and its leases have to run out; the rest is answered. *)
Definition demo_rounds : list Round :=
  [mkRound false 1 0 Ok (fun _ => mkEnv LostBefore [Ok] Ok);
   mkRound false 3 1 Ok (fun _ => mkEnv Ok [LostBefore; LostBefore; LostBefore] Ok)]
  ++ map (fun t => mkRound false (5 + 2 * t) (40000000000 + t) Ok (fun _ => calm)) [0; 1; 2; 3; 4].

Lemma outbox_drains_witness :
  let p := fst (rounds 5 demo_rounds (pay pending_world, led pending_world)) in
  Forall (fun r => o_status r = OutProcessed \/ o_status r = OutDead) (outbox p) /\
  map (fun r => (o_status r, o_attempts r)) (outbox p) = [(OutProcessed, 3); (OutProcessed, 3)] /\
  effective_rounds 5 demo_rounds (pay pending_world, led pending_world) = 6.
Proof.
  cbv zeta. split; [|by vm_compute].
  apply (outbox_drains no_uuid 5 demo_ledger pending_world demo_rounds demo_start pending_path).
  apply Z.leb_le. by vm_compute.
Defined.

(** Two withdrawals of one dispute; the first is settled before the second
    comes in. *)
Definition dispute_input (e : string) (amt : Z) : list Input :=
  [InDispute e "charge.dispute.funds_withdrawn" "dp_1" "pi_1" amt "needs_response"].
Definition disputed_world : World :=
  feed (dispute_input "e4" 3000000)
    (round1 2 0 (feed (dispute_input "e3" 2000000) (round1 1 0 (feed demo_inputs start_world)))).

Lemma round1_workers seq now w : workers (round1 seq now w) = [].
Proof. unfold round1. by destruct (snd _). Qed.

Lemma disputed_path : wreach no_uuid 5 start_world disputed_world.
Proof.
  apply feed_path; [|apply round1_workers|inputs_ok]. apply round1_path; [|done].
  apply feed_path; [apply paid_path|apply round1_workers|inputs_ok].
Qed.

Lemma later_withdrawal_lost_witness :
  let r1 := mkOutbox 1 APPLY_CHARGEBACK (applyChargebackPayload "i1" "c1" 2000000 "dp_1") OutProcessed
              (Some 30000000000) 1 in
  let r2 := mkOutbox 2 APPLY_CHARGEBACK (applyChargebackPayload "i1" "c1" 1000000 "dp_1") OutPending None 0 in
  process_row 5 false 3 calm r2 (pay disputed_world, led disputed_world) =
    (true, (MarkOutboxEventProcessed 2 (pay disputed_world), led disputed_world)) /\
  sum_disputes d_withdrawn "i1" (pay disputed_world) = 3000000 /\
  chargebacks "i1" (balance_ledger (led disputed_world)) = 2000000.
Proof.
  intros r1 r2. split; [|by vm_compute].
  apply (later_withdrawal_lost no_uuid 5 demo_ledger disputed_world r1 r2 3 demo_start disputed_path);
    try reflexivity.
  - apply list_elem_of_In. vm_compute. right. by left.
  - apply list_elem_of_In. vm_compute. right. right. by left.
  - by vm_compute.
Defined.

(** The refund's row handled while another worker holds the credit's. *)
Lemma row_before_credit_lost_witness :
  let r := mkOutbox 1 REVERSE_BALANCE (reverseBalancePayload "i1" "c1" 2000000 "re_1") OutPending None 0 in
  let p := pay pending_world in
  let after := round1 2 0 (mkWorld (MarkOutboxEventFailed 1 0 p) demo_ledger []) in
  (exists p1, process_row 5 false 1 calm r (p, demo_ledger) = (false, (p1, demo_ledger)) /\
    (wreach no_uuid 5 (mkWorld p1 demo_ledger []) after -> dead_in 1 (pay after))) /\
  topups "i1" (balance_ledger (led after)) = 5000000 /\ refunds "i1" (balance_ledger (led after)) = 0.
Proof.
  intros r p after. split; [|by vm_compute].
  apply (row_before_credit_lost no_uuid 5 demo_ledger p demo_ledger r 1 after demo_start); try done.
  - exact pending_path.
  - apply list_elem_of_In. vm_compute. right. by left.
Defined.

Definition missing_finding : Finding := mkFinding MISSING_LEDGER_TOPUP (Some "i1") 5000000 0 5000000.

Lemma recon_never_reports_orphans_witness :
  let w := feed demo_inputs start_world in
  missing_finding ∈ fst (collectFindings (pay w) (led w)) /\ f_kind missing_finding <> ORPHAN_LEDGER_TOPUP.
Proof.
  intros w. assert (missing_finding ∈ fst (collectFindings (pay w) (led w))) as H.
  { apply list_elem_of_In. vm_compute. by left. }
  split; [exact H|]. exact (recon_never_reports_orphans _ _ _ H).
Defined.

Lemma recon_topup_verdict_witness :
  let w := feed demo_inputs start_world in
  exists f, f ∈ fst (collectFindings (pay w) (led w)) /\ f_intent f = Some "i1" /\ f_kind f = MISSING_LEDGER_TOPUP.
Proof.
  intros w. 
  apply (proj2 (recon_topup_verdict no_uuid 5 demo_ledger w
    (mkIntent "i1" "c1" 5000000 "USD" SUCCEEDED "stripe" (Some "pi_1") "k1" ∅ 0) demo_start
    (feed_path start_world demo_inputs start_world (rtc_refl _ _) eq_refl ltac:(inputs_ok))
    ltac:(apply list_elem_of_In; vm_compute; by left) eq_refl ltac:(discriminate))).
  by vm_compute.
Defined.

End PaymentSettlement.
