(* ===== verification/QuotaGovernance.v ===== *)
(** * Quota governance

    Models [internal/governance/quota.go] and [internal/domain/store_quota.go]
    with the queries of [internal/ingest/queries/quota.sql], and the quota
    part of [applySpendFlush] ([internal/domain/store_campaign.go]): the
    reservation of budget chunks in Postgres, their credit to the Redis
    quota keys of the trackers by refill and warming, and the repair of the
    drift between the two.  A Redis shard is the [Store] of [DebitScripts],
    so the requests the unified filter leaves are the ones handled here.
    Each call to a store carries its fate: it is answered, it fails, or its
    reply is lost after it took effect. *)

From stdpp Require Import pretty.
From S2P Require Import Prelude SqlTx RedisKeys DebitScripts UnifiedFilter DebitLedger FilterPaths.
Open Scope Z_scope.

Module QuotaGovernance.

Import SqlTx RedisKeys DebitScripts.

(** ** Tables *)

Record CampaignBudget := mkBudget { budget_limit : Z; current_spend : Z }.

Record QuotaRow := mkQuota { reserved_amount : Z; chunk_size : Z; updated_at : Z }.

Inductive RepairAction := TopUpRedis | ReleasePG.
#[export] Instance RepairAction_eq_dec : EqDecision RepairAction.
Proof. solve_decision. Defined.

Record RepairPayload := mkRepair {
  rp_campaign : list Z; rp_shard : Z; rp_action : RepairAction; rp_reserved : Z; rp_expected : Z;
  rp_chunk : Z; rp_micro : Z }.

(** [audit]: the repairs recorded, by action, campaign and event. *)
Record QDB := mkQDB {
  campaigns : gmap (list Z) CampaignBudget;
  quotas : gmap (Z * list Z) QuotaRow;
  sync_idempotency : gset (list Z);
  audit : list (RepairAction * list Z * Z);
  repairs : list RepairPayload }.

Inductive QErr := ErrQuotaInvalidChunk | ErrQuotaBudgetExceeded | QErrNoRows | QErrDB.
#[export] Instance QErr_eq_dec : EqDecision QErr.
Proof. solve_decision. Defined.

#[local] Abbreviation M := (SqlTx.M QDB QErr).

Definition set_budgets m d := mkQDB m (quotas d) (sync_idempotency d) (audit d) (repairs d).
Definition set_quotas m d := mkQDB (campaigns d) m (sync_idempotency d) (audit d) (repairs d).
Definition set_idempotency s d := mkQDB (campaigns d) (quotas d) s (audit d) (repairs d).
Definition set_audit l d := mkQDB (campaigns d) (quotas d) (sync_idempotency d) l (repairs d).
Definition set_repairs l d := mkQDB (campaigns d) (quotas d) (sync_idempotency d) (audit d) l.

(** The constraints of [campaign_quotas]. *)
Definition quota_ok (r : QuotaRow) : Prop :=
  0 <= reserved_amount r /\ in_i64 (reserved_amount r) /\ 0 <= chunk_size r.
#[export] Instance quota_ok_dec r : Decision (quota_ok r).
Proof. unfold quota_ok, in_i64. apply _. Defined.

Definition put_quota (k : Z * list Z) (r : QuotaRow) : M unit :=
  guard (bool_decide (quota_ok r)) QErrDB ;;
  modify (fun d => set_quotas (<[k := r]> (quotas d)) d).

Definition IncreaseCampaignQuotaReserved (now shard : Z) (id : list Z) (delta chunk : Z) : M unit :=
  let! d := read (fun d => d) in
  match quotas d !! (shard, id) with
  | Some r => put_quota (shard, id) (mkQuota (reserved_amount r + delta) chunk now)
  | None => ret tt
  end.

Definition DecreaseCampaignQuotaReserved (now shard : Z) (id : list Z) (amt : Z) : M unit :=
  let! d := read (fun d => d) in
  match quotas d !! (shard, id) with
  | Some r => put_quota (shard, id) (mkQuota (Z.max 0 (reserved_amount r - amt)) (chunk_size r) now)
  | None => ret tt
  end.

(** ** Reservations *)

Record ReserveChunkResult := mkReserved { rc_reserved : Z; rc_chunk : Z; rc_already : bool }.

Definition quotaIdempotencyPrefix : list Z := lit "quota:".

Section governance.
Context (uuid_String : list Z -> list Z) (GetShard : list Z -> Z).

Definition quota_shard (id : list Z) : Z := i16 (GetShard id).

Definition ReserveChunk (now : Z) (id : list Z) (chunkSize : Z) (idempotencyKey : list Z) : M ReserveChunkResult :=
  guard (0 <? chunkSize) ErrQuotaInvalidChunk ;;
  let k := (quota_shard id, id) in
  let idemID := quotaIdempotencyPrefix ++ idempotencyKey in
  let! d := read (fun d => d) in
  if bool_decide (idemID ∈ sync_idempotency d) then
    match quotas d !! k with
    | None => ret (mkReserved 0 chunkSize true)
    | Some row => ret (mkReserved (reserved_amount row) (chunk_size row) true)
    end
  else
    modify (set_idempotency ({[idemID]} ∪ sync_idempotency d)) ;;
    let! budget := lift (campaigns d !! id) QErrNoRows in
    let reserved := match quotas d !! k with Some r => reserved_amount r | None => 0 end in
    guard (current_spend budget +64 reserved +64 chunkSize <=? budget_limit budget) ErrQuotaBudgetExceeded ;;
    match quotas d !! k with
    | None => put_quota k (mkQuota chunkSize chunkSize now)
    | Some _ => IncreaseCampaignQuotaReserved now (quota_shard id) id chunkSize chunkSize
    end ;;
    ret (mkReserved (reserved +64 chunkSize) chunkSize false).

Definition ReleaseChunk (now : Z) (id : list Z) (chunkSize : Z) : M unit :=
  IncreaseCampaignQuotaReserved now (quota_shard id) id (i64 (- chunkSize)) chunkSize.

(** The quota part of [applySpendFlush]: [UpdateCampaignSpend], then the
    reservation shrinks by the spend; an error of the latter is ignored. *)
Definition flush_spend (now : Z) (id : list Z) (amt : Z) : M unit :=
  let! d := read (fun d => d) in
  let! c := lift (campaigns d !! id) QErrNoRows in
  guard (bool_decide (in_i64 (current_spend c + amt))) QErrDB ;;
  modify (set_budgets (<[id := mkBudget (budget_limit c) (current_spend c + amt)]> (campaigns d))) ;;
  DecreaseCampaignQuotaReserved now (quota_shard id) id amt.

(** [releaseDeadShardReservations] of one shard confirmed dead. *)
Definition release_shard (now shard : Z) : M unit :=
  modify (fun d => set_quotas (map_imap (fun k r =>
    if bool_decide (fst k = i16 shard) && (0 <? reserved_amount r)
    then Some (mkQuota 0 (chunk_size r) now) else Some r) (quotas d)) d).

(** ** Calls *)

Inductive Net := NetOk | NetFail | NetLost.

Definition redis {A} (n : Net) (m : Script A) (s : Store) : Store * option A :=
  match n with
  | NetOk => m s
  | NetFail => (s, None)
  | NetLost => (fst (m s), None)
  end.

(** A transaction whose commit may fail or be unanswered. *)
Definition tx {A} (n : Net) (m : M A) (d : QDB) : QDB * (option QErr + A) :=
  match n with
  | NetFail => (d, inl None)
  | NetOk => match BeginFunc m d with (inl e, d') => (d', inl (Some e)) | (inr a, d') => (d', inr a) end
  | NetLost => (snd (BeginFunc m d), inl None)
  end.

Definition GETDEL (k : list Z) : Script (option RVal) :=
  fun s => (with_kv s (delete k (kv s)), Some (kv s !! k)).

(** ** Refills *)

Definition quotaKey (id : list Z) : list Z := lit "budget:quota:" ++ uuid_String id.
Definition lockKey (id : list Z) : list Z := lit "budget:refill_lock:" ++ uuid_String id.
Definition syncKey (id : list Z) : list Z := lit "budget:sync:campaign:" ++ uuid_String id.
Definition inflightKey (id : list Z) : list Z := lit "budget:inflight:campaign:" ++ uuid_String id.

Record QuotaManager := mkManager { qm_chunk : Z; qm_thresholdPct : Z; qm_shadow : bool }.

Definition NewQuotaManager (cfgChunk cfgPct : Z) (shadow : bool) : QuotaManager :=
  mkManager (if cfgChunk <=? 0 then 5000000 else cfgChunk) (if cfgPct <=? 0 then 20 else cfgPct) shadow.

Record RefillNet := mkRefillNet {
  rn_claim : Net; rn_reserve : Net; rn_incr : Net; rn_release : Net; rn_lock : Net; rn_set : Net }.

Definition all_ok : RefillNet := mkRefillNet NetOk NetOk NetOk NetOk NetOk NetOk.

Definition requeue (env : RefillNet) (id : list Z) (s : Store) : Store :=
  let s1 := fst (redis (rn_lock env) (SETEX (lockKey id) (RInt 1) (Some 10)) s) in
  fst (redis (rn_set env) (SADD UnifiedFilter.refill_needed (uuid_String id)) s1).

Definition refillCampaign (qm : QuotaManager) (env : RefillNet) (now : Z) (key id : list Z)
    (w : QDB * Store) : QDB * Store :=
  let '(d, s) := w in
  match redis (rn_claim env) (GETDEL (lockKey id)) s with
  | (s1, None) => (d, s1)
  | (s1, Some None) => (d, s1)
  | (s1, Some (Some v)) =>
      if bool_decide (v = RStr []) then (d, s1)
      else match tx (rn_reserve env) (ReserveChunk now id (qm_chunk qm) key) d with
      | (d1, inl (Some ErrQuotaBudgetExceeded)) => (d1, s1)
      | (d1, inl _) => (d1, requeue env id s1)
      | (d1, inr res) =>
          if rc_already res then (d1, s1)
          else if qm_shadow qm then (d1, s1)
          else match redis (rn_incr env) (INCRBY (quotaKey id) (qm_chunk qm)) s1 with
          | (s2, Some _) => (d1, s2)
          | (s2, None) =>
              (fst (tx (rn_release env) (ReleaseChunk now id (qm_chunk qm)) d1), requeue env id s2)
          end
      end
  end.

(** [SPOPN]: the members popped are the caller's draw; those not in the set
    are not popped. *)
Definition SPOPN (k : list Z) (draw : list (list Z)) : Script (list (list Z)) :=
  fun s => let m := default ∅ (sets s !! k) in
           let popped := List.filter (fun x => bool_decide (x ∈ m)) (take (Z.to_nat 100) draw) in
           (mkStore (kv s) (<[k := m ∖ list_to_set popped]> (sets s)) (streams s), Some popped).

(** One shard of [pollRefills]: each popped member that parses as an id. *)
Definition pollRefills (uuid_Parse : list Z -> option (list Z)) (qm : QuotaManager) (n : Net)
    (envs : list Z -> RefillNet) (keys : list Z -> list Z) (now : Z) (draw : list (list Z)) (w : QDB * Store)
    : QDB * Store :=
  let '(d, s) := w in
  match redis n (SPOPN UnifiedFilter.refill_needed draw) s with
  | (s1, None) => (d, s1)
  | (s1, Some popped) =>
      fold_left (fun w x => match uuid_Parse x with
                            | Some id => refillCampaign qm (envs id) now (keys id) id w
                            | None => w
                            end) popped (d, s1)
  end.

(** ** Warming *)

Record WarmNet := mkWarmNet {
  wn_lock : Net; wn_exists : Net; wn_reserve : Net; wn_incr : Net; wn_release : Net; wn_unlock : Net }.

Definition init_key (id : list Z) : list Z := lit "init-quota-" ++ uuid_String id.

Definition unlock (env : WarmNet) (id : list Z) (s : Store) : Store :=
  fst (redis (wn_unlock env) (DEL (lockKey id)) s).

Definition warmCampaignQuota (qm : QuotaManager) (env : WarmNet) (now : Z) (id : list Z) (w : QDB * Store)
    : QDB * Store :=
  let '(d, s) := w in
  match redis (wn_lock env) (SETNX (lockKey id) (RInt 1) (Some 10)) s with
  | (s1, None) | (s1, Some false) => (d, s1)
  | (s1, Some true) =>
      match redis (wn_exists env) (GET (quotaKey id)) s1 with
      | (s2, None) | (s2, Some (Some _)) => (d, unlock env id s2)
      | (s2, Some None) =>
          match tx (wn_reserve env) (ReserveChunk now id (qm_chunk qm) (init_key id)) d with
          | (d1, inl _) => (d1, unlock env id s2)
          | (d1, inr _) =>
              if qm_shadow qm then (d1, unlock env id s2)
              else match redis (wn_incr env) (INCRBY (quotaKey id) (qm_chunk qm)) s2 with
              | (s3, Some _) => (d1, unlock env id s3)
              | (s3, None) =>
                  (fst (tx (wn_release env) (ReleaseChunk now id (qm_chunk qm)) d1), unlock env id s3)
              end
          end
      end
  end.

(** The campaigns of a shard that [warmActiveCampaignQuotas] warms; [None]
    when a read failed. *)
Definition warm_candidates (qm : QuotaManager) (n_exists n_reserved : Net) (ids : list (list Z)) (w : QDB * Store)
    : list (list Z) :=
  match n_exists with
  | NetOk =>
      let missing := List.filter (fun id => negb (bool_decide (is_Some (kv (snd w) !! quotaKey id)))) ids in
      if qm_shadow qm then
        match n_reserved with
        | NetOk => List.filter (fun id => negb (existsb (fun '(k, r) => bool_decide (snd k = id) && (0 <? reserved_amount r))
                                                 (map_to_list (quotas (fst w))))) missing
        | _ => []
        end
      else missing
  | _ => []
  end.

Definition warmActiveCampaignQuotas (qm : QuotaManager) (n_exists n_reserved : Net) (envs : list Z -> WarmNet) (now : Z)
    (ids : list (list Z)) (w : QDB * Store) : QDB * Store :=
  fold_left (fun w id => warmCampaignQuota qm (envs id) now id w) (warm_candidates qm n_exists n_reserved ids w) w.

(** ** Repair *)

Definition quotaCrashGapSeconds : Z := 30.
Definition second : Z := 1000000000.

(** [float64(z)]: to 53 bits, half to even. *)
Definition f64 (z : Z) : Z :=
  let a := Z.abs z in
  let e := Z.log2 a - 52 in
  if e <=? 0 then z
  else
    let q := a / 2 ^ e in let r := a mod 2 ^ e in let half := 2 ^ (e - 1) in
    let q' := if (half <? r) || ((half =? r) && Z.odd q) then q + 1 else q in
    Z.sgn z * (q' * 2 ^ e).

(** [int64(math.Abs(float64(z)))]; outside the width amd64 gives the least
    integer. *)
Definition abs_drift (z : Z) : Z :=
  let a := Z.abs (f64 z) in if bool_decide (in_i64 a) then a else - 9223372036854775808.

Definition decideQuotaRepair (now : Z) (r : QuotaRow) (redisExpected : Z) (quotaKeyMissing : bool)
    : option (RepairAction * Z) :=
  let chunk := if chunk_size r <=? 0 then 1 else chunk_size r in
  let drift := reserved_amount r -64 redisExpected in
  let absDrift := abs_drift drift in
  if quotaKeyMissing && (0 <? reserved_amount r) && (quotaCrashGapSeconds * second <=? now - updated_at r)
  then Some (TopUpRedis, if chunk <? reserved_amount r then chunk else reserved_amount r)
  else if absDrift <=? chunk then None
  else if 0 <? drift
  then Some (TopUpRedis, if chunk *64 2 <? absDrift then chunk else absDrift)
  else Some (ReleasePG, absDrift).

Record quotaRedisSnapshot := mkSnapshot { expected : Z; quotaMissing : bool }.

Definition redis_int (v : option RVal) : Z := match v with Some (RInt n) => n | _ => 0 end.

Definition batchRedisQuotaExpected (id : list Z) (s : Store) : quotaRedisSnapshot :=
  let quotaVal := redis_int (kv s !! quotaKey id) in
  let syncVal := redis_int (kv s !! syncKey id) in
  let inflightVal := redis_int (kv s !! inflightKey id) in
  mkSnapshot (quotaVal +64 syncVal +64 inflightVal) (negb (present (kv s !! quotaKey id))).

Definition loadActiveQuotas (d : QDB) : list (Z * list Z * QuotaRow) :=
  List.filter (fun x => 0 <? reserved_amount (snd x)) (map_to_list (quotas d)).

Definition enqueueQuotaRepair (k : Z * list Z) (r : QuotaRow) (action : RepairAction) (redisExpected repairMicro : Z)
    : M unit :=
  modify (fun d => set_repairs (repairs d ++
    [mkRepair (snd k) (fst k) action (reserved_amount r) redisExpected (chunk_size r) repairMicro]) d).

(** What a row of a live shard asks for. *)
Definition repair_row (now : Z) (stores : list Store) (x : Z * list Z * QuotaRow) : option (RepairAction * Z * Z) :=
  let '(k, r) := x in
  s ← stores !! Z.to_nat (fst k);
  let snap := batchRedisQuotaExpected (snd k) s in
  '(action, micro) ← decideQuotaRepair now r (expected snap) (quotaMissing snap);
  if micro <=? 0 then None else Some (action, micro, expected snap).

Definition releaseDeadShardReservations (now : Z) (dead : Z -> bool) (nshards : nat) (d : QDB) : QDB :=
  fold_left (fun d i => if dead i then snd (BeginFunc (release_shard now i) d) else d)
    (map Z.of_nat (seq 0 nshards)) d.

(** [RepairQuotaDrift]; [reads] tells which shards can be read. *)
Definition RepairQuotaDrift (now : Z) (dead reads : Z -> bool) (stores : list Store) (d : QDB) : QDB :=
  let d1 := releaseDeadShardReservations now dead (length stores) d in
  fold_left (fun d x =>
    if (fst (fst x) <? zlen stores) && negb (dead (fst (fst x))) && reads (fst (fst x)) then
      match repair_row now stores x with
      | Some (action, micro, exp) => snd (BeginFunc (enqueueQuotaRepair (fst x) (snd x) action exp micro) d)
      | None => d
      end
    else d) (loadActiveQuotas d1) d1.

(** The rows [MonitorQuotaDrift] reports. *)
Definition MonitorQuotaDrift (reads : Z -> bool) (stores : list Store) (d : QDB) : list (Z * list Z) :=
  omap (fun x => let '(k, r) := x in
    if (fst k <? zlen stores) && reads (fst k) then
      s ← stores !! Z.to_nat (fst k);
      if f64 (chunk_size r) <? Z.abs (f64 (reserved_amount r -64 expected (batchRedisQuotaExpected (snd k) s)))
      then Some k else None
    else None) (loadActiveQuotas d).

(** ** Applying a repair *)

Definition quotaRepairRedisAppliedKey (eventID : Z) : list Z :=
  lit "quota:repair:redis_applied:" ++ lit (pretty eventID).

Definition quotaRepairPostgresAlreadyApplied (eventID : Z) (p : RepairPayload) (d : QDB) : bool :=
  bool_decide ((rp_action p, rp_campaign p, eventID) ∈ audit d).

Definition applyQuotaRepairPostgres (now eventID : Z) (p : RepairPayload) : M unit :=
  let! d := read (fun d => d) in
  if quotaRepairPostgresAlreadyApplied eventID p d then ret tt
  else
    (if bool_decide (rp_action p = ReleasePG)
     then DecreaseCampaignQuotaReserved now (rp_shard p) (rp_campaign p) (rp_micro p) else ret tt) ;;
    modify (fun d => set_audit (audit d ++ [(rp_action p, rp_campaign p, eventID)]) d).

Record RepairNet := mkRepairNet { pn_tx : Net; pn_exists : Net; pn_incr : Net; pn_set : Net }.

Definition applyQuotaRepairRedisTopUp (env : RepairNet) (eventID : Z) (p : RepairPayload) (s : Store) : bool * Store :=
  match redis (pn_exists env) (GET (quotaRepairRedisAppliedKey eventID)) s with
  | (s1, None) => (false, s1)
  | (s1, Some (Some _)) => (true, s1)
  | (s1, Some None) =>
      match redis (pn_incr env) (INCRBY (quotaKey (rp_campaign p)) (rp_micro p)) s1 with
      | (s2, None) => (false, s2)
      | (s2, Some _) =>
          match redis (pn_set env) (SETEX (quotaRepairRedisAppliedKey eventID) (RInt 1) (Some (7 * 24 * 3600))) s2 with
          | (s3, None) => (false, s3)
          | (s3, Some _) => (true, s3)
          end
      end
  end.

(** Whether the event succeeded; the shard's index is checked by the look-up. *)
Definition ApplyQuotaRepair (env : RepairNet) (now eventID : Z) (p : RepairPayload) (w : QDB * list Store)
    : bool * (QDB * list Store) :=
  let '(d, stores) := w in
  if (rp_micro p <=? 0) then (false, w)
  else match tx (pn_tx env) (applyQuotaRepairPostgres now eventID p) d with
  | (d1, inl _) => (false, (d1, stores))
  | (d1, inr _) =>
      if bool_decide (rp_action p = TopUpRedis) then
        match stores !! Z.to_nat (rp_shard p) with
        | None => (false, (d1, stores))
        | Some s => let '(ok, s') := applyQuotaRepairRedisTopUp env eventID p s in
                    (ok, (d1, <[Z.to_nat (rp_shard p) := s']> stores))
        end
      else (true, (d1, stores))
  end.

(** ** Reservations stay within the budget *)

Definition reserved_of (d : QDB) (id : list Z) : Z :=
  match quotas d !! (quota_shard id, id) with Some r => reserved_amount r | None => 0 end.

(** Amounts of which three fit a 64-bit integer. *)
Definition amount_cap : Z := 2305843009213693952.

(** [o] is what each campaign may be over its budget. *)
Definition within_budget (o : list Z -> Z) (d : QDB) (id : list Z) (c : CampaignBudget) : Prop :=
  0 <= current_spend c /\ budget_limit c < amount_cap /\
  current_spend c + reserved_of d id <= budget_limit c + o id.

Definition within (o : list Z -> Z) (d : QDB) : Prop :=
  map_Forall (within_budget o d) (campaigns d) /\ map_Forall (fun _ r => quota_ok r) (quotas d).

(** The operations that write budgets, reservations or repairs. *)
Inductive qop :=
  | QReserve (now : Z) (id : list Z) (chunk : Z) (key : list Z)
  | QRelease (now : Z) (id : list Z) (chunk : Z)
  | QFlush (now : Z) (id : list Z) (amt : Z)
  | QRepair (now ev : Z) (p : RepairPayload)
  | QDead (now shard : Z)
  | QDrift (now : Z) (dead reads : Z -> bool) (stores : list Store).

Definition qexec (op : qop) (d : QDB) : QDB :=
  match op with
  | QReserve now id chunk key => snd (BeginFunc (ReserveChunk now id chunk key) d)
  | QRelease now id chunk => snd (BeginFunc (ReleaseChunk now id chunk) d)
  | QFlush now id amt => snd (BeginFunc (flush_spend now id amt) d)
  | QRepair now ev p => snd (BeginFunc (applyQuotaRepairPostgres now ev p) d)
  | QDead now shard => snd (BeginFunc (E := QErr) (release_shard now shard) d)
  | QDrift now dead reads stores => RepairQuotaDrift now dead reads stores d
  end.
Definition qrun (ops : list qop) (d : QDB) : QDB := foldl (fun d op => qexec op d) d ops.

(** Amounts are positive and not astronomical. *)
Definition qop_ok (op : qop) : Prop :=
  match op with
  | QReserve _ _ chunk _ => chunk < amount_cap
  | QRelease _ _ chunk => 0 < chunk < amount_cap
  | QFlush _ _ amt => 0 <= amt
  | QRepair _ _ p => 0 < rp_micro p
  | QDead _ _ | QDrift _ _ _ _ => True
  end.

(** The spend an operation books beyond what is reserved, and that of a run:
    the trackers spend credit that Postgres no longer, or never, reserved. *)
Definition excess (op : qop) (d : QDB) (i : list Z) : Z :=
  match op with
  | QFlush now id amt =>
      if bool_decide (i = id) && match flush_spend now id amt d with inr _ => true | inl _ => false end
      then Z.max 0 (amt - reserved_of d id) else 0
  | _ => 0
  end.
Fixpoint over (ops : list qop) (d : QDB) (i : list Z) : Z :=
  match ops with
  | [] => 0
  | op :: rest => excess op d i + over rest (qexec op d) i
  end.

Lemma excess_nonneg op d i : 0 <= excess op d i.
Proof. destruct op; cbn [excess]; try done. case_match; lia. Qed.
Lemma over_nonneg ops d i : 0 <= over ops d i.
Proof. revert d. induction ops as [|op ops IH]; intros d; cbn [over]; [done|]. pose proof (excess_nonneg op d i). specialize (IH (qexec op d)). lia. Qed.

Lemma within_mono o o' d : (forall i, o i <= o' i) -> within o d -> within o' d.
Proof.
  intros Ho [Hb Hq]. split; [|done]. intros id c Hc. destruct (Hb id c Hc) as (H1 & H2 & H3).
  specialize (Ho id). split_and!; [done|done|lia].
Qed.

Lemma reserved_nonneg o d id : within o d -> 0 <= reserved_of d id.
Proof.
  intros [_ H]. unfold reserved_of. destruct (quotas d !! (quota_shard id, id)) as [r|] eqn:E; [|done]. by apply (H _ _ E).
Qed.

(** A row that changes: the others keep what they reserve. *)
Lemma within_put o d k r :
  within o d -> quota_ok r ->
  (forall c, campaigns d !! snd k = Some c -> k = (quota_shard (snd k), snd k) ->
     current_spend c + reserved_amount r <= budget_limit c + o (snd k)) ->
  within o (set_quotas (<[k := r]> (quotas d)) d).
Proof.
  intros [Hb Hq] Hr Hc. split; simpl.
  - intros id c Hid. destruct (Hb id c Hid) as (H1 & H2 & H3). split_and!; [done|done|].
    unfold reserved_of in *. simpl. destruct (decide (k = (quota_shard id, id))) as [->|Hne].
    + rewrite lookup_insert_eq. by apply Hc.
    + by rewrite lookup_insert_ne.
  - by apply map_Forall_insert_2.
Qed.

Lemma within_decrease o now shard id amt : 0 <= amt -> preserves (within o) (DecreaseCampaignQuotaReserved now shard id amt).
Proof.
  intros Ha d a d' H Hm. unfold DecreaseCampaignQuotaReserved, put_quota in Hm. tx_inv Hm; [|done].
  apply within_put; [done|done|]. simpl. intros c Hc [= ->].
  match goal with Hx : quotas _ !! _ = Some _ |- _ => rename Hx into Hrow end.
  destruct H as [Hb Hq]. destruct (Hb _ _ Hc) as (H1 & H2 & H3). pose proof (Hq _ _ Hrow) as (Hr & _).
  unfold reserved_of in H3. rewrite Hrow in H3. lia.
Qed.

Definition idem_id (key : list Z) : list Z := quotaIdempotencyPrefix ++ key.

(** The reservation made by a call that is not a repeat. *)
Definition reserved_by (now : Z) (id : list Z) (chunk : Z) (key : list Z) (d : QDB) : QDB :=
  set_quotas (<[(quota_shard id, id) := mkQuota (reserved_of d id + chunk) chunk now]> (quotas d))
    (set_idempotency ({[idem_id key]} ∪ sync_idempotency d) d).

Lemma ReserveChunk_effect now id chunk key d res d' :
  ReserveChunk now id chunk key d = inr (res, d') ->
  (rc_already res = true /\ d' = d /\ idem_id key ∈ sync_idempotency d) \/
  (rc_already res = false /\ 0 < chunk /\ d' = reserved_by now id chunk key d /\
   quota_ok (mkQuota (reserved_of d id + chunk) chunk now) /\
   exists c, campaigns d !! id = Some c /\ current_spend c +64 reserved_of d id +64 chunk <= budget_limit c).
Proof.
  intros Hm. unfold ReserveChunk in Hm. fold (idem_id key) in Hm. cbv zeta in Hm. unfold reserved_by.
  apply bind_inr in Hm as ([] & d0 & [Hch [= ->]]%guard_inr & Hm). apply Z.ltb_lt in Hch.
  apply bind_inr in Hm as (d1 & d2 & [= <- <-] & Hm). case_bool_decide as Hk.
  - left. destruct (quotas d !! (quota_shard id, id)); by injection Hm as <- <-.
  - right. apply bind_inr in Hm as ([] & d1 & [= <-] & Hm). apply bind_inr in Hm as (c & d2 & Hc & Hm).
    apply lift_inr in Hc as (c' & Hc & [= -> ->]). apply bind_inr in Hm as ([] & d3 & [Hg [= ->]]%guard_inr & Hm).
    apply Z.leb_le in Hg. apply bind_inr in Hm as ([] & d4 & Hp & [= <- <-]). simpl. unfold reserved_of in *.
    destruct (quotas d !! (quota_shard id, id)) as [r|] eqn:Hr.
    + unfold IncreaseCampaignQuotaReserved in Hp. apply bind_inr in Hp as (d5 & d6 & [= <- <-] & Hp).
      cbn [quotas set_idempotency] in Hp. rewrite Hr in Hp. unfold put_quota in Hp.
      apply bind_inr in Hp as ([] & d7 & [Hok%bool_decide_eq_true [= ->]]%guard_inr & [= <-]).
      do 4 (split; [done|]). by exists c'.
    + unfold put_quota in Hp.
      apply bind_inr in Hp as ([] & d7 & [Hok%bool_decide_eq_true [= ->]]%guard_inr & [= <-]).
      do 4 (split; [done|]). by exists c'.
Qed.

Lemma reserved_by_of now id chunk key d : reserved_of (reserved_by now id chunk key d) id = reserved_of d id + chunk.
Proof. unfold reserved_of at 1, reserved_by. cbn [quotas set_quotas set_idempotency]. by rewrite lookup_insert_eq. Qed.

Lemma within_reserve o now id chunk key :
  chunk < amount_cap -> 0 <= o id <= amount_cap -> preserves (within o) (ReserveChunk now id chunk key).
Proof.
  unfold amount_cap. intros Hch Ho d res d' H [(_ & -> & _)|(_ & Hpos & -> & Hok & c & Hc & Hle)]%ReserveChunk_effect; [done|].
  pose proof (reserved_nonneg o _ id H) as Hr. destruct (proj1 H _ _ Hc) as (H1 & H2 & H3). unfold amount_cap in H2.
  apply (within_put o (set_idempotency ({[idem_id key]} ∪ sync_idempotency d) d)); [done|done|].
  simpl. intros c' Hc' _. assert (c' = c) as -> by congruence.
  rewrite (i64_id (current_spend c + _)), i64_id in Hle by go_lia. lia.
Qed.

Lemma within_release o now id chunk :
  0 < chunk < amount_cap -> preserves (within o) (ReleaseChunk now id chunk).
Proof.
  unfold amount_cap. intros Hch d a d' H Hm. unfold ReleaseChunk, IncreaseCampaignQuotaReserved, put_quota in Hm.
  tx_inv Hm; [|done]. match goal with Hx : quotas _ !! _ = Some _ |- _ => rename Hx into Hrow end.
  apply within_put; [done|done|]. simpl. intros c Hc _. destruct (proj1 H _ _ Hc) as (H1 & H2 & H3).
  unfold reserved_of in H3. rewrite Hrow in H3. nowrap. lia.
Qed.

(** A flush takes the spend out of the reservation; what the reservation does
    not cover is over the budget. *)
Lemma within_flush o now id amt d :
  within o d -> 0 <= amt ->
  within (fun i => o i + excess (QFlush now id amt) d i) (snd (BeginFunc (flush_spend now id amt) d)).
Proof.
  intros H Ha. unfold BeginFunc. cbn [excess]. destruct (flush_spend now id amt d) as [e|[[] d']] eqn:Hm.
  { eapply within_mono; [|exact H]. intros i. rewrite andb_false_r. lia. }
  simpl. unfold flush_spend in Hm. apply bind_inr in Hm as (d1 & d2 & [= <- <-] & Hm).
  apply bind_inr in Hm as (c & d2 & Hc & Hm). apply lift_inr in Hc as (c' & Hc & [= -> ->]); rename c' into c.
  apply bind_inr in Hm as ([] & d3 & [_ [= ->]]%guard_inr & Hm).
  apply bind_inr in Hm as ([] & d4 & [= <-] & Hm). unfold DecreaseCampaignQuotaReserved in Hm.
  apply bind_inr in Hm as (d5 & d6 & [= <- <-] & Hm). cbn [quotas set_budgets] in Hm.
  pose proof (reserved_nonneg o d id H) as Hn.
  destruct H as [Hb Hq]. destruct (Hb _ _ Hc) as (H1 & H2 & H3). unfold reserved_of in Hn, H3.
  assert (forall i c0, i <> id -> <[id:=mkBudget (budget_limit c) (current_spend c + amt)]> (campaigns d) !! i = Some c0 ->
            campaigns d !! i = Some c0) as Hother by (intros i c0 Hi; by rewrite lookup_insert_ne).
  destruct (quotas d !! (quota_shard id, id)) as [r|] eqn:Hr.
  - unfold put_quota in Hm.
    apply bind_inr in Hm as ([] & d7 & [Hok%bool_decide_eq_true [= ->]]%guard_inr & [= <-]).
    split; simpl; [|by apply map_Forall_insert_2]. intros i c0 Hi. unfold within_budget, reserved_of. simpl.
    destruct (decide (i = id)) as [->|Hne].
    + rewrite lookup_insert_eq in Hi. injection Hi as <-. simpl. rewrite lookup_insert_eq, Hr, bool_decide_eq_true_2 by done. simpl. lia.
    + rewrite lookup_insert_ne, (bool_decide_eq_false_2 (i = id)) by congruence. cbn [andb]. rewrite Z.add_0_r.
      apply Hother in Hi; [|done]. apply (Hb _ _ Hi).
  - injection Hm as <-. split; simpl; [|done]. intros i c0 Hi. unfold within_budget, reserved_of. simpl.
    destruct (decide (i = id)) as [->|Hne].
    + rewrite lookup_insert_eq in Hi. injection Hi as <-. simpl. rewrite Hr, bool_decide_eq_true_2 by done. simpl. lia.
    + rewrite (bool_decide_eq_false_2 (i = id)) by done. cbn [andb]. rewrite Z.add_0_r.
      apply Hother in Hi; [|done]. apply (Hb _ _ Hi).
Qed.

Lemma within_frame o d d' : within o d -> campaigns d' = campaigns d -> quotas d' = quotas d -> within o d'.
Proof. intros [Hb Hq] E1 E2. unfold within, within_budget, reserved_of in *. by rewrite E1, E2. Qed.

Lemma within_repair o now ev p : 0 < rp_micro p -> preserves (within o) (applyQuotaRepairPostgres now ev p).
Proof.
  intros Hp d a d' H Hm. unfold applyQuotaRepairPostgres in Hm.
  apply bind_inr in Hm as (d1 & d2 & [= <- <-] & Hm). destruct (quotaRepairPostgresAlreadyApplied ev p d).
  - by injection Hm as _ <-.
  - apply bind_inr in Hm as ([] & d3 & Hd & [= _ <-]). apply (within_frame o d3); [|done|done].
    case_bool_decide; [|by injection Hd as <-]. eapply within_decrease; [|exact H|exact Hd]. lia.
Qed.

Lemma within_dead o now shard d : within o d -> within o (snd (BeginFunc (E := QErr) (release_shard now shard) d)).
Proof.
  intros [Hb Hq]. split; simpl.
  - intros id c Hc. destruct (Hb _ _ Hc) as (H1 & H2 & H3). unfold within_budget, reserved_of in *. simpl.
    rewrite map_lookup_imap. split_and!; [done|done|].
    destruct (quotas d !! (quota_shard id, id)) as [r|] eqn:Hr; simpl; [|done].
    pose proof (Hq _ _ Hr) as (Hr0 & _). destruct (_ && _); simpl; lia.
  - intros k r Hk. rewrite map_lookup_imap in Hk. destruct (quotas d !! k) as [r0|] eqn:Hr; [|done]. simpl in Hk.
    pose proof (Hq _ _ Hr) as (Hr0 & Hr1 & Hr2). destruct (_ && _); injection Hk as <-; [|by apply (Hq _ _ Hr)].
    split_and!; simpl; [done|go_lia|done].
Qed.

Lemma within_drift o now dead reads stores d : within o d -> within o (RepairQuotaDrift now dead reads stores d).
Proof.
  intros H. unfold RepairQuotaDrift.
  assert (within o (releaseDeadShardReservations now dead (length stores) d)) as H1.
  { unfold releaseDeadShardReservations. generalize (map Z.of_nat (seq 0 (length stores))). intros l.
    revert d H. induction l as [|i l IH]; intros d H; [done|]. simpl. apply IH.
    destruct (dead i); [|done]. by apply (within_dead o now i). }
  revert H1. generalize (loadActiveQuotas (releaseDeadShardReservations now dead (length stores) d)).
  generalize (releaseDeadShardReservations now dead (length stores) d). intros d0 l. revert d0.
  induction l as [|x l IH]; intros d0 H0; [done|]. simpl. apply IH.
  destruct (_ && reads _); [|done]. destruct (repair_row now stores x) as [[[a m] e]|]; [|done].
  by apply (within_frame o d0).
Qed.

Lemma within_step o op d :
  within o d -> qop_ok op -> (forall i, 0 <= o i <= amount_cap) -> within (fun i => o i + excess op d i) (qexec op d).
Proof.
  intros H Hop Ho. destruct op as [now id chunk key|now id chunk|now id amt|now ev p|now shard|now dead reads stores]; cbn [qexec qop_ok] in *.
  3: by apply within_flush.
  all: eapply (within_mono o); [intros i; cbn [excess]; lia|].
  - apply BeginFunc_preserves; [by apply within_reserve|done].
  - apply BeginFunc_preserves; [by apply within_release|done].
  - apply BeginFunc_preserves; [by apply within_repair|done].
  - by apply within_dead.
  - by apply within_drift.
Qed.

Lemma within_run o ops d :
  within o d -> Forall qop_ok ops -> (forall i, 0 <= o i) -> (forall i, o i + over ops d i <= amount_cap) ->
  within (fun i => o i + over ops d i) (qrun ops d).
Proof.
  intros H Hops. revert o d H. induction Hops as [|op ops Hop _ IH]; intros o d H H0 Ho.
  { eapply within_mono; [|exact H]. intros i. cbn. lia. }
  pose proof (fun i => excess_nonneg op d i) as He. pose proof (fun i => over_nonneg ops (qexec op d) i) as Hv.
  cbn [over] in *. eapply within_mono, (IH (fun i => o i + excess op d i)).
  - intros i. cbn. lia.
  - apply within_step; [done|done|]. intros i. specialize (Ho i). specialize (He i). specialize (Hv i). specialize (H0 i). lia.
  - intros i. specialize (He i). specialize (H0 i). lia.
  - intros i. specialize (Ho i). lia.
Qed.

(** C11: reservations never go past the budget.  Let reservations, releases,
    flushes of spend, repairs, dead-shard releases and drift passes run in
    any order, failing anywhere, on campaigns whose limits do not change,
    with amounts and limits below 2^61.  The spend and the reservation (on
    its shard) of a
    campaign are together at most its budget plus the spend that was flushed
    beyond what was reserved at the time (the trackers spent credit that a
    dead shard's release, a repair or an unreserved warm-up left outside the
    reservation): without such a flush they stay within the budget.  A chunk
    is granted only when spend and reservation with it fit the budget. *)
Theorem reservations_within_budget ops d :
  within (fun _ => 0) d -> Forall qop_ok ops -> (forall i, over ops d i <= amount_cap) ->
  let d' := qrun ops d in
  map_Forall (fun id c =>
    current_spend c + reserved_of d' id <= budget_limit c + over ops d id /\ 0 <= reserved_of d' id /\
    (forall now chunk key res d2, chunk < amount_cap ->
       ReserveChunk now id chunk key d' = inr (res, d2) -> rc_already res = false ->
       reserved_of d2 id = reserved_of d' id + chunk /\ current_spend c + reserved_of d2 id <= budget_limit c))
    (campaigns d').
Proof.
  intros H Hops Ho d'. pose proof (within_run (fun _ => 0) ops d H Hops (fun _ => Z.le_refl 0) Ho) as H'. fold d' in H'.
  intros id c Hc. destruct (proj1 H' _ _ Hc) as (H1 & H2 & H3). pose proof (reserved_nonneg _ _ id H') as Hr.
  split_and!; [lia|done|]. intros now chunk key res d2 Hch Hres Hnew. specialize (Ho id). cbn beta in H3. unfold amount_cap in *.
  apply ReserveChunk_effect in Hres as [(E & _)|(_ & Hpos & -> & _ & c' & Hc' & Hle)]; [congruence|].
  assert (c' = c) as -> by congruence. rewrite (i64_id (current_spend c + _)), i64_id in Hle by go_lia.
  rewrite reserved_by_of. lia.
Qed.

(** ** Refills *)

Definition credit (s : Store) (id : list Z) : Z := redis_int (kv s !! quotaKey id).

Lemma lock_quota id id' : lockKey id <> quotaKey id'.
Proof. intros [=]. Qed.

Lemma credit_set s k v id : k <> quotaKey id -> credit (with_kv s (<[k := v]> (kv s))) id = credit s id.
Proof. intros Hne. unfold credit. simpl. by rewrite lookup_insert_ne. Qed.

Lemma credit_del s k id : k <> quotaKey id -> credit (with_kv s (delete k (kv s))) id = credit s id.
Proof. intros Hne. unfold credit. simpl. by rewrite lookup_delete_ne. Qed.

Lemma requeue_credit env id s id' : credit (requeue env id s) id' = credit s id'.
Proof.
  unfold requeue. assert (forall n s, credit (fst (redis n (SADD UnifiedFilter.refill_needed (uuid_String id)) s)) id' = credit s id') as -> by (by intros []).
  destruct (rn_lock env); simpl; try done; apply credit_set, lock_quota.
Qed.

Lemma incr_credit s id n v s' :
  INCRBY (quotaKey id) n s = (s', Some v) -> credit s' id = credit s id + n.
Proof.
  unfold INCRBY, credit. destruct (kv s !! quotaKey id) as [[m|t]|] eqn:E; simpl; [| |]; try done;
    (destruct (bool_decide _); [|done]); intros [= <- _]; simpl; rewrite lookup_insert_eq; done.
Qed.

Lemma incr_error s k n s' : INCRBY k n s = (s', None) -> s' = s.
Proof.
  unfold INCRBY. destruct (default (RInt 0) (kv s !! k)); [destruct (bool_decide _); [done|]|]; by intros [= <-].
Qed.

(** Every call is answered or has no effect. *)
Definition answered (env : RefillNet) : Prop :=
  Forall (fun n => n <> NetLost)
    [rn_claim env; rn_reserve env; rn_incr env; rn_release env; rn_lock env; rn_set env].

Lemma reserved_put d d0 r id :
  quotas d0 = <[(quota_shard id, id) := r]> (quotas d) -> reserved_of d0 id = reserved_amount r.
Proof. intros E. unfold reserved_of. by rewrite E, lookup_insert_eq. Qed.

(** A release gives back exactly the chunk, or nothing. *)
Lemma release_reserved n now id chunk d r :
  n <> NetLost -> 0 < chunk -> in_i64 chunk -> quotas d !! (quota_shard id, id) = Some r ->
  let d' := fst (tx n (ReleaseChunk now id chunk) d) in
  reserved_of d' id = reserved_of d id \/ reserved_of d' id = reserved_of d id - chunk.
Proof.
  intros Hn Hc Hi Hr d'. subst d'. destruct n; [|by left|done]. unfold tx, BeginFunc.
  destruct (ReleaseChunk now id chunk d) as [e|[[] d']] eqn:E; [by left|]. right. simpl.
  unfold ReleaseChunk, IncreaseCampaignQuotaReserved in E. apply bind_inr in E as (d1 & d2 & [= <- <-] & E).
  rewrite Hr in E. unfold put_quota in E.
  apply bind_inr in E as ([] & d3 & [_ [= ->]]%guard_inr & [= <-]).
  unfold reserved_of. simpl. rewrite lookup_insert_eq, Hr. simpl. unfold in_i64 in Hi. nowrap. lia.
Qed.

Lemma reserve_tx n now id chunk key d d1 res :
  n <> NetLost -> tx n (ReserveChunk now id chunk key) d = (d1, res) ->
  (d1 = d /\ (forall r, res = inr r -> rc_already r = true)) \/
  (exists r, res = inr r /\ rc_already r = false /\ 0 < chunk /\ d1 = reserved_by now id chunk key d).
Proof.
  intros Hn. destruct n; [|by intros [= <- <-]; left|done]. unfold tx, BeginFunc.
  destruct (ReserveChunk now id chunk key d) as [e|[r d']] eqn:E; intros [= <- <-]; [by left|].
  apply ReserveChunk_effect in E as [(Ha & -> & _)|(Ha & Hc & -> & _)].
  - left. split; [done|]. by intros ? [= <-].
  - right. eauto.
Qed.

(** When no reply is lost, a refill credits the trackers with no more
    than it reserved: the quota key grows by at most what the reservation of
    the campaign grows by, whatever calls fail. *)
Theorem refill_backed qm env now key id d s :
  answered env -> in_i64 (qm_chunk qm) ->
  let '(d', s') := refillCampaign qm env now key id (d, s) in
  0 <= credit s' id - credit s id <= reserved_of d' id - reserved_of d id.
Proof.
  intros Ha Hi. unfold answered in Ha. rewrite !Forall_cons in Ha. destruct Ha as (A1 & A2 & A3 & A4 & A5 & A6 & _).
  unfold refillCampaign.
  assert (forall s1 o, redis (rn_claim env) (GETDEL (lockKey id)) s = (s1, o) -> credit s1 id = credit s id) as Hclaim.
  { intros s1 o. destruct (rn_claim env); simpl; intros [= <- _]; try done; apply credit_del, lock_quota. }
  destruct (redis (rn_claim env) (GETDEL (lockKey id)) s) as [s1 o] eqn:E1. specialize (Hclaim s1 o eq_refl).
  destruct o as [[v|]|]; [|lia|lia]. destruct (bool_decide (v = RStr [])); [lia|].
  destruct (tx (rn_reserve env) (ReserveChunk now id (qm_chunk qm) key) d) as [d1 res] eqn:E2.
  apply reserve_tx in E2 as [(-> & Hal)|(r & -> & Hal & Hc & ->)]; [| |done].
  - destruct res as [[[]|]|r]; rewrite ?requeue_credit; try lia. rewrite (Hal r eq_refl). lia.
  - rewrite Hal. assert (reserved_of (reserved_by now id (qm_chunk qm) key d) id = reserved_of d id + qm_chunk qm) as Hres.
    { unfold reserved_of at 1, reserved_by. simpl. by rewrite lookup_insert_eq. }
    destruct (qm_shadow qm); [lia|].
    destruct (redis (rn_incr env) (INCRBY (quotaKey id) (qm_chunk qm)) s1) as [s2 [v2|]] eqn:E3.
    + destruct (rn_incr env); simpl in E3; try done. apply incr_credit in E3. lia.
    + assert (s2 = s1) as ->.
      { destruct (rn_incr env); simpl in E3; [by apply incr_error in E3|by injection E3|done]. }
      rewrite requeue_credit. unfold reserved_by in *.
      edestruct (release_reserved (rn_release env) now id (qm_chunk qm)) as [->| ->]; [done|done|done| | |];
        [simpl; apply lookup_insert_eq|lia|lia].
Qed.

(** A reservation that goes through. *)
Definition can_reserve (id : list Z) (chunk : Z) (key : list Z) (d : QDB) : Prop :=
  0 < chunk /\ (idem_id key ∉ sync_idempotency d) /\
  (exists c, campaigns d !! id = Some c /\ current_spend c +64 reserved_of d id +64 chunk <= budget_limit c) /\
  0 <= reserved_of d id /\ in_i64 (reserved_of d id + chunk).

Lemma put_quota_ok k r d : quota_ok r -> put_quota k r d = inr (tt, set_quotas (<[k := r]> (quotas d)) d).
Proof. intros H. unfold put_quota, bind, guard, modify, ret. by rewrite bool_decide_eq_true_2. Qed.

Lemma ReserveChunk_fresh now id chunk key d :
  can_reserve id chunk key d ->
  ReserveChunk now id chunk key d =
    inr (mkReserved (reserved_of d id +64 chunk) chunk false, reserved_by now id chunk key d).
Proof.
  intros (Hc & Hk & (c & Hcamp & Hle) & Hr & Hi). unfold ReserveChunk, bind, guard, read, modify, lift, ret. cbv zeta.
  rewrite (proj2 (Z.ltb_lt 0 chunk) Hc). fold (idem_id key). rewrite (bool_decide_eq_false_2 _ Hk).
  cbn [campaigns set_idempotency]. rewrite Hcamp. unfold reserved_by, reserved_of in *.
  assert (quota_ok (mkQuota ((match quotas d !! (quota_shard id, id) with Some r => reserved_amount r | None => 0 end) + chunk) chunk now)) as Hok.
  { split_and!; simpl; [lia|done|lia]. }
  unfold IncreaseCampaignQuotaReserved, bind, read, ret.
  destruct (quotas d !! (quota_shard id, id)) as [r|] eqn:E; rewrite (proj2 (Z.leb_le _ _) Hle); cbn [quotas set_idempotency].
  - rewrite E. by rewrite put_quota_ok.
  - by rewrite put_quota_ok.
Qed.

Lemma release_undoes now now' id chunk key d :
  can_reserve id chunk key d ->
  reserved_of (fst (tx NetOk (ReleaseChunk now' id chunk) (reserved_by now id chunk key d))) id = reserved_of d id.
Proof.
  intros (Hc & _ & _ & Hr & Hi). unfold tx, BeginFunc, ReleaseChunk, IncreaseCampaignQuotaReserved, bind, read.
  unfold reserved_by at 1 2. cbn [quotas set_quotas set_idempotency]. rewrite lookup_insert_eq.
  unfold put_quota, bind, guard, modify, ret. cbn [reserved_amount].
  assert (i64 (- chunk) = - chunk) as -> by (nowrap; lia).
  rewrite bool_decide_eq_true_2.
  - simpl. unfold reserved_of at 1. simpl. rewrite lookup_insert_eq. simpl. lia.
  - split_and!; simpl; go_lia.
Qed.

(** The quota key holds a number a chunk can be added to, or nothing. *)
Definition can_credit (id : list Z) (chunk : Z) (s : Store) : Prop :=
  in_i64 (credit s id + chunk) /\ forall t, kv s !! quotaKey id <> Some (RStr t).

Lemma incr_fits id chunk s :
  can_credit id chunk s ->
  INCRBY (quotaKey id) chunk s = (with_kv s (<[quotaKey id := RInt (credit s id + chunk)]> (kv s)), Some (credit s id + chunk)).
Proof.
  intros [Hi Ht]. unfold INCRBY, credit in *. destruct (kv s !! quotaKey id) as [[n|t]|] eqn:E; simpl in *.
  - by rewrite bool_decide_eq_true_2.
  - by destruct (Ht t).
  - by rewrite bool_decide_eq_true_2.
Qed.

Lemma can_credit_frame id chunk s s' : kv s' !! quotaKey id = kv s !! quotaKey id -> can_credit id chunk s -> can_credit id chunk s'.
Proof. intros E. unfold can_credit, credit. by rewrite E. Qed.

(** A lost reply of the credit breaks that: the reservation is given back
    while the credit stays, so the trackers may spend a chunk that Postgres
    will reserve again. *)
Theorem refill_lost_reply qm now key id d s :
  qm_shadow qm = false -> kv s !! lockKey id = Some (RInt 1) ->
  can_reserve id (qm_chunk qm) key d -> can_credit id (qm_chunk qm) s ->
  let '(d', s') := refillCampaign qm (mkRefillNet NetOk NetOk NetLost NetOk NetOk NetOk) now key id (d, s) in
  credit s' id = credit s id + qm_chunk qm /\ reserved_of d' id = reserved_of d id.
Proof.
  intros Hsh Hl Hr Hc. unfold refillCampaign. cbn [rn_claim rn_reserve rn_incr rn_release redis]. unfold GETDEL at 1.
  rewrite Hl. cbn iota. rewrite (bool_decide_eq_false_2 (RInt 1 = RStr [])) by done.
  unfold tx at 1, BeginFunc. rewrite (ReserveChunk_fresh _ _ _ _ _ Hr). cbn [rc_already]. rewrite Hsh.
  set (s1 := with_kv s (delete (lockKey id) (kv s))).
  assert (kv s1 !! quotaKey id = kv s !! quotaKey id) as E1.
  { unfold s1. simpl. apply lookup_delete_ne, lock_quota. }
  rewrite (incr_fits id _ s1) by (by eapply can_credit_frame). cbn [fst]. split.
  - rewrite requeue_credit. unfold credit at 1. simpl. rewrite lookup_insert_eq. simpl. unfold credit. by rewrite E1.
  - by apply release_undoes.
Qed.

(** ** Warming *)

(** Warming credits without reserving once the campaign's key is used up:
    when the quota key has disappeared, the chunk is credited again although
    nothing is reserved, whatever is left of the budget. *)
Theorem warm_credits_unreserved qm now id d s :
  qm_shadow qm = false -> 0 < qm_chunk qm -> in_i64 (qm_chunk qm) ->
  idem_id (init_key id) ∈ sync_idempotency d -> kv s !! quotaKey id = None -> kv s !! lockKey id = None ->
  let '(d', s') := warmCampaignQuota qm (mkWarmNet NetOk NetOk NetOk NetOk NetOk NetOk) now id (d, s) in
  d' = d /\ credit s' id = qm_chunk qm.
Proof.
  intros Hsh Hc Hi Hk Hq Hl. unfold warmCampaignQuota. cbn [wn_lock wn_exists wn_reserve wn_incr redis].
  unfold SETNX. cbn [ttl_ok negb]. rewrite (proj2 (Z.ltb_lt 0 10)) by done. cbn [negb]. rewrite Hl. cbn iota.
  set (s1 := with_kv s _).
  assert (kv s1 !! quotaKey id = None) as E1.
  { unfold s1. simpl. rewrite lookup_insert_ne; [done|apply lock_quota]. }
  unfold GET. rewrite E1. unfold tx, BeginFunc.
  assert (exists r, ReserveChunk now id (qm_chunk qm) (init_key id) d = inr (r, d)) as [r ->].
  { unfold ReserveChunk, bind, guard, read, ret. rewrite (proj2 (Z.ltb_lt 0 _) Hc). cbv zeta.
    fold (idem_id (init_key id)). rewrite (bool_decide_eq_true_2 _ Hk).
    destruct (quotas d !! (quota_shard id, id)); eauto. }
  rewrite Hsh, incr_fits.
  - split; [done|]. unfold unlock. cbn [wn_unlock redis DEL fst]. rewrite credit_del by apply lock_quota.
    unfold credit at 1. simpl. rewrite lookup_insert_eq. simpl. unfold credit. rewrite E1. done.
  - split; [|by rewrite E1]. unfold credit. rewrite E1. done.
Qed.

(** ** The filter's requests *)

(** A key without the campaign's tag. *)
Lemma untagged_tagged id x : 123 :: x <> lockKey id.
Proof. intros [=]. Qed.

Lemma untagged_quota id x : 123 :: x <> quotaKey id.
Proof. intros [=]. Qed.

Lemma tag_cons id : exists x, campaignHashTag id = 123 :: x.
Proof. unfold campaignHashTag, AppendUUID. simpl. eauto. Qed.

Lemma quota_key_tagged id sub : exists x, UnifiedFilter.appendBudgetQuotaKey id sub = 123 :: x.
Proof.
  unfold UnifiedFilter.appendBudgetQuotaKey, AppendCampaignSubHashTag. destruct (sub <=? 0).
  - destruct (tag_cons id) as [x ->]. simpl. eauto.
  - unfold AppendUUID. simpl. eauto.
Qed.

(** The keys the registry, the pacing and the frequency cap give the filter
    are not the manager's lock. *)
Definition filter_keys_apart (id : list Z) (f : UnifiedFilter.Filter) (clk : UnifiedFilter.Clock)
    (e : UnifiedFilter.Event) (c : UnifiedFilter.FCampaign) : Prop :=
  Forall (fun k => k <> lockKey id)
    [UnifiedFilter.BudgetCampaignKey c; UnifiedFilter.CampaignSyncKey c; UnifiedFilter.CustomerSyncKey c;
     UnifiedFilter.streamKey f; UnifiedFilter.DailySpendKeyPrefix c ++ UnifiedFilter.date clk;
     fcapKeyPrefixForDebit (AppendUUID []) (Some (UnifiedFilter.base c)) (UnifiedFilter.UserID e) (UnifiedFilter.ClickID e)
       ++ UnifiedFilter.UserID e].

Lemma full_keys_apart id f clk e c :
  filter_keys_apart id f clk e c -> Forall (fun k => k <> lockKey id) (UnifiedFilter.full_keys f clk e c).
Proof.
  unfold filter_keys_apart. rewrite !Forall_cons. intros (H1 & H2 & H3 & H4 & H5 & H6 & _).
  unfold UnifiedFilter.full_keys. cbv zeta. destruct (tag_cons (UnifiedFilter.CampaignID e)) as [x Hx].
  destruct (quota_key_tagged (UnifiedFilter.CampaignID e)
    (debitSubSlot (UnifiedFilter.base c) (UnifiedFilter.UserID e) (UnifiedFilter.ClickID e))) as [y Hy].
  unfold UnifiedFilter.tagged_idempotency. rewrite Hx, Hy. cbn [app].
  repeat apply Forall_cons_2; try done; try apply untagged_tagged; try (by intros [=]).
  destruct (bool_decide _); [by intros [=]|done].
Qed.

(** A refill the filter asks for is dropped.  The filter takes the lock
    of the campaign under its tagged name and the manager looks for it under
    the plain one, so unless the plain lock was set by another party the
    request is popped from the set and nothing is reserved or credited. *)
Theorem refill_request_dropped uuid_Parse qm f clk e c amount n envs keys now d s :
  let id := UnifiedFilter.CampaignID e in
  filter_keys_apart id f clk e c -> kv s !! lockKey id = None -> uuid_Parse (uuid_String id) = Some id ->
  let s' := fst (unified_filter (UnifiedFilter.full_keys f clk e c) (UnifiedFilter.full_args f clk e c amount) s) in
  let '(d1, s1) := pollRefills uuid_Parse qm n envs keys now [uuid_String id] (d, s') in
  d1 = d /\ kv s1 = kv s' /\ (n = NetOk -> uuid_String id ∉ default ∅ (sets s1 !! UnifiedFilter.refill_needed)).
Proof.
  intros id Hap Hl Hp s'. assert (kv s' !! lockKey id = None) as Hl'.
  { rewrite <- Hl. apply unified_filter_frame. intros i. apply not_eq_sym.
    pose proof (full_keys_apart _ _ _ _ _ Hap) as Hf. unfold key.
    destruct (UnifiedFilter.full_keys f clk e c !! pred i) as [k|] eqn:E; [|by intros [=]].
    rewrite Forall_lookup in Hf. by apply (Hf _ _ E). }
  assert (forall env k s0, kv s0 !! lockKey id = None -> 
            exists s2, refillCampaign qm env now k id (d, s0) = (d, s2) /\ kv s2 = kv s0 /\ sets s2 = sets s0) as Hdrop.
  { intros env k s0 H0. unfold refillCampaign, redis, GETDEL. 
    destruct (rn_claim env); cbn [fst]; rewrite ?H0; eexists; (split; [reflexivity|]); cbn; by rewrite ?delete_id. }
  assert (forall s0, let '(s2, o) := redis n (SPOPN UnifiedFilter.refill_needed [uuid_String id]) s0 in
            kv s2 = kv s0 /\ (o = None \/ o = Some [] \/ o = Some [uuid_String id]) /\
            (n = NetOk -> uuid_String id ∉ default ∅ (sets s2 !! UnifiedFilter.refill_needed))) as Hpop.
  { intros s0. unfold redis, SPOPN. cbn [take Z.to_nat Pos.to_nat Pos.iter_op].
    change (take (Z.to_nat 100) [uuid_String id]) with [uuid_String id]. cbn [List.filter].
    destruct (bool_decide (uuid_String id ∈ _)) eqn:E; destruct n; cbn; (split; [done|]); (split; [auto|]); try done;
      intros _; rewrite lookup_insert_eq; cbn; [set_solver|apply bool_decide_eq_false in E; set_solver]. }
  unfold pollRefills. specialize (Hpop s').
  destruct (redis n (SPOPN UnifiedFilter.refill_needed [uuid_String id]) s') as [s1 o] eqn:Es.
  destruct Hpop as (Hkv & [-> |[-> | ->]] & Hset); [done|done|]. cbn [fold_left]. rewrite Hp.
  destruct (Hdrop (envs id) (keys id) s1) as (s2 & -> & E1 & E2); [by rewrite Hkv|].
  rewrite E2. split; [done|]. split; [congruence|done].
Qed.

Lemma frames_redis {A} k n (m : Script A) s s' o : frames k m -> redis n m s = (s', o) -> kv s' !! k = kv s !! k.
Proof.
  intros Hm. destruct n; simpl; [|by intros [= <- _]|].
  - intros E. specialize (Hm s). by rewrite E in Hm.
  - intros [= <- _]. apply Hm.
Qed.

Lemma frames_call {A} k n (m : Script A) s : frames k m -> kv (fst (redis n m s)) !! k = kv s !! k.
Proof. intros Hm. destruct (redis n m s) as [s' o] eqn:E. by eapply frames_redis. Qed.

Lemma frames_getdel k k' : k <> k' -> frames k (GETDEL k').
Proof. intros Hne s. simpl. by rewrite lookup_delete_ne. Qed.

Lemma requeue_frame env id s k : k <> lockKey id -> kv (requeue env id s) !! k = kv s !! k.
Proof.
  intros Hne. unfold requeue. rewrite frames_call by apply frames_neutral, neutral_sadd.
  by apply frames_call, frames_setex.
Qed.

Lemma unlock_frame env id s k : k <> lockKey id -> kv (unlock env id s) !! k = kv s !! k.
Proof. intros Hne. by apply frames_call, frames_del. Qed.

(** The chunks the manager credits are out of the trackers' reach: a
    refill or a warming, whatever its calls do, leaves every quota key the
    unified filter debits as it was. *)
Theorem credits_never_reach_filter qm env wenv now key id d s id' sub :
  let k := UnifiedFilter.appendBudgetQuotaKey id' sub in
  kv (snd (refillCampaign qm env now key id (d, s))) !! k = kv s !! k /\
  kv (snd (warmCampaignQuota qm wenv now id (d, s))) !! k = kv s !! k.
Proof.
  intros k. destruct (quota_key_tagged id' sub) as [x Hx].
  assert (k <> lockKey id) as Hl by (unfold k; rewrite Hx; apply untagged_tagged).
  assert (k <> quotaKey id) as Hq by (unfold k; rewrite Hx; apply untagged_quota). clearbody k.
  split.
  - unfold refillCampaign. destruct (redis (rn_claim env) _ s) as [s1 o] eqn:E1.
    apply (frames_redis k) in E1; [|by apply frames_getdel]. destruct o as [[v|]|]; [|done|done].
    destruct (bool_decide _); [done|].
    destruct (tx _ _ d) as [d1 [[[]|]|r]]; cbn [snd]; rewrite ?requeue_frame by done; try done.
    destruct (rc_already r); [done|]. destruct (qm_shadow qm); [done|].
    destruct (redis (rn_incr env) _ s1) as [s2 o2] eqn:E2.
    apply (frames_redis k) in E2; [|by apply frames_incr].
    destruct o2; cbn [snd]; rewrite ?requeue_frame by done; congruence.
  - unfold warmCampaignQuota. destruct (redis (wn_lock wenv) _ s) as [s1 o] eqn:E1.
    apply (frames_redis k) in E1; [|by apply frames_setnx]. destruct o as [[]|]; [|done|done].
    destruct (redis (wn_exists wenv) _ s1) as [s2 o2] eqn:E2.
    apply (frames_redis k) in E2; [|apply frames_get].
    destruct o2 as [[v|]|]; cbn [snd]; rewrite ?unlock_frame by done; try congruence.
    destruct (tx _ _ d) as [d1 [e|r]]; cbn [snd]; rewrite ?unlock_frame by done; try congruence.
    destruct (qm_shadow qm); cbn [snd]; rewrite ?unlock_frame by done; try congruence.
    destruct (redis (wn_incr wenv) _ s2) as [s3 o3] eqn:E3.
    apply (frames_redis k) in E3; [|by apply frames_incr].
    destruct o3; cbn [snd]; rewrite ?unlock_frame by done; congruence.
Qed.

(** ** Repairs *)

Lemma f64_small z : Z.abs z < 9007199254740992 -> f64 z = z.
Proof.
  intros H. unfold f64. cbv zeta. rewrite (proj2 (Z.leb_le _ _)); [done|].
  destruct (decide (z = 0)) as [->|Hz]; [done|].
  assert (Z.log2 (Z.abs z) < 53) as ?; [|lia]. apply Z.log2_lt_pow2; lia.
Qed.

Lemma abs_drift_small z : Z.abs z < 9007199254740992 -> abs_drift z = Z.abs z.
Proof. intros H. unfold abs_drift. rewrite f64_small by done. rewrite bool_decide_eq_true_2; [done|go_lia]. Qed.

(** Amounts a drift of which a double holds. *)
Definition small (z : Z) : Prop := 0 <= z < 4503599627370496.

Lemma drift_of r e :
  small (reserved_amount r) -> small e ->
  reserved_amount r -64 e = reserved_amount r - e /\ abs_drift (reserved_amount r -64 e) = Z.abs (reserved_amount r - e).
Proof.
  unfold small. intros Hr He. assert (reserved_amount r -64 e = reserved_amount r - e) as E by (nowrap; done).
  rewrite E. split; [done|]. apply abs_drift_small. lia.
Qed.

(** The decision on a live quota key, without wrap-around. *)
Lemma decide_small now r e :
  0 < chunk_size r -> small (reserved_amount r) -> small e ->
  decideQuotaRepair now r e false =
    let drift := reserved_amount r - e in
    if Z.abs drift <=? chunk_size r then None
    else if 0 <? drift
    then Some (TopUpRedis, if chunk_size r * 2 <? Z.abs drift then chunk_size r else Z.abs drift)
    else Some (ReleasePG, Z.abs drift).
Proof.
  intros Hch Hr He. destruct (drift_of r e Hr He) as [Ed Ea]. unfold decideQuotaRepair. cbv zeta.
  rewrite Ed in Ea |- *. rewrite Ea. cbn [andb]. rewrite (proj2 (Z.leb_gt (chunk_size r) 0)) by done.
  destruct (Z.leb_spec (Z.abs (reserved_amount r - e)) (chunk_size r)) as [|Hgt]; [done|].
  assert (chunk_size r *64 2 = chunk_size r * 2) as ->; [|done]. unfold small in *. nowrap. done.
Qed.

(** A repair of the other direction widens the gap it is meant to close:
    when Redis holds more than is reserved, the reservation is lowered by the
    drift, and the drift grows. *)
Theorem release_repair_widens now now' ev p d r e micro :
  let k := (rp_shard p, rp_campaign p) in
  quotas d !! k = Some r -> 0 < chunk_size r -> 0 < reserved_amount r -> small (reserved_amount r) -> small e ->
  decideQuotaRepair now r e false = Some (ReleasePG, micro) ->
  rp_action p = ReleasePG -> rp_micro p = micro -> quotaRepairPostgresAlreadyApplied ev p d = false ->
  exists d' r', applyQuotaRepairPostgres now' ev p d = inr (tt, d') /\ quotas d' !! k = Some r' /\
    chunk_size r < e - reserved_amount r < e - reserved_amount r'.
Proof.
  intros k Hk Hch Hr Hsr Hse Hd Ha <- Hnew. rewrite decide_small in Hd by done. cbv zeta in Hd.
  destruct (Z.leb_spec (Z.abs (reserved_amount r - e)) (chunk_size r)) as [|Hgt]; [done|].
  destruct (Z.ltb_spec 0 (reserved_amount r - e)); [done|]. injection Hd as Hm.
  set (r' := mkQuota (Z.max 0 (reserved_amount r - rp_micro p)) (chunk_size r) now').
  assert (quota_ok r') as Hok.
  { unfold small in *. split_and!; simpl; [lia|go_lia|lia]. }
  eexists _, r'. split; [|split].
  - unfold applyQuotaRepairPostgres, bind, read. rewrite Hnew, Ha. rewrite bool_decide_eq_true_2 by done.
    unfold DecreaseCampaignQuotaReserved, bind, read. fold k. rewrite Hk, put_quota_ok by done. reflexivity.
  - simpl. apply lookup_insert_eq.
  - simpl. lia.
Qed.

(** Rounds of top-up repair, applied and with nothing in between. *)
Fixpoint topup_rounds (fuel : nat) (now : Z) (r : QuotaRow) (e : Z) : option Z :=
  match fuel with
  | O => None
  | S n => match decideQuotaRepair now r e false with
           | Some (TopUpRedis, m) => topup_rounds n now r (e + m)
           | Some (ReleasePG, _) => None
           | None => Some e
           end
  end.

Lemma topup_rounds_S n now r e :
  topup_rounds (S n) now r e =
    match decideQuotaRepair now r e false with
    | Some (TopUpRedis, m) => topup_rounds n now r (e + m)
    | Some (ReleasePG, _) => None
    | None => Some e
    end.
Proof. reflexivity. Qed.

(** Top-up repairs end: when Redis holds less than is reserved, as many
    rounds as the drift has chunks, and one more, leave a drift of at most a
    chunk and never credit beyond the reservation. *)
Theorem topup_repairs_converge now r e :
  0 < chunk_size r -> small (reserved_amount r) -> 0 <= e <= reserved_amount r ->
  exists e', topup_rounds (S (Z.to_nat ((reserved_amount r - e) / chunk_size r))) now r e = Some e' /\
    e <= e' <= reserved_amount r /\ reserved_amount r - e' <= chunk_size r.
Proof.
  intros Hch Hr. remember (Z.to_nat ((reserved_amount r - e) / chunk_size r)) as n eqn:Hn. revert e Hn.
  assert (forall n e, ((reserved_amount r - e) / chunk_size r <= Z.of_nat n) -> 0 <= e <= reserved_amount r ->
    exists e', topup_rounds (S n) now r e = Some e' /\ e <= e' <= reserved_amount r /\
               reserved_amount r - e' <= chunk_size r) as Hmain.
  { clear n. induction n as [|n IH]; intros e Hn He; rewrite topup_rounds_S, decide_small by (unfold small in *; lia);
      cbv zeta; (destruct (Z.leb_spec (Z.abs (reserved_amount r - e)) (chunk_size r)) as [|Hgt]; [exists e; split; [done|lia]|]);
      rewrite (proj2 (Z.ltb_lt 0 (reserved_amount r - e))) by lia.
    - exfalso. assert (1 <= (reserved_amount r - e) / chunk_size r); [|lia]. apply Z.div_le_lower_bound; lia.
    - destruct (Z.ltb_spec (chunk_size r * 2) (Z.abs (reserved_amount r - e))).
      + destruct (IH (e + chunk_size r)) as (e' & E & H1 & H2); [|lia|exists e'; split; [exact E|lia]].
        replace (reserved_amount r - (e + chunk_size r)) with (reserved_amount r - e + (-1) * chunk_size r) by lia.
        rewrite Z.div_add by lia. lia.
      + destruct (IH (e + Z.abs (reserved_amount r - e))) as (e' & E & H1 & H2); [|lia|exists e'; split; [exact E|lia]].
        replace (reserved_amount r - (e + Z.abs (reserved_amount r - e))) with 0 by lia.
        rewrite Z.div_0_l by lia. lia. }
  intros e -> He. apply Hmain; [|done]. rewrite Z2Nat.id; [lia|]. apply Z.div_pos; lia.
Qed.

Lemma applied_after now ev p d d1 :
  applyQuotaRepairPostgres now ev p d = inr (tt, d1) -> quotaRepairPostgresAlreadyApplied ev p d1 = true.
Proof.
  unfold applyQuotaRepairPostgres. intros Hm. apply bind_inr in Hm as (d0 & d2 & [= <- <-] & Hm).
  destruct (quotaRepairPostgresAlreadyApplied ev p d) eqn:E; [by injection Hm as <-|].
  apply bind_inr in Hm as ([] & d3 & _ & [= <-]). unfold quotaRepairPostgresAlreadyApplied. simpl.
  apply bool_decide_eq_true_2. set_solver.
Qed.

Lemma applied_skips n now ev p d :
  quotaRepairPostgresAlreadyApplied ev p d = true -> fst (tx n (applyQuotaRepairPostgres now ev p) d) = d.
Proof.
  intros H. assert (applyQuotaRepairPostgres now ev p d = inr (tt, d)) as E.
  { unfold applyQuotaRepairPostgres, bind, read, ret. by rewrite H. }
  destruct n; unfold tx, BeginFunc; by rewrite ?E.
Qed.

Lemma tx_ok {A} n (m : M A) d d1 a : tx n m d = (d1, inr a) -> m d = inr (a, d1).
Proof. destruct n; unfold tx, BeginFunc; destruct (m d) as [e|[b d2]]; intros [=]; by subst. Qed.

Lemma present_insert s k v k' : present (<[k := v]> (kv s) !! k') = bool_decide (k = k') || present (kv s !! k').
Proof.
  destruct (decide (k = k')) as [->|Hne].
  - by rewrite lookup_insert_eq, bool_decide_eq_true_2.
  - by rewrite lookup_insert_ne, bool_decide_eq_false_2.
Qed.

Lemma topup_marked env ev p s s' :
  applyQuotaRepairRedisTopUp env ev p s = (true, s') -> present (kv s' !! quotaRepairRedisAppliedKey ev) = true.
Proof.
  unfold applyQuotaRepairRedisTopUp. set (k := quotaRepairRedisAppliedKey ev).
  destruct (pn_exists env); cbn [redis GET]; try done.
  destruct (kv s !! k) as [v|] eqn:E; [by intros [= <-]; rewrite E|].
  destruct (redis (pn_incr env) _ s) as [s2 [x|]] eqn:E2; [|done].
  destruct (pn_set env); cbn [redis]; try done. unfold SETEX. cbn [ttl_ok].
  rewrite (proj2 (Z.ltb_lt 0 _)) by lia. intros [= <-]. simpl. by rewrite lookup_insert_eq.
Qed.

Lemma topup_skips env ev p s :
  present (kv s !! quotaRepairRedisAppliedKey ev) = true -> snd (applyQuotaRepairRedisTopUp env ev p s) = s.
Proof.
  intros H. unfold applyQuotaRepairRedisTopUp. destruct (kv s !! quotaRepairRedisAppliedKey ev) as [v|] eqn:E; [|done].
  destruct (pn_exists env); cbn [redis GET fst]; by rewrite ?E.
Qed.

(** A repair that was answered is applied once: the same event handled
    again, whatever its calls do, changes neither the reservations nor the
    trackers' keys, as long as its marks are kept. *)
Theorem repair_applied_once env env' now now' ev p w w1 :
  ApplyQuotaRepair env now ev p w = (true, w1) -> snd (ApplyQuotaRepair env' now' ev p w1) = w1.
Proof.
  destruct w as [d stores]. unfold ApplyQuotaRepair at 1. destruct (rp_micro p <=? 0) eqn:Hm; [done|].
  destruct (tx (pn_tx env) (applyQuotaRepairPostgres now ev p) d) as [d1 [e|[]]] eqn:Et; [done|].
  apply tx_ok, applied_after in Et. intros H.
  assert (forall st, snd (ApplyQuotaRepair env' now' ev p (d1, st)) =
    (d1, if bool_decide (rp_action p = TopUpRedis) then
           match tx (pn_tx env') (applyQuotaRepairPostgres now' ev p) d1 with
           | (_, inl _) => st
           | (_, inr _) => match st !! Z.to_nat (rp_shard p) with
                           | None => st
                           | Some s => <[Z.to_nat (rp_shard p) := snd (applyQuotaRepairRedisTopUp env' ev p s)]> st
                           end
           end else st)) as Hrun.
  { intros st. unfold ApplyQuotaRepair. rewrite Hm. pose proof (applied_skips (pn_tx env') now' ev p d1 Et) as Hs.
    destruct (tx (pn_tx env') (applyQuotaRepairPostgres now' ev p) d1) as [d2 [e|[]]]; simpl in Hs; subst d2.
    - by destruct (bool_decide _).
    - destruct (bool_decide _); [|done]. destruct (st !! _); [|done].
      by destruct (applyQuotaRepairRedisTopUp env' ev p s). }
  destruct (bool_decide (rp_action p = TopUpRedis)) eqn:Ha.
  - destruct (stores !! Z.to_nat (rp_shard p)) as [s|] eqn:Hs; [|done].
    destruct (applyQuotaRepairRedisTopUp env ev p s) as [ok s'] eqn:Hr. injection H as -> <-.
    rewrite Hrun. apply topup_marked in Hr. f_equal. destruct (tx _ _ d1) as [_ [|]]; [done|].
    rewrite list_lookup_insert_eq by (by eapply lookup_lt_Some).
    rewrite topup_skips by done. by rewrite list_insert_insert_eq.
  - injection H as <-. by rewrite Hrun.
Qed.

(** It is not applied once when the mark of the credit is lost: the event
    is answered with an error, and its retry credits the amount again. *)
Theorem repair_topup_doubles now now' ev p d s :
  0 < rp_micro p -> rp_action p = TopUpRedis -> rp_shard p = 0 ->
  kv s !! quotaRepairRedisAppliedKey ev = None ->
  can_credit (rp_campaign p) (rp_micro p) s -> in_i64 (credit s (rp_campaign p) + 2 * rp_micro p) ->
  exists w1 s2, ApplyQuotaRepair (mkRepairNet NetOk NetOk NetOk NetFail) now ev p (d, [s]) = (false, w1) /\
    ApplyQuotaRepair (mkRepairNet NetOk NetOk NetOk NetOk) now' ev p w1 = (true, (fst w1, [s2])) /\
    credit s2 (rp_campaign p) = credit s (rp_campaign p) + 2 * rp_micro p.
Proof.
  intros Hm Ha Hsh Hk Hc Hi. unfold ApplyQuotaRepair at 1. rewrite (proj2 (Z.leb_gt (rp_micro p) 0)) by done.
  cbn [pn_tx]. unfold tx, BeginFunc.
  assert (exists d1, applyQuotaRepairPostgres now ev p d = inr (tt, d1)) as [d1 E1].
  { unfold applyQuotaRepairPostgres, bind, read. destruct (quotaRepairPostgresAlreadyApplied ev p d); [by eexists|].
    rewrite (bool_decide_eq_false_2 (rp_action p = ReleasePG)) by congruence. by eexists. }
  rewrite E1, (bool_decide_eq_true_2 _ Ha), Hsh. change ([s] !! Z.to_nat 0) with (Some s). cbn iota beta.
  unfold applyQuotaRepairRedisTopUp at 1. cbn [pn_exists pn_incr pn_set redis]. unfold GET at 1. rewrite Hk. cbn iota.
  rewrite incr_fits by done. set (s1 := with_kv s _).
  assert (forall n, quotaRepairRedisAppliedKey ev <> quotaKey n) as Hne by (intros n [=]).
  assert (kv s1 !! quotaRepairRedisAppliedKey ev = None) as Hk1.
  { unfold s1. simpl. rewrite lookup_insert_ne; [done|]. apply not_eq_sym, Hne. }
  assert (credit s1 (rp_campaign p) = credit s (rp_campaign p) + rp_micro p) as Hc1.
  { unfold credit at 1, s1. simpl. by rewrite lookup_insert_eq. }
  assert (can_credit (rp_campaign p) (rp_micro p) s1) as Hcc.
  { split; [rewrite Hc1; replace (credit s (rp_campaign p) + rp_micro p + rp_micro p)
              with (credit s (rp_campaign p) + 2 * rp_micro p) by lia; done|].
    unfold s1. simpl. rewrite lookup_insert_eq. done. }
  eexists _, _. split; [reflexivity|]. split.
  - unfold ApplyQuotaRepair. rewrite (proj2 (Z.leb_gt (rp_micro p) 0)) by done. cbn [pn_tx fst].
    pose proof (applied_after _ _ _ _ _ E1) as Happ. unfold tx, BeginFunc.
    assert (applyQuotaRepairPostgres now' ev p d1 = inr (tt, d1)) as ->.
    { unfold applyQuotaRepairPostgres, bind, read, ret. by rewrite Happ. }
    rewrite (bool_decide_eq_true_2 _ Ha), Hsh. change ((<[Z.to_nat 0 := s1]> [s]) !! Z.to_nat 0) with (Some s1). cbn iota beta.
    unfold applyQuotaRepairRedisTopUp. cbn [pn_exists pn_incr pn_set redis]. unfold GET. rewrite Hk1. cbn iota.
    rewrite incr_fits by done. unfold SETEX. cbn [ttl_ok]. rewrite (proj2 (Z.ltb_lt 0 _)) by lia. cbn iota. reflexivity.
  - rewrite credit_set by apply Hne. unfold credit at 1. simpl. rewrite lookup_insert_eq. simpl. lia.
Qed.

End governance.

(** ** Concrete runs *)

Import UnifiedFilter DebitLedger FilterPaths.

Definition qid : list Z := CampaignID (demo_event (lit "a")).
Definition qus : list Z -> list Z := AppendUUID [].
Definition qshard (_ : list Z) : Z := 0.
Definition live_manager : QuotaManager := NewQuotaManager 0 0 false.

(** A campaign of 20 units that spent 3 and reserves 5. *)
Definition quota_db : QDB :=
  mkQDB {[qid := mkBudget 20000000 3000000]} {[(0, qid) := mkQuota 5000000 5000000 0]}
    {[idem_id (init_key qus qid)]} [] [].

Lemma quota_db_within : within qshard (fun _ => 0) quota_db.
Proof.
  split.
  - apply map_Forall_singleton. split_and!; [done|done|]. vm_compute. discriminate.
  - apply map_Forall_singleton. split_and!; simpl; [lia|go_lia|lia].
Qed.

(** The shard is taken for dead after a chunk was reserved, and then the
    trackers' spend arrives. *)
Definition quota_ops : list qop :=
  [QReserve 1 qid 5000000 (lit "r1"); QFlush 2 qid 4000000; QDead 3 0; QFlush 4 qid 2000000; QReserve 5 qid 5000000 (lit "r2")].

Lemma reservations_within_budget_witness :
  let d' := qrun qus qshard quota_ops quota_db in
  campaigns d' !! qid = Some (mkBudget 20000000 9000000) /\ reserved_of qshard d' qid = 5000000 /\
  over qus qshard quota_ops quota_db qid = 2000000 /\
  current_spend (mkBudget 20000000 9000000) + reserved_of qshard d' qid <= 20000000 + over qus qshard quota_ops quota_db qid.
Proof.
  split; [by vm_compute|]. split; [by vm_compute|]. split; [by vm_compute|].
  refine (proj1 (reservations_within_budget qus qshard quota_ops quota_db quota_db_within _ _ qid (mkBudget 20000000 9000000) _)).
  - repeat constructor; cbn; done.
  - intros i. unfold quota_ops. cbn [over excess]. destruct (bool_decide (i = qid)); vm_compute; discriminate.
  - by vm_compute.
Defined.

Definition locked_store : Store := mkStore {[lockKey qus qid := RInt 1]} ∅ [].

(** The credit fails and the release goes through. *)
Lemma refill_backed_witness :
  let env := mkRefillNet NetOk NetOk NetFail NetOk NetOk NetOk in
  let '(d', s') := refillCampaign qus qshard live_manager env 7 (lit "k1") qid (quota_db, locked_store) in
  0 <= credit qus s' qid - credit qus locked_store qid <= reserved_of qshard d' qid - reserved_of qshard quota_db qid.
Proof.
  apply (refill_backed qus qshard live_manager (mkRefillNet NetOk NetOk NetFail NetOk NetOk NetOk) 7 (lit "k1") qid
    quota_db locked_store); [by repeat constructor|]. split; vm_compute; discriminate.
Defined.

Lemma refill_lost_reply_witness :
  let env := mkRefillNet NetOk NetOk NetLost NetOk NetOk NetOk in
  let '(d', s') := refillCampaign qus qshard live_manager env 7 (lit "k1") qid (quota_db, locked_store) in
  credit qus s' qid = credit qus locked_store qid + 5000000 /\
  reserved_of qshard d' qid = reserved_of qshard quota_db qid.
Proof.
  apply (refill_lost_reply qus qshard live_manager 7 (lit "k1") qid quota_db locked_store); try done.
  - split; [done|]. split; [apply (proj1 (bool_decide_eq_false _)); by vm_compute|]. split_and!.
    + exists (mkBudget 20000000 3000000). split; [by vm_compute|apply Z.leb_le; by vm_compute].
    + vm_compute. discriminate.
    + split; vm_compute; discriminate.
Defined.

(** The budget is spent and the trackers' key was lost. *)
Definition spent_db : QDB :=
  mkQDB {[qid := mkBudget 20000000 20000000]} {[(0, qid) := mkQuota 0 5000000 0]}
    {[idem_id (init_key qus qid)]} [] [].

Lemma warm_credits_unreserved_witness :
  let env := mkWarmNet NetOk NetOk NetOk NetOk NetOk NetOk in
  let '(d', s') := warmCampaignQuota qus qshard live_manager env 9 qid (spent_db, empty_store) in
  d' = spent_db /\ credit qus s' qid = 5000000.
Proof.
  apply (warm_credits_unreserved qus qshard live_manager 9 qid spent_db empty_store); try done.
Defined.

(** The trackers' quota key runs low: the filter's debit asks for a refill. *)
Definition low_store : Store := mkStore {[appendBudgetQuotaKey qid 0 := RInt 900]} ∅ [].
Definition asked_store : Store :=
  fst (unified_filter (full_keys quota_filter demo_clock (demo_event (lit "a")) demo_camp)
         (full_args quota_filter demo_clock (demo_event (lit "a")) demo_camp 10) low_store).

Lemma refill_request_dropped_witness :
  qus qid ∈ default ∅ (sets asked_store !! refill_needed) /\
  let '(d1, s1) := pollRefills qus qshard (fun _ => Some qid) live_manager NetOk (fun _ => all_ok) (fun _ => lit "k1") 7
                     [qus qid] (quota_db, asked_store) in
  d1 = quota_db /\ kv s1 = kv asked_store /\ (NetOk = NetOk -> qus qid ∉ default ∅ (sets s1 !! refill_needed)).
Proof.
  split; [apply (proj1 (bool_decide_eq_true _)); by vm_compute|].
  apply (refill_request_dropped qus qshard (fun _ => Some qid) live_manager quota_filter demo_clock
    (demo_event (lit "a")) demo_camp 10 NetOk (fun _ => all_ok) (fun _ => lit "k1") 7 quota_db low_store); try done.
  unfold filter_keys_apart. repeat (apply Forall_cons_2; [vm_compute; discriminate|]). apply Forall_nil_2.
Defined.

Definition demo_release : RepairPayload := mkRepair qid 0 ReleasePG 5000000 12000000 5000000 7000000.
Definition demo_topup : RepairPayload := mkRepair qid 0 TopUpRedis 5000000 0 5000000 5000000.

Lemma release_repair_widens_witness :
  exists d' r', applyQuotaRepairPostgres 8 1 demo_release quota_db = inr (tt, d') /\ quotas d' !! (0, qid) = Some r' /\
    5000000 < 12000000 - 5000000 < 12000000 - reserved_amount r'.
Proof.
  apply (release_repair_widens 8 8 1 demo_release quota_db (mkQuota 5000000 5000000 0) 12000000 7000000);
    try reflexivity; unfold small; simpl; lia.
Defined.

Lemma topup_repairs_converge_witness :
  exists e', topup_rounds 4 8 (mkQuota 17000000 5000000 0) 1000000 = Some e' /\
    1000000 <= e' <= 17000000 /\ 17000000 - e' <= 5000000.
Proof.
  apply (topup_repairs_converge 8 (mkQuota 17000000 5000000 0) 1000000); unfold small; simpl; lia.
Defined.

Definition repair_ok : RepairNet := mkRepairNet NetOk NetOk NetOk NetOk.
Definition repaired : QDB * list Store := snd (ApplyQuotaRepair qus repair_ok 8 5 demo_topup (quota_db, [empty_store])).

Lemma fst_is {A B} (x : A * B) a : fst x = a -> x = (a, snd x).
Proof. by destruct x; intros <-. Qed.

Lemma repair_applied_once_witness :
  snd (ApplyQuotaRepair qus repair_ok 9 5 demo_topup repaired) = repaired /\
  match snd repaired with [s] => credit qus s qid = 5000000 | _ => False end.
Proof.
  split; [|by vm_compute].
  apply (repair_applied_once qus repair_ok repair_ok 8 9 5 demo_topup (quota_db, [empty_store])).
  apply fst_is. by vm_compute.
Defined.

Lemma repair_topup_doubles_witness :
  exists w1 s2, ApplyQuotaRepair qus (mkRepairNet NetOk NetOk NetOk NetFail) 8 5 demo_topup (quota_db, [empty_store]) = (false, w1) /\
    ApplyQuotaRepair qus (mkRepairNet NetOk NetOk NetOk NetOk) 9 5 demo_topup w1 = (true, (fst w1, [s2])) /\
    credit qus s2 qid = 0 + 2 * 5000000.
Proof.
  apply (repair_topup_doubles qus 8 9 5 demo_topup quota_db empty_store); done.
Defined.

End QuotaGovernance.
