(* ===== verification/StreamLane.v ===== *)
(** * Local quota stream lane

    Models the multi-producer ring of
    [internal/stream/local_quanta_stream.go] that carries the events accepted
    against the local quota to the Redis worker of their shard
    ([LocalQuantaStreamPublisher.Enqueue], [fillLocalQuantaStreamSlot],
    [drainLane], [flushLaneBatch], [Close]), at the granularity of its atomic
    operations and of the field writes of a slot: any number of concurrent
    [Enqueue] calls and the lane's worker.  The bytes of an event are an
    input (its protobuf encoding is generated code), [None] where encoding
    fails.  What the worker does with a batch in Redis is [LaneFlush]. *)

From S2P Require Import Prelude DeltaRing.
Open Scope Z_scope.

Module StreamLane.

Definition localQuantaStreamCapacity : Z := 8192.
Definition localQuantaStreamMask : Z := 8191.
Definition localQuantaStreamUsable : Z := 8191.
Definition localQuantaStreamBatch : Z := 128.
Definition localQuantaSlotClickMax : Z := 128.
Definition localQuantaSlotUserMax : Z := 128.
Definition localQuantaSlotProtoMax : Z := 512.
Definition fcapPrefixMax : Z := 64.

(** ** Slots *)

(** [slot.data]: nothing, a prefix of the inline bytes, or a pooled buffer. *)
Inductive Data := NoData | Inline (n : Z) | Buffer (b : list Z).

Record Slot := mkSlot {
  ready : Z; shard : Z; campaignID : list Z; customerID : list Z; amountMicro : Z;
  freqLimit : Z; freqWindow : Z; fcapPrefix : list Z; userID : list Z; clickID : list Z;
  protoInline : list Z; data : Data }.

Definition empty_slot : Slot := mkSlot 0 0 [] [] 0 0 0 [] [] [] [] NoData.
#[export] Instance slot_inhabited : Inhabited Slot := populate empty_slot.

(** The arguments of a call: [c_fcap] is [fcapKeyPrefixForDebit]. *)
Record Camp := mkCamp { c_customer : list Z; c_limit : Z; c_window : Z; c_fcap : list Z }.
Record Job := mkJob {
  j_shard : Z; j_campaign : list Z; j_click : list Z; j_user : list Z; j_proto : option (list Z);
  j_camp : option Camp; j_amount : Z }.

(** [copyLocalQuantaField]: what fits. *)
Definition copyLocalQuantaField (max : Z) (s : list Z) : list Z := take (Z.to_nat max) s.

Definition fits (b : list Z) : bool := (0 <? zlen b) && (zlen b <=? localQuantaSlotProtoMax).

(** The writes of a call to its slot, in order: [marshalEventToProtoBuf],
    then [fillLocalQuantaStreamSlot]. *)
Definition fill (k : nat) (jb : Job) (s : Slot) : Slot :=
  let b := default [] (j_proto jb) in
  match k with
  | 0%nat => if fits b
      then mkSlot (ready s) (shard s) (campaignID s) (customerID s) (amountMicro s) (freqLimit s) (freqWindow s)
             (fcapPrefix s) (userID s) (clickID s) b (data s)
      else s
  | 1%nat => mkSlot 0 (shard s) (campaignID s) (customerID s) (amountMicro s) (freqLimit s) (freqWindow s)
           (fcapPrefix s) (userID s) (clickID s) (protoInline s) (data s)
  | 2%nat => mkSlot (ready s) (u8 (j_shard jb)) (j_campaign jb)
           (match j_camp jb with Some c => c_customer c | None => customerID s end)
           (amountMicro s) (freqLimit s) (freqWindow s) (fcapPrefix s) (userID s) (clickID s)
           (protoInline s) (data s)
  | 3%nat => mkSlot (ready s) (shard s) (campaignID s) (customerID s) (j_amount jb) (freqLimit s) (freqWindow s)
           (fcapPrefix s) (userID s) (clickID s) (protoInline s) (data s)
  | 4%nat => mkSlot (ready s) (shard s) (campaignID s) (customerID s) (amountMicro s) (freqLimit s) (freqWindow s)
           (fcapPrefix s) (copyLocalQuantaField localQuantaSlotUserMax (j_user jb))
           (copyLocalQuantaField localQuantaSlotClickMax (j_click jb)) (protoInline s) (data s)
  | 5%nat =>
      let '(lim, win, pre) := match j_camp jb with
        | Some c => if 0 <? c_limit c then (u32 (c_limit c), c_window c, copyLocalQuantaField fcapPrefixMax (c_fcap c))
                    else (0, 0, [])
        | None => (0, 0, [])
        end in
      mkSlot (ready s) (shard s) (campaignID s) (customerID s) (amountMicro s) lim win pre (userID s) (clickID s)
        (protoInline s) (data s)
  | 6%nat => mkSlot (ready s) (shard s) (campaignID s) (customerID s) (amountMicro s) (freqLimit s) (freqWindow s)
           (fcapPrefix s) (userID s) (clickID s) (protoInline s)
           (if fits b then Inline (zlen b) else Buffer b)
  | _ => mkSlot 1 (shard s) (campaignID s) (customerID s) (amountMicro s) (freqLimit s) (freqWindow s)
           (fcapPrefix s) (userID s) (clickID s) (protoInline s) (data s)
  end.

Fixpoint fills (k : nat) (jb : Job) (s : Slot) : Slot :=
  match k with O => s | S k => fill k jb (fills k jb s) end.

(** What the worker reads of a slot. *)
Record Item := mkItem {
  it_campaign : list Z; it_customer : list Z; it_amount : Z; it_click : list Z; it_user : list Z;
  it_limit : Z; it_window : Z; it_fcap : list Z; it_data : list Z }.

Definition slot_data (s : Slot) : list Z :=
  match data s with NoData => [] | Inline n => take (Z.to_nat n) (protoInline s) | Buffer b => b end.
Definition item_of (s : Slot) : Item :=
  mkItem (campaignID s) (customerID s) (amountMicro s) (clickID s) (userID s) (freqLimit s) (freqWindow s)
    (fcapPrefix s) (slot_data s).

(** What a call for a known campaign is to deliver. *)
Definition job_item (jb : Job) (c : Camp) : Item :=
  let capped := 0 <? c_limit c in
  mkItem (j_campaign jb) (c_customer c) (j_amount jb)
    (take 128 (j_click jb)) (take 128 (j_user jb))
    (if capped then u32 (c_limit c) else 0) (if capped then c_window c else 0)
    (if capped then take 64 (c_fcap c) else [])
    (default [] (j_proto jb)).

Definition clear_slot (s : Slot) : Slot :=
  mkSlot 0 (shard s) (campaignID s) (customerID s) (amountMicro s) (freqLimit s) (freqWindow s)
    (fcapPrefix s) (userID s) (clickID s) (protoInline s) NoData.

(** ** The lane *)

Record Lane := mkLane { writeCursor : Z; allocCursor : Z; readCursor : Z; slots : list Slot }.

Definition NewLane : Lane := mkLane 0 0 0 (replicate (Z.to_nat localQuantaStreamCapacity) empty_slot).

Definition pos (j : Z) : nat := Z.to_nat (Z.land j localQuantaStreamMask).
Definition slot_at (l : Lane) (j : Z) : Slot := slots l !!! pos j.
Definition set_slot (l : Lane) (j : Z) (s : Slot) : Lane :=
  mkLane (writeCursor l) (allocCursor l) (readCursor l) (<[pos j := s]> (slots l)).
Definition set_alloc (l : Lane) (a : Z) : Lane := mkLane (writeCursor l) a (readCursor l) (slots l).
Definition set_write (l : Lane) (w : Z) : Lane := mkLane w (allocCursor l) (readCursor l) (slots l).
Definition set_read (l : Lane) (r : Z) : Lane := mkLane (writeCursor l) (allocCursor l) r (slots l).

(** ** A call of [Enqueue]

    [PCheck j] to [PWrite j] have claimed index [j]; [PUndo] takes the claim
    back and tries again, [PUndoFail] takes it back and gives up. *)
Inductive pc :=
  | PLoadAlloc | PLoadRead (alloc : Z) | PCas (alloc : Z) | PCheck (j : Z) | PUndo | PMarshal (j : Z)
  | PUndoFail | PFill (j : Z) (k : nat) | PWrite (j : Z) | PDone (res : option Z).

(** What a step records: a claim, a rollback, or neither. *)
Inductive mark := Claim | Rollback | Quiet.

Definition pstep (jb : Job) (l : Lane) (p : pc) : option (Lane * pc * mark) :=
  match p with
  | PLoadAlloc => Some (l, PLoadRead (allocCursor l), Quiet)
  | PLoadRead alloc =>
      if localQuantaStreamUsable <=? alloc -u64 readCursor l then Some (l, PDone None, Quiet)
      else Some (l, PCas alloc, Quiet)
  | PCas alloc =>
      if allocCursor l =? alloc then Some (set_alloc l (alloc +u64 1), PCheck alloc, Claim)
      else Some (l, PLoadAlloc, Quiet)
  | PCheck j => if negb (ready (slot_at l j) =? 0) then Some (l, PUndo, Quiet) else Some (l, PMarshal j, Quiet)
  | PUndo => Some (set_alloc l (allocCursor l -u64 1), PLoadAlloc, Rollback)
  | PMarshal j =>
      match j_proto jb with None => Some (l, PUndoFail, Quiet) | Some _ => Some (l, PFill j 0, Quiet) end
  | PUndoFail => Some (set_alloc l (allocCursor l -u64 1), PDone None, Rollback)
  | PFill j k =>
      Some (set_slot l j (fill k jb (slot_at l j)), if (k <? 7)%nat then PFill j (S k) else PWrite j, Quiet)
  | PWrite j => Some (set_write l (j +u64 1), PDone (Some j), Quiet)
  | PDone _ => None
  end.

(** ** The worker

    [drainLane] collects the indices from [lo] on ([WLoop], [WCheck]), moving
    the read cursor past each; [flushLaneBatch] reads their slots one after
    the other ([WFlush lo k] is at [k]) and then frees them ([WClear k]).
    The final drain of [Close] repeats these rounds. *)
Inductive wpc := WLoop (lo : Z) | WCheck (lo : Z) | WFlush (lo k : Z) | WClear (k : Z).

Definition wstep (l : Lane) (w : wpc) : Lane * wpc * option Item :=
  let read := readCursor l in
  match w with
  | WLoop lo => if writeCursor l <=? read then (l, WFlush lo lo, None) else (l, WCheck lo, None)
  | WCheck lo =>
      if negb (ready (slot_at l read) =? 1) then (l, WFlush lo lo, None)
      else (set_read l (read +u64 1),
            if localQuantaStreamBatch <=? read + 1 - lo then WFlush lo lo else WLoop lo, None)
  | WFlush lo k =>
      if k <? read then (l, WFlush lo (k + 1), Some (item_of (slot_at l k))) else (l, WClear lo, None)
  | WClear k =>
      if k <? read then (set_slot l k (clear_slot (slot_at l k)), WClear (k + 1), None) else (l, WLoop read, None)
  end.

(** ** Interleavings

    [claimed] records the calls that claimed an index, in order, as long as
    no claim has been taken back ([clean]); [out] is what was flushed.  The
    cursors are 64 bits wide and a run makes fewer than 2^64 claims. *)
Record System := mkSystem {
  lane : Lane; calls : list (Job * pc); worker : wpc; claimed : list Job; clean : bool; out : list Item }.

Definition init : System := mkSystem NewLane [] (WLoop 0) [] true [].

Inductive step : System -> System -> Prop :=
  | step_call s jb :
      step s (mkSystem (lane s) (calls s ++ [(jb, PLoadAlloc)]) (worker s) (claimed s) (clean s) (out s))
  | step_producer s i jb p l' p' m :
      calls s !! i = Some (jb, p) -> pstep jb (lane s) p = Some (l', p', m) ->
      (m = Claim -> allocCursor (lane s) + 1 < 18446744073709551616) ->
      step s (mkSystem l' (<[i := (jb, p')]> (calls s)) (worker s)
                (match m with Claim => claimed s ++ [jb] | _ => claimed s end)
                (match m with Rollback => false | _ => clean s end) (out s))
  | step_worker s l' w' o :
      wstep (lane s) (worker s) = (l', w', o) ->
      step s (mkSystem l' (calls s) w' (claimed s) (clean s)
                (match o with Some x => out s ++ [x] | None => out s end)).

Definition reachable (s : System) : Prop := rtc step init s.

(** ** Invariant *)

(** The first index whose slot is not yet free again, and the number of
    events flushed. *)
Definition low (s : System) : Z :=
  match worker s with WLoop lo | WCheck lo | WFlush lo _ => lo | WClear k => k end.
Definition emitted (s : System) : Z :=
  match worker s with WLoop lo | WCheck lo => lo | WFlush _ k => k | WClear _ => readCursor (lane s) end.

Definition won_index (p : pc) : option Z :=
  match p with
  | PCheck j | PMarshal j | PFill j _ | PWrite j => Some j
  | PDone o => o
  | _ => None
  end.

(** Index [j] is claimed and its slot is free for the call that claimed it. *)
Definition free_for (s : System) (j : Z) : Prop :=
  readCursor (lane s) <= j < zlen (claimed s) /\ j < low s + 8192 /\ ready (slot_at (lane s) j) = 0.

Definition call_ok (s : System) (jb : Job) (p : pc) : Prop :=
  match p with
  | PLoadAlloc | PUndo | PUndoFail | PDone None => True
  | PLoadRead a => 0 <= a <= zlen (claimed s)
  | PCas a => 0 <= a <= zlen (claimed s) /\ a - readCursor (lane s) < 8191
  | PCheck j =>
      readCursor (lane s) <= j < zlen (claimed s) /\
      (j < low s + 8192 -> ready (slot_at (lane s) j) = 0)
  | PMarshal j => free_for s j
  | PFill j k => free_for s j /\ (k <= 7)%nat /\ exists s0, slot_at (lane s) j = fills k jb s0
  | PWrite j | PDone (Some j) => 0 <= j < zlen (claimed s)
  end.

Definition worker_ok (s : System) : Prop :=
  let read := readCursor (lane s) in
  match worker s with
  | WLoop lo => read - lo < 128
  | WCheck lo => read - lo < 128 /\ read < zlen (claimed s)
  | WFlush lo k => lo <= k <= read
  | WClear k => k <= read
  end.

Definition published (s : System) (j : Z) : Prop :=
  j < zlen (claimed s) /\ ready (slot_at (lane s) j) = 1 /\
  exists jb s0, claimed s !! Z.to_nat j = Some jb /\ slot_at (lane s) j = fills 8 jb s0.

Definition delivers (x : Item) (jb : Job) : Prop := exists s0, x = item_of (fills 8 jb s0).

Record inv (s : System) : Prop := mkInv {
  inv_len : zlen (slots (lane s)) = 8192;
  inv_alloc : allocCursor (lane s) = zlen (claimed s);
  inv_bound : zlen (claimed s) < 18446744073709551616;
  inv_read : 0 <= low s /\ low s <= readCursor (lane s) <= low s + 128 /\
             readCursor (lane s) <= zlen (claimed s) <= readCursor (lane s) + 8191;
  inv_write : 0 <= writeCursor (lane s) <= zlen (claimed s);
  inv_worker : worker_ok s;
  inv_out : Forall2 delivers (out s) (take (Z.to_nat (emitted s)) (claimed s));
  inv_calls : forall i jb p, calls s !! i = Some (jb, p) -> call_ok s jb p;
  inv_won : forall i jb p j, calls s !! i = Some (jb, p) -> won_index p = Some j ->
    claimed s !! Z.to_nat j = Some jb;
  inv_uniq : forall i i' jb jb' p p' j, calls s !! i = Some (jb, p) -> calls s !! i' = Some (jb', p') ->
    won_index p = Some j -> won_index p' = Some j -> i = i';
  inv_slots : forall j, low s <= j < low s + 8192 -> ready (slot_at (lane s) j) = 0 \/ published s j;
  inv_batch : forall j, low s <= j < readCursor (lane s) -> published s j
}.

(** ** Positions *)

Lemma lane_pos_inj j k : - 8192 < j - k < 8192 -> pos j = pos k -> j = k.
Proof. exact (DeltaRing.pos_inj j k). Qed.

Lemma lane_pos_wrap j : pos (j + 8192) = pos j.
Proof. exact (DeltaRing.pos_wrap j). Qed.

Lemma pos_lt l j : zlen (slots l) = 8192 -> (pos j < length (slots l))%nat.
Proof.
  intros H. pose proof (DeltaRing.pos_mod j) as Hp. pose proof (Z.mod_pos_bound j 8192).
  change (DeltaRing.pos j) with (pos j) in Hp. unfold zlen in H. lia.
Qed.

Lemma lane_slot_set_same l j k sl : zlen (slots l) = 8192 -> pos k = pos j -> slot_at (set_slot l j sl) k = sl.
Proof.
  intros Hl E. unfold slot_at, set_slot. cbn [slots]. rewrite E.
  by apply list_lookup_total_insert_eq, pos_lt.
Qed.

Lemma lane_slot_set_other l j k sl : pos k <> pos j -> slot_at (set_slot l j sl) k = slot_at l k.
Proof.
  intros E. unfold slot_at, set_slot. cbn [slots]. rewrite !list_lookup_total_alt.
  by rewrite list_lookup_insert_ne.
Qed.

Lemma lane_zlen_set_slot l j sl : zlen (slots (set_slot l j sl)) = zlen (slots l).
Proof. unfold zlen, set_slot. cbn [slots]. by rewrite length_insert. Qed.

Lemma fill_ready k jb s : (k < 7)%nat -> ready s = 0 -> ready (fill k jb s) = 0.
Proof. intros Hk Hr. do 7 (destruct k as [|k]; [cbn; repeat case_match; done|]). lia. Qed.

Lemma fill_last jb s : ready (fill 7 jb s) = 1.
Proof. done. Qed.

(** A slot a call has filled holds what the call is to deliver. *)
Lemma fills_item jb c s0 : j_camp jb = Some c -> item_of (fills 8 jb s0) = job_item jb c.
Proof.
  intros Hc. cbn. rewrite Hc. unfold job_item, item_of, slot_data. cbn.
  destruct (fits (default [] (j_proto jb))) eqn:Hf; destruct (0 <? c_limit c); cbn;
    rewrite ?take_ge by (unfold zlen; lia); done.
Qed.

(** ** Frames *)

Lemma lane_call_ok_frame s s' jb p :
  zlen (claimed s) <= zlen (claimed s') -> readCursor (lane s) <= readCursor (lane s') ->
  low s <= low s' ->
  (forall j, free_for s j -> won_index p = Some j ->
     readCursor (lane s') <= j /\ slot_at (lane s') j = slot_at (lane s) j) ->
  (forall j, p = PCheck j -> readCursor (lane s) <= j < zlen (claimed s) ->
     (j < low s + 8192 -> ready (slot_at (lane s) j) = 0) ->
     readCursor (lane s') <= j /\ (j < low s' + 8192 -> ready (slot_at (lane s') j) = 0)) ->
  call_ok s jb p -> call_ok s' jb p.
Proof.
  intros Hc Hr Hl Ho Hk H. destruct p as [|a|a|j| |j| |j k|j|[j|]]; cbn [call_ok] in *; try lia; try done.
  - destruct H as [H1 H2]. destruct (Hk j eq_refl H1 H2). split; [lia|done].
  - destruct (Ho j H eq_refl) as [Hj E]. unfold free_for in *. rewrite E. intuition lia.
  - destruct H as [H Hrest]. destruct (Ho j H eq_refl) as [Hj E]. unfold free_for in *. rewrite E. intuition lia.
Qed.

(** The claimed part seen from a longer list of claims. *)
Lemma published_frame s s' j :
  published s j -> 0 <= j -> (exists l, claimed s' = claimed s ++ l) ->
  slot_at (lane s') j = slot_at (lane s) j -> published s' j.
Proof.
  intros (H1 & H2 & jb & s0 & E & Hs) Hj [l Hl] Eq. unfold published. rewrite Eq, Hl, zlen_app.
  pose proof (zlen_nonneg l). split_and!; [lia|done|]. exists jb, s0. split; [|done].
  rewrite lookup_app_l; [done|]. by apply lookup_lt_Some in E.
Qed.

(** A call whose pc changes without touching the lane. *)
Lemma lane_inv_move s i jb p p' :
  inv s -> calls s !! i = Some (jb, p) ->
  (forall j, won_index p' = Some j -> won_index p = Some j) -> call_ok s jb p' ->
  inv (mkSystem (lane s) (<[i := (jb, p')]> (calls s)) (worker s) (claimed s) (clean s) (out s)).
Proof.
  intros H Hi Hw Hc. pose proof (lookup_lt_Some _ _ _ Hi) as Hlt.
  assert (forall k jb' q, <[i := (jb, p')]> (calls s) !! k = Some (jb', q) ->
    exists q0, calls s !! k = Some (jb', q0) /\ (forall j, won_index q = Some j -> won_index q0 = Some j) /\
      call_ok s jb' q) as Hk.
  { intros k jb' q. destruct (decide (k = i)) as [->|Hne].
    - rewrite list_lookup_insert_eq by done. intros [= <- <-]. eauto 6.
    - rewrite list_lookup_insert_ne by done. intros E. exists q. split_and!; auto.
      exact (inv_calls s H k jb' q E). }
  destruct H as [H1 H2 H3 H4 H5 H6 H7 H8 H9 H10 H11 H12]. constructor; auto.
  - intros k jb' q E. destruct (Hk k jb' q E) as (q0 & _ & _ & E4). exact E4.
  - cbn [calls claimed]. intros k jb' q j E Ej. destruct (Hk k jb' q E) as (q0 & E1 & E3 & _).
    by apply (H9 k jb' q0); auto.
  - cbn [calls]. intros k k' d1 d2 q q' j E E' Ej Ej'.
    destruct (Hk k d1 q E) as (q0 & E1 & E3 & _). destruct (Hk k' d2 q' E') as (q1 & E1' & E3' & _).
    apply (H10 k k' d1 d2 q0 q1 j); auto.
Qed.
(** ** Steps of a call *)

Lemma lane_inv_claim s i jb a :
  inv s -> calls s !! i = Some (jb, PCas a) -> allocCursor (lane s) = a ->
  allocCursor (lane s) + 1 < 18446744073709551616 ->
  inv (mkSystem (set_alloc (lane s) (a +u64 1)) (<[i := (jb, PCheck a)]> (calls s)) (worker s)
         (claimed s ++ [jb]) (clean s) (out s)).
Proof.
  intros H Hi Ea Hb. pose proof (lookup_lt_Some _ _ _ Hi) as Hlt.
  pose proof (inv_calls s H i jb _ Hi) as Hc. cbn [call_ok] in Hc.
  rewrite (inv_alloc s H) in Ea, Hb. subst a. set (n := zlen (claimed s)) in *.
  pose proof (zlen_nonneg (claimed s)) as Hn. fold n in Hn.
  pose proof (inv_read s H) as Hrd. fold n in Hrd. pose proof (inv_write s H) as Hwr. fold n in Hwr.
  assert (zlen (claimed s ++ [jb]) = n + 1) as Hlen by (rewrite zlen_app; done).
  assert (forall k x, claimed s !! k = Some x -> (claimed s ++ [jb]) !! k = Some x) as Happ
    by (intros; by apply lookup_app_l_Some).
  assert ((claimed s ++ [jb]) !! Z.to_nat n = Some jb) as Hlast.
  { unfold n, zlen. rewrite Nat2Z.id. by apply list_lookup_middle. }
  assert (forall k jb' q j, calls s !! k = Some (jb', q) -> won_index q = Some j -> j < n) as Hrange.
  { intros k jb' q j E Ej. pose proof (inv_won s H k jb' q j E Ej) as Hw.
    apply lookup_lt_Some in Hw. pose proof (inv_calls s H k jb' q E) as Hq. unfold n, zlen.
    destruct q as [|?|?|?| |?| |? ?|?|[?|]]; cbn in Ej; simplify_eq; cbn [call_ok] in Hq; unfold free_for, zlen in Hq; lia. }
  set (s' := mkSystem _ _ _ _ _ _).
  assert (forall j, low s <= j -> published s j -> published s' j) as Hpub.
  { intros j Hj Hp. apply (published_frame s s' j Hp); [lia|by exists [jb]|done]. }
  constructor; cbn [lane calls worker claimed clean out set_alloc allocCursor writeCursor readCursor slots s'];
    rewrite ?Hlen; change (low s') with (low s); try apply H.
  - by rewrite u64_id by go_lia.
  - lia.
  - split; [lia|]. split; [lia|]. split; [lia|].
    destruct Hc as [_ Hc]. lia.
  - lia.
  - pose proof (inv_worker s H) as Hw. unfold worker_ok in *. cbn [worker lane readCursor claimed s' set_alloc] in *.
    rewrite Hlen. destruct (worker s); fold n in Hw; intuition lia.
  - change (emitted s') with (emitted s). rewrite take_app_le; [apply (inv_out s H)|].
    assert (emitted s <= n) as He.
    { pose proof (inv_worker s H) as Hw. unfold emitted, worker_ok, low in *. destruct (worker s); lia. }
    unfold n, zlen in He. lia.
  - intros k jb' q. destruct (decide (k = i)) as [->|Hne].
    + rewrite list_lookup_insert_eq by done. intros [= <- <-]. cbn [call_ok].
      change (claimed s') with (claimed s ++ [jb]). rewrite Hlen. split; [cbn; lia|].
      intros Hj. destruct (inv_slots s H n) as [Hz|(Hp & _)]; [change (low s') with (low s) in Hj; lia|done|].
      fold n in Hp. lia.
    + rewrite list_lookup_insert_ne by done. intros E.
      apply (lane_call_ok_frame s); [cbn; rewrite Hlen; fold n; lia|done|done| | |exact (inv_calls s H k jb' q E)].
      * intros j (Hj & _) _. split; [cbn; lia|done].
      * intros j _ Hj Hz. split; [cbn; lia|done].
  - intros k jb' q j. destruct (decide (k = i)) as [->|Hne].
    + rewrite list_lookup_insert_eq by done. intros [= <- <-] [= <-]. exact Hlast.
    + rewrite list_lookup_insert_ne by done. intros E Ej. apply Happ. by apply (inv_won s H k jb' q).
  - intros k k' d1 d2 q q' j.
    destruct (decide (k = i)) as [->|Hne], (decide (k' = i)) as [->|Hne']; auto.
    + rewrite list_lookup_insert_eq, list_lookup_insert_ne by done. intros [= <- <-] E [= <-] Ej.
      pose proof (Hrange _ _ _ _ E Ej). lia.
    + rewrite list_lookup_insert_ne, list_lookup_insert_eq by done. intros E [= <- <-] Ej [= <-].
      pose proof (Hrange _ _ _ _ E Ej). lia.
    + rewrite !list_lookup_insert_ne by done. apply (inv_uniq s H).
  - intros j Hj. destruct (inv_slots s H j Hj) as [Hz|Hp]; [by left|right]. apply Hpub; [lia|done].
  - intros j Hj. apply Hpub; [lia|]. by apply (inv_batch s H).
Qed.

(** A write of a call to the slot it has claimed. *)
Lemma inv_fill s i jb j k :
  inv s -> calls s !! i = Some (jb, PFill j k) ->
  let p' := if (k <? 7)%nat then PFill j (S k) else PWrite j in
  inv (mkSystem (set_slot (lane s) j (fill k jb (slot_at (lane s) j))) (<[i := (jb, p')]> (calls s)) (worker s)
         (claimed s) (clean s) (out s)).
Proof.
  intros H Hi p'. pose proof (lookup_lt_Some _ _ _ Hi) as Hlt.
  pose proof (inv_calls s H i jb _ Hi) as Hc. cbn [call_ok] in Hc.
  destruct Hc as ((Hj & Hwin & Hz) & Hk & s0 & Hs0). pose proof (inv_read s H) as Hrd.
  set (sl := fill k jb (slot_at (lane s) j)). set (s' := mkSystem _ _ _ _ _ _).
  assert (slot_at (lane s') j = sl) as Hself by (apply lane_slot_set_same; [apply H|done]).
  assert (forall m, low s <= m < low s + 8192 -> m <> j -> slot_at (lane s') m = slot_at (lane s) m) as Hother.
  { intros m Hm Hne. apply lane_slot_set_other. intros E. apply Hne, lane_pos_inj; [lia|done]. }
  assert (won_index p' = Some j) as Hw' by (unfold p'; by destruct (k <? 7)%nat).
  assert (claimed s !! Z.to_nat j = Some jb) as Hjb by (by apply (inv_won s H i jb (PFill j k))).
  assert (forall m, published s m -> m <> j) as Hnp by (intros m (_ & Hr & _) ->; congruence).
  assert (forall m, low s <= m < low s + 8192 -> published s m -> published s' m) as Hpub.
  { intros m Hm Hp. apply (published_frame s s' m Hp); [lia|by exists []; rewrite app_nil_r|].
    apply Hother; auto. }
  constructor; try apply H; change (low s') with (low s).
  - change (lane s') with (set_slot (lane s) j sl). rewrite lane_zlen_set_slot. apply H.
  - intros m jb' q. cbn [calls s']. destruct (decide (m = i)) as [->|Hne].
    + rewrite list_lookup_insert_eq by done. intros [= <- <-]. unfold p'.
      destruct (k <? 7)%nat eqn:Ek; cbn [call_ok]; [|cbn [claimed s']; lia]. apply Nat.ltb_lt in Ek.
      unfold free_for. rewrite Hself. split; [|split; [lia|]].
      * split; [exact Hj|split; [exact Hwin|by apply fill_ready]].
      * exists s0. cbn [fills]. by rewrite <- Hs0.
    + rewrite list_lookup_insert_ne by done. intros E.
      assert (forall j', won_index q = Some j' -> j' <> j) as Hu.
      { intros j' Ej ->. apply Hne. by apply (inv_uniq s H m i jb' jb q (PFill j k) j). }
      apply (lane_call_ok_frame s); [done|done|done| | |exact (inv_calls s H m jb' q E)].
      * intros j' (Hj' & Hw2 & _) Ej. split; [cbn; lia|]. apply Hother; [lia|by apply Hu].
      * intros j' -> Hj' Hz'. split; [cbn; lia|]. intros Hw2. rewrite Hother; [by apply Hz'|change (low s') with (low s) in Hw2; lia|by apply Hu].
  - cbn [calls claimed s']. intros m jb' q j'. destruct (decide (m = i)) as [->|Hne].
    + rewrite list_lookup_insert_eq by done. intros [= <- <-]. rewrite Hw'. by intros [= <-].
    + rewrite list_lookup_insert_ne by done. apply (inv_won s H).
  - cbn [calls s']. intros m m' d1 d2 q q' jj.
    destruct (decide (m = i)) as [->|Hne], (decide (m' = i)) as [->|Hne']; auto.
    + rewrite list_lookup_insert_eq, list_lookup_insert_ne by done. intros [= <- <-] E Ej Ej'.
      by apply (inv_uniq s H i m' jb d2 (PFill j k) q' jj); [| |rewrite <- Ej, Hw'|].
    + rewrite list_lookup_insert_ne, list_lookup_insert_eq by done. intros E [= <- <-] Ej Ej'.
      by apply (inv_uniq s H m i d1 jb q (PFill j k) jj); [| | |rewrite <- Ej', Hw'].
    + rewrite !list_lookup_insert_ne by done. apply (inv_uniq s H).
  - intros m Hm. destruct (decide (m = j)) as [->|Hmj].
    + destruct (decide (k = 7)%nat) as [->|Hk7].
      * right. unfold published. rewrite Hself. split_and!; [cbn; lia|done|]. exists jb, s0.
        split; [exact Hjb|]. unfold sl. rewrite Hs0. done.
      * left. rewrite Hself. apply fill_ready; [lia|done].
    + destruct (inv_slots s H m Hm) as [Hzm|Hp]; [left|right; by apply Hpub]. by rewrite Hother.
  - intros m Hm. apply Hpub; [|by apply (inv_batch s H)]. change (readCursor (lane s')) with (readCursor (lane s)) in Hm. lia.
Qed.

Lemma lane_inv_store_write s w : inv s -> 0 <= w <= zlen (claimed s) ->
  inv (mkSystem (set_write (lane s) w) (calls s) (worker s) (claimed s) (clean s) (out s)).
Proof. intros H Hw. destruct H. constructor; auto. Qed.

Lemma lane_inv_producer s i jb p l' p' m :
  inv s -> calls s !! i = Some (jb, p) -> pstep jb (lane s) p = Some (l', p', m) -> m <> Rollback ->
  (m = Claim -> allocCursor (lane s) + 1 < 18446744073709551616) ->
  inv (mkSystem l' (<[i := (jb, p')]> (calls s)) (worker s)
         (match m with Claim => claimed s ++ [jb] | _ => claimed s end) (clean s) (out s)).
Proof.
  intros H Hi Hs Hm Hb. pose proof (inv_calls s H i jb p Hi) as Hc.
  pose proof (inv_bound s H). pose proof (inv_alloc s H). pose proof (inv_read s H) as Hrd.
  pose proof (zlen_nonneg (claimed s)).
  destruct p as [|a|a|j| |j| |j k|j|res]; cbn [pstep] in Hs; [..|discriminate].
  - injection Hs as <- <- <-. apply (lane_inv_move s i jb PLoadAlloc); auto. cbn [call_ok]. lia.
  - destruct (_ <=? _) eqn:E; injection Hs as <- <- <-; apply (lane_inv_move s i jb (PLoadRead a)); auto; try done.
    cbn [call_ok] in *. split; [done|]. unfold localQuantaStreamUsable in E.
    destruct (decide (readCursor (lane s) <= a)); [|lia]. rewrite u64_id in E by go_lia. lia.
  - destruct (_ =? a) eqn:E; injection Hs as <- <- <-.
    + apply Z.eqb_eq in E. by apply lane_inv_claim; auto.
    + by apply (lane_inv_move s i jb (PCas a)).
  - destruct (negb _) eqn:E; injection Hs as <- <- <-; apply (lane_inv_move s i jb (PCheck j)); auto; try done.
    apply negb_false_iff, Z.eqb_eq in E. cbn [call_ok] in *. destruct Hc as [Hj Hz]. split; [done|].
    split; [|done]. destruct (decide (j < low s + 8192)); [done|].
    destruct (inv_batch s H (j - 8192)) as (_ & Hr1 & _); [lia|].
    unfold slot_at in E, Hr1. rewrite <- (lane_pos_wrap (j - 8192)) in Hr1.
    replace (j - 8192 + 8192) with j in Hr1 by lia. congruence.
  - by injection Hs as <- <- <-.
  - destruct (j_proto jb) eqn:Ep; injection Hs as <- <- <-; apply (lane_inv_move s i jb (PMarshal j)); auto; try done.
    cbn [call_ok] in *. split; [done|]. split; [lia|]. by exists (slot_at (lane s) j).
  - by injection Hs as <- <- <-.
  - injection Hs as <- <- <-. by apply inv_fill.
  - injection Hs as <- <- <-. cbn [call_ok] in Hc. rewrite u64_id by go_lia.
    apply (lane_inv_store_write (mkSystem (lane s) (<[i := (jb, PDone (Some j))]> (calls s)) (worker s)
      (claimed s) (clean s) (out s))); [|cbn [claimed]; lia].
    by apply (lane_inv_move s i jb (PWrite j)).
Qed.
(** ** Steps of the worker *)

(** The worker moves on without touching the lane. *)
Lemma lane_inv_worker_move s w o :
  inv s ->
  let s' := mkSystem (lane s) (calls s) w (claimed s) (clean s) o in
  low s' = low s -> worker_ok s' -> Forall2 delivers o (take (Z.to_nat (emitted s')) (claimed s)) -> inv s'.
Proof.
  intros H s' El Hw Ho. pose proof (inv_read s H) as Hrd. rewrite <- El in Hrd.
  assert (forall j, published s j -> published s' j) as Hp by done.
  constructor; try apply H; auto; rewrite ?El.
  - intros i jb p E. apply (lane_call_ok_frame s); [done|done|by rewrite El| | |exact (inv_calls s H i jb p E)].
    + intros j (Hj & _) _. split; [cbn; lia|done].
    + intros j _ Hj Hz. split; [cbn; lia|by rewrite El].
  - exact (inv_slots s H).
  - exact (inv_batch s H).
Qed.

(** The worker takes the slot at the read cursor into its batch. *)
Lemma inv_take s lo w :
  inv s -> worker s = WCheck lo -> ready (slot_at (lane s) (readCursor (lane s))) = 1 ->
  (w = WLoop lo /\ readCursor (lane s) + 1 - lo < 128 \/ w = WFlush lo lo) ->
  inv (mkSystem (set_read (lane s) (readCursor (lane s) +u64 1)) (calls s) w (claimed s) (clean s) (out s)).
Proof.
  intros H Ew Hr1 Hw. set (r := readCursor (lane s)) in *.
  pose proof (inv_worker s H) as Hwk. unfold worker_ok in Hwk. rewrite Ew in Hwk. fold r in Hwk.
  pose proof (inv_read s H) as Hrd. fold r in Hrd. pose proof (inv_bound s H).
  assert (low s = lo) as El by (unfold low; by rewrite Ew).
  assert (published s r) as Hpr. { destruct (inv_slots s H r) as [Hz|?]; [lia|congruence|done]. }
  rewrite u64_id by go_lia. set (s' := mkSystem _ _ _ _ _ _).
  assert (low s' = low s) as El' by (rewrite El; destruct Hw as [[-> _]| ->]; done).
  assert (forall j, published s j -> published s' j) as Hp by done.
  constructor; try apply H; auto; rewrite ?El'.
  - cbn. fold r. lia.
  - unfold worker_ok. destruct Hw as [[-> Hlt]| ->]; cbn; fold r; lia.
  - assert (emitted s' = lo) as -> by (destruct Hw as [[-> _]| ->]; done).
    pose proof (inv_out s H) as Ho. unfold emitted in Ho. by rewrite Ew in Ho.
  - intros i jb p E. pose proof (inv_calls s H i jb p E) as Hc.
    apply (lane_call_ok_frame s); [done|cbn; fold r; lia|by rewrite El'| | |exact Hc].
    + intros j (Hj & Hwin & Hz) _. fold r in Hj. split; [cbn; fold r|done].
      destruct (decide (j = r)) as [->|]; [congruence|lia].
    + intros j _ Hj Hz. fold r in Hj. split; [cbn; fold r|by rewrite El'].
      destruct (decide (j = r)) as [->|]; [rewrite Hz in Hr1; [done|lia]|lia].
  - exact (inv_slots s H).
  - intros j Hj. cbn in Hj. fold r in Hj. destruct (decide (j = r)) as [->|]; [done|].
    apply Hp, (inv_batch s H). fold r. lia.
Qed.

(** The worker frees the first slot of its batch. *)
Lemma lane_inv_clear s k :
  inv s -> worker s = WClear k -> k < readCursor (lane s) ->
  inv (mkSystem (set_slot (lane s) k (clear_slot (slot_at (lane s) k))) (calls s) (WClear (k + 1)) (claimed s)
         (clean s) (out s)).
Proof.
  intros H Ew Hk. pose proof (inv_read s H) as Hrd.
  assert (low s = k) as El by (unfold low; by rewrite Ew). rewrite El in Hrd.
  set (sl := clear_slot _). set (s' := mkSystem _ _ _ _ _ _). assert (low s' = k + 1) as El' by done.
  assert (forall m, k < m < k + 8192 -> slot_at (lane s') m = slot_at (lane s) m) as Hother.
  { intros m Hm. apply lane_slot_set_other. intros E. apply lane_pos_inj in E; lia. }
  assert (slot_at (lane s') (k + 8192) = sl) as Hself by (apply lane_slot_set_same; [apply H|apply lane_pos_wrap]).
  assert (forall m, k < m < k + 8192 -> published s m -> published s' m) as Hpub.
  { intros m Hm Hp. apply (published_frame s s' m Hp); [lia|by exists []; rewrite app_nil_r|by apply Hother]. }
  constructor; try apply H; rewrite ?El'; change (readCursor (lane s')) with (readCursor (lane s)) in *;
    change (claimed s') with (claimed s) in *.
  - change (lane s') with (set_slot (lane s) k sl). rewrite lane_zlen_set_slot. apply H.
  - lia.
  - unfold worker_ok. cbn. lia.
  - pose proof (inv_out s H) as Ho. unfold emitted in Ho. by rewrite Ew in Ho.
  - intros i jb p E. apply (lane_call_ok_frame s); [done|done|rewrite El, El'; lia| | |exact (inv_calls s H i jb p E)].
    + intros j (Hj & Hwin & _) _. rewrite El in Hwin. split; [cbn; lia|]. apply Hother. lia.
    + intros j _ Hj Hz. rewrite El in Hz. rewrite El'. split; [cbn; lia|]. intros Hw.
      destruct (decide (j = k + 8192)) as [->|]; [by rewrite Hself|]. rewrite Hother by lia. apply Hz. lia.
  - intros j Hj. destruct (decide (j = k + 8192)) as [->|]; [left; by rewrite Hself|].
    destruct (inv_slots s H j) as [Hz|Hp]; [lia|left; rewrite Hother by lia; done|right; apply Hpub; [lia|done]].
  - intros j Hj. apply Hpub; [lia|]. apply (inv_batch s H). lia.
Qed.

Lemma lane_inv_worker_step s l' w' o :
  inv s -> wstep (lane s) (worker s) = (l', w', o) ->
  inv (mkSystem l' (calls s) w' (claimed s) (clean s) (match o with Some x => out s ++ [x] | None => out s end)).
Proof.
  intros H Hs. pose proof (inv_worker s H) as Hw. pose proof (inv_write s H) as Hwr.
  pose proof (inv_out s H) as Ho. pose proof (inv_read s H) as Hrd.
  unfold emitted in Ho. unfold worker_ok in Hw.
  destruct (worker s) as [lo|lo|lo k|k] eqn:Ew; cbn [wstep] in Hs.
  - assert (low s = lo) as El by (unfold low; by rewrite Ew).
    destruct (_ <=? _) eqn:E; injection Hs as <- <- <-; apply lane_inv_worker_move; auto; unfold worker_ok; cbn; lia.
  - destruct (negb _) eqn:E.
    + injection Hs as <- <- <-. assert (low s = lo) as El by (unfold low; by rewrite Ew).
      apply lane_inv_worker_move; auto. unfold worker_ok; cbn. lia.
    + apply negb_false_iff, Z.eqb_eq in E. injection Hs as <- <- <-. apply (inv_take s lo); auto.
      unfold localQuantaStreamBatch. destruct (_ <=? _) eqn:Eb; [by right|left]. split; [done|lia].
  - assert (low s = lo) as El by (unfold low; by rewrite Ew).
    destruct (_ <? _) eqn:E; injection Hs as <- <- <-; apply lane_inv_worker_move; auto; unfold worker_ok; cbn; try lia.
    + destruct (inv_batch s H k) as (Hkn & _ & jb & s0 & E0 & Es); [lia|].
      replace (Z.to_nat (k + 1)) with (S (Z.to_nat k)) by lia. rewrite (take_S_r _ _ jb) by done.
      apply Forall2_app; [done|]. constructor; [|done]. exists s0. by rewrite Es.
    + replace (readCursor (lane s)) with k by lia. done.
  - destruct (_ <? _) eqn:E; injection Hs as <- <- <-; [apply lane_inv_clear; auto; lia|].
    assert (low s = k) as El by (unfold low; by rewrite Ew).
    apply lane_inv_worker_move; auto; unfold worker_ok; cbn; lia.
Qed.

Lemma lane_inv_init : inv init.
Proof.
  assert (forall j, slot_at NewLane j = empty_slot) as Hz.
  { intros j. unfold slot_at, NewLane. cbn [slots]. apply lookup_total_replicate_2.
    pose proof (pos_lt NewLane j eq_refl) as Hp. unfold NewLane in Hp. cbn [slots] in Hp.
    by rewrite length_replicate in Hp. }
  constructor; unfold init; cbn [lane calls worker claimed clean out low emitted]; try done.
  - intros j _. left. by rewrite Hz.
  - cbn. lia.
Qed.

Lemma inv_new_call s jb :
  inv s -> inv (mkSystem (lane s) (calls s ++ [(jb, PLoadAlloc)]) (worker s) (claimed s) (clean s) (out s)).
Proof.
  intros [H1 H2 H3 H4 H5 H6 H7 H8 H9 H10 H11 H12].
  assert (forall i e p, (calls s ++ [(jb, PLoadAlloc)]) !! i = Some (e, p) ->
    calls s !! i = Some (e, p) \/ p = PLoadAlloc) as Hc.
  { intros i e p [E|[_ E]]%lookup_app_Some; [by left|right].
    apply list_lookup_singleton_Some in E as [_ [= _ <-]]. done. }
  constructor; auto; cbn [calls].
  - intros i e p [E| ->]%Hc; [exact (H8 i e p E)|exact I].
  - intros i e p j [E| ->]%Hc; [by apply (H9 i e p)|discriminate].
  - intros i i' e e' p p' j [E| ->]%Hc [E'| ->]%Hc; try discriminate. by apply (H10 i i' e e' p p').
Qed.

Lemma lane_reachable_inv s : reachable s -> clean s = true -> inv s.
Proof.
  intros H. pattern s. refine (rtc_ind_r (fun s => clean s = true -> inv s) init _ _ s H).
  - intros _. apply lane_inv_init.
  - clear H s. intros s s' _ Hs IH Hc. destruct Hs as [s jb|s i jb p l' p' m Hi Hp Hb|s l' w' o Hw]; cbn [clean] in *.
    + by apply inv_new_call, IH.
    + destruct m; try done; apply (lane_inv_producer s i jb p l' p' _ (IH Hc) Hi Hp); done.
    + by apply lane_inv_worker_step; [apply IH|].
Qed.
(** ** A lane that is stuck *)

(** The claims a call may still take back. *)
Definition debt (p : pc) : Z :=
  match p with PCheck _ | PUndo | PMarshal _ | PUndoFail => 1 | _ => 0 end.
Definition debts (cs : list (Job * pc)) : Z := sumZ ((fun x => debt (snd x)) <$> cs).

Definition hole_call (n : Z) (p : pc) : Prop :=
  match p with
  | PLoadRead a => 0 <= a < 18446744073709551616
  | PCas a => a < n + 8191
  | PCheck j | PMarshal j => n < j < n + 8191
  | PFill j k => n < j < n + 8191 /\ (k <= 7)%nat
  | PWrite j => n < j < n + 8191
  | _ => True
  end.

(** Index [n] has been skipped: its slot is free and no call can claim it any
    more, while the cursor of the writers is past it. *)
Record hole (n : Z) (s : System) : Prop := mkHole {
  h_len : zlen (slots (lane s)) = 8192;
  h_n : 0 <= n < 18446744073709543424;
  h_alloc : n + 1 + debts (calls s) <= allocCursor (lane s) < 18446744073709551616;
  h_write : n < writeCursor (lane s);
  h_calls : Forall (fun x => hole_call n (snd x)) (calls s);
  h_free : ready (slot_at (lane s) n) = 0;
  h_read : 0 <= readCursor (lane s) <= n;
  h_worker : match worker s with
             | WLoop lo | WCheck lo => 0 <= lo <= readCursor (lane s)
             | WFlush lo k => 0 <= lo <= k /\ k <= readCursor (lane s)
             | WClear k => k <= readCursor (lane s)
             end;
  h_out : zlen (out s) = emitted s
}.

Lemma debt_nonneg p : 0 <= debt p.
Proof. destruct p; cbn; lia. Qed.

Lemma debts_app l1 l2 : debts (l1 ++ l2) = debts l1 + debts l2.
Proof. unfold debts. rewrite fmap_app. apply sumZ_app. Qed.

Lemma debts_nonneg cs : 0 <= debts cs.
Proof. apply sumZ_nonneg, Forall_fmap, Forall_forall. intros x _. apply debt_nonneg. Qed.

Lemma debts_insert cs i jb p p' :
  cs !! i = Some (jb, p) -> debts (<[i := (jb, p')]> cs) = debts cs - debt p + debt p'.
Proof.
  intros Hi. unfold debts. rewrite list_fmap_insert.
  rewrite (sumZ_insert _ i (debt p)); [done|]. by rewrite list_lookup_fmap, Hi.
Qed.

Lemma debts_in cs i jb p : cs !! i = Some (jb, p) -> debt p <= debts cs.
Proof.
  intros Hi. pose proof (debts_insert cs i jb p PUndo Hi) as H1.
  pose proof (debts_insert cs i jb p PLoadAlloc Hi) as H. cbn in H. pose proof (debts_nonneg (<[i := (jb, PLoadAlloc)]> cs)). lia.
Qed.

Lemma emitted_lane_move l l' cs cs' w cl cl' c c' o :
  readCursor l = readCursor l' ->
  emitted (mkSystem l cs w cl c o) = emitted (mkSystem l' cs' w cl' c' o).
Proof. intros E. unfold emitted. cbn. by destruct w. Qed.

(** A call changes and leaves the slot of [n] and the read cursor alone. *)
Lemma hole_call_step n s i jb p p' l' cl c :
  hole n s -> calls s !! i = Some (jb, p) -> hole_call n p' ->
  zlen (slots l') = 8192 -> slot_at l' n = slot_at (lane s) n -> readCursor l' = readCursor (lane s) ->
  n < writeCursor l' ->
  n + 1 + (debts (calls s) - debt p + debt p') <= allocCursor l' < 18446744073709551616 ->
  hole n (mkSystem l' (<[i := (jb, p')]> (calls s)) (worker s) cl c (out s)).
Proof.
  intros [H1 H2 H3 H4 H5 H6 H7 H8 H9] Hi Hp' Hl Hs Hr Hw Ha. constructor; cbn [lane calls worker out]; auto.
  - by rewrite (debts_insert _ i jb p p').
  - apply Forall_insert; [done|exact Hp'].
  - by rewrite Hs.
  - by rewrite Hr.
  - by rewrite Hr.
  - rewrite H9. destruct s as [l cs w cl0 c0 o]. by apply emitted_lane_move.
Qed.

Lemma hole_producer n s i jb p l' p' m cl c :
  hole n s -> calls s !! i = Some (jb, p) -> pstep jb (lane s) p = Some (l', p', m) ->
  (m = Claim -> allocCursor (lane s) + 1 < 18446744073709551616) ->
  hole n (mkSystem l' (<[i := (jb, p')]> (calls s)) (worker s) cl c (out s)).
Proof.
  intros H Hi Hs Hb. pose proof H as [H1 H2 H3 H4 H5 H6 H7 H8 H9].
  pose proof (proj1 (Forall_lookup _ _) H5 i (jb, p) Hi) as Hp. cbn [snd] in Hp.
  pose proof (debts_in _ i jb p Hi) as Hd.
  destruct p as [|a|a|j| |j| |j k|j|res]; cbn [pstep hole_call debt] in *; [..|discriminate].
  - injection Hs as <- <- <-. apply (hole_call_step n s i jb PLoadAlloc); cbn [hole_call debt]; auto; lia.
  - destruct (_ <=? _) eqn:E; injection Hs as <- <- <-;
      apply (hole_call_step n s i jb (PLoadRead a)); cbn [hole_call debt]; auto; try lia.
    unfold localQuantaStreamUsable in E. destruct (decide (readCursor (lane s) <= a)); [|lia].
    rewrite u64_id in E by go_lia. lia.
  - destruct (_ =? a) eqn:E; injection Hs as <- <- <-.
    + apply Z.eqb_eq in E. specialize (Hb eq_refl). pose proof (debts_nonneg (calls s)).
      apply (hole_call_step n s i jb (PCas a)); cbn [hole_call debt]; auto; try lia.
      cbn. rewrite u64_id by go_lia. lia.
    + apply (hole_call_step n s i jb (PCas a)); cbn [hole_call debt]; auto; lia.
  - destruct (negb _); injection Hs as <- <- <-;
      apply (hole_call_step n s i jb (PCheck j)); cbn [hole_call debt]; auto; lia.
  - injection Hs as <- <- <-. apply (hole_call_step n s i jb PUndo); cbn [hole_call debt]; auto.
    cbn. rewrite u64_id by go_lia. lia.
  - destruct (j_proto jb); injection Hs as <- <- <-;
      apply (hole_call_step n s i jb (PMarshal j)); cbn [hole_call debt]; auto; lia.
  - injection Hs as <- <- <-. apply (hole_call_step n s i jb PUndoFail); cbn [hole_call debt]; auto.
    cbn. rewrite u64_id by go_lia. lia.
  - injection Hs as <- <- <-. destruct Hp as [Hp Hk].
    apply (hole_call_step n s i jb (PFill j k)); auto.
    + destruct (k <? 7)%nat eqn:E; cbn [hole_call]; [apply Nat.ltb_lt in E; lia|lia].
    + by rewrite lane_zlen_set_slot.
    + apply lane_slot_set_other. intros E. apply lane_pos_inj in E; lia.
    + destruct (k <? 7)%nat; cbn [debt]; cbn; lia.
  - injection Hs as <- <- <-. apply (hole_call_step n s i jb (PWrite j)); cbn [hole_call debt]; auto; cbn; [|lia].
    rewrite u64_id by go_lia. lia.
Qed.

Lemma hole_worker_step n s l' w' o :
  hole n s -> wstep (lane s) (worker s) = (l', w', o) ->
  hole n (mkSystem l' (calls s) w' (claimed s) (clean s) (match o with Some x => out s ++ [x] | None => out s end)).
Proof.
  intros [H1 H2 H3 H4 H5 H6 H7 H8 H9] Hs. unfold emitted in H9.
  destruct (worker s) as [lo|lo|lo k|k] eqn:Ew; cbn [wstep] in Hs.
  - destruct (_ <=? _); injection Hs as <- <- <-; constructor; auto; cbn; lia.
  - destruct (negb _) eqn:E; [injection Hs as <- <- <-; constructor; auto; cbn; lia|].
    apply negb_false_iff, Z.eqb_eq in E. injection Hs as <- <- <-.
    assert (readCursor (lane s) <> n) by (intros Er; rewrite Er in E; congruence).
    rewrite u64_id by go_lia. destruct (_ <=? _); constructor; auto; cbn; lia.
  - destruct (_ <? _) eqn:E; injection Hs as <- <- <-; constructor; auto; cbn; try lia.
    unfold emitted. cbn. rewrite zlen_app. unfold zlen in *. cbn. lia.
  - destruct (_ <? _) eqn:E; injection Hs as <- <- <-; constructor; auto; cbn; try lia.
    + rewrite <- (lane_zlen_set_slot _ k (clear_slot (slot_at (lane s) k))) in H1. exact H1.
    + destruct (decide (pos n = pos k)) as [Ep|Ep].
      * change (ready (slot_at (set_slot (lane s) k (clear_slot (slot_at (lane s) k))) n) = 0).
        by rewrite lane_slot_set_same.
      * change (ready (slot_at (set_slot (lane s) k (clear_slot (slot_at (lane s) k))) n) = 0).
        by rewrite lane_slot_set_other.
Qed.

Lemma hole_step n s s' : hole n s -> step s s' -> hole n s'.
Proof.
  intros H Hs. destruct Hs as [s jb|s i jb p l' p' m Hi Hp Hb|s l' w' o Hw].
  - destruct H as [H1 H2 H3 H4 H5 H6 H7 H8 H9]. constructor; cbn [lane calls worker out]; auto.
    + rewrite debts_app. cbn. unfold debts in *. cbn in *. lia.
    + apply Forall_app. split; [done|]. by apply Forall_singleton.
  - by eapply hole_producer.
  - by apply hole_worker_step.
Qed.

(** Nothing at or past a skipped index is ever flushed, and the cursors
    never meet again. *)
Lemma hole_stays n s s' :
  hole n s -> rtc step s s' -> zlen (out s') <= n /\ readCursor (lane s') < writeCursor (lane s').
Proof.
  intros H Hs. assert (hole n s') as H'.
  { revert H. induction Hs as [|s s1 s2 Hs _ IH]; [done|]. intros H. by apply IH, (hole_step n s). }
  destruct H' as [H1 H2 H3 H4 H5 H6 H7 H8 H9]. split; [|lia]. rewrite H9. unfold emitted.
  destruct (worker s'); lia.
Qed.
(** ** Runs *)

Lemma set_slot_id l j : zlen (slots l) = 8192 -> set_slot l j (slot_at l j) = l.
Proof.
  intros H. destruct l as [w a r sl]. unfold set_slot, slot_at. cbn [writeCursor allocCursor readCursor slots] in *.
  f_equal. apply list_insert_id. rewrite list_lookup_total_alt.
  destruct (lookup_lt_is_Some_2 sl (pos j)) as [x Hx]; [by apply (pos_lt (mkLane w a r sl))|]. by rewrite Hx.
Qed.

Lemma set_slot_twice l j a b : set_slot (set_slot l j a) j b = set_slot l j b.
Proof. unfold set_slot. cbn. by rewrite list_insert_insert_eq. Qed.

(** One step of call [i], the rest of the run following. *)
Lemma run_call s i jb p l' p' m s' :
  calls s !! i = Some (jb, p) -> pstep jb (lane s) p = Some (l', p', m) ->
  (m = Claim -> allocCursor (lane s) + 1 < 18446744073709551616) ->
  rtc step (mkSystem l' (<[i := (jb, p')]> (calls s)) (worker s)
              (match m with Claim => claimed s ++ [jb] | _ => claimed s end)
              (match m with Rollback => false | _ => clean s end) (out s)) s' ->
  rtc step s s'.
Proof. intros Hi Hp Hm. apply rtc_l. by econstructor. Qed.

Lemma run_worker s l' w' o s' :
  wstep (lane s) (worker s) = (l', w', o) ->
  rtc step (mkSystem l' (calls s) w' (claimed s) (clean s) (match o with Some x => out s ++ [x] | None => out s end)) s' ->
  rtc step s s'.
Proof. intros Hw. apply rtc_l. by constructor. Qed.

(** A call alone up to its claim. *)
Definition claimed_by (s : System) (jb : Job) : System :=
  let n := allocCursor (lane s) in
  mkSystem (set_alloc (lane s) (n + 1)) (calls s ++ [(jb, PCheck n)]) (worker s) (claimed s ++ [jb]) (clean s) (out s).

Lemma claim_run s jb :
  let n := allocCursor (lane s) in
  0 <= readCursor (lane s) <= n -> n - readCursor (lane s) < 8191 -> n + 1 < 18446744073709551616 ->
  rtc step s (claimed_by s jb).
Proof.
  intros n Hr Hn Hb. eapply rtc_l; [apply (step_call s jb)|].
  set (i := length (calls s)). assert (forall x, (calls s ++ [x]) !! i = Some x) as Hi
    by (intros; by apply list_lookup_middle).
  assert (forall x y, <[i := y]> (calls s ++ [x]) = calls s ++ [y]) as Hins.
  { intros x y. unfold i. by rewrite <- (Nat.add_0_r (length (calls s))), insert_app_r. }
  eapply run_call; [apply Hi|reflexivity|done|]. cbn [lane calls worker claimed clean out]. rewrite Hins.
  eapply run_call; [apply Hi| |done|].
  { cbn [pstep lane]. fold n. rewrite u64_id by go_lia. unfold localQuantaStreamUsable.
    by rewrite (proj2 (Z.leb_gt 8191 _)) by lia. }
  cbn [lane calls worker claimed clean out]. rewrite Hins.
  eapply run_call; [apply Hi| | |].
  { cbn [pstep lane]. fold n. by rewrite Z.eqb_refl. }
  { done. }
  cbn [lane calls worker claimed clean out]. rewrite Hins, u64_id by go_lia. apply rtc_refl.
Qed.

(** A call alone after it found its slot free. *)
Definition filled_by (s : System) (i : nat) (jb : Job) (j : Z) : System :=
  mkSystem (set_write (set_slot (lane s) j (fills 8 jb (slot_at (lane s) j))) (j + 1))
    (<[i := (jb, PDone (Some j))]> (calls s)) (worker s) (claimed s) (clean s) (out s).

Lemma finish_run s i jb j :
  calls s !! i = Some (jb, PMarshal j) -> is_Some (j_proto jb) -> zlen (slots (lane s)) = 8192 ->
  0 <= j < 18446744073709551615 -> rtc step s (filled_by s i jb j).
Proof.
  intros Hi [b Hb] Hl Hj. pose proof (lookup_lt_Some _ _ _ Hi) as Hlt.
  set (G := fun sl p => mkSystem (set_slot (lane s) j sl) (<[i := (jb, p)]> (calls s)) (worker s) (claimed s)
                          (clean s) (out s)).
  assert (forall sl k, (k < 7)%nat -> rtc step (G sl (PFill j k)) (G (fill k jb sl) (PFill j (S k)))) as Hfill.
  { intros sl k Hk. eapply run_call; [by apply list_lookup_insert_eq|reflexivity|done|].
    cbn [lane calls worker claimed clean out G]. rewrite (proj2 (Nat.ltb_lt k 7)) by done.
    rewrite lane_slot_set_same, set_slot_twice, list_insert_insert_eq by done. apply rtc_refl. }
  eapply run_call; [exact Hi|cbn [pstep]; rewrite Hb; reflexivity|done|].
  replace (mkSystem _ _ _ _ _ _) with (G (slot_at (lane s) j) (PFill j 0))
    by (unfold G; by rewrite set_slot_id).
  do 7 (etrans; [apply Hfill; lia|]).
  eapply run_call; [by apply list_lookup_insert_eq|reflexivity|done|].
  cbn [lane calls worker claimed clean out G]. rewrite lane_slot_set_same, set_slot_twice, list_insert_insert_eq by done.
  eapply run_call; [by apply list_lookup_insert_eq|reflexivity|done|].
  cbn [lane calls worker claimed clean out G]. rewrite list_insert_insert_eq, u64_id by go_lia. apply rtc_refl.
Qed.

(** A lane at rest: [n] calls have claimed and published an index each, the
    worker has read up to [r]. *)
Definition done_call (x : Job * pc) : Prop := exists o, snd x = PDone o.

Record quiet (n r : Z) (s : System) : Prop := mkQuiet {
  q_reach : reachable s;
  q_clean : clean s = true;
  q_claimed : zlen (claimed s) = n;
  q_write : writeCursor (lane s) = n;
  q_read : readCursor (lane s) = r;
  q_calls : Forall done_call (calls s);
  q_ready : forall j, r <= j < n -> ready (slot_at (lane s) j) = 1
}.

Lemma quiet_enqueue n r s jb :
  quiet n r s -> n - r < 8191 -> n < low s + 8192 -> n < 18446744073709551615 -> is_Some (j_proto jb) ->
  exists s', quiet (n + 1) r s' /\ worker s' = worker s /\ out s' = out s.
Proof.
  intros [H1 H2 H3 H4 H5 H6 H7] Hn Hlow Hb Hp. pose proof (lane_reachable_inv s H1 H2) as H.
  pose proof (inv_read s H) as Hrd. rewrite H3, H5 in Hrd. pose proof (inv_alloc s H) as Ha. rewrite H3 in Ha.
  set (s1 := claimed_by s jb). set (i := length (calls s)).
  assert (calls s1 !! i = Some (jb, PCheck n)) as Hi1.
  { unfold s1, claimed_by, i. cbn [calls]. rewrite Ha. by apply list_lookup_middle. }
  assert (ready (slot_at (lane s) n) = 0) as Hz.
  { destruct (inv_slots s H n) as [?|(Hx & _)]; [lia|done|lia]. }
  set (s2 := mkSystem (lane s1) (<[i := (jb, PMarshal n)]> (calls s1)) (worker s1) (claimed s1) (clean s1) (out s1)).
  assert (i < length (calls s1))%nat as Hlt by (by eapply lookup_lt_Some).
  assert (zlen (slots (lane s2)) = 8192) as Hlen by apply H.
  exists (filled_by s2 i jb n). split; [|done].
  assert (rtc step s (filled_by s2 i jb n)) as Hrun.
  { etrans; [apply (claim_run s jb); rewrite ?Ha, ?H5; lia|]. fold s1.
    eapply run_call; [exact Hi1| | |].
    { cbn [pstep]. change (slot_at (lane s1) n) with (slot_at (lane s) n). by rewrite Hz. }
    { done. }
    apply finish_run; [by apply list_lookup_insert_eq|done|done|lia]. }
  constructor; cbn [lane clean claimed calls filled_by s2 s1 claimed_by]; auto.
  - unfold reachable in *. by etrans.
  - rewrite zlen_app, H3. done.
  - rewrite list_insert_insert_eq. unfold i. rewrite <- (Nat.add_0_r (length (calls s))), insert_app_r.
    apply Forall_app. split; [done|]. apply Forall_singleton. by exists (Some n).
  - intros j Hj. change (ready (slot_at (set_slot (lane s2) n (fills 8 jb (slot_at (lane s2) n))) j) = 1).
    destruct (decide (j = n)) as [->|Hne]; [by rewrite lane_slot_set_same|].
    rewrite lane_slot_set_other by (intros E; apply lane_pos_inj in E; lia). apply (H7 j). lia.
Qed.

Lemma quiet_init : quiet 0 0 init.
Proof. constructor; try done; [apply rtc_refl|cbn; lia]. Qed.
(** ** Theorems *)

(** What the event of a call is once delivered. *)
Definition delivered (jb : Job) : Item :=
  job_item jb (default (mkCamp [] 0 0 []) (j_camp jb)).

Lemma delivers_known l o :
  Forall (fun jb => is_Some (j_camp jb)) l -> Forall2 delivers o l -> o = map delivered l.
Proof.
  intros Hf H. induction H as [|x jb o l [s0 ->] _ IH]; [done|].
  apply Forall_cons in Hf as [[c Hc] Hf]. cbn [map]. f_equal; [|by apply IH].
  unfold delivered. rewrite Hc. cbn [default]. exact (fills_item jb c s0 Hc).
Qed.

(** C7: As long as no call has had to take its claim back, the lane is exact
    under any interleaving of calls and worker: the events flushed are the
    first of those claimed, in claim order, each once and with the fields of
    its own call; a call that returned true owns the event at its index and
    shares it with no other.  A call only finds its slot taken when 8064
    events or more are waiting behind the read cursor. *)
Theorem lane_exact s :
  reachable s -> clean s = true -> Forall (fun jb => is_Some (j_camp jb)) (claimed s) ->
  out s = map delivered (take (length (out s)) (claimed s)) /\
  (forall i jb j, calls s !! i = Some (jb, PDone (Some j)) -> claimed s !! Z.to_nat j = Some jb) /\
  (forall i i' jb jb' j, calls s !! i = Some (jb, PDone (Some j)) -> calls s !! i' = Some (jb', PDone (Some j)) -> i = i') /\
  (forall i jb j, calls s !! i = Some (jb, PCheck j) -> ready (slot_at (lane s) j) <> 0 ->
     8064 <= zlen (claimed s) - readCursor (lane s)).
Proof.
  intros Hr Hc Hf. pose proof (lane_reachable_inv s Hr Hc) as H. split_and!.
  - pose proof (inv_out s H) as Ho. pose proof (Forall2_length _ _ _ Ho) as Hl.
    rewrite length_take in Hl. rewrite (delivers_known _ _ (Forall_take _ _ _ Hf) Ho) at 1. f_equal.
    rewrite Hl. destruct (decide (Z.to_nat (emitted s) <= length (claimed s))%nat).
    + by rewrite Nat.min_l by done.
    + rewrite Nat.min_r by lia. by rewrite !take_ge by lia.
  - intros i jb j Hi. by apply (inv_won s H i jb (PDone (Some j))).
  - intros i i' jb jb' j Hi Hi'. by apply (inv_uniq s H i i' jb jb' (PDone (Some j)) (PDone (Some j)) j).
  - intros i jb j Hi Hz. pose proof (inv_calls s H i jb _ Hi) as [Hj Hfree]. pose proof (inv_read s H).
    destruct (decide (j < low s + 8192)) as [Hw|]; [by destruct Hz; apply Hfree|lia].
Qed.

(** The last two calls of a list of calls. *)
Lemma pair_at_0 {A} (cs : list A) x y : (cs ++ [x; y]) !! length cs = Some x.
Proof. by apply list_lookup_middle. Qed.

Lemma pair_at_1 {A} (cs : list A) x y : (cs ++ [x; y]) !! S (length cs) = Some y.
Proof. rewrite lookup_app_r by lia. by replace (S _ - _)%nat with 1%nat by lia. Qed.

Lemma pair_set_0 {A} (cs : list A) x y z : <[length cs := z]> (cs ++ [x; y]) = cs ++ [z; y].
Proof. by rewrite <- (Nat.add_0_r (length cs)), insert_app_r. Qed.

Lemma pair_set_1 {A} (cs : list A) x y z : <[S (length cs) := z]> (cs ++ [x; y]) = cs ++ [x; z].
Proof. by rewrite <- (Nat.add_1_r (length cs)), insert_app_r. Qed.

Lemma slot_at_wrap l j : slot_at l (j + 8192) = slot_at l j.
Proof. unfold slot_at. by rewrite lane_pos_wrap. Qed.

(** The worker frees the first two slots of its batch. *)
Lemma free_two s lo :
  worker s = WClear lo -> lo + 2 <= readCursor (lane s) -> zlen (slots (lane s)) = 8192 ->
  exists sl, let l := mkLane (writeCursor (lane s)) (allocCursor (lane s)) (readCursor (lane s)) sl in
    rtc step s (mkSystem l (calls s) (WClear (lo + 2)) (claimed s) (clean s) (out s)) /\
    zlen sl = 8192 /\ ready (slot_at l lo) = 0 /\ ready (slot_at l (lo + 1)) = 0.
Proof.
  intros Hw Hr Hl.
  set (l4 := set_slot (lane s) lo (clear_slot (slot_at (lane s) lo))).
  set (l5 := set_slot l4 (lo + 1) (clear_slot (slot_at l4 (lo + 1)))).
  assert (zlen (slots l4) = 8192) as H4 by (unfold l4; by rewrite lane_zlen_set_slot).
  exists (slots l5). split_and!.
  - eapply run_worker; [rewrite Hw; cbn [wstep]; rewrite (proj2 (Z.ltb_lt _ _)) by lia; reflexivity|].
    eapply run_worker; [cbn [worker wstep]; rewrite (proj2 (Z.ltb_lt _ _)); [reflexivity|cbn; lia]|].
    replace (lo + 2) with (lo + 1 + 1) by lia. apply rtc_refl.
  - change (zlen (slots l5) = 8192). unfold l5. by rewrite lane_zlen_set_slot.
  - change (ready (slot_at l5 lo) = 0). unfold l5. rewrite lane_slot_set_other by (intros E; apply lane_pos_inj in E; lia).
    unfold l4. by rewrite lane_slot_set_same.
  - change (ready (slot_at l5 (lo + 1)) = 0). unfold l5. by rewrite lane_slot_set_same.
Qed.

(** Calls that hold no index leave a hole open. *)
Definition idle_call (x : Job * pc) : Prop := snd x = PLoadAlloc \/ done_call x.

Lemma idle_debts cs : Forall idle_call cs -> debts cs = 0.
Proof.
  induction 1 as [|[jb p] cs Hp _ IH]; [done|]. unfold debts in *. cbn in *.
  destruct Hp as [Ep|[o Ep]]; cbn in Ep; subst p; cbn; lia.
Qed.

Lemma idle_hole n cs : Forall idle_call cs -> Forall (fun x => hole_call n (snd x)) cs.
Proof.
  intros H. eapply Forall_impl; [exact H|]. intros [jb p] [Ep|[o Ep]]; cbn in *; by subst p.
Qed.

(** A full lane wedges for good.  When two calls claim the next two
    indices while the worker is about to free the slots of a batch, the first
    finds its slot taken and takes back the last claim, not its own: its index
    is never claimed again.  The second call returns true, and from then on,
    whatever calls and the worker do, no event past the skipped index is ever
    flushed and the cursors never meet, so the drain of [Close] does not end
    either. *)
Theorem rollback_wedges_lane s (j1 j2 : Job) :
  let n := zlen (claimed s) in
  reachable s -> clean s = true -> Forall done_call (calls s) ->
  worker s = WClear (n - 8192) -> n - 8189 <= readCursor (lane s) -> n < 18446744073709543424 ->
  is_Some (j_proto j2) ->
  exists s', rtc step s s' /\ (exists i, calls s' !! i = Some (j2, PDone (Some (n + 1)))) /\
    forall s'', rtc step s' s'' -> zlen (out s'') <= n /\ readCursor (lane s'') < writeCursor (lane s'').
Proof.
  intros n Hr Hc Hd Hw Hread Hn Hp. pose proof (lane_reachable_inv s Hr Hc) as H.
  pose proof (inv_read s H) as Hrd. pose proof (inv_alloc s H) as Ha. fold n in Ha, Hrd.
  assert (low s = n - 8192) as El by (unfold low; by rewrite Hw). rewrite El in Hrd.
  set (s1 := claimed_by s j1). set (s2 := claimed_by s1 j2).
  assert (allocCursor (lane s1) = n + 1) as Ha1 by (cbn; lia).
  assert (rtc step s s2) as R2.
  { etrans; [apply (claim_run s j1); lia|].
    apply (claim_run s1 j2); change (readCursor (lane s1)) with (readCursor (lane s)); lia. }
  assert (calls s2 = calls s ++ [(j1, PCheck n); (j2, PCheck (n + 1))]) as Ec2
    by (cbn; by rewrite Ha, <- app_assoc).
  assert (slot_at (lane s2) n = slot_at (lane s) (n - 8192)) as Es2.
  { change (slot_at (lane s) n = slot_at (lane s) (n - 8192)). rewrite <- (slot_at_wrap _ (n - 8192)). f_equal. lia. }
  (* the first finds its slot taken *)
  set (s3 := mkSystem (lane s2) (calls s ++ [(j1, PUndo); (j2, PCheck (n + 1))]) (worker s) (claimed s2) (clean s) (out s)).
  assert (rtc step s2 s3) as R3.
  { eapply (run_call s2 (length (calls s)) j1 (PCheck n)); [rewrite Ec2; apply pair_at_0| | |].
    { cbn [pstep]. rewrite Es2. destruct (inv_batch s H (n - 8192)) as (_ & Hr1 & _); [lia|]. by rewrite Hr1. }
    { done. }
    rewrite Ec2, pair_set_0. apply rtc_refl. }
  (* the worker frees two slots, the second call fills the second of them *)
  destruct (free_two s3 (n - 8192)) as (sl & R5 & Hl & Hz & Hz1); [done|cbn; lia|apply H|].
  set (l5 := mkLane _ _ _ sl) in *. set (s5 := mkSystem l5 _ _ _ _ _) in *.
  rewrite <- slot_at_wrap in Hz, Hz1. replace (n - 8192 + 8192) with n in Hz by lia.
  replace (n - 8192 + 1 + 8192) with (n + 1) in Hz1 by lia.
  set (s6 := mkSystem l5 (calls s ++ [(j1, PUndo); (j2, PMarshal (n + 1))]) (worker s5) (claimed s5) (clean s5) (out s5)).
  assert (rtc step s5 s6) as R6.
  { eapply (run_call s5 (S (length (calls s))) j2 (PCheck (n + 1))); [apply pair_at_1| | |].
    { cbn [pstep lane s5]. by rewrite Hz1. }
    { done. }
    cbn [calls s5 s3]. rewrite pair_set_1. apply rtc_refl. }
  set (s7 := filled_by s6 (S (length (calls s))) j2 (n + 1)).
  assert (rtc step s6 s7) as R7 by (apply finish_run; [apply pair_at_1|done|exact Hl|lia]).
  assert (calls s7 = calls s ++ [(j1, PUndo); (j2, PDone (Some (n + 1)))]) as Ec7
    by (cbn [calls s7 filled_by s6]; by rewrite pair_set_1).
  (* the first takes back the last claim *)
  set (s8 := mkSystem (set_alloc (lane s7) (n + 1)) (calls s ++ [(j1, PLoadAlloc); (j2, PDone (Some (n + 1)))])
               (worker s7) (claimed s7) false (out s7)).
  assert (rtc step s7 s8) as R8.
  { eapply (run_call s7 (length (calls s)) j1 PUndo); [rewrite Ec7; apply pair_at_0|reflexivity|done|].
    rewrite Ec7, pair_set_0. replace (allocCursor (lane s7) -u64 1) with (n + 1); [apply rtc_refl|].
    change (allocCursor (lane s7)) with (allocCursor (lane s1) + 1). rewrite Ha1, u64_id by go_lia. lia. }
  exists s8. split; [by do 5 (etrans; [eassumption|])|]. split; [eexists; apply pair_at_1|].
  intros s''. apply hole_stays.
  assert (Forall idle_call (calls s8)) as Hidle.
  { apply Forall_app. split; [eapply Forall_impl; [exact Hd|by right]|].
    apply Forall_cons_2; [by left|]. apply Forall_singleton. right. by eexists. }
  constructor; auto.
  - change (zlen (slots (set_slot l5 (n + 1) (fills 8 j2 (slot_at l5 (n + 1))))) = 8192). by rewrite lane_zlen_set_slot.
  - pose proof (zlen_nonneg (claimed s)). lia.
  - rewrite (idle_debts _ Hidle). cbn. lia.
  - cbn. lia.
  - by apply idle_hole.
  - change (ready (slot_at (set_slot l5 (n + 1) (fills 8 j2 (slot_at l5 (n + 1)))) n) = 0).
    by rewrite lane_slot_set_other by (intros E; apply lane_pos_inj in E; lia).
  - cbn. lia.
  - cbn. lia.
  - pose proof (Forall2_length _ _ _ (inv_out s H)) as Hol. rewrite length_take in Hol.
    unfold emitted in Hol. rewrite Hw in Hol.
    change (zlen (out s) = readCursor (lane s)). unfold n, zlen in *. lia.
Qed.
(** ** Concrete runs *)

Lemma quiet_worker n r s l' w' o :
  quiet n r s -> wstep (lane s) (worker s) = (l', w', o) -> writeCursor l' = n -> slots l' = slots (lane s) ->
  r <= readCursor l' ->
  exists s', quiet n (readCursor l') s' /\ worker s' = w' /\ step s s'.
Proof.
  intros [H1 H2 H3 H4 H5 H6 H7] Hs Hw Hsl Hr. eexists. split; [|split; [|exact (step_worker s l' w' o Hs)]; done].
  constructor; cbn [lane calls clean claimed]; auto.
  - unfold reachable in *. eapply rtc_r; [exact H1|by constructor].
  - intros j Hj. unfold slot_at. rewrite Hsl. apply H7. lia.
Qed.

(** The worker takes one more event. *)
Lemma quiet_take n r s lo :
  quiet n r s -> worker s = WLoop lo -> 0 <= r < n -> n < 18446744073709551616 -> r + 1 - lo < 128 ->
  exists s', quiet n (r + 1) s' /\ worker s' = WLoop lo.
Proof.
  intros Q Hw Hr Hn Hb. pose proof (q_write _ _ _ Q). pose proof (q_read _ _ _ Q) as Er.
  destruct (quiet_worker n r s (lane s) (WCheck lo) None Q) as (s1 & Q1 & Hw1 & _); auto; [|lia|].
  { rewrite Hw. cbn [wstep]. by rewrite (proj2 (Z.leb_gt _ _)) by lia. }
  rewrite Er in Q1. pose proof (q_write _ _ _ Q1). pose proof (q_read _ _ _ Q1) as Er1.
  destruct (quiet_worker n r s1 (set_read (lane s1) (r + 1)) (WLoop lo) None Q1) as (s2 & Q2 & Hw2 & _); auto.
  { rewrite Hw1. cbn [wstep]. rewrite Er1, (q_ready _ _ _ Q1) by lia. cbn [negb Z.eqb].
    rewrite u64_id by go_lia. unfold localQuantaStreamBatch. by rewrite (proj2 (Z.leb_gt _ _)) by lia. }
  { cbn. lia. }
  by exists s2.
Qed.

(** The worker flushes one more event of its batch. *)
Lemma quiet_flush n r s lo k :
  quiet n r s -> worker s = WFlush lo k -> k < r -> exists s', quiet n r s' /\ worker s' = WFlush lo (k + 1).
Proof.
  intros Q Hw Hk. pose proof (q_write _ _ _ Q). pose proof (q_read _ _ _ Q) as Er.
  destruct (quiet_worker n r s (lane s) (WFlush lo (k + 1)) (Some (item_of (slot_at (lane s) k))) Q)
    as (s1 & Q1 & Hw1 & _); auto; [|lia|].
  { rewrite Hw. cbn [wstep]. by rewrite (proj2 (Z.ltb_lt _ _)) by lia. }
  rewrite Er in Q1. by exists s1.
Qed.

Lemma quiet_end n s lo :
  quiet n n s -> worker s = WLoop lo -> exists s', quiet n n s' /\ worker s' = WFlush lo lo.
Proof.
  intros Q Hw. pose proof (q_write _ _ _ Q). pose proof (q_read _ _ _ Q) as Er.
  destruct (quiet_worker n n s (lane s) (WFlush lo lo) None Q) as (s1 & Q1 & Hw1 & _); auto; [|lia|].
  { rewrite Hw. cbn [wstep]. by rewrite (proj2 (Z.leb_le _ _)) by lia. }
  rewrite Er in Q1. by exists s1.
Qed.

Lemma quiet_flushed n r s lo :
  quiet n r s -> worker s = WFlush lo r -> exists s', quiet n r s' /\ worker s' = WClear lo.
Proof.
  intros Q Hw. pose proof (q_write _ _ _ Q). pose proof (q_read _ _ _ Q) as Er.
  destruct (quiet_worker n r s (lane s) (WClear lo) None Q) as (s1 & Q1 & Hw1 & _); auto; [|lia|].
  { rewrite Hw. cbn [wstep]. by rewrite (proj2 (Z.ltb_ge _ _)) by lia. }
  rewrite Er in Q1. by exists s1.
Qed.

Definition demo_job : Job := mkJob 0 [1] [7] [8] (Some [9; 9]) (Some (mkCamp [2] 0 0 [])) 5.

Lemma quiet_fill k n r s w :
  quiet n r s -> worker s = w -> low s = 0 -> n + Z.of_nat k <= 8192 -> n + Z.of_nat k - r <= 8191 ->
  exists s', quiet (n + Z.of_nat k) r s' /\ worker s' = w.
Proof.
  revert n s. induction k as [|k IH]; intros n s Q Hw El Hn Hr.
  - exists s. by rewrite Z.add_0_r.
  - destruct (quiet_enqueue n r s demo_job Q) as (s1 & Q1 & Hw1 & _); [lia|lia|lia|by eexists|].
    destruct (IH (n + 1) s1 Q1) as (s2 & Q2 & Hw2); [congruence| |lia|lia|].
    + unfold low in *. by rewrite Hw1.
    + exists s2. split; [|done]. by replace (n + Z.of_nat (S k)) with (n + 1 + Z.of_nat k) by lia.
Qed.

(** Three events are flushed and about to be freed; 8189 more wait. *)
Lemma full_lane : exists s, quiet 8192 3 s /\ worker s = WClear 0.
Proof.
  destruct (quiet_fill 3 0 0 init (WLoop 0) quiet_init) as (s1 & Q1 & W1); [done|done|lia|lia|].
  change (0 + Z.of_nat 3) with 3 in Q1.
  destruct (quiet_take 3 0 s1 0 Q1 W1) as (s2 & Q2 & W2); [lia|lia|lia|].
  destruct (quiet_take 3 1 s2 0 Q2 W2) as (s3 & Q3 & W3); [lia|lia|lia|].
  destruct (quiet_take 3 2 s3 0 Q3 W3) as (s4 & Q4 & W4); [lia|lia|lia|].
  destruct (quiet_end 3 s4 0 Q4 W4) as (s5 & Q5 & W5).
  destruct (quiet_flush 3 3 s5 0 0 Q5 W5) as (s6 & Q6 & W6); [lia|].
  destruct (quiet_flush 3 3 s6 0 1 Q6 W6) as (s7 & Q7 & W7); [lia|].
  destruct (quiet_flush 3 3 s7 0 2 Q7 W7) as (s8 & Q8 & W8); [lia|].
  destruct (quiet_flushed 3 3 s8 0 Q8 W8) as (s9 & Q9 & W9).
  destruct (quiet_fill (Z.to_nat 8189) 3 3 s9 (WClear 0) Q9 W9) as (s10 & Q10 & W10);
    [unfold low; by rewrite W9|lia|lia|].
  rewrite Z2Nat.id in Q10 by lia. exists s10. split; [exact Q10|exact W10].
Qed.

(** A scheduled run. *)
Inductive pick := Call (jb : Job) | Producer (i : nat) | Worker.

Definition exec_pick (s : System) (k : pick) : System :=
  match k with
  | Call jb => mkSystem (lane s) (calls s ++ [(jb, PLoadAlloc)]) (worker s) (claimed s) (clean s) (out s)
  | Producer i =>
      match calls s !! i with
      | None => s
      | Some (jb, p) =>
          match pstep jb (lane s) p with
          | None => s
          | Some (l', p', m) =>
              if 18446744073709551616 <=? allocCursor (lane s) + 1 then s
              else mkSystem l' (<[i := (jb, p')]> (calls s)) (worker s)
                     (match m with Claim => claimed s ++ [jb] | _ => claimed s end)
                     (match m with Rollback => false | _ => clean s end) (out s)
          end
      end
  | Worker =>
      let '(l', w', o) := wstep (lane s) (worker s) in
      mkSystem l' (calls s) w' (claimed s) (clean s) (match o with Some x => out s ++ [x] | None => out s end)
  end.

Lemma exec_reachable ks : reachable (foldl exec_pick init ks).
Proof.
  assert (forall s, reachable s -> reachable (foldl exec_pick s ks)) as H; [|apply H, rtc_refl].
  induction ks as [|k ks IH]; intros s Hs; [done|]. apply IH. destruct k as [jb|i|]; cbn [exec_pick].
  - eapply rtc_r; [exact Hs|constructor].
  - destruct (calls s !! i) as [[jb p]|] eqn:Ei; [|done].
    destruct (pstep jb (lane s) p) as [[[l' p'] m]|] eqn:Ep; [|done].
    destruct (_ <=? _) eqn:Eb; [done|]. eapply rtc_r; [exact Hs|]. eapply step_producer; eauto. lia.
  - destruct (wstep (lane s) (worker s)) as [[l' w'] o] eqn:Ew. eapply rtc_r; [exact Hs|by constructor].
Qed.

Definition one_event : System :=
  foldl exec_pick init (Call demo_job :: replicate 14 (Producer 0) ++ replicate 6 Worker).

Lemma lane_exact_witness :
  out one_event = map delivered (take 1 (claimed one_event)) /\
  out one_event = [mkItem [1] [2] 5 [7] [8] 0 0 [] [9; 9]].
Proof.
  split; [|by vm_compute]. change 1%nat with (length (out one_event)) at 1.
  apply (lane_exact one_event); [apply exec_reachable|by vm_compute|].
  replace (claimed one_event) with [demo_job] by (by vm_compute). repeat constructor. by eexists.
Defined.

Lemma rollback_wedges_lane_witness :
  exists s s', reachable s /\ rtc step s s' /\ (exists i, calls s' !! i = Some (demo_job, PDone (Some 8193))) /\
    forall s'', rtc step s' s'' -> zlen (out s'') <= 8192 /\ readCursor (lane s'') < writeCursor (lane s'').
Proof.
  destruct full_lane as (s & [H1 H2 H3 H4 H5 H6 H7] & Hw).
  destruct (rollback_wedges_lane s demo_job demo_job) as (s' & R & D & F); [done|done|done| | | | |].
  - by rewrite H3.
  - rewrite H3, H5. lia.
  - rewrite H3. lia.
  - by eexists.
  - rewrite H3 in D, F. by exists s, s'.
Defined.

End StreamLane.
