(* ===== verification/LaneFlush.v ===== *)
(** * Flush of the local quota stream lane

    Models [flushShardPipeline] of [internal/stream/local_quanta_stream.go]:
    what the worker of a lane does in Redis with a batch of events - the click
    markers, the event stream, the spend counters the sync worker drains and
    the frequency counters.  The shard is the [Store] of [DebitScripts], so
    the keys are those the filter scripts use.  A pipeline is answered, or is
    cut after any number of its commands took effect.  The order in which Go
    ranges over the totals is a parameter. *)

From S2P Require Import Prelude RedisKeys DebitScripts StreamLane.
Open Scope Z_scope.

Module LaneFlush.

Import RedisKeys DebitScripts StreamLane.

(** ** Pipelines *)

Inductive Cmd :=
  | CSetNX (k : list Z) (ttl : Z) | CXAdd (k : list Z) (d : list Z) | CIncrBy (k : list Z) (d : Z)
  | CSAdd (k m : list Z) | CExpire (k : list Z) (t : Z).

(** The reply is [Some true] unless the command fails or finds a marker. *)
Definition run_cmd (c : Cmd) : Script bool :=
  match c with
  | CSetNX k ttl => SETNX k (RInt 1) (Some ttl)
  | CXAdd k d => XADD k [RStr (lit "d"); RStr d] ;~ sret true
  | CIncrBy k d => INCRBY k d ;~ sret true
  | CSAdd k m => SADD k m ;~ sret true
  | CExpire k t => EXPIRE k (Some t) ;~ sret true
  end.

Fixpoint exec (cs : list Cmd) (s : Store) : Store * list (option bool) :=
  match cs with
  | [] => (s, [])
  | c :: cs => let '(s1, r) := run_cmd c s in let '(s2, rs) := exec cs s1 in (s2, r :: rs)
  end.

(** [Exec] of a pipeline: the replies, or an error when the connection is cut
    after some commands ([Some n]) or a command answers with an error. *)
Definition pipeline (fate : option nat) (cs : list Cmd) (s : Store) : Store * option (list bool) :=
  match fate with
  | Some n => (fst (exec (take n cs) s), None)
  | None => let '(s', rs) := exec cs s in (s', mapM id rs)
  end.

(** ** The batch *)

Record Publisher := mkPub { stream : list Z; idemTTL : Z }.
Record Fates := mkFates { f_idem : option nat; f_xadd : option nat; f_sync : option nat }.

Definition uuid_Nil : list Z := replicate 16 0.
Definition idemKey (it : Item) : list Z := lit "idempotency:click:" ++ it_click it.
Definition hasClick (it : Item) : bool := negb (bool_decide (it_click it = [])).
Definition fcapKey (it : Item) : list Z := it_fcap it ++ it_user it.
Definition counts_fcap (it : Item) : bool :=
  (0 <? it_limit it) && negb (bool_decide (it_user it = [])) && negb (bool_decide (it_fcap it = [])).

Definition items (slots : list Item) : list Item :=
  List.filter (fun it => negb (bool_decide (it_data it = []))) slots.

(** The items whose marker was set, or that have no click id. *)
Fixpoint accepted (its : list Item) (oks : list bool) : list Item :=
  match its with
  | [] => []
  | it :: its =>
      if hasClick it then
        match oks with
        | [] => []
        | ok :: oks => if ok then it :: accepted its oks else accepted its oks
        end
      else it :: accepted its oks
  end.

(** The first pipeline: the accepted items, [None] when it fails. *)
Definition claim_clicks (p : Publisher) (fate : option nat) (its : list Item) (s : Store)
    : Store * option (list Item) :=
  if existsb hasClick its then
    let '(s1, r) := pipeline fate (map (fun it => CSetNX (idemKey it) (idemTTL p)) (List.filter hasClick its)) s in
    (s1, oks ← r; Some (accepted its oks))
  else (s, Some its).

Definition has_stream (p : Publisher) : bool :=
  negb (bool_decide (stream p = fcap_ignored)) && negb (bool_decide (stream p = [])).

(** The second: whether every event was appended. *)
Definition write_events (p : Publisher) (fate : option nat) (acc : list Item) (s : Store) : Store * bool :=
  if has_stream p then
    let '(s', r) := pipeline fate (map (fun it => CXAdd (stream p) (it_data it)) acc) s in
    (s', match r with Some _ => true | None => false end)
  else (s, true).

(** [syncTotals]. *)
Definition books (it : Item) : bool := (0 <? it_amount it) && negb (bool_decide (it_customer it = uuid_Nil)).
Definition add_total (m : gmap (list Z * list Z) Z) (it : Item) : gmap (list Z * list Z) Z :=
  if books it then
    let k := (it_campaign it, it_customer it) in <[k := default 0 (m !! k) +64 it_amount it]> m
  else m.
Definition syncTotals (acc : list Item) : gmap (list Z * list Z) Z := foldl add_total ∅ acc.

Section flush.
Context (uuid_String : list Z -> list Z).
Context (shuffle : list (list Z * list Z * Z) -> list (list Z * list Z * Z)).
Context (shuffle_perm : forall l, shuffle l ≡ₚ l).

Definition total_cmds (x : list Z * list Z * Z) : list Cmd :=
  let '(camp, cust, amt) := x in
  if amt <=? 0 then []
  else [CIncrBy (lane_campaign_sync_key uuid_String camp) amt;
        CIncrBy (lane_customer_sync_key uuid_String cust) amt;
        CSAdd (lit "budget:dirty_campaigns") (uuid_String camp);
        CSAdd (lit "budget:dirty_customers") (uuid_String cust)].

Definition fcap_cmds (it : Item) : list Cmd :=
  if counts_fcap it then [CIncrBy (fcapKey it) 1; CExpire (fcapKey it) (it_window it)] else [].

Definition sync_cmds (acc : list Item) : list Cmd :=
  concat (map total_cmds (shuffle (map_to_list (syncTotals acc)))) ++ concat (map fcap_cmds acc).

Definition flushShardPipeline (p : Publisher) (e : Fates) (slots : list Item) (s : Store) : Store * Z :=
  let its := items slots in
  match claim_clicks p (f_idem e) its s with
  | (s1, None) => (s1, 0)
  | (s1, Some acc) =>
      if bool_decide (acc = []) then (s1, 0)
      else let '(s2, ok) := write_events p (f_xadd e) acc s1 in
        if ok then (fst (pipeline (f_sync e) (sync_cmds acc) s2), zlen acc) else (s2, 0)
  end.

(** ** Sequences of batches

    [log] collects the items whose click was won. *)
Definition won (p : Publisher) (e : Fates) (slots : list Item) (s : Store) : list Item :=
  default [] (snd (claim_clicks p (f_idem e) (items slots) s)).

Fixpoint flush_all (p : Publisher) (bs : list (Fates * list Item)) (s : Store) : Store * list Item :=
  match bs with
  | [] => (s, [])
  | (e, slots) :: bs =>
      let '(s', log) := flush_all p bs (fst (flushShardPipeline p e slots s)) in
      (s', won p e slots s ++ log)
  end.

(** ** Counters *)

Definition cnt (s : Store) (k : list Z) : Z := match kv s !! k with Some (RInt n) => n | _ => 0 end.
Definition is_counter (s : Store) (k : list Z) : Prop :=
  match kv s !! k with Some (RStr _) => False | _ => True end.

(** What a command adds to the counter [k] when it succeeds. *)
Definition weight (k : list Z) (c : Cmd) : Z :=
  match c with CIncrBy k' d => if bool_decide (k' = k) then d else 0 | _ => 0 end.
Definition weights (k : list Z) (cs : list Cmd) : Z := sumZ (map (weight k) cs).

(** The command does nothing to [k] but add to it. *)
Definition tame (k : list Z) (c : Cmd) : Prop :=
  match c with CSetNX k' _ | CExpire k' _ => k' <> k | CIncrBy _ d => 0 <= d | _ => True end.

Lemma weights_app k l1 l2 : weights k (l1 ++ l2) = weights k l1 + weights k l2.
Proof. unfold weights. rewrite map_app. apply sumZ_app. Qed.

Lemma weight_nonneg k c : tame k c -> 0 <= weight k c.
Proof. destruct c; cbn; try lia. intros. case_bool_decide; lia. Qed.

Lemma weights_nonneg k cs : Forall (tame k) cs -> 0 <= weights k cs.
Proof.
  induction 1 as [|c cs Hc _ IH]; [done|]. unfold weights in *. cbn. pose proof (weight_nonneg k c Hc). lia.
Qed.

Lemma incrby_count k d s :
  let s' := fst (INCRBY k d s) in
  (is_counter s k -> is_counter s' k) /\ (cnt s' k = cnt s k \/ cnt s' k = cnt s k + d) /\
  (is_counter s k -> in_i64 (cnt s k + d) -> cnt s' k = cnt s k + d).
Proof.
  unfold INCRBY. assert (forall x, kv s !! k = Some (RStr x) -> ~ is_counter s k) as Hx
    by (intros x E; unfold is_counter; rewrite E; auto).
  assert (forall n, default (RInt 0) (kv s !! k) = RInt n -> cnt s k = n) as Hn
    by (unfold cnt; intros n; destruct (kv s !! k) as [[]|]; cbn; congruence).
  destruct (default (RInt 0) (kv s !! k)) as [n|x] eqn:Ed; cbn [fst].
  - rewrite (Hn n eq_refl). case_bool_decide as Hr; cbn [fst];
      [|rewrite (Hn n eq_refl); split_and!; auto; intros; by exfalso].
    assert (kv (with_kv s (<[k := RInt (n + d)]> (kv s))) !! k = Some (RInt (n + d))) as E by apply lookup_insert_eq.
    unfold cnt, is_counter. rewrite E. split_and!; auto.
  - split_and!; auto. destruct (kv s !! k) as [[]|] eqn:E; cbn in Ed; [done| |done].
    intros H. by destruct (Hx _ eq_refl H).
Qed.

Lemma run_cmd_count k c s :
  tame k c ->
  let s' := fst (run_cmd c s) in
  (is_counter s k -> is_counter s' k) /\
  (cnt s' k = cnt s k \/ cnt s' k = cnt s k + weight k c) /\
  (is_counter s k -> in_i64 (cnt s k + weight k c) -> cnt s' k = cnt s k + weight k c).
Proof.
  assert (forall s', kv s' !! k = kv s !! k ->
    (is_counter s k -> is_counter s' k) /\ (cnt s' k = cnt s k \/ cnt s' k = cnt s k + 0) /\
    (is_counter s k -> in_i64 (cnt s k + 0) -> cnt s' k = cnt s k + 0)) as Hsame.
  { intros s' E. unfold cnt, is_counter. rewrite E. split_and!; auto; lia. }
  destruct c as [k' t|k' d|k' d|k' m|k' t]; cbn [tame weight]; intros Ht.
  - apply Hsame, frames_setnx. congruence.
  - by apply Hsame.
  - assert (fst (run_cmd (CIncrBy k' d) s) = fst (INCRBY k' d s)) as -> by (cbn; unfold sbind; by destruct (INCRBY k' d s) as [? []]).
    case_bool_decide as Ek; [subst k'; apply incrby_count|].
    + apply Hsame. pose proof (frames_incr k k' d) as Hf. exact (Hf ltac:(congruence) s).
  - by apply Hsame.
  - apply Hsame. unfold run_cmd, sbind, EXPIRE. case_if; [done|]. cbn. rewrite lookup_delete_ne; [done|congruence].
Qed.

Lemma exec_count k cs s :
  Forall (tame k) cs ->
  let s' := fst (exec cs s) in
  (is_counter s k -> is_counter s' k) /\ cnt s k <= cnt s' k <= cnt s k + weights k cs /\
  (is_counter s k -> in_i64 (cnt s k) -> in_i64 (cnt s k + weights k cs) -> cnt s' k = cnt s k + weights k cs).
Proof.
  revert s. induction cs as [|c cs IH]; intros s H; cbn [exec].
  - unfold weights. cbn. split_and!; auto; lia.
  - apply Forall_cons in H as [Hc H]. destruct (run_cmd_count k c s Hc) as (H1 & H2 & H3).
    pose proof (weight_nonneg k c Hc). pose proof (weights_nonneg k cs H).
    destruct (run_cmd c s) as [s1 r]. cbn [fst] in *. destruct (IH s1 H) as (I1 & I2 & I3).
    destruct (exec cs s1) as [s2 rs]. cbn [fst] in *. change (weights k (c :: cs)) with (weight k c + weights k cs).
    split_and!; [auto|lia|lia|]. intros Hk Hi Hr. unfold in_i64 in *.
    assert (cnt s1 k = cnt s k + weight k c) as E1 by (apply H3; [done|lia]). rewrite E1 in I3.
    rewrite I3; auto; lia.
Qed.

Lemma take_tame k cs n : Forall (tame k) cs -> Forall (tame k) (take n cs) /\ weights k (take n cs) <= weights k cs.
Proof.
  intros H. rewrite <- (take_drop n cs) in H. apply Forall_app in H as [H1 H2]. split; [done|].
  rewrite <- (take_drop n cs) at 2. rewrite weights_app. pose proof (weights_nonneg k _ H2). lia.
Qed.

Lemma pipeline_count k fate cs s :
  Forall (tame k) cs ->
  let s' := fst (pipeline fate cs s) in
  (is_counter s k -> is_counter s' k) /\ cnt s k <= cnt s' k <= cnt s k + weights k cs /\
  (fate = None -> is_counter s k -> in_i64 (cnt s k) -> in_i64 (cnt s k + weights k cs) ->
   cnt s' k = cnt s k + weights k cs).
Proof.
  intros H. destruct fate as [n|]; cbn [pipeline fst].
  - destruct (take_tame k cs n H) as [Ht Hw]. destruct (exec_count k (take n cs) s Ht) as (H1 & H2 & _).
    split_and!; [done|lia|lia|done].
  - destruct (exec_count k cs s H) as (H1 & H2 & H3). destruct (exec cs s) as [s' rs]. cbn [fst] in *. auto.
Qed.

(** ** Click markers *)

Definition marked (s : Store) (c : list Z) : bool :=
  match kv s !! (lit "idempotency:click:" ++ c) with Some _ => true | None => false end.

(** The items whose click has no marker, the first of each click. *)
Fixpoint fresh (s : Store) (seen : list (list Z)) (its : list Item) : list Item :=
  match its with
  | [] => []
  | it :: its =>
      if hasClick it then
        if marked s (it_click it) || bool_decide (it_click it ∈ seen) then fresh s seen its
        else it :: fresh s (it_click it :: seen) its
      else it :: fresh s seen its
  end.

Definition clicks (its : list Item) : list (list Z) := map it_click (List.filter hasClick its).

Definition claims (ttl : Z) (its : list Item) : list Cmd :=
  map (fun it => CSetNX (idemKey it) ttl) (List.filter hasClick its).

Lemma idemKey_inj it c : idemKey it = lit "idempotency:click:" ++ c -> it_click it = c.
Proof. apply app_inv_head. Qed.

Lemma marked_ext s s' : kv s' = kv s -> forall c, marked s' c = marked s c.
Proof. intros E c. unfold marked. by rewrite E. Qed.

Lemma setnx_marks ttl it s :
  0 < ttl ->
  let s' := fst (SETNX (idemKey it) (RInt 1) (Some ttl) s) in
  snd (SETNX (idemKey it) (RInt 1) (Some ttl) s) = Some (negb (marked s (it_click it))) /\
  (forall c, marked s' c = marked s c || bool_decide (it_click it = c)) /\
  sets s' = sets s /\ streams s' = streams s.
Proof.
  intros Ht. unfold SETNX, ttl_ok, marked, idemKey. rewrite (proj2 (Z.ltb_lt 0 ttl) Ht). cbn [negb].
  destruct (kv s !! (lit "idempotency:click:" ++ it_click it)) eqn:E; cbn [fst snd negb];
    (split; [done|split; [|done]]); intros c.
  - case_bool_decide as Ec; [subst c; by rewrite E|by rewrite orb_false_r].
  - cbn [kv with_kv]. case_bool_decide as Ec; [subst c; by rewrite lookup_insert_eq, orb_true_r|].
    rewrite lookup_insert_ne, orb_false_r; [done|]. intros ?%app_inv_head. done.
Qed.

Lemma exec_claims ttl its s0 seen s :
  0 < ttl -> (forall c, marked s c = marked s0 c || bool_decide (c ∈ seen)) ->
  exists s' oks, exec (claims ttl its) s = (s', Some <$> oks) /\ accepted its oks = fresh s0 seen its /\
    (forall c, marked s' c = marked s c || bool_decide (c ∈ clicks its)) /\
    sets s' = sets s /\ streams s' = streams s.
Proof.
  intros Ht. revert seen s. induction its as [|it its IH]; intros seen s Hs; cbn [claims clicks List.filter map].
  - exists s, []. split_and!; try done. intros c. rewrite bool_decide_eq_false_2 by apply not_elem_of_nil.
    by rewrite orb_false_r.
  - unfold claims, clicks in *. cbn [List.filter fresh accepted]. destruct (hasClick it) eqn:Eh.
    + cbn [map exec run_cmd]. destruct (setnx_marks ttl it s Ht) as (Er & Em & E1 & E2).
      destruct (SETNX (idemKey it) (RInt 1) (Some ttl) s) as [s1 r]. cbn [fst snd] in *. subst r.
      destruct (IH (if marked s (it_click it) then seen else it_click it :: seen) s1) as (s' & oks & Ee & Ea & Ef & E3 & E4).
      { intros c. rewrite Em, Hs. destruct (marked s (it_click it)) eqn:E.
        - destruct (decide (it_click it = c)) as [<-|Ec]; [by rewrite <- Hs, E|].
          by rewrite (bool_decide_eq_false_2 _ Ec), orb_false_r.
        - rewrite <- orb_assoc. f_equal. apply eq_true_iff_eq. rewrite orb_true_iff, !bool_decide_eq_true, elem_of_cons.
          naive_solver. }
      exists s', (negb (marked s (it_click it)) :: oks). rewrite Ee. split; [done|]. rewrite <- Hs.
      split; [|split; [|split; congruence]].
      * destruct (marked s (it_click it)); cbn [negb]; by rewrite Ea.
      * intros c. rewrite Ef, Em, <- orb_assoc. f_equal. apply eq_true_iff_eq.
        rewrite orb_true_iff, !bool_decide_eq_true, elem_of_cons. naive_solver.
    + destruct (IH seen s Hs) as (s' & oks & Ee & Ea & Ef). exists s', oks. by rewrite Ee, Ea.
Qed.

Lemma fresh_fresh s seen its :
  NoDup (clicks (fresh s seen its)) /\
  Forall (fun c => marked s c = false /\ c ∉ seen /\ c ∈ clicks its) (clicks (fresh s seen its)).
Proof.
  revert seen. induction its as [|it its IH]; intros seen; cbn [fresh]; [by repeat constructor|].
  unfold clicks in *. cbn [List.filter].
  destruct (hasClick it) eqn:Eh; [|cbn [List.filter]; rewrite Eh; exact (IH seen)].
  destruct (marked s (it_click it)) eqn:Em; cbn [orb map].
  { destruct (IH seen) as [I1 I2]. split; [done|]. eapply Forall_impl; [exact I2|]. set_solver. }
  case_bool_decide as Es; cbn [List.filter]; rewrite ?Eh; cbn [map].
  { destruct (IH seen) as [I1 I2]. split; [done|]. eapply Forall_impl; [exact I2|]. set_solver. }
  destruct (IH (it_click it :: seen)) as [I1 I2]. split; constructor; try done.
  - intros Hi. rewrite Forall_forall in I2. destruct (I2 _ Hi) as (_ & H & _). set_solver.
  - split_and!; [done|done|set_solver].
  - eapply Forall_impl; [exact I2|]. set_solver.
Qed.

Lemma mapM_some (l : list bool) : mapM id (Some <$> l) = Some l.
Proof. induction l as [|b l IH]; [done|]. cbn. by rewrite IH. Qed.

(** ** Totals *)

Definition counter_of (x : list Z * list Z) : list Z := lane_campaign_sync_key uuid_String (fst x).

(** What the accepted items book on the counter [k]. *)
Definition spend (k : list Z) (acc : list Item) : Z :=
  sumZ (map (fun it => if books it && bool_decide (counter_of (it_campaign it, it_customer it) = k)
                       then it_amount it else 0) acc).
Definition booked (acc : list Item) : Z := sumZ (map (fun it => if books it then it_amount it else 0) acc).

Definition share (k : list Z) (x : list Z * list Z * Z) : Z :=
  if bool_decide (counter_of (fst x) = k) then snd x else 0.
Definition shares (k : list Z) (m : gmap (list Z * list Z) Z) : Z := map_total (share k) m.

Lemma shares_insert k i v m :
  shares k (<[i := v]> m) = shares k m - share k (i, default 0 (m !! i)) + share k (i, v).
Proof.
  unfold shares. rewrite map_total_insert. unfold weight_at, share.
  destruct (m !! i); cbn [default from_option fst snd]; unfold id; case_bool_decide; lia.
Qed.

Lemma spend_cons k it acc : spend k (it :: acc) = spend k [it] + spend k acc.
Proof. unfold spend. cbn. lia. Qed.

Lemma booked_cons it acc : booked (it :: acc) = booked [it] + booked acc /\ 0 <= booked [it].
Proof. unfold booked, books. cbn. split; [lia|]. destruct (0 <? it_amount it) eqn:E; cbn; [case_if; lia|lia]. Qed.

Lemma booked_one it : booked [it] = if books it then it_amount it else 0.
Proof. unfold booked. cbn. lia. Qed.

Lemma spend_one k it :
  spend k [it] = if books it && bool_decide (counter_of (it_campaign it, it_customer it) = k) then it_amount it else 0.
Proof. unfold spend. cbn. lia. Qed.

Lemma booked_nonneg acc : 0 <= booked acc.
Proof. induction acc as [|it acc IH]; [done|]. destruct (booked_cons it acc). lia. Qed.

Lemma spend_nonneg k acc : 0 <= spend k acc.
Proof.
  induction acc as [|it acc IH]; [done|]. rewrite spend_cons. unfold spend at 1, books. cbn.
  destruct (0 <? it_amount it) eqn:E; cbn; [repeat case_if; lia|lia].
Qed.

(** No total wraps while the sum of the amounts fits. *)
Lemma totals_shares k acc m b :
  (forall i, 0 <= default 0 (m !! i) <= b) -> b + booked acc < 2 ^ 63 ->
  let m' := foldl add_total m acc in
  shares k m' = shares k m + spend k acc /\ (forall i, 0 <= default 0 (m' !! i)).
Proof.
  revert m b. induction acc as [|it acc IH]; intros m b Hm Hb; cbn [foldl].
  - unfold spend. cbn. split; [lia|]. intros i. apply Hm.
  - destruct (booked_cons it acc) as [Eb Hb1]. pose proof (booked_nonneg acc). rewrite spend_cons.
    pose proof (booked_one it) as E1. pose proof (spend_one k it) as E2. unfold add_total at 2 4.
    destruct (books it) eqn:Ek; cbn [andb] in E2; rewrite E2.
    + assert (0 < it_amount it) by (unfold books in Ek; apply andb_true_iff in Ek; lia).
      set (i := (it_campaign it, it_customer it)) in *. pose proof (Hm i).
      assert (default 0 (m !! i) +64 it_amount it = default 0 (m !! i) + it_amount it) as Ew
        by (apply i64_id; unfold_ranges; lia).
      destruct (IH (<[i := default 0 (m !! i) +64 it_amount it]> m) (b + it_amount it)) as [I1 I2]; [|lia|].
      { intros j. destruct (decide (j = i)) as [->|Hj]; [|].
        { rewrite lookup_insert_eq. change (0 <= default 0 (m !! i) +64 it_amount it <= b + it_amount it).
          rewrite Ew. lia. }
        rewrite lookup_insert_ne by done. pose proof (Hm j). lia. }
      split; [|exact I2]. rewrite I1, shares_insert, Ew. unfold share. cbn [fst snd]. case_bool_decide; lia.
    + destruct (IH m b Hm) as [I1 I2]; [lia|]. split; [|done]. rewrite I1. lia.
Qed.

Lemma total_cmds_weight k x :
  (exists c, k = lane_campaign_sync_key uuid_String c) -> 0 <= snd x ->
  weights k (total_cmds x) = share k x /\ Forall (tame k) (total_cmds x).
Proof.
  intros [c ->] Hx. destruct x as [[camp cust] amt]. cbn [snd] in Hx.
  assert (lane_customer_sync_key uuid_String cust <> lane_campaign_sync_key uuid_String c) as Hne by done.
  unfold total_cmds, share, counter_of, weights. cbn [fst snd]. destruct (amt <=? 0) eqn:E.
  - assert (amt = 0) by lia. subst. split; [|constructor]. cbn. by case_bool_decide.
  - split; [|by repeat constructor]. cbn [map weight sumZ foldr]. rewrite (bool_decide_eq_false_2 _ Hne).
    case_bool_decide; cbn; lia.
Qed.

(** The frequency prefix of an item is a [fcap] key, not one of the click
    markers or the spend counters: these start with [i] and [b]. *)
Definition fcap_apart (it : Item) : Prop := counts_fcap it = true -> head (it_fcap it) <> Some 105 /\ head (it_fcap it) <> Some 98.

Lemma fcap_key_apart it x y :
  fcap_apart it -> counts_fcap it = true ->
  fcapKey it <> lit "idempotency:click:" ++ x /\ fcapKey it <> lit "budget:sync:" ++ y.
Proof.
  intros Ha Hc. specialize (Ha Hc). unfold counts_fcap in Hc. unfold fcapKey.
  destruct (it_fcap it) as [|h l]; [by rewrite andb_false_r in Hc|].
  split; intros E; apply (f_equal head) in E; destruct Ha as [H1 H2]; [by destruct H1|by destruct H2].
Qed.

Lemma sync_cmds_tame c acc :
  Forall fcap_apart acc -> booked acc < 2 ^ 63 ->
  let k := lane_campaign_sync_key uuid_String c in
  Forall (tame k) (sync_cmds acc) /\ weights k (sync_cmds acc) = spend k acc.
Proof.
  intros Ha Hb k. unfold sync_cmds. destruct (totals_shares k acc ∅ 0) as [Hs Hp];
    [intros i; rewrite lookup_empty; cbn; unfold id; lia|lia|].
  fold (syncTotals acc) in Hs, Hp.
  assert (forall l, Forall (fun x => 0 <= snd x) l ->
    Forall (tame k) (concat (map total_cmds l)) /\ weights k (concat (map total_cmds l)) = sumZ (map (share k) l)) as Ht.
  { induction 1 as [|x l Hx _ [I1 I2]]; [by split; [constructor|]|]. cbn [map concat sumZ].
    destruct (total_cmds_weight k x) as [W1 W2]; [by exists c|done|].
    rewrite weights_app, W1, I2. split; [by apply Forall_app|done]. }
  assert (Forall (tame k) (concat (map fcap_cmds acc)) /\ weights k (concat (map fcap_cmds acc)) = 0) as [F1 F2].
  { clear -Ha. induction Ha as [|it acc Hi _ [I1 I2]]; [by split; [constructor|]|]. cbn [map concat].
    unfold fcap_cmds at 1 3. destruct (counts_fcap it) eqn:Ec; [|done].
    destruct (fcap_key_apart it [] (lit "campaign:" ++ uuid_String c) Hi Ec) as [_ Hne].
    rewrite weights_app, I2. unfold weights. cbn [map weight sumZ].
    rewrite (bool_decide_eq_false_2 _ Hne). split; [|done].
    cbn [app]. constructor; [cbn; lia|]. by constructor. }
  destruct (Ht (shuffle (map_to_list (syncTotals acc)))) as [T1 T2].
  { rewrite shuffle_perm, Forall_forall. intros [i v] Hi%elem_of_map_to_list. specialize (Hp i). by rewrite Hi in Hp. }
  split; [by apply Forall_app|].
  rewrite weights_app, F2, T2, (sumZ_perm _ _ (Permutation_map (share k) (shuffle_perm _))).
  change (shares k (syncTotals acc) + 0 = spend k acc). rewrite Hs. unfold shares, map_total. rewrite map_to_list_empty. cbn. lia.
Qed.

Lemma claims_tame ttl c its : Forall (tame (lane_campaign_sync_key uuid_String c)) (claims ttl its) /\
  weights (lane_campaign_sync_key uuid_String c) (claims ttl its) = 0.
Proof.
  unfold claims. induction (List.filter hasClick its) as [|it l [I1 I2]]; [by split; [constructor|]|].
  split; [by constructor|exact I2].
Qed.

Lemma writes_tame k p acc : Forall (tame k) (map (fun it => CXAdd (stream p) (it_data it)) acc) /\
  weights k (map (fun it => CXAdd (stream p) (it_data it)) acc) = 0.
Proof. induction acc as [|it l [I1 I2]]; [by split; [constructor|]|]. split; [by constructor|exact I2]. Qed.

(** ** What a pipeline keeps *)

Definition keeps (k : list Z) (c : Cmd) : Prop := match c with CExpire k' _ => k' <> k | _ => True end.

Lemma fst_then {A} (m : Script A) s : fst ((m ;~ sret true) s) = fst (m s).
Proof. unfold sbind. by destruct (m s) as [? []]. Qed.

Lemma exec_keeps k cs s :
  Forall (keeps k) cs -> is_Some (kv s !! k) -> is_Some (kv (fst (exec cs s)) !! k).
Proof.
  intros H. revert s. induction H as [|c cs Hc _ IH]; intros s Hk; [done|]. cbn [exec].
  assert (is_Some (kv (fst (run_cmd c s)) !! k)) as H1.
  { destruct c as [k' t|k' d|k' d|k' m|k' t]; cbn [run_cmd keeps] in *; rewrite ?fst_then.
    - unfold SETNX. repeat case_match; try done. cbn. by apply lookup_insert_is_Some'; right.
    - done.
    - unfold INCRBY. repeat case_match; try done. cbn. by apply lookup_insert_is_Some'; right.
    - done.
    - unfold EXPIRE. case_if; [done|]. cbn. by rewrite lookup_delete_ne. }
  destruct (run_cmd c s) as [s1 r]. cbn [fst] in *. specialize (IH s1 H1). by destruct (exec cs s1).
Qed.

Lemma pipeline_keeps k f cs s :
  Forall (keeps k) cs -> is_Some (kv s !! k) -> is_Some (kv (fst (pipeline f cs s)) !! k).
Proof.
  intros H Hk. destruct f as [n|]; cbn [pipeline fst]; [by apply exec_keeps, Hk; apply Forall_take|].
  pose proof (exec_keeps k cs s H Hk). by destruct (exec cs s).
Qed.

Definition silent (c : Cmd) : Prop := match c with CXAdd _ _ => False | _ => True end.

Lemma exec_silent cs s : Forall silent cs -> streams (fst (exec cs s)) = streams s.
Proof.
  intros H. revert s. induction H as [|c cs Hc _ IH]; intros s; [done|]. cbn [exec].
  assert (streams (fst (run_cmd c s)) = streams s) as H1.
  { destruct c as [k' t|k' d|k' d|k' m|k' t]; cbn [run_cmd silent] in *; rewrite ?fst_then; try done.
    - unfold SETNX. by repeat case_match.
    - unfold INCRBY. by repeat case_match.
    - unfold EXPIRE. by case_if. }
  destruct (run_cmd c s) as [s1 r]. cbn [fst] in *. specialize (IH s1). destruct (exec cs s1). cbn [fst] in *. congruence.
Qed.

Lemma pipeline_silent f cs s : Forall silent cs -> streams (fst (pipeline f cs s)) = streams s.
Proof.
  intros H. destruct f as [n|]; cbn [pipeline fst]; [by apply exec_silent, Forall_take|].
  pose proof (exec_silent cs s H). by destruct (exec cs s).
Qed.

Lemma Forall_claims {P : Cmd -> Prop} ttl its : (forall it, P (CSetNX (idemKey it) ttl)) -> Forall P (claims ttl its).
Proof. intros H. unfold claims. apply Forall_map, Forall_true. done. Qed.

Lemma sync_cmds_all (P : Cmd -> Prop) acc :
  (forall x, Forall P (total_cmds x)) -> Forall (fun it => Forall P (fcap_cmds it)) acc -> Forall P (sync_cmds acc).
Proof.
  intros Ht Hf. unfold sync_cmds. apply Forall_app. split; apply Forall_concat, Forall_map; [by apply Forall_true|done].
Qed.

Lemma sync_cmds_silent acc : Forall silent (sync_cmds acc).
Proof.
  apply sync_cmds_all.
  - intros [[camp cust] amt]. unfold total_cmds. case_if; by repeat constructor.
  - apply Forall_true. intros it. unfold fcap_cmds. case_if; by repeat constructor.
Qed.

Lemma sync_cmds_keep c acc :
  Forall fcap_apart acc -> Forall (keeps (lit "idempotency:click:" ++ c)) (sync_cmds acc).
Proof.
  intros H. apply sync_cmds_all.
  - intros [[camp cust] amt]. unfold total_cmds. case_if; by repeat constructor.
  - eapply Forall_impl; [exact H|]. intros it Hi. unfold fcap_cmds. destruct (counts_fcap it) eqn:E; [|constructor].
    destruct (fcap_key_apart it c [] Hi E) as [Hne _]. by repeat constructor.
Qed.

Lemma fresh_no_clicks s seen its : existsb hasClick its = false -> fresh s seen its = its.
Proof.
  induction its as [|it its IH]; [done|]. cbn. intros [E1 E2]%orb_false_iff. rewrite E1. by rewrite IH.
Qed.

Lemma marked_some s c : marked s c = true <-> is_Some (kv s !! (lit "idempotency:click:" ++ c)).
Proof. unfold marked. destruct (kv s !! (lit "idempotency:click:" ++ c)); split; try done; by intros []. Qed.

Lemma claim_spec p f its s :
  0 < idemTTL p ->
  let '(s1, r) := claim_clicks p f its s in
  streams s1 = streams s /\
  (forall c, marked s c = true -> marked s1 c = true) /\
  (forall c, let k := lane_campaign_sync_key uuid_String c in
     (is_counter s k -> is_counter s1 k) /\ cnt s1 k = cnt s k) /\
  (forall acc, r = Some acc -> acc = fresh s [] its /\ Forall (fun c => marked s1 c = true) (clicks acc)) /\
  (f = None -> r = Some (fresh s [] its)).
Proof.
  intros Ht. unfold claim_clicks. destruct (existsb hasClick its) eqn:Ex.
  - fold (claims (idemTTL p) its). set (cs := claims (idemTTL p) its).
    assert (streams (fst (pipeline f cs s)) = streams s) as E1 by (by apply pipeline_silent, Forall_claims).
    assert (forall c, marked s c = true -> marked (fst (pipeline f cs s)) c = true) as E2.
    { intros c. rewrite !marked_some. by apply pipeline_keeps, Forall_claims. }
    assert (forall c, let k := lane_campaign_sync_key uuid_String c in
      (is_counter s k -> is_counter (fst (pipeline f cs s)) k) /\ cnt (fst (pipeline f cs s)) k = cnt s k) as E3.
    { intros c k. destruct (claims_tame (idemTTL p) c its) as [Hk Hw].
      destruct (pipeline_count k f cs s Hk) as (H1 & H2 & _). split; [done|]. fold cs k in Hw. lia. }
    destruct f as [n|]; cbn [pipeline fst] in *; [by split_and!|].
    destruct (exec_claims (idemTTL p) its s [] s Ht) as (s' & oks & Ee & Ea & Em & _).
    { intros c. by rewrite bool_decide_eq_false_2, orb_false_r by apply not_elem_of_nil. }
    fold cs in Ee. rewrite Ee in E1, E2, E3 |- *. cbn [fst] in *. rewrite mapM_some. cbn. rewrite Ea.
    split_and!; try done. intros acc [= <-]. split; [done|].
    destruct (fresh_fresh s [] its) as [_ Hf]. eapply Forall_impl; [exact Hf|].
    intros c (_ & _ & Hc). by rewrite Em, (bool_decide_eq_true_2 _ Hc), orb_true_r.
  - rewrite (fresh_no_clicks s [] its Ex). split_and!; try done. intros acc [= <-]. split; [done|].
    unfold clicks. replace (List.filter hasClick its) with (@nil Item); [constructor|].
    clear -Ex. induction its as [|it its IH]; [done|]. cbn in *. apply orb_false_iff in Ex as [-> Ex]. by apply IH.
Qed.

Lemma write_spec p f acc s :
  let '(s2, ok) := write_events p f acc s in
  kv s2 = kv s /\
  (f = None -> ok = true /\ streams s2 =
     streams s ++ (if has_stream p then map (fun it => (stream p, [RStr (lit "d"); RStr (it_data it)])) acc else [])).
Proof.
  unfold write_events. destruct (has_stream p); [|cbn; by rewrite app_nil_r].
  assert (forall l s, let '(s', rs) := exec (map (fun it => CXAdd (stream p) (it_data it)) l) s in
    kv s' = kv s /\ rs = Some <$> replicate (length l) true /\
    streams s' = streams s ++ map (fun it => (stream p, [RStr (lit "d"); RStr (it_data it)])) l) as H.
  { intros l. induction l as [|it l IH]; intros s0; [cbn; by rewrite app_nil_r|]. cbn [map exec].
    cbn [run_cmd]. unfold sbind at 1, XADD at 1. cbn iota beta. unfold sret at 1.
    specialize (IH (mkStore (kv s0) (sets s0) (streams s0 ++ [(stream p, [RStr (lit "d"); RStr (it_data it)])]))).
    destruct (exec _ _) as [s' rs]. destruct IH as (I1 & I2 & I3). cbn [kv streams] in *. split_and!; [done|by rewrite I2|].
    by rewrite I3, <- app_assoc. }
  destruct f as [n|]; cbn [pipeline].
  - rewrite firstn_map. specialize (H (take n acc) s).
    destruct (exec _ s) as [s' rs]. by destruct H.
  - specialize (H acc s). destruct (exec _ s) as [s' rs]. destruct H as (H1 & -> & H3). rewrite mapM_some. done.
Qed.

Lemma fresh_sub s seen its : fresh s seen its `sublist_of` its.
Proof.
  revert seen. induction its as [|it its IH]; intros seen; [constructor|]. cbn [fresh].
  repeat case_if; first [by apply sublist_skip | by apply sublist_cons].
Qed.

Lemma sublist_Forall {A} (P : A -> Prop) l l' : l `sublist_of` l' -> Forall P l' -> Forall P l.
Proof. induction 1; intros Hf; [done| |]; apply Forall_cons in Hf as [? ?]; [constructor|]; auto. Qed.

Lemma fresh_fits s its :
  Forall fcap_apart its -> booked its < 2 ^ 63 ->
  Forall fcap_apart (fresh s [] its) /\ booked (fresh s [] its) < 2 ^ 63.
Proof.
  intros H Hb. pose proof (fresh_sub s [] its) as Hs. split; [by eapply sublist_Forall|].
  assert (booked (fresh s [] its) <= booked its); [|lia]. clear -Hs.
  induction Hs as [|it l l' _ IH|it l l' _ IH]; [done| |];
    repeat match goal with |- context [booked (?x :: ?y)] =>
      lazymatch y with [] => fail | _ => destruct (booked_cons x y) as [-> ?] end end; lia.
Qed.

Section batch.
Context (p : Publisher) (Httl : 0 < idemTTL p).

(** One batch, whatever its fates. *)
Lemma flush_step e slots s :
  Forall fcap_apart (items slots) -> booked (items slots) < 2 ^ 63 ->
  let s' := fst (flushShardPipeline p e slots s) in
  let acc := won p e slots s in
  (acc = [] \/ acc = fresh s [] (items slots)) /\
  (forall c, marked s c = true -> marked s' c = true) /\
  Forall (fun c => marked s' c = true) (clicks acc) /\
  (forall c, let k := lane_campaign_sync_key uuid_String c in
     (is_counter s k -> is_counter s' k) /\ cnt s k <= cnt s' k <= cnt s k + spend k acc).
Proof.
  intros Ha Hb. destruct (fresh_fits s (items slots) Ha Hb) as [Hfa Hfb].
  unfold flushShardPipeline, won. pose proof (claim_spec p (f_idem e) (items slots) s Httl) as Hc.
  destruct (claim_clicks p (f_idem e) (items slots) s) as [s1 r]. destruct Hc as (_ & C2 & C3 & C4 & _). cbn [snd].
  assert (forall c, let k := lane_campaign_sync_key uuid_String c in
    (is_counter s k -> is_counter s1 k) /\ cnt s k <= cnt s1 k <= cnt s k + spend k (default [] r)) as C5.
  { intros c k. destruct (C3 c) as [H1 H2]. pose proof (spend_nonneg k (default [] r)). fold k in H1, H2. split; [done|lia]. }
  destruct r as [acc|]; cbn [default from_option id fst] in *; [|split_and!; auto; apply C5].
  destruct (C4 acc eq_refl) as [-> Cm]. case_bool_decide as E0; [by split_and!; auto; apply C5|].
  pose proof (write_spec p (f_xadd e) (fresh s [] (items slots)) s1) as Hw.
  destruct (write_events p (f_xadd e) _ s1) as [s2 ok]. destruct Hw as [Hk _].
  assert (forall k, cnt s2 k = cnt s1 k /\ is_counter s2 k = is_counter s1 k) as Hk2
    by (intros k; unfold cnt, is_counter; by rewrite Hk).
  pose proof (marked_ext _ _ Hk) as Hm. destruct ok; cbn [fst].
  - assert (forall c, marked s1 c = true -> marked (fst (pipeline (f_sync e) (sync_cmds (fresh s [] (items slots))) s2)) c = true) as Hp.
    { intros c. rewrite <- Hm, !marked_some. by apply pipeline_keeps, sync_cmds_keep. }
    split_and!; [by right|by auto|eapply Forall_impl; [exact Cm|auto]|]. intros c. set (k := lane_campaign_sync_key uuid_String c).
    destruct (sync_cmds_tame c _ Hfa Hfb) as [T1 T2]. fold k in T1, T2.
    destruct (pipeline_count k (f_sync e) _ s2 T1) as (P1 & P2 & _). destruct (Hk2 k) as [K1 K2], (C3 c) as [H1 H2].
    fold k in H1, H2. rewrite K2 in P1. split; [auto|lia].
  - split_and!; [by right|intros c; rewrite Hm; auto|eapply Forall_impl; [exact Cm|intros c; by rewrite Hm]|].
    intros c. destruct (Hk2 (lane_campaign_sync_key uuid_String c)) as [-> ->]. apply C5.
Qed.

(** C19: a batch of the lane books each campaign at most what it won.  Whatever
    pipeline is cut and wherever, a campaign's spend counter grows by no less
    than nothing and no more than the amounts of the items whose click the
    batch won.  When no pipeline is cut, the batch wins exactly the items
    with no click id or with the first use of an unmarked one, appends their
    events to the stream in order, adds exactly their amounts and returns
    their number. *)
Theorem flush_books_spend e slots s c :
  Forall fcap_apart (items slots) -> booked (items slots) < 2 ^ 63 ->
  let k := lane_campaign_sync_key uuid_String c in
  let '(s', n) := flushShardPipeline p e slots s in
  cnt s k <= cnt s' k <= cnt s k + spend k (won p e slots s) /\
  (e = mkFates None None None ->
   won p e slots s = fresh s [] (items slots) /\ n = zlen (fresh s [] (items slots)) /\
   streams s' = streams s ++
     (if has_stream p then map (fun it => (stream p, [RStr (lit "d"); RStr (it_data it)])) (fresh s [] (items slots)) else []) /\
   (is_counter s k -> in_i64 (cnt s k) -> in_i64 (cnt s k + spend k (fresh s [] (items slots))) ->
    cnt s' k = cnt s k + spend k (fresh s [] (items slots)))).
Proof.
  intros Ha Hb k. destruct (fresh_fits s (items slots) Ha Hb) as [Hfa Hfb].
  destruct (flush_step e slots s Ha Hb) as (_ & _ & _ & Hc).
  destruct (flushShardPipeline p e slots s) as [s' n] eqn:Ef. cbn [fst] in Hc. split; [apply (Hc c)|].
  intros ->. pose proof (claim_spec p None (items slots) s Httl) as Hcl. unfold flushShardPipeline in Ef. unfold won.
  cbn [f_idem f_xadd f_sync] in *. destruct (claim_clicks p None (items slots) s) as [s1 r].
  destruct Hcl as (S1 & _ & C3 & _ & Cn). rewrite (Cn eq_refl) in Ef |- *. cbn [snd default from_option id].
  set (acc := fresh s [] (items slots)) in *. destruct (C3 c) as [H1 H2]. fold k in H1, H2.
  destruct (decide (acc = [])) as [E0|E0];
    [rewrite (bool_decide_eq_true_2 _ E0) in Ef|rewrite (bool_decide_eq_false_2 _ E0) in Ef].
  - injection Ef as <- <-. rewrite E0. split_and!; [done|done|by rewrite S1; case_if; rewrite app_nil_r|].
    intros. rewrite H2. unfold spend. cbn. lia.
  - pose proof (write_spec p None acc s1) as Hw. destruct (write_events p None acc s1) as [s2 ok].
    destruct Hw as [Hk Hn]. destruct (Hn eq_refl) as [-> Hs].
    assert (s' = fst (pipeline None (sync_cmds acc) s2) /\ n = zlen acc) as [-> ->] by (by split; inversion Ef).
    split_and!; [done|done|by rewrite pipeline_silent, Hs, S1 by apply sync_cmds_silent|].
    intros Hi Hr Hr'. destruct (sync_cmds_tame c acc Hfa Hfb) as [T1 T2]. fold k in T1, T2.
    destruct (pipeline_count k None _ s2 T1) as (_ & _ & P3). rewrite T2 in P3. unfold cnt, is_counter in *. rewrite Hk in P3.
    rewrite P3; [by rewrite H2|done|by apply H1|by rewrite H2|by rewrite H2].
Qed.

(** ** Any number of batches *)

Definition batch_fits (b : Fates * list Item) : Prop :=
  Forall fcap_apart (items (snd b)) /\ booked (items (snd b)) < 2 ^ 63.

Lemma clicks_app l1 l2 : clicks (l1 ++ l2) = clicks l1 ++ clicks l2.
Proof. unfold clicks. by rewrite List.filter_app, map_app. Qed.

Lemma spend_app k l1 l2 : spend k (l1 ++ l2) = spend k l1 + spend k l2.
Proof. unfold spend. by rewrite map_app, sumZ_app. Qed.

Lemma flush_all_once bs s :
  Forall batch_fits bs ->
  let '(s', log) := flush_all p bs s in
  NoDup (clicks log) /\ Forall (fun c => marked s c = false) (clicks log) /\
  (forall c, let k := lane_campaign_sync_key uuid_String c in cnt s k <= cnt s' k <= cnt s k + spend k log).
Proof.
  intros H. revert s. induction H as [|[e slots] bs [Hf Hb] _ IH]; intros s; cbn [flush_all snd] in *.
  - unfold spend. cbn. split_and!; [constructor|constructor|lia].
  - destruct (flush_step e slots s Hf Hb) as (F1 & F2 & F3 & F4). specialize (IH (fst (flushShardPipeline p e slots s))).
    destruct (flush_all p bs _) as [s' log]. destruct IH as (I1 & I2 & I3).
    assert (NoDup (clicks (won p e slots s)) /\ Forall (fun c => marked s c = false) (clicks (won p e slots s))) as [W1 W2].
    { destruct F1 as [->| ->]; [by split; constructor|]. destruct (fresh_fresh s [] (items slots)) as [N1 N2].
      split; [done|]. eapply Forall_impl; [exact N2|]. by intros c (? & _). }
    rewrite clicks_app. split_and!.
    + apply NoDup_app. split_and!; [done| |done]. intros c Hc Hc'. rewrite Forall_forall in F3, I2.
      specialize (F3 c Hc). specialize (I2 c Hc'). congruence.
    + apply Forall_app. split; [done|]. eapply Forall_impl; [exact I2|]. intros c Hc.
      destruct (marked s c) eqn:E; [|done]. specialize (F2 c E). congruence.
    + intros c. destruct (F4 c) as [_ B]. specialize (I3 c). cbn zeta in *. rewrite spend_app. lia.
Qed.


Lemma fresh_complete s seen its c :
  c ∈ clicks its -> marked s c = false -> c ∉ seen -> c ∈ clicks (fresh s seen its).
Proof.
  intros Hc Hm. revert seen. induction its as [|it its IH]; intros seen Hs; [done|]. cbn [fresh].
  unfold clicks in *. cbn [List.filter] in Hc.
  destruct (hasClick it) eqn:Eh; cbn [map] in Hc; [|cbn [List.filter]; rewrite Eh; auto].
  destruct (decide (it_click it = c)) as [E|E].
  - rewrite E, Hm, (bool_decide_eq_false_2 _ Hs). cbn [orb List.filter]. rewrite Eh. cbn [map]. rewrite E. by left.
  - apply elem_of_cons in Hc as [Hc|Hc]; [by rewrite Hc in E|]. destruct (_ || _); [by apply IH|].
    cbn [List.filter]. rewrite Eh. cbn [map]. right. apply IH; [done|]. by apply not_elem_of_cons.
Qed.

(** An event is lost when its stream cannot be written.  The click marker
    is set before the event is appended, so when the second pipeline is cut,
    the event is in no stream, nothing is booked for it, and no later batch
    can win its click: neither the retry of the event nor a redelivery of it
    is counted while the marker lives. *)
Theorem failed_write_loses_click sync slots s it bs :
  has_stream p = true -> batch_fits (mkFates None (Some 0%nat) sync, slots) -> Forall batch_fits bs ->
  it ∈ items slots -> hasClick it = true -> marked s (it_click it) = false ->
  let '(s', n) := flushShardPipeline p (mkFates None (Some 0%nat) sync) slots s in
  n = 0 /\ streams s' = streams s /\
  (forall c, cnt s' (lane_campaign_sync_key uuid_String c) = cnt s (lane_campaign_sync_key uuid_String c)) /\
  marked s' (it_click it) = true /\ it_click it ∉ clicks (snd (flush_all p bs s')).
Proof.
  intros Hp [Hf Hb] Hbs Hi Hh Hm. cbn [snd] in *.
  destruct (flush_step (mkFates None (Some 0%nat) sync) slots s Hf Hb) as (_ & _ & F3 & _).
  pose proof (claim_spec p None (items slots) s Httl) as Hc.
  assert (it_click it ∈ clicks (fresh s [] (items slots))) as Hx.
  { apply fresh_complete; [|done|apply not_elem_of_nil]. unfold clicks. apply list_elem_of_fmap. exists it.
    split; [done|]. by apply list_elem_of_In, filter_In; rewrite <- list_elem_of_In. }
  assert (fresh s [] (items slots) <> []) as Hne by (intros E; rewrite E in Hx; by apply not_elem_of_nil in Hx).
  destruct (flushShardPipeline p (mkFates None (Some 0%nat) sync) slots s) as [s' n] eqn:Ef. cbn [fst] in F3.
  unfold flushShardPipeline in Ef. unfold won in F3. cbn [f_idem f_xadd f_sync] in *.
  destruct (claim_clicks p None (items slots) s) as [s1 r]. destruct Hc as (S1 & _ & C3 & _ & Cn).
  rewrite (Cn eq_refl) in Ef, F3. cbn [snd default from_option id] in F3. rewrite (bool_decide_eq_false_2 _ Hne) in Ef.
  unfold write_events in Ef. rewrite Hp in Ef. cbn in Ef. injection Ef as <- <-.
  assert (marked s1 (it_click it) = true) as Hm1 by (rewrite Forall_forall in F3; by apply F3).
  split_and!; [done|done|intros c; apply C3|done|]. intros Hin.
  pose proof (flush_all_once bs s1 Hbs) as Ho. destruct (flush_all p bs s1) as [s' log]. destruct Ho as (_ & Ho & _).
  rewrite Forall_forall in Ho. specialize (Ho _ Hin). congruence.
Qed.
End batch.

End flush.

(** ** The frequency counter of the lane *)

Lemma hex_bytes_length l : length (hex_bytes l) = (2 * length l)%nat.
Proof. unfold hex_bytes. induction l as [|b l IH]; [done|]. change (length (hex_byte b ++ mjoin (map hex_byte l)) = (2 * S (length l))%nat).
  rewrite length_app, IH. cbn. lia. Qed.

Lemma AppendUUID_length d u : length u = 16%nat -> length (AppendUUID d u) = (length d + 36)%nat.
Proof.
  intros H. unfold AppendUUID. rewrite !length_app, !hex_bytes_length, !length_take, !length_drop, H. cbn. lia.
Qed.

Lemma fill_keeps_fcap k jb s : k <> 5%nat -> fcapPrefix (fill k jb s) = fcapPrefix s.
Proof. intros H. do 8 (destruct k as [|k]; [cbn [fill]; repeat case_if; done|]). done. Qed.

Lemma fill_keeps_user k jb s : k <> 4%nat -> userID (fill k jb s) = userID s.
Proof.
  intros H. do 8 (destruct k as [|k]; [cbn [fill]; repeat case_if; try done; by destruct (j_camp jb) as [c|]; [case_if|]|]).
  done.
Qed.

Lemma filled_fcap jb c s :
  j_camp jb = Some c -> 0 < c_limit c ->
  fcapKey (item_of (fills 8 jb s)) =
  copyLocalQuantaField fcapPrefixMax (c_fcap c) ++ copyLocalQuantaField localQuantaSlotUserMax (j_user jb).
Proof.
  intros Hc Hl. unfold fcapKey, item_of. cbn [it_fcap it_user]. f_equal.
  - change (fills 8 jb s) with (fill 7 jb (fill 6 jb (fill 5 jb (fills 5 jb s)))). rewrite !fill_keeps_fcap by done.
    generalize (fills 5 jb s). intros s0. cbn [fill]. by rewrite Hc, (proj2 (Z.ltb_lt 0 _) Hl).
  - change (fills 8 jb s) with (fill 7 jb (fill 6 jb (fill 5 jb (fill 4 jb (fills 4 jb s))))).
    rewrite !fill_keeps_user by done. by generalize (fills 4 jb s).
Qed.

(** The lane counts frequency under a key no one reads.  The slot keeps 64
    bytes of the prefix of the frequency key and the prefix of a campaign
    without a brand key is at least 84 bytes long, so the key the lane
    increments is not the prefix followed by the user, which the filter
    scripts read. *)
Theorem lane_fcap_key_unread uuid_String camp c jb s :
  length (uuid_String (ID camp)) = 36%nat -> length (ID camp) = 16%nat -> BrandFcapKey camp = [] ->
  j_camp jb = Some c -> 0 < c_limit c ->
  c_fcap c = fcapKeyPrefixForDebit uuid_String (Some camp) (j_user jb) (j_click jb) ->
  fcapKey (item_of (fills 8 jb s)) <> fcapKeyPrefixForDebit uuid_String (Some camp) (j_user jb) (j_click jb) ++ j_user jb.
Proof.
  intros Hu Hid Hb Hc Hl Hf E. apply (f_equal length) in E.
  assert (84 <= length (c_fcap c))%nat as Hlen.
  { rewrite Hf. unfold fcapKeyPrefixForDebit, FcapKeyPrefixSub. rewrite Hb. cbn [orb negb bool_decide].
    rewrite bool_decide_eq_true_2, orb_false_r by done. unfold fcapKeyPrefix, campaignHashTag, AppendCampaignSubHashTag.
    case_if; rewrite !length_app, ?Hu, ?AppendUUID_length, ?length_app; try done; rewrite ?AppendUUID_length; try done;
      cbn; lia. }
  rewrite (filled_fcap jb c s Hc Hl), <- Hf in E. unfold copyLocalQuantaField in E. rewrite !length_app, !length_take in E.
  change (Z.to_nat fcapPrefixMax) with 64%nat in E. lia.
Qed.

(** ** Witnesses *)

Definition demo_pub : Publisher := mkPub (lit "ad:events:stream") 86400.
Definition demo_item (click : Z) (amount : Z) : Item :=
  mkItem (replicate 16 1) (replicate 16 2) amount [click] (lit "u") 3 60 (lit "{fcap") [click; 0].
(** Two clicks, the first twice, and an impression. *)
Definition demo_slots : list Item := [demo_item 65 5; demo_item 65 5; demo_item 66 7;
  mkItem (replicate 16 1) (replicate 16 2) 1 [] [] 0 0 [] [9]].
Definition no_cut : Fates := mkFates None None None.

Lemma demo_slots_fit e : batch_fits (e, demo_slots).
Proof. split; [|by vm_compute]. repeat constructor; discriminate. Qed.

Definition demo_key : list Z := lane_campaign_sync_key (AppendUUID []) (replicate 16 1).

Lemma flush_books_spend_witness :
  let '(s', n) := flushShardPipeline (AppendUUID []) id demo_pub no_cut demo_slots empty_store in
  cnt s' demo_key = cnt empty_store demo_key + 13 /\ n = 3.
Proof.
  pose proof (flush_books_spend (AppendUUID []) id (fun l => reflexivity l) demo_pub ltac:(done) no_cut demo_slots
    empty_store (replicate 16 1) (proj1 (demo_slots_fit no_cut)) (proj2 (demo_slots_fit no_cut))) as H.
  destruct (flushShardPipeline _ _ _ _ _ _) as [s' n]. destruct H as [_ H]. destruct (H eq_refl) as (_ & -> & _ & Hc).
  split; [|by vm_compute]. apply Hc; [done|by vm_compute|by vm_compute].
Defined.


Lemma failed_write_loses_click_witness :
  let '(s', n) := flushShardPipeline (AppendUUID []) id demo_pub (mkFates None (Some 0%nat) None) demo_slots empty_store in
  n = 0 /\ streams s' = [] /\
  [65] ∉ clicks (snd (flush_all (AppendUUID []) id demo_pub [(no_cut, demo_slots)] s')).
Proof.
  pose proof (failed_write_loses_click (AppendUUID []) id (fun l => reflexivity l) demo_pub ltac:(done) None demo_slots
    empty_store (demo_item 65 5) [(no_cut, demo_slots)] eq_refl (demo_slots_fit _)
    (Forall_cons_2 _ _ _ (demo_slots_fit _) (Forall_nil_2 _)) ltac:(by left) eq_refl eq_refl) as H.
  destruct (flushShardPipeline _ _ _ _ _ _) as [s' n]. destruct H as (H1 & H2 & _ & _ & H5). done.
Defined.

Lemma lane_fcap_key_unread_witness :
  let camp := mkCampaign (replicate 16 1) (replicate 16 2) 0 [] 3 60 in
  let jb := mkJob 0 (replicate 16 1) (lit "c") (lit "u") (Some [9; 9])
    (Some (mkCamp (replicate 16 2) 3 60 (fcapKeyPrefixForDebit (AppendUUID []) (Some camp) (lit "u") (lit "c")))) 5 in
  fcapKey (item_of (fills 8 jb empty_slot)) <> fcapKeyPrefixForDebit (AppendUUID []) (Some camp) (lit "u") (lit "c") ++ lit "u".
Proof.
  cbv zeta. apply (lane_fcap_key_unread (AppendUUID []) _ (mkCamp (replicate 16 2) 3 60
    (fcapKeyPrefixForDebit (AppendUUID []) (Some (mkCampaign (replicate 16 1) (replicate 16 2) 0 [] 3 60)) (lit "u") (lit "c"))));
    try done; by vm_compute.
Defined.
End LaneFlush.
