(* ===== verification/ClickIdem.v ===== *)
(** * The tracker's click cache

    Models [internal/stream/local_quanta_idem.go]: a table of 8192 cells, each
    with the hash of a click and the time until which it is refused.  A call
    is a sequence of atomic loads, stores and compare-and-swaps, and calls of
    several goroutines interleave.  The seeded hash of the standard library
    is a parameter. *)

From S2P Require Import Prelude.
Open Scope Z_scope.

Module ClickIdem.

Definition localClickIdemSlots : Z := 8192.
Definition localClickIdemMask : Z := 8191.

Record Cell := mkCell { c_hash : Z; c_expiry : Z }.
#[export] Instance cell_inhabited : Inhabited Cell := populate (mkCell 0 0).

#[local] Abbreviation Cache := (list Cell) (only parsing).
Definition NewCache : Cache := replicate (Z.to_nat localClickIdemSlots) (mkCell 0 0).
Definition wf (c : Cache) : Prop := zlen c = localClickIdemSlots.

Definition idx (h : Z) : nat := Z.to_nat (Z.land h localClickIdemMask).
Definition cell (c : Cache) (h : Z) : Cell := c !!! idx h.
Definition set_cell (c : Cache) (h : Z) (x : Cell) : Cache := <[idx h := x]> c.

Section idem.
Context {Click : Type} (maphash : Click -> Z) (empty : Click -> bool).

Definition hashClickID (k : Click) : Z := if empty k then 0 else maphash k.

(** ** Calls

    [TryClaim] at time [now] until [exp]; [Release].  [TSwap prev] is about
    to compare and swap the expiry, [TStore] to write the hash. *)
Inductive pc :=
  | TLoad | THash (prev : Z) | TSwap (prev : Z) | TStore | RHash | RStore | Done (r : bool).

Record Call := mkCall { call_click : Click; call_now : Z; call_exp : Z }.

Definition start_claim (ttl now : Z) (k : Click) : Call * pc :=
  (mkCall k now (now +64 ttl), if empty k then Done true else TLoad).
Definition start_release (k : Click) : Call * pc := (mkCall k 0 0, if empty k then Done true else RHash).

Definition pstep (cl : Call) (p : pc) (c : Cache) : option (Cache * pc) :=
  let h := hashClickID (call_click cl) in
  match p with
  | TLoad =>
      let prev := c_expiry (cell c h) in Some (c, if call_now cl <? prev then THash prev else TSwap prev)
  | THash prev => Some (c, if c_hash (cell c h) =? h then Done false else TSwap prev)
  | TSwap prev =>
      if c_expiry (cell c h) =? prev then Some (set_cell c h (mkCell (c_hash (cell c h)) (call_exp cl)), TStore)
      else Some (c, TLoad)
  | TStore => Some (set_cell c h (mkCell h (c_expiry (cell c h))), Done true)
  | RHash => Some (c, if c_hash (cell c h) =? h then RStore else Done true)
  | RStore => Some (set_cell c h (mkCell (c_hash (cell c h)) 0), Done true)
  | Done _ => None
  end.

(** ** Interleavings *)

Record Sys := mkSys { cache : Cache; calls : list (Call * pc) }.

Inductive step (ttl : Z) : Sys -> Sys -> Prop :=
  | st_claim s now k : step ttl s (mkSys (cache s) (calls s ++ [start_claim ttl now k]))
  | st_release s k : step ttl s (mkSys (cache s) (calls s ++ [start_release k]))
  | st_call s i cl p c' p' :
      calls s !! i = Some (cl, p) -> pstep cl p (cache s) = Some (c', p') ->
      step ttl s (mkSys c' (<[i := (cl, p')]> (calls s))).

(** ** A call that runs alone *)

(** At most five steps. *)
Fixpoint run (fuel : nat) (cl : Call) (p : pc) (c : Cache) : Cache * option bool :=
  match p, fuel with
  | Done r, _ => (c, Some r)
  | _, O => (c, None)
  | _, S fuel => match pstep cl p c with Some (c', p') => run fuel cl p' c' | None => (c, None) end
  end.

Definition TryClaim (ttl now : Z) (k : Click) (c : Cache) : Cache * option bool :=
  run 5 (fst (start_claim ttl now k)) (snd (start_claim ttl now k)) c.
Definition Release (k : Click) (c : Cache) : Cache * option bool :=
  run 5 (fst (start_release k)) (snd (start_release k)) c.

Lemma idx_lt c h : wf c -> (idx h < length c)%nat.
Proof.
  unfold wf, zlen, idx, localClickIdemMask, localClickIdemSlots. intros Hw.
  change 8191 with (Z.ones 13). rewrite Z.land_ones by lia. pose proof (Z.mod_pos_bound h (2 ^ 13)). lia.
Qed.

Lemma cell_set c h x h' : wf c -> cell (set_cell c h x) h' = if decide (idx h = idx h') then x else cell c h'.
Proof.
  intros Hw. unfold cell, set_cell. case_decide as E.
  - rewrite <- E. apply list_lookup_total_insert_eq, idx_lt, Hw.
  - by apply list_lookup_total_insert_ne.
Qed.

Lemma wf_set c h x : wf c -> wf (set_cell c h x).
Proof. unfold wf, set_cell, zlen. by rewrite length_insert. Qed.

Lemma set_twice c h x y : set_cell (set_cell c h x) h y = set_cell c h y.
Proof. apply list_insert_insert_eq. Qed.

(** [TryClaim], run alone, refuses a live marker of the same hash and
    otherwise writes its own. *)
Lemma TryClaim_alone ttl now k c :
  wf c -> empty k = false ->
  TryClaim ttl now k c =
    (let x := cell c (maphash k) in
     if (now <? c_expiry x) && (c_hash x =? maphash k) then (c, Some false)
     else (set_cell c (maphash k) (mkCell (maphash k) (now +64 ttl)), Some true)).
Proof.
  intros Hw He. assert (hashClickID k = maphash k) as Eh by (unfold hashClickID; by rewrite He).
  assert (forall h y, cell (set_cell c h y) h = y) as Hs.
  { intros. by rewrite cell_set, decide_True. }
  unfold TryClaim, start_claim. rewrite He. cbn [fst snd]. set (x := cell c (maphash k)).
  cbn -[cell set_cell]. rewrite Eh. fold x. destruct (now <? c_expiry x) eqn:E1; cbn -[cell set_cell].
  - rewrite Eh. fold x. destruct (c_hash x =? maphash k); [done|]. cbn -[cell set_cell].
    rewrite Eh. fold x. rewrite Z.eqb_refl. cbn -[cell set_cell]. rewrite Eh, Hs, set_twice. done.
  - rewrite Eh. fold x. rewrite Z.eqb_refl. cbn -[cell set_cell]. rewrite Eh, Hs, set_twice. done.
Qed.

Lemma Release_alone k c :
  wf c -> empty k = false ->
  Release k c =
    (let x := cell c (maphash k) in
     if c_hash x =? maphash k then set_cell c (maphash k) (mkCell (c_hash x) 0) else c, Some true).
Proof.
  intros Hw He. assert (hashClickID k = maphash k) as Eh by (unfold hashClickID; by rewrite He).
  unfold Release, start_release. rewrite He. cbn -[cell set_cell]. rewrite Eh.
  destruct (c_hash _ =? _); cbn -[cell set_cell]; [by rewrite Eh|done].
Qed.

(** ** One call after the other *)

Inductive Op := OClaim (now : Z) (k : Click) | ORelease (k : Click).

Definition op_click (o : Op) : Click := match o with OClaim _ k | ORelease k => k end.
Definition exec (ttl : Z) (o : Op) (c : Cache) : Cache * option bool :=
  match o with OClaim now k => TryClaim ttl now k c | ORelease k => Release k c end.
Fixpoint exec_all (ttl : Z) (os : list Op) (c : Cache) : Cache :=
  match os with [] => c | o :: os => exec_all ttl os (fst (exec ttl o c)) end.

(** The claims that were granted, with their hash and expiry. *)
Fixpoint granted (ttl : Z) (os : list Op) (c : Cache) : list (Z * Z) :=
  match os with
  | [] => []
  | o :: os =>
      match o, exec ttl o c with
      | OClaim now k, (c', Some true) => (maphash k, now +64 ttl) :: granted ttl os c'
      | _, (c', _) => granted ttl os c'
      end
  end.

Lemma exec_cell ttl o c h :
  wf c -> empty (op_click o) = false -> wf (fst (exec ttl o c)) /\
  (idx h <> idx (maphash (op_click o)) -> cell (fst (exec ttl o c)) h = cell c h).
Proof.
  intros Hw He. destruct o as [now k|k]; cbn [exec op_click] in *.
  - rewrite TryClaim_alone by done. cbv zeta. destruct (_ && _); cbn [fst]; [done|].
    split; [by apply wf_set|]. intros Hi. by rewrite cell_set, decide_False.
  - rewrite Release_alone by done. cbv zeta. destruct (_ =? _); cbn [fst]; [|done].
    split; [by apply wf_set|]. intros Hi. by rewrite cell_set, decide_False.
Qed.

(** A repeat of a granted click is refused until the marker expires, whatever
    happens in other cells in between. *)
Theorem duplicate_refused ttl now now' k c os :
  wf c -> empty k = false -> now' < now +64 ttl ->
  Forall (fun o => empty (op_click o) = false /\ idx (maphash (op_click o)) <> idx (maphash k)) os ->
  snd (TryClaim ttl now k c) = Some true ->
  let c1 := exec_all ttl os (fst (TryClaim ttl now k c)) in TryClaim ttl now' k c1 = (c1, Some false).
Proof.
  intros Hw He Ht Hos Hg. cbv zeta. rewrite (TryClaim_alone ttl now k c) in * by done.
  cbv zeta in *. destruct (_ && _); [done|]. cbn [fst]. set (c0 := set_cell c _ _).
  assert (wf c0 /\ cell c0 (maphash k) = mkCell (maphash k) (now +64 ttl)) as H0.
  { split; [by apply wf_set|]. unfold c0. by rewrite cell_set, decide_True. }
  clearbody c0. clear Hg Hw. revert c0 H0. induction Hos as [|o os [Ho Hi] _ IH]; intros c0 [Hw Hc]; cbn [exec_all].
  - rewrite TryClaim_alone by done. cbv zeta. rewrite Hc. cbn. by rewrite (proj2 (Z.ltb_lt _ _) Ht), Z.eqb_refl.
  - apply IH. destruct (exec_cell ttl o c0 (maphash k) Hw Ho) as [Hw' Hf]. split; [done|]. by rewrite Hf by congruence.
Qed.

(** What a cell refuses was granted. *)
Definition backed (g : list (Z * Z)) (c : Cache) : Prop :=
  forall h, 0 < c_expiry (cell c h) -> (c_hash (cell c h), c_expiry (cell c h)) ∈ g.

Lemma exec_backed ttl o c g :
  wf c -> empty (op_click o) = false -> backed g c ->
  backed (g ++ granted ttl [o] c) (fst (exec ttl o c)).
Proof.
  intros Hw He Hb. destruct o as [now k|k]; cbn [granted exec op_click] in *.
  - rewrite TryClaim_alone by done. cbv zeta. destruct (_ && _); cbn [fst].
    + rewrite app_nil_r. exact Hb.
    + intros h. rewrite cell_set by done. case_decide; cbn; intros Hx; apply elem_of_app; [right; by left|left; by apply Hb].
  - rewrite Release_alone by done. cbv zeta. cbn [fst]. rewrite app_nil_r. destruct (_ =? _); [|exact Hb].
    intros h. rewrite cell_set by done. case_decide; cbn; [lia|apply Hb].
Qed.

Lemma granted_cons ttl o os c : granted ttl (o :: os) c = granted ttl [o] c ++ granted ttl os (fst (exec ttl o c)).
Proof. cbn [granted]. by destruct o, (exec ttl _ c) as [? [[]|]]. Qed.

Lemma exec_all_backed ttl os : forall c g,
  wf c -> Forall (fun o => empty (op_click o) = false) os -> backed g c ->
  wf (exec_all ttl os c) /\ backed (g ++ granted ttl os c) (exec_all ttl os c).
Proof.
  induction os as [|o os IH]; intros c g Hw Hos Hb; cbn [exec_all]; [by rewrite app_nil_r|].
  inversion_clear Hos as [|? ? Ho Hos']. destruct (exec_cell ttl o c 0 Hw Ho) as [Hw' _].
  destruct (IH _ _ Hw' Hos' (exec_backed _ _ _ _ Hw Ho Hb)) as [W B]. split; [exact W|].
  rewrite granted_cons, app_assoc. exact B.
Qed.

(** A click is refused only if one of the same hash was granted before and
    its marker has not expired. *)
Theorem refusal_justified ttl os now k :
  Forall (fun o => empty (op_click o) = false) os -> 0 <= now ->
  snd (TryClaim ttl now k (exec_all ttl os NewCache)) = Some false ->
  exists exp, (maphash k, exp) ∈ granted ttl os NewCache /\ now < exp.
Proof.
  intros Hos Hn H. assert (wf NewCache) as Hw by reflexivity.
  assert (backed [] NewCache) as Hb.
  { intros h. unfold cell, NewCache. rewrite list_lookup_total_alt.
    destruct (replicate _ _ !! idx h) as [x|] eqn:E; cbn; [|lia]. apply lookup_replicate in E as [-> _]. cbn. lia. }
  destruct (exec_all_backed ttl os NewCache [] Hw Hos Hb) as [W B]. destruct (empty k) eqn:Ek.
  { unfold TryClaim, start_claim in H. rewrite Ek in H. discriminate H. }
  rewrite TryClaim_alone in H by done. cbv zeta in H. destruct (_ && _) eqn:E; [|done].
  apply andb_true_iff in E as [E1%Z.ltb_lt E2%Z.eqb_eq]. pose proof (B (maphash k)) as Hx.
  rewrite E2 in Hx. eexists. split; [|exact E1]. apply Hx. lia.
Qed.

(** ** Races

    The compare-and-swap publishes the new expiry before the new hash. *)
Lemma call_step ttl c cs i cl p c' p' cs' :
  cs !! i = Some (cl, p) -> pstep cl p c = Some (c', p') -> cs' = <[i := (cl, p')]> cs ->
  step ttl (mkSys c cs) (mkSys c' cs').
Proof. intros H1 H2 ->. exact (st_call ttl (mkSys c cs) i cl p c' p' H1 H2). Qed.

Section race.
Context (ttl now : Z) (k k' : Click) (c : list Cell).
Context (Hw : wf c) (He : empty k = false) (He' : empty k' = false).
Context (Hexp : c_expiry (cell c (maphash k)) <= now) (Httl : now < now +64 ttl).

Let h := maphash k.
Let swapped := set_cell c h (mkCell (c_hash (cell c h)) (now +64 ttl)).

Lemma swap_opens cs cs' i :
  cs !! i = Some (fst (start_claim ttl now k), TLoad) ->
  cs' = <[i := (fst (start_claim ttl now k), TStore)]> cs ->
  rtc (step ttl) (mkSys c cs) (mkSys swapped cs').
Proof.
  intros Hi ->. eapply rtc_l.
  - eapply call_step; [exact Hi| |reflexivity]. cbn -[cell set_cell]. unfold hashClickID. rewrite He.
    by rewrite (proj2 (Z.ltb_ge _ _) Hexp).
  - eapply rtc_l; [|apply rtc_refl]. eapply call_step.
    + apply list_lookup_insert_eq. by eapply lookup_lt_Some.
    + cbn -[cell set_cell]. unfold hashClickID. rewrite He, Z.eqb_refl. reflexivity.
    + by rewrite list_insert_insert_eq.
Qed.

Lemma cell_swapped h' : idx h' = idx h -> cell swapped h' = mkCell (c_hash (cell c h)) (now +64 ttl).
Proof. intros Hi. unfold swapped. by rewrite cell_set, decide_True. Qed.

(** Two calls for one click can both be granted. *)
Theorem click_granted_twice :
  c_hash (cell c h) <> h ->
  exists c', rtc (step ttl) (mkSys c [start_claim ttl now k; start_claim ttl now k])
    (mkSys c' [(fst (start_claim ttl now k), Done true); (fst (start_claim ttl now k), Done true)]).
Proof.
  intros Hh. unfold start_claim. rewrite He. cbn [fst]. set (cl := mkCall k now (now +64 ttl)). eexists.
  etrans; [apply (swap_opens _ [(cl, TStore); (cl, TLoad)] 0); reflexivity|].
  assert (hashClickID k = h) as Eh by (unfold hashClickID; by rewrite He).
  eapply rtc_l; [eapply (call_step _ _ _ 1); [reflexivity| |reflexivity]|].
  { cbn -[cell set_cell swapped]. rewrite Eh, cell_swapped by done. cbn -[swapped]. by rewrite (proj2 (Z.ltb_lt _ _) Httl). }
  eapply rtc_l; [eapply (call_step _ _ _ 1); [reflexivity| |reflexivity]|].
  { cbn -[cell set_cell swapped]. rewrite Eh, cell_swapped by done. cbn -[swapped]. by rewrite (proj2 (Z.eqb_neq _ _) Hh). }
  eapply rtc_l; [eapply (call_step _ _ _ 1); [reflexivity| |reflexivity]|].
  { cbn -[cell set_cell swapped]. rewrite Eh, cell_swapped by done. cbn -[set_cell swapped]. by rewrite Z.eqb_refl. }
  eapply rtc_l; [eapply (call_step _ _ _ 1); [reflexivity|reflexivity|reflexivity]|].
  eapply rtc_l; [eapply (call_step _ _ _ 0); [reflexivity|reflexivity|reflexivity]|]. apply rtc_refl.
Qed.

(** A click whose marker has expired can be refused: the claim of another
    click has renewed the expiry and not yet replaced the hash. *)
Theorem expired_click_refused :
  c_hash (cell c h) = maphash k' -> idx (maphash k') = idx h ->
  exists c' p, rtc (step ttl) (mkSys c [start_claim ttl now k; start_claim ttl now k'])
    (mkSys c' [(fst (start_claim ttl now k), p); (fst (start_claim ttl now k'), Done false)]) /\
    c_expiry (cell c (maphash k')) <= now.
Proof.
  intros Hh Hi. exists swapped, TStore. split; [|unfold cell in *; by rewrite Hi].
  unfold start_claim. rewrite He, He'. cbn [fst].
  etrans; [eapply (swap_opens _ _ 0); [unfold start_claim; rewrite He; reflexivity|reflexivity]|].
  assert (hashClickID k' = maphash k') as Eh by (unfold hashClickID; by rewrite He').
  eapply rtc_l; [eapply (call_step _ _ _ 1); [reflexivity| |reflexivity]|].
  { cbn -[cell set_cell swapped]. rewrite Eh, cell_swapped by done. cbn -[swapped]. by rewrite (proj2 (Z.ltb_lt _ _) Httl). }
  eapply rtc_l; [eapply (call_step _ _ _ 1); [reflexivity| |reflexivity]|].
  { cbn -[cell set_cell swapped]. rewrite Eh, cell_swapped by done. cbn -[swapped]. by rewrite Hh, Z.eqb_refl. }
  unfold start_claim. rewrite ?He. apply rtc_refl.
Qed.

End race.

End idem.

End ClickIdem.
