(* ===== verification/Money.v ===== *)
(** * Money amounts

    Models [pkg/money/money.go]: the conversion of decimal text to micro-units
    and back, the percentages and the products.  A string is its bytes.
    [fmt.Sscanf] with the verb [%d] and [strings.TrimSpace] are modelled as
    far as the code uses them: the scanner skips spaces, takes an optional
    sign and the digits that follow, and ignores what comes after them.  The
    conversions from and to floating point are left out; [PercentFromFloat]
    takes the rounded hundredths of its percentage. *)

From S2P Require Import Prelude RedisKeys.
Open Scope Z_scope.

Module Money.

Import RedisKeys.

Definition MicroUnit : Z := 1000000.

(** ** Text *)

(** [unicode.IsSpace]: the encodings of the space characters. *)
Definition spaces : list (list Z) :=
  [[9]; [10]; [11]; [12]; [13]; [32]; [194; 133]; [194; 160]; [225; 154; 128]; [226; 128; 128]; [226; 128; 129];
   [226; 128; 130]; [226; 128; 131]; [226; 128; 132]; [226; 128; 133]; [226; 128; 134]; [226; 128; 135];
   [226; 128; 136]; [226; 128; 137]; [226; 128; 138]; [226; 128; 168]; [226; 128; 169]; [226; 128; 175];
   [226; 129; 159]; [227; 128; 128]].

Fixpoint strip (p s : list Z) : option (list Z) :=
  match p, s with
  | [], _ => Some s
  | x :: p, y :: s => if x =? y then strip p s else None
  | _, [] => None
  end.

(** The string without one leading space, if it has one. *)
Fixpoint strip_any (ps : list (list Z)) (s : list Z) : option (list Z) :=
  match ps with
  | [] => None
  | p :: ps => match strip p s with Some s' => Some s' | None => strip_any ps s end
  end.

Fixpoint trim (ps : list (list Z)) (fuel : nat) (s : list Z) : list Z :=
  match fuel with
  | O => s
  | S fuel => match strip_any ps s with Some s' => trim ps fuel s' | None => s end
  end.

Definition trim_left (s : list Z) : list Z := trim spaces (length s) s.
Definition trim_right (s : list Z) : list Z := rev (trim (map (@rev Z) spaces) (length s) (rev s)).
Definition TrimSpace (s : list Z) : list Z := trim_right (trim_left s).

(** [strings.TrimRight(s, "0")]. *)
Fixpoint drop_zeros (s : list Z) : list Z :=
  match s with 48 :: s => drop_zeros s | _ => s end.
Definition TrimRight0 (s : list Z) : list Z := rev (drop_zeros (rev s)).

(** ** Integers in text *)

Definition is_digit (c : Z) : bool := (48 <=? c) && (c <=? 57).

Fixpoint value_from (acc : Z) (s : list Z) : Z :=
  match s with [] => acc | c :: s => value_from (10 * acc + (c - 48)) s end.
Definition value (s : list Z) : Z := value_from 0 s.

Fixpoint scan_digits (s : list Z) : list Z :=
  match s with c :: s => if is_digit c then c :: scan_digits s else [] | [] => [] end.

(** [SkipSpace] of the scanner: a newline is an error. *)
Fixpoint skip_space (fuel : nat) (s : list Z) : option (list Z) :=
  match fuel with
  | O => Some s
  | S fuel =>
      match s with
      | 10 :: _ | 13 :: 10 :: _ => None
      | _ => match strip_any spaces s with Some s' => skip_space fuel s' | None => Some s end
      end
  end.

(** [strconv.ParseInt] of a sign and digits. *)
Definition ParseInt (neg : bool) (ds : list Z) : option Z :=
  let v := if neg then - value ds else value ds in
  if bool_decide (in_i64 v) then Some v else None.

(** [fmt.Sscanf(s, "%d", &v)]. *)
Definition Sscanf_d (s : list Z) : option Z :=
  match skip_space (length s) s with
  | None => None
  | Some s =>
      let '(neg, s) := match s with 43 :: s => (false, s) | 45 :: s => (true, s) | _ => (false, s) end in
      match scan_digits s with [] => None | ds => ParseInt neg ds end
  end.

(** [strconv.FormatInt(n, 10)]. *)
Fixpoint digits (fuel : nat) (n : Z) (acc : list Z) : list Z :=
  match fuel with
  | O => acc
  | S fuel => let acc := (48 + n mod 10) :: acc in if n <? 10 then acc else digits fuel (n / 10) acc
  end.
Definition FormatInt (n : Z) : list Z := (if n <? 0 then [45] else []) ++ digits 20 (Z.abs n) [].

(** ** Parsing *)

(** [strings.SplitN(s, ".", 2)]. *)
Fixpoint split_dot (s : list Z) : option (list Z * list Z) :=
  match s with
  | [] => None
  | c :: s => if c =? 46 then Some ([], s) else '(a, b) ← split_dot s; Some (c :: a, b)
  end.

Definition pad6 (s : list Z) : list Z := take 6 s ++ replicate (6 - length s) 48.

Definition ParseDecimal (s : list Z) : option Z :=
  let s := TrimSpace s in
  match s with
  | [] => Some 0
  | _ =>
      let '(neg, s) := match s with 45 :: s => (true, s) | _ => (false, s) end in
      match s with
      | [] => None
      | _ =>
          '(whole, frac) ← match split_dot s with
                           | Some (a, b) => whole ← Sscanf_d a; frac ← Sscanf_d (pad6 b); Some (whole, frac)
                           | None => whole ← Sscanf_d s; Some (whole, 0)
                           end;
          if (whole <? 0) || (frac <? 0) then None
          else let out := whole *64 MicroUnit +64 frac in Some (if neg then i64 (- out) else out)
      end
  end.

(** ** Formatting *)

Fixpoint pad_left (fuel : nat) (s : list Z) : list Z :=
  match fuel with O => s | S fuel => if (length s <? 6)%nat then pad_left fuel (48 :: s) else s end.

Definition FormatDecimal (micro : Z) : list Z :=
  let neg := micro <? 0 in
  let micro := if neg then i64 (- micro) else micro in
  let whole := Z.quot micro MicroUnit in
  let frac := Z.rem micro MicroUnit in
  let sign := if neg then [45] else [] in
  if frac =? 0 then sign ++ FormatInt whole
  else sign ++ FormatInt whole ++ [46] ++ TrimRight0 (pad_left 6 (FormatInt frac)).

(** [%02d]. *)
Definition pad2 (n : Z) : list Z := if (0 <=? n) && (n <? 10) then 48 :: FormatInt n else FormatInt n.

Definition FormatFixed2 (micro : Z) : list Z :=
  let neg := micro <? 0 in
  let micro := if neg then i64 (- micro) else micro in
  (if neg then [45] else []) ++ FormatInt (Z.quot micro MicroUnit) ++ [46] ++
  pad2 (Z.quot (Z.rem micro MicroUnit) 10000).

(** ** Percentages and products *)

Definition PercentBps (amountMicro bps : Z) : Z :=
  if (amountMicro <=? 0) || (bps <=? 0) then 0 else Z.quot (amountMicro *64 bps) 10000.
Definition PercentHundredths (amountMicro hundredths : Z) : Z :=
  if (amountMicro <=? 0) || (hundredths <=? 0) then 0 else Z.quot (amountMicro *64 hundredths) 10000.
(** [hundredths] is [int64(math.Round(percent*100))]. *)
Definition PercentFromFloat (amountMicro hundredths : Z) : Z :=
  if amountMicro <=? 0 then 0 else PercentHundredths amountMicro hundredths.
Definition ScalePPM (amountMicro ppm : Z) : Z :=
  if (amountMicro <=? 0) || (ppm <=? 0) then 0 else Z.quot (amountMicro *64 ppm) 1000000.
Definition MulMicro (perUnitMicro count : Z) : Z :=
  if (perUnitMicro <=? 0) || (count <=? 0) then 0 else perUnitMicro *64 count.

Example parse_plain : ParseDecimal (lit " -12.5 ") = Some (-12500000).
Proof. reflexivity. Qed.
Example format_plain : FormatDecimal (-12500000) = lit "-12.5".
Proof. reflexivity. Qed.
Example fixed_plain : FormatFixed2 1999999 = lit "1.99".
Proof. reflexivity. Qed.

(** A group separator ends the number. *)
Example parse_grouped : ParseDecimal (lit "1,234.56") = Some 1560000.
Proof. reflexivity. Qed.
Example parse_wrapped : ParseDecimal (lit "18446744073710") = Some 448384.
Proof. reflexivity. Qed.

(** ** Digits *)

#[local] Abbreviation alldigits := (Forall (fun c => is_digit c = true)).

Lemma value_from_app acc s : value_from acc s = acc * 10 ^ zlen s + value s.
Proof.
  unfold value. revert acc. induction s as [|c s IH]; intros acc; cbn [value_from]; [unfold zlen; cbn; lia|].
  rewrite (IH (10 * acc + (c - 48))), (IH (10 * 0 + (c - 48))). unfold zlen. cbn [length].
  rewrite Nat2Z.inj_succ, Z.pow_succ_r by lia. lia.
Qed.

Lemma value_app s t : value (s ++ t) = value s * 10 ^ zlen t + value t.
Proof.
  unfold value at 1 2. generalize 0. induction s as [|c s IH]; intros acc; cbn [app value_from]; [apply value_from_app|].
  apply IH.
Qed.

Lemma value_bound s : alldigits s -> 0 <= value s < 10 ^ zlen s.
Proof.
  induction 1 as [|c s Hc _ IH]; [by cbn|]. change (c :: s) with ([c] ++ s). rewrite value_app, zlen_app.
  unfold is_digit in Hc. change (value [c]) with (c - 48). change (zlen [c]) with 1.
  rewrite Z.pow_add_r by (pose proof (zlen_nonneg s); lia). nia.
Qed.

Lemma digits_app fuel n acc : digits fuel n acc = digits fuel n [] ++ acc.
Proof.
  revert n acc. induction fuel as [|fuel IH]; intros n acc; [done|]. cbn [digits].
  destruct (n <? 10); [done|]. by rewrite (IH _ (_ :: acc)), (IH _ [_]), <- app_assoc.
Qed.

Lemma digits_spec fuel n :
  0 <= n < 10 ^ Z.of_nat fuel ->
  alldigits (digits fuel n []) /\ value (digits fuel n []) = n.
Proof.
  revert n. induction fuel as [|fuel IH]; intros n H; [cbn in *; split; [constructor|lia]|].
  cbn [digits]. pose proof (Z.div_mod n 10 ltac:(lia)). pose proof (Z.mod_pos_bound n 10 ltac:(lia)).
  assert (is_digit (48 + n mod 10) = true) as Hd by (unfold is_digit; lia).
  destruct (n <? 10) eqn:E.
  - split; [by repeat constructor|]. cbn. lia.
  - rewrite Nat2Z.inj_succ, Z.pow_succ_r in H by lia. destruct (IH (n / 10)) as [I1 I2]; [lia|].
    rewrite digits_app. split; [apply Forall_app; by repeat constructor|].
    rewrite value_app, I2. change (zlen [48 + n mod 10]) with 1. cbn. lia.
Qed.

Lemma digits_length fuel n k : (1 <= k)%nat -> n < 10 ^ Z.of_nat k -> (length (digits fuel n []) <= k)%nat.
Proof.
  revert n k. induction fuel as [|fuel IH]; intros n k Hk H; [cbn; lia|]. cbn [digits].
  destruct (n <? 10) eqn:E; [cbn; lia|]. rewrite digits_app, length_app. cbn [length].
  destruct k as [|[|k]]; [lia|cbn in H; lia|]. specialize (IH (n / 10) (S k) ltac:(lia)).
  rewrite Nat2Z.inj_succ, Z.pow_succ_r in H by lia.
  assert (n / 10 < 10 ^ Z.of_nat (S k)) by (apply Z.div_lt_upper_bound; lia). specialize (IH H0). lia.
Qed.

Lemma FormatInt_spec n :
  0 <= n <= max_i64 -> alldigits (FormatInt n) /\ value (FormatInt n) = n /\ FormatInt n <> [].
Proof.
  intros H. unfold FormatInt, max_i64 in *. rewrite (proj2 (Z.ltb_ge n 0)) by lia. cbn [app].
  rewrite Z.abs_eq by lia. destruct (digits_spec 20 n) as [H1 H2]; [lia|]. split_and!; [done|done|].
  change (digits 20 n []) with (if n <? 10 then [48 + n mod 10] else digits 19 (n / 10) [48 + n mod 10]).
  case_if; [done|]. rewrite digits_app. intros E%app_eq_nil. by destruct E.
Qed.

(** ** Spaces *)

Definition solid (c : Z) : Prop := is_digit c = true \/ c = 45 \/ c = 46.

Lemma strip_any_solid ps c s :
  Forall (fun p => match p with [] => False | x :: _ => x <> c end) ps -> strip_any ps (c :: s) = None.
Proof.
  induction 1 as [|p ps Hp _ IH]; [done|]. cbn [strip_any]. destruct p as [|x p]; [done|]. cbn [strip].
  by rewrite (proj2 (Z.eqb_neq x c) Hp).
Qed.

Lemma spaces_solid c s : solid c -> strip_any spaces (c :: s) = None /\ strip_any (map (@rev Z) spaces) (c :: s) = None.
Proof.
  intros H. assert (45 <= c <= 57) by (destruct H as [H|[->| ->]]; [unfold is_digit in H; lia|lia|lia]).
  split; apply strip_any_solid; unfold spaces; cbn [map rev app]; repeat constructor; lia.
Qed.

Lemma TrimSpace_solid c l d s : solid c -> solid d -> s = c :: l -> last s = Some d -> TrimSpace s = s.
Proof.
  intros Hc Hd -> Hl. unfold TrimSpace, trim_left, trim_right.
  assert (trim spaces (length (c :: l)) (c :: l) = c :: l) as E
    by (cbn [length trim]; by rewrite (proj1 (spaces_solid c l Hc))).
  rewrite E. apply last_Some in Hl as [l' ->]. rewrite length_app, Nat.add_comm. cbn [length Nat.add].
  change (rev (l' ++ [d])) with (@rev Z (l' ++ [d])). rewrite rev_app_distr. cbn [rev app trim].
  rewrite (proj2 (spaces_solid d _ Hd)). cbn [rev]. by rewrite rev_involutive.
Qed.

Lemma scan_digits_all ds : alldigits ds -> scan_digits ds = ds.
Proof. induction 1 as [|c ds Hc _ IH]; [done|]. cbn. by rewrite Hc, IH. Qed.

Lemma Sscanf_digits ds :
  alldigits ds -> ds <> [] -> Sscanf_d ds = if bool_decide (in_i64 (value ds)) then Some (value ds) else None.
Proof.
  intros Hd Hne. destruct ds as [|c ds]; [done|]. pose proof (Forall_inv Hd) as Hc.
  assert (48 <= c <= 57) by (unfold is_digit in Hc; lia). unfold Sscanf_d.
  assert (skip_space (length (c :: ds)) (c :: ds) = Some (c :: ds)) as ->.
  { cbn [length skip_space]. rewrite (proj1 (spaces_solid c ds (or_introl Hc))).
    destruct (decide (c = 48 \/ c = 49 \/ c = 50 \/ c = 51 \/ c = 52 \/ c = 53 \/ c = 54 \/ c = 55 \/ c = 56 \/ c = 57)); [|lia].
    by repeat match goal with H : _ \/ _ |- _ => destruct H as [->|H] | H : c = _ |- _ => rewrite H end. }
  assert (match c :: ds with 43 :: s => (false, s) | 45 :: s => (true, s) | _ => (false, c :: ds) end = (false, c :: ds)) as ->.
  { destruct (decide (c = 48 \/ c = 49 \/ c = 50 \/ c = 51 \/ c = 52 \/ c = 53 \/ c = 54 \/ c = 55 \/ c = 56 \/ c = 57)); [|lia].
    by repeat match goal with H : _ \/ _ |- _ => destruct H as [->|H] | H : c = _ |- _ => rewrite H end. }
  by rewrite (scan_digits_all _ Hd).
Qed.

(** ** Parsing decimal text *)

Definition signed (neg : bool) (z : Z) : Z := if neg then i64 (- z) else z.
Definition sign (neg : bool) : list Z := if neg then [45] else [].

Lemma split_dot_digits W F : alldigits W -> split_dot (W ++ 46 :: F) = Some (W, F).
Proof.
  induction 1 as [|c W Hc _ IH]; [done|]. cbn. unfold is_digit in Hc.
  rewrite (proj2 (Z.eqb_neq c 46)) by lia. by rewrite IH.
Qed.

Lemma split_dot_none W : alldigits W -> split_dot W = None.
Proof.
  induction 1 as [|c W Hc _ IH]; [done|]. cbn. unfold is_digit in Hc.
  rewrite (proj2 (Z.eqb_neq c 46)) by lia. by rewrite IH.
Qed.

Lemma last_digit W : alldigits W -> W <> [] -> exists d, last W = Some d /\ solid d.
Proof.
  intros H Hne. destruct (last W) as [d|] eqn:E; [|by apply last_None in E]. exists d. split; [done|]. left.
  rewrite Forall_forall in H. apply H. apply last_Some in E as [l ->]. apply elem_of_app. right. by left.
Qed.

(** The text the parser sees after the sign. *)
Lemma sign_split neg c l :
  is_digit c = true ->
  match sign neg ++ c :: l with 45 :: s => (true, s) | _ => (false, sign neg ++ c :: l) end = (neg, c :: l).
Proof.
  intros Hc. destruct neg; [done|]. unfold is_digit in Hc. cbn [sign app].
  destruct (decide (c = 48 \/ c = 49 \/ c = 50 \/ c = 51 \/ c = 52 \/ c = 53 \/ c = 54 \/ c = 55 \/ c = 56 \/ c = 57)); [|lia].
  by repeat match goal with H : _ \/ _ |- _ => destruct H as [->|H] | H : c = _ |- _ => rewrite H end.
Qed.

Lemma ParseDecimal_text neg W t :
  alldigits W -> W <> [] -> (t = [] \/ exists F, t = 46 :: F /\ alldigits F) ->
  ParseDecimal (sign neg ++ W ++ t) =
  '(whole, frac) ← match split_dot (W ++ t) with
                   | Some (a, b) => whole ← Sscanf_d a; frac ← Sscanf_d (pad6 b); Some (whole, frac)
                   | None => whole ← Sscanf_d (W ++ t); Some (whole, 0)
                   end;
  if (whole <? 0) || (frac <? 0) then None else Some (signed neg (whole *64 MicroUnit +64 frac)).
Proof.
  intros HW Hne Ht. destruct W as [|c W]; [done|]. pose proof (Forall_inv HW) as Hc. unfold ParseDecimal.
  assert (exists d, last (sign neg ++ (c :: W) ++ t) = Some d /\ solid d) as (d & Hl & Hd).
  { destruct Ht as [->|(F & -> & HF)].
    - rewrite app_nil_r. rewrite last_app. destruct (last_digit (c :: W) HW ltac:(done)) as (d & E & Hd). rewrite E. eauto.
    - destruct (decide (F = [])) as [->|HF']; [exists 46; split; [|by right; right]; by rewrite !last_app|].
      destruct (last_digit F HF HF') as (d & E & Hd). exists d. split; [|done].
      change (46 :: F) with ([46] ++ F). by rewrite !last_app, E. }
  assert (TrimSpace (sign neg ++ (c :: W) ++ t) = sign neg ++ (c :: W) ++ t) as ->.
  { destruct neg.
    - eapply TrimSpace_solid; [by right; left|exact Hd|done|exact Hl].
    - eapply TrimSpace_solid; [left; exact Hc|exact Hd|done|exact Hl]. }
  cbn [app]. pose proof (sign_split neg c (W ++ t) Hc) as E.
  destruct (sign neg ++ c :: W ++ t) eqn:Es; [by destruct neg|]. rewrite E. cbn [app]. done.
Qed.

(** What decimal text means.  A non-empty row of digits, an optional sign
    and an optional dot with more digits are read as the whole units and the
    first six digits after the dot; the rest is dropped, the product with a
    million and the sum wrap around at 64 bits, and whole units beyond 64
    bits are an error. *)
Theorem ParseDecimal_spec neg W F :
  alldigits W -> W <> [] -> alldigits F ->
  let r := if bool_decide (in_i64 (value W))
           then Some (signed neg (value W *64 MicroUnit +64 value (pad6 F))) else None in
  ParseDecimal (sign neg ++ W ++ 46 :: F) = r /\ (F = [] -> ParseDecimal (sign neg ++ W) = r).
Proof.
  intros HW Hne HF r. pose proof (value_bound W HW) as Hb.
  assert (alldigits (pad6 F) /\ length (pad6 F) = 6%nat) as [HP HL].
  { unfold pad6. split; [apply Forall_app; split; [by apply Forall_take|by apply Forall_replicate]|].
    rewrite length_app, length_take, length_replicate. lia. }
  assert (Sscanf_d (pad6 F) = Some (value (pad6 F)) /\ 0 <= value (pad6 F)) as [HS Hp].
  { pose proof (value_bound _ HP) as Hb2. unfold zlen in Hb2. rewrite HL in Hb2. cbn in Hb2. split; [|lia].
    rewrite Sscanf_digits; [|done|by intros E; rewrite E in HL]. rewrite bool_decide_eq_true_2; [done|]. go_lia. }
  assert (forall t, split_dot (W ++ t) = Some (W, F) \/ (t = [] /\ F = []) ->
    (t = [] \/ exists F, t = 46 :: F /\ alldigits F) -> ParseDecimal (sign neg ++ W ++ t) = r) as H.
  { intros t Hsp Ht. rewrite (ParseDecimal_text neg W t HW Hne Ht). subst r. destruct Hsp as [->|[-> ->]].
    - rewrite (Sscanf_digits W HW Hne), HS. case_bool_decide; [|done]. cbn.
      by rewrite (proj2 (Z.ltb_ge _ 0)), (proj2 (Z.ltb_ge _ 0)) by lia.
    - rewrite app_nil_r, (split_dot_none W HW), (Sscanf_digits W HW Hne). case_bool_decide; [|done]. cbn.
      by rewrite (proj2 (Z.ltb_ge _ 0)) by lia. }
  split; [apply H; [left; by apply split_dot_digits|right; eauto]|].
  intros ->. rewrite <- (app_nil_r W) at 1. apply H; [by right|by left].
Qed.

(** ** Round trips *)

Lemma value_zeros k s : value (replicate k 48 ++ s) = value s.
Proof. induction k as [|k IH]; [done|]. change (replicate (S k) 48 ++ s) with ([48] ++ (replicate k 48 ++ s)). rewrite value_app, IH. cbn. lia. Qed.

Lemma value_shift s k : value (s ++ replicate k 48) = value s * 10 ^ Z.of_nat k.
Proof.
  rewrite value_app. unfold zlen. rewrite length_replicate.
  pose proof (value_zeros k []) as E. rewrite app_nil_r in E. rewrite E. cbn. lia.
Qed.

Lemma drop_zeros_spec s : exists k, s = replicate k 48 ++ drop_zeros s.
Proof.
  induction s as [|c s [k IH]]; [by exists 0%nat|]. destruct (decide (c = 48)) as [->|Hc].
  - exists (S k). cbn [drop_zeros replicate app]. by f_equal.
  - exists 0%nat. cbn [replicate app].
    assert (forall A (x y : A), match c with 48 => x | _ => y end = y) as E.
    { intros A x y. destruct c as [|q|q]; try done. do 6 (destruct q as [q|q|]; try done). }
    symmetry. apply E.
Qed.

Lemma TrimRight0_spec s : exists k, s = TrimRight0 s ++ replicate k 48.
Proof.
  destruct (drop_zeros_spec (rev s)) as [k E]. exists k. unfold TrimRight0.
  transitivity (rev (rev s)); [by rewrite rev_involutive|]. etransitivity; [apply (f_equal (@rev Z) E)|].
  rewrite rev_app_distr. f_equal.
  clear. induction k as [|k IH]; [done|]. cbn [replicate rev]. by rewrite IH, <- replicate_S_end.
Qed.

Lemma pad6_trim s : length s = 6%nat -> pad6 (TrimRight0 s) = s.
Proof.
  intros H. destruct (TrimRight0_spec s) as [k E]. pose proof (f_equal length E) as L.
  rewrite length_app, length_replicate, H in L. unfold pad6. rewrite take_ge by lia.
  rewrite E at 3. do 2 f_equal. lia.
Qed.

Lemma pad_left_spec n s : (length s + n = 6)%nat -> forall fuel, (n <= fuel)%nat -> pad_left fuel s = replicate n 48 ++ s.
Proof.
  revert s. induction n as [|n IH]; intros s H fuel Hf.
  - destruct fuel as [|fuel]; [done|]. cbn [pad_left]. by rewrite (proj2 (Nat.ltb_ge (length s) 6)) by lia.
  - destruct fuel as [|fuel]; [lia|]. cbn [pad_left]. rewrite (proj2 (Nat.ltb_lt (length s) 6)) by lia.
    rewrite IH; [|cbn; lia|lia]. by rewrite replicate_S_end, <- app_assoc.
Qed.

Lemma FormatInt_length n k : (1 <= k)%nat -> 0 <= n < 10 ^ Z.of_nat k -> (length (FormatInt n) <= k)%nat.
Proof.
  intros Hk H. unfold FormatInt. rewrite (proj2 (Z.ltb_ge n 0)) by lia. cbn [app]. rewrite Z.abs_eq by lia.
  apply digits_length; [done|lia].
Qed.

Lemma frac_digits f :
  0 <= f < 1000000 ->
  let s := pad_left 6 (FormatInt f) in alldigits s /\ length s = 6%nat /\ value s = f.
Proof.
  intros H s. destruct (FormatInt_spec f) as (H1 & H2 & _); [unfold max_i64; lia|].
  pose proof (FormatInt_length f 6 ltac:(lia) H) as Hl.
  assert (s = replicate (6 - length (FormatInt f)) 48 ++ FormatInt f) as -> by (apply pad_left_spec; lia).
  split_and!; [by apply Forall_app; split; [apply Forall_replicate|]| |by rewrite value_zeros].
  rewrite length_app, length_replicate. lia.
Qed.

Lemma alldigits_trim s : alldigits s -> alldigits (TrimRight0 s).
Proof. intros H. destruct (TrimRight0_spec s) as [k E]. rewrite E in H. by apply Forall_app in H as [H _]. Qed.

Lemma pad2_spec n :
  0 <= n < 100 -> alldigits (pad2 n) /\ value (pad6 (pad2 n)) = n * 10000.
Proof.
  intros H. destruct (FormatInt_spec n) as (H1 & H2 & H3); [unfold max_i64; lia|].
  pose proof (FormatInt_length n 2 ltac:(lia) H) as Hl.
  assert (alldigits (pad2 n) /\ value (pad2 n) = n /\ length (pad2 n) = 2%nat) as (P1 & P2 & P3).
  { unfold pad2. rewrite (proj2 (Z.leb_le 0 n)) by lia. destruct (n <? 10) eqn:E; cbn [andb].
    - pose proof (FormatInt_length n 1 ltac:(lia) ltac:(cbn; lia)). split_and!; [by constructor|by rewrite <- H2 at 2; apply (value_zeros 1)|].
      destruct (FormatInt n); [done|]. cbn in *. lia.
    - split_and!; [done|done|]. destruct (FormatInt n) as [|c [|c' [|]]]; [done| |done|cbn in Hl; lia].
      inversion H1 as [|? ? Hc]. unfold is_digit in Hc. cbn in H2. lia. }
  split; [done|]. unfold pad6. rewrite take_ge, P3 by lia. by rewrite value_shift, P2.
Qed.

(** C28: amounts survive their text.  Every amount but the smallest 64-bit
    integer is read back from [FormatDecimal] exactly, and from [FormatFixed2]
    truncated toward zero to whole hundredths of a unit. *)
Theorem parse_format_roundtrip m :
  in_i64 m -> m <> min_i64 ->
  ParseDecimal (FormatDecimal m) = Some m /\
  ParseDecimal (FormatFixed2 m) = Some (Z.quot m 10000 * 10000).
Proof.
  intros Hm Hmin. set (a := Z.abs m). set (neg := m <? 0).
  assert ((if neg then i64 (- m) else m) = a /\ 0 <= a <= max_i64) as [Ha Hr].
  { subst neg a. destruct (m <? 0) eqn:E; [rewrite i64_id|]; go_lia. }
  set (w := Z.quot a MicroUnit). set (f := Z.rem a MicroUnit).
  assert (a = MicroUnit * w + f /\ 0 <= f < MicroUnit) as [Hwf Hf] by (split; [apply Z.quot_rem'|apply Z.rem_bound_pos; unfold MicroUnit; lia]).
  assert (0 <= w <= max_i64) as Hw by (unfold MicroUnit in *; go_lia).
  destruct (FormatInt_spec w Hw) as (W1 & W2 & W3).
  assert (forall F, alldigits F -> 0 <= value (pad6 F) <= f ->
    signed neg (value (FormatInt w) *64 MicroUnit +64 value (pad6 F)) = (if neg then -1 else 1) * (MicroUnit * w + value (pad6 F)))
    as Hout.
  { intros F _ HF. rewrite W2. unfold MicroUnit in *. nowrap. unfold signed. destruct neg; nowrap; lia. }
  assert ((if neg then -1 else 1) * a = m) as Hs by (subst neg a; destruct (m <? 0) eqn:E; lia).
  assert (bool_decide (in_i64 (value (FormatInt w))) = true) as Hin by (apply bool_decide_eq_true_2; rewrite W2; go_lia).
  split.
  - unfold FormatDecimal. fold neg. rewrite Ha. fold w f. change (if neg then [45] else []) with (sign neg).
    destruct (f =? 0) eqn:E0.
    + destruct (ParseDecimal_spec neg (FormatInt w) [] W1 W3 ltac:(constructor)) as [_ Hp].
      rewrite (Hp eq_refl), Hin, Hout; [|constructor|cbn; lia]. f_equal. cbn. lia.
    + destruct (frac_digits f Hf) as (F1 & F2 & F3).
      destruct (ParseDecimal_spec neg (FormatInt w) (TrimRight0 (pad_left 6 (FormatInt f))) W1 W3 (alldigits_trim _ F1)) as [Hp _].
      cbn [app] in Hp |- *. rewrite Hp, Hin, Hout; [|by apply alldigits_trim|rewrite pad6_trim, F3; [lia|done]].
      rewrite pad6_trim, F3 by done. f_equal. lia.
  - unfold FormatFixed2. fold neg. rewrite Ha. fold w f. change (if neg then [45] else []) with (sign neg).
    assert (0 <= Z.quot f 10000 < 100) as Hq by (unfold MicroUnit in Hf; rewrite Z.quot_div_nonneg by lia; split; [apply Z.div_pos; lia|apply Z.div_lt_upper_bound; lia]).
    destruct (pad2_spec _ Hq) as [P1 P2].
    assert (Z.quot f 10000 * 10000 <= f) by (rewrite Z.quot_div_nonneg by lia; pose proof (Z.mul_div_le f 10000); lia).
    destruct (ParseDecimal_spec neg (FormatInt w) (pad2 (Z.quot f 10000)) W1 W3 P1) as [Hp _]. cbn [app] in Hp |- *.
    rewrite Hp, Hin, Hout; [|done|rewrite P2; lia]. rewrite P2. f_equal.
    assert (Z.quot a 10000 * 10000 = MicroUnit * w + Z.quot f 10000 * 10000) as <-.
    { rewrite !Z.quot_div_nonneg by lia. rewrite Hwf. unfold MicroUnit.
      replace (1000000 * w + f) with (f + (100 * w) * 10000) by lia. rewrite Z.div_add by lia. lia. }
    subst a neg. destruct (m <? 0) eqn:E.
    + rewrite Z.abs_neq, Z.quot_opp_l by lia. lia.
    + rewrite Z.abs_eq by lia. lia.
Qed.

Lemma parse_format_roundtrip_witness :
  in_i64 (-1234567) /\ ParseDecimal (FormatDecimal (-1234567)) = Some (-1234567) /\
  ParseDecimal (FormatFixed2 (-1234567)) = Some (-1230000).
Proof. split; [by vm_compute|]. apply (parse_format_roundtrip (-1234567)); by vm_compute. Defined.

(** Large amounts are read modulo 2^64.  Whole units that fit 64 bits are
    accepted whatever their number of micro-units, and the product wraps:
    18446744073710 units are read as 448384 micro-units. *)
Theorem parse_whole_wraps w : 0 <= w <= max_i64 -> ParseDecimal (FormatInt w) = Some (w *64 MicroUnit).
Proof.
  intros H. destruct (FormatInt_spec w H) as (W1 & W2 & W3).
  destruct (ParseDecimal_spec false (FormatInt w) [] W1 W3 ltac:(constructor)) as [_ Hp]. cbn [sign app] in Hp.
  rewrite (Hp eq_refl), W2, bool_decide_eq_true_2 by go_lia. cbn [signed]. f_equal.
  change (value (pad6 [])) with 0. rewrite Z.add_0_r. apply i64_id, i64_range.
Qed.

Lemma parse_whole_wraps_witness :
  0 <= 18446744073710 <= max_i64 /\ ParseDecimal (FormatInt 18446744073710) = Some (18446744073710 *64 MicroUnit) /\
  18446744073710 *64 MicroUnit = 448384.
Proof. split; [by vm_compute|]. split; [apply (parse_whole_wraps 18446744073710); by vm_compute|by vm_compute]. Defined.

(** ** Shares of an amount *)

(** A percentage of at most a hundred is the exact share rounded down as long
    as the product fits 64 bits. *)
Lemma PercentHundredths_exact a h :
  0 <= a -> 0 <= h <= 10000 -> a * h <= max_i64 ->
  PercentHundredths a h = a * h / 10000 /\ 0 <= PercentHundredths a h <= a.
Proof.
  intros Ha Hh Hm. unfold PercentHundredths. destruct ((a <=? 0) || (h <=? 0)) eqn:E.
  - assert (a * h = 0) as -> by (apply orb_true_iff in E as [E|E]; nia). split; [done|lia].
  - assert (0 <= a * h) by nia. nowrap. rewrite Z.quot_div_nonneg by lia. split; [done|].
    split; [apply Z.div_pos; lia|apply Z.div_le_upper_bound; nia].
Qed.

(** A share of a large amount is negative.  The product wraps before the
    division, so ten million units at 100% scale to a negative amount. *)
Theorem scale_ppm_wraps : ScalePPM 10000000000000 1000000 = -8446744073709.
Proof. reflexivity. Qed.

End Money.
