(* ===== verification/CampaignLedger.v ===== *)
(** * Campaigns and the money they hold

    Models the transactions that create, change and end campaigns
    ([internal/campaign]: [runtime/ops.go], [runtime/bulk_lifecycle.go],
    [patch_bundle.go], [clone_bundle.go], [lifecycle.go],
    [worker/autoscale.go], [worker/drain.go]) and those that settle their
    spend ([internal/domain/store_campaign.go], [internal/domain/budget],
    [internal/reconciliation/adjust_applier.go]).  The customers, campaigns
    and ledger are the tables of [PaymentLedger], so its movements and these
    run on one database.  Who may do what, the licence cap and the publish
    gate are arguments; audit rows, the columns that hold no money and the
    choice of the campaigns to rebalance, which compares floats, are left
    out.  [now] is the time of the transaction. *)

From stdpp Require Import pretty.
From S2P Require Import Prelude SqlTx PaymentLedger Money.
Open Scope string_scope.
Open Scope Z_scope.

Module CampaignLedger.

Import SqlTx PaymentLedger.

#[local] Abbreviation UUID := string (only parsing).

(** ** State *)

Inductive Event :=
  | CREATE_CAMPAIGN | PAUSE_CAMPAIGN | RESUME_CAMPAIGN | CANCEL_CAMPAIGN | UPDATE_CAMPAIGN_SCHEDULE.

(** The other columns of a campaign. *)
Record Info := mkInfo {
  owner : UUID; start_at : option Z; end_at : option Z; daypart_hours : list Z; deleted_at : bool; updated_at : Z }.

Record CDB := mkCDB {
  base : DB; info : gmap UUID Info; brands : gmap UUID UUID; sync_idempotency : gset string;
  ctv_settlements : gset string; history : list (UUID * option CampaignStatus * CampaignStatus);
  events : list (Event * UUID * Z); seq : Z }.

Inductive CErr :=
  | ELedger (e : Err) | EValidation | EForbidden | ELicenseCap | EFencing | ECampaignNotFound | ECustomerNotFound
  | EBrandNotFound | EBrandBelongsToAnotherCustomer | EIncompleteIdempotency | EInsufficientBalance
  | ECampaignCannotBePaused | ECampaignNotPaused | ECampaignOutsideSchedule | ECampaignPublishBlocked
  | ECampaignCannotBeArchived | EInsufficientCustomerBalance | ECampaignSpendSkipped | ENoRows | EUnique | EDB
  | ECTVBudget.

#[local] Abbreviation M := (SqlTx.M CDB CErr).

Definition with_base (d : DB) (s : CDB) : CDB :=
  mkCDB d (info s) (brands s) (sync_idempotency s) (ctv_settlements s) (history s) (events s) (seq s).
Definition with_info (m : gmap UUID Info) (s : CDB) : CDB :=
  mkCDB (base s) m (brands s) (sync_idempotency s) (ctv_settlements s) (history s) (events s) (seq s).

(** A transaction of the ledger inside one of these. *)
Definition on_base {A} (m : SqlTx.M DB Err A) : M A :=
  fun s => match m (base s) with
           | inl e => inl (ELedger e)
           | inr (a, d) => inr (a, with_base d s)
           end.

(** ** Queries *)

Definition GetCampaign (id : UUID) (s : CDB) : option (Campaign * Info) :=
  c ← campaigns (base s) !! id; i ← info s !! id; Some (c, i).
Definition GetCampaignForUpdate (id : UUID) (missing : CErr) : M (Campaign * Info) :=
  let! s := read (fun s => s) in lift (GetCampaign id s) missing.

Definition put_campaign (id : UUID) (c : Campaign) (i : Info) : M unit :=
  modify (fun s => with_info (<[id := i]> (info s))
    (with_base (mkDB (customers (base s)) (<[id := c]> (campaigns (base s))) (balance_ledger (base s))
                     (status_history (base s)) (outbox (base s))) s)).

Definition touch (now : Z) (i : Info) : Info :=
  mkInfo (owner i) (start_at i) (end_at i) (daypart_hours i) (deleted_at i) now.

Definition UpdateCampaignStatus (now : Z) (id : UUID) (st : CampaignStatus) : M unit :=
  let! ci := GetCampaignForUpdate id ENoRows in
  put_campaign id (mkCampaign st (budget_limit (fst ci)) (current_spend (fst ci))) (touch now (snd ci)).

Definition PauseCampaign (now : Z) (id : UUID) : M unit :=
  let! ci := GetCampaignForUpdate id ENoRows in
  guard (bool_decide (status (fst ci) = ACTIVE) || bool_decide (status (fst ci) = EXHAUSTED)) ENoRows ;;
  UpdateCampaignStatus now id PAUSED.

Definition ResumeCampaign (now : Z) (id : UUID) : M unit :=
  let! ci := GetCampaignForUpdate id ENoRows in
  guard (bool_decide (status (fst ci) = PAUSED)) ENoRows ;;
  UpdateCampaignStatus now id ACTIVE.

Definition UpdateCampaignBudget (now : Z) (id : UUID) (limit : Z) : M unit :=
  let! ci := GetCampaignForUpdate id ENoRows in
  put_campaign id (mkCampaign (status (fst ci)) limit (current_spend (fst ci))) (touch now (snd ci)).

Definition UpdateCampaignSchedule (now : Z) (id : UUID) (startAt endAt : option Z) (hours : list Z) : M unit :=
  let! ci := GetCampaignForUpdate id ENoRows in
  put_campaign id (fst ci) (mkInfo (owner (snd ci)) startAt endAt hours (deleted_at (snd ci)) now).

Definition SoftDeleteCampaign (id : UUID) : M unit :=
  let! s := read (fun s => s) in
  match GetCampaign id s with
  | None => ret tt
  | Some (c, i) =>
      put_campaign id (mkCampaign DELETED (budget_limit c) (current_spend c))
        (mkInfo (owner i) (start_at i) (end_at i) (daypart_hours i) true (updated_at i))
  end.

(** No row, no error. *)
Definition UpdateCampaignSpend (now : Z) (id : UUID) (amt : Z) : M unit :=
  let! s := read (fun s => s) in
  match GetCampaign id s with
  | None => ret tt
  | Some (c, i) =>
      guard (bool_decide (in_i64 (current_spend c + amt))) EDB ;;
      put_campaign id
        (mkCampaign (if budget_limit c <=? current_spend c + amt then EXHAUSTED else status c)
                    (budget_limit c) (current_spend c + amt)) (touch now i)
  end.

Definition InsertCampaign (id : UUID) (c : Campaign) (i : Info) : M unit :=
  let! s := read (fun s => s) in
  guard (bool_decide (GetCampaign id s = None)) EUnique ;;
  put_campaign id c i.

Definition CreateStatusHistory (id : UUID) (old : option CampaignStatus) (new : CampaignStatus) : M unit :=
  modify (fun s => mkCDB (base s) (info s) (brands s) (sync_idempotency s) (ctv_settlements s)
                         (history s ++ [(id, old, new)]) (events s) (seq s)).

Definition CreateOutboxEvent (ev : Event) (id : UUID) (limit : Z) : M unit :=
  modify (fun s => mkCDB (base s) (info s) (brands s) (sync_idempotency s) (ctv_settlements s)
                         (history s) (events s ++ [(ev, id, limit)]) (seq s)).

(** The id of the row is the next value of its sequence. *)
Definition entry (cust camp : UUID) (amt : Z) (t : LedgerType) (hash : option string) : M Z :=
  let! s := read (fun s => s) in
  modify (fun s => mkCDB (base s) (info s) (brands s) (sync_idempotency s) (ctv_settlements s)
                         (history s) (events s) (seq s + 1)) ;;
  on_base (CreateLedgerEntry (mkEntry (seq s) cust (Some camp) amt t hash None)).

Definition credit (cust : UUID) (delta : Z) : M unit :=
  on_base (UpdateCustomerBalanceManagement cust delta ErrNoRows).

Definition GetCustomerForUpdate (id : UUID) : M Customer :=
  let! s := read (fun s => s) in lift (customers (base s) !! id) ECustomerNotFound.

(** ** Schedules and events *)

Definition validateDaypartHours (hours : list Z) : M unit :=
  guard (forallb (fun h => (0 <=? h) && (h <=? 23)) hours) EValidation.
Definition validateSchedule (startAt endAt : option Z) : M unit :=
  guard (match startAt, endAt with Some a, Some b => a <? b | _, _ => true end) EValidation.

Definition ResolveScheduleStatus (now : Z) (startAt endAt : option Z) : CampaignStatus :=
  if match startAt with Some a => now <? a | None => false end then PAUSED
  else if match endAt with Some b => b <=? now | None => false end then PAUSED
  else ACTIVE.

Definition EmitCampaignLifecycleOutbox (id : UUID) (st : CampaignStatus) (limit : Z) : M unit :=
  match st with
  | ACTIVE => CreateOutboxEvent CREATE_CAMPAIGN id limit
  | PAUSED => CreateOutboxEvent PAUSE_CAMPAIGN id 0
  | _ => ret tt
  end.

Definition TransitionCampaignStatus (now : Z) (id : UUID) (old new : CampaignStatus) (budget : Z) : M unit :=
  UpdateCampaignStatus now id new ;;
  CreateStatusHistory id (Some old) new ;;
  EmitCampaignLifecycleOutbox id new budget.

(** ** Creating a campaign *)

Record CreateCampaignSpec := mkSpec {
  CustomerID : UUID; BudgetLimitMicro : Z; StartAt : option Z; EndAt : option Z; DaypartHours : list Z;
  BrandID : option UUID; IdempotencyKey : string }.

(** A key that was used answers with the campaign of its ledger row. *)
Definition replayed (key : string) (k : M UUID) : M UUID :=
  let! s := read (fun s => s) in
  match GetLedgerByHashForUpdate key (base s) with
  | Some e => lift (campaign_id e) EIncompleteIdempotency
  | None => k
  end.

Definition check_brand (cust : UUID) (b : option UUID) : M unit :=
  match b with
  | None => ret tt
  | Some b =>
      let! s := read (fun s => s) in
      let! o := lift (brands s !! b) EBrandNotFound in
      guard (bool_decide (o = cust)) EBrandBelongsToAnotherCustomer
  end.

(** [id] is the UUID drawn for the campaign. *)
Definition create_tx (now : Z) (id : UUID) (spec : CreateCampaignSpec) : M UUID :=
  replayed (IdempotencyKey spec)
    (let! cust := GetCustomerForUpdate (CustomerID spec) in
     guard (BudgetLimitMicro spec <=? balance cust +64 allowed_overdraft cust) EInsufficientBalance ;;
     check_brand (CustomerID spec) (BrandID spec) ;;
     credit (CustomerID spec) (i64 (- BudgetLimitMicro spec)) ;;
     let initial := ResolveScheduleStatus now (StartAt spec) (EndAt spec) in
     InsertCampaign id (mkCampaign initial (BudgetLimitMicro spec) 0)
       (mkInfo (CustomerID spec) (StartAt spec) (EndAt spec) (DaypartHours spec) false now) ;;
     entry (CustomerID spec) id (BudgetLimitMicro spec) FREEZE (Some (IdempotencyKey spec)) ;;
     CreateStatusHistory id None initial ;;
     EmitCampaignLifecycleOutbox id initial (BudgetLimitMicro spec) ;;
     ret id).

Definition createCampaign (cap_ok : bool) (now : Z) (id : UUID) (spec : CreateCampaignSpec) : M UUID :=
  validateDaypartHours (DaypartHours spec) ;;
  validateSchedule (StartAt spec) (EndAt spec) ;;
  guard cap_ok ELicenseCap ;;
  create_tx now id spec.

(** The money and rows of a clone; the copies of its settings are left out. *)
Definition CloneCampaign (access : bool) (now : Z) (id source : UUID) (key : string) : M UUID :=
  replayed key
    (let! src := GetCampaignForUpdate source ECampaignNotFound in
     guard access EForbidden ;;
     guard (negb (deleted_at (snd src))) ECampaignNotFound ;;
     let! cust := GetCustomerForUpdate (owner (snd src)) in
     guard (budget_limit (fst src) <=? balance cust +64 allowed_overdraft cust) EInsufficientBalance ;;
     let initial := ResolveScheduleStatus now (start_at (snd src)) (end_at (snd src)) in
     credit (owner (snd src)) (i64 (- budget_limit (fst src))) ;;
     InsertCampaign id (mkCampaign initial (budget_limit (fst src)) 0)
       (mkInfo (owner (snd src)) (start_at (snd src)) (end_at (snd src)) (daypart_hours (snd src)) false now) ;;
     entry (owner (snd src)) id (budget_limit (fst src)) FREEZE (Some key) ;;
     CreateStatusHistory id None initial ;;
     EmitCampaignLifecycleOutbox id initial (budget_limit (fst src)) ;;
     ret id).

(** ** Status *)

Definition pauseCampaignLocked (access : bool) (now : Z) (id : UUID) (camp : Campaign) : M unit :=
  guard access EForbidden ;;
  if bool_decide (status camp = PAUSED) then ret tt
  else
    guard (bool_decide (status camp = ACTIVE)) ECampaignCannotBePaused ;;
    PauseCampaign now id ;;
    CreateStatusHistory id (Some (status camp)) PAUSED ;;
    CreateOutboxEvent PAUSE_CAMPAIGN id (budget_limit camp).

Definition pauseCampaign (access : bool) (now : Z) (id : UUID) : M unit :=
  let! ci := GetCampaignForUpdate id ECampaignNotFound in pauseCampaignLocked access now id (fst ci).

(** [publish] is the verdict of the publish gate. *)
Definition resumeCampaignLocked (access publish : bool) (now : Z) (id : UUID) (camp : Campaign) (i : Info) : M unit :=
  guard access EForbidden ;;
  guard (bool_decide (status camp = PAUSED)) ECampaignNotPaused ;;
  guard (bool_decide (ResolveScheduleStatus now (start_at i) (end_at i) = ACTIVE)) ECampaignOutsideSchedule ;;
  guard publish ECampaignPublishBlocked ;;
  ResumeCampaign now id ;;
  CreateStatusHistory id (Some (status camp)) ACTIVE ;;
  CreateOutboxEvent RESUME_CAMPAIGN id (budget_limit camp).

Definition resumeCampaign (access publish : bool) (now : Z) (id : UUID) : M unit :=
  let! ci := GetCampaignForUpdate id ECampaignNotFound in
  resumeCampaignLocked access publish now id (fst ci) (snd ci).

Definition ArchiveCampaignStatus (now : Z) (id : UUID) (locked : Campaign) : M unit :=
  match status locked with
  | ARCHIVED => ret tt
  | DELETED | DRAINING => raise ECampaignCannotBeArchived
  | old =>
      TransitionCampaignStatus now id old ARCHIVED (budget_limit locked) ;;
      match old with
      | ACTIVE | EXHAUSTED => CreateOutboxEvent PAUSE_CAMPAIGN id (budget_limit locked)
      | _ => ret tt
      end
  end.

Definition archiveCampaign (access : bool) (now : Z) (id : UUID) : M unit :=
  let! ci := GetCampaignForUpdate id ECampaignNotFound in
  guard access EForbidden ;; ArchiveCampaignStatus now id (fst ci).

Definition ApplyStatusPatch (publish : bool) (now : Z) (id : UUID) (locked : Campaign) (i : Info)
    (want : CampaignStatus) : M unit :=
  if bool_decide (want = status locked) then ret tt
  else match want with
  | ARCHIVED => ArchiveCampaignStatus now id locked
  | PAUSED =>
      guard (bool_decide (status locked = ACTIVE)) ECampaignCannotBePaused ;;
      PauseCampaign now id ;;
      CreateStatusHistory id (Some (status locked)) PAUSED ;;
      CreateOutboxEvent PAUSE_CAMPAIGN id 0
  | ACTIVE => resumeCampaignLocked true publish now id locked i
  | _ => raise EValidation
  end.

Definition ApplySchedulePatch (publish : bool) (now : Z) (id : UUID) (locked : Campaign)
    (startAt endAt : option Z) (hours : list Z) : M unit :=
  validateDaypartHours hours ;;
  validateSchedule startAt endAt ;;
  UpdateCampaignSchedule now id startAt endAt hours ;;
  CreateOutboxEvent UPDATE_CAMPAIGN_SCHEDULE id 0 ;;
  match ResolveScheduleStatus now startAt endAt, status locked with
  | PAUSED, ACTIVE => TransitionCampaignStatus now id ACTIVE PAUSED (budget_limit locked)
  | ACTIVE, PAUSED =>
      guard publish ECampaignPublishBlocked ;; TransitionCampaignStatus now id PAUSED ACTIVE (budget_limit locked)
  | _, _ => ret tt
  end.

(** ** The budget of a campaign *)

Definition patch_key (id : UUID) (limit : Z) : string := "patch-budget:" +:+ id +:+ ":" +:+ pretty limit.

(** [buyer] is the verdict on an increase a media buyer asks for. *)
Definition ApplyBudgetPatch (buyer : bool) (now : Z) (id : UUID) (locked : Campaign) (cust_id : UUID)
    (newLimit : Z) : M unit :=
  if newLimit =? budget_limit locked then ret tt
  else
    guard ((newLimit <=? budget_limit locked) || buyer) EForbidden ;;
    guard (current_spend locked <=? newLimit) EValidation ;;
    let delta := newLimit -64 budget_limit locked in
    let! cust := GetCustomerForUpdate cust_id in
    (if 0 <? delta then
       guard (delta <=? balance cust +64 allowed_overdraft cust) EInsufficientBalance ;;
       credit cust_id (i64 (- delta)) ;;
       entry cust_id id delta FREEZE (Some (patch_key id newLimit)) ;; ret tt
     else
       let release := i64 (- delta) in
       credit cust_id release ;;
       entry cust_id id release RELEASE (Some (patch_key id newLimit +:+ ":release")) ;; ret tt) ;;
    UpdateCampaignBudget now id newLimit ;;
    (if bool_decide (status locked = ACTIVE) then CreateOutboxEvent CREATE_CAMPAIGN id newLimit else ret tt).

(** [patchCampaign]: budget, then schedule, then status, each if asked for;
    a date or the hours left out stay as they are.  The row is read again
    after each part. *)
Record Patch := mkPatch {
  p_budget : option Z; p_start : option Z; p_end : option Z; p_hours : option (list Z);
  p_status : option CampaignStatus }.
Definition schedulePatch (p : Patch) : bool :=
  bool_decide (is_Some (p_start p)) || bool_decide (is_Some (p_end p)) || bool_decide (is_Some (p_hours p)).
Definition or_else {A} (o o' : option A) : option A := match o with Some _ => o | None => o' end.

Definition patchCampaign (access buyer publish : bool) (now : Z) (id : UUID) (p : Patch) : M unit :=
  GetCampaignForUpdate id ECampaignNotFound ;;
  guard access EForbidden ;;
  (match p_budget p with
   | None => ret tt
   | Some b =>
       let! ci := GetCampaignForUpdate id ECampaignNotFound in
       ApplyBudgetPatch buyer now id (fst ci) (owner (snd ci)) b
   end) ;;
  (if schedulePatch p then
     let! ci := GetCampaignForUpdate id ECampaignNotFound in
     ApplySchedulePatch publish now id (fst ci) (or_else (p_start p) (start_at (snd ci)))
       (or_else (p_end p) (end_at (snd ci))) (default (daypart_hours (snd ci)) (p_hours p))
   else ret tt) ;;
  (match p_status p with
   | None => ret tt
   | Some want =>
       let! ci := GetCampaignForUpdate id ECampaignNotFound in
       ApplyStatusPatch publish now id (fst ci) (snd ci) want
   end).

(** ** Cancelling and draining *)

Definition CancelCampaign (now : Z) (id : UUID) : M unit :=
  let! ci := GetCampaignForUpdate id ENoRows in
  if bool_decide (status (fst ci) = DELETED) || bool_decide (status (fst ci) = DRAINING) then ret tt
  else
    UpdateCampaignStatus now id DRAINING ;;
    CreateStatusHistory id (Some (status (fst ci))) DRAINING ;;
    CreateOutboxEvent CANCEL_CAMPAIGN id 0.

(** [fee_hundredths] is the cancellation fee in hundredths of a percent. *)
Definition FinalizeDrainingCampaign (fee_hundredths : Z) (id : UUID) (camp : Campaign) (cust : UUID) : M unit :=
  if bool_decide (status camp <> DRAINING) then ret tt
  else
    let remaining := Z.max 0 (budget_limit camp -64 current_spend camp) in
    let fee := Money.PercentFromFloat remaining fee_hundredths in
    let refund := remaining -64 fee in
    (if 0 <? refund then credit cust refund ;; entry cust id refund RELEASE None ;; ret tt else ret tt) ;;
    (if 0 <? fee then entry cust id fee FEE None ;; ret tt else ret tt) ;;
    SoftDeleteCampaign id ;;
    CreateStatusHistory id (Some DRAINING) DELETED.

Definition FinalizeCancelledCampaign (fenced : bool) (fee_hundredths : Z) (id : UUID) : M unit :=
  guard (negb fenced) EFencing ;;
  let! ci := GetCampaignForUpdate id ENoRows in
  FinalizeDrainingCampaign fee_hundredths id (fst ci) (owner (snd ci)).

(** [GetDrainingCampaignsForUpdate] with a limit of one: a row with the
    smallest time among those another transaction does not hold. *)
Definition drainable (threshold : Z) (locked : list UUID) (s : CDB) (id : UUID) : option (Campaign * Info) :=
  '(c, i) ← GetCampaign id s;
  if bool_decide (status c = DRAINING) && (updated_at i <? threshold) && negb (bool_decide (id ∈ locked))
  then Some (c, i) else None.

Definition oldest (threshold : Z) (locked : list UUID) (s : CDB) (acc : option (UUID * Z)) (id : UUID)
    : option (UUID * Z) :=
  match drainable threshold locked s id with
  | None => acc
  | Some (_, i) =>
      match acc with
      | Some (_, t) => if t <=? updated_at i then acc else Some (id, updated_at i)
      | None => Some (id, updated_at i)
      end
  end.

Definition next_draining (threshold : Z) (locked : list UUID) (s : CDB) : option UUID :=
  fst <$> foldl (oldest threshold locked s) None (map fst (map_to_list (info s))).

Definition finalizeNextDraining (fee_hundredths threshold : Z) (locked : list UUID) : M bool :=
  let! s := read (fun s => s) in
  match next_draining threshold locked s with
  | None => ret false
  | Some id =>
      let! ci := GetCampaignForUpdate id ENoRows in
      FinalizeDrainingCampaign fee_hundredths id (fst ci) (owner (snd ci)) ;; ret true
  end.

(** [ProcessDraining]: a transaction per campaign, at most a hundred. *)
Fixpoint drain (n : nat) (fee_hundredths threshold : Z) (s : CDB) : CDB :=
  match n with
  | O => s
  | S n =>
      match BeginFunc (finalizeNextDraining fee_hundredths threshold []) s with
      | (inr true, s') => drain n fee_hundredths threshold s'
      | (_, s') => s'
      end
  end.
Definition ProcessDraining (fee_hundredths now waitTimeoutMs : Z) (s : CDB) : CDB :=
  drain 100 fee_hundredths (now - (if waitTimeoutMs <=? 0 then 100 else waitTimeoutMs)) s.

(** ** Moving budget between campaigns

    The transfer of [AutoscaleBudgetsTx] between the two campaigns it chose;
    [key] is their [autoscaleTransferKey]. *)
Definition autoscale_transfer (now : Z) (cust worst best : UUID) (key : string) (shiftAmount : Z) : M unit :=
  let! s := read (fun s => s) in
  match GetLedgerByHashForUpdate key (base s) with
  | Some _ => ret tt
  | None =>
      let! w := GetCampaignForUpdate worst ENoRows in
      let! b := GetCampaignForUpdate best ENoRows in
      if negb (bool_decide (status (fst w) = ACTIVE) && bool_decide (status (fst b) = ACTIVE)) then ret tt
      else
        let newWorst := budget_limit (fst w) -64 shiftAmount in
        let newBest := budget_limit (fst b) +64 shiftAmount in
        if (newWorst <? current_spend (fst w)) || (newWorst <=? 0) then ret tt
        else
          credit cust shiftAmount ;;
          entry cust worst shiftAmount RELEASE (Some (key +:+ ":release")) ;;
          credit cust (i64 (- shiftAmount)) ;;
          entry cust best shiftAmount FREEZE (Some key) ;;
          UpdateCampaignBudget now worst newWorst ;;
          UpdateCampaignBudget now best newBest ;;
          CreateOutboxEvent CREATE_CAMPAIGN worst newWorst ;;
          CreateOutboxEvent CREATE_CAMPAIGN best newBest
  end.

(** ** Settling spend *)

Definition claim_tx (tx : string) : M unit :=
  modify (fun s => mkCDB (base s) (info s) (brands s) ({[tx]} ∪ sync_idempotency s) (ctv_settlements s)
                         (history s) (events s) (seq s)).

Record SpendFlushItem := mkItem { CampaignID : UUID; AmountMicro : Z; RtbCostMicro : Z; TxID : string; StrictFlush : bool }.

(** [ComputeMarginEconomicsSplit] and [marginEconomicsLegs]. *)
Definition margin_legs (revenue rtb : Z) : list (Z * LedgerType * string) :=
  let rtb := Z.min rtb revenue in
  [(rtb, rtb_cost, "margin:rtb"); (rtb, publisher_payout, "margin:pub"); (revenue -64 rtb, operator_margin, "margin:op")].

Fixpoint write_legs (cust camp : UUID) (tx : string) (legs : list (Z * LedgerType * string)) : M unit :=
  match legs with
  | [] => ret tt
  | (amt, t, p) :: legs =>
      (if amt <=? 0 then ret tt else entry cust camp amt t (Some (p +:+ ":" +:+ tx)) ;; ret tt) ;;
      write_legs cust camp tx legs
  end.

Definition WriteMarginEconomicsLegs (cust camp : UUID) (tx : string) (revenue rtb : Z) : M unit :=
  if rtb <=? 0 then ret tt
  else guard (0 <? revenue) EDB ;; write_legs cust camp tx (margin_legs revenue rtb).

(** One item inside its savepoint; [held] says that another transaction holds
    the row.  [inr] of an error is an outcome after the rollback to the
    savepoint, [inl] aborts the batch. *)
Definition applySpendFlush (now : Z) (held : bool) (it : SpendFlushItem) : M (option CErr) :=
  let! s0 := read (fun s => s) in
  if bool_decide (TxID it ∈ sync_idempotency s0) then ret None
  else
    claim_tx (TxID it) ;;
    match (ci ← GetCampaign (CampaignID it) s0; cust ← customers (base s0) !! owner (snd ci); Some (ci, cust)) with
    | None =>
        if StrictFlush it then raise ENoRows else modify (fun _ => s0) ;; ret (Some ECampaignSpendSkipped)
    | Some (ci, cust) =>
        if held && negb (StrictFlush it) then modify (fun _ => s0) ;; ret (Some ECampaignSpendSkipped)
        else if balance cust <? AmountMicro it then modify (fun _ => s0) ;; ret (Some EInsufficientCustomerBalance)
        else
          entry (owner (snd ci)) (CampaignID it) (i64 (- AmountMicro it)) FEE (Some ("spend_batch:" +:+ TxID it)) ;;
          UpdateCampaignSpend now (CampaignID it) (AmountMicro it) ;;
          (if 0 <? RtbCostMicro it
           then WriteMarginEconomicsLegs (owner (snd ci)) (CampaignID it) (TxID it) (AmountMicro it) (RtbCostMicro it)
           else ret tt) ;;
          ret None
    end.

Fixpoint UpdateSpendBatch (now : Z) (items : list (bool * SpendFlushItem)) : M (list (option CErr)) :=
  match items with
  | [] => ret []
  | (held, it) :: items =>
      let! o := applySpendFlush now held it in
      let! os := UpdateSpendBatch now items in
      ret (o :: os)
  end.

(** [CustomerRepo.UpdateBalance]: the customer's share of the spend sync. *)
Definition UpdateBalance (cust : UUID) (amount : Z) (tx : string) : M unit :=
  let! s := read (fun s => s) in
  if bool_decide (tx ∈ sync_idempotency s) then ret tt
  else
    claim_tx tx ;;
    match customers (base s) !! cust with
    | None => ret tt
    | Some c => on_base (put_customer cust (mkCustomer (balance c - amount) (allowed_overdraft c)))
    end.

Definition reconciliationAdjustIdempotencyHash (eventID : Z) : string := "recon_adjust_outbox_" +:+ pretty eventID.

(** [AdjustApplier.applyPostgres]. *)
Definition applyPostgres (now eventID : Z) (camp cust : UUID) (ledgerAmt : Z) : M unit :=
  let! s := read (fun s => s) in
  match GetLedgerByHashForUpdate (reconciliationAdjustIdempotencyHash eventID) (base s) with
  | Some _ => ret tt
  | None =>
      entry cust camp ledgerAmt RECONCILIATION_ADJUST (Some (reconciliationAdjustIdempotencyHash eventID)) ;;
      let spendDelta := i64 (- ledgerAmt) in
      if spendDelta =? 0 then ret tt else UpdateCampaignSpend now camp spendDelta
  end.

Definition computeCTVGTaxMicro (spendMicro rateBPS : Z) : Z :=
  if (spendMicro <=? 0) || (rateBPS <=? 0) then 0 else Z.quot (spendMicro *64 rateBPS +64 5000) 10000.

(** [rate] is the rate of the customer's profile, if it is enabled. *)
Definition ApplyCTVSettlement (now : Z) (rate : option Z) (settlementID : string) (camp : UUID) (spendMicro : Z) : M unit :=
  guard (negb (bool_decide (settlementID = "")) && (0 <? spendMicro)) EValidation ;;
  let! s := read (fun s => s) in
  if bool_decide (settlementID ∈ ctv_settlements s) then ret tt
  else
    let taxMicro := match rate with Some r => computeCTVGTaxMicro spendMicro r | None => 0 end in
    let! ci := GetCampaignForUpdate camp ECampaignNotFound in
    let! cust := lift (customers (base s) !! owner (snd ci)) ECampaignNotFound in
    guard (spendMicro +64 taxMicro <=? balance cust) EInsufficientCustomerBalance ;;
    guard (current_spend (fst ci) +64 spendMicro <=? budget_limit (fst ci)) ECTVBudget ;;
    entry (owner (snd ci)) camp (i64 (- spendMicro)) FEE (Some ("ctv:fee:" +:+ settlementID)) ;;
    (if 0 <? taxMicro
     then entry (owner (snd ci)) camp (i64 (- taxMicro)) CTV_GTAX (Some ("ctv:gtax:" +:+ settlementID)) ;; ret tt
     else ret tt) ;;
    UpdateCampaignSpend now camp spendMicro ;;
    modify (fun s => mkCDB (base s) (info s) (brands s) (sync_idempotency s) ({[settlementID]} ∪ ctv_settlements s)
                           (history s) (events s) (seq s)).

(** ** What the books explain

    The money a customer's campaigns hold is what their budgets leave unspent.
    Of the ledger, credits count in full, fees as debits whatever their sign,
    and moves between balance and campaigns not at all. *)
Definition rows (s : CDB) : gmap UUID (Campaign * Info) := map_zip (campaigns (base s)) (info s).

Definition contrib (k : UUID) (ci : Campaign * Info) : Z :=
  if bool_decide (owner (snd ci) = k) && negb (bool_decide (status (fst ci) = DELETED))
  then budget_limit (fst ci) - current_spend (fst ci) else 0.

Definition held (k : UUID) (s : CDB) : Z := map_total (fun x => contrib k (snd x)) (rows s).

Definition signed (t : LedgerType) (amt : Z) : Z :=
  match t with
  | TOPUP | REFUND | RECONCILIATION_ADJUST | PAYMENT_TOPUP | PAYMENT_REFUND | PAYMENT_CHARGEBACK
  | PAYMENT_CHARGEBACK_REVERSAL => amt
  | FEE => - Z.abs amt
  | FREEZE | RELEASE | CTV_GTAX | rtb_cost | operator_margin | publisher_payout => 0
  end.
Definition explained (e : Entry) : Z := signed (type e) (amount e).

Definition due (k : UUID) (s : CDB) : Z :=
  sumZ (map (fun e => if bool_decide (customer_id e = k) then explained e else 0) (balance_ledger (base s))).

Definition balance_of (k : UUID) (s : CDB) : Z :=
  match customers (base s) !! k with Some c => balance c | None => 0 end.

(** The money of a customer that no row accounts for. *)
Definition unexplained (k : UUID) (s : CDB) : Z := balance_of k s + held k s - due k s.

Definition at_cust (k cust : UUID) (z : Z) : Z := if bool_decide (cust = k) then z else 0.

Lemma GetCampaign_rows id s : GetCampaign id s = rows s !! id.
Proof. unfold GetCampaign, rows. rewrite map_lookup_zip_with. done. Qed.

Lemma GetCampaignForUpdate_inr id e s ci s' :
  GetCampaignForUpdate id e s = inr (ci, s') <-> rows s !! id = Some ci /\ s' = s.
Proof.
  unfold GetCampaignForUpdate. rewrite <- GetCampaign_rows. split.
  - intros H. tx_inv H. done.
  - intros [H ->]. unfold bind, read, lift, ret. by rewrite H.
Qed.

(** What a step of a transaction does to the rows and to what is unexplained. *)
Definition effect (f : gmap UUID (Campaign * Info) -> gmap UUID (Campaign * Info)) (dz : UUID -> Z) (s s' : CDB) : Prop :=
  rows s' = f (rows s) /\ forall k, unexplained k s' = unexplained k s + dz k.

Lemma put_campaign_effect id c i s u s' :
  put_campaign id c i s = inr (u, s') ->
  effect (insert id (c, i))
    (fun k => contrib k (c, i) - weight_at (fun x => contrib k (snd x)) (rows s) id) s s'.
Proof.
  intros H. unfold put_campaign in H. tx_inv H.
  assert (forall b : CDB, info b = <[id := i]> (info s) -> campaigns (base b) = <[id := c]> (campaigns (base s)) ->
          rows b = <[id := (c, i)]> (rows s)) as Hr.
  { intros b Hi Hc. unfold rows. rewrite Hi, Hc. by rewrite map_insert_zip_with. }
  split; [by apply Hr|]. intros k. unfold unexplained, held. rewrite Hr by done. rewrite map_total_insert.
  unfold balance_of, due. cbn. lia.
Qed.

Lemma same_money s s' : base s' = base s -> info s' = info s -> effect id (fun _ => 0) s s'.
Proof.
  intros Hb Hi. assert (rows s' = rows s) as Hr by (unfold rows; by rewrite Hb, Hi). split; [done|]. intros k.
  unfold unexplained, held, balance_of, due. rewrite Hr, Hb. lia.
Qed.

Lemma CreateStatusHistory_effect id o n s u s' :
  CreateStatusHistory id o n s = inr (u, s') -> effect (fun m => m) (fun _ => 0) s s'.
Proof. intros H. unfold CreateStatusHistory in H. tx_inv H. by apply same_money. Qed.

Lemma CreateOutboxEvent_effect ev id l s u s' :
  CreateOutboxEvent ev id l s = inr (u, s') -> effect (fun m => m) (fun _ => 0) s s'.
Proof. intros H. unfold CreateOutboxEvent in H. tx_inv H. by apply same_money. Qed.

Lemma EmitCampaignLifecycleOutbox_effect id st l s u s' :
  EmitCampaignLifecycleOutbox id st l s = inr (u, s') -> effect (fun m => m) (fun _ => 0) s s'.
Proof.
  destruct st; cbn; intros H; eauto using CreateOutboxEvent_effect; tx_inv H; by apply same_money.
Qed.

Lemma on_base_inr {A} (m : SqlTx.M DB Err A) s a s' :
  on_base m s = inr (a, s') <-> exists d, m (base s) = inr (a, d) /\ s' = with_base d s.
Proof. unfold on_base. destruct (m (base s)) as [e|[b d]]; naive_solver. Qed.

Lemma entry_effect cust camp amt t h s n s' :
  entry cust camp amt t h s = inr (n, s') ->
  effect (fun m => m)
    (fun k => - at_cust k cust (signed t amt)) s s' /\
  customers (base s') = customers (base s) /\
  balance_ledger (base s') = balance_ledger (base s) ++ [mkEntry (seq s) cust (Some camp) amt t h None].
Proof.
  intros H. unfold entry in H. apply bind_inr in H as (? & ? & [= <- <-] & H).
  apply bind_inr in H as (? & ? & [= <- <-] & H). apply on_base_inr in H as (d & H & ->).
  unfold CreateLedgerEntry in H. tx_inv H. split; [|done]. split; [done|].
  intros k. unfold unexplained, due, at_cust. cbn [base with_base with_ledger balance_ledger].
  rewrite map_app, sumZ_app. cbn -[held balance_of explained].
  change (held k _) with (held k s) at 1. change (balance_of k _) with (balance_of k s) at 1.
  unfold explained at 2. cbn [type amount]. case_bool_decide; lia.
Qed.

Lemma credit_effect cust delta s u s' :
  credit cust delta s = inr (u, s') ->
  effect (fun m => m) (fun k => at_cust k cust delta) s s' /\ balance_ledger (base s') = balance_ledger (base s) /\
  exists c, customers (base s) !! cust = Some c /\ customer_ok (mkCustomer (balance c + delta) (allowed_overdraft c)) /\
  customers (base s') = <[cust := mkCustomer (balance c + delta) (allowed_overdraft c)]> (customers (base s)).
Proof.
  intros H. apply on_base_inr in H as (d & H & ->). unfold UpdateCustomerBalanceManagement, put_customer in H.
  tx_inv H. match goal with Hc : customers _ !! _ = Some _ |- _ => rename Hc into Hlk end. split; [|by eauto]. split; [done|]. intros k. unfold unexplained, at_cust.
  change (held k _) with (held k s) at 1. change (due k _) with (due k s) at 1.
  unfold balance_of. cbn. destruct (decide (cust = k)) as [->|Hn].
  - rewrite lookup_insert_eq, Hlk, bool_decide_eq_true_2 by done. cbn. lia.
  - rewrite lookup_insert_ne, bool_decide_eq_false_2 by done. lia.
Qed.

(** Budgets fit their column. *)
Definition limit_ok (ci : Campaign * Info) : Prop := 0 <= budget_limit (fst ci) <= max_i64.
Definition rows_ok (s : CDB) : Prop := map_Forall (fun _ => limit_ok) (rows s).
Definition live (id : UUID) (s : CDB) : Prop :=
  forall ci, rows s !! id = Some ci -> status (fst ci) <> DELETED.

(** A step that leaves every balance as well explained as it was. *)
Definition sound_step (s s' : CDB) : Prop :=
  rows_ok s -> rows_ok s' /\ forall k, unexplained k s' = unexplained k s.

Lemma sound_refl s : sound_step s s.
Proof. by intros H. Qed.
Lemma sound_trans s1 s2 s3 : sound_step s1 s2 -> sound_step s2 s3 -> sound_step s1 s3.
Proof. intros S1 S2 [H2 G2]%S1. destruct (S2 H2) as [H3 G3]. split; [done|]. intros k. by rewrite G3, G2. Qed.

Lemma effect_sound s s' : effect (fun m => m) (fun _ => 0) s s' -> sound_step s s' /\ rows s' = rows s.
Proof.
  intros [R G]. split; [|done]. intros H. split; [by unfold rows_ok; rewrite R|]. intros k. rewrite G. lia.
Qed.

(** Composes the steps in the context. *)
Ltac chain := first [eassumption | apply sound_refl | eapply sound_trans; [eassumption|]; chain].

Lemma put_campaign_sound id c i c0 i0 s u s' :
  put_campaign id c i s = inr (u, s') -> rows s !! id = Some (c0, i0) ->
  rows s' = <[id := (c, i)]> (rows s) /\
  ((forall k, contrib k (c, i) = contrib k (c0, i0)) -> budget_limit c = budget_limit c0 -> sound_step s s').
Proof.
  intros [R G]%put_campaign_effect H. split; [done|]. intros Hc Hl Hok. split.
  - unfold rows_ok. rewrite R. apply map_Forall_insert_2; [|done]. unfold limit_ok. cbn. rewrite Hl.
    exact (Hok id _ H).
  - intros k. rewrite G, Hc. unfold weight_at. rewrite H. cbn. lia.
Qed.

Ltac row_inv H :=
  apply bind_inr in H; destruct H as ([? ?] & ? & H & ?); apply GetCampaignForUpdate_inr in H;
  destruct H as [H ->]; cbn [fst snd] in *.

Lemma UpdateCampaignStatus_sound now id st s u s' :
  UpdateCampaignStatus now id st s = inr (u, s') ->
  exists c i, rows s !! id = Some (c, i) /\
  rows s' = <[id := (mkCampaign st (budget_limit c) (current_spend c), touch now i)]> (rows s) /\
  (st <> DELETED -> status c <> DELETED -> sound_step s s').
Proof.
  intros H. unfold UpdateCampaignStatus in H. row_inv H.
  match goal with Hp : put_campaign _ _ _ _ = _ |- _ => destruct (put_campaign_sound _ _ _ _ _ _ _ _ Hp H) as [R S] end.
  do 2 eexists. split; [done|]. split; [done|]. intros Hst Hc. apply S; [|done].
  intros k. unfold contrib, touch. cbn. by rewrite !(bool_decide_eq_false_2 (_ = DELETED)) by done.
Qed.

Lemma UpdateCampaignSchedule_sound now id sa ea h s u s' :
  UpdateCampaignSchedule now id sa ea h s = inr (u, s') ->
  sound_step s s' /\ exists c i, rows s !! id = Some (c, i) /\
  rows s' = <[id := (c, mkInfo (owner i) sa ea h (deleted_at i) now)]> (rows s).
Proof.
  intros H. unfold UpdateCampaignSchedule in H. row_inv H.
  match goal with Hp : put_campaign _ _ _ _ = _ |- _ => destruct (put_campaign_sound _ _ _ _ _ _ _ _ Hp H) as [R S] end.
  split; [by apply S|eauto].
Qed.

Lemma TransitionCampaignStatus_sound now id old new b s u s' :
  TransitionCampaignStatus now id old new b s = inr (u, s') -> new <> DELETED -> live id s -> sound_step s s'.
Proof.
  intros H Hn Hl. unfold TransitionCampaignStatus in H. tx_inv H.
  repeat match goal with
  | Hx : UpdateCampaignStatus _ _ _ _ = _ |- _ => apply UpdateCampaignStatus_sound in Hx as (c & i & Hr & _ & S1)
  | Hx : CreateStatusHistory _ _ _ _ = _ |- _ => apply CreateStatusHistory_effect, effect_sound in Hx as [S2 _]
  | Hx : EmitCampaignLifecycleOutbox _ _ _ _ = _ |- _ => apply EmitCampaignLifecycleOutbox_effect, effect_sound in Hx as [S3 _]
  end.
  specialize (S1 Hn (Hl _ Hr)). chain.
Qed.

(** ** Status operations are sound *)

Ltac calm :=
  repeat match goal with
  | Hx : CreateStatusHistory _ _ _ _ = inr _ |- _ =>
      let R := fresh "R" in let S := fresh "S" in apply CreateStatusHistory_effect, effect_sound in Hx as [S R]
  | Hx : CreateOutboxEvent _ _ _ _ = inr _ |- _ =>
      let R := fresh "R" in let S := fresh "S" in apply CreateOutboxEvent_effect, effect_sound in Hx as [S R]
  | Hx : EmitCampaignLifecycleOutbox _ _ _ _ = inr _ |- _ =>
      let R := fresh "R" in let S := fresh "S" in apply EmitCampaignLifecycleOutbox_effect, effect_sound in Hx as [S R]
  end.

Lemma PauseCampaign_sound now id s u s' : PauseCampaign now id s = inr (u, s') -> sound_step s s'.
Proof.
  intros H. unfold PauseCampaign in H. row_inv H. tx_inv H0. apply UpdateCampaignStatus_sound in Htx0 as (c' & i' & Hr & _ & S).
  apply S; [done|]. assert (c' = c) as -> by congruence. intros E. by rewrite E in Htx.
Qed.

Lemma ResumeCampaign_sound now id s u s' : ResumeCampaign now id s = inr (u, s') -> sound_step s s'.
Proof.
  intros H. unfold ResumeCampaign in H. row_inv H. tx_inv H0. apply UpdateCampaignStatus_sound in Htx0 as (c' & i' & Hr & _ & S).
  apply S; [done|]. assert (c' = c) as -> by congruence. by rewrite Htx.
Qed.

Lemma pauseCampaignLocked_sound access now id camp s u s' :
  pauseCampaignLocked access now id camp s = inr (u, s') -> sound_step s s'.
Proof.
  intros H. unfold pauseCampaignLocked in H. tx_inv H; calm; [apply sound_refl|].
  match goal with Hp : PauseCampaign _ _ _ = _ |- _ => apply PauseCampaign_sound in Hp end. chain.
Qed.

Lemma resumeCampaignLocked_sound access publish now id camp i s u s' :
  resumeCampaignLocked access publish now id camp i s = inr (u, s') -> sound_step s s'.
Proof.
  intros H. unfold resumeCampaignLocked in H. tx_inv H; calm.
  match goal with Hp : ResumeCampaign _ _ _ = _ |- _ => apply ResumeCampaign_sound in Hp end. chain.
Qed.

Lemma pauseCampaign_sound access now id s u s' : pauseCampaign access now id s = inr (u, s') -> sound_step s s'.
Proof. intros H. unfold pauseCampaign in H. row_inv H. eauto using pauseCampaignLocked_sound. Qed.

Lemma resumeCampaign_sound access publish now id s u s' :
  resumeCampaign access publish now id s = inr (u, s') -> sound_step s s'.
Proof. intros H. unfold resumeCampaign in H. row_inv H. eauto using resumeCampaignLocked_sound. Qed.

Lemma live_row s id c i : rows s !! id = Some (c, i) -> status c <> DELETED -> live id s.
Proof. intros H Hn ci H'. by simplify_eq. Qed.

Lemma ArchiveCampaignStatus_sound now id c i s u s' :
  ArchiveCampaignStatus now id c s = inr (u, s') -> rows s !! id = Some (c, i) -> sound_step s s'.
Proof.
  intros H Hr. unfold ArchiveCampaignStatus in H.
  destruct (status c) eqn:E; tx_inv H; calm; try apply sound_refl;
    match goal with Hp : TransitionCampaignStatus _ _ _ _ _ _ = _ |- _ =>
      apply TransitionCampaignStatus_sound in Hp; [|done|apply (live_row _ _ _ _ Hr); by rewrite E] end; chain.
Qed.

Lemma archiveCampaign_sound access now id s u s' : archiveCampaign access now id s = inr (u, s') -> sound_step s s'.
Proof. intros H. unfold archiveCampaign in H. row_inv H. tx_inv H0. eauto using ArchiveCampaignStatus_sound. Qed.

Lemma ApplyStatusPatch_sound publish now id c i want s u s' :
  ApplyStatusPatch publish now id c i want s = inr (u, s') -> rows s !! id = Some (c, i) -> sound_step s s'.
Proof.
  intros H Hr. unfold ApplyStatusPatch in H. case_bool_decide; [tx_inv H; apply sound_refl|].
  destruct want; try (by tx_inv H); eauto using resumeCampaignLocked_sound, ArchiveCampaignStatus_sound.
  tx_inv H. calm. match goal with Hp : PauseCampaign _ _ _ = _ |- _ => apply PauseCampaign_sound in Hp end. chain.
Qed.

Lemma ApplySchedulePatch_sound publish now id c i sa ea h s u s' :
  ApplySchedulePatch publish now id c sa ea h s = inr (u, s') -> rows s !! id = Some (c, i) -> sound_step s s'.
Proof.
  intros H Hr. unfold ApplySchedulePatch, validateDaypartHours, validateSchedule in H. tx_inv H; calm;
    match goal with Hp : UpdateCampaignSchedule _ _ _ _ _ _ = _ |- _ =>
      apply UpdateCampaignSchedule_sound in Hp as [? (c' & i' & Hc & R')] end;
    assert (c' = c) by congruence; subst c'; try chain;
    match goal with Hp : TransitionCampaignStatus _ _ _ _ _ _ = _ |- _ =>
      apply TransitionCampaignStatus_sound in Hp; [chain|done|] end;
    intros ci Hci; rewrite R, R', lookup_insert_eq in Hci; injection Hci as <-; cbn; congruence.
Qed.

Lemma CancelCampaign_sound now id s u s' : CancelCampaign now id s = inr (u, s') -> sound_step s s'.
Proof.
  intros H. unfold CancelCampaign in H. row_inv H. tx_inv H0; calm; [apply sound_refl|].
  apply orb_false_iff in Hm as [E%bool_decide_eq_false _].
  match goal with Hp : UpdateCampaignStatus _ _ _ _ = _ |- _ => apply UpdateCampaignStatus_sound in Hp as (c' & i' & Hr & _ & S') end.
  assert (c' = c) by congruence; subst c'. specialize (S' ltac:(done) E). chain.
Qed.

(** ** Budgets move money between the balance and the campaign *)

Lemma InsertCampaign_effect id c i s u s' :
  InsertCampaign id c i s = inr (u, s') ->
  rows s !! id = None /\ effect (insert id (c, i)) (fun k => contrib k (c, i)) s s'.
Proof.
  intros H. unfold InsertCampaign in H. apply bind_inr in H as (? & ? & [= <- <-] & H). tx_inv H. rewrite GetCampaign_rows in Htx. split; [done|].
  apply put_campaign_effect in Htx0 as [R G]. split; [done|]. intros k. rewrite G. unfold weight_at. rewrite Htx. lia.
Qed.

Lemma open_sound cust id st b i h s u1 s1 u2 s2 n s3 :
  credit cust (i64 (- b)) s = inr (u1, s1) -> InsertCampaign id (mkCampaign st b 0) i s1 = inr (u2, s2) ->
  entry cust id b FREEZE h s2 = inr (n, s3) -> owner i = cust -> st <> DELETED -> 0 <= b <= max_i64 ->
  sound_step s s3.
Proof.
  intros ([R1 G1] & _)%credit_effect [_ [R2 G2]]%InsertCampaign_effect ([R3 G3] & _)%entry_effect Ho Hs Hb Hok. split.
  - unfold rows_ok. rewrite R3, R2. apply map_Forall_insert_2; [exact Hb|]. by rewrite R1.
  - intros k. rewrite G3, G2, G1. unfold contrib, at_cust. cbn. rewrite Ho, (bool_decide_eq_false_2 (st = DELETED)) by done.
    rewrite i64_id by go_lia. case_bool_decide; cbn; lia.
Qed.

Lemma schedule_not_deleted now sa ea : ResolveScheduleStatus now sa ea <> DELETED.
Proof. unfold ResolveScheduleStatus. by repeat case_match. Qed.

Lemma replayed_sound key m s id s' :
  replayed key m s = inr (id, s') -> (forall s', m s = inr (id, s') -> sound_step s s') -> sound_step s s'.
Proof. intros H Hm. unfold replayed in H. tx_inv H; [apply sound_refl|by apply Hm]. Qed.

Lemma check_brand_inr cust b s u s' : check_brand cust b s = inr (u, s') -> s' = s.
Proof. intros H. unfold check_brand in H. tx_inv H; done. Qed.

(** The opening in the context. *)
Ltac opening :=
  match goal with H1 : credit _ _ _ = _, H2 : InsertCampaign _ _ _ _ = _, H3 : entry _ _ _ _ _ _ = _ |- _ =>
    let S := fresh "S" in
    pose proof (open_sound _ _ _ _ _ _ _ _ _ _ _ _ _ H1 H2 H3 eq_refl (schedule_not_deleted _ _ _)) as S
  end.

Lemma createCampaign_sound cap now id spec s r s' :
  createCampaign cap now id spec s = inr (r, s') -> 0 <= BudgetLimitMicro spec <= max_i64 -> sound_step s s'.
Proof.
  intros H Hb. unfold createCampaign, validateDaypartHours, validateSchedule in H. tx_inv H.
  match goal with Hx : create_tx _ _ _ _ = _ |- _ => apply (replayed_sound _ _ _ _ _ Hx); clear Hx end.
  intros s2 H. cbv zeta in H. unfold GetCustomerForUpdate in H. tx_inv H. calm.
  match goal with Hx : check_brand _ _ _ = _ |- _ => apply check_brand_inr in Hx; subst end.
  opening. specialize (S1 Hb). chain.
Qed.

Lemma CloneCampaign_sound access now id source key s r s' :
  CloneCampaign access now id source key s = inr (r, s') -> sound_step s s'.
Proof.
  intros H. unfold CloneCampaign in H. apply (replayed_sound _ _ _ _ _ H). clear H. intros s2 H.
  row_inv H. cbv zeta in *. unfold GetCustomerForUpdate in *. tx_inv H0. calm. opening. intros Hok.
  specialize (S1 (Hok _ _ H)). revert Hok. chain.
Qed.


Lemma GetCustomerForUpdate_inr id s c s' :
  GetCustomerForUpdate id s = inr (c, s') -> s' = s /\ customers (base s) !! id = Some c.
Proof. intros H. unfold GetCustomerForUpdate in H. tx_inv H. done. Qed.

Lemma UpdateCampaignBudget_effect now id limit s u s' :
  UpdateCampaignBudget now id limit s = inr (u, s') ->
  exists c i, rows s !! id = Some (c, i) /\
  effect (insert id (mkCampaign (status c) limit (current_spend c), touch now i))
    (fun k => if negb (bool_decide (status c = DELETED)) then at_cust k (owner i) (limit - budget_limit c) else 0) s s'.
Proof.
  intros H. unfold UpdateCampaignBudget in H. row_inv H. apply put_campaign_effect in H0 as [R G].
  do 2 eexists. split; [done|]. split; [done|]. intros k. rewrite G. unfold weight_at. rewrite H.
  unfold contrib, at_cust. cbn. repeat case_bool_decide; cbn; lia.
Qed.

(** Freezing or releasing [delta] with the entry that records it. *)
Lemma transfer_effect cust id delta t h amt s u s1 n s2 :
  credit cust delta s = inr (u, s1) -> entry cust id amt t h s1 = inr (n, s2) -> t = FREEZE \/ t = RELEASE ->
  effect (fun m => m) (fun k => at_cust k cust delta) s s2.
Proof.
  intros ([R1 G1] & _)%credit_effect ([R2 G2] & _)%entry_effect Ht. split; [by rewrite R2|]. intros k.
  rewrite G2, G1. unfold at_cust. destruct Ht as [->| ->]; cbn; case_bool_decide; lia.
Qed.

Lemma reprice_sound now id c i cust d limit s s1 u s2 :
  effect (fun m => m) (fun k => at_cust k cust d) s s1 -> UpdateCampaignBudget now id limit s1 = inr (u, s2) ->
  rows s !! id = Some (c, i) -> owner i = cust -> status c <> DELETED -> 0 <= limit <= max_i64 ->
  d = budget_limit c - limit -> sound_step s s2.
Proof.
  intros [R1 G1] (c' & i' & Hr & [R2 G2])%UpdateCampaignBudget_effect H Ho Hs Hl Hd Hok.
  rewrite R1, H in Hr. injection Hr as <- <-. split.
  - unfold rows_ok. rewrite R2, R1. by apply map_Forall_insert_2.
  - intros k. rewrite G2, G1, Ho, (bool_decide_eq_false_2 (status c = DELETED)) by done. unfold at_cust. cbn.
    repeat case_bool_decide; try done; lia.
Qed.

Lemma ApplyBudgetPatch_sound buyer now id c i limit s u s' :
  ApplyBudgetPatch buyer now id c (owner i) limit s = inr (u, s') ->
  rows s !! id = Some (c, i) -> status c <> DELETED -> 0 <= limit <= max_i64 -> sound_step s s'.
Proof.
  intros H Hr Hs Hl Hok. revert Hok. cut (0 <= budget_limit c <= max_i64 -> sound_step s s').
  { intros Hc Hok. apply (Hc (Hok _ _ Hr) Hok). }
  intros Hb. unfold ApplyBudgetPatch in H. cbv zeta in H. tx_inv H; [apply sound_refl|..].
  all: match goal with Hx : GetCustomerForUpdate _ _ = _ |- _ => apply GetCustomerForUpdate_inr in Hx as [-> ?] end.
  all: calm.
  all: match goal with H1 : credit _ _ _ = _, H2 : entry _ _ _ _ _ _ = _, H3 : UpdateCampaignBudget _ _ _ _ = _ |- _ =>
    pose proof (reprice_sound _ _ _ _ _ _ _ _ _ _ _ (transfer_effect _ _ _ _ _ _ _ _ _ _ _ H1 H2 ltac:(tauto)) H3 Hr eq_refl Hs Hl) as T end.
  all: lapply T; [clear T; intros T; chain|].
  all: rewrite i64_id; [rewrite i64_id by go_lia; lia|rewrite i64_id by go_lia; go_lia].
Qed.

Lemma ret_inr {A} (a : A) (s : CDB) (r : A * CDB) : (ret a : M A) s = inr r <-> r = (a, s).
Proof. unfold ret. naive_solver. Qed.

Lemma patchCampaign_sound access buyer publish now id p s u s' :
  patchCampaign access buyer publish now id p s = inr (u, s') ->
  (forall b, p_budget p = Some b -> 0 <= b <= max_i64 /\ live id s) -> sound_step s s'.
Proof.
  intros H Hp. unfold patchCampaign in H. apply bind_inr in H as (? & ? & [_ ->]%GetCampaignForUpdate_inr & H).
  apply bind_inr in H as (? & ? & [_ [= -> ->]]%guard_inr & H).
  apply bind_inr in H as (u1 & s1 & H1 & H). apply bind_inr in H as (u2 & s2 & H2 & H3).
  assert (sound_step s s1).
  { destruct (p_budget p) as [b|]; [|tx_inv H1; apply sound_refl]. row_inv H1. destruct (Hp b eq_refl) as [Hb Hl].
    eapply ApplyBudgetPatch_sound; eauto. exact (Hl _ H1). }
  assert (sound_step s1 s2).
  { destruct (schedulePatch p); [|tx_inv H2; apply sound_refl]. row_inv H2.
    eapply ApplySchedulePatch_sound; eauto. }
  assert (sound_step s2 s').
  { destruct (p_status p) as [w|]; [|tx_inv H3; apply sound_refl]. row_inv H3. eapply ApplyStatusPatch_sound; eauto. }
  chain.
Qed.

(** A draining campaign that did not overspend and whose fee can be computed. *)
Definition settles (fee : Z) (c : Campaign) : Prop :=
  0 <= current_spend c <= budget_limit c /\ (budget_limit c - current_spend c) * fee <= max_i64.

Lemma FinalizeDrainingCampaign_sound fee id c i s u s' :
  FinalizeDrainingCampaign fee id c (owner i) s = inr (u, s') ->
  rows s !! id = Some (c, i) -> 0 <= fee <= 10000 -> (status c = DRAINING -> settles fee c) -> sound_step s s'.
Proof.
  intros H Hr Hfee Hset. unfold FinalizeDrainingCampaign in H.
  destruct (decide (status c = DRAINING)) as [Hd|Hd].
  2:{ rewrite bool_decide_eq_true_2 in H by done. tx_inv H. apply sound_refl. }
  rewrite bool_decide_eq_false_2 in H by tauto. destruct (Hset Hd) as [Hsp Hprod]. clear Hset. cbv zeta in H. intros Hok.
  destruct (Hok _ _ Hr) as [Hb0 Hb1]. cbn in Hb0, Hb1.
  revert H. rewrite (i64_id (budget_limit c - current_spend c)) by go_lia.
  set (r := Z.max 0 (budget_limit c - current_spend c)). assert (r = budget_limit c - current_spend c) as Er by lia.
  assert (Money.PercentFromFloat r fee = Money.PercentHundredths r fee) as ->.
  { unfold Money.PercentFromFloat, Money.PercentHundredths. by destruct (r <=? 0). }
  destruct (Money.PercentHundredths_exact r fee ltac:(lia) Hfee ltac:(lia)) as [_ Hf].
  set (f := Money.PercentHundredths r fee) in *. rewrite (i64_id (r - f)) by go_lia. intros H.
  apply bind_inr in H as (u1 & s1 & H1 & H). apply bind_inr in H as (u2 & s2 & H2 & H).
  apply bind_inr in H as (u3 & s3 & H3 & H). apply CreateStatusHistory_effect in H as [R4 G4].
  assert (effect (fun m => m) (fun k => at_cust k (owner i) (r - f)) s s1) as [R1 G1].
  { destruct (0 <? r - f) eqn:E; tx_inv H1.
    - eapply transfer_effect; eauto.
    - split; [done|]. intros k. unfold at_cust. case_bool_decide; lia. }
  assert (effect (fun m => m) (fun k => at_cust k (owner i) f) s1 s2) as [R2 G2].
  { destruct (0 <? f) eqn:E; tx_inv H2.
    - match goal with Hx : entry _ _ _ _ _ _ = _ |- _ => destruct (entry_effect _ _ _ _ _ _ _ _ Hx) as [[R G] _] end.
      split; [done|]. intros k. rewrite G. unfold at_cust. cbn. case_bool_decide; lia.
    - split; [done|]. intros k. unfold at_cust. case_bool_decide; lia. }
  unfold SoftDeleteCampaign in H3. apply bind_inr in H3 as (? & ? & [= <- <-] & H3).
  rewrite GetCampaign_rows, R2, R1, Hr in H3. apply put_campaign_effect in H3 as [R3 G3]. split.
  - unfold rows_ok. rewrite R4, R3, R2, R1. apply map_Forall_insert_2; [|done]. exact (Hok _ _ Hr).
  - intros k. rewrite G4, G3, G2, G1. unfold weight_at. rewrite R2, R1, Hr. unfold contrib, at_cust. cbn.
    rewrite Hd. cbn. rewrite (bool_decide_eq_true_2 (DELETED = DELETED)), (bool_decide_eq_false_2 (DRAINING = DELETED)) by done.
    destruct (bool_decide (owner i = k)); cbn; lia.
Qed.

Lemma FinalizeCancelledCampaign_sound fenced fee id s u s' :
  FinalizeCancelledCampaign fenced fee id s = inr (u, s') -> 0 <= fee <= 10000 ->
  (forall c i, rows s !! id = Some (c, i) -> status c = DRAINING -> settles fee c) -> sound_step s s'.
Proof.
  intros H Hf Hs. unfold FinalizeCancelledCampaign in H. apply bind_inr in H as (? & ? & [_ [= -> ->]]%guard_inr & H).
  row_inv H. eapply FinalizeDrainingCampaign_sound; eauto.
Qed.

Lemma finalizeNextDraining_sound fee threshold locked s b s' :
  finalizeNextDraining fee threshold locked s = inr (b, s') -> 0 <= fee <= 10000 ->
  (forall id c i, rows s !! id = Some (c, i) -> status c = DRAINING -> settles fee c) -> sound_step s s'.
Proof.
  intros H Hf Hs. unfold finalizeNextDraining in H. apply bind_inr in H as (? & ? & [= <- <-] & H).
  destruct (next_draining threshold locked s) as [id|]; [|tx_inv H; apply sound_refl].
  row_inv H. apply bind_inr in H0 as (u1 & s1 & H1 & [= <- <-]). eapply FinalizeDrainingCampaign_sound; eauto.
Qed.

(** ** Spend *)

Lemma UpdateCampaignSpend_effect now id amt s u s' :
  UpdateCampaignSpend now id amt s = inr (u, s') ->
  forall c i, rows s !! id = Some (c, i) ->
  rows s' = <[id := (mkCampaign (if budget_limit c <=? current_spend c + amt then EXHAUSTED else status c)
                     (budget_limit c) (current_spend c + amt), touch now i)]> (rows s) /\
  (status c <> DELETED -> forall k, unexplained k s' = unexplained k s - at_cust k (owner i) amt).
Proof.
  intros H c i Hr. unfold UpdateCampaignSpend in H. apply bind_inr in H as (? & ? & [= <- <-] & H).
  rewrite GetCampaign_rows, Hr in H. tx_inv H.
  match goal with Hp : put_campaign _ _ _ _ = _ |- _ => apply put_campaign_effect in Hp as [R G] end.
  split; [done|]. intros Hs k. rewrite G. unfold weight_at. rewrite Hr. unfold contrib, at_cust. cbn.
  rewrite (bool_decide_eq_false_2 (status c = DELETED)) by done.
  rewrite (bool_decide_eq_false_2 ((if budget_limit c <=? current_spend c + amt then EXHAUSTED else status c) = DELETED)) by (by case_match).
  destruct (bool_decide (owner i = k)); cbn; lia.
Qed.

(** An entry of type [t] and the spend it books. *)
Lemma booked_sound now cust id c i t a h amt s n s1 s2 u s3 :
  entry cust id a t h s = inr (n, s1) -> effect (fun m => m) (fun _ => 0) s1 s2 ->
  UpdateCampaignSpend now id amt s2 = inr (u, s3) ->
  rows s !! id = Some (c, i) -> owner i = cust -> status c <> DELETED -> signed t a = - amt ->
  sound_step s s3 /\ exists c', rows s3 = <[id := (c', touch now i)]> (rows s) /\ status c' <> DELETED.
Proof.
  intros ([R1 G1] & _)%entry_effect [R2 G2] H Hr Ho Hs Ht.
  rewrite <- R1, <- R2 in Hr. destruct (UpdateCampaignSpend_effect _ _ _ _ _ _ H _ _ Hr) as [R3 G3].
  rewrite R2, R1 in R3, Hr. split.
  - intros Hok. split.
    + unfold rows_ok. rewrite R3. apply map_Forall_insert_2; [|done]. exact (Hok _ _ Hr).
    + intros k. rewrite G3, G2, G1, Ht, Ho by done. unfold at_cust. case_bool_decide; lia.
  - eexists. split; [exact R3|]. cbn. by case_match.
Qed.

Lemma write_legs_sound cust camp tx legs s u s' :
  write_legs cust camp tx legs s = inr (u, s') ->
  Forall (fun x => forall a, signed (snd (fst x)) a = 0) legs -> sound_step s s' /\ rows s' = rows s.
Proof.
  revert s. induction legs as [|[[amt t] p] legs IH]; cbn -[bind]; intros s H Hl.
  - tx_inv H. split; [apply sound_refl|done].
  - inversion_clear Hl as [|? ? Ht Hl']. apply bind_inr in H as (u1 & s1 & H1 & H2).
    destruct (IH _ H2 Hl') as [S2 R2]. assert (sound_step s s1 /\ rows s1 = rows s) as [S1 R1]; [|split; [chain|congruence]].
    destruct (amt <=? 0); tx_inv H1; [split; [apply sound_refl|done]|].
    match goal with Hx : entry _ _ _ _ _ _ = _ |- _ => destruct (entry_effect _ _ _ _ _ _ _ _ Hx) as [[R G] _] end.
    apply effect_sound. split; [done|]. intros k. rewrite G. cbn in Ht. unfold at_cust. rewrite Ht. case_bool_decide; lia.
Qed.

Lemma live_same s s' id : rows s' = rows s -> live id s -> live id s'.
Proof. intros R H ci. rewrite R. apply H. Qed.

Lemma live_insert s s' id id' ci : rows s' = <[id' := ci]> (rows s) -> status (fst ci) <> DELETED -> live id s -> live id s'.
Proof.
  intros R Hs H ci'. rewrite R. intros [[_ <-]|[_ Hr]]%lookup_insert_Some; [done|exact (H _ Hr)].
Qed.

Lemma WriteMarginEconomicsLegs_sound cust camp tx rev rtb s u s' :
  WriteMarginEconomicsLegs cust camp tx rev rtb s = inr (u, s') -> sound_step s s' /\ rows s' = rows s.
Proof.
  intros H. unfold WriteMarginEconomicsLegs in H. destruct (rtb <=? 0).
  - tx_inv H. split; [apply sound_refl|done].
  - apply bind_inr in H as (? & ? & [_ [= -> ->]]%guard_inr & H). apply (write_legs_sound _ _ _ _ _ _ _ H).
    unfold margin_legs. by repeat constructor.
Qed.

Lemma claim_tx_sound tx s u s' : claim_tx tx s = inr (u, s') -> effect (fun m => m) (fun _ => 0) s s'.
Proof. intros H. unfold claim_tx in H. tx_inv H. by apply same_money. Qed.

Lemma applySpendFlush_sound now held it s o s' :
  applySpendFlush now held it s = inr (o, s') -> 0 <= AmountMicro it <= max_i64 -> live (CampaignID it) s ->
  sound_step s s' /\ forall id, live id s -> live id s'.
Proof.
  intros H Ha Hl. unfold applySpendFlush in H. apply bind_inr in H as (? & ? & [= <- <-] & H).
  destruct (bool_decide _); [tx_inv H; split; [apply sound_refl|done]|].
  apply bind_inr in H as (u1 & s1 & H1%claim_tx_sound & H). rewrite GetCampaign_rows in H.
  destruct (rows s !! CampaignID it) as [[c i]|] eqn:Hr; cbn -[bind] in H.
  2:{ destruct (StrictFlush it); tx_inv H; split; [apply sound_refl|done]. }
  destruct (customers (base s) !! owner i) as [cust|]; cbn -[bind] in H.
  2:{ destruct (StrictFlush it); tx_inv H; split; [apply sound_refl|done]. }
  destruct (held && negb (StrictFlush it)); [tx_inv H; split; [apply sound_refl|done]|].
  destruct (balance cust <? AmountMicro it); [tx_inv H; split; [apply sound_refl|done]|].
  apply bind_inr in H as (n & s2 & H2 & H). apply bind_inr in H as (u3 & s3 & H3 & H).
  apply bind_inr in H as (u4 & s4 & H4 & [= <- <-]).
  pose proof (effect_sound _ _ H1) as [S1 R1]. rewrite <- R1 in Hr.
  destruct (booked_sound _ _ _ _ _ _ _ _ _ _ _ _ _ _ _ H2 (same_money s2 s2 eq_refl eq_refl) H3 Hr eq_refl)
    as [S3 (c' & R3 & Hc')].
  { apply (live_same _ _ _ R1 Hl _ Hr). }
  { cbn. rewrite i64_id by go_lia. lia. }
  assert (sound_step s3 s4 /\ rows s4 = rows s3) as [S4 R4].
  { destruct (0 <? RtbCostMicro it); [by eapply WriteMarginEconomicsLegs_sound|]. tx_inv H4. split; [apply sound_refl|done]. }
  split; [chain|]. intros id Hid. apply (live_same _ _ _ R4), (live_insert _ _ _ _ _ R3 Hc'), (live_same _ _ _ R1 Hid).
Qed.

Lemma UpdateSpendBatch_sound now items s os s' :
  UpdateSpendBatch now items s = inr (os, s') ->
  Forall (fun x => 0 <= AmountMicro (snd x) <= max_i64 /\ live (CampaignID (snd x)) s) items -> sound_step s s'.
Proof.
  revert s os. induction items as [|[held it] items IH]; cbn -[bind]; intros s os H Hi.
  - tx_inv H. apply sound_refl.
  - inversion_clear Hi as [|? ? [Ha Hl] Hi']. apply bind_inr in H as (o & s1 & H1 & H).
    apply bind_inr in H as (os' & s2 & H2 & [= <- <-]).
    destruct (applySpendFlush_sound _ _ _ _ _ _ H1 Ha Hl) as [S1 L1]. apply (sound_trans _ _ _ S1).
    apply (IH _ _ H2). eapply Forall_impl; [exact Hi'|]. intros y [? ?]. auto.
Qed.

Lemma applyPostgres_sound now ev camp cust amt s u s' :
  applyPostgres now ev camp cust amt s = inr (u, s') ->
  - max_i64 <= amt <= max_i64 -> (forall ci, rows s !! camp = Some ci -> owner (snd ci) = cust) ->
  live camp s -> is_Some (rows s !! camp) -> sound_step s s'.
Proof.
  intros H Ha Ho Hl [[c i] Hr]. unfold applyPostgres in H. apply bind_inr in H as (? & ? & [= <- <-] & H).
  destruct (GetLedgerByHashForUpdate _ _); [tx_inv H; apply sound_refl|].
  apply bind_inr in H as (n & s1 & H1 & H). cbv zeta in H. rewrite i64_id in H by go_lia.
  destruct (Z.eqb_spec (- amt) 0) as [E|E].
  - tx_inv H. destruct (entry_effect _ _ _ _ _ _ _ _ H1) as [[R G] _]. apply effect_sound. split; [done|].
    intros k. rewrite G. unfold at_cust. cbn. case_bool_decide; lia.
  - eapply (booked_sound _ _ _ _ _ _ _ _ _ _ _ _ _ _ _ H1 (same_money s1 s1 eq_refl eq_refl) H Hr).
    + exact (Ho _ Hr).
    + exact (Hl _ Hr).
    + cbn. lia.
Qed.

Lemma ApplyCTVSettlement_sound now rate sid camp spend s u s' :
  ApplyCTVSettlement now rate sid camp spend s = inr (u, s') -> spend <= max_i64 -> live camp s -> sound_step s s'.
Proof.
  intros H Hm Hl. unfold ApplyCTVSettlement in H. apply bind_inr in H as (? & ? & [Hv [= -> ->]]%guard_inr & H).
  apply andb_true_iff in Hv as [_ Hv%Z.ltb_lt].
  apply bind_inr in H as (? & ? & [= <- <-] & H). destruct (bool_decide _); [tx_inv H; apply sound_refl|].
  cbv zeta in H. row_inv H. set (tax := match rate with Some _ => _ | None => _ end) in *.
  apply bind_inr in H0 as (? & ? & (cust & Hc & [= -> ->])%lift_inr & H0).
  apply bind_inr in H0 as (? & ? & [_ [= -> ->]]%guard_inr & H0).
  apply bind_inr in H0 as (? & ? & [_ [= -> ->]]%guard_inr & H0).
  apply bind_inr in H0 as (n & s1 & H1 & H0). apply bind_inr in H0 as (u2 & s2 & H2 & H0).
  apply bind_inr in H0 as (u3 & s3 & H3 & [= <- <-]).
  assert (effect (fun m => m) (fun _ => 0) s1 s2) as E2.
  { destruct (0 <? tax); tx_inv H2; [|by apply same_money].
    match goal with Hx : entry _ _ _ _ _ _ = _ |- _ => destruct (entry_effect _ _ _ _ _ _ _ _ Hx) as [[R G] _] end.
    split; [done|]. intros k. rewrite G. unfold at_cust. cbn. case_bool_decide; lia. }
  destruct (booked_sound _ _ _ _ _ _ _ _ _ _ _ _ _ _ _ H1 E2 H3 H eq_refl) as [S _].
  - exact (Hl _ H).
  - cbn. rewrite i64_id by go_lia. lia.
  - exact S.
Qed.

(** ** Rebalancing *)

(** What [AutoscaleBudgetsTx] checks when it picks the two campaigns. *)
Definition pair_ok (cust worst best : UUID) (shift : Z) (s : CDB) : Prop :=
  worst <> best /\ 0 <= shift <= max_i64 /\
  (forall w, rows s !! worst = Some w -> owner (snd w) = cust) /\
  (forall b, rows s !! best = Some b -> owner (snd b) = cust /\ budget_limit (fst b) + shift <= max_i64).

Lemma autoscale_sound now cust worst best key shift s u s' :
  autoscale_transfer now cust worst best key shift s = inr (u, s') -> pair_ok cust worst best shift s -> sound_step s s'.
Proof.
  intros H (Hne & Hsh & Hw & Hb). unfold autoscale_transfer in H. apply bind_inr in H as (? & ? & [= <- <-] & H).
  destruct (GetLedgerByHashForUpdate _ _); [tx_inv H; apply sound_refl|]. row_inv H. row_inv H0.
  destruct (Hb _ H0) as [Ob Bb]. cbn in Ob, Bb. pose proof (Hw _ H) as Ow. cbn in Ow.
  destruct (negb _) eqn:Est; [tx_inv H1; apply sound_refl|].
  apply negb_false_iff, andb_true_iff in Est as [Sw%bool_decide_eq_true Sb%bool_decide_eq_true].
  cbv zeta in H1. intros Hok. pose proof (Hok _ _ H) as Lw. pose proof (Hok _ _ H0) as Lb. unfold limit_ok in *. cbn in Lw, Lb.
  rewrite (i64_id (budget_limit c - shift)), (i64_id (budget_limit c0 + shift)), (i64_id (- shift)) in H1 by go_lia.
  destruct (_ || _) eqn:Egap; [tx_inv H1; by apply sound_refl|].
  apply orb_false_iff in Egap as [_ Epos%Z.leb_gt]. tx_inv H1. calm.
  repeat match goal with
  | H1 : credit _ _ ?s = inr (_, ?s1), H2 : entry _ _ _ _ _ ?s1 = inr (_, ?s2) |- _ =>
      pose proof (transfer_effect _ _ _ _ _ _ _ _ _ _ _ H1 H2 ltac:(tauto)); clear H1 H2
  end.
  destruct H2 as [R2 G2], H1 as [R1 G1].
  apply UpdateCampaignBudget_effect in Htx3 as (c3 & i3 & Hr3 & [R3 G3]).
  apply UpdateCampaignBudget_effect in Htx4 as (c4 & i4 & Hr4 & [R4 G4]).
  rewrite R1, R2, H in Hr3. injection Hr3 as <- <-.
  rewrite R3, R1, R2, lookup_insert_ne, H0 in Hr4 by done. injection Hr4 as <- <-.
  apply (sound_trans s s5 s'); [|chain|done]. intros _. split.
  - unfold rows_ok. rewrite R4, R3, R1, R2. repeat apply map_Forall_insert_2; [..|done]; unfold limit_ok; cbn; lia.
  - intros k. rewrite G4, G3, G1, G2, Ow, Ob, Sw, Sb. unfold at_cust. cbn.
    rewrite (bool_decide_eq_false_2 (ACTIVE = DELETED)) by done. destruct (bool_decide (cust = k)); cbn; lia.
Qed.

Lemma posted_sound e c d s :
  base s = d -> customers d !! customer_id e = Some c -> explained e = amount e ->
  sound_step s (with_base (posted e c d) s).
Proof.
  intros <- Hc He Hok. split; [done|]. intros k. unfold unexplained, due, balance_of.
  change (held k (with_base _ s)) with (held k s). cbn. rewrite map_app, sumZ_app. cbn -[explained]. rewrite He.
  destruct (decide (customer_id e = k)) as [<-|Hn].
  - rewrite lookup_insert_eq, Hc, bool_decide_eq_true_2 by done. cbn. lia.
  - rewrite lookup_insert_ne, bool_decide_eq_false_2 by done. lia.
Qed.

Lemma payment_sound fenced seq r s x s' : on_base (run_req fenced seq r) s = inr (x, s') -> sound_step s s'.
Proof.
  intros (d & H & ->)%on_base_inr. destruct x as [[|] n].
  - apply run_req_write in H as [_ H]. apply write_effect in H as (_ & _ & c & (Hc & _) & ->).
    apply posted_sound; [done|done|]. by destruct r as [| | |? ? ? ? []].
  - assert (d = base s) as ->; [|destruct s; apply sound_refl].
    destruct r; simpl in *; unfold TopUpBalance, ApplyPaymentCredit, ApplyPaymentRefund,
      applyPaymentChargebackMovement, found, applied in H; tx_inv H; try discriminate; done.
Qed.

(** ** The services *)

(** A committed transaction of one of the services that keeps the books; the
    side conditions are the bounds the interfaces enforce, that money is moved
    on campaigns that are not deleted, and that a draining campaign did not
    overspend ([books_step] below has the one that did). *)
Inductive service_step (s : CDB) : CDB -> Prop :=
  | sv_create cap now id spec r s' :
      0 <= BudgetLimitMicro spec <= max_i64 -> createCampaign cap now id spec s = inr (r, s') -> service_step s s'
  | sv_clone access now id source key r s' :
      CloneCampaign access now id source key s = inr (r, s') -> service_step s s'
  | sv_pause access now id u s' : pauseCampaign access now id s = inr (u, s') -> service_step s s'
  | sv_resume access publish now id u s' : resumeCampaign access publish now id s = inr (u, s') -> service_step s s'
  | sv_archive access now id u s' : archiveCampaign access now id s = inr (u, s') -> service_step s s'
  | sv_patch access buyer publish now id p u s' :
      (forall b, p_budget p = Some b -> 0 <= b <= max_i64 /\ live id s) ->
      patchCampaign access buyer publish now id p s = inr (u, s') -> service_step s s'
  | sv_cancel now id u s' : CancelCampaign now id s = inr (u, s') -> service_step s s'
  | sv_finalize fenced fee id u s' :
      0 <= fee <= 10000 -> (forall c i, rows s !! id = Some (c, i) -> status c = DRAINING -> settles fee c) ->
      FinalizeCancelledCampaign fenced fee id s = inr (u, s') -> service_step s s'
  | sv_drain fee threshold locked b s' :
      0 <= fee <= 10000 -> (forall id c i, rows s !! id = Some (c, i) -> status c = DRAINING -> settles fee c) ->
      finalizeNextDraining fee threshold locked s = inr (b, s') -> service_step s s'
  | sv_autoscale now cust worst best key shift u s' :
      pair_ok cust worst best shift s -> autoscale_transfer now cust worst best key shift s = inr (u, s') ->
      service_step s s'
  | sv_flush now items os s' :
      Forall (fun x => 0 <= AmountMicro (snd x) <= max_i64 /\ live (CampaignID (snd x)) s) items ->
      UpdateSpendBatch now items s = inr (os, s') -> service_step s s'
  | sv_adjust now ev camp cust amt u s' :
      - max_i64 <= amt <= max_i64 -> (forall ci, rows s !! camp = Some ci -> owner (snd ci) = cust) ->
      live camp s -> is_Some (rows s !! camp) -> applyPostgres now ev camp cust amt s = inr (u, s') -> service_step s s'
  | sv_ctv now rate sid camp spend u s' :
      spend <= max_i64 -> live camp s -> ApplyCTVSettlement now rate sid camp spend s = inr (u, s') -> service_step s s'
  | sv_payment fenced sq r x s' : on_base (run_req fenced sq r) s = inr (x, s') -> service_step s s'.

Lemma service_sound s s' : service_step s s' -> sound_step s s'.
Proof.
  destruct 1; eauto using createCampaign_sound, CloneCampaign_sound, pauseCampaign_sound, resumeCampaign_sound,
    archiveCampaign_sound, patchCampaign_sound, CancelCampaign_sound, FinalizeCancelledCampaign_sound,
    finalizeNextDraining_sound, autoscale_sound, UpdateSpendBatch_sound, applyPostgres_sound,
    ApplyCTVSettlement_sound, payment_sound.
Qed.

(** ** Money the ledger does not explain

    Three writers move money without the entry or the budget that would
    explain it: the customer's share of the spend sync, the suspensions of a
    lowered overdraft, and the end of a campaign that overspent. *)

(** What the RELEASE entries among [l] paid a customer. *)
Definition released (k : UUID) (l : list Entry) : Z :=
  sumZ (map (fun e => if bool_decide (customer_id e = k) && bool_decide (type e = RELEASE) then amount e else 0) l).

(** A step that appends [l] and pays its releases out of nothing. *)
Definition pays_out (s : CDB) (l : list Entry) (s' : CDB) : Prop :=
  balance_ledger (base s') = (balance_ledger (base s) ++ l)%list /\
  (rows_ok s -> rows_ok s' /\ forall k, unexplained k s' = unexplained k s + released k l).

Lemma released_app k l l' : released k (l ++ l')%list = released k l + released k l'.
Proof. unfold released. rewrite map_app, sumZ_app. done. Qed.

Lemma pays_out_trans s1 s2 s3 l l' : pays_out s1 l s2 -> pays_out s2 l' s3 -> pays_out s1 (l ++ l')%list s3.
Proof.
  intros [L1 S1] [L2 S2]. split; [by rewrite L2, L1, app_assoc|]. intros [O2 G2]%S1.
  destruct (S2 O2) as [O3 G3]. split; [done|]. intros k. rewrite G3, G2, released_app. lia.
Qed.

Lemma pays_out_nil s s' :
  balance_ledger (base s') = balance_ledger (base s) -> sound_step s s' -> pays_out s [] s'.
Proof.
  intros L S. split; [by rewrite app_nil_r|]. intros [O G]%S. split; [done|]. intros k. rewrite G. cbn. lia.
Qed.

(** Pausing an active campaign changes no money. *)
Lemma pause_base_sound id c cs h o s :
  campaigns (base s) !! id = Some c -> status c = ACTIVE ->
  cs = <[id := mkCampaign PAUSED (budget_limit c) (current_spend c)]> (campaigns (base s)) ->
  sound_step s (with_base (mkDB (customers (base s)) cs (balance_ledger (base s)) h o) s).
Proof.
  intros Hc Ha ->. set (s' := with_base _ s). intros Hok.
  destruct (info s !! id) as [i|] eqn:Hi.
  - assert (rows s' = <[id := (mkCampaign PAUSED (budget_limit c) (current_spend c), i)]> (rows s)) as R.
    { unfold rows. cbn. rewrite <- (insert_id (info s) id i) at 1 by done. by rewrite map_insert_zip_with. }
    assert (rows s !! id = Some (c, i)) as Hr by (unfold rows; rewrite map_lookup_zip_with; by rewrite Hc, Hi).
    split.
    + unfold rows_ok. rewrite R. apply map_Forall_insert_2; [|done]. exact (Hok id _ Hr).
    + intros k. unfold unexplained, held. rewrite R, map_total_insert. unfold weight_at. rewrite Hr.
      unfold contrib, balance_of, due. cbn. rewrite Ha.
      rewrite (bool_decide_eq_false_2 (PAUSED = DELETED)), (bool_decide_eq_false_2 (ACTIVE = DELETED)) by done. lia.
  - assert (rows s' = rows s) as R.
    { apply map_eq. intros j. unfold rows. rewrite !map_lookup_zip_with. cbn.
      destruct (decide (id = j)) as [<-|Hn]; [|by rewrite lookup_insert_ne].
      by rewrite lookup_insert_eq, Hc, Hi. }
    split; [unfold rows_ok; by rewrite R|]. intros k. unfold unexplained, held. by rewrite R.
Qed.

Lemma release_pays seq cust camp amt s n d :
  release seq cust camp amt (base s) = inr (n, d) ->
  pays_out s [mkEntry seq cust (Some camp) amt RELEASE None None] (with_base d s).
Proof.
  intros (c & (Hc & _) & _ & ->)%post_effect. split; [done|]. intros Hok. split; [done|]. intros k.
  unfold unexplained, due, balance_of, released. change (held k (with_base _ s)) with (held k s).
  cbn in *. rewrite map_app, sumZ_app. cbn -[explained]. unfold explained. cbn. destruct (decide (cust = k)) as [<-|Hn].
  - rewrite lookup_insert_eq, Hc, (bool_decide_eq_true_2 (cust = cust)), (bool_decide_eq_true_2 (RELEASE = RELEASE)) by done.
    cbn. lia.
  - rewrite lookup_insert_ne, (bool_decide_eq_false_2 (cust = k)) by done. cbn. lia.
Qed.

Lemma suspend_pays cust camps lim s x d :
  suspend cust camps lim (base s) = inr (x, d) -> exists l, pays_out s l (with_base d s).
Proof.
  revert lim s. induction camps as [|[id sq] camps IH]; intros lim s H; cbn [suspend] in H.
  { injection H as _ <-. exists []. apply pays_out_nil; [done|]. destruct s. apply sound_refl. }
  case_match.
  { injection H as _ <-. exists []. apply pays_out_nil; [done|]. destruct s. apply sound_refl. }
  apply bind_inr in H as (? & ? & [= <- <-] & H). apply bind_inr in H as (c & ? & H1 & H).
  apply lift_inr in H1 as (c0 & Hc & [= -> ->]). case_bool_decide as Ha; [by eapply IH|].
  apply bind_inr in H as ([] & d1 & [= <-] & H). cbv zeta in H. apply bind_inr in H as ([] & d2 & H2 & H).
  apply bind_inr in H as ([] & d3 & [= <-] & H).
  assert (status c0 = ACTIVE) as Ea by (destruct (decide (status c0 = ACTIVE)); tauto).
  epose proof (pause_base_sound id c0 _ (status_history (base s) ++ [id])%list (outbox (base s)) s Hc Ea eq_refl) as S1.
  set (s1 := with_base _ s) in *.
  assert (exists l, pays_out s1 l (with_base d2 s1)) as [l2 P2].
  { destruct (0 <? remaining_budget c0).
    - apply bind_inr in H2 as (n & d2' & H2 & [= <-]). eexists. eapply release_pays. exact H2.
    - injection H2 as <-. exists []. apply pays_out_nil; [done|]. apply sound_refl. }
  set (s3 := with_base (mkDB (customers d2) (campaigns d2) (balance_ledger d2) (status_history d2) (outbox d2 ++ [id])) s1).
  assert (sound_step (with_base d2 s1) s3) as S3 by (intros Hok; split; [exact Hok|done]).
  destruct (IH _ s3 H) as [l3 P3]. exists ([] ++ l2 ++ [] ++ l3)%list.
  apply (pays_out_trans _ s1); [by apply pays_out_nil|]. eapply pays_out_trans; [exact P2|].
  apply (pays_out_trans _ s3); [by apply pays_out_nil|exact P3].
Qed.

Lemma UpdateOverdraft_pays cust ov camps s u s' :
  on_base (UpdateOverdraft cust ov camps) s = inr (u, s') -> exists l, pays_out s l s'.
Proof.
  intros (d & H & ->)%on_base_inr. unfold UpdateOverdraft in H. apply bind_inr in H as (? & ? & [= <- <-] & H).
  apply bind_inr in H as (c & ? & H1 & H). apply lift_inr in H1 as (c0 & Hc & [= -> ->]). cbv zeta in H. case_match.
  { injection H as _ <-. exists []. apply pays_out_nil; [done|]. destruct s. apply sound_refl. }
  apply bind_inr in H as ([] & d1 & H1 & H).
  assert (exists l, pays_out s l (with_base d1 s)) as [l P].
  { case_match.
    - apply bind_inr in H1 as (lim & ? & H1 & [= ->]). by eapply suspend_pays.
    - injection H1 as <-. exists []. apply pays_out_nil; [done|]. destruct s. apply sound_refl. }
  exists (l ++ [])%list. eapply pays_out_trans; [exact P|]. unfold UpdateCustomerOverdraft, put_customer in H.
  apply bind_inr in H as (? & ? & [= <- <-] & H). apply bind_inr in H as (? & ? & (cu & Hcu & [= -> ->])%lift_inr & H).
  apply bind_inr in H as ([] & ? & [_ [= ->]]%guard_inr & Hd). unfold modify in Hd. injection Hd; intros; subst d.
  apply pays_out_nil; [done|]. intros Hok. split; [exact Hok|]. intros k. unfold unexplained.
  change (held k (with_base (with_customers _ _) s)) with (held k (with_base d1 s)).
  change (due k (with_base (with_customers _ _) s)) with (due k (with_base d1 s)). unfold balance_of. cbn.
  destruct (decide (cust = k)) as [<-|Hn]; [|by rewrite lookup_insert_ne]. by rewrite lookup_insert_eq, Hcu.
Qed.

(** What a customer sync takes from a balance. *)
Definition synced (cust : UUID) (amt : Z) (tx : string) (s : CDB) : Z :=
  if bool_decide (tx ∈ sync_idempotency s) || bool_decide (customers (base s) !! cust = None) then 0 else amt.

Lemma UpdateBalance_takes cust amt tx s u s' :
  UpdateBalance cust amt tx s = inr (u, s') ->
  rows s' = rows s /\ forall k, unexplained k s' = unexplained k s - at_cust k cust (synced cust amt tx s).
Proof.
  intros H. unfold UpdateBalance in H. apply bind_inr in H as (? & ? & [= <- <-] & H). unfold synced, at_cust.
  destruct (bool_decide (tx ∈ sync_idempotency s)).
  { tx_inv H. split; [done|]. intros k. cbn. case_bool_decide; lia. }
  apply bind_inr in H as ([] & s1 & [= <-] & H). destruct (customers (base s) !! cust) as [c|] eqn:Hc.
  2:{ injection H as _ <-. split; [done|]. intros k. cbn. case_bool_decide; unfold unexplained; cbn; change (held k _) with (held k s) at 1; change (due k _) with (due k s) at 1; change (balance_of k _) with (balance_of k s) at 1; lia. }
  rewrite (bool_decide_eq_false_2 (Some c = None)) by done. cbn [orb].
  apply on_base_inr in H as (d & H & ->). unfold put_customer in H. cbn [base] in H. tx_inv H. split; [done|]. intros k.
  unfold unexplained. change (held k (with_base _ _)) with (held k s). change (due k (with_base _ _)) with (due k s).
  unfold balance_of. cbn. destruct (decide (cust = k)) as [<-|Hn].
  - rewrite lookup_insert_eq, Hc, bool_decide_eq_true_2 by done. cbn. lia.
  - rewrite lookup_insert_ne, bool_decide_eq_false_2 by done. lia.
Qed.

(** A campaign that spent more than its budget leaves its debt behind. *)
Lemma FinalizeDrainingCampaign_overspent fee id c i s u s' :
  FinalizeDrainingCampaign fee id c (owner i) s = inr (u, s') ->
  rows s !! id = Some (c, i) -> status c = DRAINING -> budget_limit c < current_spend c <= max_i64 -> rows_ok s ->
  rows_ok s' /\ forall k, unexplained k s' = unexplained k s + at_cust k (owner i) (current_spend c - budget_limit c).
Proof.
  intros H Hr Hd Hsp Hok. destruct (Hok _ _ Hr) as [Hb0 Hb1]. cbn in Hb0, Hb1.
  unfold FinalizeDrainingCampaign in H. rewrite bool_decide_eq_false_2 in H by tauto. cbv zeta in H.
  revert H. rewrite (i64_id (budget_limit c - current_spend c)) by go_lia.
  replace (Z.max 0 (budget_limit c - current_spend c)) with 0 by lia.
  assert (Money.PercentFromFloat 0 fee = 0) as -> by reflexivity. change (0 -64 0) with 0. change (0 <? 0) with false.
  intros H. apply bind_inr in H as (u1 & s1 & [= <- <-] & H). apply bind_inr in H as (u2 & s2 & [= <- <-] & H).
  apply bind_inr in H as (u3 & s3 & H3 & H). apply CreateStatusHistory_effect in H as [R4 G4].
  unfold SoftDeleteCampaign in H3. apply bind_inr in H3 as (? & ? & [= <- <-] & H3).
  rewrite GetCampaign_rows, Hr in H3. apply put_campaign_effect in H3 as [R3 G3]. split.
  - unfold rows_ok. rewrite R4, R3. apply map_Forall_insert_2; [|done]. exact (Hok _ _ Hr).
  - intros k. rewrite G4, G3. unfold weight_at. rewrite Hr. unfold contrib, at_cust. cbn.
    rewrite Hd. rewrite (bool_decide_eq_true_2 (DELETED = DELETED)), (bool_decide_eq_false_2 (DRAINING = DELETED)) by done.
    destruct (bool_decide (owner i = k)); cbn; lia.
Qed.

Definition overspent (id : UUID) (c : Campaign) (i : Info) (s : CDB) : Prop :=
  rows s !! id = Some (c, i) /\ status c = DRAINING /\ budget_limit c < current_spend c <= max_i64.

(** A committed transaction, with what it adds to each customer that the
    ledger does not explain. *)
Inductive books_step (s : CDB) : (UUID -> Z) -> CDB -> Prop :=
  | bk_service s' : service_step s s' -> books_step s (fun _ => 0) s'
  | bk_sync cust amt tx u s' :
      UpdateBalance cust amt tx s = inr (u, s') -> books_step s (fun k => at_cust k cust (- synced cust amt tx s)) s'
  | bk_overdraft cust ov camps l u s' :
      on_base (UpdateOverdraft cust ov camps) s = inr (u, s') ->
      balance_ledger (base s') = (balance_ledger (base s) ++ l)%list -> books_step s (fun k => released k l) s'
  | bk_finalize fenced fee id c i u s' :
      overspent id c i s -> FinalizeCancelledCampaign fenced fee id s = inr (u, s') ->
      books_step s (fun k => at_cust k (owner i) (current_spend c - budget_limit c)) s'
  | bk_drain fee threshold locked id c i b s' :
      next_draining threshold locked s = Some id -> overspent id c i s ->
      finalizeNextDraining fee threshold locked s = inr (b, s') ->
      books_step s (fun k => at_cust k (owner i) (current_spend c - budget_limit c)) s'.

Lemma books_sound s off s' :
  books_step s off s' -> rows_ok s -> rows_ok s' /\ forall k, unexplained k s' = unexplained k s + off k.
Proof.
  intros H Hok. destruct H as [s' H|cust amt tx u s' H|cust ov camps l u s' H L|fenced fee id c i u s' (Hr & Hd & Hs) H
    |fee threshold locked id c i b s' Hn (Hr & Hd & Hs) H].
  - apply service_sound in H. destruct (H Hok) as [O G]. split; [done|]. intros k. rewrite G. lia.
  - apply UpdateBalance_takes in H as [R G]. split; [by unfold rows_ok; rewrite R|]. intros k. rewrite G.
    unfold at_cust. case_bool_decide; lia.
  - apply UpdateOverdraft_pays in H as (l' & L' & G). rewrite L in L'. apply app_inv_head in L' as <-. by apply G.
  - unfold FinalizeCancelledCampaign in H. apply bind_inr in H as (? & ? & [_ [= -> ->]]%guard_inr & H).
    row_inv H. rewrite Hr in H. injection H as <- <-. by eapply FinalizeDrainingCampaign_overspent.
  - unfold finalizeNextDraining in H. apply bind_inr in H as (? & ? & [= <- <-] & H). rewrite Hn in H.
    row_inv H. rewrite Hr in H. injection H as <- <-. apply bind_inr in H0 as (u1 & s1 & H1 & [= <- <-]).
    by eapply FinalizeDrainingCampaign_overspent.
Qed.

(** Any number of them, with the sum. *)
Inductive books_run : CDB -> (UUID -> Z) -> CDB -> Prop :=
  | br_refl s : books_run s (fun _ => 0) s
  | br_step s1 off s2 offs s3 :
      books_step s1 off s2 -> books_run s2 offs s3 -> books_run s1 (fun k => off k + offs k) s3.


(** ** What creating a campaign writes *)

Lemma CreateStatusHistory_base id o n s u s' : CreateStatusHistory id o n s = inr (u, s') -> base s' = base s.
Proof. intros H. unfold CreateStatusHistory in H. by tx_inv H. Qed.
Lemma EmitCampaignLifecycleOutbox_base id st l s u s' :
  EmitCampaignLifecycleOutbox id st l s = inr (u, s') -> base s' = base s.
Proof. intros H. destruct st; cbn in H; unfold CreateOutboxEvent in H; by tx_inv H. Qed.

Lemma put_campaign_money id c i s u s' :
  put_campaign id c i s = inr (u, s') ->
  customers (base s') = customers (base s) /\ balance_ledger (base s') = balance_ledger (base s).
Proof. intros H. unfold put_campaign in H. by tx_inv H. Qed.

Lemma create_writes cap now id spec s r s' :
  createCampaign cap now id spec s = inr (r, s') ->
  GetLedgerByHashForUpdate (IdempotencyKey spec) (base s) = None -> in_i64 (- BudgetLimitMicro spec) ->
  r = id /\ exists c n, customers (base s) !! CustomerID spec = Some c /\
  customers (base s') !! CustomerID spec = Some (mkCustomer (balance c - BudgetLimitMicro spec) (allowed_overdraft c)) /\
  balance_ledger (base s') = balance_ledger (base s) ++
    [mkEntry n (CustomerID spec) (Some id) (BudgetLimitMicro spec) FREEZE (Some (IdempotencyKey spec)) None].
Proof.
  intros H Hk Hb. unfold createCampaign, validateDaypartHours, validateSchedule in H. tx_inv H.
  match goal with Hx : create_tx _ _ _ _ = _ |- _ => unfold create_tx, replayed in Hx; rename Hx into H end.
  apply bind_inr in H as (? & ? & [= <- <-] & H). rewrite Hk in H. cbv zeta in H. unfold GetCustomerForUpdate in H.
  tx_inv H. split; [done|].
  match goal with Hx : check_brand _ _ _ = _ |- _ => apply check_brand_inr in Hx; subst end.
  match goal with Hx : credit _ _ _ = _ |- _ =>
    rewrite i64_id in Hx by done; destruct (credit_effect _ _ _ _ _ Hx) as (_ & L1 & c & C & _ & C1) end.
  match goal with Hx : InsertCampaign _ _ _ _ = _ |- _ =>
    unfold InsertCampaign in Hx; apply bind_inr in Hx as (? & ? & [= <- <-] & Hx); tx_inv Hx end.
  match goal with Hx : put_campaign _ _ _ _ = _ |- _ => destruct (put_campaign_money _ _ _ _ _ _ Hx) as [C2 L2] end.
  match goal with Hx : entry _ _ _ _ _ _ = _ |- _ => destruct (entry_effect _ _ _ _ _ _ _ _ Hx) as (_ & C3 & L3) end.
  match goal with Hx : CreateStatusHistory _ _ _ _ = _, Hy : EmitCampaignLifecycleOutbox _ _ _ _ = _ |- _ =>
    apply CreateStatusHistory_base in Hx; apply EmitCampaignLifecycleOutbox_base in Hy; rewrite Hy, Hx end.
  exists c. eexists. split; [done|]. rewrite C3, C2, C1, L3, L2, L1. split; [|done].
  by rewrite lookup_insert_eq.
Qed.

(** Creating a campaign breaks the ledger check.  The balance goes down by
    the budget but the FREEZE entry is positive, so a customer whose ledger
    agreed with its balance fails the check once a campaign is created. *)
Theorem create_breaks_ledger_check cap now id spec s r s' :
  createCampaign cap now id spec s = inr (r, s') ->
  GetLedgerByHashForUpdate (IdempotencyKey spec) (base s) = None ->
  2 <= BudgetLimitMicro spec <= 2305843009213693952 ->
  CheckLedgerBalanceInvariant (CustomerID spec) (base s) = true ->
  CheckLedgerBalanceInvariant (CustomerID spec) (base s') = false.
Proof.
  intros H Hk Hb. destruct (create_writes _ _ _ _ _ _ _ H Hk ltac:(go_lia)) as (_ & c & n & Hc & Hc' & L).
  unfold CheckLedgerBalanceInvariant, ReadLedgerInvariant. rewrite Hc, Hc'. cbn -[sumZ].
  assert (ledger_sum (CustomerID spec) (base s') = ledger_sum (CustomerID spec) (base s) + BudgetLimitMicro spec) as ->.
  { unfold ledger_sum. rewrite L, map_app, sumZ_app. cbn [map sumZ].
    replace (counted (CustomerID spec) _) with true; [cbn [amount]; lia|]. unfold counted. cbn.
    by rewrite bool_decide_eq_true_2. }
  set (sm := ledger_sum _ _). set (b := BudgetLimitMicro spec) in *. unfold ledgerInvariantToleranceMicro.
  intros [H1 H2]%negb_true_iff%orb_false_iff.
  assert ((balance c - b) -64 (sm + b) = (balance c -64 sm) - 2 * b) as ->; [|lia].
  replace (balance c - b - (sm + b)) with (balance c - sm - 2 * b) by lia.
  rewrite <- Z.add_opp_r, <- i64_i64_add. apply i64_id. go_lia.
Qed.

(** C20: the key of a request creates one campaign.  As long as the ledger keeps
    its rows, a request with the same key answers with the first campaign,
    whatever it asks for, and changes nothing. *)
Theorem create_idempotent cap cap' now now' id id' spec spec' s r s1 s2 :
  createCampaign cap now id spec s = inr (r, s1) ->
  GetLedgerByHashForUpdate (IdempotencyKey spec) (base s) = None -> in_i64 (- BudgetLimitMicro spec) ->
  grows (balance_ledger (base s1)) (base s2) -> IdempotencyKey spec' = IdempotencyKey spec ->
  forall r' s', createCampaign cap' now' id' spec' s2 = inr (r', s') -> r' = r /\ s' = s2.
Proof.
  intros H Hk Hb [ext Hg] Hs r' s' H2. destruct (create_writes _ _ _ _ _ _ _ H Hk Hb) as (-> & c & n & _ & _ & L).
  unfold createCampaign, validateDaypartHours, validateSchedule in H2. tx_inv H2.
  match goal with Hx : create_tx _ _ _ _ = _ |- _ => unfold create_tx, replayed in Hx; rename Hx into H2 end.
  apply bind_inr in H2 as (? & ? & [= <- <-] & H2). unfold GetLedgerByHashForUpdate in H2, Hk.
  rewrite Hg, L, !find_app, Hs, Hk in H2. cbn -[lift] in H2. unfold has_hash in H2. cbn -[lift] in H2.
  rewrite bool_decide_eq_true_2 in H2 by done. cbn in H2. unfold lift in H2. tx_inv H2. done.
Qed.

(** ** Repeated budgets and suspensions *)

Lemma taken_hash cust camp amt t h s e :
  In e (balance_ledger (base s)) -> idempotency_hash e = Some h -> forall r, entry cust camp amt t (Some h) s <> inr r.
Proof.
  intros He Hh [n s'] H. unfold entry in H. apply bind_inr in H as (? & ? & [= <- <-] & H).
  apply bind_inr in H as (? & ? & [= <- <-] & H). apply on_base_inr in H as (d & H & _).
  unfold CreateLedgerEntry in H. tx_inv H.
  match goal with Hx : existsb _ _ = false |- _ => rename Hx into Hno end. cbn in Hno.
  assert (existsb (clashes (mkEntry (seq s) cust (Some camp) amt t (Some h) None)) (balance_ledger (base s)) = true)
    as Hyes; [|congruence]. apply existsb_exists. exists e. split; [done|]. unfold clashes. cbn [idempotency_hash]. rewrite Hh.
  rewrite (bool_decide_eq_true_2 (Some h <> None)), (bool_decide_eq_true_2 (Some h = Some h)) by done. done.
Qed.

Lemma budget_increase_writes buyer now id c cust limit s u s' :
  ApplyBudgetPatch buyer now id c cust limit s = inr (u, s') -> limit <= max_i64 -> 0 <= budget_limit c < limit ->
  exists s0 n s1 cu, customers (base s) !! cust = Some cu /\
  customers (base s') !! cust = Some (mkCustomer (balance cu - (limit - budget_limit c)) (allowed_overdraft cu)) /\
  balance_ledger (base s0) = balance_ledger (base s) /\
  entry cust id (limit - budget_limit c) FREEZE (Some (patch_key id limit)) s0 = inr (n, s1) /\
  balance_ledger (base s') = balance_ledger (base s) ++
    [mkEntry (seq s0) cust (Some id) (limit - budget_limit c) FREEZE (Some (patch_key id limit)) None].
Proof.
  intros H Hl Hc. unfold ApplyBudgetPatch in H.
  rewrite (proj2 (Z.eqb_neq limit (budget_limit c))) in H by lia. cbv zeta in *.
  rewrite (i64_id (limit - budget_limit c)), (i64_id (- (limit - budget_limit c))) in H by go_lia.
  rewrite (proj2 (Z.ltb_lt 0 (limit - budget_limit c))) in H by lia. tx_inv H.
  all: match goal with Hx : GetCustomerForUpdate _ _ = _ |- _ => apply GetCustomerForUpdate_inr in Hx as [-> ?] end.
  all: match goal with Hx : credit _ _ _ = _, Hy : entry _ _ _ _ _ ?s0 = inr (?n, ?s1) |- _ =>
    exists s0, n, s1; destruct (credit_effect _ _ _ _ _ Hx) as (_ & L1 & cu & C & _ & C1); exists cu;
    destruct (entry_effect _ _ _ _ _ _ _ _ Hy) as (_ & C2 & L2) end.
  all: match goal with Hx : UpdateCampaignBudget _ _ _ _ = _ |- _ =>
    unfold UpdateCampaignBudget in Hx; row_inv Hx end.
  all: match goal with Hx : put_campaign _ _ _ _ = _ |- _ => destruct (put_campaign_money _ _ _ _ _ _ Hx) as [C3 L3] end.
  all: unfold CreateOutboxEvent in *.
  1: match goal with Hx : modify _ _ = _ |- _ => tx_inv Hx end; cbn [base].
  all: rewrite C3, C2, C1, L3, L2, L1, lookup_insert_eq; done.
Qed.

(** A budget limit can be raised to once.  The key of the entry names only
    the campaign and the new limit, so after raising the limit to a value, no
    later increase to that value can be committed, although it is another
    change of another day: the entry's unique key rolls it back. *)
Theorem patch_budget_once buyer buyer' now now' id c c' cust cust' limit s u s1 s2 :
  ApplyBudgetPatch buyer now id c cust limit s = inr (u, s1) ->
  limit <= max_i64 -> 0 <= budget_limit c < limit -> 0 <= budget_limit c' < limit ->
  grows (balance_ledger (base s1)) (base s2) ->
  forall r, ApplyBudgetPatch buyer' now' id c' cust' limit s2 <> inr r.
Proof.
  intros H Hl Hc Hc' [ext Hg] [u' s'] H2.
  destruct (budget_increase_writes _ _ _ _ _ _ _ _ _ H Hl Hc) as (s0 & _ & _ & _ & _ & _ & _ & _ & L).
  destruct (budget_increase_writes _ _ _ _ _ _ _ _ _ H2 Hl Hc') as (s3 & n & s4 & _ & _ & _ & L3 & Hentry & _).
  eapply taken_hash; [| |exact Hentry].
  - rewrite L3, Hg, L. apply in_or_app. left. apply in_or_app. right. by left.
  - done.
Qed.

Lemma suspend_one cust ov id sq d u d' c cu :
  UpdateOverdraft cust ov [(id, sq)] d = inr (u, d') ->
  campaigns d !! id = Some c -> status c = ACTIVE ->
  budget_limit c <= max_i64 -> 0 <= current_spend c < budget_limit c ->
  customers d !! cust = Some cu -> ov < allowed_overdraft cu -> balance cu +64 ov < 0 ->
  campaigns d' = <[id := mkCampaign PAUSED (budget_limit c) (current_spend c)]> (campaigns d) /\
  (exists m, customers d' = <[cust := mkCustomer (balance cu + (budget_limit c - current_spend c)) ov]> (<[cust := m]> (customers d))) /\
  balance_ledger d' = balance_ledger d ++
    [mkEntry sq cust (Some id) (budget_limit c - current_spend c) RELEASE None None].
Proof.
  intros H Hc Ha Hm Hs Hcu Hov Hneg. unfold UpdateOverdraft in H. apply bind_inr in H as (? & ? & [= <- <-] & H).
  apply bind_inr in H as (? & ? & (cu' & Hx & [= -> ->])%lift_inr & H). rewrite Hcu in Hx. injection Hx as <-.
  cbv zeta in H. rewrite (proj2 (Z.eqb_neq ov _)), (proj2 (Z.ltb_lt ov _)), (proj2 (Z.ltb_lt _ 0)) in H by lia.
  cbn [andb] in H. change (take (Z.to_nat 10000) [(id, sq)]) with [(id, sq)] in H. cbn [suspend] in H.
  rewrite (proj2 (Z.leb_gt 0 _)) in H by lia. apply bind_inr in H as (? & d1 & H1 & H).
  apply bind_inr in H1 as (? & ? & H1 & [= <- <-]). apply bind_inr in H1 as (? & ? & [= <- <-] & H1).
  apply bind_inr in H1 as (? & ? & (c' & Hx & [= -> ->])%lift_inr & H1). rewrite Hc in Hx. injection Hx as <-.
  rewrite bool_decide_eq_false_2 in H1 by tauto.
  assert (remaining_budget c = budget_limit c - current_spend c) as E.
  { unfold remaining_budget. rewrite i64_id by go_lia. lia. }
  rewrite E, (proj2 (Z.ltb_lt 0 _)) in H1 by lia.
  apply bind_inr in H1 as (? & ? & [= <- <-] & H1). apply bind_inr in H1 as (? & d2 & H2 & H1).
  apply bind_inr in H2 as (n & ? & (m & (Hm1 & _ & _) & -> & ->)%post_effect & [= <- <-]).
  apply bind_inr in H1 as (? & ? & [= <- <-] & [= <- <-]).
  cbn in Hm1. rewrite Hcu in Hm1. injection Hm1 as <-.
  unfold UpdateCustomerOverdraft, put_customer in H. tx_inv H.
  match goal with Hx : customers _ !! _ = Some _ |- _ => cbn in Hx; rewrite lookup_insert_eq in Hx; injection Hx as <- end.
  split; [done|]. split; [by eexists|done].
Qed.

(** A suspension pays the budget out and keeps it.  Lowering the overdraft
    below what a customer owes pauses a campaign and releases what its budget
    has left to the balance, but leaves the budget as it is: the campaign
    still holds the same money, which resuming it spends and cancelling it
    refunds again. *)
Theorem overdraft_suspension_pays_twice cust ov id sq s u s' c i cu :
  on_base (UpdateOverdraft cust ov [(id, sq)]) s = inr (u, s') ->
  rows s !! id = Some (c, i) -> owner i = cust -> status c = ACTIVE ->
  budget_limit c <= max_i64 -> 0 <= current_spend c < budget_limit c ->
  customers (base s) !! cust = Some cu -> ov < allowed_overdraft cu -> balance cu +64 ov < 0 ->
  rows s' !! id = Some (mkCampaign PAUSED (budget_limit c) (current_spend c), i) /\
  balance_of cust s' = balance cu + (budget_limit c - current_spend c) /\
  unexplained cust s' = unexplained cust s + (budget_limit c - current_spend c).
Proof.
  intros (d & H & ->)%on_base_inr Hr Ho Ha Hm Hs Hcu Hov Hneg.
  assert (campaigns (base s) !! id = Some c /\ info s !! id = Some i) as [Hc Hi].
  { unfold rows in Hr. rewrite map_lookup_zip_with in Hr. destruct (campaigns (base s) !! id), (info s !! id); naive_solver. }
  destruct (suspend_one _ _ _ _ _ _ _ _ _ H Hc Ha Hm Hs Hcu Hov Hneg) as (C & (m & U) & L).
  assert (rows (with_base d s) = <[id := (mkCampaign PAUSED (budget_limit c) (current_spend c), i)]> (rows s)) as R.
  { unfold rows. cbn. rewrite C. rewrite <- (insert_id (info s) id i) at 1 by done. by rewrite map_insert_zip_with. }
  assert (balance_of cust (with_base d s) = balance cu + (budget_limit c - current_spend c)) as B.
  { unfold balance_of. cbn. by rewrite U, lookup_insert_eq. }
  split; [by rewrite R, lookup_insert_eq|]. split; [exact B|]. unfold unexplained. rewrite B.
  unfold held. rewrite R, map_total_insert. unfold weight_at, due. rewrite Hr. cbn [base with_base].
  rewrite L, map_app, sumZ_app. cbn -[sumZ]. cbn [sumZ]. unfold contrib, balance_of. rewrite Hcu. cbn. rewrite Ha, Ho.
  rewrite (bool_decide_eq_false_2 (PAUSED = DELETED)), (bool_decide_eq_false_2 (ACTIVE = DELETED)) by done. cbn.
  case_bool_decide; unfold explained; cbn; lia.
Qed.

(** ** Draining *)

(** The campaigns a pass has to finalize. *)
Definition due_row (threshold : Z) (x : UUID * (Campaign * Info)) : Prop :=
  status (fst (snd x)) = DRAINING /\ updated_at (snd (snd x)) < threshold.
#[export] Instance due_row_dec threshold x : Decision (due_row threshold x).
Proof. unfold due_row. apply _. Defined.
Definition due_rows (threshold : Z) (s : CDB) : gmap UUID (Campaign * Info) := filter (due_row threshold) (rows s).

Lemma drainable_due threshold s id ci :
  drainable threshold [] s id = Some ci <-> due_rows threshold s !! id = Some ci.
Proof.
  unfold drainable, due_rows. rewrite GetCampaign_rows, map_lookup_filter_Some.
  destruct (rows s !! id) as [[c i]|]; cbn -[due_row]; [|naive_solver].
  rewrite (bool_decide_eq_false_2 (id ∈ [])) by (apply not_elem_of_nil). rewrite andb_true_r. unfold due_row. cbn.
  destruct (bool_decide_reflect (status c = DRAINING)), (Z.ltb_spec (updated_at i) threshold); cbn; naive_solver lia.
Qed.

Lemma oldest_some threshold s l : forall acc id t,
  foldl (oldest threshold [] s) acc l = Some (id, t) ->
  acc = Some (id, t) \/ is_Some (due_rows threshold s !! id).
Proof.
  induction l as [|x l IH]; cbn -[oldest]; intros acc id t H; [by left|].
  destruct (IH _ _ _ H) as [Hx|Hx]; [|by right]. unfold oldest in Hx.
  destruct (drainable threshold [] s x) as [[c i]|] eqn:E; [|by left]. apply drainable_due in E.
  destruct acc as [[id0 t0]|]; [destruct (t0 <=? updated_at i); [by left|]|]; injection Hx as <- <-; right; eauto.
Qed.

Lemma oldest_none threshold s l : forall acc,
  foldl (oldest threshold [] s) acc l = None -> acc = None /\ forall id, id ∈ l -> due_rows threshold s !! id = None.
Proof.
  induction l as [|x l IH]; cbn -[oldest]; intros acc H; [split; [done|intros id []%elem_of_nil]|].
  destruct (IH _ H) as [Hx Hl]. unfold oldest in Hx.
  destruct (drainable threshold [] s x) as [[c i]|] eqn:E.
  { destruct acc as [[id0 t0]|]; [destruct (t0 <=? updated_at i)|]; discriminate. }
  split; [done|]. intros id [->|Hid]%elem_of_cons; [|by apply Hl].
  destruct (due_rows threshold s !! x) eqn:D; [|done]. apply drainable_due in D. congruence.
Qed.

Lemma next_draining_spec threshold s :
  match next_draining threshold [] s with
  | Some id => is_Some (due_rows threshold s !! id)
  | None => due_rows threshold s = ∅
  end.
Proof.
  unfold next_draining. destruct (foldl _ None _) as [[id t]|] eqn:E; cbn.
  - by destruct (oldest_some _ _ _ _ _ _ E).
  - apply oldest_none in E as [_ E]. apply map_empty. intros id.
    destruct (due_rows threshold s !! id) as [ci|] eqn:D; [|done]. rewrite <- D. apply E.
    apply map_lookup_filter_Some in D as [D _]. unfold rows in D. rewrite map_lookup_zip_with in D.
    apply bind_Some in D as (c & _ & D). apply bind_Some in D as (i & Hi & _).
    apply list_elem_of_fmap. exists (id, i). split; [done|]. by apply elem_of_map_to_list.
Qed.

Lemma finalize_rows fee id c i s u s' :
  FinalizeDrainingCampaign fee id c (owner i) s = inr (u, s') -> rows s !! id = Some (c, i) -> status c = DRAINING ->
  exists c' i', rows s' = <[id := (c', i')]> (rows s) /\ status c' = DELETED.
Proof.
  intros H Hr Hd. unfold FinalizeDrainingCampaign in H. rewrite bool_decide_eq_false_2 in H by tauto. cbv zeta in H.
  apply bind_inr in H as (u1 & s1 & H1 & H). apply bind_inr in H as (u2 & s2 & H2 & H).
  apply bind_inr in H as (u3 & s3 & H3 & H). apply CreateStatusHistory_effect in H as [R4 _].
  assert (rows s1 = rows s) as R1.
  { tx_inv H1; [|done].
    match goal with Hx : credit _ _ _ = _, Hy : entry _ _ _ _ _ _ = _ |- _ =>
      destruct (credit_effect _ _ _ _ _ Hx) as [[R _] _]; destruct (entry_effect _ _ _ _ _ _ _ _ Hy) as [[R' _] _] end.
    congruence. }
  assert (rows s2 = rows s) as R2.
  { tx_inv H2; [|done].
    match goal with Hy : entry _ _ _ _ _ _ = _ |- _ => destruct (entry_effect _ _ _ _ _ _ _ _ Hy) as [[R' _] _] end.
    congruence. }
  unfold SoftDeleteCampaign in H3. apply bind_inr in H3 as (? & ? & [= <- <-] & H3).
  rewrite GetCampaign_rows, R2, Hr in H3. apply put_campaign_effect in H3 as [R3 _].
  do 2 eexists. rewrite R4, R3, R2. done.
Qed.

Lemma finalize_next_due fee threshold s b s' :
  finalizeNextDraining fee threshold [] s = inr (b, s') ->
  if b then (size (due_rows threshold s') < size (due_rows threshold s))%nat
  else due_rows threshold s = ∅ /\ s' = s.
Proof.
  intros H. unfold finalizeNextDraining in H. apply bind_inr in H as (? & ? & [= <- <-] & H).
  pose proof (next_draining_spec threshold s) as Hn. destruct (next_draining threshold [] s) as [id|]; [|by tx_inv H].
  row_inv H. apply bind_inr in H0 as (u & s1 & H1 & [= <- <-]). destruct Hn as [ci Hn].
  pose proof Hn as Hn'. apply map_lookup_filter_Some in Hn as [Hn [Hd _]]. rewrite H in Hn. injection Hn as <-.
  destruct (finalize_rows _ _ _ _ _ _ _ H1 H Hd) as (c' & i' & R & Hc').
  unfold due_rows at 1. rewrite R, map_filter_insert_False by (unfold due_row; cbn; intros [E _]; congruence).
  rewrite map_filter_delete. fold (due_rows threshold s). rewrite map_size_delete, Hn'.
  pose proof (map_size_ne_0_lookup_2 (due_rows threshold s) id (ex_intro _ _ Hn')). lia.
Qed.

(** A pass finalizes every campaign that is due.  If no more than a hundred
    are, afterwards none is left, unless the one whose turn it is cannot be
    finalized. *)
Theorem draining_completes fee now timeout s :
  let threshold := now - (if timeout <=? 0 then 100 else timeout) in
  let s' := ProcessDraining fee now timeout s in
  (size (due_rows threshold s) <= 100)%nat ->
  due_rows threshold s' = ∅ \/ exists e, finalizeNextDraining fee threshold [] s' = inl e.
Proof.
  cbv zeta. unfold ProcessDraining. set (threshold := now - _). generalize 100%nat as n. intros n. revert s.
  induction n as [|n IH]; intros s Hn; cbn [drain].
  - left. by apply map_size_empty_inv; lia.
  - unfold BeginFunc. destruct (finalizeNextDraining fee threshold [] s) as [e|[[|] s1]] eqn:E.
    + right. by exists e.
    + apply finalize_next_due in E. apply IH. lia.
    + apply finalize_next_due in E as [E ->]. by left.
Qed.

(** ** Instances *)

Definition demo : CDB :=
  mkCDB (mkDB {["acme" := mkCustomer 100 50]} {["c1" := mkCampaign ACTIVE 40 10]}
           [mkEntry 1 "acme" None 100 TOPUP (Some "t1") None] [] [])
    {["c1" := mkInfo "acme" None None [] false 0]} ∅ ∅ ∅ [] [] 2.

Definition demo_spec : CreateCampaignSpec := mkSpec "acme" 20 None None [] None "k1".

Definition after {A} (m : M A) (s : CDB) : CDB := match m s with inr (_, s') => s' | inl _ => s end.

Definition demo_created : CDB := after (createCampaign true 5 "c2" demo_spec) demo.
Definition demo_items : list (bool * SpendFlushItem) := [(false, mkItem "c2" 7 3 "tx1" false)].
Definition demo_spent : CDB := after (UpdateSpendBatch 6 demo_items) demo_created.

Lemma demo_rows_ok : rows_ok demo.
Proof.
  intros id ci H. unfold rows in H. rewrite map_lookup_zip_with in H. cbn [demo base campaigns info] in H.
  apply bind_Some in H as (c & H1 & H). apply bind_Some in H as (i & _ & H). injection H as <-.
  apply lookup_singleton_Some in H1 as [_ <-]. unfold limit_ok. cbn. go_lia.
Qed.

(** A campaign is created and spends, then the customer is synced. *)
Definition demo_synced : CDB := after (UpdateBalance "acme" 5 "sync1") demo_spent.


Lemma create_breaks_ledger_check_witness :
  CheckLedgerBalanceInvariant "acme" (base demo) = true /\
  CheckLedgerBalanceInvariant "acme" (base demo_created) = false.
Proof.
  split; [vm_compute; reflexivity|].
  apply (create_breaks_ledger_check true 5 "c2" demo_spec demo "c2" demo_created);
    [vm_compute; reflexivity|reflexivity|vm_compute; split; intros H; discriminate H|vm_compute; reflexivity].
Defined.

Lemma create_idempotent_witness :
  createCampaign true 9 "c3" (mkSpec "acme" 1 None None [] None "k1") demo_created = inr ("c2", demo_created).
Proof.
  destruct (createCampaign true 9 "c3" (mkSpec "acme" 1 None None [] None "k1") demo_created) as [e|[r s']] eqn:E.
  - vm_compute in E. discriminate E.
  - destruct (create_idempotent true true 5 9 "c2" "c3" demo_spec (mkSpec "acme" 1 None None [] None "k1") demo "c2"
                demo_created demo_created ltac:(vm_compute; reflexivity) eq_refl
                ltac:(vm_compute; split; intros H; discriminate H) (ex_intro _ [] eq_refl) eq_refl r s' E) as [-> ->].
    reflexivity.
Defined.

Definition demo_c1 : Campaign := mkCampaign ACTIVE 40 10.
Definition demo_raised : CDB := after (ApplyBudgetPatch true 7 "c1" demo_c1 "acme" 60) demo.
Definition demo_lowered : CDB := after (ApplyBudgetPatch true 8 "c1" (mkCampaign ACTIVE 60 10) "acme" 40) demo_raised.

Lemma patch_budget_once_witness :
  ApplyBudgetPatch true 7 "c1" demo_c1 "acme" 60 demo = inr (tt, demo_raised) /\
  (exists s', ApplyBudgetPatch true 9 "c1" demo_c1 "acme" 61 demo_lowered = inr (tt, s')) /\
  forall r, ApplyBudgetPatch true 9 "c1" demo_c1 "acme" 60 demo_lowered <> inr r.
Proof.
  split; [vm_compute; reflexivity|]. split; [eexists; vm_compute; reflexivity|].
  apply (patch_budget_once true true 7 9 "c1" demo_c1 demo_c1 "acme" "acme" 60 demo tt demo_raised demo_lowered);
    try (vm_compute; split; intros; first [discriminate|reflexivity]).
  - vm_compute. intros H; discriminate H.
  - eexists. vm_compute. reflexivity.
Defined.

Definition demo_owing : CDB :=
  with_base (with_customers {["acme" := mkCustomer (-30) 50]} (base demo)) demo.
Definition demo_suspended : CDB := after (on_base (UpdateOverdraft "acme" 10 [("c1", 9)])) demo_owing.

Lemma overdraft_suspension_pays_twice_witness :
  rows demo_suspended !! "c1" = Some (mkCampaign PAUSED 40 10, mkInfo "acme" None None [] false 0) /\
  balance_of "acme" demo_suspended = 0 /\
  balance_of "acme" (after (FinalizeCancelledCampaign false 0 "c1") (after (CancelCampaign 1 "c1") demo_suspended)) = 30.
Proof.
  destruct (overdraft_suspension_pays_twice "acme" 10 "c1" 9 demo_owing tt demo_suspended demo_c1
              (mkInfo "acme" None None [] false 0) (mkCustomer (-30) 50)) as (H1 & H2 & _);
    try reflexivity; try (vm_compute; first [reflexivity|intros H; discriminate H]).
  - split; vm_compute; [intros H; discriminate H|reflexivity].
  - split; [exact H1|]. split; [exact H2|vm_compute; reflexivity].
Defined.

Definition demo_cancelled : CDB := after (CancelCampaign 1 "c1") demo.

Lemma draining_completes_witness :
  due_rows 100 demo_cancelled <> ∅ /\ due_rows 100 (ProcessDraining 150 200 0 demo_cancelled) = ∅.
Proof.
  split; [vm_compute; discriminate|].
  destruct (draining_completes 150 200 0 demo_cancelled) as [H|[e H]]; [vm_compute; lia|exact H|].
  vm_compute in H. discriminate H.
Defined.

End CampaignLedger.
