(* ===== verification/Invoice.v ===== *)
(** * Invoices

    Models [internal/ledger]: [service.go], [tax_calculator.go],
    [preview.go], [worker_invoice.go] with the queries of
    [queries/billing.sql].  The ledger is that of [PaymentLedger], with the
    time at which each entry was written.  A time is its UTC calendar
    fields.  Country codes and regions are ASCII.  How the database compares
    texts is its collation, a component of its state. *)

From S2P Require Import Prelude Text SqlTx PaymentLedger.
Open Scope string_scope.
Open Scope Z_scope.

Module Invoice.

Import Text SqlTx PaymentLedger.

#[local] Abbreviation UUID := string (only parsing).

(** ** Time *)

Record Time := mkTime { Year : Z; Month : Z; Day : Z; Hour : Z; Minute : Z; Second : Z; Nanosecond : Z }.

#[export] Instance Time_eq_dec : EqDecision Time.
Proof. solve_decision. Defined.

Definition fields (t : Time) : list Z := [Year t; Month t; Day t; Hour t; Minute t; Second t; Nanosecond t].

Fixpoint lex (l l' : list Z) : bool :=
  match l, l' with
  | x :: l, y :: l' => (x <? y) || ((x =? y) && lex l l')
  | _, _ => false
  end.
Definition before (t u : Time) : bool := lex (fields t) (fields u).

(** A time of the calendar. *)
Definition time_ok (t : Time) : Prop :=
  1 <= Month t <= 12 /\ 1 <= Day t <= 31 /\ 0 <= Hour t < 24 /\ 0 <= Minute t < 60 /\ 0 <= Second t < 60 /\
  0 <= Nanosecond t < 1000000000.

Definition first_of (y m : Z) : Time := mkTime y m 1 0 0 0 0.

Definition validateBillingMonth (t : Time) : bool :=
  (Day t =? 1) && (Hour t =? 0) && (Minute t =? 0) && (Second t =? 0) && (Nanosecond t =? 0).
Definition truncateMonthUTC (t : Time) : Time := first_of (Year t) (Month t).

(** [AddDate(0, n, 0)] of the first of a month. *)
Definition add_months (t : Time) (n : Z) : Time :=
  let m := 12 * Year t + (Month t - 1) + n in first_of (m / 12) (m mod 12 + 1).

Definition previousBillingMonth (now : Time) : Time := add_months (first_of (Year now) (Month now)) (-1).

(** The time of the next run. *)
Definition nextInvoiceRun (now : Time) : Time :=
  let next := mkTime (Year now) (Month now) 1 0 15 0 0 in
  if before now next then next
  else let t := add_months (first_of (Year now) (Month now)) 1 in mkTime (Year t) (Month t) 1 0 15 0 0.

(** ** Tax *)

Inductive TaxScheme := TaxSchemeNone | TaxSchemeVAT | TaxSchemeSalesTax.

Record TaxProfile := mkProfile { CountryCode : string; TaxRegion : string; Scheme : TaxScheme; RateBPS : Z }.

Definition usSalesTaxRateBPS (region : string) : Z :=
  let r := ToUpper region in
  if bool_decide (r = "CA") then 725 else if bool_decide (r = "NY") then 800
  else if bool_decide (r = "TX") then 625 else if bool_decide (r = "WA") then 650 else 0.

Definition euVATRateBPS (country : string) : Z :=
  let c := ToUpper country in
  if bool_decide (c = "DE") then 1900 else if bool_decide (c = "FR") then 2000
  else if bool_decide (c = "IE") then 2300 else if bool_decide (c = "NL") then 2100
  else if bool_decide (c = "ES") then 2100 else if bool_decide (c = "IT") then 2200 else 2000.

Definition isEUCountry (code : string) : bool :=
  bool_decide (ToUpper code ∈ ["AT"; "BE"; "BG"; "HR"; "CY"; "CZ"; "DK"; "EE"; "FI"; "FR"; "DE"; "GR"; "HU"; "IE";
                               "IT"; "LV"; "LT"; "LU"; "MT"; "NL"; "PL"; "PT"; "RO"; "SK"; "SI"; "ES"; "SE"]).

Definition defaultUSRegion (currency : string) : string :=
  if bool_decide (ToUpper currency = "USD") then "CA" else "".

Definition ProfileFromDB (r : TaxProfile) : TaxProfile :=
  mkProfile (ToUpper (TrimSpace (CountryCode r))) (ToUpper (TrimSpace (TaxRegion r))) (Scheme r) (RateBPS r).

Definition DefaultProfile (countryCode currency : string) : TaxProfile :=
  let code := ToUpper (TrimSpace countryCode) in
  let code := if bool_decide (code = "") then "US" else code in
  if isEUCountry code then mkProfile code "" TaxSchemeVAT (euVATRateBPS code)
  else if bool_decide (code = "US") then
    mkProfile code (defaultUSRegion currency) TaxSchemeSalesTax (usSalesTaxRateBPS (defaultUSRegion currency))
  else mkProfile code "" TaxSchemeNone 0.

Definition tax_rate (p : TaxProfile) : Z :=
  if RateBPS p <=? 0 then
    match Scheme p with
    | TaxSchemeVAT => euVATRateBPS (CountryCode p)
    | TaxSchemeSalesTax => usSalesTaxRateBPS (TaxRegion p)
    | TaxSchemeNone => RateBPS p
    end
  else RateBPS p.

Definition Compute_tax (subtotalMicro : Z) (p : TaxProfile) : Z * Z :=
  if (subtotalMicro <=? 0) || match Scheme p with TaxSchemeNone => true | _ => false end then (0, 0)
  else
    let rate := tax_rate p in
    if rate <=? 0 then (0, 0) else (Z.quot (subtotalMicro *64 rate +64 5000) 10000, rate).

(** ** Tables *)

Inductive InvoiceStatus := FINALIZED | VOID.

Record Row := mkRow {
  i_customer : UUID; i_month : Time; SubtotalMicro : Z; TaxMicro : Z; TotalMicro : Z; Currency : string;
  i_scheme : TaxScheme; TaxRateBps : Z; LedgerSumMicro : Z; i_status : InvoiceStatus }.
Record Line := mkLine { LedgerType_ : LedgerType; AmountMicro : Z; EntryCount : Z }.

Record BDB := mkBDB {
  base : DB; created_at : Z -> Time; currency : UUID -> string; profiles : gmap UUID TaxProfile;
  invoices : gmap UUID Row; lines : list (UUID * Line);
  collation : string -> string -> bool (* a text sorts before or with another *) }.

Inductive IErr :=
  | ErrInvalidBillingMonth | ErrCustomerNotFound | ErrInvoiceNotFound | ErrLedgerDrift | ErrNoSpend
  | ErrNoRows | ErrOverflow.

#[local] Abbreviation M := (SqlTx.M BDB IErr).

(** ** Queries *)

Definition sum_bigint (l : list Z) : M Z := guard (bool_decide (in_i64 (sumZ l))) ErrOverflow ;; ret (sumZ l).

Definition of_customer (k : UUID) (s : BDB) : list Entry :=
  filter (fun e => customer_id e = k) (balance_ledger (base s)).
Definition in_window (from to : Time) (t : Time) : bool := negb (before t from) && before t to.
Definition window (k : UUID) (from to : Time) (s : BDB) : list Entry :=
  List.filter (fun e => in_window from to (created_at s (e_id e))) (of_customer k s).

Definition SumCustomerLedgerTotal (k : UUID) : M Z := let! s := read (fun s => s) in sum_bigint (map amount (of_customer k s)).

Definition spend_of (e : Entry) : Z :=
  match type e with
  | FEE => if amount e <? 0 then - amount e else 0
  | RECONCILIATION_ADJUST | PAYMENT_REFUND => - amount e
  | _ => 0
  end.
Definition SumCustomerSpendInWindow (k : UUID) (from to : Time) : M Z :=
  let! s := read (fun s => s) in sum_bigint (map spend_of (window k from to s)).

(** The types in the order of the enum. *)
Definition ledger_types : list LedgerType :=
  [TOPUP; FREEZE; RELEASE; FEE; REFUND; RECONCILIATION_ADJUST; PAYMENT_TOPUP; PAYMENT_REFUND; PAYMENT_CHARGEBACK;
   PAYMENT_CHARGEBACK_REVERSAL; CTV_GTAX; publisher_payout; operator_margin; rtb_cost].
Definition of_type (t : LedgerType) (l : list Entry) : list Entry := filter (fun e => type e = t) l.

Fixpoint type_lines (ts : list LedgerType) (l : list Entry) : M (list Line) :=
  match ts with
  | [] => ret []
  | t :: ts =>
      match of_type t l with
      | [] => type_lines ts l
      | g =>
          let! a := sum_bigint (map amount g) in
          let! rest := type_lines ts l in
          ret (mkLine t a (zlen g) :: rest)
      end
  end.
Definition SumCustomerLedgerByTypeInWindow (k : UUID) (from to : Time) : M (list Line) :=
  let! s := read (fun s => s) in type_lines ledger_types (window k from to s).

Definition of_month (k : UUID) (m : Time) (x : UUID * Row) : bool :=
  bool_decide (i_customer (snd x) = k) && bool_decide (i_month (snd x) = m).
Definition GetInvoiceByCustomerMonth (k : UUID) (m : Time) (s : BDB) : option (UUID * Row) :=
  List.find (of_month k m) (map_to_list (invoices s)).

(** The text of a ledger type, which is what a line stores. *)
Definition type_text (t : LedgerType) : string :=
  match t with
  | TOPUP => "TOPUP" | FREEZE => "FREEZE" | RELEASE => "RELEASE" | FEE => "FEE" | REFUND => "REFUND"
  | RECONCILIATION_ADJUST => "RECONCILIATION_ADJUST" | PAYMENT_TOPUP => "PAYMENT_TOPUP"
  | PAYMENT_REFUND => "PAYMENT_REFUND" | PAYMENT_CHARGEBACK => "PAYMENT_CHARGEBACK"
  | PAYMENT_CHARGEBACK_REVERSAL => "PAYMENT_CHARGEBACK_REVERSAL" | CTV_GTAX => "CTV_GTAX"
  | publisher_payout => "publisher_payout" | operator_margin => "operator_margin" | rtb_cost => "rtb_cost"
  end.

Definition by_text (s : BDB) (a b : Line) : Prop :=
  collation s (type_text (LedgerType_ a)) (type_text (LedgerType_ b)) = true.
#[export] Instance by_text_dec s a b : Decision (by_text s a b).
Proof. unfold by_text. apply _. Defined.

(** [ORDER BY ledger_type], a [TEXT] column. *)
Definition ListInvoiceLines (id : UUID) (s : BDB) : list Line :=
  merge_sort (by_text s) (map snd (List.filter (fun x => bool_decide (fst x = id)) (lines s))).

Definition invoiceFromDB (x : UUID * Row) : M (UUID * Row * list Line) :=
  let! s := read (fun s => s) in ret (x, ListInvoiceLines (fst x) s).

(** [CreateInvoice]; [false] is the unique violation. *)
Definition CreateInvoice (id : UUID) (r : Row) : M bool :=
  let! s := read (fun s => s) in
  match GetInvoiceByCustomerMonth (i_customer r) (i_month r) s with
  | Some _ => ret false
  | None =>
      modify (fun s => mkBDB (base s) (created_at s) (currency s) (profiles s) (<[id := r]> (invoices s)) (lines s)
                          (collation s)) ;;
      ret true
  end.
Definition CreateInvoiceLines (id : UUID) (ls : list Line) : M unit :=
  modify (fun s => mkBDB (base s) (created_at s) (currency s) (profiles s) (invoices s) (lines s ++ map (pair id) ls)
                       (collation s)).

Definition resolveTaxProfile (k : UUID) (s : BDB) : TaxProfile :=
  match profiles s !! k with Some r => ProfileFromDB r | None => DefaultProfile "US" (currency s k) end.

(** ** Generating an invoice *)

Definition check_ledger (k : UUID) : M unit :=
  let! s := read (fun s => s) in
  guard (bool_decide (is_Some (customers (base s) !! k))) ErrNoRows ;;
  guard (CheckLedgerBalanceInvariant k (base s)) ErrLedgerDrift.

(** The checks before the transaction; [Some] is the invoice of the month. *)
Definition generate_check (k : UUID) (billingMonth : Time) : M (option (UUID * Row)) :=
  guard (validateBillingMonth billingMonth) ErrInvalidBillingMonth ;;
  check_ledger k ;;
  let! s := read (fun s => s) in
  ret (GetInvoiceByCustomerMonth k (truncateMonthUTC billingMonth) s).

Definition drift_ok (balance sum : Z) : bool :=
  let diff := balance -64 sum in
  negb ((diff <? - ledgerInvariantToleranceMicro) || (ledgerInvariantToleranceMicro <? diff)).

(** The transaction; [id] is the UUID drawn for the invoice. *)
Definition generate_write (id : UUID) (k : UUID) (billingMonth : Time) : M (UUID * Row * list Line) :=
  let monthStart := truncateMonthUTC billingMonth in
  let monthEnd := add_months monthStart 1 in
  let! s := read (fun s => s) in
  let! cust := lift (customers (base s) !! k) ErrCustomerNotFound in
  let! ledgerSum := SumCustomerLedgerTotal k in
  guard (drift_ok (balance cust) ledgerSum) ErrLedgerDrift ;;
  let! spendMicro := SumCustomerSpendInWindow k monthStart monthEnd in
  let! ls := SumCustomerLedgerByTypeInWindow k monthStart monthEnd in
  let profile := resolveTaxProfile k s in
  let '(taxMicro, rateBPS) := Compute_tax spendMicro profile in
  guard (negb (spendMicro =? 0)) ErrNoSpend ;;
  let r := mkRow k monthStart spendMicro taxMicro (spendMicro +64 taxMicro) (currency s k) (Scheme profile) rateBPS
                 ledgerSum FINALIZED in
  let! inserted := CreateInvoice id r in
  if inserted then CreateInvoiceLines id ls ;; invoiceFromDB (id, r)
  else
    let! s := read (fun s => s) in
    let! x := lift (GetInvoiceByCustomerMonth k monthStart s) ErrOverflow in
    invoiceFromDB x.

Definition GenerateInvoice (id : UUID) (k : UUID) (billingMonth : Time) : M (UUID * Row * list Line) :=
  let! existing := generate_check k billingMonth in
  match existing with
  | Some x => invoiceFromDB x
  | None => generate_write id k billingMonth
  end.

(** ** Preview, void, read *)

Record InvoicePreview := mkPreview {
  p_month : Time; p_currency : string; p_subtotal : Z; p_tax : Z; p_total : Z; p_scheme : TaxScheme; p_rate : Z;
  p_lines : list Line; WouldSkip : bool; p_ledger_sum : Z }.

Definition PreviewInvoice (k : UUID) (billingMonth : Time) : M InvoicePreview :=
  guard (validateBillingMonth billingMonth) ErrInvalidBillingMonth ;;
  check_ledger k ;;
  let! s := read (fun s => s) in
  let monthStart := truncateMonthUTC billingMonth in
  let monthEnd := add_months monthStart 1 in
  let! _ := lift (customers (base s) !! k) ErrCustomerNotFound in
  let! ledgerSum := SumCustomerLedgerTotal k in
  let! spendMicro := SumCustomerSpendInWindow k monthStart monthEnd in
  let! ls := SumCustomerLedgerByTypeInWindow k monthStart monthEnd in
  let profile := resolveTaxProfile k s in
  let '(taxMicro, rateBPS) := Compute_tax spendMicro profile in
  ret (mkPreview monthStart (currency s k) spendMicro taxMicro (spendMicro +64 taxMicro) (Scheme profile) rateBPS ls
                 (spendMicro =? 0) ledgerSum).

Definition VoidInvoice (id : UUID) : M unit :=
  let! s := read (fun s => s) in
  let! r := lift (invoices s !! id) ErrInvoiceNotFound in
  match i_status r with
  | VOID => ret tt
  | FINALIZED =>
      modify (fun s => mkBDB (base s) (created_at s) (currency s) (profiles s)
        (<[id := mkRow (i_customer r) (i_month r) (SubtotalMicro r) (TaxMicro r) (TotalMicro r) (Currency r)
                       (i_scheme r) (TaxRateBps r) (LedgerSumMicro r) VOID]> (invoices s)) (lines s)
        (collation s))
  end.

Definition GetInvoice (id : UUID) : M (UUID * Row * list Line) :=
  let! s := read (fun s => s) in
  let! r := lift (invoices s !! id) ErrInvoiceNotFound in invoiceFromDB (id, r).

(** ** The monthly run

    [draw] gives the UUIDs; the second component collects the invoices that
    are delivered.  A customer whose invoice fails is skipped. *)
Definition pageSize : Z := 200.

Definition run_customer (month : Time) (draw : UUID -> UUID) (st : BDB * list UUID) (k : UUID) : BDB * list UUID :=
  match BeginFunc (GenerateInvoice (draw k) k month) (fst st) with
  | (inr (x, _), s) => (s, snd st ++ [fst x])
  | (inl _, s) => (s, snd st)
  end.

Definition ListCustomerIDs (ids : list UUID) (limit offset : Z) : list UUID :=
  take (Z.to_nat limit) (drop (Z.to_nat offset) ids).

(** [ids] are the customers in the order of their ids. *)
Fixpoint runMonth (fuel : nat) (ids : list UUID) (offset : Z) (month : Time) (draw : UUID -> UUID)
    (st : BDB * list UUID) : BDB * list UUID :=
  match fuel with
  | O => st
  | S fuel =>
      let page := ListCustomerIDs ids pageSize offset in
      if bool_decide (page = []) then st
      else
        let st := fold_left (run_customer month draw) page st in
        if zlen page <? pageSize then st else runMonth fuel ids (offset + pageSize) month draw st
  end.

(** ** Months *)

Lemma month_window y m t :
  1 <= m <= 12 -> time_ok t ->
  in_window (first_of y m) (add_months (first_of y m) 1) t = true <-> Year t = y /\ Month t = m.
Proof.
  intros Hm (Ht1 & Ht2 & Ht3 & Ht4 & Ht5 & Ht6). unfold in_window, before, add_months, fields, first_of. cbn -[Z.div Z.modulo].
  destruct (decide (m = 12)) as [->|Hn].
  - replace (12 * y + (12 - 1) + 1) with (0 + (y + 1) * 12) by lia.
    rewrite Z.div_add, Z.mod_add by lia. change (0 / 12) with 0. change (0 mod 12 + 1) with 1.
    rewrite andb_true_iff, negb_true_iff. repeat rewrite ?orb_true_iff, ?orb_false_iff, ?andb_true_iff, ?andb_false_iff,
      ?Z.ltb_lt, ?Z.ltb_ge, ?Z.eqb_eq, ?Z.eqb_neq. lia.
  - replace (12 * y + (m - 1) + 1) with (m + y * 12) by lia.
    rewrite Z.div_add, Z.mod_add by lia. rewrite Z.div_small, Z.mod_small by lia.
    rewrite andb_true_iff, negb_true_iff. repeat rewrite ?orb_true_iff, ?orb_false_iff, ?andb_true_iff, ?andb_false_iff,
      ?Z.ltb_lt, ?Z.ltb_ge, ?Z.eqb_eq, ?Z.eqb_neq. lia.
Qed.

Definition month_start (x : Z * Z) : Time := first_of (fst x) (snd x).
Definition month_of (t : Time) : Z * Z := (Year t, Month t).
Definition month_spend (k : UUID) (s : BDB) (x : Z * Z) : Z :=
  sumZ (map spend_of (window k (month_start x) (add_months (month_start x) 1) s)).

Lemma sumZ_filter {A} (p : A -> bool) (f : A -> Z) l :
  sumZ (map f (List.filter p l)) = sumZ (map (fun x => if p x then f x else 0) l).
Proof. induction l as [|x l IH]; cbn; [done|]. destruct (p x); cbn; lia. Qed.

Lemma sumZ_plus {A} (f g : A -> Z) l : sumZ (map (fun x => f x + g x) l) = sumZ (map f l) + sumZ (map g l).
Proof. induction l; cbn; lia. Qed.

Lemma sumZ_ext {A} (f g : A -> Z) l : (forall x, x ∈ l -> f x = g x) -> sumZ (map f l) = sumZ (map g l).
Proof.
  induction l as [|x l IH]; cbn; intros H; [done|]. rewrite (H x), IH; [done| |by left]. intros y Hy. apply H. by right.
Qed.

(** C26: every entry is billed in exactly one month.  The spend of the invoices
    of different months is the spend of the entries written in one of them:
    none is billed twice and none falls between two months. *)
Theorem months_partition_spend k s ms :
  NoDup ms -> Forall (fun x => 1 <= snd x <= 12) ms -> Forall (fun e => time_ok (created_at s (e_id e))) (balance_ledger (base s)) ->
  sumZ (map (month_spend k s) ms) =
  sumZ (map (fun e => if bool_decide (month_of (created_at s (e_id e)) ∈ ms) then spend_of e else 0) (of_customer k s)).
Proof.
  intros Hn Hms Hok. induction Hn as [|x ms Hx Hn IH]; cbn [map sumZ].
  - induction (of_customer k s); cbn; [done|]. rewrite bool_decide_eq_false_2 by apply not_elem_of_nil. lia.
  - inversion_clear Hms as [|? ? Hm Hms']. rewrite (IH Hms'). unfold month_spend at 1, window.
    rewrite sumZ_filter, <- sumZ_plus. apply sumZ_ext. intros e He.
    assert (time_ok (created_at s (e_id e))) as Ht.
    { rewrite Forall_forall in Hok. apply Hok. apply list_elem_of_filter in He as [_ He]. exact He. }
    pose proof (month_window (fst x) (snd x) _ Hm Ht) as W. unfold month_start, month_of in *.
    destruct (in_window _ _ _).
    + destruct (proj1 W eq_refl) as [E1 E2]. rewrite E1, E2, <- surjective_pairing.
      rewrite bool_decide_eq_false_2, bool_decide_eq_true_2 by (done || by left). lia.
    + destruct (decide ((Year (created_at s (e_id e)), Month (created_at s (e_id e))) = x)) as [E|E].
      { subst x. cbn in W. destruct W as [_ W]. discriminate W. done. }
      replace (bool_decide (_ ∈ x :: ms)) with (bool_decide ((Year (created_at s (e_id e)), Month (created_at s (e_id e))) ∈ ms)).
      { by rewrite Z.add_0_l. }
      apply bool_decide_ext. rewrite elem_of_cons. naive_solver.
Qed.

(** ** What an invoice says *)

Lemma sum_bigint_inr l s r : sum_bigint l s = inr r <-> in_i64 (sumZ l) /\ r = (sumZ l, s).
Proof.
  unfold sum_bigint. rewrite bind_inr. split.
  - intros (? & ? & [H [= -> ->]]%guard_inr & [= <-]). by apply bool_decide_eq_true in H.
  - intros [H ->]. exists tt, s. rewrite guard_inr, bool_decide_eq_true. done.
Qed.

Definition line_of (l : list Entry) (t : LedgerType) : list Line :=
  match of_type t l with [] => [] | g => [mkLine t (sumZ (map amount g)) (zlen g)] end.
Definition lines_of (ts : list LedgerType) (l : list Entry) : list Line := concat (map (line_of l) ts).

Lemma type_lines_inr ts l s ls s' : type_lines ts l s = inr (ls, s') -> s' = s /\ ls = lines_of ts l.
Proof.
  revert ls. induction ts as [|t ts IH]; cbn [type_lines]; intros ls H; [by tx_inv H|].
  unfold lines_of. cbn. unfold line_of at 1. destruct (of_type t l) as [|e g]; [by apply IH|].
  apply bind_inr in H as (a & s1 & [_ [= -> ->]]%sum_bigint_inr & H). apply bind_inr in H as (rest & s2 & H & [= <- <-]).
  by destruct (IH _ H) as [-> ->].
Qed.

Lemma ledger_types_all t : t ∈ ledger_types.
Proof. apply list_elem_of_In. destruct t; cbn; tauto. Qed.
Lemma ledger_types_nodup : NoDup ledger_types.
Proof. apply (bool_decide_unpack _). vm_compute. exact I. Qed.

Lemma sumZ_zero {A} (f : A -> Z) l : (forall x, f x = 0) -> sumZ (map f l) = 0.
Proof. intros H. induction l as [|x l IH]; cbn; [done|]. rewrite H. lia. Qed.

Lemma line_sum (f : Line -> Z) (h : Entry -> Z) l :
  (forall t, sumZ (map f (line_of l t)) = sumZ (map h (of_type t l))) ->
  sumZ (map f (lines_of ledger_types l)) = sumZ (map h l).
Proof.
  intros Hf. assert (forall ts, NoDup ts ->
    sumZ (map f (concat (map (line_of l) ts))) = sumZ (map (fun e => if bool_decide (type e ∈ ts) then h e else 0) l)) as G.
  { induction 1 as [|t ts Ht Hts IH]; cbn.
    - symmetry. apply sumZ_zero. intros e. by rewrite bool_decide_eq_false_2 by apply not_elem_of_nil.
    - rewrite map_app, sumZ_app, IH, Hf. clear -Ht. unfold of_type.
      induction l as [|e l IH]; [done|]. rewrite filter_cons. cbn [map sumZ].
      case_decide as E; cbn [map sumZ].
      + rewrite E, (bool_decide_eq_false_2 (t ∈ ts)), (bool_decide_eq_true_2 (t ∈ t :: ts)) by (done || by left). lia.
      + rewrite (bool_decide_ext (type e ∈ t :: ts) (type e ∈ ts)) by (rewrite elem_of_cons; naive_solver). lia. }
  unfold lines_of. rewrite (G _ ledger_types_nodup). apply sumZ_ext. intros e _.
  by rewrite bool_decide_eq_true_2 by apply ledger_types_all.
Qed.

(** A type has one line at most. *)
Lemma lines_of_nodup ts l : NoDup ts -> NoDup (map LedgerType_ (lines_of ts l)).
Proof.
  assert (forall t' ts', t' ∈ map LedgerType_ (lines_of ts' l) -> t' ∈ ts') as Hin.
  { intros t'. induction ts' as [|t0 ts' IH]; [done|]. unfold lines_of. cbn. rewrite map_app, elem_of_app.
    unfold line_of at 1. intros [H|H]; [|right; by apply IH].
    destruct (of_type t0 l); cbn in H; [by apply not_elem_of_nil in H|]. apply list_elem_of_singleton in H as ->. by left. }
  induction 1 as [|t ts Ht Hts IH]; [constructor|]. unfold lines_of. cbn. unfold line_of at 1.
  destruct (of_type t l); [exact IH|]. cbn. constructor; [|exact IH]. intros H. by apply Ht, Hin.
Qed.

(** The lines account for every entry of the window. *)
Lemma lines_complete l :
  sumZ (map AmountMicro (lines_of ledger_types l)) = sumZ (map amount l) /\
  sumZ (map EntryCount (lines_of ledger_types l)) = zlen l.
Proof.
  split.
  - apply line_sum. intros t. unfold line_of. destruct (of_type t l); cbn; lia.
  - rewrite (line_sum _ (fun _ => 1)).
    + induction l; cbn; [done|]. unfold zlen in *. cbn [length]. lia.
    + intros t. unfold line_of. destruct (of_type t l) as [|e g]; [done|]. cbn. unfold zlen. cbn [length].
      assert (sumZ (map (fun _ : Entry => 1) g) = Z.of_nat (length g)) as -> by (induction g; cbn [map sumZ length]; lia). lia.
Qed.

Definition invoice_of (k : UUID) (m : Time) (s : BDB) : Row :=
  let spend := sumZ (map spend_of (window k m (add_months m 1) s)) in
  let p := resolveTaxProfile k s in
  mkRow k m spend (fst (Compute_tax spend p)) (spend +64 fst (Compute_tax spend p)) (currency s k) (Scheme p)
    (snd (Compute_tax spend p)) (sumZ (map amount (of_customer k s))) FINALIZED.
Definition lines_in (k : UUID) (m : Time) (s : BDB) : list Line := lines_of ledger_types (window k m (add_months m 1) s).

Definition with_invoice (id : UUID) (r : Row) (ls : list Line) (s : BDB) : BDB :=
  mkBDB (base s) (created_at s) (currency s) (profiles s) (<[id := r]> (invoices s)) (lines s ++ map (pair id) ls)
    (collation s).

Lemma month_id t : validateBillingMonth t = true -> truncateMonthUTC t = t.
Proof.
  destruct t. unfold validateBillingMonth, truncateMonthUTC, first_of. cbn.
  rewrite !andb_true_iff, !Z.eqb_eq. by intros ((((-> & ->) & ->) & ->) & ->).
Qed.

Lemma ledger_total_inr k s r :
  SumCustomerLedgerTotal k s = inr r -> r = (sumZ (map amount (of_customer k s)), s).
Proof. intros H. unfold SumCustomerLedgerTotal in H. apply bind_inr in H as (? & ? & [= <- <-] & [_ ->]%sum_bigint_inr). done. Qed.
Lemma spend_inr k a b s r : SumCustomerSpendInWindow k a b s = inr r -> r = (sumZ (map spend_of (window k a b s)), s).
Proof. intros H. unfold SumCustomerSpendInWindow in H. apply bind_inr in H as (? & ? & [= <- <-] & [_ ->]%sum_bigint_inr). done. Qed.
Lemma by_type_inr k a b s r :
  SumCustomerLedgerByTypeInWindow k a b s = inr r -> r = (lines_of ledger_types (window k a b s), s).
Proof.
  intros H. unfold SumCustomerLedgerByTypeInWindow in H. apply bind_inr in H as (? & ? & [= <- <-] & H).
  destruct r as [ls s']. by apply type_lines_inr in H as [-> ->].
Qed.

Lemma generate_write_inr id k bm s x ls s' :
  generate_write id k bm s = inr ((x, ls), s') ->
  let m := truncateMonthUTC bm in
  GetInvoiceByCustomerMonth k m s = None ->
  x = (id, invoice_of k m s) /\ SubtotalMicro (invoice_of k m s) <> 0 /\
  s' = with_invoice id (invoice_of k m s) (lines_in k m s) s /\ ls = ListInvoiceLines id s' /\
  (exists c, customers (base s) !! k = Some c /\ drift_ok (balance c) (LedgerSumMicro (invoice_of k m s)) = true).
Proof.
  cbv zeta. intros H Hn. unfold generate_write in H. cbv zeta in H. set (m := truncateMonthUTC bm) in *.
  apply bind_inr in H as (? & ? & [= <- <-] & H).
  apply bind_inr in H as (c & ? & (c' & Hc & [= -> ->])%lift_inr & H).
  apply bind_inr in H as (total & ? & [= -> ->]%ledger_total_inr & H).
  apply bind_inr in H as (? & ? & [Hd [= -> ->]]%guard_inr & H).
  apply bind_inr in H as (spend & ? & [= -> ->]%spend_inr & H).
  apply bind_inr in H as (ls' & ? & [= -> ->]%by_type_inr & H).
  rewrite (surjective_pairing (Compute_tax _ _)) in H. apply bind_inr in H as (? & ? & [Hs [= -> ->]]%guard_inr & H).
  unfold CreateInvoice in H. cbn [i_customer i_month] in H. fold m in H.
  apply bind_inr in H as (ins & s1 & H1 & H). apply bind_inr in H1 as (? & ? & [= <- <-] & H1).
  rewrite Hn in H1. apply bind_inr in H1 as (? & ? & [= <- <-] & [= <- <-]).
  apply bind_inr in H as (? & s2 & [= <- <-] & [= <- <- <-]).
  apply negb_true_iff, Z.eqb_neq in Hs. split_and!; [done|exact Hs|done|done|].
  eexists. split; [exact Hc|exact Hd].
Qed.

Lemma generate_check_inr k bm s o s' :
  generate_check k bm s = inr (o, s') ->
  s' = s /\ validateBillingMonth bm = true /\ CheckLedgerBalanceInvariant k (base s) = true /\
  o = GetInvoiceByCustomerMonth k bm s.
Proof.
  intros H. unfold generate_check, check_ledger in H. tx_inv H. by rewrite month_id.
Qed.

Lemma lines_with_invoice id r ls s :
  ListInvoiceLines id (with_invoice id r ls s) ≡ₚ ListInvoiceLines id s ++ ls.
Proof.
  unfold ListInvoiceLines, with_invoice. cbn [lines collation]. rewrite !merge_sort_Permutation.
  rewrite List.filter_app, map_app. apply Permutation_app_head.
  induction ls as [|l ls IH]; [done|]. cbn. rewrite bool_decide_eq_true_2 by done. cbn. by rewrite IH.
Qed.

(** An invoice says what the ledger holds.  A new invoice has the spend of
    the month, the tax of the profile on it, their sum, a line for each type
    of entry and the sum of the ledger; an invoice that exists is returned as
    it is and nothing changes. *)
Theorem invoice_exact id k bm s x ls s' :
  GenerateInvoice id k bm s = inr ((x, ls), s') ->
  match GetInvoiceByCustomerMonth k bm s with
  | Some y => x = y /\ ls = ListInvoiceLines (fst x) s /\ s' = s
  | None =>
      x = (id, invoice_of k bm s) /\ SubtotalMicro (snd x) <> 0 /\
      s' = with_invoice id (invoice_of k bm s) (lines_in k bm s) s /\
      ls = ListInvoiceLines id s' /\ ls ≡ₚ ListInvoiceLines id s ++ lines_in k bm s
  end.
Proof.
  intros H. unfold GenerateInvoice in H. apply bind_inr in H as (o & s1 & H1 & H).
  apply generate_check_inr in H1 as (-> & Hv & _ & ->).
  destruct (GetInvoiceByCustomerMonth k bm s) as [y|] eqn:E.
  - apply bind_inr in H as (? & ? & [= <- <-] & [= <- <- <-]). done.
  - apply generate_write_inr in H; [|by rewrite month_id]. rewrite month_id in H by done.
    destruct H as (-> & Hs & -> & -> & _). split_and!; [done|done|done|done|apply lines_with_invoice].
Qed.

(** Half up. *)
Lemma tax_rounds spend p :
  0 < spend -> 0 < tax_rate p -> Scheme p <> TaxSchemeNone -> spend * tax_rate p + 5000 <= max_i64 ->
  snd (Compute_tax spend p) = tax_rate p /\
  Z.abs (10000 * fst (Compute_tax spend p) - spend * tax_rate p) <= 5000.
Proof.
  intros Hs Hr Hn Hm. assert (0 <= spend * tax_rate p) by nia. unfold Compute_tax.
  rewrite (proj2 (Z.leb_gt spend 0)), (proj2 (Z.leb_gt (tax_rate p) 0)) by lia.
  destruct (Scheme p); [done| |]; cbn [orb fst snd]; (split; [done|]);
    rewrite (i64_id (spend * tax_rate p)) by go_lia; rewrite i64_id by go_lia;
    rewrite Z.quot_div_nonneg by lia; pose proof (Z.div_mod (spend * tax_rate p + 5000) 10000);
    pose proof (Z.mod_pos_bound (spend * tax_rate p + 5000) 10000); lia.
Qed.

(** C27: the preview is the invoice.  When a month has no invoice yet, the one
    that is generated from the same ledger has the preview's figures and the
    preview's lines, every line once.  The two lists differ in their order
    only: the preview has the order of the enum, the invoice the order in
    which the collation of the database puts the names of the types. *)
Theorem preview_agrees id k bm s p s1 x ls s' :
  PreviewInvoice k bm s = inr (p, s1) -> GenerateInvoice id k bm s = inr ((x, ls), s') ->
  GetInvoiceByCustomerMonth k bm s = None -> ListInvoiceLines id s = [] ->
  s1 = s /\ WouldSkip p = false /\
  snd x = mkRow k (p_month p) (p_subtotal p) (p_tax p) (p_total p) (p_currency p) (p_scheme p) (p_rate p)
                (p_ledger_sum p) FINALIZED /\
  ls ≡ₚ p_lines p /\ NoDup (map LedgerType_ ls) /\
  ((forall a b, collation s a b = true \/ collation s b a = true) -> Sorted (by_text s) ls).
Proof.
  intros Hp Hg Hn Hl. apply invoice_exact in Hg. rewrite Hn in Hg. destruct Hg as (-> & Hs & -> & Els & Hls).
  rewrite Hl in Hls. cbn [app fst snd] in *. unfold PreviewInvoice, check_ledger in Hp. cbv zeta in Hp.
  apply bind_inr in Hp as (? & ? & [Hv [= -> ->]]%guard_inr & Hp). rewrite month_id in Hp by done.
  apply bind_inr in Hp as (? & s2 & H2 & Hp). tx_inv H2. apply bind_inr in Hp as (? & ? & [= <- <-] & Hp).
  apply bind_inr in Hp as (? & ? & (c & _ & [= -> ->])%lift_inr & Hp).
  apply bind_inr in Hp as (? & ? & [= -> ->]%ledger_total_inr & Hp).
  apply bind_inr in Hp as (? & ? & [= -> ->]%spend_inr & Hp).
  apply bind_inr in Hp as (? & ? & [= -> ->]%by_type_inr & Hp).
  rewrite (surjective_pairing (Compute_tax _ _)) in Hp. injection Hp as <- <-.
  split_and!; try done.
  - cbn. by apply Z.eqb_neq.
  - rewrite Hls. apply lines_of_nodup, ledger_types_nodup.
  - intros Ht. unfold ListInvoiceLines. apply Sorted_merge_sort. intros a b. apply Ht.
Qed.

(** ** One invoice a month *)

(** The write of a request may come long after its check; in between others
    write invoices, void them, and the ledger and profiles change. *)
Inductive istep (s : BDB) : BDB -> Prop :=
  | is_write id k bm x s' :
      invoices s !! id = None -> generate_write id k bm s = inr (x, s') -> istep s s'
  | is_void id u s' : VoidInvoice id s = inr (u, s') -> istep s s'
  | is_other d t c p : istep s (mkBDB d t c p (invoices s) (lines s) (collation s)).

Definition set_status (st : InvoiceStatus) (r : Row) : Row :=
  mkRow (i_customer r) (i_month r) (SubtotalMicro r) (TaxMicro r) (TotalMicro r) (Currency r) (i_scheme r)
        (TaxRateBps r) (LedgerSumMicro r) st.

Definition one_per_month (s : BDB) : Prop :=
  forall id id' r r', invoices s !! id = Some r -> invoices s !! id' = Some r' ->
  i_customer r = i_customer r' -> i_month r = i_month r' -> id = id'.

Definition kept (s s' : BDB) : Prop :=
  forall id r, invoices s !! id = Some r ->
  exists st, invoices s' !! id = Some (set_status st r) /\ (i_status r = VOID -> st = VOID).

Lemma find_month_none k m s :
  GetInvoiceByCustomerMonth k m s = None <->
  forall id r, invoices s !! id = Some r -> ~ (i_customer r = k /\ i_month r = m).
Proof.
  unfold GetInvoiceByCustomerMonth. split.
  - intros H id r Hr [E1 E2]. pose proof (find_none _ _ H (id, r)) as Hx.
    rewrite <- list_elem_of_In in Hx. specialize (Hx (proj2 (elem_of_map_to_list _ _ _) Hr)).
    unfold of_month in Hx. cbn in Hx. rewrite !bool_decide_eq_true_2 in Hx by done. done.
  - intros H. destruct (List.find _ _) as [[id r]|] eqn:E; [|done]. apply find_some in E as [E1 E2].
    apply list_elem_of_In, elem_of_map_to_list in E1. unfold of_month in E2. cbn in E2.
    apply andb_true_iff in E2 as [?%bool_decide_eq_true ?%bool_decide_eq_true]. by destruct (H _ _ E1).
Qed.

Lemma find_month_some k m s id r :
  GetInvoiceByCustomerMonth k m s = Some (id, r) -> invoices s !! id = Some r /\ i_customer r = k /\ i_month r = m.
Proof.
  intros [E1 E2]%find_some. apply list_elem_of_In, elem_of_map_to_list in E1. unfold of_month in E2. cbn in E2.
  by apply andb_true_iff in E2 as [?%bool_decide_eq_true ?%bool_decide_eq_true].
Qed.

Lemma set_status_id r : set_status (i_status r) r = r.
Proof. by destruct r. Qed.

Lemma kept_refl s : kept s s.
Proof. intros id r H. exists (i_status r). by rewrite set_status_id. Qed.

Lemma kept_trans s1 s2 s3 : kept s1 s2 -> kept s2 s3 -> kept s1 s3.
Proof.
  intros K1 K2 id r H. destruct (K1 _ _ H) as (st & H2 & V2). destruct (K2 _ _ H2) as (st' & H3 & V3).
  exists st'. split; [exact H3|]. intros V. apply V3. cbn. auto.
Qed.

Lemma write_existing id k bm s x s' :
  generate_write id k bm s = inr (x, s') -> GetInvoiceByCustomerMonth k (truncateMonthUTC bm) s <> None -> s' = s.
Proof.
  intros H Hn. unfold generate_write in H. cbv zeta in H. set (m := truncateMonthUTC bm) in *.
  apply bind_inr in H as (? & ? & [= <- <-] & H).
  apply bind_inr in H as (c & ? & (c' & Hc & [= -> ->])%lift_inr & H).
  apply bind_inr in H as (total & ? & [= -> ->]%ledger_total_inr & H).
  apply bind_inr in H as (? & ? & [Hd [= -> ->]]%guard_inr & H).
  apply bind_inr in H as (spend & ? & [= -> ->]%spend_inr & H).
  apply bind_inr in H as (ls' & ? & [= -> ->]%by_type_inr & H).
  rewrite (surjective_pairing (Compute_tax _ _)) in H. apply bind_inr in H as (? & ? & [Hs [= -> ->]]%guard_inr & H).
  unfold CreateInvoice in H. cbn [i_customer i_month] in H. fold m in H.
  apply bind_inr in H as (ins & s1 & H1 & H). apply bind_inr in H1 as (? & ? & [= <- <-] & H1).
  destruct (GetInvoiceByCustomerMonth k m s) as [y|] eqn:E; [|done]. injection H1 as <- <-.
  apply bind_inr in H as (? & ? & [= <- <-] & H). apply bind_inr in H as (? & ? & (? & _ & [= -> ->])%lift_inr & H).
  unfold invoiceFromDB in H. by tx_inv H.
Qed.

Lemma istep_kept s s' : istep s s' -> one_per_month s -> one_per_month s' /\ kept s s'.
Proof.
  intros H Hu. destruct H as [id k bm x s' Hid H|id u s' H|d t c p].
  - destruct (GetInvoiceByCustomerMonth k (truncateMonthUTC bm) s) as [y|] eqn:E.
    { apply write_existing in H; [subst; split; [done|apply kept_refl]|congruence]. }
    destruct x as [x ls]. destruct (generate_write_inr _ _ _ _ _ _ _ H E) as (_ & _ & -> & _).
    rewrite find_month_none in E. split.
    + unfold one_per_month, with_invoice. cbn [invoices].
      intros a b r r' [[<- <-]|[Ha Hr]]%lookup_insert_Some [[<- <-]|[Hb Hr']]%lookup_insert_Some E1 E2; [done|..].
      * by destruct (E _ _ Hr').
      * by destruct (E _ _ Hr).
      * by eapply Hu.
    + intros a r Hr. exists (i_status r). rewrite set_status_id. split; [|done]. cbn.
      rewrite lookup_insert_ne; [done|congruence].
  - unfold VoidInvoice in H. apply bind_inr in H as (? & ? & [= <- <-] & H).
    apply bind_inr in H as (r0 & ? & (r & Hr & [= -> ->])%lift_inr & H).
    destruct (i_status r) eqn:Est; [|by injection H as _ <-; split; [done|apply kept_refl]].
    injection H as _ <-. change (mkRow _ _ _ _ _ _ _ _ _ VOID) with (set_status VOID r). split.
    + unfold one_per_month. cbn [invoices]. intros a b r1 r2 H1 H2 E1 E2.
      assert (exists r1', invoices s !! a = Some r1' /\ i_customer r1' = i_customer r1 /\ i_month r1' = i_month r1) as (r1' & ? & ? & ?).
      { apply lookup_insert_Some in H1 as [[<- <-]|[_ H1]]; eauto. }
      assert (exists r2', invoices s !! b = Some r2' /\ i_customer r2' = i_customer r2 /\ i_month r2' = i_month r2) as (r2' & ? & ? & ?).
      { apply lookup_insert_Some in H2 as [[<- <-]|[_ H2]]; eauto. }
      eapply Hu; eauto; congruence.
    + intros a r1 H1. cbn. destruct (decide (id = a)) as [<-|Hn].
      * assert (r1 = r) as -> by congruence. exists VOID. by rewrite lookup_insert_eq.
      * exists (i_status r1). rewrite set_status_id, lookup_insert_ne by done. done.
  - split; [exact Hu|exact (kept_refl s)].
Qed.

Lemma isteps_month s s' : one_per_month s -> rtc istep s s' -> one_per_month s'.
Proof. intros Hu H. induction H as [|s1 s2 s3 H _ IH]; [done|]. by apply IH, (istep_kept _ _ H Hu). Qed.

Lemma isteps_final s s' : one_per_month s -> rtc istep s s' -> kept s s'.
Proof.
  intros Hu H. induction H as [|s1 s2 s3 H _ IH]; [apply kept_refl|].
  destruct (istep_kept _ _ H Hu) as [Hu2 K]. by eapply kept_trans, IH.
Qed.

(** C25: a month has one invoice, and it is final.  However generations, voids
    and changes of ledger and tax profile interleave, a customer has at most
    one invoice for a month and its figures never change; only its status
    may, to VOID and never back. *)
Theorem invoices_final s s' :
  one_per_month s -> rtc istep s s' -> one_per_month s' /\ kept s s'.
Proof. intros Hu H. split; [by eapply isteps_month|by eapply isteps_final]. Qed.

(** A voided month is never billed again: the request for it is answered with
    the voided invoice. *)
Theorem voided_month_stays id k bm s u s1 s2 id' x ls s3 r :
  one_per_month s -> invoices s !! id = Some r -> i_customer r = k -> i_month r = bm ->
  VoidInvoice id s = inr (u, s1) -> rtc istep s1 s2 -> GenerateInvoice id' k bm s2 = inr ((x, ls), s3) ->
  fst x = id /\ i_status (snd x) = VOID /\ s3 = s2.
Proof.
  intros Hu Hr Hk Hm Hv Hs Hg. destruct (istep_kept _ _ (is_void _ _ _ _ Hv) Hu) as [Hu1 K1].
  assert (exists r1, invoices s1 !! id = Some r1 /\ i_status r1 = VOID /\ i_customer r1 = k /\ i_month r1 = bm) as (r1 & H1 & V1 & C1 & M1).
  { unfold VoidInvoice in Hv. apply bind_inr in Hv as (? & ? & [= <- <-] & H).
    apply bind_inr in H as (? & ? & (r' & Hr' & [= -> ->])%lift_inr & H). assert (r' = r) as -> by congruence.
    destruct (i_status r) eqn:E; injection H as _ <-; [|by eauto 10].
    eexists. cbn. by rewrite lookup_insert_eq. }
  pose proof (isteps_month _ _ Hu1 Hs) as Hu2. destruct (isteps_final _ _ Hu1 Hs _ _ H1) as (st & H2 & V2). rewrite (V2 V1) in H2.
  apply invoice_exact in Hg. destruct (GetInvoiceByCustomerMonth k bm s2) as [[a ra]|] eqn:E.
  - destruct Hg as (-> & _ & ->). apply find_month_some in E as (Ha & Ca & Ma).
    assert (a = id) as -> by (eapply Hu2; [exact Ha|exact H2|cbn; congruence|cbn; congruence]).
    rewrite Ha in H2. injection H2 as ->. done.
  - rewrite find_month_none in E. destruct (E _ _ H2). cbn. by rewrite C1, M1.
Qed.

(** ** Margin legs *)

Definition margin_of (k : UUID) (s : BDB) : Z :=
  sumZ (map (fun e => if margin_leg (type e) then amount e else 0) (of_customer k s)).

Lemma total_splits k s : sumZ (map amount (of_customer k s)) = ledger_sum k (base s) + margin_of k s.
Proof.
  unfold ledger_sum, margin_of, of_customer. induction (balance_ledger (base s)) as [|e l IH]; [done|].
  rewrite filter_cons. cbn [map sumZ]. unfold counted at 1. fold (margin_leg (type e)).
  case_decide as E; cbn [map sumZ].
  - rewrite bool_decide_eq_true_2 by done. destruct (margin_leg (type e)); cbn; lia.
  - rewrite bool_decide_eq_false_2 by done. cbn. lia.
Qed.

(** Margin legs block invoices.  The check before the transaction leaves
    the margin legs out of the ledger's sum, the one inside counts them: a
    customer with real margin legs passes the first and fails the second, so
    no invoice can be generated for any month. *)
Theorem margin_legs_block_invoices id k bm s :
  CheckLedgerBalanceInvariant k (base s) = true -> 3 <= margin_of k s <= 4611686018427387904 ->
  GetInvoiceByCustomerMonth k bm s = None -> forall r, GenerateInvoice id k bm s <> inr r.
Proof.
  intros Hc Hm Hn [[x ls] s'] H. unfold GenerateInvoice in H. apply bind_inr in H as (o & s1 & H1 & H).
  apply generate_check_inr in H1 as (-> & Hv & _ & ->). rewrite Hn in H.
  apply generate_write_inr in H; [|by rewrite month_id]. rewrite month_id in H by done.
  destruct H as (_ & _ & _ & _ & c & Hk & Hd). cbn [invoice_of LedgerSumMicro] in Hd. rewrite total_splits in Hd.
  unfold CheckLedgerBalanceInvariant, ReadLedgerInvariant in Hc. rewrite Hk in Hc. cbn -[ledger_sum] in Hc.
  unfold drift_ok, ledgerInvariantToleranceMicro in *. apply negb_true_iff, orb_false_iff in Hc, Hd.
  rewrite !Z.ltb_ge in Hc, Hd. set (sm := ledger_sum k (base s)) in *. set (mg := margin_of k s) in *.
  assert ((balance c) -64 (sm + mg) = (balance c -64 sm) - mg) as E; [|lia].
  replace (balance c - (sm + mg)) with (balance c - sm - mg) by lia.
  rewrite <- Z.add_opp_r, <- i64_i64_add. apply i64_id. go_lia.
Qed.

(** ** The run reaches everyone *)

Lemma run_from fuel ids offset month draw st :
  0 <= offset -> zlen ids - offset < Z.of_nat fuel * pageSize ->
  runMonth fuel ids offset month draw st = fold_left (run_customer month draw) (drop (Z.to_nat offset) ids) st.
Proof.
  revert offset st. induction fuel as [|fuel IH]; intros offset st Ho Hf; cbn [runMonth].
  { rewrite drop_ge; [done|]. unfold zlen in Hf. lia. }
  unfold ListCustomerIDs. set (rest := drop (Z.to_nat offset) ids). change (Z.to_nat pageSize) with 200%nat.
  case_bool_decide as Hp.
  { destruct rest; [done|discriminate]. }
  replace (fold_left (run_customer month draw) rest st) with
    (fold_left (run_customer month draw) (take 200 rest ++ drop 200 rest) st) by (by rewrite take_drop).
  rewrite fold_left_app.
  destruct (zlen (take 200 rest) <? pageSize) eqn:E.
  - apply Z.ltb_lt in E. unfold zlen, pageSize in E. rewrite length_take in E. rewrite (drop_ge rest 200) by lia. done.
  - unfold pageSize in *. rewrite IH by lia. f_equal. unfold rest. rewrite drop_drop. f_equal. lia.
Qed.

(** The monthly run tries every customer once, page after page, whatever
    fails on the way, and ends. *)
Theorem run_reaches_everyone ids month draw st fuel :
  zlen ids < Z.of_nat fuel * pageSize ->
  runMonth fuel ids 0 month draw st = fold_left (run_customer month draw) ids st.
Proof. intros H. by rewrite run_from by lia. Qed.

(** ** Instances *)

Definition january : Time := first_of 2026 1.
Definition demo (legs : list Entry) : BDB :=
  mkBDB (mkDB {["acme" := mkCustomer 70 0]} ∅
           ([mkEntry 1 "acme" None 100 TOPUP (Some "t") None; mkEntry 2 "acme" None (-30) FEE None None] ++ legs) [] [])
    (fun i => mkTime 2026 (if i =? 3 then 2 else 1) 9 0 0 0 0) (fun _ => "USD") ∅ ∅ [] String.leb.
Definition billed : BDB := snd (BeginFunc (GenerateInvoice "i1" "acme" january) (demo [])).

Lemma months_partition_spend_witness :
  sumZ (map (month_spend "acme" (demo [])) [(2026, 1); (2026, 2)]) = 30.
Proof.
  rewrite (months_partition_spend "acme" (demo []) [(2026, 1); (2026, 2)]).
  - vm_compute. reflexivity.
  - apply (bool_decide_unpack _). vm_compute. exact I.
  - repeat constructor; vm_compute; intros H; discriminate H.
  - repeat constructor; vm_compute; intros H; discriminate H.
Defined.

Lemma invoice_exact_witness :
  exists r ls, GenerateInvoice "i1" "acme" january (demo []) = inr (("i1", r, ls), billed) /\
  r = invoice_of "acme" january (demo []) /\ SubtotalMicro r = 30 /\ TaxMicro r = 2 /\ TotalMicro r = 32.
Proof.
  eexists _, _. split; [vm_compute; reflexivity|].
  split; [|vm_compute; done].
  destruct (invoice_exact "i1" "acme" january (demo []) _ _ billed ltac:(vm_compute; reflexivity)) as (E & _).
  exact (f_equal snd E).
Defined.

Lemma preview_agrees_witness :
  exists p ls, PreviewInvoice "acme" january (demo []) = inr (p, demo []) /\ p_total p = 32 /\ ls ≡ₚ p_lines p /\
  map LedgerType_ (p_lines p) = [TOPUP; FEE] /\ map LedgerType_ ls = [FEE; TOPUP].
Proof.
  eexists _, _. split; [vm_compute; reflexivity|]. split; [vm_compute; reflexivity|].
  destruct (preview_agrees "i1" "acme" january (demo []) _ (demo []) _ _ billed
              ltac:(vm_compute; reflexivity) ltac:(vm_compute; reflexivity) eq_refl eq_refl) as (_ & _ & _ & E & _).
  split; [exact E|vm_compute; done].
Defined.

(** The preview does not list its lines in the order of the invoice. *)
Lemma preview_order_differs :
  exists p x ls s', PreviewInvoice "acme" january (demo []) = inr (p, demo []) /\
  GenerateInvoice "i1" "acme" january (demo []) = inr ((x, ls), s') /\ ls <> p_lines p.
Proof.
  eexists _, _, _, _. split; [vm_compute; reflexivity|]. split; [vm_compute; reflexivity|].
  intros H. vm_compute in H. discriminate H.
Qed.

Lemma invoices_final_witness : one_per_month billed /\ kept (demo []) billed.
Proof.
  refine (invoices_final (demo []) billed _ (rtc_once _ _ _)).
  - intros id id' r r' H. vm_compute in H. discriminate H.
  - eapply (is_write (demo []) "i1" "acme" january _ billed eq_refl). vm_compute. reflexivity.
Defined.

Definition demo_margin : BDB := demo [mkEntry 3 "acme" None 5 operator_margin None None].
Lemma margin_legs_block_invoices_witness :
  match GenerateInvoice "i1" "acme" january demo_margin with inl _ => True | inr _ => False end.
Proof.
  assert (H : forall r, GenerateInvoice "i1" "acme" january demo_margin <> inr r).
  { apply (margin_legs_block_invoices "i1" "acme" january demo_margin).
    - vm_compute. reflexivity.
    - vm_compute. split; intros H; discriminate H.
    - vm_compute. reflexivity. }
  destruct (GenerateInvoice "i1" "acme" january demo_margin) as [e|r]; [exact I|exact (H r eq_refl)].
Defined.

Lemma run_reaches_everyone_witness :
  snd (runMonth 1 ["acme"; "nobody"] 0 january (fun _ => "i1") (demo [], [])) = ["i1"].
Proof.
  rewrite (run_reaches_everyone ["acme"; "nobody"] january (fun _ => "i1") (demo [], []) 1).
  - vm_compute. reflexivity.
  - vm_compute. reflexivity.
Defined.

End Invoice.
