(* ===== verification/FlowRouting.v ===== *)
(** * Flow routing

    Models [internal/filter/flow_routing.go], [rotation_seen.go],
    [offer_click_cap.go], [offer_cap.go], the routing and rotation modes of
    [internal/domain] and the click path of [internal/ingest/flow_click.go]:
    which lander and offer a click is sent to, and the click caps in Redis.
    An id is a string, the empty one [uuid.Nil]; the paths of a flow are what
    its JSON decodes to.  The process has its Redis client; what Redis does
    during a call is an input. *)

From stdpp Require Import gmap.
From S2P Require Import Prelude Text.
From Stdlib Require Import Ascii.
Open Scope string_scope.
Open Scope Z_scope.

Module FlowRouting.

Import Text.

#[local] Abbreviation UUID := string (only parsing).
Definition Nil : UUID := "".

(** The click counters: by offer, and day or total ([None]). *)
#[local] Abbreviation Counters := (gmap (UUID * option string) Z).

(** ** Modes *)

Inductive FlowRoutingMode := FlowWeighted | FlowWaterfall | FlowWaterfallThenLanding.
Definition NormalizeFlowRoutingMode (raw : string) : FlowRoutingMode :=
  let s := TrimSpace (ToLower raw) in
  if bool_decide (s = "waterfall") then FlowWaterfall
  else if bool_decide (s = "waterfall_then_landing") then FlowWaterfallThenLanding else FlowWeighted.

Inductive RotationMode := RotationWeighted | RotationUnseen | RotationFixOn | RotationSequential.
Definition NormalizeRotationMode (raw : string) : RotationMode :=
  let s := TrimSpace (ToLower raw) in
  if bool_decide (s = "unseen") then RotationUnseen
  else if bool_decide (s ∈ ["fix_on"; "fix-on"; "fixon"]) then RotationFixOn
  else if bool_decide (s ∈ ["sequential"; "top_to_bottom"; "top-to-bottom"]) then RotationSequential
  else RotationWeighted.

(** ** Filters of a path *)

Definition flowDeviceDesktop : Z := 1.
Definition flowDeviceMobile : Z := 2.
Definition flowDeviceTablet : Z := 4.
Definition flowOSAndroid : Z := 8.
Definition flowOSIOS : Z := 16.
Definition flowOSWindows : Z := 32.
Definition flowOSMacOS : Z := 64.
Definition flowOSLinux : Z := 128.

Record FlowPathFilters := mkFilters { Countries : list (Z * Z); Devices : Z; OSMask : Z; Languages : list (Z * Z) }.
Record FlowSelectContext := mkContext { Country : Z * Z; DeviceMask : Z; cOSMask : Z; Language : Z * Z }.
Record flowPathFiltersJSON := mkFiltersJSON {
  j_countries : list string; j_devices : list string; j_os : list string; j_languages : list string }.

Definition two_bytes (s : string) : option (Z * Z) :=
  match bytes s with [a; b] => Some (a, b) | _ => None end.

Definition device_of (s : string) : Z :=
  let s := ToLower (TrimSpace s) in
  if bool_decide (s = "desktop") then flowDeviceDesktop else if bool_decide (s = "mobile") then flowDeviceMobile
  else if bool_decide (s = "tablet") then flowDeviceTablet else 0.
Definition os_of (s : string) : Z :=
  let s := ToLower (TrimSpace s) in
  if bool_decide (s = "android") then flowOSAndroid else if bool_decide (s = "ios") then flowOSIOS
  else if bool_decide (s = "windows") then flowOSWindows else if bool_decide (s = "macos") then flowOSMacOS
  else if bool_decide (s = "linux") then flowOSLinux else 0.

Definition compileFlowPathFilters (raw : option flowPathFiltersJSON) : FlowPathFilters :=
  match raw with
  | None => mkFilters [] 0 0 []
  | Some r =>
      mkFilters (omap (fun c => two_bytes (ToUpper (TrimSpace c))) (j_countries r))
        (foldl (fun m d => Z.lor m (device_of d)) 0 (j_devices r))
        (foldl (fun m d => Z.lor m (os_of d)) 0 (j_os r))
        (omap (fun c => two_bytes (ToLower (TrimSpace c))) (j_languages r))
  end.

Definition flowPathFiltersMatch (f : FlowPathFilters) (c : FlowSelectContext) : bool :=
  (bool_decide (Countries f = []) || (negb (fst (Country c) =? 0) && bool_decide (Country c ∈ Countries f))) &&
  ((Devices f =? 0) || (negb (DeviceMask c =? 0) && negb (Z.land (Devices f) (DeviceMask c) =? 0))) &&
  ((OSMask f =? 0) || (negb (cOSMask c =? 0) && negb (Z.land (OSMask f) (cOSMask c) =? 0))) &&
  (bool_decide (Languages f = []) || (negb (fst (Language c) =? 0) && bool_decide (Language c ∈ Languages f))).

Definition flowCountryBytes (country : string) : Z * Z := default (0, 0) (two_bytes (ToUpper (TrimSpace country))).

Definition flowLanguageBytes (acceptLang : string) : Z * Z :=
  let s := TrimSpace acceptLang in
  let s := cut_before ";" (cut_before "-" (cut_before "," s)) in
  default (0, 0) (two_bytes (ToLower (TrimSpace s))).

Definition flowDeviceMaskFromUA (ua : string) : Z :=
  let u := ToLower ua in
  if bool_decide (u = "") then 0
  else if Contains u "ipad" || Contains u "tablet" then flowDeviceTablet
  else if Contains u "mobile" || Contains u "iphone" || Contains u "android" then flowDeviceMobile
  else flowDeviceDesktop.

Definition flowOSMaskFromUA (ua : string) : Z :=
  let u := ToLower ua in
  if bool_decide (u = "") then 0
  else if Contains u "android" then flowOSAndroid
  else if Contains u "iphone" || Contains u "ipad" || Contains u "ios" then flowOSIOS
  else if Contains u "windows" then flowOSWindows
  else if Contains u "mac os" || Contains u "macintosh" then flowOSMacOS
  else if Contains u "linux" then flowOSLinux else 0.

Definition flowSelectContextFromEvent (geo ua acceptLang : string) : FlowSelectContext :=
  mkContext (flowCountryBytes geo) (flowDeviceMaskFromUA ua) (flowOSMaskFromUA ua) (flowLanguageBytes acceptLang).

(** ** Snapshots *)

Record FlowLanderEntry := mkLander { LanderID : UUID; lWeight : Z; lURL : string }.
Record FlowOfferEntry := mkOffer {
  OfferID : UUID; oWeight : Z; Priority : Z; CapClicksDaily : Z; CapClicksTotal : Z; oURL : string; Capped : bool }.
Record FlowPath := mkPath {
  pWeight : Z; Rotation : RotationMode; Filters : FlowPathFilters; Landers : list FlowLanderEntry;
  Offers : list FlowOfferEntry }.
Record FlowPathSnapshot := mkSnapshot { RoutingMode : FlowRoutingMode; Paths : list FlowPath }.

Record Counts := mkCounts { daily : Z; total : Z }.

(** A count that was not found is zero. *)
Definition count_of (m : gmap UUID Counts) (id : UUID) : Counts := default (mkCounts 0 0) (m !! id).

Definition offerIsCapped (id : UUID) (capDaily capTotal : option Z) (counts : gmap UUID Counts) : bool :=
  let over cap n := match cap with Some k => (0 <? k) && (k <=? n) | None => false end in
  over capTotal (total (count_of counts id)) || over capDaily (daily (count_of counts id)).

Definition offerClickCapExceeded (c : Counts) (dailyCap totalCap : Z) : bool :=
  ((0 <? totalCap) && (totalCap <=? total c)) || ((0 <? dailyCap) && (dailyCap <=? daily c)).

Definition offerFullyCapped (id : UUID) (capDaily capTotal : option Z) (conv : gmap UUID Counts)
    (clicksDaily clicksTotal : Z) (clicks : gmap UUID Counts) : bool :=
  offerIsCapped id capDaily capTotal conv || offerClickCapExceeded (count_of clicks id) clicksDaily clicksTotal.

Record offerTableMeta := mkMeta { m_priority : Z; m_daily : Z; m_total : Z }.

Record LanderJSON := mkLanderJSON { jl_id : UUID; jl_weight : Z }.
Record OfferJSON := mkOfferJSON { jo_id : UUID; jo_weight : Z; jo_daily : option Z; jo_total : option Z }.
Record flowPathJSON := mkPathJSON {
  jp_weight : Z; jp_rotation : string; jp_filters : option flowPathFiltersJSON; jp_landers : list LanderJSON;
  jp_offers : list OfferJSON }.

Section build.
Context (landerURLs offerURLs : gmap UUID string) (conv clicks : gmap UUID Counts) (meta : gmap UUID offerTableMeta).

Definition url_of (m : gmap UUID string) (id : UUID) : string := default "" (m !! id).

Definition build_lander (l : LanderJSON) : option FlowLanderEntry :=
  let url := url_of landerURLs (jl_id l) in
  if (jl_weight l <=? 0) || bool_decide (url = "") then None else Some (mkLander (jl_id l) (jl_weight l) url).

Definition build_offer (o : OfferJSON) : option FlowOfferEntry :=
  if jo_weight o <=? 0 then None
  else
    let m := default (mkMeta 0 0 0) (meta !! jo_id o) in
    Some (mkOffer (jo_id o) (jo_weight o) (m_priority m) (m_daily m) (m_total m) (url_of offerURLs (jo_id o))
            (offerFullyCapped (jo_id o) (jo_daily o) (jo_total o) conv (m_daily m) (m_total m) clicks)).

Definition build_path (p : flowPathJSON) : option FlowPath :=
  if (jp_weight p <=? 0) || bool_decide (jp_landers p = []) then None
  else
    let landers := omap build_lander (jp_landers p) in
    let offers := omap build_offer (jp_offers p) in
    if bool_decide (landers = []) then None
    else Some (mkPath (jp_weight p) (NormalizeRotationMode (jp_rotation p)) (compileFlowPathFilters (jp_filters p)) landers
                 (match offers with [] => [mkOffer Nil 100 0 0 0 "" false] | _ => offers end)).

(** [raw] is [None] when the JSON does not decode. *)
Definition buildFlowSnapshot (raw : option (list flowPathJSON)) (routingMode : string) : option FlowPathSnapshot :=
  paths ← raw;
  match omap build_path paths with
  | [] => None
  | out => Some (mkSnapshot (NormalizeFlowRoutingMode routingMode) out)
  end.

End build.

(** ** Hashes *)

Definition fnv_offset32 : Z := 2166136261.
Definition fnv_prime32 : Z := 16777619.
Definition fnv_step (h c : Z) : Z := Z.lxor h c *u32 fnv_prime32.
Definition fnv1a32 (b : list Z) : Z := foldl fnv_step fnv_offset32 b.
Definition fnv1a32Salted (b : list Z) (salt : Z) : Z := fnv_step (fnv1a32 b) salt.

(** ** Weighted choice

    Sums of weights are 32 bits wide. *)
Definition sum32 (ws : list Z) : Z := foldl (fun a w => i32 (a + w)) 0 ws.

(** The first element at which the running sum passes [target]. *)
Fixpoint walk {A} (ok : A -> bool) (w : A -> Z) (target acc : Z) (i : nat) (l : list A) : option nat :=
  match l with
  | [] => None
  | x :: l =>
      if ok x then
        let acc := i32 (acc + w x) in if target <? acc then Some i else walk ok w target acc (S i) l
      else walk ok w target acc (S i) l
  end.

Fixpoint first_where {A} (ok : A -> bool) (i : nat) (l : list A) : option nat :=
  match l with [] => None | x :: l => if ok x then Some i else first_where ok (S i) l end.
Fixpoint last_where {A} (ok : A -> bool) (i : nat) (l : list A) : option nat :=
  match l with
  | [] => None
  | x :: l => match last_where ok (S i) l with Some j => Some j | None => if ok x then Some i else None end
  end.

Definition selectWeightedFlowFiltered (paths : list FlowPath) (ctx : FlowSelectContext) (bucket : Z) : option nat :=
  let ok p := flowPathFiltersMatch (Filters p) ctx in
  let tot := sum32 (map pWeight (List.filter ok paths)) in
  if tot <=? 0 then None
  else match walk ok pWeight (i32 (bucket mod tot)) 0 0 paths with
       | Some i => Some i
       | None => last_where (fun p => ok p && (0 <? pWeight p)) 0 paths
       end.

Definition selectWeightedLander (landers : list FlowLanderEntry) (bucket : Z) : option nat :=
  match landers with
  | [] => None
  | [_] => Some 0%nat
  | _ =>
      let tot := sum32 (map lWeight landers) in
      if tot <=? 0 then Some 0%nat
      else match walk (fun _ => true) lWeight (i32 (bucket mod tot)) 0 0 landers with
           | Some i => Some i
           | None => Some (length landers - 1)%nat
           end
  end.

Definition offerExcluded (id : UUID) (exclude : gset UUID) : bool :=
  negb (bool_decide (id = Nil)) && bool_decide (id ∈ exclude).
Definition eligible (exclude : gset UUID) (o : FlowOfferEntry) : bool :=
  negb (Capped o) && (0 <? oWeight o) && negb (offerExcluded (OfferID o) exclude).

Definition selectWeightedOfferExcluding (offers : list FlowOfferEntry) (bucket : Z) (exclude : gset UUID) : option nat :=
  let ok := eligible exclude in
  let tot := sum32 (map oWeight (List.filter ok offers)) in
  match length (List.filter ok offers) with
  | O => None
  | 1%nat => first_where ok 0 offers
  | _ =>
      if tot <=? 0 then first_where ok 0 offers
      else match walk ok oWeight (i32 (bucket mod tot)) 0 0 offers with
           | Some i => Some i
           | None => last_where ok 0 offers
           end
  end.

(** ** Waterfall

    [sort.Slice] is not stable: [sort] is any sort of the indices. *)
Section waterfall.
Context (sort : list Z -> list nat -> list nat).

Definition selectWaterfallOffer (offers : list FlowOfferEntry) (exclude : gset UUID) : option nat :=
  let order := sort (map Priority offers) (seq 0 (length offers)) in
  List.find (fun i => match offers !! i with Some o => eligible exclude o | None => false end) order.

(** ** Rotation

    [seen] holds the members of the visitor's set: a kind, ['l'] or ['o'],
    and an id. *)
Definition Member : Type := Z * UUID.
Definition kind_l : Z := 108.
Definition kind_o : Z := 111.

Definition unseen_landers (seen : gset Member) (landers : list FlowLanderEntry) : list nat :=
  List.filter (fun i => match landers !! i with
    | Some l => negb (bool_decide (lURL l = "")) && negb (bool_decide ((kind_l, LanderID l) ∈ seen)) | None => false end)
    (seq 0 (length landers)).
Definition unseen_offers (seen : gset Member) (exclude : gset UUID) (offers : list FlowOfferEntry) : list nat :=
  List.filter (fun i => match offers !! i with
    | Some o => bool_decide (OfferID o = Nil) ||
        (negb (bool_decide (OfferID o ∈ exclude)) && negb (Capped o) &&
         negb (bool_decide ((kind_o, OfferID o) ∈ seen)))
    | None => false end)
    (seq 0 (length offers)).

(** A pick among the entries at some indices. *)
Definition pick_lander (landers : list FlowLanderEntry) (bucket : Z) (idx : list nat) : option nat :=
  k ← selectWeightedLander (omap (fun i => landers !! i) idx) bucket; idx !! k.
Definition pick_offer (offers : list FlowOfferEntry) (bucket : Z) (idx : list nat) : option nat :=
  k ← selectWeightedOfferExcluding (omap (fun i => offers !! i) idx) bucket ∅; idx !! k.

Definition selectUnseenLander (landers : list FlowLanderEntry) (seen : gset Member) (bucket : Z) : option nat :=
  match unseen_landers seen landers with
  | [] => pick_lander landers bucket (unseen_landers ∅ landers)
  | idx => pick_lander landers bucket idx
  end.
Definition selectUnseenOffer (offers : list FlowOfferEntry) (seen : gset Member) (bucket : Z) (exclude : gset UUID) : option nat :=
  match unseen_offers seen exclude offers with
  | [] => pick_offer offers bucket (unseen_offers ∅ exclude offers)
  | idx => pick_offer offers bucket idx
  end.

Definition selectFixOnLander (landers : list FlowLanderEntry) (seen : gset Member) (bucket : Z) : option nat :=
  match first_where (fun l => negb (bool_decide (lURL l = "")) && bool_decide ((kind_l, LanderID l) ∈ seen)) 0 landers with
  | Some i => Some i
  | None => selectWeightedLander landers bucket
  end.
Definition selectFixOnOffer (offers : list FlowOfferEntry) (seen : gset Member) (exclude : gset UUID) (bucket : Z) : option nat :=
  match first_where (fun o => negb (bool_decide (OfferID o = Nil)) && negb (bool_decide (OfferID o ∈ exclude)) &&
                       negb (Capped o) && bool_decide ((kind_o, OfferID o) ∈ seen)) 0 offers with
  | Some i => Some i
  | None => selectWeightedOfferExcluding offers bucket exclude
  end.

Definition selectSequentialLander (landers : list FlowLanderEntry) : option nat :=
  first_where (fun l => negb (bool_decide (LanderID l = Nil)) && negb (bool_decide (lURL l = "")) && (0 <? lWeight l)) 0 landers.
Definition selectSequentialOffer (offers : list FlowOfferEntry) (exclude : gset UUID) : option nat :=
  first_where (fun o => negb (bool_decide (OfferID o = Nil)) && negb (Capped o) && (0 <? oWeight o) &&
                        negb (offerExcluded (OfferID o) exclude)) 0 offers.

Definition selectRotationLander (path : FlowPath) (seen : gset Member) (userID : list Z) : option nat :=
  let bucket := fnv1a32Salted userID kind_l in
  match Rotation path with
  | RotationUnseen => selectUnseenLander (Landers path) seen bucket
  | RotationFixOn => selectFixOnLander (Landers path) seen bucket
  | RotationSequential => selectSequentialLander (Landers path)
  | RotationWeighted => selectWeightedLander (Landers path) bucket
  end.

Definition selectRotationOffer (path : FlowPath) (mode : FlowRoutingMode) (seen : gset Member) (userID : list Z)
    (exclude : gset UUID) : option nat :=
  let bucket := fnv1a32Salted userID kind_o in
  match mode with
  | FlowWaterfall | FlowWaterfallThenLanding => selectWaterfallOffer (Offers path) exclude
  | FlowWeighted =>
      match Rotation path with
      | RotationUnseen => selectUnseenOffer (Offers path) seen bucket exclude
      | RotationFixOn => selectFixOnOffer (Offers path) seen exclude bucket
      | RotationSequential => selectSequentialOffer (Offers path) exclude
      | RotationWeighted => selectWeightedOfferExcluding (Offers path) bucket exclude
      end
  end.

(** ** Selecting a landing *)

Record FlowSelection := mkSelection {
  PathIdx : nat; LanderIdx : nat; OfferIdx : nat; sLanderID : UUID; sOfferID : UUID; sCapDaily : Z; sCapTotal : Z }.

(** Redis as the click path sees it: the visitors' sets by campaign and
    visitor, and the click counters by offer and day or total ([None]). *)
Record Redis := mkRedis {
  seen_sets : gmap (UUID * string) (gset Member); click_counts : gmap (UUID * option string) Z }.

(** What a selection finds: whether the set can be read, and how many of the
    two marks are written. *)
Record Luck := mkLuck { load_ok : bool; marks_ok : nat }.

Definition seen_of (r : Redis) (key : option (UUID * string)) (luck : Luck) : gset Member :=
  match key with Some k => if load_ok luck then default ∅ (seen_sets r !! k) else ∅ | None => ∅ end.

(** [RotationSeenRedisKey]: no key without a campaign and a visitor. *)
Definition RotationSeenRedisKey (campaign : UUID) (visitor : string) : option (UUID * string) :=
  if bool_decide (campaign = Nil) || bool_decide (visitor = "") then None else Some (campaign, visitor).

Definition marks (landerID offerID : UUID) : list Member :=
  (if bool_decide (landerID = Nil) then [] else [(kind_l, landerID)]) ++
  (if bool_decide (offerID = Nil) then [] else [(kind_o, offerID)]).
Definition applyRotationSeen (key : option (UUID * string)) (luck : Luck) (landerID offerID : UUID) (r : Redis) : Redis :=
  match key with
  | None => r
  | Some k =>
      mkRedis (<[k := list_to_set (take (marks_ok luck) (marks landerID offerID)) ∪ default ∅ (seen_sets r !! k)]> (seen_sets r))
              (click_counts r)
  end.

Definition SelectSnapshotExcluding (snap : FlowPathSnapshot) (userID : list Z) (ctx : FlowSelectContext)
    (key : option (UUID * string)) (luck : Luck) (exclude : gset UUID) (r : Redis) : Redis * option (FlowSelection * string) :=
  match (pi ← selectWeightedFlowFiltered (Paths snap) ctx (fnv1a32 userID); p ← Paths snap !! pi; Some (pi, p)) with
  | None => (r, None)
  | Some (pi, path) =>
      let seen := seen_of r key luck in
      match (li ← selectRotationLander path seen userID; l ← Landers path !! li; Some (li, l)) with
      | None => (r, None)
      | Some (li, lander) =>
          if bool_decide (lURL lander = "") then (r, None)
          else
            match (oi ← selectRotationOffer path (RoutingMode snap) seen userID exclude; o ← Offers path !! oi; Some (oi, o)) with
            | None =>
                match RoutingMode snap with
                | FlowWaterfallThenLanding => (r, Some (mkSelection pi li 0 (LanderID lander) Nil 0 0, lURL lander))
                | _ => (r, None)
                end
            | Some (oi, offer) =>
                (applyRotationSeen key luck (LanderID lander) (OfferID offer) r,
                 Some (mkSelection pi li oi (LanderID lander) (OfferID offer) (CapClicksDaily offer) (CapClicksTotal offer),
                       lURL lander))
            end
      end
  end.

(** [CampaignFlowTable]: the published snapshots, [None] before the first. *)
Definition CampaignFlowTable : Type := option (gmap UUID FlowPathSnapshot).
Definition Publish (t : CampaignFlowTable) (snap : option (gmap UUID FlowPathSnapshot)) : CampaignFlowTable :=
  match snap with Some _ => snap | None => t end.
Definition Ready (t : CampaignFlowTable) : bool := bool_decide (is_Some t).

Definition SelectForEventExcludingWithRotation (t : CampaignFlowTable) (campaign : UUID) (userID : list Z)
    (ctx : FlowSelectContext) (key : option (UUID * string)) (luck : Luck) (exclude : gset UUID) (r : Redis)
    : Redis * option (FlowSelection * string) :=
  if bool_decide (campaign = Nil) || bool_decide (userID = []) then (r, None)
  else match (m ← t; m !! campaign) with
       | Some flow => SelectSnapshotExcluding flow userID ctx key luck exclude r
       | None => (r, None)
       end.

(** ** Click caps

    [ReserveOfferClick] by its commands: INCR of the day's counter, INCR of
    the total, the answer, and for a refused click the DECR of both.  The
    pipelines are not transactions, so other clients' commands run between
    these.  [ok] says the command took effect; a failed increment, or a lost
    answer, ends the call with what was done left in place, a failed
    decrement is ignored. *)
Inductive rpc := RStart | RDaily (d : Z) | RBoth (d t : Z) | RUndo | RUndo2 | RRefused | RAccepted | RError.

Record Reservation := mkReservation { rOffer : UUID; rDate : string; rDaily : Z; rTotal : Z; rPC : rpc }.

Definition over_caps (dailyCap totalCap d t : Z) : bool := ((0 <? dailyCap) && (dailyCap <? d)) || ((0 <? totalCap) && (totalCap <? t)).
Definition counter (c : Counters) (k : UUID * option string) : Z := default 0 (c !! k).
Definition bump (n : Z) (k : UUID * option string) (c : Counters) : Counters := <[k := counter c k + n]> c.

Definition reserve_step (ok : bool) (p : Reservation) (c : Counters) : rpc * Counters :=
  let dk := (rOffer p, Some (rDate p)) in
  let tk := (rOffer p, None) in
  match rPC p with
  | RStart => if ok then (RDaily (counter c dk + 1), bump 1 dk c) else (RError, c)
  | RDaily d => if ok then (RBoth d (counter c tk + 1), bump 1 tk c) else (RError, c)
  | RBoth d t => if ok then (if over_caps (rDaily p) (rTotal p) d t then RUndo else RAccepted, c) else (RError, c)
  | RUndo => (RUndo2, if ok then bump (-1) dk c else c)
  | RUndo2 => (RRefused, if ok then bump (-1) tk c else c)
  | RRefused | RAccepted | RError => (rPC p, c)
  end.

Definition set_pc (p : Reservation) (q : rpc) : Reservation := mkReservation (rOffer p) (rDate p) (rDaily p) (rTotal p) q.
Fixpoint reserve_run (oks : list bool) (p : Reservation) (c : Counters) : rpc * Counters :=
  match oks with
  | [] => (rPC p, c)
  | ok :: oks => let '(q, c) := reserve_step ok p c in reserve_run oks (set_pc p q) c
  end.

(** One call, by itself: [Some b] its answer, [None] an error. *)
Definition ReserveOfferClick (offer : UUID) (dailyCap totalCap : Z) (date : string) (oks : nat -> bool) (c : Counters)
    : Counters * option bool :=
  if bool_decide (offer = Nil) || ((dailyCap <=? 0) && (totalCap <=? 0)) then (c, Some true)
  else
    let '(q, c) := reserve_run (map oks (seq 0 5)) (mkReservation offer date dailyCap totalCap RStart) c in
    (c, match q with RAccepted => Some true | RRefused => Some false | _ => None end).

(** ** The click *)

Record Event := mkEvent { CampaignID : UUID; UserID : string; ClickID : string; IP : string; UA : string; Geo : string; AcceptLang : string }.

Definition flowVisitorKey (e : Event) : string :=
  if negb (bool_decide (TrimSpace (ClickID e) = "")) then TrimSpace (ClickID e)
  else if negb (bool_decide (UserID e = "")) then UserID e
  else if negb (bool_decide (TrimSpace (IP e) = "")) && negb (bool_decide (TrimSpace (UA e) = ""))
       then TrimSpace (IP e) ++ "|" ++ TrimSpace (UA e) else "".

(** What an attempt meets. *)
Record Attempt := mkAttempt { a_luck : Luck; a_date : string; a_oks : nat -> bool }.

Definition maxAttempts : nat := 8.

Fixpoint click_attempts (n : nat) (t : CampaignFlowTable) (e : Event) (inputs : nat -> Attempt) (exclude : gset UUID) (r : Redis)
    : Redis * option (FlowSelection * string) :=
  match n with
  | O => (r, None)
  | S n =>
      let a := inputs n in
      let '(r, picked) := SelectForEventExcludingWithRotation t (CampaignID e) (bytes (UserID e))
                            (flowSelectContextFromEvent (Geo e) (UA e) (AcceptLang e))
                            (RotationSeenRedisKey (CampaignID e) (flowVisitorKey e)) (a_luck a) exclude r in
      match picked with
      | None => (r, None)
      | Some (sel, url) =>
          if bool_decide (url = "") then (r, None)
          else if bool_decide (sOfferID sel = Nil) || ((sCapDaily sel <=? 0) && (sCapTotal sel <=? 0)) then (r, Some (sel, url))
          else
            let '(c, reserved) := ReserveOfferClick (sOfferID sel) (sCapDaily sel) (sCapTotal sel) (a_date a) (a_oks a) (click_counts r) in
            let r := mkRedis (seen_sets r) c in
            match reserved with
            | None => (r, None)
            | Some true => (r, Some (sel, url))
            | Some false => click_attempts n t e inputs ({[sOfferID sel]} ∪ exclude) r
            end
      end
  end.

Definition selectFlowLandingWithClickCaps (t : CampaignFlowTable) (e : Event) (inputs : nat -> Attempt) (r : Redis)
    : Redis * option (FlowSelection * string) :=
  if bool_decide (CampaignID e = Nil) || bool_decide (UserID e = "") then (r, None)
  else click_attempts maxAttempts t e inputs ∅ r.

End waterfall.

(** ** Scans *)

Section scans.
Context {A : Type} (ok : A -> bool) (w : A -> Z).
Implicit Types (l : list A) (i k : nat).

(** What a scan finds is an element that passes. *)
Definition hit l i (r : option nat) : Prop :=
  match r with Some j => exists k x, j = (i + k)%nat /\ l !! k = Some x /\ ok x = true | None => True end.

Lemma hit_cons x l i r : hit l (S i) r -> hit (x :: l) i r.
Proof. destruct r; [|done]. intros (k & y & -> & ? & ?). exists (S k), y. split_and!; [lia|done|done]. Qed.

Lemma hit_head x l i : ok x = true -> hit (x :: l) i (Some i).
Proof. intros ?. exists 0%nat, x. split_and!; [lia|done|done]. Qed.

Lemma first_where_hit l i : hit l i (first_where ok i l).
Proof.
  revert i. induction l as [|x l IH]; intros i; [done|]. cbn [first_where].
  destruct (ok x) eqn:E; [by apply hit_head|apply hit_cons, IH].
Qed.

Lemma last_where_hit l i : hit l i (last_where ok i l).
Proof.
  revert i. induction l as [|x l IH]; intros i; [done|]. cbn [last_where].
  pose proof (IH (S i)) as H. destruct (last_where ok (S i) l); [by apply hit_cons|].
  destruct (ok x) eqn:E; [by apply hit_head|done].
Qed.

Lemma walk_hit l target acc i : hit l i (walk ok w target acc i l).
Proof.
  revert acc i. induction l as [|x l IH]; intros acc i; [done|]. cbn [walk].
  destruct (ok x) eqn:E; [|apply hit_cons, IH].
  cbv zeta. destruct (target <? _); [by apply hit_head|apply hit_cons, IH].
Qed.

(** A scan of a list with a passing element finds one. *)
Lemma first_where_found l i : List.existsb ok l = true -> is_Some (first_where ok i l).
Proof. revert i. induction l as [|x l IH]; intros i; [done|]. cbn. destruct (ok x); [by eexists|apply IH]. Qed.

Lemma last_where_found l i : List.existsb ok l = true -> is_Some (last_where ok i l).
Proof.
  revert i. induction l as [|x l IH]; intros i; [done|]. cbn. destruct (ok x); cbn; intros H.
  - destruct (last_where ok (S i) l); by eexists.
  - destruct (IH (S i) H) as [? ->]. by eexists.
Qed.

Lemma filter_empty l : List.filter ok l = [] <-> List.existsb ok l = false.
Proof. induction l as [|x l IH]; cbn; [done|]. by destruct (ok x). Qed.

(** The first scan is the first in the list. *)
Lemma first_where_first l i j :
  first_where ok i l = Some j -> forall k x, (i + k < j)%nat -> l !! k = Some x -> ok x = false.
Proof.
  revert i. induction l as [|y l IH]; intros i; [done|]. cbn. destruct (ok y) eqn:E.
  - intros [= <-]. lia.
  - intros H [|k] x Hk Hx; cbn in Hx; [by simplify_eq|]. apply (IH (S i) H k x); [lia|done].
Qed.

(** The sum of the weights that count before the element at [k]. *)
Definition weight_before l k : Z := sumZ (map w (List.filter ok (take k l))).
Definition weight_sum l : Z := sumZ (map w (List.filter ok l)).

Lemma weight_sum_nonneg l : (forall x, ok x = true -> 0 < w x) -> 0 <= weight_sum l.
Proof.
  intros Hw. apply sumZ_nonneg, Forall_map, List.Forall_forall. intros x [_ H]%filter_In. specialize (Hw x H). cbn. lia.
Qed.

Lemma sum32_exact ws a : Forall (Z.lt 0) ws -> 0 <= a -> a + sumZ ws <= 2147483647 -> foldl (fun a w => i32 (a + w)) a ws = a + sumZ ws.
Proof.
  intros H. revert a. induction H as [|x ws Hx H IH]; intros a Ha Hs; cbn [foldl sumZ] in *; [lia|].
  assert (0 <= sumZ ws) by (apply sumZ_nonneg; eapply Forall_impl; [exact H|intros; cbn in *; lia]).
  rewrite i32_id by (unfold_ranges; lia). rewrite IH; lia.
Qed.

Lemma sum32_weight_sum l :
  (forall x, ok x = true -> 0 < w x) -> weight_sum l <= 2147483647 -> sum32 (map w (List.filter ok l)) = weight_sum l.
Proof.
  intros Hw Hs. unfold sum32. rewrite sum32_exact; [done| |lia|done].
  apply Forall_map, List.Forall_forall. intros x [_ H]%filter_In. cbn. auto.
Qed.

(** The walk finds the element whose slice of the weights holds the target. *)
Lemma walk_slice l target acc i k :
  (forall x, ok x = true -> 0 < w x) -> 0 <= acc -> acc <= target -> acc + weight_sum l <= 2147483647 ->
  (walk ok w target acc i l = Some (i + k)%nat <->
   exists x, l !! k = Some x /\ ok x = true /\ acc + weight_before l k <= target < acc + weight_before l k + w x).
Proof.
  intros Hw. revert acc i k. induction l as [|y l IH]; intros acc i k Ha Ht Hs.
  { cbn. split; [done|]. by intros (x & ? & _). }
  pose proof (weight_sum_nonneg l Hw) as Hp. cbn [walk]. unfold weight_before, weight_sum in *. cbn [List.filter] in Hs.
  destruct (ok y) eqn:E; cbv zeta; cbn [map sumZ] in Hs.
  - specialize (Hw y E) as Hy. rewrite i32_id by (unfold_ranges; lia). destruct (Z.ltb_spec target (acc + w y)).
    + destruct k as [|k]; cbn [take List.filter map sumZ lookup]; [split; [intros _; exists y|intros _; f_equal]; [split_and!; [done|done|lia|lia]|lia]|].
      split; [intros [= ?]; lia|]. rewrite E. cbn [map sumZ]. intros (x & _ & _ & ? & _).
      pose proof (weight_sum_nonneg (take k l) Hw). unfold weight_sum in *. lia.
    + destruct k as [|k].
      * split; [|intros (x & [= <-] & _ & ? & ?); cbn in *; lia].
        intros Hk. pose proof (walk_hit l target (acc + w y) (S i)) as Hh. rewrite Hk in Hh. destruct Hh as (? & ? & ? & _). lia.
      * replace (i + S k)%nat with (S i + k)%nat by lia. rewrite IH by lia. cbn [take List.filter]. rewrite E. cbn [map sumZ].
        split; intros (x & ? & ? & ? & ?); exists x; split_and!; try done; lia.
  - destruct k as [|k].
    + split; [|intros (x & [= <-] & ? & _); congruence].
      intros Hk. pose proof (walk_hit l target acc (S i)) as Hh. rewrite Hk in Hh. destruct Hh as (? & ? & ? & _). lia.
    + replace (i + S k)%nat with (S i + k)%nat by lia. rewrite IH by (try lia; done). cbn [take List.filter]. by rewrite E.
Qed.

Lemma walk_found l target acc i :
  (forall x, ok x = true -> 0 < w x) -> 0 <= acc -> acc <= target -> acc + weight_sum l <= 2147483647 ->
  target < acc + weight_sum l -> is_Some (walk ok w target acc i l).
Proof.
  intros Hw. revert acc i. induction l as [|y l IH]; intros acc i Ha Ht Hs Hlt; [unfold weight_sum in *; cbn in *; lia|].
  pose proof (weight_sum_nonneg l Hw). unfold weight_sum in *. cbn [walk List.filter] in *.
  destruct (ok y) eqn:E; cbv zeta; cbn [map sumZ] in *; [|by apply IH].
  specialize (Hw y E). rewrite i32_id by (unfold_ranges; lia). destruct (Z.ltb_spec target (acc + w y)); [by eexists|].
  apply IH; lia.
Qed.

End scans.

(** ** Weighted offers *)

Lemma eligible_weight exclude o : eligible exclude o = true -> 0 < oWeight o.
Proof. unfold eligible. rewrite !andb_true_iff, Z.ltb_lt. tauto. Qed.
#[local] Hint Resolve eligible_weight : core.

(** Where the slice of the offer at [k] begins, and the sum of the weights. *)
Definition offer_start (exclude : gset UUID) (offers : list FlowOfferEntry) (k : nat) : Z :=
  weight_before (eligible exclude) oWeight offers k.
Definition offer_sum (exclude : gset UUID) (offers : list FlowOfferEntry) : Z := weight_sum (eligible exclude) oWeight offers.

(** The only passing element is what the first scan finds, and its slice
    holds every target. *)
Lemma single_slice {A} (ok : A -> bool) w l target i k y :
  (forall x, ok x = true -> 0 < w x) -> List.filter ok l = [y] -> 0 <= target < w y ->
  (first_where ok i l = Some (i + k)%nat <->
   exists x, l !! k = Some x /\ ok x = true /\ weight_before ok w l k <= target < weight_before ok w l k + w x).
Proof.
  intros Hw. unfold weight_before. revert i k. induction l as [|z l IH]; intros i k Hf Ht; [done|].
  cbn [List.filter first_where] in *. destruct (ok z) eqn:E.
  - injection Hf as -> Hf. destruct k as [|k]; cbn [take List.filter lookup map sumZ].
    + split; [intros _; exists y; by rewrite E|intros _; f_equal; lia].
    + split; [intros [= ?]; lia|]. intros (x & Hx & Hok & _).
      apply filter_empty in Hf. assert (List.existsb ok l = true) by (apply existsb_exists; exists x; split; [by apply list_elem_of_In, (list_elem_of_lookup_2 l k)|done]). congruence.
  - destruct k as [|k].
    + split; [|intros (x & [= <-] & ? & _); congruence]. intros Hk.
      pose proof (first_where_hit ok l (S i)) as Hh. rewrite Hk in Hh. destruct Hh as (? & ? & ? & _). lia.
    + replace (i + S k)%nat with (S i + k)%nat by lia. cbn [take List.filter]. rewrite E. exact (IH (S i) k Hf Ht).
Qed.

(** C24: an offer is shown in proportion to its weight: the bucket, reduced
    modulo the sum of the weights that count (the offers neither capped, nor
    excluded, nor without weight), selects the offer at [k] exactly when it
    falls in that offer's slice, as long as its weight; so of [offer_sum]
    consecutive buckets each eligible offer gets as many as its weight, and
    no other offer gets any. *)
Theorem weighted_slices offers bucket exclude k :
  0 <= bucket -> offer_sum exclude offers <= 2147483647 ->
  selectWeightedOfferExcluding offers bucket exclude = Some k <->
  exists o, offers !! k = Some o /\ eligible exclude o = true /\
    offer_start exclude offers k <= bucket mod offer_sum exclude offers < offer_start exclude offers k + oWeight o.
Proof.
  intros Hb Hs. unfold selectWeightedOfferExcluding, offer_start, offer_sum in *.
  set (ok := eligible exclude) in *. assert (Hw : forall x, ok x = true -> 0 < oWeight x) by (intros ?; apply eligible_weight).
  rewrite sum32_weight_sum by done.
  assert (Hin : forall k o, offers !! k = Some o -> ok o = true -> o ∈ List.filter ok offers).
  { intros j o Hj Ho. apply list_elem_of_In, filter_In. split; [by apply list_elem_of_In, (list_elem_of_lookup_2 offers j)|done]. }
  destruct (List.filter ok offers) as [|y [|z l]] eqn:E; cbn [length].
  - split; [done|]. intros (o & Ho & Hok & _). specialize (Hin k o Ho Hok). by apply not_elem_of_nil in Hin.
  - assert (Hy : weight_sum ok oWeight offers = oWeight y) by (unfold weight_sum; rewrite E; cbn; lia).
    assert (0 < oWeight y) by (apply Hw; assert (In y [y]) as Hi by (by left); rewrite <- E in Hi; by apply filter_In in Hi as [_ ?]).
    rewrite Hy. apply (single_slice ok oWeight offers _ 0 k y); [done|done|by apply Z.mod_pos_bound].
  - assert (0 < weight_sum ok oWeight offers).
    { unfold weight_sum. rewrite E. cbn [map sumZ].
      assert (forall u, In u (y :: z :: l) -> ok u = true) as Hall by (rewrite <- E; intros u Hu; by apply filter_In in Hu as [_ ?]).
      assert (0 < oWeight y) by (apply Hw, Hall; by left).
      assert (0 < oWeight z) by (apply Hw, Hall; right; by left).
      assert (0 <= sumZ (map oWeight l)) by (apply sumZ_nonneg, Forall_map, List.Forall_forall; intros u Hu; cbn; specialize (Hw u (Hall u ltac:(by right; right))); lia).
      lia. }
    rewrite (proj2 (Z.leb_gt _ 0)) by done.
    pose proof (Z.mod_pos_bound bucket (weight_sum ok oWeight offers) ltac:(done)).
    rewrite i32_id by (unfold_ranges; lia).
    destruct (walk_found ok oWeight offers (bucket mod weight_sum ok oWeight offers) 0 0 Hw ltac:(lia) ltac:(lia) ltac:(lia) ltac:(lia)) as [j Hj].
    pose proof (walk_slice ok oWeight offers (bucket mod weight_sum ok oWeight offers) 0 0 k Hw ltac:(lia) ltac:(lia) ltac:(lia)) as Hi.
    cbn [Nat.add] in Hi. rewrite !Z.add_0_l in Hi. rewrite Hj in *. exact Hi.
Qed.

Definition demo_offers : list FlowOfferEntry :=
  [mkOffer "o1" 30 2 0 0 "" false; mkOffer "o2" 50 1 0 0 "" true; mkOffer "o3" 70 3 0 0 "" false].

Lemma weighted_slices_witness :
  0 <= 129 /\ offer_sum ∅ demo_offers = 100 /\ selectWeightedOfferExcluding demo_offers 129 ∅ = Some 0%nat /\
  selectWeightedOfferExcluding demo_offers 130 ∅ <> Some 0%nat.
Proof.
  split_and!; [lia|reflexivity| |].
  - apply (weighted_slices demo_offers 129 ∅ 0); [lia|vm_compute; discriminate|].
    exists (mkOffer "o1" 30 2 0 0 "" false). split_and!; [done|done|vm_compute; discriminate|reflexivity].
  - rewrite (weighted_slices demo_offers 130 ∅ 0); [|lia|vm_compute; discriminate].
    intros (o & [= <-] & _ & _ & H). vm_compute in H. discriminate H.
Defined.

Example language_bytes : flowLanguageBytes "en-US,en;q=0.9" = (101, 110).
Proof. reflexivity. Qed.

(** ** Snapshots as they are built *)

(** A lander has a weight and a URL, an offer a weight, a path at least one
    of each. *)
Definition path_wf (p : FlowPath) : Prop :=
  0 < pWeight p /\ Landers p <> [] /\ Forall (fun l => 0 < lWeight l /\ lURL l <> "") (Landers p) /\
  Offers p <> [] /\ Forall (fun o => 0 < oWeight o) (Offers p).

Lemma build_path_wf landers offers conv clicks meta j p :
  build_path landers offers conv clicks meta j = Some p -> path_wf p.
Proof.
  unfold build_path. destruct (_ || _) eqn:E; [done|]. apply orb_false_iff in E as [E1 _]. cbv zeta.
  case_bool_decide as El; [done|]. intros [= <-].
  split_and!; cbn -[omap]; [lia|done| | |].
  - apply Forall_forall. intros l (x & _ & H)%list_elem_of_omap. unfold build_lander in H. cbv zeta in H.
    destruct (_ || _) eqn:E in H; [done|]. injection H as <-. cbn. apply orb_false_iff in E as [E3 E4%bool_decide_eq_false]. split; [lia|done].
  - by destruct (omap (build_offer _ _ _ _) _).
  - destruct (omap (build_offer _ _ _ _) _) as [|o0 os] eqn:Eo; [by repeat constructor|]. rewrite <- Eo.
    apply Forall_forall. intros o (x & _ & H)%list_elem_of_omap. unfold build_offer in H.
    destruct (_ <=? 0) eqn:E in H; [done|]. injection H as <-. cbn. lia.
Qed.

Definition snapshot_wf (s : FlowPathSnapshot) : Prop := Forall path_wf (Paths s).

Lemma build_wf landers offers conv clicks meta raw mode s :
  buildFlowSnapshot landers offers conv clicks meta raw mode = Some s -> snapshot_wf s.
Proof.
  unfold buildFlowSnapshot. destruct raw as [paths|]; cbn -[omap]; [|done].
  destruct (omap _ _) as [|p ps] eqn:E; [done|]. intros [= <-]. unfold snapshot_wf. cbn [Paths]. rewrite <- E.
  apply Forall_forall. intros q (j & _ & H)%list_elem_of_omap. by eapply build_path_wf.
Qed.

(** ** What a selection picks *)

Lemma omap_lookup_range {A} (l : list A) (idx : list nat) k i :
  Forall (fun i => (i < length l)%nat) idx -> idx !! k = Some i -> omap (fun i => l !! i) idx !! k = l !! i.
Proof.
  intros H. revert k. induction H as [|j idx Hj _ IH]; intros k; [done|].
  destruct (lookup_lt_is_Some_2 l j Hj) as [x Hx]. cbn. rewrite Hx. destruct k as [|k]; cbn; [by intros [= <-]|apply IH].
Qed.

Lemma seq_filter_range {A} (f : nat -> bool) (l : list A) :
  Forall (fun i => (i < length l)%nat) (List.filter f (seq 0 (length l))).
Proof. apply List.Forall_forall. intros i [H _]%filter_In. apply in_seq in H. lia. Qed.

(** An index a scan returns, at the element it stands for. *)
Lemma hit_at {A} (ok : A -> bool) l j : hit ok l 0 (Some j) -> exists x, l !! j = Some x /\ ok x = true.
Proof. intros (k & x & -> & ? & ?). by exists x. Qed.

Lemma weighted_offer_eligible offers b exclude i :
  selectWeightedOfferExcluding offers b exclude = Some i -> exists o, offers !! i = Some o /\ eligible exclude o = true.
Proof.
  unfold selectWeightedOfferExcluding. intros H. apply hit_at. revert H.
  destruct (length _) as [|[|n]]; [done|intros <-; apply first_where_hit|].
  destruct (_ <=? 0); [intros <-; apply first_where_hit|].
  destruct (walk _ _ _ _ _ _) eqn:E; [intros [= <-]; rewrite <- E; apply walk_hit|intros <-; apply last_where_hit].
Qed.

Lemma weighted_offer_found offers b exclude :
  List.existsb (eligible exclude) offers = true -> is_Some (selectWeightedOfferExcluding offers b exclude).
Proof.
  intros H. unfold selectWeightedOfferExcluding. destruct (length _) as [|[|n]] eqn:E.
  - apply nil_length_inv, filter_empty in E. congruence.
  - by apply first_where_found.
  - destruct (_ <=? 0); [by apply first_where_found|].
    destruct (walk _ _ _ _ _ _); [by eexists|by apply last_where_found].
Qed.

Lemma weighted_lander_some landers b : landers <> [] -> exists i x, selectWeightedLander landers b = Some i /\ landers !! i = Some x.
Proof.
  intros H. destruct landers as [|x [|y l]]; [done|by exists 0%nat, x|]. unfold selectWeightedLander.
  set (ls := x :: y :: l). destruct (_ <=? 0); [by exists 0%nat, x|].
  destruct (walk _ _ _ _ _ _) as [i|] eqn:E.
  - pose proof (walk_hit (fun _ => true) lWeight ls (i32 (b mod sum32 (map lWeight ls))) 0 0) as Hh. rewrite E in Hh.
    apply hit_at in Hh as (z & ? & _). by exists i, z.
  - destruct (lookup_lt_is_Some_2 ls (length ls - 1)) as [z Hz]; [cbn; lia|]. by exists (length ls - 1)%nat, z.
Qed.

Lemma omap_nonempty {A} (l : list A) idx :
  Forall (fun i => (i < length l)%nat) idx -> idx <> [] -> omap (fun i => l !! i) idx <> [].
Proof.
  intros [|j js Hj _]; [done|]. intros _. destruct (lookup_lt_is_Some_2 l j Hj) as [x Hx]. cbn. by rewrite Hx.
Qed.

Lemma omap_lookup_back {A} (l : list A) idx k x :
  Forall (fun i => (i < length l)%nat) idx -> omap (fun i => l !! i) idx !! k = Some x ->
  exists i, idx !! k = Some i /\ l !! i = Some x.
Proof.
  intros Hr Hx. destruct (idx !! k) as [i|] eqn:Ei.
  - exists i. split; [done|]. by rewrite <- (omap_lookup_range l idx k i).
  - apply lookup_ge_None in Ei. apply lookup_lt_Some in Hx.
    enough (length (omap (fun i => l !! i) idx) <= length idx)%nat by lia.
    clear. induction idx as [|j js IH]; cbn; [lia|]. destruct (l !! j); cbn; lia.
Qed.

Lemma pick_lander_in landers b idx i :
  Forall (fun i => (i < length landers)%nat) idx -> pick_lander landers b idx = Some i -> i ∈ idx.
Proof. intros _. unfold pick_lander. intros (k & _ & H)%bind_Some. by eapply list_elem_of_lookup_2. Qed.

Lemma pick_lander_some landers b idx :
  Forall (fun i => (i < length landers)%nat) idx -> idx <> [] -> is_Some (pick_lander landers b idx).
Proof.
  intros Hr Hn. destruct (weighted_lander_some _ b (omap_nonempty landers idx Hr Hn)) as (k & x & Hk & Hx).
  destruct (omap_lookup_back landers idx k x Hr Hx) as (i & Hi & _). exists i. unfold pick_lander. by rewrite Hk.
Qed.

Lemma pick_offer_eligible offers b idx i :
  Forall (fun i => (i < length offers)%nat) idx -> pick_offer offers b idx = Some i ->
  i ∈ idx /\ exists o, offers !! i = Some o /\ eligible ∅ o = true.
Proof.
  intros Hr. unfold pick_offer. intros (k & Hk & Hi)%bind_Some. split; [by eapply list_elem_of_lookup_2|].
  destruct (weighted_offer_eligible _ _ _ _ Hk) as (o & Ho & He). exists o. split; [|done].
  by rewrite <- (omap_lookup_range offers idx k i).
Qed.

Lemma pick_offer_some offers b idx i o :
  Forall (fun i => (i < length offers)%nat) idx -> i ∈ idx -> offers !! i = Some o -> eligible ∅ o = true ->
  is_Some (pick_offer offers b idx).
Proof.
  intros Hr Hi Ho He.
  assert (List.existsb (eligible ∅) (omap (fun i => offers !! i) idx) = true) as Hx.
  { apply existsb_exists. exists o. split; [|done]. apply list_elem_of_In, list_elem_of_omap. by exists i. }
  destruct (weighted_offer_found _ b ∅ Hx) as [k Hk].
  destruct (weighted_offer_eligible _ _ _ _ Hk) as (x & Hx' & _).
  destruct (omap_lookup_back offers idx k x Hr Hx') as (j & Hj & _). exists j. unfold pick_offer. by rewrite Hk.
Qed.

(** *** Landers *)

Lemma rotation_lander_valid path seen uid i :
  selectRotationLander path seen uid = Some i -> exists l, Landers path !! i = Some l.
Proof.
  unfold selectRotationLander. cbv zeta. set (b := fnv1a32Salted uid kind_l).
  assert (Hw : forall j, selectWeightedLander (Landers path) b = Some j -> exists l, Landers path !! j = Some l).
  { intros j Hj. destruct (Landers path) eqn:E; [done|]. rewrite <- E in *.
    destruct (weighted_lander_some (Landers path) b ltac:(by rewrite E)) as (k & x & Hk & Hx). rewrite Hk in Hj. injection Hj as <-. by exists x. }
  assert (Hin : forall f j, j ∈ List.filter f (seq 0 (length (Landers path))) -> exists l, Landers path !! j = Some l).
  { intros f j Hj. apply lookup_lt_is_Some_2. pose proof (seq_filter_range f (Landers path)) as Hr. rewrite Forall_forall in Hr. by apply Hr. }
  destruct (Rotation path).
  - apply Hw.
  - unfold selectUnseenLander. destruct (unseen_landers seen (Landers path)) as [|y l] eqn:E; intros H%pick_lander_in; try apply seq_filter_range;
      try (by eapply Hin). rewrite <- E in *. by eapply Hin. rewrite <- E. apply seq_filter_range.
  - unfold selectFixOnLander. destruct (first_where _ 0 _) eqn:E; [|apply Hw].
    intros [= <-]. match type of E with first_where ?f 0 ?l = _ => pose proof (first_where_hit f l 0) as Hh end.
    rewrite E in Hh. apply hit_at in Hh as (x & ? & _). by exists x.
  - unfold selectSequentialLander. intros E.
    match type of E with first_where ?f 0 ?l = _ => pose proof (first_where_hit f l 0) as Hh end.
    rewrite E in Hh. apply hit_at in Hh as (x & ? & _). by exists x.
Qed.

Lemma rotation_lander_found path seen uid :
  path_wf path -> Forall (fun l => LanderID l <> Nil) (Landers path) -> is_Some (selectRotationLander path seen uid).
Proof.
  intros (_ & Hn & Hl & _) Hid. unfold selectRotationLander. cbv zeta. set (b := fnv1a32Salted uid kind_l).
  assert (Hw : is_Some (selectWeightedLander (Landers path) b)).
  { destruct (weighted_lander_some _ b Hn) as (k & ? & ? & _). by exists k. }
  destruct (Rotation path); [exact Hw| | |].
  - assert (Hall : unseen_landers ∅ (Landers path) <> []).
    { unfold unseen_landers. destruct (Landers path) as [|l ls]; [done|]. cbn [length seq List.filter lookup list_lookup].
      inversion_clear Hl as [|? ? [_ Hu] _]. by rewrite bool_decide_eq_false_2, bool_decide_eq_false_2 by set_solver. }
    unfold selectUnseenLander. destruct (unseen_landers seen (Landers path)) as [|y l] eqn:E.
    + apply pick_lander_some; [apply seq_filter_range|done].
    + apply pick_lander_some; [rewrite <- E; apply seq_filter_range|done].
  - unfold selectFixOnLander. destruct (first_where _ 0 _); [by eexists|exact Hw].
  - apply first_where_found. destruct (Landers path) as [|l ls]; [done|].
    inversion_clear Hl as [|? ? [Hw' Hu] _]. inversion_clear Hid as [|? ? Hi _]. cbn.
    by rewrite bool_decide_eq_false_2, bool_decide_eq_false_2, (proj2 (Z.ltb_lt _ _)) by done.
Qed.

(** *** Offers *)

Section selection.
Context (sort : list Z -> list nat -> list nat).
Context (sort_perm : forall ps l, sort ps l ≡ₚ l).

Lemma waterfall_eligible offers exclude i :
  selectWaterfallOffer sort offers exclude = Some i -> exists o, offers !! i = Some o /\ eligible exclude o = true.
Proof.
  intros [_ H]%find_some. destruct (offers !! i) as [o|]; [by exists o|done].
Qed.

Lemma waterfall_found offers exclude i o :
  offers !! i = Some o -> eligible exclude o = true -> is_Some (selectWaterfallOffer sort offers exclude).
Proof.
  intros Ho He. unfold selectWaterfallOffer. destruct (List.find _ _) eqn:E; [by eexists|].
  assert (Hi : i ∈ sort (map Priority offers) (seq 0 (length offers))).
  { rewrite sort_perm. apply elem_of_seq. apply lookup_lt_Some in Ho. lia. }
  apply list_elem_of_In in Hi. apply (find_none _ _ E) in Hi. cbn in Hi. rewrite Ho in Hi. congruence.
Qed.

Lemma eligible_unexcluded o exclude :
  eligible ∅ o = true -> OfferID o = Nil \/ OfferID o ∉ exclude -> eligible exclude o = true.
Proof.
  unfold eligible, offerExcluded. intros (H & _)%andb_true_iff Hx. rewrite H. cbn.
  apply negb_true_iff, andb_false_iff. destruct Hx; [left; by rewrite bool_decide_eq_true_2|right; by rewrite bool_decide_eq_false_2].
Qed.

Lemma eligible_any o exclude : eligible exclude o = true -> eligible ∅ o = true.
Proof.
  unfold eligible, offerExcluded. intros (H & _)%andb_true_iff. rewrite H. cbn.
  rewrite (bool_decide_eq_false_2 (OfferID o ∈ ∅)) by set_solver. by rewrite andb_false_r.
Qed.

Lemma unseen_offer_at seen exclude offers i :
  i ∈ unseen_offers seen exclude offers ->
  exists o, offers !! i = Some o /\ (OfferID o = Nil \/ ((OfferID o ∉ exclude) /\ Capped o = false)).
Proof.
  intros Hi%list_elem_of_In. apply filter_In in Hi as [_ H]. destruct (offers !! i) as [o|]; [|done]. exists o. split; [done|].
  apply orb_true_iff in H as [H|H]; [left; by apply bool_decide_eq_true in H|right].
  apply andb_true_iff in H as [[H1 H2]%andb_true_iff _]. apply negb_true_iff in H1, H2.
  by apply bool_decide_eq_false in H1.
Qed.

Lemma rotation_offer_valid path mode seen uid exclude i :
  path_wf path -> selectRotationOffer sort path mode seen uid exclude = Some i ->
  exists o, Offers path !! i = Some o /\ eligible exclude o = true.
Proof.
  intros (_ & _ & _ & _ & Hw). unfold selectRotationOffer. cbv zeta. set (b := fnv1a32Salted uid kind_o).
  assert (Hu : forall se idx, idx = unseen_offers se exclude (Offers path) -> pick_offer (Offers path) b idx = Some i ->
            exists o, Offers path !! i = Some o /\ eligible exclude o = true).
  { intros se idx -> [Hi (o & Ho & He)]%pick_offer_eligible; [|apply seq_filter_range]. exists o. split; [done|].
    apply unseen_offer_at in Hi as (o' & Ho' & Hx). simplify_eq. apply eligible_unexcluded; [done|]. tauto. }
  destruct mode; try apply waterfall_eligible. destruct (Rotation path).
  - apply weighted_offer_eligible.
  - unfold selectUnseenOffer. destruct (unseen_offers seen exclude _) eqn:E; [by eapply Hu|]. rewrite <- E. by eapply Hu.
  - unfold selectFixOnOffer. destruct (first_where _ 0 _) eqn:E; [|apply weighted_offer_eligible].
    intros [= <-]. match type of E with first_where ?f 0 ?l = _ => pose proof (first_where_hit f l 0) as Hh end.
    rewrite E in Hh. apply hit_at in Hh as (x & Hx & Hok). exists x. split; [done|].
    apply andb_true_iff in Hok as [[[H1 H2]%andb_true_iff H3]%andb_true_iff _].
    unfold eligible, offerExcluded. rewrite H3. apply negb_true_iff in H2. rewrite H2, andb_false_r.
    rewrite Forall_lookup in Hw. specialize (Hw _ _ Hx). cbn in Hw. by rewrite (proj2 (Z.ltb_lt _ _)).
  - unfold selectSequentialOffer. intros E.
    match type of E with first_where ?f 0 ?l = _ => pose proof (first_where_hit f l 0) as Hh end.
    rewrite E in Hh. apply hit_at in Hh as (x & Hx & Hok). exists x. split; [done|].
    apply andb_true_iff in Hok as [[[_ H2]%andb_true_iff H3]%andb_true_iff H4]. unfold eligible. by rewrite H2, H3, H4.
Qed.

Lemma rotation_offer_found path mode seen uid exclude i o :
  path_wf path -> Forall (fun o => OfferID o <> Nil) (Offers path) -> Offers path !! i = Some o -> eligible exclude o = true ->
  is_Some (selectRotationOffer sort path mode seen uid exclude).
Proof.
  intros (_ & _ & _ & _ & Hw) Hid Ho He. unfold selectRotationOffer. cbv zeta. set (b := fnv1a32Salted uid kind_o).
  assert (Hx : List.existsb (eligible exclude) (Offers path) = true).
  { apply existsb_exists. exists o. split; [by apply list_elem_of_In, (list_elem_of_lookup_2 _ i)|done]. }
  assert (Hu : forall se j, j ∈ unseen_offers se exclude (Offers path) -> is_Some (pick_offer (Offers path) b (unseen_offers se exclude (Offers path)))).
  { intros se j Hj. pose proof (unseen_offer_at _ _ _ _ Hj) as (x & Hxj & Hc). rewrite Forall_lookup in Hid, Hw.
    destruct Hc as [Hc|[Hc1 Hc2]]; [by specialize (Hid _ _ Hxj)|].
    apply (pick_offer_some _ _ _ j x); [apply seq_filter_range|done|done|].
    specialize (Hw _ _ Hxj). cbn in Hw. unfold eligible, offerExcluded. rewrite Hc2, (proj2 (Z.ltb_lt _ _)) by done.
    by rewrite (bool_decide_eq_false_2 (OfferID x ∈ ∅)), andb_false_r by set_solver. }
  destruct mode; try by eapply waterfall_found. destruct (Rotation path).
  - by apply weighted_offer_found.
  - unfold selectUnseenOffer. destruct (unseen_offers seen exclude _) as [|j l] eqn:E.
    + apply (Hu ∅ i). apply list_elem_of_In, filter_In. split; [apply in_seq; apply lookup_lt_Some in Ho; lia|]. rewrite Ho.
      apply orb_true_iff. right. rewrite (bool_decide_eq_false_2 ((kind_o, OfferID o) ∈ ∅)) by set_solver.
      rewrite Forall_lookup in Hid. specialize (Hid _ _ Ho). unfold eligible, offerExcluded in He.
      apply andb_true_iff in He as [[-> _]%andb_true_iff He]. rewrite (bool_decide_eq_false_2 (OfferID o = Nil)) in He by done.
      cbn in He. by rewrite He.
    + rewrite <- E. apply (Hu seen j). rewrite E. left.
  - unfold selectFixOnOffer. destruct (first_where _ 0 _); [by eexists|by apply weighted_offer_found].
  - apply first_where_found, existsb_exists. exists o. split; [by apply list_elem_of_In, (list_elem_of_lookup_2 _ i)|].
    unfold eligible in He. rewrite !andb_true_iff in He. rewrite Forall_lookup in Hid. specialize (Hid _ _ Ho).
    rewrite (bool_decide_eq_false_2 (OfferID o = Nil)) by done. rewrite !andb_true_iff. tauto.
Qed.

(** A path that is chosen exists and takes the click. *)
Lemma weighted_path_valid paths ctx b i :
  selectWeightedFlowFiltered paths ctx b = Some i -> exists p, paths !! i = Some p /\ flowPathFiltersMatch (Filters p) ctx = true.
Proof.
  unfold selectWeightedFlowFiltered. cbv zeta. destruct (_ <=? 0); [done|].
  destruct (walk _ _ _ _ _ _) as [j|] eqn:E.
  - intros [= <-]. match type of E with walk ?f ?w ?t ?a 0 ?l = _ => pose proof (walk_hit f w l t a 0) as Hh end.
    rewrite E in Hh. apply hit_at in Hh as (p & ? & ?). by exists p.
  - intros H. match type of H with last_where ?f 0 ?l = _ => pose proof (last_where_hit f l 0) as Hh end.
    rewrite H in Hh. apply hit_at in Hh as (p & ? & [? _]%andb_true_iff). by exists p.
Qed.

(** What a landing must be for a click: the offer shown is of the path, not
    capped, not one already refused, with its caps; or none, where the flow
    says a lander will do. *)
Definition offer_shown (mode : FlowRoutingMode) (exclude : gset UUID) (path : FlowPath) (sel : FlowSelection) : Prop :=
  (exists o, Offers path !! OfferIdx sel = Some o /\ eligible exclude o = true /\ sOfferID sel = OfferID o /\
     sCapDaily sel = CapClicksDaily o /\ sCapTotal sel = CapClicksTotal o) \/
  (mode = FlowWaterfallThenLanding /\ sOfferID sel = Nil /\
     Forall (fun o => eligible exclude o = false) (Offers path)).

Definition landing_of (s : FlowPathSnapshot) (ctx : FlowSelectContext) (exclude : gset UUID) (sel : FlowSelection) (url : string) : Prop :=
  exists path lander, Paths s !! PathIdx sel = Some path /\ flowPathFiltersMatch (Filters path) ctx = true /\
    Landers path !! LanderIdx sel = Some lander /\ sLanderID sel = LanderID lander /\ url = lURL lander /\ url <> "" /\
    offer_shown (RoutingMode s) exclude path sel.

(** C23: a click is only ever sent where its flow says: the path's filters let
    the visitor's country, device, system and language through, the lander is
    one of the path's with a URL, and the offer is one of the path's that is
    neither capped nor already refused to this click; no offer is given only
    in the waterfall mode that allows it, and then only because every offer
    of the path is capped, refused or without weight. *)
Theorem selection_valid landers offers conv clicks meta raw mode s uid ctx key luck exclude r r' sel url :
  buildFlowSnapshot landers offers conv clicks meta raw mode = Some s ->
  SelectSnapshotExcluding sort s uid ctx key luck exclude r = (r', Some (sel, url)) ->
  landing_of s ctx exclude sel url.
Proof using sort_perm.
  intros Hb%build_wf. unfold SelectSnapshotExcluding.
  destruct (selectWeightedFlowFiltered _ _ _) as [pi|] eqn:Ep; [|done]. cbn -[selectWeightedFlowFiltered].
  apply weighted_path_valid in Ep as (path & Hp & Hf). rewrite Hp. cbn. cbv zeta.
  assert (Hwf : path_wf path) by (unfold snapshot_wf in Hb; rewrite Forall_lookup in Hb; by eapply Hb).
  destruct (selectRotationLander _ _ _) as [li|]; [|done]. cbn.
  destruct (Landers path !! li) as [l|] eqn:El; [|done]. cbn. case_bool_decide as Eu; [done|].
  destruct (selectRotationOffer sort path (RoutingMode s) _ _ _) as [oi|] eqn:Eo; cbn.
  - destruct (rotation_offer_valid _ _ _ _ _ _ Hwf Eo) as (o & Ho & He). rewrite Ho. cbn. intros [= <- <- <-].
    exists path, l. split_and!; try done. left. by exists o.
  - destruct (RoutingMode s) eqn:Em; [done|done|]. intros [= <- <- <-]. exists path, l. split_and!; try done.
    right. split_and!; [by rewrite Em|done|]. apply Forall_lookup. intros i o Ho. destruct (eligible exclude o) eqn:He; [|done].
    unfold selectRotationOffer in Eo. destruct (waterfall_found _ _ _ _ Ho He) as [? Hs]. cbv zeta in Eo. congruence.
Qed.

(** The waterfall takes the best offer it may show: it gives an eligible
    offer whose priority no other eligible offer precedes, whatever order
    [sort.Slice] leaves equal priorities in, and gives none only when none is
    eligible. *)
Theorem waterfall_best (offers : list FlowOfferEntry) (exclude : gset UUID) :
  StronglySorted (fun i j => (nth i (map Priority offers) 0 <= nth j (map Priority offers) 0))
    (sort (map Priority offers) (seq 0 (length offers))) ->
  match selectWaterfallOffer sort offers exclude with
  | Some i => exists o, offers !! i = Some o /\ eligible exclude o = true /\
      forall j o', offers !! j = Some o' -> eligible exclude o' = true -> Priority o <= Priority o'
  | None => Forall (fun o => eligible exclude o = false) offers
  end.
Proof using sort_perm.
  intros Hs. destruct (selectWaterfallOffer _ _ _) as [i|] eqn:E.
  - destruct (waterfall_eligible _ _ _ E) as (o & Ho & He). exists o. split_and!; [done|done|]. intros j o' Ho' He'.
    unfold selectWaterfallOffer in E. cbv zeta in E.
    assert (Hj : j ∈ sort (map Priority offers) (seq 0 (length offers))).
    { rewrite sort_perm. apply elem_of_seq. apply lookup_lt_Some in Ho'. lia. }
    assert (Hn : forall k x, offers !! k = Some x -> nth k (map Priority offers) 0 = Priority x).
    { intros k x Hk. apply nth_lookup_Some. change (map Priority offers) with (Priority <$> offers). by rewrite list_lookup_fmap, Hk. }
    rewrite <- (Hn _ _ Ho), <- (Hn _ _ Ho'). clear Hn Ho He sort_perm.
    induction Hs as [|k l Hs IH Hall]; [by apply not_elem_of_nil in Hj|]. cbn in E.
    destruct (match offers !! k with Some o => eligible exclude o | None => false end) eqn:Ek.
    + injection E as <-. apply elem_of_cons in Hj as [->|Hj]; [lia|]. rewrite Forall_forall in Hall. by apply Hall.
    + apply elem_of_cons in Hj as [->|Hj]; [rewrite Ho' in Ek; congruence|]. by apply IH.
  - apply Forall_lookup. intros i o Ho. destruct (eligible exclude o) eqn:He; [|done].
    destruct (waterfall_found _ _ _ _ Ho He) as [? H]. congruence.
Qed.

End selection.

(** An insertion sort by priority: one [sort.Slice] may be. *)
Fixpoint insert_by (ps : list Z) (i : nat) (l : list nat) : list nat :=
  match l with [] => [i] | j :: l' => if nth i ps 0 <=? nth j ps 0 then i :: l else j :: insert_by ps i l' end.
Definition sort_by (ps : list Z) (l : list nat) : list nat := foldr (insert_by ps) [] l.

Lemma insert_by_perm ps i l : insert_by ps i l ≡ₚ i :: l.
Proof. induction l as [|j l IH]; cbn; [done|]. destruct (_ <=? _); [done|]. rewrite IH. apply Permutation_swap. Qed.

Lemma sort_by_perm ps l : sort_by ps l ≡ₚ l.
Proof. induction l as [|i l IH]; cbn; [done|]. by rewrite insert_by_perm, IH. Qed.

Lemma waterfall_best_witness :
  exists o, demo_offers !! 0%nat = Some o /\ eligible ∅ o = true /\
    forall j o', demo_offers !! j = Some o' -> eligible ∅ o' = true -> Priority o <= Priority o'.
Proof.
  refine (waterfall_best sort_by sort_by_perm demo_offers ∅ _).
  vm_compute. repeat constructor; vm_compute; discriminate.
Defined.

Definition demo_flow : option (list flowPathJSON) :=
  Some [mkPathJSON 100 "weighted" None [mkLanderJSON "l1" 1] [mkOfferJSON "o1" 30 None None; mkOfferJSON "o3" 70 None None]].
Definition demo_meta : gmap UUID offerTableMeta := {["o1" := mkMeta 2 0 5; "o3" := mkMeta 1 0 5]}.
Definition demo_snapshot : FlowPathSnapshot :=
  default (mkSnapshot FlowWeighted []) (buildFlowSnapshot {["l1" := "https://l1"]} ∅ ∅ ∅ demo_meta demo_flow "waterfall").
Definition anywhere : FlowSelectContext := mkContext (0, 0) 0 0 (0, 0).

Lemma selection_valid_witness :
  landing_of demo_snapshot anywhere ∅ (mkSelection 0 0 1 "l1" "o3" 0 5) "https://l1".
Proof.
  refine (selection_valid sort_by sort_by_perm {["l1" := "https://l1"]} ∅ ∅ ∅ demo_meta demo_flow "waterfall" demo_snapshot
            [117] anywhere None (mkLuck true 2) ∅ (mkRedis ∅ ∅) (mkRedis ∅ ∅) _ _ _ _); vm_compute; reflexivity.
Defined.

(** ** Click caps under interleaving

    Calls of several clients, each between two of its commands. *)
Definition sched_step (s : nat * bool) (st : list Reservation * Counters) : list Reservation * Counters :=
  match fst st !! fst s with
  | Some p => let '(q, c) := reserve_step (snd s) p (snd st) in (<[fst s := set_pc p q]> (fst st), c)
  | None => st
  end.
Definition interleave (sched : list (nat * bool)) (st : list Reservation * Counters) : list Reservation * Counters :=
  foldl (fun st s => sched_step s st) st sched.

Definition day_key (p : Reservation) : UUID * option string := (rOffer p, Some (rDate p)).
Definition total_key (p : Reservation) : UUID * option string := (rOffer p, None).

(** The cap a call checks a counter against, if it touches it. *)
Definition cap_of (k : UUID * option string) (p : Reservation) : option Z :=
  if bool_decide (k = day_key p) then Some (rDaily p) else if bool_decide (k = total_key p) then Some (rTotal p) else None.

(** The increments of [k] that a call has made and not taken back. *)
Definition held (k : UUID * option string) (p : Reservation) : Z :=
  if bool_decide (k = day_key p) then match rPC p with RDaily _ | RBoth _ _ | RAccepted | RUndo => 1 | _ => 0 end
  else if bool_decide (k = total_key p) then match rPC p with RBoth _ _ | RAccepted | RUndo | RUndo2 => 1 | _ => 0 end
  else 0.

(** The calls that were told a count within the cap and may be accepted. *)
Definition within (k : UUID * option string) (cap : Z) (p : Reservation) : Z :=
  if bool_decide (k = day_key p) then
    match rPC p with RDaily d | RBoth d _ => if d <=? cap then 1 else 0 | RAccepted => 1 | _ => 0 end
  else if bool_decide (k = total_key p) then
    match rPC p with RBoth _ t => if t <=? cap then 1 else 0 | RAccepted => 1 | _ => 0 end
  else 0.

Definition accepted (k : UUID * option string) (p : Reservation) : Z :=
  match cap_of k p, rPC p with Some _, RAccepted => 1 | _, _ => 0 end.

Lemma counter_bump n k k' c : counter (bump n k' c) k = if bool_decide (k = k') then counter c k + n else counter c k.
Proof.
  unfold counter, bump. case_bool_decide as E; [subst; by rewrite lookup_insert_eq|by rewrite lookup_insert_ne].
Qed.

Lemma keys_differ p : day_key p <> total_key p.
Proof. unfold day_key, total_key. congruence. Qed.

(** One command: what a call holds grows no faster than the counter, and a
    call comes within the cap only when the counter had room. *)
Lemma reserve_step_effect k cap ok p c q c' :
  0 < cap -> (cap_of k p = None \/ cap_of k p = Some cap) -> reserve_step ok p c = (q, c') ->
  held k (set_pc p q) - held k p <= counter c' k - counter c k /\
  (within k cap (set_pc p q) <= within k cap p \/
   (within k cap (set_pc p q) = 1 /\ within k cap p = 0 /\ counter c k + 1 <= cap)).
Proof.
  intros Hc Hk. unfold reserve_step. cbv zeta.
  change (rOffer p, Some (rDate p)) with (day_key p). change (rOffer p, @None string) with (total_key p).
  unfold held, within. change (day_key (set_pc p q)) with (day_key p). change (total_key (set_pc p q)) with (total_key p).
  change (rPC (set_pc p q)) with q. unfold cap_of in Hk. pose proof (keys_differ p) as Hd.
  destruct (bool_decide (k = day_key p)) eqn:E1; [apply bool_decide_eq_true in E1; subst k|destruct (bool_decide (k = total_key p)) eqn:E2];
    destruct (rPC p), ok; intros [= <- <-]; rewrite ?counter_bump;
    cbn [rPC]; repeat case_bool_decide; try done; try (destruct Hk as [Hk|[= Hk]]; [discriminate Hk|]); unfold over_caps;
    repeat match goal with |- context [if ?b then _ else _] => destruct b eqn:? end; try lia.
  subst k. lia.
Qed.

(** The invariant of one counter: it covers what the calls hold, and those
    within the cap are no more than it allows. *)
Definition counter_inv (k : UUID * option string) (cap c0 : Z) (st : list Reservation * Counters) : Prop :=
  c0 + sumZ (map (held k) (fst st)) <= counter (snd st) k /\
  c0 + sumZ (map (within k cap) (fst st)) <= Z.max c0 cap /\
  Forall (fun p => cap_of k p = None \/ cap_of k p = Some cap) (fst st).

Lemma within_held k cap p : within k cap p <= held k p.
Proof. unfold within, held. repeat case_bool_decide; try lia; destruct (rPC p); try lia; destruct (_ <=? _); lia. Qed.

Lemma within_total ps k cap : sumZ (map (within k cap) ps) <= sumZ (map (held k) ps).
Proof. induction ps as [|p ps IH]; cbn [map sumZ]; [lia|]. pose proof (within_held k cap p). lia. Qed.

Lemma sched_step_inv k cap c0 s st : 0 < cap -> counter_inv k cap c0 st -> counter_inv k cap c0 (sched_step s st).
Proof.
  intros Hc (H1 & H2 & H3). unfold sched_step. destruct (fst st !! fst s) as [p|] eqn:Ep; [|done].
  destruct (reserve_step (snd s) p (snd st)) as [q c'] eqn:Es.
  pose proof (Forall_lookup_1 _ _ _ _ H3 Ep) as Hk. cbn in Hk.
  destruct (reserve_step_effect k cap (snd s) p (snd st) q c' Hc Hk Es) as [Hh Hw].
  pose proof (within_total (fst st) k cap) as Ht. unfold counter_inv. cbn [fst snd].
  assert (Hs : forall f : Reservation -> Z, sumZ (map f (<[fst s := set_pc p q]> (fst st))) = sumZ (map f (fst st)) - f p + f (set_pc p q)).
  { intros f. change (map f ?l) with (f <$> l). rewrite list_fmap_insert. apply sumZ_insert. by rewrite list_lookup_fmap, Ep. }
  rewrite !Hs. split_and!; [lia|lia|]. by apply Forall_insert.
Qed.

Lemma interleave_inv k cap c0 sched st : 0 < cap -> counter_inv k cap c0 st -> counter_inv k cap c0 (interleave sched st).
Proof.
  intros Hc. revert st. induction sched as [|s sched IH]; intros st H; [done|]. by apply IH, sched_step_inv.
Qed.

Lemma accepted_within k cap p : accepted k p <= within k cap p.
Proof.
  unfold accepted, within, cap_of. repeat case_bool_decide; destruct (rPC p); try lia; destruct (_ <=? _); lia.
Qed.



(** ** The attempts of a click *)

(** Whether an offer's counters leave room for one more click on a day. *)
Definition has_room (c : Counters) (date : string) (o : FlowOfferEntry) : bool :=
  negb (over_caps (CapClicksDaily o) (CapClicksTotal o) (counter c (OfferID o, Some date) + 1) (counter c (OfferID o, None) + 1)).

(** One call while Redis answers: it accepts when there is room, and a
    refusal leaves every counter as it was. *)
Lemma reserve_alone offer d t date oks c :
  (forall i, oks i = true) ->
  exists c' b, ReserveOfferClick offer d t date oks c = (c', Some b) /\
    (b = false -> over_caps d t (counter c (offer, Some date) + 1) (counter c (offer, None) + 1) = true /\
                  forall k, counter c' k = counter c k).
Proof.
  intros Hok. unfold ReserveOfferClick. destruct (_ || _); [by exists c, true|].
  cbn [map seq]. rewrite !Hok. cbn -[bump counter over_caps]. rewrite counter_bump, bool_decide_eq_false_2 by congruence.
  destruct (over_caps _ _ _ _) eqn:E; cbn -[bump counter over_caps]; eexists _, _; (split; [reflexivity|]); [|done].
  intros _. split; [done|]. intros k. rewrite !counter_bump. repeat case_bool_decide; subst; try congruence; lia.
Qed.

Lemma build_caps landers offers conv clicks meta raw mode s p o :
  buildFlowSnapshot landers offers conv clicks meta raw mode = Some s -> p ∈ Paths s -> o ∈ Offers p -> OfferID o <> Nil ->
  let m := default (mkMeta 0 0 0) (meta !! OfferID o) in CapClicksDaily o = m_daily m /\ CapClicksTotal o = m_total m.
Proof.
  unfold buildFlowSnapshot. destruct raw as [paths|]; cbn -[omap]; [|done].
  destruct (omap _ _) as [|p0 ps] eqn:E; [done|]. intros [= <-]. cbn [Paths]. rewrite <- E.
  intros (j & _ & Hb)%list_elem_of_omap Ho Hn. unfold build_path in Hb. cbv zeta in Hb.
  destruct (_ || _); [done|]. case_bool_decide; [done|]. injection Hb as <-. cbn [Offers] in Ho.
  assert (Hd : o ∈ omap (build_offer offers conv clicks meta) (jp_offers j)).
  { revert Ho. by destruct (omap (build_offer _ _ _ _) _); [intros ->%list_elem_of_singleton|]. }
  apply list_elem_of_omap in Hd as (x & _ & Hx). unfold build_offer in Hx. destruct (_ <=? 0); [done|].
  by injection Hx as <-.
Qed.

Lemma marks_keep_counts key luck l o r : click_counts (applyRotationSeen key luck l o r) = click_counts r.
Proof. by destruct key. Qed.

Section attempts.
Context (sort : list Z -> list nat -> list nat).
Context (sort_perm : forall ps l, sort ps l ≡ₚ l).

(** A path with an offer left gives a landing with one of them. *)
Lemma selection_found s uid ctx key luck exclude r pi path i x :
  path_wf path -> Forall (fun l => LanderID l <> Nil) (Landers path) -> Forall (fun o => OfferID o <> Nil) (Offers path) ->
  selectWeightedFlowFiltered (Paths s) ctx (fnv1a32 uid) = Some pi -> Paths s !! pi = Some path ->
  Offers path !! i = Some x -> eligible exclude x = true ->
  exists r' sel url o, SelectSnapshotExcluding sort s uid ctx key luck exclude r = (r', Some (sel, url)) /\
    click_counts r' = click_counts r /\ url <> "" /\ o ∈ Offers path /\ eligible exclude o = true /\
    sOfferID sel = OfferID o /\ sCapDaily sel = CapClicksDaily o /\ sCapTotal sel = CapClicksTotal o.
Proof using sort_perm.
  intros Hwf Hl Ho Hpi Hp Hx He. unfold SelectSnapshotExcluding. rewrite Hpi. cbn -[selectWeightedFlowFiltered]. rewrite Hp. cbn. cbv zeta.
  destruct (rotation_lander_found path (seen_of r key luck) uid Hwf Hl) as [li Hli]. rewrite Hli. cbn.
  destruct (rotation_lander_valid _ _ _ _ Hli) as [l Hll]. rewrite Hll. cbn.
  assert (lURL l <> "").
  { destruct Hwf as (_ & _ & Hw & _). rewrite Forall_lookup in Hw. by apply (Hw _ _ Hll). }
  rewrite bool_decide_eq_false_2 by done.
  destruct (rotation_offer_found sort sort_perm path (RoutingMode s) (seen_of r key luck) uid exclude i x Hwf Ho Hx He) as [oi Hoi].
  rewrite Hoi. cbn. destruct (rotation_offer_valid sort _ _ _ _ _ _ Hwf Hoi) as (o & Hoo & Heo). rewrite Hoo. cbn.
  eexists _, _, _, o. split; [reflexivity|]. split_and!; [apply marks_keep_counts|done|by eapply list_elem_of_lookup_2|done..].
Qed.

(** A refused offer leaves fewer to try. *)
Lemma exclude_shrinks offers exclude o :
  o ∈ offers -> eligible exclude o = true -> OfferID o <> Nil ->
  (length (List.filter (eligible ({[OfferID o]} ∪ exclude)) offers) < length (List.filter (eligible exclude) offers))%nat.
Proof.
  intros Ho He Hn.
  assert (Hsub : forall x, eligible ({[OfferID o]} ∪ exclude) x = true -> eligible exclude x = true).
  { intros x. unfold eligible, offerExcluded. rewrite !andb_true_iff, !negb_true_iff. intros [? H]. split; [done|].
    apply andb_false_iff in H as [->|H%bool_decide_eq_false]; [done|]. rewrite (bool_decide_eq_false_2 (OfferID x ∈ exclude)) by set_solver.
    by rewrite andb_false_r. }
  assert (Hf : eligible ({[OfferID o]} ∪ exclude) o = false).
  { unfold eligible, offerExcluded. rewrite (bool_decide_eq_false_2 (OfferID o = Nil)), bool_decide_eq_true_2 by set_solver. apply andb_false_r. }
  induction Ho as [y l|y z l Ho IH]; cbn [List.filter].
  - rewrite Hf, He. cbn. apply le_n_S. clear -Hsub. induction l as [|x l IH]; cbn; [lia|].
    specialize (Hsub x). destruct (eligible ({[OfferID y]} ∪ exclude) x); [rewrite Hsub by done; cbn; lia|].
    destruct (eligible exclude x); cbn; lia.
  - specialize (IH He Hn Hsub Hf). specialize (Hsub z). destruct (eligible ({[OfferID y]} ∪ exclude) z); [rewrite Hsub by done; cbn; lia|].
    destruct (eligible exclude z); cbn; lia.
Qed.

Lemma has_room_ext c c' date o : (forall k, counter c' k = counter c k) -> has_room c' date o = has_room c date o.
Proof. intros H. unfold has_room. by rewrite !H. Qed.

(** The attempts find the offer with room while there are at least as many as
    offers left. *)
Lemma attempts_found n t table e inputs exclude r s pi path i x :
  let ctx := flowSelectContextFromEvent (Geo e) (UA e) (AcceptLang e) in
  t = Some table -> table !! CampaignID e = Some s -> CampaignID e <> Nil -> bytes (UserID e) <> [] ->
  path_wf path -> Forall (fun l => LanderID l <> Nil) (Landers path) -> Forall (fun o => OfferID o <> Nil) (Offers path) ->
  (forall o, o ∈ Offers path -> OfferID o = OfferID x -> CapClicksDaily o = CapClicksDaily x /\ CapClicksTotal o = CapClicksTotal x) ->
  selectWeightedFlowFiltered (Paths s) ctx (fnv1a32 (bytes (UserID e))) = Some pi -> Paths s !! pi = Some path ->
  (forall j k, a_oks (inputs j) k = true) ->
  Offers path !! i = Some x -> eligible exclude x = true -> (forall j, has_room (click_counts r) (a_date (inputs j)) x = true) ->
  (length (List.filter (eligible exclude) (Offers path)) <= n)%nat ->
  exists r' sel url, click_attempts sort n t e inputs exclude r = (r', Some (sel, url)) /\
    exists o, o ∈ Offers path /\ sOfferID sel = OfferID o /\ eligible ∅ o = true.
Proof using sort_perm.
  cbv zeta. intros -> Ht Hc Hu Hwf Hl Ho Hcaps Hpi Hp Hok Hx. revert exclude r. induction n as [|n IH]; intros exclude r He Hroom Hn.
  - assert (List.filter (eligible exclude) (Offers path) = []) as H%filter_empty by (apply nil_length_inv; lia).
    assert (List.existsb (eligible exclude) (Offers path) = true); [|congruence].
    apply existsb_exists. exists x. split; [by apply list_elem_of_In, (list_elem_of_lookup_2 _ i)|done].
  - cbn [click_attempts]. cbv zeta. unfold SelectForEventExcludingWithRotation.
    rewrite (bool_decide_eq_false_2 (CampaignID e = Nil)), (bool_decide_eq_false_2 (bytes (UserID e) = [])) by done. cbn -[bytes flowSelectContextFromEvent].
    rewrite Ht.
    destruct (selection_found s (bytes (UserID e)) (flowSelectContextFromEvent (Geo e) (UA e) (AcceptLang e))
                (RotationSeenRedisKey (CampaignID e) (flowVisitorKey e)) (a_luck (inputs n)) exclude r pi path i x Hwf Hl Ho Hpi Hp Hx He)
      as (r1 & sel & url & o & -> & Hr1 & Hurl & Hin & Heo & Hid & Hd & Htt).
    rewrite (bool_decide_eq_false_2 (url = "")) by done.
    assert (Hdone : exists o, o ∈ Offers path /\ sOfferID sel = OfferID o /\ eligible ∅ o = true)
      by (exists o; split_and!; [done|done|by eapply eligible_any]).
    destruct (_ || _); [by eexists _, _, _|].
    destruct (reserve_alone (sOfferID sel) (sCapDaily sel) (sCapTotal sel) (a_date (inputs n)) (a_oks (inputs n)) (click_counts r1) (Hok n))
      as (c' & b & -> & Hb).
    destruct b; [by eexists _, _, _|]. destruct (Hb eq_refl) as [Hover Hsame]. rewrite Hr1 in Hover, Hsame. rewrite Hid, Hd, Htt in Hover.
    rewrite Hid. apply IH.
    + assert (Hne : OfferID o <> OfferID x).
      { intros E. destruct (Hcaps o Hin E) as [Ed Et]. specialize (Hroom n). unfold has_room in Hroom. rewrite <- E, <- Ed, <- Et, Hover in Hroom. done. }
      unfold eligible, offerExcluded in He |- *. apply andb_true_iff in He as [-> He]. cbn in He |- *.
      apply negb_true_iff, andb_false_iff in He. apply negb_true_iff, andb_false_iff.
      destruct He as [He|He%bool_decide_eq_false]; [by left|right]. apply bool_decide_eq_false_2. set_solver.
    + intros j. rewrite (has_room_ext (click_counts r)); [apply Hroom|done].
    + rewrite Forall_forall in Ho. pose proof (exclude_shrinks (Offers path) exclude o Hin Heo (Ho o Hin)). lia.
Qed.

(** C21: full offers do not lose a click: when the visitor's flow has a path
    for it with at most eight offers to show, of which one still has room on
    the day, and Redis answers, the click gets a lander and one of these
    offers, however many of the others are full. *)
Theorem landing_found landers offers conv clicks meta raw mode s table e inputs r pi path i x :
  let ctx := flowSelectContextFromEvent (Geo e) (UA e) (AcceptLang e) in
  buildFlowSnapshot landers offers conv clicks meta raw mode = Some s -> table !! CampaignID e = Some s ->
  CampaignID e <> Nil -> UserID e <> "" ->
  Forall (fun l => LanderID l <> Nil) (Landers path) -> Forall (fun o => OfferID o <> Nil) (Offers path) ->
  selectWeightedFlowFiltered (Paths s) ctx (fnv1a32 (bytes (UserID e))) = Some pi -> Paths s !! pi = Some path ->
  (forall j k, a_oks (inputs j) k = true) ->
  Offers path !! i = Some x -> eligible ∅ x = true -> (forall j, has_room (click_counts r) (a_date (inputs j)) x = true) ->
  (length (List.filter (eligible ∅) (Offers path)) <= 8)%nat ->
  exists r' sel url, selectFlowLandingWithClickCaps sort (Some table) e inputs r = (r', Some (sel, url)) /\
    exists o, o ∈ Offers path /\ sOfferID sel = OfferID o /\ eligible ∅ o = true.
Proof using sort_perm.
  cbv zeta. intros Hb Ht Hc Hu Hl Ho Hpi Hp Hok Hx He Hroom Hn. unfold selectFlowLandingWithClickCaps.
  rewrite (bool_decide_eq_false_2 (CampaignID e = Nil)), (bool_decide_eq_false_2 (UserID e = "")) by done. cbn -[click_attempts maxAttempts].
  pose proof (build_wf _ _ _ _ _ _ _ _ Hb) as Hwf. unfold snapshot_wf in Hwf. rewrite Forall_lookup in Hwf.
  assert (Hin : path ∈ Paths s) by (by eapply list_elem_of_lookup_2).
  apply (attempts_found maxAttempts (Some table) table e inputs ∅ r s pi path i x); try done.
  - unfold bytes. by destruct (UserID e).
  - by apply (Hwf pi).
  - intros o Hoin E. rewrite Forall_forall in Ho. specialize (Ho o Hoin) as Hno.
    destruct (build_caps _ _ _ _ _ _ _ _ path o Hb Hin Hoin Hno) as [-> ->].
    destruct (build_caps _ _ _ _ _ _ _ _ path x Hb Hin (list_elem_of_lookup_2 _ _ _ Hx) ltac:(congruence)) as [-> ->].
    by rewrite E.
Qed.

End attempts.

Definition demo_event : Event := mkEvent "c" "u" "click-1" "1.2.3.4" "Mozilla" "DE" "de".
Definition answers : nat -> Attempt := fun _ => mkAttempt (mkLuck true 2) "2026-01-01" (fun _ => true).
Definition demo_redis : Redis := mkRedis ∅ {[("o3", None) := 5]}.

(** The preferred offer is full: the click goes to the other one. *)
Lemma landing_found_witness :
  exists r' sel url,
    selectFlowLandingWithClickCaps sort_by (Some {["c" := demo_snapshot]}) demo_event answers demo_redis = (r', Some (sel, url)) /\
    exists o, o ∈ Offers (nth 0 (Paths demo_snapshot) (mkPath 0 RotationWeighted (mkFilters [] 0 0 []) [] [])) /\
      sOfferID sel = OfferID o /\ eligible ∅ o = true.
Proof.
  refine (landing_found sort_by sort_by_perm {["l1" := "https://l1"]} ∅ ∅ ∅ demo_meta demo_flow "waterfall" demo_snapshot
            {["c" := demo_snapshot]} demo_event answers demo_redis 0 _ 0 (mkOffer "o1" 30 2 0 5 "" false)
            _ _ _ _ _ _ _ _ _ _ _ _ _); try (vm_compute; reflexivity); try discriminate.
  - vm_compute. repeat constructor. discriminate.
  - vm_compute. repeat constructor; discriminate.
  - vm_compute. repeat constructor.
Defined.

(** Nine offers in the order of their priority, the first eight full. *)
Definition nine_offers : list FlowOfferEntry :=
  map (fun p => mkOffer (fst p) 10 (snd p) 0 5 "" false)
    [("o1", 1); ("o2", 2); ("o3", 3); ("o4", 4); ("o5", 5); ("o6", 6); ("o7", 7); ("o8", 8); ("o9", 9)].
Definition nine_snapshot : FlowPathSnapshot :=
  mkSnapshot FlowWaterfallThenLanding
    [mkPath 1 RotationWeighted (mkFilters [] 0 0 []) [mkLander "l1" 1 "https://l1"] nine_offers].
Definition eight_full : Redis :=
  mkRedis ∅ (list_to_map (map (fun o => ((o, @None string), 5)) ["o1"; "o2"; "o3"; "o4"; "o5"; "o6"; "o7"; "o8"])).

(** With one offer more than that a click is lost: eight full offers before
    it use up the attempts, though the ninth has room and the flow would
    even do with the lander alone. *)
Theorem ninth_offer_unreached :
  (exists o, nine_offers !! 8%nat = Some o /\ eligible ∅ o = true /\ has_room (click_counts eight_full) "2026-01-01" o = true) /\
  snd (selectFlowLandingWithClickCaps sort_by (Some {["c" := nine_snapshot]}) demo_event answers eight_full) = None /\
  snd (SelectSnapshotExcluding sort_by nine_snapshot [117] anywhere None (mkLuck true 2)
         {["o1"; "o2"; "o3"; "o4"; "o5"; "o6"; "o7"; "o8"]} eight_full) <> None.
Proof.
  split_and!; [eexists; split_and!; [reflexivity|reflexivity|reflexivity]|vm_compute; reflexivity|vm_compute; discriminate].
Qed.

(** A returning visitor is not recognised: what a click marks as seen is kept
    under its click id when it has one, so a later click of the same user
    reads another set. *)
Theorem rotation_follows_click_id e e' :
  TrimSpace (ClickID e) <> "" -> TrimSpace (ClickID e') <> "" -> TrimSpace (ClickID e) <> TrimSpace (ClickID e') ->
  CampaignID e <> Nil -> UserID e = UserID e' -> CampaignID e = CampaignID e' ->
  RotationSeenRedisKey (CampaignID e) (flowVisitorKey e) <> RotationSeenRedisKey (CampaignID e') (flowVisitorKey e').
Proof.
  intros H1 H2 Hne Hc _ <-. unfold flowVisitorKey, RotationSeenRedisKey.
  rewrite (bool_decide_eq_false_2 (TrimSpace (ClickID e) = "")), (bool_decide_eq_false_2 (TrimSpace (ClickID e') = "")),
    (bool_decide_eq_false_2 (CampaignID e = Nil)) by done. cbn.
  rewrite (bool_decide_eq_false_2 (TrimSpace (ClickID e) = "")), (bool_decide_eq_false_2 (TrimSpace (ClickID e') = "")) by done.
  congruence.
Qed.

Lemma rotation_follows_click_id_witness :
  RotationSeenRedisKey "c" (flowVisitorKey demo_event) <>
  RotationSeenRedisKey "c" (flowVisitorKey (mkEvent "c" "u" "click-2" "1.2.3.4" "Mozilla" "DE" "de")).
Proof.
  apply (rotation_follows_click_id demo_event (mkEvent "c" "u" "click-2" "1.2.3.4" "Mozilla" "DE" "de")); done.
Defined.

(** A lost answer spends the cap: the call fails, its click stays counted. *)
Theorem lost_answer_spends_cap c offer date :
  offer <> Nil -> 
  let '(c', answer) := ReserveOfferClick offer 0 1 date (fun i => (i <? 2)%nat) c in
  answer = None /\ counter c' (offer, None) = counter c (offer, None) + 1.
Proof.
  intros H. unfold ReserveOfferClick. rewrite bool_decide_eq_false_2 by done. cbn -[bump counter over_caps]. split; [done|].
  rewrite !counter_bump. repeat case_bool_decide; try congruence.
Qed.

End FlowRouting.
