(* ===== verification/OperationLease.v ===== *)
(** * Operation leases

    Models the lease worker of [internal/shardadmin] ([lease_types.go],
    [lease_store.go], [lease_worker.go], [lease_poll.go]) with its tables
    ([00055_operation_leases.sql], [operation_leases.sql]), the dedup adapter
    ([internal/dedup/adapter.go], [00049_dedup_key_proposals.sql]) and the
    quorum in Redis ([pkg/regionproxy/quorum/store.go]).  A statement of
    Postgres, a transaction of Redis and a step on the epoch file are atomic;
    calls of several nodes interleave between them.  A node has its fencing
    registry and its database pool.  [NOW()] and what a call
    meets are inputs; ids are strings, the empty one [uuid.Nil]. *)

From stdpp Require Import gmap pretty.
From S2P Require Import Prelude.
From Stdlib Require Import Ascii.
Open Scope string_scope.
Open Scope Z_scope.

Module OperationLease.

#[local] Abbreviation UUID := string (only parsing).
#[local] Abbreviation Node := string (only parsing).
Definition Nil : UUID := "".

(** ** Dedup proposals *)

Record Scope := mkScope { RegionID : UUID; SourceID : UUID; SourceEpoch : Z; SeqStart : Z; SeqEnd : Z }.
#[export] Instance Scope_eq_dec : EqDecision Scope.
Proof. solve_decision. Defined.
#[export] Instance Scope_countable : Countable Scope.
Proof.
  refine (inj_countable' (fun s => (RegionID s, SourceID s, SourceEpoch s, SeqStart s, SeqEnd s))
                         (fun '(a, b, c, d, e) => mkScope a b c d e) _).
  by intros [].
Defined.

Inductive PStatus := Pending | Confirmed | Rejected.
Record Proposal := mkProposal { p_factor_u : UUID; p_factor_d : UUID; p_key : string; p_status : PStatus; p_created : Z }.

Inductive Outcome := OutcomeConfirmed | OutcomeAlreadyConfirmed | OutcomeHashMismatch | OutcomeRejected | OutcomePending.
#[export] Instance Outcome_eq_dec : EqDecision Outcome.
Proof. solve_decision. Defined.

Record ClaimResult := mkClaim { cOutcome : Outcome; FactorD : UUID; DedupKey : string; cScope : Scope; cFactorU : UUID }.

Definition FormatCanonical (s : Scope) (u d : UUID) : string :=
  "v2|" ++ RegionID s ++ "|" ++ SourceID s ++ "|" ++ pretty (SourceEpoch s) ++ "|" ++ pretty (SeqStart s) ++ "|" ++
  pretty (SeqEnd s) ++ "|" ++ u ++ "|" ++ d.

(** 24 hours, in seconds as all times. *)
Definition pending_ttl : Z := 86400.

(** [dedup_claim_confirm]; [d] is what [gen_random_uuid] draws. *)
Definition dedup_claim_confirm (now : Z) (d : UUID) (s : Scope) (u : UUID) (ps : gmap Scope Proposal)
    : (Outcome * UUID * string) * gmap Scope Proposal :=
  let key := FormatCanonical s u d in
  match ps !! s with
  | None => ((OutcomeConfirmed, d, key), <[s := mkProposal u d key Confirmed now]> ps)
  | Some r =>
      let reject := <[s := mkProposal (p_factor_u r) (p_factor_d r) (p_key r) Rejected (p_created r)]> ps in
      match p_status r with
      | Rejected => ((OutcomeRejected, Nil, p_key r), ps)
      | Confirmed =>
          if bool_decide (p_factor_u r = u) then ((OutcomeAlreadyConfirmed, p_factor_d r, p_key r), ps)
          else ((OutcomeHashMismatch, Nil, p_key r), ps)
      | Pending =>
          if p_created r <? now - pending_ttl then ((OutcomeRejected, Nil, p_key r), reject)
          else if bool_decide (p_factor_u r = u) then
            ((OutcomeConfirmed, d, key), <[s := mkProposal u d key Confirmed (p_created r)]> ps)
          else ((OutcomeHashMismatch, Nil, p_key r), reject)
      end
  end.

Definition ShouldApply (c : ClaimResult) : bool :=
  match cOutcome c with OutcomeConfirmed | OutcomeAlreadyConfirmed => true | _ => false end.

Inductive Err := ErrHashMismatch | ErrRejected | ErrPending | ErrStaleFencingEpoch | ErrLeaseQuorumNotMet
  | ErrLeaseRenewExhausted | ErrOpKeyPoolShed | ErrNoRows | ErrNotAuthoritative | ErrInvalid | ErrIO.

Definition GuardOutcome (c : ClaimResult) : option Err :=
  match cOutcome c with
  | OutcomeHashMismatch => Some ErrHashMismatch | OutcomeRejected => Some ErrRejected
  | OutcomePending => Some ErrPending | _ => None
  end.

(** ** Leases *)

Inductive LeaseState := LeaseStateBooked | LeaseStateExecuting | LeaseStateCompleted | LeaseStateExpired.
#[export] Instance LeaseState_eq_dec : EqDecision LeaseState.
Proof. solve_decision. Defined.

Record Lease := mkLease {
  Region : Z; Role : string; ReplicaSetID : UUID; Attempt : Z; FactorU : UUID; DedupScope : Scope * Z;
  State : LeaseState; ExecutorNodeID : option Node; FencingEpoch : Z; DeadlineAt : Z; RenewCount : Z;
  CompletedAt : option Z }.

(** The tables; a replica row has its acknowledgement or not. *)
Record DB := mkDB {
  leases : gmap UUID Lease; replicas : gmap (UUID * Node) bool; proposals : gmap Scope Proposal;
  sync_idempotency : gset string }.

Definition with_leases (ls : gmap UUID Lease) (d : DB) : DB := mkDB ls (replicas d) (proposals d) (sync_idempotency d).
Definition with_replicas (rs : gmap (UUID * Node) bool) (d : DB) : DB := mkDB (leases d) rs (proposals d) (sync_idempotency d).

Record BookRequest := mkRequest {
  OpID : UUID; RegionCode : Z; bRole : string; bReplicaSetID : UUID; bAttempt : Z; bFactorU : UUID; bScope : Scope;
  ReplicaNodes : list Node; BookAckNodes : list Node }.

(** [operation_leases_attempt_uniq]. *)
Definition attempt_taken (set : UUID) (attempt : Z) (ls : gmap UUID Lease) : bool :=
  List.existsb (fun r => bool_decide (ReplicaSetID (snd r) = set) && (Attempt (snd r) =? attempt)) (map_to_list ls).

(** [None] is a unique violation. *)
Definition BookOperationLease (now timeoutSec : Z) (q : BookRequest) (d : DB) : option (Lease * DB) :=
  if bool_decide (is_Some (leases d !! OpID q)) || attempt_taken (bReplicaSetID q) (bAttempt q) (leases d) then None
  else
    let l := mkLease (RegionCode q) (bRole q) (bReplicaSetID q) (bAttempt q) (bFactorU q) (bScope q, bAttempt q)
               LeaseStateBooked None 0 (now + timeoutSec) 0 None in
    Some (l, with_leases (<[OpID q := l]> (leases d)) d).

Definition InsertReplica (op : UUID) (n : Node) (d : DB) : DB :=
  with_replicas (match replicas d !! (op, n) with Some _ => replicas d | None => <[(op, n) := false]> (replicas d) end) d.
(** The replica rows refer to the leases: an acknowledgement of an op that is
    not booked violates the foreign key. *)
Definition UpsertReplicaBookAck (op : UUID) (n : Node) (d : DB) : option DB :=
  match leases d !! op with
  | Some _ => Some (with_replicas (<[(op, n) := true]> (replicas d)) d)
  | None => None
  end.

Definition replicas_of (op : UUID) (d : DB) : list bool :=
  omap (fun r => if bool_decide (fst (fst r) = op) then Some (snd r) else None) (map_to_list (replicas d)).
Definition CountReplicas (op : UUID) (d : DB) : Z := zlen (replicas_of op d).
Definition CountBookAcks (op : UUID) (d : DB) : Z := zlen (List.filter id (replicas_of op d)).

Definition set_state (l : Lease) (s : LeaseState) (e : option Node) (epoch : Z) : Lease :=
  mkLease (Region l) (Role l) (ReplicaSetID l) (Attempt l) (FactorU l) (DedupScope l) s e epoch (DeadlineAt l)
    (RenewCount l) (CompletedAt l).

(** [operation_lease_claim_executing]: whether a row was returned. *)
Definition OperationLeaseClaimExecuting (now : Z) (op : UUID) (n : Node) (epoch : Z) (d : DB) : bool * DB :=
  match leases d !! op with
  | Some l =>
      if bool_decide (State l = LeaseStateBooked) && (now <? DeadlineAt l) then
        (true, with_leases (<[op := set_state l LeaseStateExecuting (Some n) epoch]> (leases d)) d)
      else (false, d)
  | None => (false, d)
  end.

Definition RenewOperationLease (now timeoutSec maxRenewals : Z) (op : UUID) (n : Node) (d : DB) : option (Lease * DB) :=
  match leases d !! op with
  | Some l =>
      if bool_decide (State l = LeaseStateExecuting) && bool_decide (ExecutorNodeID l = Some n) &&
         (RenewCount l <? maxRenewals) && (now <? DeadlineAt l) then
        let l' := mkLease (Region l) (Role l) (ReplicaSetID l) (Attempt l) (FactorU l) (DedupScope l) (State l)
                    (ExecutorNodeID l) (FencingEpoch l) (now + timeoutSec) (RenewCount l + 1) (CompletedAt l) in
        Some (l', with_leases (<[op := l']> (leases d)) d)
      else None
  | None => None
  end.

Definition CompleteOperationLease (now : Z) (op : UUID) (d : DB) : option DB :=
  match leases d !! op with
  | Some l =>
      if bool_decide (State l = LeaseStateExecuting) then
        Some (with_leases (<[op := mkLease (Region l) (Role l) (ReplicaSetID l) (Attempt l) (FactorU l) (DedupScope l)
                LeaseStateCompleted (ExecutorNodeID l) (FencingEpoch l) (DeadlineAt l) (RenewCount l) (Some now)]> (leases d)) d)
      else None
  | None => None
  end.

Definition stale (now : Z) (l : Lease) : bool :=
  bool_decide (State l ∈ [LeaseStateBooked; LeaseStateExecuting]) && (DeadlineAt l <? now).

(** [operation_lease_expire_stale] over the rows [picked]: at most [p_limit]
    stale ones, the oldest first, without those others have locked. *)
Definition OperationLeaseExpireStale (now : Z) (picked : list UUID) (d : DB) : DB :=
  with_leases (foldl (fun ls op => match ls !! op with
    | Some l => if stale now l then <[op := set_state l LeaseStateExpired (ExecutorNodeID l) (FencingEpoch l)]> ls else ls
    | None => ls end) (leases d) picked) d.

(** ** Pure helpers of the worker *)

Definition defaultLeaseQuorum : Z := 2.
Definition QuorumRequired (n : Z) : Z := if n <=? 1 then 1 else defaultLeaseQuorum.

Definition ScopeWithAttempt (s : Scope) (attempt : Z) : Scope :=
  let attempt := if attempt <? 1 then 1 else attempt in
  if attempt =? 1 then s
  else
    let shift q := i64 (q *64 1000 + attempt) in
    if SeqStart s =? SeqEnd s then mkScope (RegionID s) (SourceID s) (SourceEpoch s) (shift (SeqStart s)) (shift (SeqStart s))
    else mkScope (RegionID s) (SourceID s) (SourceEpoch s) (shift (SeqStart s)) (shift (SeqEnd s)).

Definition DedupScopeForLease (l : Lease) : Scope :=
  let '(base, attempt) := DedupScope l in
  ScopeWithAttempt base (if attempt <=? 0 then Attempt l else attempt).

(** Whether the lease is this node's to execute. *)
Definition AuthoritativeLeaseView (l : Lease) (n : Node) (now : Z) : bool :=
  bool_decide (State l = LeaseStateExecuting) && (now <? DeadlineAt l) && bool_decide (ExecutorNodeID l = Some n).

(** ** The quorum in Redis *)

Record QLease := mkQLease { q_state : LeaseState; q_count : Z; q_acks : gset Node }.
#[local] Abbreviation QStore := (gmap UUID QLease).
Record Status := mkStatus { AckCount : Z; Quorum : Z; QuorumMet : bool }.

(** [AckBook] and [Book] write the same: the count, and one node's
    acknowledgement. *)
Definition ack_book (op : UUID) (count : Z) (n : Node) (q : QStore) : QStore :=
  let old := default (mkQLease LeaseStateBooked 0 ∅) (q !! op) in
  <[op := mkQLease (q_state old) count ({[n]} ∪ q_acks old)]> q.

Definition readStatus (op : UUID) (count : Z) (q : QStore) : Status :=
  let '(stored, acks) := match q !! op with Some l => (q_count l, Z.of_nat (size (q_acks l))) | None => (0, 0) end in
  let count := if 0 <? stored then stored else if count <=? 0 then 1 else count in
  mkStatus acks (QuorumRequired count) (QuorumRequired count <=? acks).

Definition AckBook (op : UUID) (count : Z) (n : Node) (q : QStore) : QStore * Status :=
  let count := if count <=? 0 then 1 else count in
  let q := ack_book op count n q in (q, readStatus op count q).
Definition Book (op : UUID) (nodes : list Node) (n : Node) (q : QStore) : QStore * Status :=
  let count := if zlen nodes =? 0 then 1 else zlen nodes in
  let q := ack_book op count n q in (q, readStatus op count q).

(** ** Fencing epochs

    A node's store for a replica set: the epoch in memory and the one in the
    file.  [Next] is an atomic addition and then the file, written aside and
    renamed; a restart reads the file. *)
Record FStore := mkFStore { mem : Z; disk : Z }.
#[local] Abbreviation Fencing := (gmap (Node * UUID) FStore).

Definition fstore (f : Fencing) (k : Node * UUID) : FStore := default (mkFStore 0 0) (f !! k).
Definition fence_add (k : Node * UUID) (f : Fencing) : Z * Fencing :=
  let s := fstore f k in let e := mem s +u64 1 in (e, <[k := mkFStore e (disk s)]> f).
Definition fence_persist (k : Node * UUID) (epoch : Z) (f : Fencing) : Fencing :=
  let s := fstore f k in <[k := mkFStore (mem s) epoch]> f.
Definition fence_reload (k : Node * UUID) (f : Fencing) : Fencing :=
  let s := fstore f k in <[k := mkFStore (disk s) (disk s)]> f.

Definition Validate (f : Fencing) (k : Node * UUID) (epoch : Z) : bool :=
  let floor := mem (fstore f k) in
  (floor =? 0) || ((0 <? epoch) && (floor <=? epoch)).

(** ** What a call meets

    [pg_up] answers the ping; [reply] is [false] when a statement fails,
    [effect] whether it ran all the same and [cut] whether the failure is the
    caller's context ending; [now] is the clock of Postgres, [clock] that of
    the node, [fresh] a random id; [more] is for the operation itself. *)
Record In := mkIn {
  pg_up : bool; has_redis : bool; reply : bool; effect : bool; cut : bool; now : Z; clock : Z; fresh : UUID;
  more : nat -> bool }.

Definition isPostgresUnavailable (i : In) : bool := negb (cut i).

(** The settings of a worker. *)
Record Worker := mkWorker { nodeID : Node; timeoutSec : Z; maxRenewals : Z }.

Section worker.
(** The operation that is executed, on a state of its own. *)
Context {R : Type} (execute : UUID -> ClaimResult -> In -> R -> R * option Err).

(** [executed] lists the operations that were run. *)
Record World := mkWorld {
  db : DB; qstore : gmap UUID QLease; fence : gmap (Node * UUID) FStore;
  executed : list (UUID * Node * ClaimResult); rest : R }.

Definition with_db (d : DB) (w : World) : World := mkWorld d (qstore w) (fence w) (executed w) (rest w).
Definition with_q (q : gmap UUID QLease) (w : World) : World := mkWorld (db w) q (fence w) (executed w) (rest w).
Definition with_fence (f : gmap (Node * UUID) FStore) (w : World) : World := mkWorld (db w) (qstore w) f (executed w) (rest w).

(** A statement that runs and is answered, runs unanswered or does not run. *)
Definition on_db (i : In) (d' : DB) (w : World) : World := if reply i || effect i then with_db d' w else w.

Definition quorumStatusRedis (i : In) (op : UUID) (count : Z) (w : World) : Status + Err :=
  if negb (has_redis i) then inr ErrLeaseQuorumNotMet
  else inl (readStatus op (if count <=? 0 then 1 else count) (qstore w)).

(** ** [ExecuteOp]

    A program counter per call of Postgres, of Redis or on the epoch file. *)
Inductive xpc :=
  | XQuorum | XAcks (count : Z) | XRead | XFence (rs : UUID) | XPersist (rs : UUID) (e : Z) | XClaim (rs : UUID) (e : Z)
  | XRead1 (rs : UUID) | XConfirm (rs : UUID) (s : Scope) (u : UUID) | XResume (rs : UUID) (c : ClaimResult)
  | XRead2 (rs : UUID) (c : ClaimResult) | XExec (c : ClaimResult) | XRecord (c : ClaimResult) | XComplete
  | XDone (r : option Err).

Record Proc := mkProc { pOp : UUID; pNode : Node; pPC : xpc }.

(** A quorum that is not met ends the call without an error. *)
Definition on_status (s : Status + Err) : xpc :=
  match s with inl st => if QuorumMet st then XRead else XDone None | inr e => XDone (Some e) end.
Definition redis_status (i : In) (op : UUID) (count : Z) (w : World) : xpc :=
  if isPostgresUnavailable i then on_status (quorumStatusRedis i op count w) else XDone (Some ErrIO).

(** The lease, if it is still this node's and its epoch not superseded. *)
Definition read_authoritative (i : In) (p : Proc) (rs : UUID) (w : World) : Lease + Err :=
  if negb (reply i) then inr ErrIO
  else match leases (db w) !! pOp p with
  | None => inr ErrNoRows
  | Some l =>
      if negb (AuthoritativeLeaseView l (pNode p) (clock i)) then inr ErrNotAuthoritative
      else if negb (Validate (fence w) (pNode p, rs) (FencingEpoch l)) then inr ErrStaleFencingEpoch
      else inl l
  end.

Definition exec_step (i : In) (p : Proc) (w : World) : xpc * World :=
  let op := pOp p in
  match pPC p with
  | XQuorum =>
      (if negb (pg_up i) then on_status (quorumStatusRedis i op 3 w)
       else if reply i then XAcks (CountReplicas op (db w)) else redis_status i op 3 w, w)
  | XAcks n =>
      (if reply i then
         let acks := CountBookAcks op (db w) in
         on_status (inl (mkStatus acks (QuorumRequired n) (QuorumRequired n <=? acks)))
       else redis_status i op n w, w)
  | XRead =>
      (if negb (reply i) then XDone (Some ErrIO)
       else match leases (db w) !! op with
            | Some l => if bool_decide (ReplicaSetID l = Nil) then XDone (Some ErrInvalid) else XFence (ReplicaSetID l)
            | None => XDone (Some ErrNoRows) end, w)
  | XFence rs => let '(e, f) := fence_add (pNode p, rs) (fence w) in (XPersist rs e, with_fence f w)
  | XPersist rs e =>
      (if reply i then XClaim rs (i64 e) else XDone (Some ErrIO),
       if reply i || effect i then with_fence (fence_persist (pNode p, rs) e (fence w)) w else w)
  | XClaim rs e =>
      let '(won, d) := OperationLeaseClaimExecuting (now i) op (pNode p) e (db w) in
      (if negb (reply i) then XDone (Some ErrIO) else if won then XRead1 rs else XDone None, on_db i d w)
  | XRead1 rs =>
      (match read_authoritative i p rs w with inl l => XConfirm rs (DedupScopeForLease l) (FactorU l) | inr e => XDone (Some e) end, w)
  | XConfirm rs s u =>
      let '(o, d, key, ps) := dedup_claim_confirm (now i) (fresh i) s u (proposals (db w)) in
      let c := mkClaim o d key s u in
      let w' := on_db i (mkDB (leases (db w)) (replicas (db w)) ps (sync_idempotency (db w))) w in
      (if negb (reply i) then XDone (Some ErrIO)
       else match GuardOutcome c with
            | Some e => XDone (Some e)
            | None => match o with OutcomeAlreadyConfirmed => XResume rs c | _ => if ShouldApply c then XRead2 rs c else XComplete end
            end, w')
  | XResume rs c =>
      (if bool_decide (DedupKey c = "") then XRead2 rs c
       else if negb (reply i) then XDone (Some ErrIO)
       else if bool_decide (DedupKey c ∈ sync_idempotency (db w)) then XComplete else XRead2 rs c, w)
  | XRead2 rs c =>
      (match read_authoritative i p rs w with inl _ => XExec c | inr e => XDone (Some e) end, w)
  | XExec c =>
      let '(r, err) := execute op c i (rest w) in
      (match err with Some e => XDone (Some e) | None => XRecord c end,
       mkWorld (db w) (qstore w) (fence w) (executed w ++ [(op, pNode p, c)]) r)
  | XRecord c =>
      if bool_decide (DedupKey c = "") then (XComplete, w)
      else
        (if reply i then XComplete else XDone (Some ErrIO),
         on_db i (mkDB (leases (db w)) (replicas (db w)) (proposals (db w)) ({[DedupKey c]} ∪ sync_idempotency (db w))) w)
  | XComplete =>
      match CompleteOperationLease (now i) op (db w) with
      | Some d => (if reply i then XDone None else XDone (Some ErrIO), on_db i d w)
      | None => (XDone (Some (if reply i then ErrNoRows else ErrIO)), w)
      end
  | XDone r => (XDone r, w)
  end.

Fixpoint exec_run (fuel : nat) (ins : nat -> In) (p : Proc) (w : World) : xpc * World :=
  match fuel with
  | O => (pPC p, w)
  | S fuel => let '(q, w) := exec_step (ins O) p w in exec_run fuel (fun k => ins (S k)) (mkProc (pOp p) (pNode p) q) w
  end.

(** Thirteen steps: each goes forward. *)
Definition exec_fuel : nat := 13.
Definition ExecuteOp (ins : nat -> In) (n : Node) (op : UUID) (w : World) : xpc * World :=
  exec_run exec_fuel ins (mkProc op n XQuorum) w.

(** ** Booking *)

(** Statements in order; [None] when one fails, with what ran before it. *)
Fixpoint run_stmts (ins : nat -> In) (l : list (In -> DB -> option DB)) (w : World) : bool * World :=
  match l with
  | [] => (true, w)
  | st :: l =>
      match st (ins O) (db w) with
      | Some d => let w' := on_db (ins O) d w in
                  if reply (ins O) then run_stmts (fun k => ins (S k)) l w' else (false, w')
      | None => (false, w)
      end
  end.

(** The acknowledgements one by one, until the quorum is met. *)
Fixpoint ack_redis (op : UUID) (count : Z) (nodes : list Node) (q : gmap UUID QLease) : gmap UUID QLease * option Status :=
  match nodes with
  | [] => (q, None)
  | n :: nodes =>
      let '(q, st) := AckBook op count n q in if QuorumMet st then (q, Some st) else ack_redis op count nodes q
  end.

(** [BookRequest] with the status the booking came to: [ErrLeaseQuorumNotMet]
    comes with one. *)
Definition bookRedis (i : In) (wk : Worker) (q : BookRequest) (w : World) : (Status * option Err) * World :=
  let none := mkStatus 0 0 false in
  if negb (has_redis i) then ((none, Some ErrLeaseQuorumNotMet), w)
  else if negb (reply i) then ((none, Some ErrIO), w)
  else
    let nodes := if bool_decide (ReplicaNodes q = []) then [nodeID wk] else ReplicaNodes q in
    let '(qs, met) := ack_redis (OpID q) (zlen nodes) (BookAckNodes q) (qstore w) in
    match met with
    | Some st => ((st, None), with_q qs w)
    | None => let '(qs, st) := Book (OpID q) nodes (nodeID wk) qs in
              ((st, if QuorumMet st then None else Some ErrLeaseQuorumNotMet), with_q qs w)
    end.

Definition book_stmts (wk : Worker) (q : BookRequest) (acks : list Node) : list (In -> DB -> option DB) :=
  (fun i d => snd <$> BookOperationLease (now i) (timeoutSec wk) q d) ::
  map (fun n _ d => Some (InsertReplica (OpID q) n d)) (ReplicaNodes q) ++
  map (fun n _ d => UpsertReplicaBookAck (OpID q) n d) acks.

(** [quorumStatus] where every call is answered or none. *)
Definition quorumStatus (i : In) (op : UUID) (w : World) : Status + Err :=
  if negb (pg_up i) then quorumStatusRedis i op 3 w
  else if reply i then
    let n := CountReplicas op (db w) in
    let acks := CountBookAcks op (db w) in
    inl (mkStatus acks (QuorumRequired n) (QuorumRequired n <=? acks))
  else if isPostgresUnavailable i then quorumStatusRedis i op 3 w else inr ErrIO.

Definition normalized (wk : Worker) (q : BookRequest) : BookRequest :=
  mkRequest (OpID q) (RegionCode q) (bRole q) (bReplicaSetID q) (if bAttempt q <=? 0 then 1 else bAttempt q) (bFactorU q) (bScope q)
    (if bool_decide (ReplicaNodes q = []) then [nodeID wk] else ReplicaNodes q) (BookAckNodes q).

Definition no_status : Status := mkStatus 0 0 false.

(** [Book] of the worker: [i0] is the first ping, [ins] the statements, [i1]
    the ping after a failed one, [i2] the status. *)
Definition BookLease (shed : bool) (i0 : In) (ins : nat -> In) (i1 i2 : In) (wk : Worker) (q : BookRequest) (w : World)
    : (Status * option Err) * World :=
  if shed then ((no_status, Some ErrOpKeyPoolShed), w)
  else if bool_decide (OpID q = Nil) || bool_decide (bReplicaSetID q = Nil) then ((no_status, Some ErrInvalid), w)
  else
    let q := normalized wk q in
    let acks := if bool_decide (BookAckNodes q = []) && (zlen (ReplicaNodes q) =? 1) then ReplicaNodes q else BookAckNodes q in
    if negb (pg_up i0) then bookRedis i0 wk q w
    else
      let '(ran, w) := run_stmts ins (book_stmts wk q acks) w in
      if negb ran then
        if negb (pg_up i1) || isPostgresUnavailable i1 then bookRedis i1 wk q w else ((no_status, Some ErrIO), w)
      else
        match quorumStatus i2 (OpID q) w with
        | inr e => ((no_status, Some e), w)
        | inl st => ((st, if QuorumMet st then None else Some ErrLeaseQuorumNotMet), w)
        end.

Definition EnsureBook (shed : bool) (g i0 : In) (ins : nat -> In) (i1 i2 : In) (wk : Worker) (q : BookRequest) (w : World)
    : (Status * option Err) * World :=
  if negb (reply g) then ((no_status, Some ErrIO), w)
  else
    match leases (db w) !! OpID q with
    | Some _ => (match quorumStatus i0 (OpID q) w with inl st => (st, None) | inr e => (no_status, Some e) end, w)
    | None =>
        let '((st, err), w) := BookLease shed i0 ins i1 i2 wk q w in
        ((st, match err with Some ErrLeaseQuorumNotMet => None | _ => err end), w)
    end.

Definition AckBookLease (i0 i i1 : In) (op : UUID) (n : Node) (wk : Worker) (w : World) : (Status * option Err) * World :=
  let n := if bool_decide (n = "") then nodeID wk else n in
  let redis i w := if negb (has_redis i) then ((no_status, Some ErrLeaseQuorumNotMet), w)
                   else let '(qs, st) := AckBook op 3 n (qstore w) in ((st, None), with_q qs w) in
  if negb (pg_up i0) then redis i0 w
  else
    let '(ran, w) := run_stmts (fun _ => i) [fun _ d => UpsertReplicaBookAck op n d] w in
    if negb ran then if negb (pg_up i1) || isPostgresUnavailable i then redis i1 w else ((no_status, Some ErrIO), w)
    else match quorumStatus i1 op w with inl st => ((st, None), w) | inr e => ((no_status, Some e), w) end.

Definition RenewLease (i : In) (wk : Worker) (op : UUID) (w : World) : option Err * World :=
  match RenewOperationLease (now i) (timeoutSec wk) (maxRenewals wk) op (nodeID wk) (db w) with
  | Some (_, d) => (if reply i then None else Some ErrIO, on_db i d w)
  | None => (if reply i then Some ErrLeaseRenewExhausted else Some ErrIO, w)
  end.

(** [RunJanitor]: one at a time in a region, by an advisory lock. *)
Definition RunJanitor (locked : bool) (picked : list UUID) (i : In) (w : World) : World :=
  if locked then w else on_db i (OperationLeaseExpireStale (now i) picked (db w)) w.

(** ** Interleavings

    Calls of [ExecuteOp] on several nodes, with bookings, acknowledgements,
    renewals, janitors and restarts between their steps. *)
Inductive Act :=
  | ACall (op : UUID) (n : Node) | AStep (k : nat) (i : In)
  | ABook (ins : nat -> In) (wk : Worker) (q : BookRequest) (acks : list Node)
  | AAck (op : UUID) (n : Node) | ARedis (op : UUID) (count : Z) (n : Node)
  | ARenew (i : In) (wk : Worker) (op : UUID) | AJanitor (locked : bool) (picked : list UUID) (i : In)
  | ARestart (n : Node) (rs : UUID) | ACrash (k : nat).

Definition Sys : Type := World * list Proc.

Definition act (a : Act) (s : Sys) : Sys :=
  let '(w, ps) := s in
  match a with
  | ACall op n => (w, (ps ++ [mkProc op n XQuorum])%list)
  | AStep k i =>
      match ps !! k with
      | Some p => let '(q, w) := exec_step i p w in (w, <[k := mkProc (pOp p) (pNode p) q]> ps)
      | None => (w, ps)
      end
  | ABook ins wk q acks => (snd (run_stmts ins (book_stmts wk q acks) w), ps)
  | AAck op n => (match UpsertReplicaBookAck op n (db w) with Some d => with_db d w | None => w end, ps)
  | ARedis op count n => (with_q (ack_book op count n (qstore w)) w, ps)
  | ARenew i wk op => (snd (RenewLease i wk op w), ps)
  | AJanitor locked picked i => (RunJanitor locked picked i w, ps)
  | ARestart n rs => (with_fence (fence_reload (n, rs) (fence w)) w, ps)
  | ACrash k => match ps !! k with Some p => (w, <[k := mkProc (pOp p) (pNode p) (XDone None)]> ps) | None => (w, ps) end
  end.

Definition acts (l : list Act) (s : Sys) : Sys := foldl (fun s a => act a s) s l.

(** ** An operation runs at most once

    What is counted for an operation: the calls that have claimed its lease
    and have still to run it, and the times it ran.  A lease is claimed once
    it is no longer booked. *)
Definition holds (q : xpc) : bool :=
  match q with XRead1 _ | XConfirm _ _ _ | XResume _ _ | XRead2 _ _ | XExec _ => true | _ => false end.
Definition owns (op : UUID) (p : Proc) : Z := if bool_decide (pOp p = op) && holds (pPC p) then 1 else 0.
Definition runs (op : UUID) (w : World) : Z := sumZ (map (fun e => if bool_decide (fst (fst e) = op) then 1 else 0) (executed w)).
Definition claimed (op : UUID) (d : DB) : Z :=
  match leases d !! op with Some l => if bool_decide (State l = LeaseStateBooked) then 0 else 1 | None => 0 end.

Definition once (op : UUID) (s : Sys) : Prop := sumZ (map (owns op) (snd s)) + runs op (fst s) <= claimed op (db (fst s)).

Lemma claimed_bounds op d : 0 <= claimed op d <= 1.
Proof. unfold claimed. destruct (leases d !! op); [case_bool_decide; lia|lia]. Qed.

(** A statement that rewrites one lease claims nothing back. *)
Lemma claimed_insert op op' l l' d :
  leases d !! op' = Some l -> (State l <> LeaseStateBooked -> State l' <> LeaseStateBooked) ->
  claimed op d <= claimed op (with_leases (<[op' := l']> (leases d)) d).
Proof.
  intros Hl Hs. unfold claimed. cbn. destruct (decide (op = op')) as [->|Hne]; [|by rewrite lookup_insert_ne].
  rewrite Hl, lookup_insert_eq. repeat case_bool_decide; try lia. exfalso. by apply Hs.
Qed.

Lemma claimed_book now t q d l d' op : BookOperationLease now t q d = Some (l, d') -> claimed op d <= claimed op d'.
Proof.
  unfold BookOperationLease. destruct (_ || _) eqn:E; [done|]. apply orb_false_iff in E as [E%bool_decide_eq_false _].
  intros [= <- <-]. unfold claimed. cbn. destruct (decide (op = OpID q)) as [->|Hne]; [|by rewrite lookup_insert_ne].
  rewrite lookup_insert_eq. destruct (leases d !! OpID q) eqn:El; [by destruct E|]. by case_bool_decide.
Qed.

Lemma claimed_renew now t m op' n d l d' op : RenewOperationLease now t m op' n d = Some (l, d') -> claimed op d <= claimed op d'.
Proof.
  unfold RenewOperationLease. destruct (leases d !! op') as [l0|] eqn:El; [|done]. destruct (_ && _); [|done].
  intros [= <- <-]. by eapply claimed_insert.
Qed.

Lemma claimed_complete now op' d d' op : CompleteOperationLease now op' d = Some d' -> claimed op d <= claimed op d'.
Proof.
  unfold CompleteOperationLease. destruct (leases d !! op') as [l0|] eqn:El; [|done]. case_bool_decide; [|done].
  intros [= <-]. by eapply claimed_insert.
Qed.

Lemma claimed_expire now picked d op : claimed op d <= claimed op (OperationLeaseExpireStale now picked d).
Proof.
  unfold OperationLeaseExpireStale, claimed. cbn. generalize (leases d). induction picked as [|o picked IH]; intros ls; cbn; [lia|].
  destruct (ls !! o) as [l|] eqn:El; [|apply IH]. destruct (stale now l); [|apply IH]. etransitivity; [|apply IH].
  destruct (decide (op = o)) as [->|Hne]; [|by rewrite lookup_insert_ne].
  rewrite El, lookup_insert_eq. cbn. repeat case_bool_decide; try done; lia.
Qed.

(** A claim that wins finds the lease unclaimed. *)
Lemma claimed_claim now op' n e d won d' op :
  OperationLeaseClaimExecuting now op' n e d = (won, d') ->
  claimed op d + (if won && bool_decide (op' = op) then 1 else 0) <= claimed op d'.
Proof.
  unfold OperationLeaseClaimExecuting. destruct (leases d !! op') as [l|] eqn:El; [|intros [= <- <-]; cbn; lia].
  case_bool_decide as Eb; cbn; [|intros [= <- <-]; cbn; lia].
  destruct (now <? DeadlineAt l); intros [= <- <-]; cbn; [|lia].
  unfold claimed. cbn. case_bool_decide as Eo.
  - subst op'. rewrite El, lookup_insert_eq. cbn. rewrite bool_decide_eq_true_2 by done. by rewrite bool_decide_eq_false_2.
  - rewrite lookup_insert_ne by done. lia.
Qed.

Lemma claimed_on_db i d' w op : claimed op (db w) <= claimed op d' -> claimed op (db w) <= claimed op (db (on_db i d' w)).
Proof. intros H. unfold on_db. destruct (_ || _); [exact H|lia]. Qed.

Lemma on_db_executed i d' w : executed (on_db i d' w) = executed w.
Proof. unfold on_db. by destruct (_ || _). Qed.

Lemma runs_same op w w' : executed w = executed w' -> runs op w = runs op w'.
Proof. unfold runs. by intros ->. Qed.

Lemma run_stmts_claimed ins l w op :
  Forall (fun st => forall i d d', st i d = Some d' -> claimed op d <= claimed op d') l ->
  claimed op (db w) <= claimed op (db (snd (run_stmts ins l w))) /\ executed (snd (run_stmts ins l w)) = executed w.
Proof.
  intros H. revert ins w. induction H as [|st l Hst _ IH]; intros ins w; cbn; [by split|].
  destruct (st (ins 0%nat) (db w)) as [d|] eqn:E; [|by split].
  pose proof (claimed_on_db (ins 0%nat) d w op (Hst _ _ _ E)) as Hm.
  destruct (reply (ins 0%nat)).
  - destruct (IH (fun k => ins (S k)) (on_db (ins 0%nat) d w)) as [H1 H2]. rewrite on_db_executed in H2. split; [lia|done].
  - cbn. split; [lia|apply on_db_executed].
Qed.

Lemma book_stmts_claimed wk q acks op :
  Forall (fun st => forall i d d', st i d = Some d' -> claimed op d <= claimed op d') (book_stmts wk q acks).
Proof.
  unfold book_stmts. constructor; [|apply Forall_app; split; apply Forall_map, Forall_true; intros n i d d'].
  - intros i d d' H. apply fmap_Some in H as ([l d1] & H & ->). by eapply claimed_book.
  - by intros [= <-].
  - unfold UpsertReplicaBookAck. destruct (leases d !! OpID q); [|done]. by intros [= <-].
Qed.

Lemma on_status_holds s : holds (on_status s) = false.
Proof. destruct s as [st|]; cbn; [by destruct (QuorumMet st)|done]. Qed.

Lemma redis_status_holds i op n w : holds (redis_status i op n w) = false.
Proof. unfold redis_status. destruct (isPostgresUnavailable i); [apply on_status_holds|done]. Qed.

(** A step that neither claims nor runs: it holds no more than before and
    claims nothing back. *)
Definition quiet (p : xpc) (w : World) (q : xpc) (w' : World) : Prop :=
  executed w' = executed w /\ (forall op, claimed op (db w) <= claimed op (db w')) /\ (holds q = true -> holds p = true).

Lemma quiet_same p w q : (holds q = true -> holds p = true) -> quiet p w q w.
Proof. intros ?. by unfold quiet; split_and!. Qed.

Lemma quiet_on_db p w q i d' :
  (forall op, claimed op (db w) <= claimed op d') -> (holds q = true -> holds p = true) -> quiet p w q (on_db i d' w).
Proof. intros Hd Hh. unfold quiet. split_and!; [apply on_db_executed|intros op; by apply claimed_on_db|done]. Qed.

(** What a step does to leases and runs. *)
Lemma exec_step_cases i p w q w' :
  exec_step i p w = (q, w') ->
  quiet (pPC p) w q w' \/
  (exists rs e won d, pPC p = XClaim rs e /\ OperationLeaseClaimExecuting (now i) (pOp p) (pNode p) e (db w) = (won, d) /\
     w' = on_db i d w /\ (holds q = true -> reply i = true /\ won = true)) \/
  (exists c, pPC p = XExec c /\ executed w' = (executed w ++ [(pOp p, pNode p, c)])%list /\ db w' = db w /\ holds q = false).
Proof.
  unfold exec_step. destruct p as [op n pc]. cbn [pOp pNode pPC]. destruct pc as [|c| |rs|rs e|rs e|rs|rs s u|rs c|rs c|c|c| |r].
  - intros [= <- <-]. left. apply quiet_same. destruct (pg_up i); cbn; [destruct (reply i)|].
    all: by rewrite ?redis_status_holds, ?on_status_holds.
  - intros [= <- <-]. left. apply quiet_same. cbv zeta. destruct (reply i); [by destruct (_ <=? _)|by rewrite redis_status_holds].
  - intros [= <- <-]. left. apply quiet_same. destruct (reply i); [|done]. cbn. destruct (leases (db w) !! op); [|done].
    by case_bool_decide.
  - intros [= <- <-]. left. by unfold quiet; split_and!.
  - intros [= <- <-]. left. unfold quiet. split_and!; [by destruct (_ || _)|by destruct (_ || _)|by destruct (reply i)].
  - destruct (OperationLeaseClaimExecuting _ _ _ _ _) as [won d] eqn:E. intros [= <- <-]. right. left.
    exists rs, e, won, d. split_and!; [done..|]. by destruct (reply i), won.
  - intros [= <- <-]. left. by apply quiet_same.
  - destruct (dedup_claim_confirm _ _ _ _ _) as [[[o d] key] ps]. intros [= <- <-]. left. by apply quiet_on_db.
  - intros [= <- <-]. left. by apply quiet_same.
  - intros [= <- <-]. left. by apply quiet_same.
  - destruct (execute op c i (rest w)) as [r err]. intros [= <- <-]. right. right. exists c. split_and!; try done. by destruct err.
  - case_bool_decide; intros [= <- <-]; left; [by apply quiet_same|]. apply quiet_on_db; [done|]. by destruct (reply i).
  - destruct (CompleteOperationLease _ _ _) as [d|] eqn:E; intros [= <- <-]; left; [|by apply quiet_same].
    apply quiet_on_db; [intros op'; by eapply claimed_complete|]. by destruct (reply i).
  - intros [= <- <-]. left. by apply quiet_same.
Qed.

Lemma runs_app op w w' e : executed w' = (executed w ++ [e])%list -> runs op w' = runs op w + (if bool_decide (fst (fst e) = op) then 1 else 0).
Proof. unfold runs. intros ->. rewrite map_app, sumZ_app. cbn. lia. Qed.

Lemma exec_step_once i p w q w' op :
  exec_step i p w = (q, w') ->
  owns op (mkProc (pOp p) (pNode p) q) + runs op w' + claimed op (db w) <= owns op p + runs op w + claimed op (db w').
Proof.
  intros H%exec_step_cases. unfold owns. cbn [pOp pPC].
  destruct H as [(He & Hc & Hh)|[(rs & e & won & d & Hp & E & -> & Hh)|(c & Hp & He & -> & Hh)]].
  - rewrite (runs_same op w w' (eq_sym He)). specialize (Hc op). destruct (bool_decide (pOp p = op)); cbn; [|lia].
    destruct (holds q); [rewrite Hh by done; lia|]. destruct (holds (pPC p)); lia.
  - rewrite (runs_same op _ w (on_db_executed i d w)), Hp. cbn [holds]. apply (claimed_claim _ _ _ _ _ _ _ op) in E.
    assert (claimed op (db w) <= claimed op (db (on_db i d w))) by (apply claimed_on_db; destruct (_ && _); lia).
    rewrite andb_false_r. destruct (holds q); [|rewrite andb_false_r; lia]. destruct Hh as [Hr ->]; [done|].
    unfold on_db. rewrite Hr. cbn in *. rewrite andb_true_r. destruct (bool_decide (pOp p = op)); lia.
  - rewrite (runs_app op w w' _ He), Hh, Hp. cbn. rewrite andb_false_r, andb_true_r. destruct (bool_decide (pOp p = op)); lia.
Qed.

Lemma set_proc_once op (ps : list Proc) k p q :
  ps !! k = Some p ->
  sumZ (map (owns op) (<[k := mkProc (pOp p) (pNode p) q]> ps)) =
  sumZ (map (owns op) ps) - owns op p + owns op (mkProc (pOp p) (pNode p) q).
Proof.
  intros H. change (map (owns op) ?l) with (owns op <$> l). rewrite list_fmap_insert. apply sumZ_insert. by rewrite list_lookup_fmap, H.
Qed.

Lemma act_once op a s : once op s -> once op (act a s).
Proof.
  destruct s as [w ps]. unfold once. cbn [fst snd]. intros H. destruct a as [o n|k i|ins wk q acks|o n|o c n|i wk o|lk pk i|n rs|k]; cbn [act].
  - cbn. rewrite map_app, sumZ_app. cbn. unfold owns at 2. cbn. rewrite andb_false_r. lia.
  - destruct (ps !! k) as [p|] eqn:Ep; [|done]. destruct (exec_step i p w) as [q w'] eqn:E. cbn [fst snd].
    rewrite (set_proc_once op ps k p q Ep). pose proof (exec_step_once i p w q w' op E). lia.
  - destruct (run_stmts_claimed ins (book_stmts wk q acks) w op (book_stmts_claimed wk q acks op)) as [H1 H2].
    cbn [fst snd]. rewrite (runs_same op _ w H2). lia.
  - cbn. unfold UpsertReplicaBookAck. destruct (leases (db w) !! o); exact H.
  - exact H.
  - cbn. unfold RenewLease. destruct (RenewOperationLease _ _ _ _ _ _) as [[l d]|] eqn:E; [|exact H]. cbn [snd].
    rewrite (runs_same op _ w (on_db_executed i d w)).
    pose proof (claimed_on_db i d w op (claimed_renew _ _ _ _ _ _ _ _ op E)). lia.
  - cbn. unfold RunJanitor. destruct lk; [exact H|]. rewrite (runs_same op _ w (on_db_executed _ _ w)).
    pose proof (claimed_on_db i _ w op (claimed_expire (now i) pk (db w) op)). lia.
  - exact H.
  - destruct (ps !! k) as [p|] eqn:Ep; [|done]. cbn [fst snd]. rewrite (set_proc_once op ps k p _ Ep).
    unfold owns at 3. cbn. rewrite andb_false_r. assert (0 <= owns op p) by (unfold owns; destruct (_ && _); lia). lia.
Qed.

Lemma acts_once op l s : once op s -> once op (acts l s).
Proof. revert s. induction l as [|a l IH]; intros s H; [done|]. by apply IH, act_once. Qed.

(** No operation runs twice when each is counted at most once. *)
Lemma runs_nodup (w : World) : (forall op, runs op w <= 1) -> NoDup (map (fun e => fst (fst e)) (executed w)).
Proof.
  unfold runs. induction (executed w) as [|e l IH]; intros H; cbn; [constructor|].
  assert (Hn : forall op, 0 <= sumZ (map (fun e => if bool_decide (fst (fst e) = op) then 1 else 0) l)).
  { intros op. apply sumZ_nonneg, Forall_map, Forall_true. intros x. cbn. destruct (bool_decide _); lia. }
  constructor.
  - intros (x & Hx & Hin)%list_elem_of_fmap. specialize (H (fst (fst e))). cbn in H. rewrite bool_decide_eq_true_2 in H by done.
    apply list_elem_of_lookup in Hin as [k Hk].
    enough (1 <= sumZ (map (fun e0 => if bool_decide (fst (fst e0) = fst (fst e)) then 1 else 0) l)) by lia.
    clear IH H Hn. revert k Hk. induction l as [|y l IH]; intros k Hk; [done|]. cbn [map sumZ].
    assert (0 <= sumZ (map (fun e0 => if bool_decide (fst (fst e0) = fst (fst e)) then 1 else 0) l)).
    { apply sumZ_nonneg, Forall_map, Forall_true. intros z. cbn. destruct (bool_decide _); lia. }
    destruct k as [|k]; cbn in Hk; [injection Hk as ->; rewrite bool_decide_eq_true_2 by done; lia|].
    specialize (IH k Hk). destruct (bool_decide (fst (fst y) = _)); lia.
  - apply IH. intros op. specialize (H op). cbn in H. destruct (bool_decide _); lia.
Qed.

(** C4: an operation runs at most once, over all nodes and for good: however
    calls of [ExecuteOp], bookings, renewals, janitors, crashes and restarts
    interleave, and whatever statements fail or lose their answer, no
    operation is executed twice. *)
Theorem executed_once l w : executed w = [] -> NoDup (map (fun e => fst (fst e)) (executed (fst (acts l (w, []))))).
Proof.
  intros H. apply runs_nodup. intros op.
  assert (Hi : once op (w, [])) by (unfold once, runs; cbn; rewrite H; cbn; pose proof (claimed_bounds op (db w)); lia).
  apply (acts_once op l) in Hi. unfold once in Hi. pose proof (claimed_bounds op (db (fst (acts l (w, []))))).
  enough (0 <= sumZ (map (owns op) (snd (acts l (w, []))))) by lia.
  apply sumZ_nonneg, Forall_map, Forall_true. intros p. cbn. unfold owns. destruct (_ && _); lia.
Qed.

(** ** What is claimed is not tried again *)

(** A call for a claimed lease claims nothing, whatever it meets. *)
Lemma exec_run_claimed fuel ins p w :
  holds (pPC p) = false -> claimed (pOp p) (db w) = 1 ->
  executed (snd (exec_run fuel ins p w)) = executed w /\ holds (fst (exec_run fuel ins p w)) = false.
Proof.
  revert ins p w. induction fuel as [|fuel IH]; intros ins p w Hh Hc; [done|]. cbn.
  destruct (exec_step (ins 0%nat) p w) as [q w'] eqn:E. pose proof E as E0. apply exec_step_cases in E.
  assert (Hw : executed w' = executed w /\ claimed (pOp p) (db w') = 1 /\ holds q = false).
  { pose proof (claimed_bounds (pOp p) (db w')).
    destruct E as [(He & Hm & Hq)|[(rs & e & won & d & Hp & Ec & -> & Hq)|(c & Hp & _)]]; [| |by rewrite Hp in Hh].
    - specialize (Hm (pOp p)). split_and!; [done|lia|]. destruct (holds q); [by rewrite Hq in Hh|done].
    - apply (claimed_claim _ _ _ _ _ _ _ (pOp p)) in Ec. rewrite bool_decide_eq_true_2 in Ec by done.
      pose proof (claimed_bounds (pOp p) d). destruct won; cbn in Ec; [lia|]. pose proof (claimed_on_db (ins 0%nat) d w (pOp p) ltac:(lia)).
      split_and!; [apply on_db_executed|lia|]. destruct (holds q); [by destruct Hq|done]. }
  destruct Hw as (He & Hc' & Hq). destruct (IH (fun k => ins (S k)) (mkProc (pOp p) (pNode p) q) w' Hq Hc') as [H1 H2].
  by rewrite H1.
Qed.

(** Every call is answered, by a Postgres that is up. *)
Definition answered (i : In) : Prop := pg_up i = true /\ reply i = true.

(** An operation whose lease has left the state booked is never run by a
    later call, whatever it meets; and where all is answered the call still
    reports success.  So an operation that fails, crashes or finds a newer
    epoch after its claim is neither done nor reported. *)
Theorem claimed_never_retried ins n op w l :
  leases (db w) !! op = Some l -> State l <> LeaseStateBooked ->
  executed (snd (ExecuteOp ins n op w)) = executed w /\
  ((forall k, answered (ins k)) -> ReplicaSetID l <> Nil -> fst (ExecuteOp ins n op w) = XDone None).
Proof.
  intros Hl Hs. assert (Hc : claimed op (db w) = 1) by (unfold claimed; rewrite Hl; by rewrite bool_decide_eq_false_2).
  split; [by apply (exec_run_claimed exec_fuel ins (mkProc op n XQuorum) w)|]. intros Ha Hn.
  unfold ExecuteOp, exec_fuel.
  destruct (Ha 0%nat) as [U0 R0], (Ha 1%nat) as [_ R1], (Ha 2%nat) as [_ R2], (Ha 4%nat) as [_ R4], (Ha 5%nat) as [_ R5].
  cbn [exec_run exec_step pOp pNode pPC]. rewrite U0, R0. cbn [negb exec_run exec_step pOp pNode pPC on_status]. rewrite R1. cbn [on_status QuorumMet].
  destruct (_ <=? _); [|reflexivity].
  cbn [exec_run exec_step pOp pNode pPC]. rewrite R2, Hl. cbn [negb]. rewrite bool_decide_eq_false_2 by done.
  cbn [exec_run exec_step pOp pNode pPC]. destruct (fence_add _ _) as [e f]. cbn [exec_run exec_step pOp pNode pPC]. rewrite R4. cbn [orb].
  cbn [exec_run exec_step pOp pNode pPC db with_fence]. unfold OperationLeaseClaimExecuting. rewrite Hl.
  rewrite (bool_decide_eq_false_2 (State l = LeaseStateBooked)) by done. cbn [andb]. rewrite R5. reflexivity.
Qed.

(** Reading only what is booked on Redis: with nothing booked in Postgres a
    call does nothing and reports success. *)
Lemma unbooked_does_nothing ins n op w :
  (forall k, answered (ins k)) -> CountReplicas op (db w) = 0 -> CountBookAcks op (db w) = 0 ->
  ExecuteOp ins n op w = (XDone None, w).
Proof.
  intros Ha H0 H1. destruct (Ha 0%nat) as [U0 R0], (Ha 1%nat) as [_ R1]. unfold ExecuteOp, exec_fuel.
  cbn [exec_run exec_step pOp pNode pPC]. rewrite U0, R0, H0. cbn [negb exec_run exec_step pOp pNode pPC on_status]. rewrite R1, H1. cbn.
  done.
Qed.

(** *** A call ends

    The steps a call has left at most. *)
Definition left (q : xpc) : nat :=
  match q with
  | XQuorum => 13 | XAcks _ => 12 | XRead => 11 | XFence _ => 10 | XPersist _ _ => 9 | XClaim _ _ => 8 | XRead1 _ => 7
  | XConfirm _ _ _ => 6 | XResume _ _ => 5 | XRead2 _ _ => 4 | XExec _ => 3 | XRecord _ => 2 | XComplete => 1 | XDone _ => 0
  end.

Lemma on_status_left s : (left (on_status s) <= 11)%nat.
Proof. destruct s as [st|]; cbn; [destruct (QuorumMet st); cbn|]; lia. Qed.

Lemma redis_status_left i op n w : (left (redis_status i op n w) <= 11)%nat.
Proof. unfold redis_status. destruct (isPostgresUnavailable i); [apply on_status_left|cbn; lia]. Qed.

Lemma exec_step_left i p w : (left (fst (exec_step i p w)) <= pred (left (pPC p)))%nat.
Proof.
  unfold exec_step. destruct (pPC p) as [|c| |rs|rs e|rs e|rs|rs s u|rs c|rs c|c|c| |r]; cbn [fst left pred]; try (cbn; lia).
  - pose proof (redis_status_left i (pOp p) 3 w). pose proof (on_status_left (quorumStatusRedis i (pOp p) 3 w)).
    destruct (negb _); [lia|]. destruct (reply i); [cbn|]; lia.
  - pose proof (redis_status_left i (pOp p) c w). destruct (reply i); [apply on_status_left|lia].
  - destruct (negb _); [cbn; lia|]. destruct (leases (db w) !! pOp p); [|cbn; lia]. case_bool_decide; cbn; lia.
  - destruct (reply i); cbn; lia.
  - destruct (OperationLeaseClaimExecuting _ _ _ _ _) as [won d]. destruct (reply i), won; cbn; lia.
  - destruct (read_authoritative _ _ _ _); cbn; lia.
  - destruct (dedup_claim_confirm _ _ _ _ _) as [[[o d] key] ps]. destruct (reply i), o; cbn; lia.
  - case_bool_decide; [cbn; lia|]. destruct (negb _); [cbn; lia|]. case_bool_decide; cbn; lia.
  - destruct (read_authoritative _ _ _ _); cbn; lia.
  - destruct (execute _ _ _ _) as [r [e|]]; cbn; lia.
  - case_bool_decide; cbn; [lia|]. destruct (reply i); cbn; lia.
  - destruct (CompleteOperationLease _ _ _), (reply i); cbn; lia.
Qed.

Lemma exec_run_ends fuel ins p w : (left (pPC p) <= fuel)%nat -> exists r, fst (exec_run fuel ins p w) = XDone r.
Proof.
  revert ins p w. induction fuel as [|fuel IH]; intros ins p w H.
  - cbn. destruct (pPC p); cbn in H; try lia. by eexists.
  - cbn. pose proof (exec_step_left (ins 0%nat) p w) as Hs. destruct (exec_step _ _ _) as [q w']. apply IH. cbn in *. lia.
Qed.

(** Every call ends, whatever it meets. *)
Theorem execute_ends ins n op w : exists r, fst (ExecuteOp ins n op w) = XDone r.
Proof. by apply exec_run_ends. Qed.

(** ** A booked operation runs *)

(** The only replica row of an operation. *)
Lemma replicas_of_single op n b d m :
  replicas d = <[(op, n) := b]> m -> (forall n, m !! (op, n) = None) -> replicas_of op d = [b].
Proof.
  intros Hd H. unfold replicas_of. rewrite Hd. clear Hd. apply Permutation_singleton_r.
  rewrite (map_to_list_insert _ _ _ (H n)). cbn. rewrite bool_decide_eq_true_2 by done.
  match goal with |- b :: ?l ≡ₚ _ => enough (l = []) as -> by done end.
  match goal with |- ?l = [] => destruct l as [|x r] eqn:E; [done|exfalso] end.
  assert (Hx : x ∈ omap (fun r : UUID * Node * bool => if bool_decide (fst (fst r) = op) then Some (snd r) else None) (map_to_list m))
    by (unfold omap in *; rewrite E; left).
  apply list_elem_of_omap in Hx as ([[o n0] c] & Hin & Hc). cbn in Hc. case_bool_decide as Eo; [|done].
  apply elem_of_map_to_list in Hin. subst o. by rewrite H in Hin.
Qed.

(** What [Book] leaves for an operation with one replica, its own node. *)
Definition booked (now timeoutSec : Z) (q : BookRequest) (n : Node) (d : DB) : DB :=
  mkDB (<[OpID q := mkLease (RegionCode q) (bRole q) (bReplicaSetID q) (bAttempt q) (bFactorU q) (bScope q, bAttempt q)
            LeaseStateBooked None 0 (now + timeoutSec) 0 None]> (leases d))
       (<[(OpID q, n) := true]> (replicas d)) (proposals d) (sync_idempotency d).

Lemma ensure_books g i0 bins i1 i2 wk q w :
  reply g = true -> answered i0 -> (forall k, answered (bins k)) -> answered i2 ->
  OpID q <> Nil -> bReplicaSetID q <> Nil -> 0 < bAttempt q -> ReplicaNodes q = [nodeID wk] -> BookAckNodes q = [] ->
  leases (db w) !! OpID q = None -> attempt_taken (bReplicaSetID q) (bAttempt q) (leases (db w)) = false ->
  (forall n, replicas (db w) !! (OpID q, n) = None) ->
  EnsureBook false g i0 bins i1 i2 wk q w =
  ((mkStatus 1 1 true, None), with_db (booked (now (bins 0%nat)) (timeoutSec wk) q (nodeID wk) (db w)) w).
Proof.
  intros Hg [U0 _] Hb [U2 R2] Ho Hs Ha Hn Hk Hl Ht Hr. unfold EnsureBook, BookLease. rewrite Hg, Hl. cbn [negb].
  rewrite (bool_decide_eq_false_2 (OpID q = Nil)), (bool_decide_eq_false_2 (bReplicaSetID q = Nil)) by done. cbn [orb].
  rewrite U0. cbn [negb]. unfold normalized. rewrite Hk, Hn, (proj2 (Z.leb_gt _ _) Ha). cbn -[zlen quorumStatus].
  destruct (Hb 0%nat) as [_ B0], (Hb 1%nat) as [_ B1], (Hb 2%nat) as [_ B2].
  unfold BookOperationLease. cbn [OpID bReplicaSetID bAttempt]. rewrite Hl, Ht, bool_decide_eq_false_2 by (by intros []). cbn -[quorumStatus].
  rewrite B0. cbn -[quorumStatus]. unfold on_db. rewrite B0, B1. cbn -[quorumStatus]. unfold on_db, UpsertReplicaBookAck, InsertReplica.
  cbn -[quorumStatus]. rewrite (Hr (nodeID wk)). change (zlen [nodeID wk]) with 1.
  cbn -[quorumStatus]. rewrite lookup_insert_eq, B2. cbn -[quorumStatus].
  rewrite insert_insert_eq. unfold quorumStatus. rewrite U2, R2. cbn [negb].
  unfold CountReplicas, CountBookAcks, on_db. rewrite B2. cbn [orb].
  match goal with |- context [replicas_of _ ?d] =>
    rewrite !(replicas_of_single (OpID q) (nodeID wk) true d (replicas (db w)) eq_refl Hr) end.
  reflexivity.
Qed.

Lemma exec_run_step fuel ins p w q w' :
  exec_step (ins 0%nat) p w = (q, w') ->
  exec_run (S fuel) ins p w = exec_run fuel (fun k => ins (S k)) (mkProc (pOp p) (pNode p) q) w'.
Proof. intros H. cbn. by rewrite H. Qed.

(** Six steps claim a lease that is booked, acknowledged and in time, under
    an epoch that is then the node's newest. *)
Lemma booked_claims ins n op m w l :
  (forall k, answered (ins k)) -> leases (db w) !! op = Some l -> State l = LeaseStateBooked ->
  replicas (db w) = <[(op, n) := true]> m -> (forall n, m !! (op, n) = None) ->
  ReplicaSetID l <> Nil -> (forall k, now (ins k) < DeadlineAt l) -> 0 <= mem (fstore (fence w) (n, ReplicaSetID l)) < max_i64 ->
  exists e f, Validate f (n, ReplicaSetID l) e = true /\
    exec_run exec_fuel ins (mkProc op n XQuorum) w =
    exec_run 7 (fun j => ins (6 + j)%nat) (mkProc op n (XRead1 (ReplicaSetID l)))
      (mkWorld (with_leases (<[op := set_state l LeaseStateExecuting (Some n) e]> (leases (db w))) (db w)) (qstore w) f (executed w) (rest w)).
Proof.
  intros Ha Hl Hst Hr Hm Hs Ht He.
  assert (U : forall k, pg_up (ins k) = true) by (intros k; apply Ha). assert (A : forall k, reply (ins k) = true) by (intros k; apply Ha).
  assert (N : forall k, (now (ins k) <? DeadlineAt l) = true) by (intros k; apply Z.ltb_lt, Ht).
  set (k := (n, ReplicaSetID l)) in *. set (e := mem (fstore (fence w) k) + 1).
  assert (E64 : mem (fstore (fence w) k) +u64 1 = e) by (unfold e; apply u64_id; unfold_ranges; unfold max_i64 in *; lia).
  assert (Ei : i64 e = e) by (apply i64_id; unfold e, in_i64, min_i64; lia).
  exists e, (<[k := mkFStore e e]> (<[k := mkFStore e (disk (fstore (fence w) k))]> (fence w))). split.
  { unfold Validate, fstore. rewrite lookup_insert_eq. cbn. unfold e in *. rewrite (proj2 (Z.ltb_lt 0 _)), Z.leb_refl by lia. apply orb_true_r. }
  unfold exec_fuel.
  rewrite (exec_run_step _ _ _ _ (XAcks 1) w).
  2: { unfold exec_step. cbn [pPC pOp]. rewrite U, A. cbn. unfold CountReplicas. by rewrite (replicas_of_single op n true (db w) m Hr Hm). }
  rewrite (exec_run_step _ _ _ _ XRead w).
  2: { unfold exec_step. cbn [pPC pOp]. rewrite A. unfold CountBookAcks. by rewrite (replicas_of_single op n true (db w) m Hr Hm). }
  rewrite (exec_run_step _ _ _ _ (XFence (ReplicaSetID l)) w).
  2: { unfold exec_step. cbn [pPC pOp]. rewrite A, Hl. cbn [negb]. by rewrite bool_decide_eq_false_2. }
  rewrite (exec_run_step _ _ _ _ (XPersist (ReplicaSetID l) e) (with_fence (<[k := mkFStore e (disk (fstore (fence w) k))]> (fence w)) w)).
  2: { unfold exec_step, fence_add. cbn [pPC pOp pNode]. fold k. by rewrite E64. }
  rewrite (exec_run_step _ _ _ _ (XClaim (ReplicaSetID l) e) (with_fence (<[k := mkFStore e e]> (<[k := mkFStore e (disk (fstore (fence w) k))]> (fence w))) w)).
  2: { unfold exec_step, fence_persist. cbn [pPC pOp pNode]. fold k. rewrite A, Ei. cbn [orb fence with_fence]. unfold fstore at 1. by rewrite lookup_insert_eq. }
  erewrite (exec_run_step _ _ _ _ (XRead1 (ReplicaSetID l))).
  2: { unfold exec_step, OperationLeaseClaimExecuting. cbn [pPC pOp pNode db with_fence]. rewrite Hl, N, bool_decide_eq_true_2 by done. cbn [andb].
       unfold on_db. by rewrite A. }
  reflexivity.
Qed.

(** A read that finds the lease this node's. *)
Lemma read_own i p rs w l e :
  reply i = true -> clock i < DeadlineAt l -> leases (db w) !! pOp p = Some (set_state l LeaseStateExecuting (Some (pNode p)) e) ->
  Validate (fence w) (pNode p, rs) e = true ->
  read_authoritative i p rs w = inl (set_state l LeaseStateExecuting (Some (pNode p)) e).
Proof.
  intros Hi Hc Hl Hv. unfold read_authoritative, AuthoritativeLeaseView. rewrite Hi, Hl. cbn [State DeadlineAt ExecutorNodeID FencingEpoch set_state negb].
  by rewrite !bool_decide_eq_true_2, (proj2 (Z.ltb_lt _ _)), Hv by done.
Qed.

(** Six more run a claimed lease whose scope is new, and complete it. *)
Lemma claimed_runs ins n op d w l e :
  (forall k, answered (ins k)) -> (forall k, clock (ins k) < DeadlineAt l) ->
  db w = with_leases (<[op := set_state l LeaseStateExecuting (Some n) e]> (leases d)) d ->
  Validate (fence w) (n, ReplicaSetID l) e = true -> proposals d !! DedupScopeForLease l = None ->
  (forall c, snd (execute op c (ins 3%nat) (rest w)) = None) ->
  exists c w', exec_run 7 ins (mkProc op n (XRead1 (ReplicaSetID l))) w = (XDone None, w') /\
    executed w' = (executed w ++ [(op, n, c)])%list /\ rest w' = fst (execute op c (ins 3%nat) (rest w)) /\
    cOutcome c = OutcomeConfirmed /\ State <$> leases (db w') !! op = Some LeaseStateCompleted.
Proof.
  intros Ha Hc Hd Hv Hp Hx. set (l1 := set_state l LeaseStateExecuting (Some n) e) in *.
  assert (A : forall k, reply (ins k) = true) by (intros k; apply Ha).
  assert (Hl1 : leases (db w) !! op = Some l1) by (rewrite Hd; cbn; apply lookup_insert_eq).
  set (s := DedupScopeForLease l) in *. set (key := FormatCanonical s (FactorU l) (fresh (ins 1%nat))).
  set (c := mkClaim OutcomeConfirmed (fresh (ins 1%nat)) key s (FactorU l)).
  set (d2 := mkDB (leases (db w)) (replicas (db w)) (<[s := mkProposal (FactorU l) (fresh (ins 1%nat)) key Confirmed (now (ins 1%nat))]> (proposals (db w))) (sync_idempotency (db w))).
  set (w2 := with_db d2 w). set (r := fst (execute op c (ins 3%nat) (rest w))).
  set (w4 := mkWorld d2 (qstore w) (fence w) (executed w ++ [(op, n, c)])%list r).
  set (w5 := with_db (mkDB (leases d2) (replicas d2) (proposals d2) ({[key]} ∪ sync_idempotency d2)) w4).
  rewrite (exec_run_step _ _ _ _ (XConfirm (ReplicaSetID l) s (FactorU l)) w).
  2: { unfold exec_step. cbn [pPC pOp pNode]. by rewrite (read_own (ins 0%nat) (mkProc op n (XRead1 (ReplicaSetID l))) (ReplicaSetID l) w l e (A 0%nat) (Hc 0%nat) Hl1 Hv). }
  rewrite (exec_run_step _ _ _ _ (XRead2 (ReplicaSetID l) c) w2).
  2: { unfold exec_step, dedup_claim_confirm. cbn [pPC]. replace (proposals (db w) !! s) with (@None Proposal) by (rewrite Hd; symmetry; exact Hp).
       unfold on_db. rewrite A. reflexivity. }
  rewrite (exec_run_step _ _ _ _ (XExec c) w2).
  2: { unfold exec_step. cbn [pPC pOp pNode]. by rewrite (read_own (ins 2%nat) (mkProc op n (XRead2 (ReplicaSetID l) c)) (ReplicaSetID l) w2 l e (A 2%nat) (Hc 2%nat) Hl1 Hv). }
  rewrite (exec_run_step _ _ _ _ (XRecord c) w4).
  2: { unfold exec_step. cbn [pPC pOp pNode]. specialize (Hx c). unfold r. change (rest w2) with (rest w).
       destruct (execute op c (ins 3%nat) (rest w)) as [r0 err]. cbn in Hx. by subst err. }
  rewrite (exec_run_step _ _ _ _ XComplete w5).
  2: { unfold exec_step. cbn [pPC]. rewrite bool_decide_eq_false_2 by done. unfold on_db. by rewrite A. }
  erewrite (exec_run_step _ _ _ _ (XDone None)).
  2: { unfold exec_step, CompleteOperationLease. cbn [pPC pOp]. change (leases (db w5)) with (leases (db w)). rewrite Hl1. cbn [State l1 set_state].
       rewrite bool_decide_eq_true_2 by done. unfold on_db. by rewrite A. }
  eexists c, _. split; [reflexivity|]. split_and!; try reflexivity. cbn. by rewrite lookup_insert_eq.
Qed.

(** A fresh operation is done: booked on a healthy Postgres by a node
    that is its only replica, with a replica set and attempt no lease has and
    a scope no proposal has, it is acknowledged, run once with a confirmed
    claim before its deadline, and its lease completed. *)
Theorem fresh_operation_runs g i0 bins i1 i2 ins wk q w :
  reply g = true -> answered i0 -> (forall k, answered (bins k)) -> answered i2 -> (forall k, answered (ins k)) ->
  OpID q <> Nil -> bReplicaSetID q <> Nil -> 0 < bAttempt q -> ReplicaNodes q = [nodeID wk] -> BookAckNodes q = [] ->
  leases (db w) !! OpID q = None -> attempt_taken (bReplicaSetID q) (bAttempt q) (leases (db w)) = false ->
  (forall n, replicas (db w) !! (OpID q, n) = None) -> proposals (db w) !! ScopeWithAttempt (bScope q) (bAttempt q) = None ->
  (forall k, now (ins k) < now (bins 0%nat) + timeoutSec wk /\ clock (ins k) < now (bins 0%nat) + timeoutSec wk) ->
  0 <= mem (fstore (fence w) (nodeID wk, bReplicaSetID q)) < max_i64 ->
  (forall c, snd (execute (OpID q) c (ins 9%nat) (rest w)) = None) ->
  let '((st, err), w1) := EnsureBook false g i0 bins i1 i2 wk q w in
  QuorumMet st = true /\ err = None /\
  exists c w', ExecuteOp ins (nodeID wk) (OpID q) w1 = (XDone None, w') /\
    executed w' = (executed w ++ [(OpID q, nodeID wk, c)])%list /\ rest w' = fst (execute (OpID q) c (ins 9%nat) (rest w)) /\
    cOutcome c = OutcomeConfirmed /\ State <$> leases (db w') !! OpID q = Some LeaseStateCompleted.
Proof.
  intros Hg H0 Hb H2 Ha Ho Hs Hat Hn Hk Hl Ht Hr Hp Hnow He Hx.
  rewrite (ensure_books g i0 bins i1 i2 wk q w Hg H0 Hb H2 Ho Hs Hat Hn Hk Hl Ht Hr). split_and!; [done..|].
  set (w1 := with_db _ w). set (l := mkLease (RegionCode q) (bRole q) (bReplicaSetID q) (bAttempt q) (bFactorU q) (bScope q, bAttempt q)
     LeaseStateBooked None 0 (now (bins 0%nat) + timeoutSec wk) 0 None).
  destruct (booked_claims ins (nodeID wk) (OpID q) (replicas (db w)) w1 l) as (e & f & Hv & Hrun); try done.
  { cbn. apply lookup_insert_eq. }
  { intros k. apply Hnow. }
  assert (Hnew : proposals (db w1) !! DedupScopeForLease l = None)
    by (cbn; unfold DedupScopeForLease; cbn; rewrite (proj2 (Z.leb_gt _ _) Hat); exact Hp).
  unfold ExecuteOp. rewrite Hrun.
  match type of Hrun with _ = exec_run _ _ _ ?W =>
    exact (claimed_runs (fun j => ins (6 + j)%nat) (nodeID wk) (OpID q) (db w1) W l e (fun j => Ha (6 + j)%nat)
      (fun j => proj2 (Hnow (6 + j)%nat)) eq_refl Hv Hnew Hx) end.
Qed.

(** ** A second operation of a replica set *)

Lemma replicas_of_none op d : (forall n, replicas d !! (op, n) = None) -> replicas_of op d = [].
Proof.
  intros H. unfold replicas_of. match goal with |- ?l = [] => destruct l as [|x r] eqn:E; [done|exfalso] end.
  assert (Hx : x ∈ omap (fun r : UUID * Node * bool => if bool_decide (fst (fst r) = op) then Some (snd r) else None) (map_to_list (replicas d)))
    by (unfold omap in *; rewrite E; left).
  apply list_elem_of_omap in Hx as ([[o n] c] & Hin & Hc). cbn in Hc. case_bool_decide as Eo; [|done].
  apply elem_of_map_to_list in Hin. subst o. by rewrite H in Hin.
Qed.

(** One node's acknowledgement is the quorum of one replica. *)
Lemma book_one_met op n q : QuorumMet (snd (Book op [n] n q)) = true.
Proof.
  unfold Book, readStatus, ack_book. cbn. rewrite lookup_insert_eq. cbn.
  assert (1 <= Z.of_nat (size ({[n]} ∪ q_acks (default (mkQLease LeaseStateBooked 0 ∅) (q !! op))))); [|by apply Z.leb_le].
  enough (size ({[n]} ∪ q_acks (default (mkQLease LeaseStateBooked 0 ∅) (q !! op))) <> 0%nat) by lia.
  rewrite size_non_empty_iff. set_solver.
Qed.

(** The second operation of a replica set and attempt is lost without an
    error: its row violates the unique constraint, which is taken for an
    outage of Postgres, so the booking is made in Redis and reports a
    quorum; the call that then executes it finds no replica in Postgres and
    returns success.  Nothing runs and nothing is left in the tables. *)
Theorem second_booking_lost g i0 bins i1 i2 ins wk q w :
  reply g = true -> answered i0 -> (forall k, answered (bins k)) -> (forall k, answered (ins k)) ->
  has_redis i1 = true -> reply i1 = true -> cut i1 = false ->
  OpID q <> Nil -> bReplicaSetID q <> Nil -> 0 < bAttempt q -> ReplicaNodes q = [nodeID wk] -> BookAckNodes q = [] ->
  leases (db w) !! OpID q = None -> attempt_taken (bReplicaSetID q) (bAttempt q) (leases (db w)) = true ->
  (forall n, replicas (db w) !! (OpID q, n) = None) ->
  let '((st, err), w1) := EnsureBook false g i0 bins i1 i2 wk q w in
  QuorumMet st = true /\ err = None /\ db w1 = db w /\
  ExecuteOp ins (nodeID wk) (OpID q) w1 = (XDone None, w1) /\ executed w1 = executed w.
Proof.
  intros Hg [U0 _] Hb Ha Hr1 R1 C1 Ho Hs Hat Hn Hk Hl Ht Hr. unfold EnsureBook, BookLease. rewrite Hg, Hl. cbn [negb].
  rewrite (bool_decide_eq_false_2 (OpID q = Nil)), (bool_decide_eq_false_2 (bReplicaSetID q = Nil)) by done. cbn [orb].
  rewrite U0. cbn [negb]. unfold normalized. rewrite Hk, Hn, (proj2 (Z.leb_gt _ _) Hat). cbn -[zlen bookRedis Book].
  unfold BookOperationLease. cbn [OpID bReplicaSetID bAttempt]. rewrite Ht, orb_true_r. cbn -[zlen bookRedis Book].
  unfold isPostgresUnavailable. rewrite C1. cbn [negb]. rewrite orb_true_r. unfold bookRedis. rewrite Hr1, R1. cbn -[Book].
  pose proof (book_one_met (OpID q) (nodeID wk) (qstore w)) as Hm. destruct (Book _ _ _ _) as [qs st] eqn:E. cbn in Hm. rewrite Hm.
  split_and!; [done|done|done| |done]. apply unbooked_does_nothing; [done| |]; unfold CountReplicas, CountBookAcks;
    match goal with |- context [replicas_of ?o ?d] => by rewrite (replicas_of_none o d Hr) end.
Qed.

End worker.

Arguments mkWorld {R}.
Arguments World R : clear implicits.

(** ** Fencing epochs *)

(** [Next] of one store, by itself, and a restart. *)
Inductive fop := FNext (ok effect : bool) | FRestart.

Definition Next (k : Node * UUID) (ok eff : bool) (f : gmap (Node * UUID) FStore) : option Z * gmap (Node * UUID) FStore :=
  let '(e, f) := fence_add k f in
  (if ok then Some (i64 e) else None, if ok || eff then fence_persist k e f else f).

Fixpoint fence_run (k : Node * UUID) (l : list fop) (f : gmap (Node * UUID) FStore) : list Z * gmap (Node * UUID) FStore :=
  match l with
  | [] => ([], f)
  | FNext ok eff :: l =>
      let '(e, f) := Next k ok eff f in
      let '(es, f) := fence_run k l f in (match e with Some e => e :: es | None => es end, f)
  | FRestart :: l => fence_run k l (fence_reload k f)
  end.

Lemma fstore_insert k s f : fstore (<[k := s]> f) k = s.
Proof. unfold fstore. by rewrite lookup_insert_eq. Qed.

Lemma fence_run_above k l f :
  0 <= disk (fstore f k) <= mem (fstore f k) -> mem (fstore f k) + zlen l <= max_i64 ->
  Forall (fun e => disk (fstore f k) < e) (fst (fence_run k l f)) /\ StronglySorted Z.lt (fst (fence_run k l f)).
Proof.
  revert f. induction l as [|o l IH]; intros f Hd Hb; [by repeat constructor|]. unfold zlen in *. cbn [length] in Hb.
  destruct o as [ok eff|]; cbn [fence_run].
  - unfold Next, fence_add. set (s := fstore f k) in *.
    assert (E : mem s +u64 1 = mem s + 1) by (apply u64_id; unfold_ranges; unfold max_i64 in *; lia). rewrite E.
    unfold fence_persist. rewrite fstore_insert. cbn [mem disk].
    destruct (ok || eff) eqn:Ew.
    + destruct (IH (<[k := mkFStore (mem s + 1) (mem s + 1)]> (<[k := mkFStore (mem s + 1) (disk s)]> f))) as [H1 H2];
        [rewrite fstore_insert; cbn; lia|rewrite fstore_insert; cbn; lia|].
      rewrite fstore_insert in H1. cbn [disk] in H1. destruct (fence_run _ _ _) as [es f']. cbn [fst] in *.
      rewrite i64_id by (unfold_ranges; unfold max_i64, min_i64 in *; lia). destruct ok; cbn.
      * split; [constructor; [lia|]|by constructor]. eapply Forall_impl; [exact H1|]. intros e; cbn; lia.
      * split; [|done]. eapply Forall_impl; [exact H1|]. intros e; cbn; lia.
    + destruct ok; [done|]. destruct (IH (<[k := mkFStore (mem s + 1) (disk s)]> f)) as [H1 H2];
        [rewrite fstore_insert; cbn; lia|rewrite fstore_insert; cbn; lia|].
      rewrite fstore_insert in H1. cbn [disk] in H1. by destruct (fence_run _ _ _).
  - unfold fence_reload. set (s := fstore f k) in *.
    destruct (IH (<[k := mkFStore (disk s) (disk s)]> f)) as [H1 H2]; [rewrite fstore_insert; cbn; lia|rewrite fstore_insert; cbn; lia|].
    by rewrite fstore_insert in H1.
Qed.

(** The epochs a node hands out for a replica set grow strictly, across
    failed writes of the file and restarts, as long as no two calls of
    [Next] overlap. *)
Theorem fencing_epochs_increase k l f :
  0 <= disk (fstore f k) <= mem (fstore f k) -> mem (fstore f k) + zlen l <= max_i64 ->
  StronglySorted Z.lt (fst (fence_run k l f)).
Proof. intros H1 H2. by apply fence_run_above. Qed.

(** Overlapping calls may write the file in the other order: after a restart
    an epoch is handed out again. *)
Theorem epoch_handed_out_twice :
  let k := ("n", "set") in
  let '(a, f) := fence_add k ∅ in
  let '(b, f) := fence_add k f in
  let f := fence_persist k a (fence_persist k b f) in
  fst (Next k true true (fence_reload k f)) = Some b.
Proof. vm_compute. reflexivity. Qed.

(** ** Dedup proposals agree *)

Record Claim := mkClaimIn { c_now : Z; c_fresh : UUID; c_scope : Scope; c_factor : UUID }.

(** What claims in a row answer. *)
Fixpoint claims (l : list Claim) (ps : gmap Scope Proposal) : list (Claim * (Outcome * UUID * string)) :=
  match l with
  | [] => []
  | c :: l =>
      let '(r, ps) := dedup_claim_confirm (c_now c) (c_fresh c) (c_scope c) (c_factor c) ps in (c, r) :: claims l ps
  end.

Definition applies (o : Outcome) : bool := match o with OutcomeConfirmed | OutcomeAlreadyConfirmed => true | _ => false end.

(** A scope is settled on a factor, its answer and its key. *)
Definition settled (ps : gmap Scope Proposal) (s : Scope) (u d key : string) : Prop :=
  exists t, ps !! s = Some (mkProposal u d key Confirmed t).

Lemma claim_keeps_settled now f s' u' ps s u d key :
  settled ps s u d key -> settled (snd (dedup_claim_confirm now f s' u' ps)) s u d key.
Proof.
  intros [t H]. unfold dedup_claim_confirm. destruct (decide (s' = s)) as [->|Hne].
  - rewrite H. cbn. destruct (bool_decide _); by exists t.
  - destruct (ps !! s') as [r|]; [|exists t; cbn; by rewrite lookup_insert_ne].
    destruct (p_status r); [destruct (_ <? _); [|destruct (bool_decide _)]|destruct (bool_decide _)|]; exists t; cbn; by rewrite ?lookup_insert_ne.
Qed.

Lemma claim_settles now f s u ps o d key ps' :
  dedup_claim_confirm now f s u ps = ((o, d, key), ps') -> applies o = true -> settled ps' s u d key.
Proof.
  unfold dedup_claim_confirm. destruct (ps !! s) as [[u0 d0 k0 st t]|] eqn:E; cbn.
  - destruct st; [destruct (_ <? _); [by intros [= <- <- <- <-]|]|..].
    + case_bool_decide; intros [= <- <- <- <-]; [|done]. intros _. exists t. by rewrite lookup_insert_eq.
    + case_bool_decide; intros [= <- <- <- <-]; [|done]. intros _. exists t. by subst.
    + by intros [= <- <- <- <-].
  - intros [= <- <- <- <-] _. exists now. by rewrite lookup_insert_eq.
Qed.

Lemma settled_answers l ps s u d key j c o d' key' :
  settled ps s u d key -> claims l ps !! j = Some (c, (o, d', key')) -> c_scope c = s -> applies o = true ->
  o = OutcomeAlreadyConfirmed /\ c_factor c = u /\ d' = d /\ key' = key.
Proof.
  revert ps j. induction l as [|x l IH]; intros ps j Hs Hj Hc Ho; [done|]. cbn in Hj.
  pose proof (claim_keeps_settled (c_now x) (c_fresh x) (c_scope x) (c_factor x) ps s u d key Hs) as Hk.
  destruct (dedup_claim_confirm _ _ _ _ _) as [r ps'] eqn:E. destruct j as [|j]; [|by apply (IH ps' j)].
  injection Hj as -> ->. destruct Hs as [t Ht]. unfold dedup_claim_confirm in E. rewrite Hc, Ht in E. cbn in E.
  case_bool_decide; injection E as <- <- <- _; by try discriminate Ho.
Qed.

(** C16: claims of a scope agree: whatever claims are made, at whatever times,
    those that are told to apply gave the same factor and got the same key,
    and only the first of them is told that it is the first. *)
Theorem dedup_claims_agree l ps i j c c' o o' d d' key key' :
  claims l ps !! i = Some (c, (o, d, key)) -> claims l ps !! j = Some (c', (o', d', key')) -> (i < j)%nat ->
  c_scope c = c_scope c' -> applies o = true -> applies o' = true ->
  c_factor c = c_factor c' /\ d = d' /\ key = key' /\ o' = OutcomeAlreadyConfirmed.
Proof.
  revert ps i j. induction l as [|x l IH]; intros ps i j Hi Hj Hlt Hs Ho Ho'; [done|]. cbn in Hi, Hj.
  destruct (dedup_claim_confirm _ _ _ _ _) as [r ps'] eqn:E. destruct j as [|j]; [lia|]. cbn in Hj.
  destruct i as [|i]; [|apply (IH ps' i j); try done; lia]. injection Hi as -> ->.
  apply claim_settles in E; [|done]. by destruct (settled_answers l ps' _ _ _ _ j c' o' d' key' E Hj (eq_sym Hs) Ho') as (-> & <- & <- & <-).
Qed.

(** Attempts share the numbers of later operations: the second attempt of
    one is the first of another. *)
Theorem attempt_scopes_collide r src ep :
  ScopeWithAttempt (mkScope r src ep 2 2) 2 = ScopeWithAttempt (mkScope r src ep 2002 2002) 1.
Proof. reflexivity. Qed.

(** ** Examples *)

Definition fine : In := mkIn true true true true false 100 100 "d1" (fun _ => true).
Definition nothing : UUID -> ClaimResult -> In -> unit -> unit * option Err := fun _ _ _ r => (r, None).
Definition wk1 : Worker := mkWorker "n1" 30 3.
Definition scope1 (seq : Z) : Scope := mkScope "region" "source" 1 seq seq.
Definition req (op : UUID) (seq : Z) : BookRequest := mkRequest op 1 "management" "set" 1 "factor" (scope1 seq) ["n1"] [].
Definition empty_world : World unit := mkWorld (mkDB ∅ ∅ ∅ ∅) ∅ ∅ [] tt.

Lemma fresh_operation_runs_witness :
  let '((st, err), w1) := EnsureBook false fine fine (fun _ => fine) fine fine wk1 (req "op" 7) empty_world in
  QuorumMet st = true /\ err = None /\
  exists c w', ExecuteOp nothing (fun _ => fine) "n1" "op" w1 = (XDone None, w') /\
    executed w' = [("op", "n1", c)] /\ rest w' = tt /\
    cOutcome c = OutcomeConfirmed /\ State <$> leases (db w') !! "op" = Some LeaseStateCompleted.
Proof.
  refine (fresh_operation_runs nothing fine fine (fun _ => fine) fine fine (fun _ => fine) wk1 (req "op" 7) empty_world
            eq_refl (conj eq_refl eq_refl) (fun _ => conj eq_refl eq_refl) (conj eq_refl eq_refl) (fun _ => conj eq_refl eq_refl)
            _ _ _ eq_refl eq_refl _ _ _ _ _ _ _); [discriminate|discriminate|reflexivity| | | | | | |].
  - vm_compute. reflexivity.
  - vm_compute. reflexivity.
  - intros n. apply lookup_empty.
  - vm_compute. reflexivity.
  - intros k. split; reflexivity.
  - vm_compute. split; [intros H; discriminate H|reflexivity].
  - reflexivity.
Defined.

(** The next event of the same source, once the first is booked. *)
Definition one_booked : World unit := with_db (booked 100 30 (req "op" 7) "n1" (db empty_world)) empty_world.

Lemma second_booking_lost_witness :
  let '((st, err), w1) := EnsureBook false fine fine (fun _ => fine) fine fine wk1 (req "op2" 8) one_booked in
  QuorumMet st = true /\ err = None /\ db w1 = db one_booked /\
  ExecuteOp nothing (fun _ => fine) "n1" "op2" w1 = (XDone None, w1) /\ executed w1 = executed one_booked.
Proof.
  refine (second_booking_lost nothing fine fine (fun _ => fine) fine fine (fun _ => fine) wk1 (req "op2" 8) one_booked
            eq_refl (conj eq_refl eq_refl) (fun _ => conj eq_refl eq_refl) (fun _ => conj eq_refl eq_refl) eq_refl eq_refl eq_refl
            _ _ _ eq_refl eq_refl _ _ _); [discriminate|discriminate|reflexivity| | |].
  - vm_compute. reflexivity.
  - vm_compute. reflexivity.
  - intros n. cbn. rewrite lookup_insert_ne by congruence. apply lookup_empty.
Defined.

(** Two nodes race for one operation. *)
Definition race : list Act :=
  let steps k := map (fun _ => AStep k fine) (seq 0 6) in
  [ABook (fun _ => fine) wk1 (req "op" 7) ["n1"]; ACall "op" "n1"; ACall "op" "n2"] ++ steps 0%nat ++ steps 1%nat ++
  map (fun _ => AStep 0 fine) (seq 0 7).

Lemma executed_once_witness :
  NoDup (map (fun e => fst (fst e)) (executed (fst (acts nothing race (empty_world, []))))) /\
  map (fun e => fst e) (executed (fst (acts nothing race (empty_world, [])))) = [("op", "n1")].
Proof.
  split; [|vm_compute; reflexivity]. apply (executed_once nothing race empty_world). reflexivity.
Defined.

(** A lease whose executor failed. *)
Definition failed_lease : Lease :=
  mkLease 1 "management" "set" 1 "factor" (scope1 7, 1) LeaseStateExecuting (Some "n1") 1 130 0 None.
Definition failed_world : World unit :=
  mkWorld (mkDB {["op" := failed_lease]} {[("op", "n1") := true]} ∅ ∅) ∅ ∅ [] tt.

Lemma claimed_never_retried_witness :
  executed (snd (ExecuteOp nothing (fun _ => fine) "n1" "op" failed_world)) = [] /\
  fst (ExecuteOp nothing (fun _ => fine) "n1" "op" failed_world) = XDone None.
Proof.
  destruct (claimed_never_retried nothing (fun _ => fine) "n1" "op" failed_world failed_lease) as [H1 H2]; [reflexivity|discriminate|].
  split; [exact H1|]. apply H2; [by split|discriminate].
Defined.

Lemma fencing_epochs_increase_witness :
  StronglySorted Z.lt (fst (fence_run ("n", "set") [FNext true true; FNext false true; FRestart; FNext true true] ∅)) /\
  fst (fence_run ("n", "set") [FNext true true; FNext false true; FRestart; FNext true true] ∅) = [1; 3].
Proof.
  split; [|vm_compute; reflexivity].
  apply (fencing_epochs_increase ("n", "set") [FNext true true; FNext false true; FRestart; FNext true true] ∅);
    vm_compute; [split|]; intros H; discriminate H.
Defined.

Lemma dedup_claims_agree_witness :
  let c1 := mkClaimIn 0 "a" (scope1 1) "u" in
  let c2 := mkClaimIn 9 "b" (scope1 1) "u" in
  nth_error (claims [c1; c2] ∅) 0 = Some (c1, (OutcomeConfirmed, "a", "v2|region|source|1|1|1|u|a")) /\
  (OutcomeAlreadyConfirmed = OutcomeAlreadyConfirmed /\ "a" = "a").
Proof.
  cbv zeta. split; [vm_compute; reflexivity|].
  destruct (dedup_claims_agree [mkClaimIn 0 "a" (scope1 1) "u"; mkClaimIn 9 "b" (scope1 1) "u"] ∅ 0 1
    (mkClaimIn 0 "a" (scope1 1) "u") (mkClaimIn 9 "b" (scope1 1) "u") OutcomeConfirmed OutcomeAlreadyConfirmed "a" "a"
    "v2|region|source|1|1|1|u|a" "v2|region|source|1|1|1|u|a") as (_ & Hd & _ & Ho); try (vm_compute; reflexivity).
  by split.
Defined.

End OperationLease.
