(* ===== verification/RegionRelay.v ===== *)
(** * The region relay

    Models [internal/outbox/region_relay.go] with the booking request of
    [internal/shardadmin/lease_types.go]: the worker that delivers the outbox
    events of the home region to a cell, directly or under an operation lease
    of [OperationLease].  The hashes behind the ids are parameters; whether
    handling an event fails is an input. *)

From stdpp Require Import gmap pretty.
From S2P Require Import Prelude OperationLease.
From Stdlib Require Import Ascii.
Open Scope string_scope.
Open Scope Z_scope.

Module RegionRelay.

Import OperationLease.

#[local] Abbreviation UUID := string (only parsing).

Inductive Delivery := PENDING | PROCESSING (since : Z) | DELIVERED.
#[export] Instance Delivery_eq_dec : EqDecision Delivery.
Proof. solve_decision. Defined.

(** The rows of the region: the deliveries by event and
    [region_apply_idempotency]; the keys set in Redis; and the events whose
    handler returned without an error. *)
Record Relay := mkRelay { status : gmap Z Delivery; applied : gset Z; nx_keys : gset string; handled : list Z }.

Definition with_status (ev : Z) (s : Delivery) (r : Relay) : Relay :=
  mkRelay (<[ev := s]> (status r)) (applied r) (nx_keys r) (handled r).
(** An update of a row that is there. *)
Definition update_status (ev : Z) (s : Delivery) (r : Relay) : Relay :=
  match status r !! ev with Some _ => with_status ev s r | None => r end.

Record Row := mkRow { outboxEventID : Z; eventType : string; payload : string }.

Section relay.
Context (sha1 sha256 : string -> UUID) (regionCode epoch : Z) (shards : bool).

(** ** Ids *)

Definition RelayDeliveryOpID (ev : Z) : UUID := sha1 ("ad_event_processor-relay-op:" ++ pretty regionCode ++ ":" ++ pretty ev).
Definition RegionUUID : UUID := sha1 ("ad_event_processor-region:" ++ pretty regionCode).
Definition RelaySourceID : UUID := sha1 ("ad_event_processor-relay:" ++ pretty regionCode).
Definition RelaySetID : UUID := sha1 ("ad_event_processor-relay-set:" ++ pretty regionCode).
Definition CanonicalRelayPayload (row : Row) : string :=
  "relay|" ++ pretty (outboxEventID row) ++ "|" ++ eventType row ++ "|" ++ payload row.
Definition FactorU_of (row : Row) : UUID := sha256 (CanonicalRelayPayload row).
Definition RegionScope (ev : Z) : Scope := mkScope RegionUUID RelaySourceID epoch ev ev.

Definition RelayDeliveryBookRequest (nodes : list string) (row : Row) (attempt : Z) : BookRequest :=
  mkRequest (RelayDeliveryOpID (outboxEventID row)) regionCode "management" RelaySetID (if attempt <=? 0 then 1 else attempt)
    (FactorU_of row) (RegionScope (outboxEventID row)) nodes [].

(** ** Applying a delivery

    [more] says which calls of the operation succeed: the queries of
    [region_apply_idempotency] (0, 3), the updates of a delivered row (1, 4),
    the keys in Redis (2; 7, set although it failed), the handler (5), and the
    transaction at the end (6; 8, committed without an answer). *)
Definition markDelivered (ok : bool) (ev : Z) (r : Relay) : Relay * option Err :=
  if ok then (update_status ev DELIVERED r, None) else (r, Some ErrIO).

Definition commit_applied (ev : Z) (r : Relay) : Relay :=
  if bool_decide (ev ∈ applied r) then r
  else update_status ev DELIVERED (mkRelay (status r) ({[ev]} ∪ applied r) (nx_keys r) (handled r)).

Definition handle_and_commit (ev : Z) (i : In) (r : Relay) : Relay * option Err :=
  if negb (more i 5) then (r, Some ErrIO)
  else
    let r := mkRelay (status r) (applied r) (nx_keys r) (handled r ++ [ev])%list in
    (if more i 6 || more i 8 then commit_applied ev r else r, if more i 6 then None else Some ErrIO).

(** The mark in Redis; [Some true] when it was new. *)
Definition SetNXOnAllShards (key : string) (i : In) (r : Relay) : Relay * option bool :=
  let set := mkRelay (status r) (applied r) ({[key]} ∪ nx_keys r) (handled r) in
  if more i 2 then (set, Some (negb (bool_decide (key ∈ nx_keys r)))) else (if more i 7 then set else r, None).

Definition applyDeliverySideEffects (ev : Z) (c : ClaimResult) (i : In) (r : Relay) : Relay * option Err :=
  let already := bool_decide (cOutcome c = OutcomeAlreadyConfirmed) in
  if already && negb (more i 0) then (r, Some ErrIO)
  else if already && bool_decide (ev ∈ applied r) then markDelivered (more i 1) ev r
  else if shards && negb (bool_decide (DedupKey c = "")) && bool_decide (cOutcome c = OutcomeConfirmed) then
    match SetNXOnAllShards (DedupKey c) i r with
    | (r, None) => (r, Some ErrIO)
    | (r, Some true) => handle_and_commit ev i r
    | (r, Some false) =>
        if negb (more i 3) then (r, Some ErrIO)
        else if bool_decide (ev ∈ applied r) then markDelivered (more i 4) ev r else handle_and_commit ev i r
    end
  else handle_and_commit ev i r.

#[local] Abbreviation W := (World Relay).
Definition with_rest (r : Relay) (w : W) : W := mkWorld (db w) (qstore w) (fence w) (executed w) r.

(** [ic] is the claim, [i] what follows; 9 and 10 are the query and update
    after the key, which is set here a first time. *)
Definition applyDeliveryDirect (ic i i' : In) (row : Row) (w : W) : W * option Err :=
  let ev := outboxEventID row in
  let '(o, d, key, ps) := dedup_claim_confirm (now ic) (fresh ic) (RegionScope ev) (FactorU_of row) (proposals (db w)) in
  let c := mkClaim o d key (RegionScope ev) (FactorU_of row) in
  let w := on_db ic (mkDB (leases (db w)) (replicas (db w)) ps (sync_idempotency (db w))) w in
  if negb (reply ic) then (w, Some ErrIO)
  else match GuardOutcome c with
  | Some e => (w, Some e)
  | None =>
      let effects r := let '(r, e) := applyDeliverySideEffects ev c i' r in (with_rest r w, e) in
      let marked ok r := let '(r, e) := markDelivered ok ev r in (with_rest r w, e) in
      let already := bool_decide (o = OutcomeAlreadyConfirmed) in
      if already && negb (more i 0) then (w, Some ErrIO)
      else if already && bool_decide (ev ∈ applied (rest w)) then marked (more i 1) (rest w)
      else if shards && negb (bool_decide (key = "")) then
        match SetNXOnAllShards key i (rest w) with
        | (r, None) => (with_rest r w, Some ErrIO)
        | (r, Some fresh_key) =>
            if negb fresh_key && bool_decide (o = OutcomeConfirmed) then
              if negb (more i 9) then (with_rest r w, Some ErrIO)
              else if bool_decide (ev ∈ applied r) then marked (more i 10) r else effects r
            else effects r
        end
      else effects (rest w)
  end.

(** What a leased delivery meets: the booking and the steps of the call. *)
Record Turn := mkTurn {
  t_get : In; t_ping : In; t_book : nat -> In; t_retry : In; t_status : In; t_exec : nat -> In; t_shed : bool }.

Definition applyDeliveryLeased (wk : Worker) (nodes : list string) (t : Turn) (row : Row) (w : W) : W * option Err :=
  let q := RelayDeliveryBookRequest nodes row 1 in
  let '((st, err), w) := EnsureBook (t_shed t) (t_get t) (t_ping t) (t_book t) (t_retry t) (t_status t) wk q w in
  match err with
  | Some e => (w, Some e)
  | None =>
      if negb (QuorumMet st) then (w, Some ErrLeaseQuorumNotMet)
      else
        let '(q', w) := ExecuteOp (fun _ c i r => applyDeliverySideEffects (outboxEventID row) c i r) (t_exec t) (nodeID wk) (OpID q) w in
        (w, match q' with XDone e => e | _ => Some ErrIO end)
  end.

(** ** A round

    [rows] are the pending rows the first transaction selected and locked;
    [apply] delivers one. *)
Definition revert_pending (rows : list Row) (r : Relay) : Relay := foldl (fun r row => update_status (outboxEventID row) PENDING r) r rows.
Definition mark_processing (now : Z) (rows : list Row) (r : Relay) : Relay :=
  foldl (fun r row => update_status (outboxEventID row) (PROCESSING now) r) r rows.

Fixpoint deliver_all {T} (apply : T -> Row -> W -> W * option Err) (turns : nat -> T) (revert_ok : bool) (rows : list Row) (w : W) : W * Z :=
  match rows with
  | [] => (w, 0)
  | row :: rest_rows =>
      match apply (turns O) row w with
      | (w, None) => let '(w, n) := deliver_all apply (fun k => turns (S k)) revert_ok rest_rows w in (w, n + 1)
      | (w, Some _) => (if revert_ok then with_rest (revert_pending rows (rest w)) w else w, 0)
      end
  end.

Definition ProcessPendingWithCount {T} (apply : T -> Row -> W -> W * option Err) (now : Z) (turns : nat -> T) (revert_ok : bool)
    (rows : list Row) (w : W) : W * Z :=
  let picked := List.filter (fun row => bool_decide (status (rest w) !! outboxEventID row = Some PENDING)) rows in
  deliver_all apply turns revert_ok picked (with_rest (mark_processing now picked (rest w)) w).

(** A minute, in seconds. *)
Definition reclaimStaleProcessing (now : Z) (r : Relay) : Relay :=
  mkRelay ((fun s => match s with PROCESSING t => if t <? now - 60 then PENDING else s | _ => s end) <$> status r)
    (applied r) (nx_keys r) (handled r).

(** ** Runs

    Rounds of the relay in either mode, reclaims, and new events. *)
Inductive Round :=
  | RDirect (now : Z) (turns : nat -> In * In * In) (revert_ok : bool) (rows : list Row)
  | RLeased (now : Z) (wk : Worker) (nodes : list string) (turns : nat -> Turn) (revert_ok : bool) (rows : list Row)
  | RReclaim (now : Z) | REvent (ev : Z).

Definition direct (t : In * In * In) : Row -> W -> W * option Err := applyDeliveryDirect (fst (fst t)) (snd (fst t)) (snd t).

Definition round (o : Round) (w : W) : W :=
  match o with
  | RDirect now turns revert_ok rows => fst (ProcessPendingWithCount direct now turns revert_ok rows w)
  | RLeased now wk nodes turns revert_ok rows =>
      fst (ProcessPendingWithCount (applyDeliveryLeased wk nodes) now turns revert_ok rows w)
  | RReclaim now => with_rest (reclaimStaleProcessing now (rest w)) w
  | REvent ev => match status (rest w) !! ev with Some _ => w | None => with_rest (with_status ev PENDING (rest w)) w end
  end.
Definition rounds (l : list Round) (w : W) : W := foldl (fun w o => round o w) w l.

(** ** A delivered event was handled *)

Definition relay_inv (r : Relay) : Prop :=
  (forall ev, ev ∈ applied r -> ev ∈ handled r) /\ (forall ev, status r !! ev = Some DELIVERED -> ev ∈ handled r).

Lemma update_status_inv ev s r : relay_inv r -> (s = DELIVERED -> ev ∈ handled r) -> relay_inv (update_status ev s r).
Proof.
  intros [H1 H2] Hs. unfold update_status. destruct (status r !! ev) eqn:E; [|done]. split; [done|]. cbn. intros ev'.
  destruct (decide (ev = ev')) as [<-|Hne]; [rewrite lookup_insert_eq; intros [= ->]; by apply Hs|].
  rewrite lookup_insert_ne by done. apply H2.
Qed.

Lemma markDelivered_inv ok ev r : relay_inv r -> ev ∈ applied r -> relay_inv (fst (markDelivered ok ev r)).
Proof. intros H Ha. unfold markDelivered. destruct ok; [|done]. apply update_status_inv; [done|]. intros _. destruct H as [H _]. auto. Qed.

Lemma handle_and_commit_inv ev i r : relay_inv r -> relay_inv (fst (handle_and_commit ev i r)).
Proof.
  intros [H1 H2]. unfold handle_and_commit. destruct (negb _); [done|]. cbn.
  set (r1 := mkRelay (status r) (applied r) (nx_keys r) (handled r ++ [ev])%list).
  assert (Hr1 : relay_inv r1) by (split; cbn; intros ev' H; apply elem_of_app; left; auto).
  destruct (_ || _); [|exact Hr1]. pose proof Hr1 as [Ha Hd]. unfold commit_applied. case_bool_decide; [exact Hr1|]. apply update_status_inv; cbn.
  - split; cbn; [|exact Hd]. intros ev' [->%elem_of_singleton|He]%elem_of_union; [apply elem_of_app; right; left|by apply Ha].
  - intros _. apply elem_of_app. right. left.
Qed.

Lemma SetNX_inv key i r : relay_inv r -> relay_inv (fst (SetNXOnAllShards key i r)) /\
  applied (fst (SetNXOnAllShards key i r)) = applied r.
Proof. intros H. unfold SetNXOnAllShards. destruct (more i 2); [|destruct (more i 7)]; by split. Qed.

Lemma side_effects_inv ev c i r : relay_inv r -> relay_inv (fst (applyDeliverySideEffects ev c i r)).
Proof.
  intros H. unfold applyDeliverySideEffects. cbv zeta. destruct (_ && negb (more i 0)); [done|].
  destruct (bool_decide (cOutcome c = OutcomeAlreadyConfirmed) && bool_decide (ev ∈ applied r)) eqn:E1.
  { apply andb_true_iff in E1 as [_ E1%bool_decide_eq_true]. by apply markDelivered_inv. }
  destruct (_ && _ && _); [|by apply handle_and_commit_inv].
  destruct (SetNX_inv (DedupKey c) i r H) as [H1 H2]. destruct (SetNXOnAllShards _ _ _) as [r1 [[|]|]]; cbn in H1, H2; [by apply handle_and_commit_inv| |done].
  destruct (negb (more i 3)); [done|]. destruct (bool_decide (ev ∈ applied r1)) eqn:Ea; [apply bool_decide_eq_true in Ea; by apply markDelivered_inv|by apply handle_and_commit_inv].
Qed.

Lemma rest_with_rest r (w : W) : rest (with_rest r w) = r.
Proof. done. Qed.

Lemma rest_on_db i d (w : W) : rest (on_db i d w) = rest w.
Proof. unfold on_db. by destruct (_ || _). Qed.

Lemma direct_inv t row (w : W) : relay_inv (rest w) -> relay_inv (rest (fst (direct t row w))).
Proof.
  destruct t as [[ic i] i']. unfold direct, applyDeliveryDirect. cbn [fst snd]. intros H.
  destruct (dedup_claim_confirm _ _ _ _ _) as [[[o d] key] ps]. cbv zeta.
  set (w1 := on_db ic _ w). assert (H1 : relay_inv (rest w1)) by (unfold w1; by rewrite rest_on_db).
  destruct (negb (reply ic)); [done|]. destruct (GuardOutcome _); [done|]. destruct (_ && negb (more i 0)); [done|].
  destruct (_ && bool_decide (outboxEventID row ∈ applied (rest w1))) eqn:E.
  { apply andb_true_iff in E as [_ E%bool_decide_eq_true]. pose proof (markDelivered_inv (more i 1) _ _ H1 E) as Hm. by destruct (markDelivered _ _ _). }
  assert (He : forall r, relay_inv r -> relay_inv (rest (fst (let '(r, e) := applyDeliverySideEffects (outboxEventID row)
            (mkClaim o d key (RegionScope (outboxEventID row)) (FactorU_of row)) i' r in (with_rest r w1, e))))).
  { intros r Hr. pose proof (side_effects_inv (outboxEventID row) (mkClaim o d key (RegionScope (outboxEventID row)) (FactorU_of row)) i' r Hr) as Hs.
    by destruct (applyDeliverySideEffects _ _ _ _). }
  destruct (_ && negb (bool_decide (key = ""))); [|by apply He].
  destruct (SetNX_inv key i (rest w1) H1) as [H2 H3]. destruct (SetNXOnAllShards _ _ _) as [r1 [b|]]; cbn in H2, H3; [|exact H2].
  destruct (negb b && bool_decide (o = OutcomeConfirmed)); [|exact (He r1 H2)]. destruct (negb (more i 9)); [exact H2|].
  destruct (bool_decide (outboxEventID row ∈ applied r1)) eqn:Ea; [apply bool_decide_eq_true in Ea|exact (He r1 H2)].
  pose proof (markDelivered_inv (more i 10) _ _ H2 Ea) as Hm. by destruct (markDelivered _ _ _).
Qed.

(** Booking and executing touch the relay's rows only in the operation. *)
Lemma run_stmts_rest ins l (w : W) : rest (snd (run_stmts ins l w)) = rest w.
Proof.
  revert ins w. induction l as [|st l IH]; intros ins w; [done|]. cbn. destruct (st _ _) as [d|]; [|done].
  destruct (reply _); cbn; rewrite ?IH; apply rest_on_db.
Qed.

Lemma bookRedis_rest i wk q (w : W) : rest (snd (bookRedis i wk q w)) = rest w.
Proof.
  unfold bookRedis. destruct (negb _); [done|]. destruct (negb _); [done|]. destruct (ack_redis _ _ _ _) as [qs [st|]]; [done|].
  by destruct (Book _ _ _ _).
Qed.

Lemma ensure_book_rest shed g i0 ins i1 i2 wk q (w : W) : rest (snd (EnsureBook shed g i0 ins i1 i2 wk q w)) = rest w.
Proof.
  unfold EnsureBook. destruct (negb _); [done|]. destruct (leases (db w) !! OpID q); [done|].
  enough (rest (snd (BookLease shed i0 ins i1 i2 wk q w)) = rest w) by (destruct (BookLease _ _ _ _ _ _ _ _) as [[st err] w1]; done).
  unfold BookLease. destruct shed; [done|]. destruct (_ || _); [done|]. cbv zeta. destruct (negb _); [apply bookRedis_rest|].
  match goal with |- context [run_stmts ?a ?b w] => pose proof (run_stmts_rest a b w) as Hr; destruct (run_stmts a b w) as [ran w1] end.
  cbn in Hr. destruct (negb ran); [|by destruct (quorumStatus _ _ _)]. destruct (_ || _); [by rewrite bookRedis_rest|done].
Qed.

Lemma exec_step_rest (execute : UUID -> ClaimResult -> In -> Relay -> Relay * option Err) I i p (w : W) :
  (forall op c i r, I r -> I (fst (execute op c i r))) -> I (rest w) -> I (rest (snd (exec_step execute i p w))).
Proof.
  intros He H. unfold exec_step. destruct (pPC p); cbn; try done.
  - by destruct (_ || _).
  - destruct (OperationLeaseClaimExecuting _ _ _ _ _). cbn. by rewrite rest_on_db.
  - destruct (dedup_claim_confirm _ _ _ _ _) as [[[o d] key] ps]. cbn. by rewrite rest_on_db.
  - pose proof (He (pOp p) c i (rest w) H). by destruct (execute _ _ _ _).
  - case_bool_decide; cbn; [done|]. by rewrite rest_on_db.
  - destruct (CompleteOperationLease _ _ _); cbn; [by rewrite rest_on_db|done].
Qed.

Lemma exec_run_rest (execute : UUID -> ClaimResult -> In -> Relay -> Relay * option Err) I fuel ins p (w : W) :
  (forall op c i r, I r -> I (fst (execute op c i r))) -> I (rest w) -> I (rest (snd (exec_run execute fuel ins p w))).
Proof.
  intros He. revert ins p w. induction fuel as [|fuel IH]; intros ins p w H; [done|]. cbn.
  pose proof (exec_step_rest execute I (ins 0%nat) p w He H) as Hs. destruct (exec_step _ _ _ _) as [q w1]. by apply IH.
Qed.

Lemma leased_inv wk nodes t row (w : W) : relay_inv (rest w) -> relay_inv (rest (fst (applyDeliveryLeased wk nodes t row w))).
Proof.
  intros H. unfold applyDeliveryLeased. cbv zeta.
  match goal with |- context [EnsureBook ?a ?b ?c ?d ?e ?f ?g ?h w] =>
    pose proof (ensure_book_rest a b c d e f g h w) as Hr; destruct (EnsureBook a b c d e f g h w) as [[st err] w1] end.
  cbn in Hr. rewrite <- Hr in H. destruct err; [done|]. destruct (negb _); [done|].
  match goal with |- context [ExecuteOp ?a ?b ?c ?d w1] =>
    pose proof (exec_run_rest a relay_inv exec_fuel b (mkProc d c XQuorum) w1 ltac:(intros; by apply side_effects_inv) H) as Hx;
    change (exec_run a exec_fuel b (mkProc d c XQuorum) w1) with (ExecuteOp a b c d w1) in Hx; by destruct (ExecuteOp a b c d w1) end.
Qed.

Lemma fold_update_inv (s : Delivery) rows r :
  s <> DELIVERED -> relay_inv r -> relay_inv (foldl (fun r row => update_status (outboxEventID row) s r) r rows).
Proof.
  intros Hs. revert r. induction rows as [|row rows IH]; intros r H; [done|]. cbn. apply IH, update_status_inv; [done|]. by intros.
Qed.

Lemma deliver_all_inv {T} (apply : T -> Row -> W -> W * option Err) turns revert_ok rows (w : W) :
  (forall t row w, relay_inv (rest w) -> relay_inv (rest (fst (apply t row w)))) ->
  relay_inv (rest w) -> relay_inv (rest (fst (deliver_all apply turns revert_ok rows w))).
Proof.
  intros Ha. revert turns w. induction rows as [|row rows IH]; intros turns w H; [done|]. cbn [deliver_all].
  pose proof (Ha (turns 0%nat) row w H) as H1. destruct (apply _ row w) as [w1 [e|]]; cbn in H1.
  - destruct revert_ok; [|exact H1]. by apply (fold_update_inv PENDING (row :: rows)).
  - specialize (IH (fun k => turns (S k)) w1 H1). by destruct (deliver_all _ _ _ _ w1).
Qed.

Lemma round_inv o (w : W) : relay_inv (rest w) -> relay_inv (rest (round o w)).
Proof.
  intros H. destruct o as [now turns rv rows|now wk nodes turns rv rows|now|ev]; cbn [round].
  - apply deliver_all_inv; [intros; by apply direct_inv|]. by apply fold_update_inv.
  - apply deliver_all_inv; [intros; by apply leased_inv|]. by apply fold_update_inv.
  - destruct H as [H1 H2]. split; [done|]. cbn. intros ev. rewrite lookup_fmap.
    destruct (status (rest w) !! ev) as [[|t|]|] eqn:E; cbn; try done; [by destruct (_ <? _)|]. intros _. by apply H2.
  - destruct (status (rest w) !! ev) eqn:E; [done|]. destruct H as [H1 H2]. split; [done|]. cbn. intros ev'.
    destruct (decide (ev = ev')) as [<-|Hne]; [by rewrite lookup_insert_eq|rewrite lookup_insert_ne by done; apply H2].
Qed.

(** C14: an event is reported delivered only after it was handled: through any
    rounds of the relay, direct or leased, with any failures, reclaims and new
    events, a row is DELIVERED, or recorded as applied, only for an event
    whose handler returned without an error. *)
Theorem delivered_was_handled l (w : W) ev :
  applied (rest w) = ∅ -> (forall ev, status (rest w) !! ev <> Some DELIVERED) ->
  status (rest (rounds l w)) !! ev = Some DELIVERED \/ ev ∈ applied (rest (rounds l w)) -> ev ∈ handled (rest (rounds l w)).
Proof.
  intros Ha Hs. assert (Hi : relay_inv (rest (rounds l w))).
  { assert (H0 : relay_inv (rest w)) by (split; [rewrite Ha; set_solver|intros e He; by apply Hs in He]).
    clear Ha Hs. revert w H0. induction l as [|o l IH]; intros w H0; [done|]. by apply IH, round_inv. }
  destruct Hi as [H1 H2]. intros [H|H]; auto.
Qed.

(** ** The first event of a region *)

Lemma side_effects_first ev c i r :
  (forall k, (k < 7)%nat -> more i k = true) -> cOutcome c = OutcomeConfirmed -> ev ∉ applied r ->
  let r' := fst (applyDeliverySideEffects ev c i r) in
  handled r' = (handled r ++ [ev])%list /\ (is_Some (status r !! ev) -> status r' !! ev = Some DELIVERED).
Proof.
  intros Hm Hc Hn. assert (Hh : forall r0, applied r0 = applied r -> handled r0 = handled r -> status r0 = status r ->
            let r' := fst (handle_and_commit ev i r0) in
            handled r' = (handled r ++ [ev])%list /\ (is_Some (status r !! ev) -> status r' !! ev = Some DELIVERED)).
  { intros r0 H1 H2 H3. unfold handle_and_commit. rewrite (Hm 5%nat), (Hm 6%nat) by lia. cbn. unfold commit_applied.
    rewrite bool_decide_eq_false_2 by (cbn; by rewrite H1). unfold update_status. cbn. rewrite H3.
    destruct (status r !! ev) eqn:E; cbn; rewrite H2; (split; [done|]); [intros _; by rewrite lookup_insert_eq|by intros []]. }
  unfold applyDeliverySideEffects. rewrite Hc, (bool_decide_eq_false_2 (OutcomeConfirmed = OutcomeAlreadyConfirmed)) by done.
  cbn [andb]. destruct (_ && _ && _); [|by apply Hh]. unfold SetNXOnAllShards. rewrite (Hm 2%nat) by lia.
  destruct (negb _); [by apply Hh|]. rewrite (Hm 3%nat) by lia. cbn [negb applied].
  rewrite (bool_decide_eq_false_2 (ev ∈ applied r)) by done. by apply Hh.
Qed.

Lemma side_effects_answer ev c i r : (forall k, (k < 7)%nat -> more i k = true) -> snd (applyDeliverySideEffects ev c i r) = None.
Proof.
  intros Hm. assert (Hh : forall r0, snd (handle_and_commit ev i r0) = None).
  { intros r0. unfold handle_and_commit. by rewrite (Hm 5%nat), (Hm 6%nat) by lia. }
  assert (Hd : forall k r0, (k < 7)%nat -> snd (markDelivered (more i k) ev r0) = None) by (intros k r0 Hk; unfold markDelivered; by rewrite Hm).
  unfold applyDeliverySideEffects. rewrite (Hm 0%nat), (Hm 3%nat) by lia. cbn -[handle_and_commit markDelivered]. rewrite andb_false_r.
  destruct (_ && _); [apply Hd; lia|]. destruct (_ && _ && _); [|apply Hh].
  unfold SetNXOnAllShards. rewrite (Hm 2%nat) by lia. destruct (negb _); [apply Hh|]. destruct (bool_decide _); [apply Hd; lia|apply Hh].
Qed.

(** Every call of a delivery is answered; the retry of a booking finds Redis. *)
Record healthy (t : Turn) : Prop := mkHealthy {
  h_get : reply (t_get t) = true; h_ping : answered (t_ping t); h_book : forall k, answered (t_book t k);
  h_status : answered (t_status t); h_exec : forall k, answered (t_exec t k); h_more : forall j k, (k < 7)%nat -> more (t_exec t j) k = true;
  h_redis : has_redis (t_retry t) = true; h_retry : reply (t_retry t) = true; h_cut : cut (t_retry t) = false; h_shed : t_shed t = false }.

(** C15: the first event of a region is delivered: on a healthy system, with
    no lease of the region's replica set, a leased delivery handles the event
    once and leaves it DELIVERED. *)
Theorem first_event_delivered wk t row (w : W) :
  healthy t -> RelayDeliveryOpID (outboxEventID row) <> Nil -> RelaySetID <> Nil ->
  leases (db w) !! RelayDeliveryOpID (outboxEventID row) = None -> attempt_taken RelaySetID 1 (leases (db w)) = false ->
  (forall n, replicas (db w) !! (RelayDeliveryOpID (outboxEventID row), n) = None) ->
  proposals (db w) !! RegionScope (outboxEventID row) = None ->
  (forall k, now (t_exec t k) < now (t_book t 0%nat) + timeoutSec wk /\ clock (t_exec t k) < now (t_book t 0%nat) + timeoutSec wk) ->
  0 <= mem (fstore (fence w) (nodeID wk, RelaySetID)) < max_i64 ->
  outboxEventID row ∉ applied (rest w) -> is_Some (status (rest w) !! outboxEventID row) ->
  exists w', applyDeliveryLeased wk [nodeID wk] t row w = (w', None) /\
    handled (rest w') = (handled (rest w) ++ [outboxEventID row])%list /\ status (rest w') !! outboxEventID row = Some DELIVERED.
Proof.
  intros [] Ho Hs Hl Ht Hr Hp Hnow Hm Ha Hst. unfold applyDeliveryLeased. rewrite h_shed0.
  set (q := RelayDeliveryBookRequest [nodeID wk] row 1).
  set (cb := fun (_ : UUID) c i r => applyDeliverySideEffects (outboxEventID row) c i r).
  pose proof (fresh_operation_runs cb (t_get t) (t_ping t) (t_book t) (t_retry t) (t_status t) (t_exec t) wk q w h_get0 h_ping0 h_book0 h_status0
    h_exec0 Ho Hs ltac:(done) eq_refl eq_refl Hl Ht Hr Hp Hnow Hm ltac:(intros c; apply side_effects_answer, h_more0)) as H.
  destruct (EnsureBook _ _ _ _ _ _ _ _ _) as [[st err] w1]. destruct H as (Hq & -> & c & w' & Hx & _ & Hrest & Hc & _).
  rewrite Hq. cbn [negb]. change (OpID q) with (RelayDeliveryOpID (outboxEventID row)) in *. fold cb. rewrite Hx. exists w'. split; [done|].
  destruct (side_effects_first (outboxEventID row) c (t_exec t 9%nat) (rest w) (h_more0 9%nat) Hc Ha) as [H1 H2].
  unfold cb in Hrest. rewrite Hrest. split; [exact H1|by apply H2].
Qed.

(** ** The later events *)

(** An event whose operation has no lease, in tables where the region's
    replica set has one. *)
Definition shadowed (d : DB) (row : Row) : Prop :=
  RelayDeliveryOpID (outboxEventID row) <> Nil /\ leases d !! RelayDeliveryOpID (outboxEventID row) = None /\
  forall n, replicas d !! (RelayDeliveryOpID (outboxEventID row), n) = None.

Lemma shadowed_delivery wk t row (w : W) :
  healthy t -> RelaySetID <> Nil -> attempt_taken RelaySetID 1 (leases (db w)) = true -> shadowed (db w) row ->
  exists w', applyDeliveryLeased wk [nodeID wk] t row w = (w', None) /\ db w' = db w /\ rest w' = rest w.
Proof.
  intros [] Hs Ht (Ho & Hl & Hr). unfold applyDeliveryLeased. rewrite h_shed0.
  set (q := RelayDeliveryBookRequest [nodeID wk] row 1).
  set (cb := fun (_ : UUID) c i r => applyDeliverySideEffects (outboxEventID row) c i r).
  pose proof (second_booking_lost cb (t_get t) (t_ping t) (t_book t) (t_retry t) (t_status t) (t_exec t) wk q w h_get0 h_ping0 h_book0
    h_exec0 h_redis0 h_retry0 h_cut0 Ho Hs ltac:(done) eq_refl eq_refl Hl Ht Hr) as H.
  pose proof (ensure_book_rest false (t_get t) (t_ping t) (t_book t) (t_retry t) (t_status t) wk q w) as Hrest.
  destruct (EnsureBook _ _ _ _ _ _ _ _ _) as [[st err] w1]. destruct H as (Hq & -> & Hd & Hx & _). cbn in Hrest.
  rewrite Hq. cbn [negb]. change (OpID q) with (RelayDeliveryOpID (outboxEventID row)) in *. fold cb. rewrite Hx. by exists w1.
Qed.

(** A round of such events by a healthy relay, a reclaim, or a new event. *)
Definition later_round (d : DB) (o : Round) : Prop :=
  match o with
  | RLeased _ wk nodes turns _ rows => nodes = [nodeID wk] /\ (forall k, healthy (turns k)) /\ Forall (shadowed d) rows
  | RReclaim _ | REvent _ => True
  | RDirect _ _ _ _ => False
  end.

Lemma fold_update_status (s : Delivery) rows r ev :
  s <> DELIVERED -> status (foldl (fun r row => update_status (outboxEventID row) s r) r rows) !! ev = Some DELIVERED ->
  status r !! ev = Some DELIVERED.
Proof.
  intros Hs. revert r. induction rows as [|row rows IH]; intros r H; [done|]. cbn in H. apply IH in H. revert H.
  unfold update_status. destruct (status r !! outboxEventID row); [|done]. cbn.
  destruct (decide (outboxEventID row = ev)) as [->|Hne]; [rewrite lookup_insert_eq; by intros [= ->]|by rewrite lookup_insert_ne].
Qed.

Lemma fold_update_handled (s : Delivery) rows r : handled (foldl (fun r row => update_status (outboxEventID row) s r) r rows) = handled r.
Proof.
  revert r. induction rows as [|row rows IH]; intros r; [done|]. cbn. rewrite IH. unfold update_status. by destruct (status r !! _).
Qed.

Lemma shadowed_deliver_all wk turns rv rows (w : W) :
  (forall k, healthy (turns k)) -> RelaySetID <> Nil -> attempt_taken RelaySetID 1 (leases (db w)) = true -> Forall (shadowed (db w)) rows ->
  exists w', deliver_all (applyDeliveryLeased wk [nodeID wk]) turns rv rows w = (w', zlen rows) /\ db w' = db w /\ rest w' = rest w.
Proof.
  intros Hh Hs Ht Hr. revert turns w Hh Ht Hr. induction rows as [|row rows IH]; intros turns w Hh Ht Hr; [by exists w|]. cbn [deliver_all].
  apply Forall_cons in Hr as [Hr1 Hr2]. destruct (shadowed_delivery wk (turns 0%nat) row w (Hh 0%nat) Hs Ht Hr1) as (w1 & -> & Hd & He).
  destruct (IH (fun k => turns (S k)) w1 (fun k => Hh (S k))) as (w2 & -> & Hd2 & He2); [by rewrite Hd|by rewrite Hd|].
  exists w2. unfold zlen. cbn [length]. split; [f_equal; lia|]. split; congruence.
Qed.

(** What a round picks up, and how many deliveries it reports as done. *)
Definition due (o : Round) (w : W) : list Row :=
  match o with
  | RDirect _ _ _ rows | RLeased _ _ _ _ _ rows =>
      List.filter (fun row => bool_decide (status (rest w) !! outboxEventID row = Some PENDING)) rows
  | RReclaim _ | REvent _ => []
  end.
Definition reported (o : Round) (w : W) : Z :=
  match o with
  | RDirect now turns revert_ok rows => snd (ProcessPendingWithCount direct now turns revert_ok rows w)
  | RLeased now wk nodes turns revert_ok rows =>
      snd (ProcessPendingWithCount (applyDeliveryLeased wk nodes) now turns revert_ok rows w)
  | RReclaim _ | REvent _ => 0
  end.

Lemma later_round_spec o (w : W) :
  RelaySetID <> Nil -> attempt_taken RelaySetID 1 (leases (db w)) = true -> later_round (db w) o ->
  db (round o w) = db w /\ handled (rest (round o w)) = handled (rest w) /\ reported o w = zlen (due o w) /\
  forall ev, status (rest (round o w)) !! ev = Some DELIVERED -> status (rest w) !! ev = Some DELIVERED.
Proof.
  intros Hs Ht Ho. destruct o as [|now wk nodes turns rv rows|now|ev]; cbn [round reported due]; [done| | |].
  - destruct Ho as (-> & Hh & Hr). unfold ProcessPendingWithCount. cbv zeta.
    set (picked := List.filter _ rows). set (w0 := with_rest (mark_processing now picked (rest w)) w).
    destruct (shadowed_deliver_all wk turns rv picked w0 Hh Hs Ht) as (w1 & -> & Hd & He).
    { apply List.Forall_forall. intros x [Hx _]%filter_In. rewrite List.Forall_forall in Hr. by apply Hr. }
    cbn [fst snd]. rewrite He. split_and!; [by rewrite Hd|apply fold_update_handled|done|]. intros ev'. by apply fold_update_status.
  - split_and!; [done..|]. cbn. intros ev'. rewrite lookup_fmap. destruct (status (rest w) !! ev') as [[|t|]|]; cbn; try done. by destruct (_ <? _).
  - destruct (status (rest w) !! ev) eqn:E; [done|]. split_and!; [done..|]. cbn. intros ev'.
    destruct (decide (ev = ev')) as [<-|Hne]; [by rewrite lookup_insert_eq|by rewrite lookup_insert_ne].
Qed.

(** C40: in leased mode the later events of a region are reported delivered
    and never are.  Once the replica set has a lease, take any sequence of
    leased rounds over events without one, on a healthy system (every call
    is answered, Redis is there), with reclaims and new events between
    them.  No event is handled and none becomes DELIVERED; yet every round
    reports a success for each row it picked up. *)
Theorem later_events_never_delivered l (w : W) :
  RelaySetID <> Nil -> attempt_taken RelaySetID 1 (leases (db w)) = true -> Forall (later_round (db w)) l ->
  handled (rest (rounds l w)) = handled (rest w) /\
  (forall ev, status (rest (rounds l w)) !! ev = Some DELIVERED -> status (rest w) !! ev = Some DELIVERED) /\
  forall l1 o l2, l = (l1 ++ o :: l2)%list -> reported o (rounds l1 w) = zlen (due o (rounds l1 w)).
Proof.
  intros Hs. revert w. induction l as [|o l IH]; intros w Ht Hl.
  { split_and!; [done..|]. by intros [] ? ?. }
  apply Forall_cons in Hl as [Ho Hl]. destruct (later_round_spec o w Hs Ht Ho) as (Hd & Hh & Hrep & Hst).
  destruct (IH (round o w)) as (H1 & H2 & H3); [by rewrite Hd|by rewrite Hd|].
  cbn [rounds foldl]. change (foldl (fun w o => round o w) (round o w) l) with (rounds l (round o w)).
  split_and!; [congruence|intros ev Hev; by apply Hst, H2|].
  intros [|o1 l1] o2 l2 E; injection E as <- E; [exact Hrep|]. exact (H3 _ _ _ E).
Qed.

End relay.

(** ** Examples *)

Definition calm : Turn := mkTurn fine fine (fun _ => fine) fine fine (fun _ => fine) false.
Definition plain (s : string) : string := s.
Definition start (evs : list Z) : World Relay :=
  mkWorld (mkDB ∅ ∅ ∅ ∅) ∅ ∅ [] (mkRelay (list_to_map (map (fun ev => (ev, PENDING)) evs)) ∅ ∅ []).
Definition row (ev : Z) : Row := mkRow ev "settings" "{}".

Lemma calm_healthy : healthy calm.
Proof. split; try done; by split. Qed.

Lemma first_event_delivered_witness :
  exists w', applyDeliveryLeased plain plain 1 1 true wk1 ["n1"] calm (row 7) (start [7; 8]) = (w', None) /\
    handled (rest w') = [7] /\ status (rest w') !! 7 = Some DELIVERED.
Proof.
  refine (first_event_delivered plain plain 1 1 true wk1 calm (row 7) (start [7; 8]) calm_healthy _ _ _ _ _ _ _ _ _ _).
  - discriminate.
  - discriminate.
  - reflexivity.
  - reflexivity.
  - intros n. apply lookup_empty.
  - reflexivity.
  - intros k. split; reflexivity.
  - vm_compute. split; [intros H; discriminate H|reflexivity].
  - cbn. set_solver.
  - by eexists.
Defined.

(** The tables once the first event is booked. *)
Definition after_first : World Relay :=
  with_rest (rest (start [7; 8])) (with_db (booked 100 30 (RelayDeliveryBookRequest plain plain 1 1 ["n1"] (row 7) 1) "n1" (db (start [7; 8]))) (start [7; 8])).

Lemma later_events_never_delivered_witness :
  let l := [RLeased 100 wk1 ["n1"] (fun _ => calm) true [row 8]; RReclaim 200; RLeased 200 wk1 ["n1"] (fun _ => calm) true [row 8]] in
  handled (rest (rounds plain plain 1 1 true l after_first)) = [] /\
  status (rest (rounds plain plain 1 1 true l after_first)) !! 8 = Some (PROCESSING 200) /\
  map outboxEventID (due (RLeased 100 wk1 ["n1"] (fun _ => calm) true [row 8]) after_first) = [8].
Proof.
  cbv zeta. split; [|split; vm_compute; reflexivity].
  refine (proj1 (later_events_never_delivered plain plain 1 1 true
    [RLeased 100 wk1 ["n1"] (fun _ => calm) true [row 8]; RReclaim 200; RLeased 200 wk1 ["n1"] (fun _ => calm) true [row 8]] after_first _ _ _)).
  - discriminate.
  - vm_compute. reflexivity.
  - assert (Hsh : shadowed plain 1 (db after_first) (row 8)).
    { split; [discriminate|]. split; [vm_compute; reflexivity|]. intros n. cbn -[RelayDeliveryOpID]. rewrite lookup_insert_ne; [apply lookup_empty|].
      vm_compute. congruence. }
    assert (Hl : forall t, later_round plain 1 (db after_first) (RLeased t wk1 ["n1"] (fun _ => calm) true [row 8]))
      by (intros t; split; [reflexivity|split; [intros k; apply calm_healthy|apply Forall_singleton, Hsh]]).
    apply Forall_cons; split; [apply Hl|apply Forall_cons; split; [exact I|apply Forall_singleton, Hl]].
Defined.

Lemma delivered_was_handled_witness :
  let l := [RDirect 100 (fun _ => (fine, fine, fine)) true [row 7; row 8]] in
  7 ∈ handled (rest (rounds plain plain 1 1 true l (start [7; 8]))).
Proof.
  cbv zeta. apply (delivered_was_handled plain plain 1 1 true [RDirect 100 (fun _ => (fine, fine, fine)) true [row 7; row 8]] (start [7; 8]) 7).
  - reflexivity.
  - intros ev. cbn. destruct (decide (ev = 7)) as [->|H7]; [by rewrite lookup_insert_eq|]. rewrite lookup_insert_ne by done.
    destruct (decide (ev = 8)) as [->|H8]; [by rewrite lookup_insert_eq|]. by rewrite lookup_insert_ne, lookup_empty.
  - left. vm_compute. reflexivity.
Defined.

End RegionRelay.
